(* ===== verification/_CoqProject ===== *)
-Q . S2P
Prelude.v
Floats.v
LockTable.v
DeadlockDetector.v
LockSpec.v
Transaction.v
TransactionSpec.v
TransactionProps.v
TransactionExamples.v
TransactionRace.v
WalEntry.v
WalLog.v
WalFrames.v
WalSegments.v
WalRun.v
WalProps.v
WalExamples.v
Provenance.v
Temporal.v
Graph.v
Storage.v
Redb.v
GraphBackends.v
ProvenanceExamples.v
Modality.v
VectorSearch.v
BinaryHeap.v
Hnsw.v
HnswSearch.v
HnswSpec.v
HnswStore.v
HnswExact.v
HexadTypes.v
HexadStore.v
HexadLogic.v
HexadTxn.v
HexadView.v
HexadRead.v
HexadWal.v
HexadExamples.v
Circuit.v
Zkp.v
VerificationKeys.v
ProofStore.v
Rbac.v
Auth.v
AuthSpec.v
ZkpExamples.v
Regeneration.v
Conflict.v
Plan.v
Optimizer.v
VqlBridge.v
PlanCache.v
PlanCacheSpec.v
Drift.v
DriftSpec.v
Normalizer.v
NormalizerExamples.v
Profiler.v
ProfilerSpec.v
PlannerExamples.v
Metrics.v
ApiCommon.v
ApiTxn.v
ApiTxnSpec.v
ApiHexads.v
ApiHexadsSpec.v
ApiPlanner.v
ApiStatus.v
VqlApi.v
VqlApiSpec.v
Federation.v
GraphQl.v
ApiServer.v
ApiExamples.v
VqlText.v
VqlTextSpec.v
Shell.v
