(* ===== verification/Prelude.v ===== *)
(** * VeriSimDB: verification development (root file)

    VeriSimDB keeps every entity, a _hexad_, in eight modalities at once (graph, vector,
    tensor, semantic, document, temporal, provenance, spatial).  This library models the
    Rust core, the crates under [src/rust-core], as executable definitions and proves what
    makes them correct.  It is a shallow embedding: a Rust function is a Rocq function, a
    struct a record, an enum an inductive type, a method with [&mut self] a function that
    returns the new state, [Result] is [result] and [?] its monadic bind.  Names are the
    source's, prefixed by the type where two methods share a name.

    ** The parts and how they interact

    A write to the hexad store takes the locks of its entity at the transaction manager,
    logs its intent in the write-ahead log, writes the eight modality stores, logs the
    outcome and ends its transaction.  Around the store: the server authenticates, limits and
    authorises requests and leads them to handlers, which read and write hexads, carry out
    queries in VQL or ask peers of the federation; the planner turns a query into steps over
    the modalities and remembers what was slow; the drift detector scores how far the
    modalities of an entity disagree and the normalizer repairs them; the semantic store
    proves claims about an entity; the storage backends keep bytes for the other stores; the
    shell sends queries to the server.

    - Transactions, [verisim-hexad/src/transaction.rs]: [LockTable] (lock table and
      wait-for graph), [DeadlockDetector] and [LockSpec] (its search and its abstract
      specification), [Transaction] (versions and manager), [TransactionSpec],
      [TransactionProps], [TransactionExamples] (one call at a time), [TransactionRace]
      (the same steps interleaved between the manager's three locks).
    - Write-ahead log, [verisim-wal/src]: [WalEntry] ([entry.rs], [error.rs]), [WalLog]
      ([segment.rs], [writer.rs], [reader.rs]), [WalFrames], [WalSegments], [WalRun],
      [WalProps], [WalExamples].
    - Modality stores: [Modality] (the store traits as classes, their laws, and the in-memory
      vector, document, tensor, semantic and spatial stores), [Provenance], [Temporal] (with
      [diff.rs]), [Graph], [VectorSearch] (the searches by similarity and by distance); the
      crates are [verisim-vector], [verisim-document] and so on, their [lib.rs].
      [GraphBackends] holds the graph stores on disk ([redb_backend.rs],
      [oxigraph_backend.rs]).
    - Vector index, [verisim-vector/src]: [BinaryHeap] (the standard library's queue), [Hnsw] ([hnsw.rs]), [HnswSpec] (the graph),
      [HnswSearch] (the search of a layer), [HnswStore] and [HnswExact] (the store).
    - Hexad store, [verisim-hexad/src/{lib,store}.rs]: [HexadTypes], [HexadStore] (the
      operations), [HexadLogic] (a Hoare logic for them), [HexadTxn], [HexadView],
      [HexadRead], [HexadWal], [HexadExamples].
    - Semantic store, [verisim-semantic/src]: [Circuit] ([circuit_compiler.rs],
      [circuit_registry.rs]), [Zkp] ([zkp.rs], [zkp_bridge.rs]), [VerificationKeys]
      ([verification_keys.rs]), [ProofStore] (the proofs of [lib.rs], [proven_bridge.rs],
      [sanctify_bridge.rs]), [ZkpExamples].
    - Normalizer and drift, [verisim-normalizer/src] and [verisim-drift/src]:
      [Regeneration], [Conflict], [Normalizer] ([lib.rs]), [Drift] and [DriftSpec],
      [NormalizerExamples].
    - Planner, [verisim-planner/src]: [Plan] ([lib.rs], [plan.rs], [config.rs], [cost.rs],
      [stats.rs]), [Optimizer] ([optimizer.rs], [explain.rs]), [VqlBridge]
      ([vql_bridge.rs]), [PlanCache] and [PlanCacheSpec] ([prepared.rs]), [Profiler] and
      [ProfilerSpec] ([profiler.rs], [slow_query.rs]), [PlannerExamples].
    - Storage, [verisim-storage/src]: [Storage] ([backend.rs], [memory.rs], [typed.rs]),
      [Redb] ([redb_backend.rs]), [Metrics] ([metrics.rs]); examples, also of the modality
      stores, in [ProvenanceExamples].
    - API, [verisim-api/src]: [Rbac] ([rbac.rs]), [Auth] and [AuthSpec] ([auth.rs]);
      [ApiTxn] and [ApiTxnSpec] ([transaction.rs]); the handlers of [lib.rs] in [ApiCommon],
      [ApiHexads] and [ApiHexadsSpec], [ApiPlanner], [ApiStatus]; [VqlApi] and [VqlApiSpec]
      ([vql.rs]); [Federation] ([federation.rs]); [GraphQl] ([graphql.rs]); [ApiServer] (the
      state and the routes); [ApiExamples].
    - Shell, [verisim-repl/src]: [VqlText] and [VqlTextSpec] ([vql_fmt.rs], [linter.rs],
      [highlighter.rs], [completer.rs]), [Shell] ([formatter.rs], [client.rs], [main.rs]).
    - Shared: this file (results, machine integers, strings, sorting, clocks, digests,
      automation) and [Floats] ([f32], [f64]).

    A file [X.v] holds the data and the operations and, where they are short, their theorems;
    [XSpec.v] and its like hold more theorems, [XExamples.v] the concrete runs at which the
    theorems apply.

    ** What the theorems show

    - The log replays what was acknowledged, in order; after a crash a prefix of it that
      contains everything [fsync]ed; reading stops at the first incomplete frame.
    - The lock table implements reader-writer locks, its deadlock detector reports exactly
      the cycles, shortest first; the manager keeps its invariant in every sequential run
      and exclusion in every interleaving; what a commit validates and a rollback restores.
    - Every operation of the hexad store ends its transaction on every path; an entity
      reads back as written; entities are isolated; intent is logged before any write.
    - Provenance heads commit to the whole history, version histories are faithful, graph
      queries exact, typed stores separate maps.  The backends on disk are all or nothing and
      answer as those in memory.
    - The vector index keeps its graph well-formed, is a map from ids to embeddings, and a
      search returns and finds a local optimum: the best entries, where the index is small.
    - Merkle proofs are complete and sound up to a collision of the digest; proofs and the
      signatures of certificates bind their claims; the circuit compiler accepts the
      well-formed circuits; keys rotate and travel between instances.
    - A request passes the middleware only if authenticated, within its rate (exact over a
      sliding window) and permitted; access decisions are the declarative ones; which routes
      the middleware does not cover.
    - What a request or a query in VQL writes, the next one reads, and the two agree; a
      transaction of the API commits once, with what was buffered in it; a federated query
      asks exactly the stores it is meant for and ranks what they reply.
    - Physical plans are the logical ones in order of priority and cost; conditions of a
      query are read back from their encoding; fingerprints identify queries up to case of
      keywords; the plan cache and the slow-query log keep their bounds under concurrent
      callers.
    - Drift scores are in [[0, 1]], whoever records them; conflicts are neither lost nor
      resolved twice under concurrent callers; a regeneration uses the most authoritative
      source and records what it did.
    - The shell's formatters keep the tokens of a query, its colouring shows the line that is
      typed, the linter reports exactly the rules that are broken, CSV files read back, and
      the session sends what was typed to one server.

    Some theorems state what the code does where that is not what its documentation says;
    the manifest lists these as findings.

    ** Bounds and fuel

    Machine integers are [Z] with wrapping written out ([wrap]): the workspace's release
    profile has no [overflow-checks].  Floats are IEEE 754 [spec_float]s, rounded after each
    operation.  A panic is [None] where the model tracks it.  Recursion that is not
    structural runs on fuel that is shown to suffice: the deadlock detector twice the edges
    of the wait-for graph and one; the search of a layer of the vector index its nodes, its
    entry points and one; the sifting of a heap its length; Merkle trees the number of leaves
    ([log2_up] rounds are enough); the readers of the log the length of the file; the
    tokenizer and the highlighter of the shell the length of the text.  The search of a
    graph's neighbourhood is structural on the depth asked for.  Nothing is stated only for
    runs that happen to return.

    ** What is assumed

    Third-party code is a parameter, a class of this library: the clock ([Chrono],
    [ChronoText]), the digest ([Sha256], of which nothing is assumed) and the checksum
    ([Crc32fast]); the printers and parsers of [serde_json] and [ciborium]
    ([Digest], [Serde], [Ciborium], [CertificateCodec], [ContractCodec], [ClaimsJson],
    [CircuitJson], [PlanJson], [Printers]); hash iteration orders and the default hasher
    ([HashIter], [DefaultHasher]); the mathematics of the platform ([Ln], [Log2], [Powi],
    [Powi32], [Trigonometry]) and its printing and parsing of floats ([FloatDisplay],
    [FixedDisplay], [ParseFloat]); tables of Unicode ([Unicode], [UnicodeTrim],
    [UnicodeChar], [CharTables], [Utf8]); full-text search, regular expressions, colours
    ([Tantivy], [Regex], [Colored]); the databases ([Redb], [Oxigraph]); what the network answers ([Network] and the arguments of
    the federation).  Their laws are separate classes that state what the crates document,
    and the examples instantiate them.

    ** What is not modelled

    The gRPC services, their generated code ([proto]) and [main]; the Erlang NIF; sockets and TLS; file-system
    errors of the log; the text of the Prometheus metrics and of EXPLAIN; the execution of a
    GraphQL document and its console page; the JSON an answer of the query endpoint is turned
    into; [map] and [reduce] of tensors, which work on values of the [ndarray] crate; the
    shell's banner, help and line editor. *)

From Stdlib Require Export ZArith Lia.
From Stdlib Require Import Strings.Byte.
From Stdlib Require String Ascii NArith.
From stdpp Require Export base strings option sets list sorting fin_maps gmap vector.

#[export] Set Warnings "-clear-no-such-hyp,-register-all".

(** ** Results

    Rust's [Result<T, E>].  The error type comes first so that [result E] is a
    type constructor and stdpp's monadic notation [x ← e; k] is Rust's [?]. *)

Inductive result (E T : Type) : Type :=
| Ok (t : T)
| Err (e : E).
Arguments Ok {E T} t.
Arguments Err {E T} e.

#[export] Instance result_ret (E : Type) : MRet (result E) := λ T t, Ok t.

#[export] Instance result_bind (E : Type) : MBind (result E) := λ T U f r,
  match r with
  | Ok t => f t
  | Err e => Err e
  end.

#[export] Instance result_fmap (E : Type) : FMap (result E) := λ T U f r,
  match r with
  | Ok t => Ok (f t)
  | Err e => Err e
  end.

(** [Option::ok_or] and [Result::map_err], [Result::ok]. *)
Definition ok_or {E T : Type} (e : E) (o : option T) : result E T :=
  match o with
  | Some t => Ok t
  | None => Err e
  end.

Definition map_err {E E' T : Type} (f : E → E') (r : result E T) : result E' T :=
  match r with
  | Ok t => Ok t
  | Err e => Err (f e)
  end.

Definition is_ok {E T : Type} (r : result E T) : bool :=
  match r with
  | Ok _ => true
  | Err _ => false
  end.

Lemma result_bind_Ok {E T U : Type} (f : T → result E U) (r : result E T) (u : U) :
  r ≫= f = Ok u ↔ ∃ t, r = Ok t ∧ f t = Ok u.
Proof.
  split; [|by intros (t & -> & ?)]. destruct r as [t|e]; [|done]. intros ?. by exists t.
Qed.

Lemma result_bind_Err {E T U : Type} (f : T → result E U) (r : result E T) (e : E) :
  r ≫= f = Err e ↔ r = Err e ∨ ∃ t, r = Ok t ∧ f t = Err e.
Proof.
  split; [|by intros [->|(t & -> & ?)]].
  destruct r as [t|e']; intros ?; simplify_eq/=; [right; by exists t|by left].
Qed.

Lemma ok_or_Ok {E T : Type} (e : E) (o : option T) (t : T) :
  ok_or e o = Ok t ↔ o = Some t.
Proof. destruct o; cbn; naive_solver. Qed.

Lemma map_err_Ok {E E' T : Type} (f : E → E') (r : result E T) (t : T) :
  map_err f r = Ok t → r = Ok t.
Proof. by destruct r as [?|?]; [intros [= ->]|]. Qed.

Lemma is_ok_iff {E T : Type} (r : result E T) : is_ok r = true ↔ ∃ t, r = Ok t.
Proof. destruct r as [t|e]; cbn; [naive_solver|]. split; [done|]. by intros [t Ht]. Qed.

Lemma is_ok_bind {E T U : Type} (r : result E T) (f : T → result E U) :
  is_ok (r ≫= f) = true ↔ ∃ t, r = Ok t ∧ is_ok (f t) = true.
Proof. destruct r; cbn; naive_solver. Qed.

Lemma is_ok_bind_all {E T U : Type} (r : result E T) (f : T → result E U) :
  is_ok r = true → (∀ t, r = Ok t → is_ok (f t) = true) → is_ok (r ≫= f) = true.
Proof. rewrite is_ok_iff, is_ok_bind. intros [t Ht] Hf. eauto. Qed.

Lemma is_ok_map_err {E E' T : Type} (f : E → E') (r : result E T) : is_ok (map_err f r) = is_ok r.
Proof. by destruct r. Qed.

(** Invert a chain of calls that succeeded. *)
Ltac inv_calls :=
  repeat match goal with
  | H : (_ ≫= _) = Ok _ |- _ => apply result_bind_Ok in H as (? & ? & H)
  | H : map_err _ _ = Ok _ |- _ => apply map_err_Ok in H
  end.

(** ** Machine integers

    An unsigned [w]-bit integer is a [Z]; arithmetic wraps, as it does in the
    release profile the workspace ships (no [overflow-checks]). *)

Definition wrap (w z : Z) : Z := z `mod` 2 ^ w.

Definition u64_add (a b : Z) : Z := wrap 64 (a + b).

Definition is_u64 (z : Z) : Prop := (0 ≤ z < 2 ^ 64)%Z.
Definition is_u32 (z : Z) : Prop := (0 ≤ z < 2 ^ 32)%Z.

(** The [w]-bit unsigned integer as a signed one: two's complement. *)
Definition to_signed (w z : Z) : Z := if (z <? 2 ^ (w - 1))%Z then z else (z - 2 ^ w)%Z.

(** Arithmetic on an [i64] or an [i32] wraps to this. *)
Definition wrap_signed (w z : Z) : Z := to_signed w (wrap w z).

Lemma wrap_range (w z : Z) : (0 ≤ w)%Z → (0 ≤ wrap w z < 2 ^ w)%Z.
Proof. intros Hw. apply Z.mod_pos_bound. lia. Qed.

Lemma wrap_small (w z : Z) : (0 ≤ z < 2 ^ w)%Z → wrap w z = z.
Proof. apply Z.mod_small. Qed.

Lemma u64_add_range (a b : Z) : is_u64 (u64_add a b).
Proof. by apply wrap_range. Qed.

Lemma u64_add_small (a b : Z) : is_u64 (a + b) → u64_add a b = (a + b)%Z.
Proof. apply wrap_small. Qed.

Lemma u64_add_wraps (a b : Z) : u64_add (wrap 64 a) (wrap 64 b) = wrap 64 (a + b).
Proof. unfold u64_add, wrap. by rewrite <- Zplus_mod. Qed.

Definition zlength {A : Type} (l : list A) : Z := Z.of_nat (length l).

(** ** Bytes

    [u8] is the standard library's [byte] and a [Vec<u8>] a list of them. *)

Abbreviation byte := Corelib.Init.Byte.byte.

#[export] Instance byte_eq_dec : EqDecision byte := Byte.byte_eq_dec.

(** A number as a [u8], its higher bits dropped. *)
Definition u8 (n : N) : byte := default Byte.x00 (Byte.of_N (N.land n 255)).

(** ** Strings

    Rust strings are byte strings here; the separators and prefixes the programs look for
    are ASCII. *)

Definition slash : Ascii.ascii := Ascii.ascii_of_nat 47.
Definition dot : Ascii.ascii := Ascii.ascii_of_nat 46.

Definition starts_with (p s : string) : bool := String.prefix p s.

(** [s.strip_prefix(p)] *)
Definition str_strip_prefix (p s : string) : option string :=
  if String.prefix p s then
    Some (String.substring (String.length p) (String.length s - String.length p) s)
  else None.

(** [s.contains(needle)] *)
Fixpoint str_contains (needle s : string) : bool :=
  String.prefix needle s ||
  match s with String.EmptyString => false | String.String _ s => str_contains needle s end.

(** [s.split(c)]: at least one piece. *)
Fixpoint split_on (c : Ascii.ascii) (s : string) : list string :=
  match s with
  | String.EmptyString => [String.EmptyString]
  | String.String a s =>
    if decide (a = c) then String.EmptyString :: split_on c s
    else match split_on c s with
         | [] => [String.String a String.EmptyString]
         | piece :: pieces => String.String a piece :: pieces
         end
  end.

(** ** Stable sorting

    [slice::sort_by] is a stable sort: its result is determined when the comparison is a
    total preorder, and an insertion sort gives it.  What it does otherwise is not
    specified, so theorems about the order assume one. *)

Section sort_by.
Context {A : Type} (cmp : A → A → comparison).

Fixpoint insert_by (x : A) (l : list A) : list A :=
  match l with
  | [] => [x]
  | y :: l' => match cmp x y with Gt => y :: insert_by x l' | _ => x :: l end
  end.

Definition sort_by (l : list A) : list A := foldr insert_by [] l.

Lemma insert_by_perm (x : A) (l : list A) : insert_by x l ≡ₚ x :: l.
Proof.
  induction l as [|y l IH]; [done|]. cbn. case_match; [done..|]. rewrite IH. apply Permutation_swap.
Qed.

Lemma sort_by_perm (l : list A) : sort_by l ≡ₚ l.
Proof. induction l as [|x l IH]; [done|]. cbn. by rewrite insert_by_perm, IH. Qed.

(** Sorting by [R], which refines the comparison by the positions in the list. *)
Context (R : A → A → Prop).

Lemma sort_by_sorted (l : list A) :
  (∀ x y z, x ∈ l → y ∈ l → z ∈ l → R x y → R y z → R x z) →
  (∀ l1 x l2 y, l = l1 ++ x :: l2 → y ∈ l2 → (cmp x y = Gt → R y x) ∧ (cmp x y ≠ Gt → R x y)) →
  StronglySorted R (sort_by l).
Proof.
  induction l as [|x l IH]; intros Htrans Hcmp; [constructor|].
  change (sort_by (x :: l)) with (insert_by x (sort_by l)).
  assert (StronglySorted R (sort_by l)) as Hs.
  { apply IH; [intros a b c ???; apply Htrans; by right|].
    intros l1 a l2 b -> Hb. by apply (Hcmp (x :: l1) a l2 b). }
  clear IH. revert Hs. generalize (sort_by_perm l). generalize (sort_by l). intros k Hk Hs.
  assert (∀ y, y ∈ k → (cmp x y = Gt → R y x) ∧ (cmp x y ≠ Gt → R x y)) as Hx.
  { intros y Hy. apply (Hcmp [] x l y eq_refl). by rewrite <- Hk. }
  assert (∀ y z, y ∈ k → z ∈ k → R x y → R y z → R x z) as Ht.
  { intros y z Hy Hz. rewrite Hk in Hy, Hz. apply Htrans; [by left|by right|by right]. }
  clear Hk Hcmp Htrans. induction k as [|y k IH]; cbn; [by repeat constructor|].
  apply StronglySorted_inv in Hs as [Hs Hy].
  assert (cmp x y ≠ Gt → StronglySorted R (x :: y :: k)) as Hhead.
  { intros Hne. assert (R x y) as Hxy by (apply Hx; [by left|done]).
    constructor; [by constructor|]. constructor; [done|]. apply Forall_forall. intros z Hz.
    apply (Ht y z); [by left|by right|done|]. by apply (proj1 (Forall_forall _ _) Hy). }
  destruct (cmp x y) eqn:Hc; [by apply Hhead|by apply Hhead|].
  constructor.
  - apply IH; [done|intros z Hz; apply Hx; by right|intros a b Ha Hb; apply Ht; by right].
  - rewrite insert_by_perm. constructor; [|done]. apply Hx; [by left|done].
Qed.

End sort_by.

(** ** Hash iteration

    [std::collections::HashMap] and [HashSet] iterate in an arbitrary order:
    the models take the order as a parameter, some permutation of the elements. *)

Class HashIter (K : Type) `{Countable K} := {
  hash_iter : gset K → list K;
  hash_iter_perm : ∀ s, hash_iter s ≡ₚ elements s;
}.

Lemma elem_of_hash_iter `{HashIter K} (s : gset K) (x : K) : x ∈ hash_iter s ↔ x ∈ s.
Proof. by rewrite hash_iter_perm, elem_of_elements. Qed.

Lemma length_hash_iter `{HashIter K} (s : gset K) : length (hash_iter s) = size s.
Proof. by rewrite hash_iter_perm. Qed.

(** The order stdpp enumerates a set in, the one the examples run with. *)
Definition elements_iter (K : Type) `{Countable K} : HashIter K :=
  {| hash_iter := elements; hash_iter_perm := λ s, reflexivity _ |}.

(** [HashMap::iter] *)
Definition iter_map {V : Type} `{HashIter K} (m : gmap K V) : list (K * V) :=
  omap (λ k, pair k <$> m !! k) (hash_iter (dom m)).

Section iter_map.
Context {V : Type} `{HashIter K}.
Implicit Types (m : gmap K V).

Lemma elem_of_iter_map m k v : (k, v) ∈ iter_map m ↔ m !! k = Some v.
Proof.
  unfold iter_map. rewrite list_elem_of_omap. split.
  - by intros (i & _ & (d & Hd & [= <- <-])%fmap_Some).
  - intros Hm. exists k. rewrite elem_of_hash_iter, elem_of_dom, Hm. split; [by eexists|done].
Qed.

Lemma iter_map_keys m : fst <$> iter_map m = hash_iter (dom m).
Proof.
  unfold iter_map. assert (∀ i, i ∈ hash_iter (dom m) → is_Some (m !! i)) as Hm
    by (intros i Hi; by rewrite elem_of_hash_iter, elem_of_dom in Hi).
  induction (hash_iter (dom m)) as [|i l IH]; [done|]. cbn. destruct (Hm i) as [d Hd]; [by left|].
  rewrite Hd. cbn. f_equal. apply IH. intros j Hj. apply Hm. by right.
Qed.

Lemma NoDup_iter_map m : NoDup (fst <$> iter_map m).
Proof. rewrite iter_map_keys, hash_iter_perm. apply NoDup_elements. Qed.

Lemma iter_map_perm m : iter_map m ≡ₚ map_to_list m.
Proof.
  apply NoDup_Permutation; [by eapply NoDup_fmap_1, NoDup_iter_map|apply NoDup_map_to_list|].
  intros [k v]. by rewrite elem_of_iter_map, elem_of_map_to_list.
Qed.

Lemma length_iter_map m : length (iter_map m) = size m.
Proof. rewrite iter_map_perm. apply length_map_to_list. Qed.

End iter_map.

(** ** Comparisons *)

(** [Ordering::then_with] *)
Definition then_with (c d : comparison) : comparison := match c with Eq => d | _ => c end.

(** ** Time

    The [chrono] crate is third-party code: the type of instants and the two
    conversions the log relies on are parameters.  [timestamp_millis_opt] stands
    for [Utc.timestamp_millis_opt(ms).single()]. *)

Class Chrono := {
  DateTime : Type;
  DateTime_eq_dec :: EqDecision DateTime;
  DateTime_leb : DateTime → DateTime → bool;
  timestamp_millis : DateTime → Z;
  timestamp_millis_opt : Z → option DateTime;
}.

(** What chrono documents: the instants form a total order, a timestamp is an
    [i64], and the milliseconds of an instant name an instant with the same
    milliseconds (the part below a millisecond is lost). *)
Class ChronoLaws (C : Chrono) := {
  DateTime_leb_total : ∀ a b, DateTime_leb a b = true ∨ DateTime_leb b a = true;
  DateTime_leb_trans : ∀ a b c,
    DateTime_leb a b = true → DateTime_leb b c = true → DateTime_leb a c = true;
  DateTime_leb_antisym : ∀ a b, DateTime_leb a b = true → DateTime_leb b a = true → a = b;
  timestamp_millis_range : ∀ t, (- 2 ^ 63 ≤ timestamp_millis t < 2 ^ 63)%Z;
  timestamp_millis_opt_millis : ∀ t, ∃ t',
    timestamp_millis_opt (timestamp_millis t) = Some t' ∧
    timestamp_millis t' = timestamp_millis t;
  timestamp_millis_opt_Some : ∀ ms t,
    timestamp_millis_opt ms = Some t → timestamp_millis t = ms;
}.

(** The text of an instant, its nanoseconds, and the difference of two ([to_rfc3339],
    [parse_from_rfc3339], [timestamp_nanos_opt], [signed_duration_since]). *)
Class ChronoText {CH : Chrono} := {
  rfc3339 : DateTime → string;
  parse_from_rfc3339 : string → option DateTime;
  timestamp_nanos_opt : DateTime → option Z;
  signed_duration_since : DateTime → DateTime → Z;
}.

(** What they document: an instant is read back from its text. *)
Class ChronoTextLaws {CH : Chrono} (CT : ChronoText) := {
  parse_rfc3339 : ∀ t, parse_from_rfc3339 (rfc3339 t) = Some t;
}.

(** A concrete clock for the examples: instants are milliseconds clamped to
    chrono's own range, which lies well inside an [i64]. *)
Definition clamp_millis (z : Z) : Z := Z.max (- 2 ^ 62) (Z.min (2 ^ 62) z).

Definition milli_chrono : Chrono :=
  {| DateTime := Z;
     DateTime_eq_dec := _;
     DateTime_leb := Z.leb;
     timestamp_millis := clamp_millis;
     timestamp_millis_opt := λ z, if decide (clamp_millis z = z) then Some z else None; |}.

#[export] Instance milli_chrono_laws : ChronoLaws milli_chrono.
Proof.
  split; cbn.
  - lia.
  - lia.
  - lia.
  - intros t. unfold clamp_millis. lia.
  - intros t. assert (clamp_millis (clamp_millis t) = clamp_millis t) as Hc
      by (unfold clamp_millis; lia).
    exists (clamp_millis t). by rewrite decide_True.
  - intros ms t. case_decide; [|done]. by intros [= <-].
Qed.

(** ** Digests

    The SHA-256 of the [sha2] crate is a parameter of which nothing is assumed: the
    theorems that need it collision-free exhibit the collision instead. *)

Definition hash32 : Type := vec byte 32.

Class Sha256 := { sha256 : list byte → hash32 }.

(** Two inputs with the same digest. *)
Definition sha256_collision {SH : Sha256} : Prop :=
  ∃ x y : list byte, x ≠ y ∧ sha256 x = sha256 y.

(** [format!("{:02x}")] of each byte. *)
Definition hex_digit (n : N) : Ascii.ascii :=
  Ascii.ascii_of_N (if (n <? 10)%N then 48 + n else 87 + n).

Definition hex_string (bytes : list byte) : string :=
  String.string_of_list_ascii
    (bytes ≫= λ b, [hex_digit (Byte.to_N b / 16); hex_digit (Byte.to_N b mod 16)]).

(** [s.as_bytes()] *)
Definition as_bytes (s : string) : list byte := String.list_byte_of_string s.

(** Concatenation of strings. *)

Lemma str_app_assoc (s t u : string) : (s +:+ t) +:+ u = s +:+ (t +:+ u).
Proof. induction s as [|a s IH]; [done|]. exact (f_equal (String.String a) IH). Qed.

Lemma str_app_nil (s : string) : s +:+ "" = s.
Proof. induction s as [|a s IH]; [done|]. exact (f_equal (String.String a) IH). Qed.

Lemma str_app_length (s t : string) :
  String.length (s +:+ t) = (String.length s + String.length t)%nat.
Proof. induction s as [|a s IH]; [done|]. exact (f_equal S IH). Qed.

Lemma as_bytes_app s t : as_bytes (s +:+ t) = as_bytes s ++ as_bytes t.
Proof.
  unfold as_bytes. induction s as [|a s IH]; [done|].
  exact (f_equal (cons (Ascii.byte_of_ascii a)) IH).
Qed.

Lemma list_byte_of_string_inj (s t : string) :
  String.list_byte_of_string s = String.list_byte_of_string t → s = t.
Proof.
  intros H. rewrite <- (String.string_of_list_byte_of_string s), H.
  apply String.string_of_list_byte_of_string.
Qed.

Lemma as_bytes_inj s t : as_bytes s = as_bytes t → s = t.
Proof. apply list_byte_of_string_inj. Qed.

(** The bytes back from their hexadecimal text. *)
Definition hex_value (a : Ascii.ascii) : N :=
  let n := Ascii.N_of_ascii a in (if (n <? 58)%N then n - 48 else n - 87)%N.

Fixpoint unhex (l : list Ascii.ascii) : list byte :=
  match l with
  | a :: b :: l => u8 (16 * hex_value a + hex_value b) :: unhex l
  | _ => []
  end.

Lemma unhex_byte b :
  u8 (16 * hex_value (hex_digit (Byte.to_N b / 16)) + hex_value (hex_digit (Byte.to_N b mod 16))) = b.
Proof. by destruct b. Qed.

Lemma unhex_hex (bytes : list byte) :
  unhex (String.list_ascii_of_string (hex_string bytes)) = bytes.
Proof.
  unfold hex_string. rewrite String.list_ascii_of_string_of_list_ascii.
  induction bytes as [|b bytes IH]; [done|]. rewrite bind_cons. cbn [app unhex]. by rewrite unhex_byte, IH.
Qed.

Lemma hex_string_inj (l k : list byte) : hex_string l = hex_string k → l = k.
Proof. intros H. by rewrite <- (unhex_hex l), H, unhex_hex. Qed.

(** Equal digests of different inputs are a collision. *)
Lemma sha256_eq_or_collision {SH : Sha256} (x y : list byte) :
  sha256 x = sha256 y → x = y ∨ sha256_collision.
Proof. intros H. destruct (decide (x = y)); [by left|right; by exists x, y]. Qed.

(** ** Runs *)

(** What every step preserves holds at the end of a run. *)
Lemma rtc_invariant {A} (R : relation A) (P : A → Prop) (x y : A) :
  P x → (∀ x y, P x → R x y → P y) → rtc R x y → P y.
Proof. intros Hx HR Hxy. induction Hxy as [x|x y z Hxy _ IH]; [done|]. apply IH. by eapply HR. Qed.

(** ** Automation shared by the components *)

Create HintDb verisim.
Create Rewrite HintDb verisim.
#[export] Hint Resolve u64_add_range : verisim.
#[export] Hint Rewrite @result_bind_Ok @ok_or_Ok : verisim.

(** Case analysis on every [match] of the hypotheses and the goal. *)
Ltac case_all :=
  repeat (case_match || case_decide); simplify_eq/=; try done.

(** Destruct the [match] scrutinised by hypothesis [H], repeatedly. *)
Ltac unmatch H :=
  repeat (match type of H with
          | context [match ?x with _ => _ end] =>
              let E := fresh "Heq" in destruct x eqn:E; simplify_eq/=
          end).

(** ** Sorting

    [slice::sort_by_key] and [slice::sort] are stable: here an insertion sort that
    puts an element after those of the same key. *)

Section sorting.
Context {A : Type} (key : A → Z).

Fixpoint insert_by_key (x : A) (l : list A) : list A :=
  match l with
  | [] => [x]
  | y :: l => if (key x <? key y)%Z then x :: y :: l else y :: insert_by_key x l
  end.

Definition sort_by_key (l : list A) : list A := foldl (λ acc x, insert_by_key x acc) [] l.

Definition key_le (x y : A) : Prop := (key x ≤ key y)%Z.

Lemma insert_by_key_perm x l : insert_by_key x l ≡ₚ x :: l.
Proof.
  induction l as [|y l IH]; cbn; [done|]. case_match; [done|].
  rewrite IH. apply Permutation_swap.
Qed.

Lemma sort_by_key_foldl l acc : foldl (λ acc x, insert_by_key x acc) acc l ≡ₚ acc ++ l.
Proof.
  revert acc. induction l as [|x l IH]; intros acc; cbn; [by rewrite app_nil_r|].
  rewrite IH, insert_by_key_perm. cbn. apply Permutation_middle.
Qed.

Lemma sort_by_key_perm l : sort_by_key l ≡ₚ l.
Proof. apply (sort_by_key_foldl l []). Qed.

Lemma elem_of_sort_by_key x l : x ∈ sort_by_key l ↔ x ∈ l.
Proof. by rewrite sort_by_key_perm. Qed.

(** An element no smaller than the rest goes last. *)
Lemma insert_by_key_last x l : Forall (λ y, key_le y x) l → insert_by_key x l = l ++ [x].
Proof.
  unfold key_le. induction 1 as [|y l Hy _ IH]; cbn; [done|].
  destruct (Z.ltb_spec (key x) (key y)); [lia|]. by rewrite IH.
Qed.

(** Sorting a sorted list changes nothing. *)
Lemma sort_by_key_sorted l : StronglySorted key_le l → sort_by_key l = l.
Proof.
  assert (∀ l acc, StronglySorted key_le (acc ++ l) →
    foldl (λ acc x, insert_by_key x acc) acc l = acc ++ l) as Hgen.
  { clear l. induction l as [|x l IH]; intros acc Hs; cbn; [by rewrite app_nil_r|].
    rewrite insert_by_key_last.
    - rewrite IH; by rewrite <- app_assoc.
    - apply Forall_forall. intros y Hy. apply list_elem_of_split in Hy as (l1 & l2 & ->).
      rewrite <- app_assoc in Hs. apply StronglySorted_app_1_r in Hs.
      cbn in Hs. apply StronglySorted_inv in Hs as [_ Hall].
      rewrite Forall_forall in Hall. apply Hall. set_solver. }
  intros Hs. by apply (Hgen l []).
Qed.

Lemma insert_by_key_StronglySorted x l :
  StronglySorted key_le l → StronglySorted key_le (insert_by_key x l).
Proof.
  unfold key_le. induction 1 as [|y l Hs IH Hall]; cbn; [by repeat constructor|].
  destruct (Z.ltb_spec (key x) (key y)).
  - constructor; [by constructor|]. constructor; [lia|].
    eapply Forall_impl; [exact Hall|]. cbn. lia.
  - constructor; [done|]. apply Forall_forall. intros z Hz.
    rewrite insert_by_key_perm in Hz. rewrite Forall_forall in Hall.
    apply elem_of_cons in Hz as [->|Hz]; [lia|by apply Hall].
Qed.

Lemma sort_by_key_StronglySorted l : StronglySorted key_le (sort_by_key l).
Proof.
  unfold sort_by_key. assert (StronglySorted key_le []) as Hnil by constructor. revert Hnil.
  generalize (@nil A). induction l as [|x l IH]; intros acc Hacc; cbn; [done|].
  by apply IH, insert_by_key_StronglySorted.
Qed.

End sorting.

(** ** Lists *)

Lemma filter_id {A : Type} (P : A → Prop) `{∀ x, Decision (P x)} (l : list A) :
  Forall P l → filter P l = l.
Proof. induction 1; [done|]. rewrite filter_cons_True by done. by f_equal. Qed.

Lemma filter_none {A : Type} (P : A → Prop) `{∀ x, Decision (P x)} (l : list A) :
  Forall (λ x, ¬ P x) l → filter P l = [].
Proof. induction 1; [done|]. by rewrite filter_cons_False. Qed.

Lemma NoDup_fmap_filter {A B : Type} (f : A → B) (P : A → Prop) `{∀ x, Decision (P x)}
    (l : list A) :
  NoDup (f <$> l) → NoDup (f <$> filter P l).
Proof.
  induction l as [|a l IH]; [done|]. intros [Hni Hnd]%NoDup_cons.
  rewrite filter_cons. case_decide; [|by apply IH].
  apply NoDup_cons. split; [|by apply IH].
  intros (b & Hab & Hb)%list_elem_of_fmap. apply list_elem_of_filter in Hb as [_ Hb].
  apply Hni. rewrite Hab. by apply list_elem_of_fmap_2.
Qed.
