(* ===== verification/Floats.v ===== *)
(** * Floating-point numbers

    Rust's [f32] and [f64] are IEEE 754 numbers: the standard library's [spec_float], with
    the operations rounded at their format; the laws of rounding that the scores rest on; and
    the selection of the best of a list by a float, as the searches make it. *)

From S2P Require Import Prelude.
From Stdlib Require Import SpecFloat.
Local Open Scope Z_scope.

Definition f32 : Type := spec_float.
Definition f64 : Type := spec_float.

(** The [f64] nearest to an integer. *)
Definition f64_of_Z (z : Z) : f64 := binary_normalize 53 1024 z 0 false.

Definition f64_add : f64 → f64 → f64 := SFadd 53 1024.
Definition f64_sub : f64 → f64 → f64 := SFsub 53 1024.
Definition f64_mul : f64 → f64 → f64 := SFmul 53 1024.
Definition f64_div : f64 → f64 → f64 := SFdiv 53 1024.

(** [a < b], [a <= b] and [a >= b], false for a NaN. *)
Definition f64_ltb (a b : f64) : bool := SFltb a b.
Definition f64_leb (a b : f64) : bool := SFleb a b.

(** [(lo..=hi).contains(&x)]: false for a NaN. *)
Definition f64_in_range (lo hi x : f64) : bool := SFleb lo x && SFleb x hi.

Definition f64_is_nan (x : f64) : bool := match x with S754_nan => true | _ => false end.

(** The sum of an iterator starts from minus zero. *)
Definition f64_sum (l : list f64) : f64 := foldl f64_add (S754_zero true) l.

(** A decimal literal [m * 10 ^ - e] with [m] and [10 ^ e] below [2 ^ 53] (and [e ≤ 22]): both are
    exact, so their quotient is the nearest [f64]. *)
Definition f64_literal (m : Z) (e : Z) : f64 := f64_div (f64_of_Z m) (f64_of_Z (10 ^ e)).

Definition f64_infinity : f64 := S754_infinity false.

Definition f64_is_finite (x : f64) : bool :=
  match x with S754_zero _ | S754_finite _ _ _ => true | _ => false end.

(** [a.partial_cmp(&b)] *)
Definition f64_partial_cmp (a b : f64) : option comparison := SFcompare a b.

(** [a.max(b)] and [a.min(b)]: the other number when one is a NaN. *)
Definition f64_max (a b : f64) : f64 :=
  if f64_is_nan a then b else if f64_is_nan b then a else if f64_ltb a b then b else a.
Definition f64_min (a b : f64) : f64 :=
  if f64_is_nan a then b else if f64_is_nan b then a else if f64_ltb b a then b else a.

(** [x.clamp(lo, hi)], for [lo <= hi]: a NaN stays. *)
Definition f64_clamp (lo hi x : f64) : f64 :=
  let x := if f64_ltb x lo then lo else x in
  if f64_ltb hi x then hi else x.

Definition f64_abs : f64 → f64 := SFabs.
Definition f64_sqrt : f64 → f64 := SFsqrt 53 1024.

(** [x as f64] for an [f32]: exact. *)
Definition f64_of_f32 (x : f32) : f64 :=
  match x with
  | S754_finite s m e => binary_normalize 53 1024 (if s then Zneg m else Zpos m) e s
  | _ => x
  end.

(** [f64::powi], whose precision is not specified. *)
Class Powi := { f64_powi : f64 → Z → f64 }.

(** [x as u64]: towards zero, saturating, and 0 for a NaN. *)
Definition f64_as_u64 (x : f64) : Z :=
  match x with
  | S754_zero _ | S754_nan | S754_infinity true | S754_finite true _ _ => 0
  | S754_infinity false => 2 ^ 64 - 1
  | S754_finite false m e => Z.min (2 ^ 64 - 1) (Z.shiftl (Zpos m) e)
  end.

(** [Display], and [format!("{:.n}")], of an [f64]: not modelled. *)
Class FloatDisplay := { f64_to_string : f64 → string }.
Class FixedDisplay := { f64_fixed : nat → f64 → string }.

Lemma f64_as_u64_range (x : f64) : is_u64 (f64_as_u64 x).
Proof.
  destruct x as [b|[]| |[] m e]; cbn; try (split; lia).
  split; [|lia]. apply Z.min_glb; [lia|]. apply Z.shiftl_nonneg. lia.
Qed.

(** ** The order of the numbers

    Apart from the NaN, [SFcompare] is the lexicographic order of three integers. *)

Local Open Scope Z_scope.

(** [a.partial_cmp(&b).unwrap_or(Equal)] *)
Definition float_cmp (a b : f64) : comparison := default Eq (f64_partial_cmp a b).

Definition float_key (x : f64) : Z * Z * Z :=
  match x with
  | S754_nan | S754_zero _ => (0, 0, 0)
  | S754_infinity s => (if s then -2 else 2, 0, 0)
  | S754_finite s m e => if s then (-1, - e, Zneg m) else (1, e, Zpos m)
  end.

Definition key_lt (a b : Z * Z * Z) : Prop :=
  let '(a1, a2, a3) := a in let '(b1, b2, b3) := b in
  a1 < b1 ∨ a1 = b1 ∧ (a2 < b2 ∨ a2 = b2 ∧ a3 < b3).

Lemma float_cmp_key (a b : f64) :
  f64_is_nan a = false → f64_is_nan b = false →
  match float_cmp a b with
  | Lt => key_lt (float_key a) (float_key b)
  | Eq => float_key a = float_key b
  | Gt => key_lt (float_key b) (float_key a)
  end.
Proof.
  intros Ha Hb. unfold float_cmp, f64_partial_cmp, default, from_option, id.
  destruct a as [sa|sa| |sa ma ea], b as [sb|sb| |sb mb eb]; try discriminate;
    cbn [SFcompare float_key]; try (destruct sa); try (destruct sb); cbn; try done; try lia.
  - destruct (Z.compare_spec ea eb) as [->|?|?]; cbn; try lia.
    change (Pos.compare_cont Eq ma mb) with (ma ?= mb)%positive.
    destruct (Pos.compare_spec ma mb) as [->|?|?]; cbn; [done|lia..].
  - destruct (Z.compare_spec ea eb) as [->|?|?]; cbn; try lia.
    change (Pos.compare_cont Eq ma mb) with (ma ?= mb)%positive.
    destruct (Pos.compare_spec ma mb) as [->|?|?]; cbn; [done|lia..].
Qed.

Lemma f64_ltb_cmp (a b : f64) :
  f64_is_nan a = false → f64_is_nan b = false → f64_ltb a b = true ↔ float_cmp a b = Lt.
Proof.
  unfold f64_ltb, SFltb, float_cmp, f64_partial_cmp, default, from_option, id.
  intros Ha Hb. destruct (SFcompare a b) as [[]|] eqn:H; try done.
Qed.

(** Between numbers, [float_cmp] is a total preorder. *)
Lemma float_cmp_trans (a b c : f64) :
  f64_is_nan a = false → f64_is_nan b = false → f64_is_nan c = false →
  float_cmp a b ≠ Gt → float_cmp b c ≠ Gt →
  float_cmp a c = then_with (float_cmp a b) (float_cmp b c).
Proof.
  intros Ha Hb Hc. pose proof (float_cmp_key a b Ha Hb) as Hab.
  pose proof (float_cmp_key b c Hb Hc) as Hbc. pose proof (float_cmp_key a c Ha Hc) as Hac.
  destruct (float_key a) as [[a1 a2] a3], (float_key b) as [[b1 b2] b3],
    (float_key c) as [[c1 c2] c3].
  destruct (float_cmp a b), (float_cmp b c), (float_cmp a c); try done; cbn in *; simplify_eq;
    intros _ _; exfalso; lia.
Qed.

Lemma float_cmp_opp (a b : f64) :
  f64_is_nan a = false → f64_is_nan b = false → float_cmp b a = CompOpp (float_cmp a b).
Proof.
  intros Ha Hb. pose proof (float_cmp_key a b Ha Hb) as Hab.
  pose proof (float_cmp_key b a Hb Ha) as Hba.
  destruct (float_key a) as [[a1 a2] a3], (float_key b) as [[b1 b2] b3].
  destruct (float_cmp a b), (float_cmp b a); try done; cbn in *; simplify_eq; exfalso; lia.
Qed.

(** [iter().max_by(|a, b| a.partial_cmp(&b).unwrap_or(Equal))] on a key: of equal elements,
    the last. *)
Definition max_by_float {A : Type} (key : A → f64) (l : list A) : option A :=
  match l with
  | [] => None
  | x :: l =>
    Some (foldl (λ best y, match float_cmp (key best) (key y) with Gt => best | _ => y end) x l)
  end.

(** ** Where floating-point arithmetic gives no NaN

    The signs of sums, products and quotients, and that an integer of machine size converts
    to a finite number: what the scores of [Drift.v] need to stay numbers. *)

(** ** Rounding keeps the sign *)

Lemma shr_1_m mrs : 0 ≤ shr_m mrs → shr_m (shr_1 mrs) = shr_m mrs / 2.
Proof.
  destruct mrs as [[|[p|p|]|p] r s]; cbn [shr_m shr_1]; intros Hm; [done| | |done|lia].
  - apply (Z.div_unique _ _ _ 1); lia.
  - apply (Z.div_unique _ _ _ 0); lia.
Qed.

Lemma div_pow2_twice a b c : 0 ≤ b → 0 ≤ c → a / 2 ^ b / 2 ^ c = a / 2 ^ (b + c).
Proof. intros Hb Hc. rewrite Z.div_div by lia. by rewrite <- Z.pow_add_r by lia. Qed.

Lemma iter_shr_m n mrs :
  0 ≤ shr_m mrs → shr_m (iter_pos shr_1 n mrs) = shr_m mrs / 2 ^ Zpos n.
Proof.
  assert (∀ a b, 0 ≤ a → 0 ≤ a / 2 ^ Zpos b) as Hpos by (intros; apply Z.div_pos; lia).
  revert mrs. induction n as [n IH|n IH|]; intros mrs Hm; cbn [iter_pos].
  - assert (0 ≤ shr_m (shr_1 mrs)) by (rewrite shr_1_m by done; apply Z.div_pos; lia).
    rewrite IH by (rewrite IH by done; by apply Hpos). rewrite IH, shr_1_m by done.
    change (shr_m mrs / 2) with (shr_m mrs / 2 ^ 1).
    rewrite !div_pow2_twice by lia. f_equal. f_equal. lia.
  - rewrite IH by (rewrite IH by done; by apply Hpos). rewrite IH by done.
    rewrite div_pow2_twice by lia. f_equal. f_equal. lia.
  - by rewrite shr_1_m.
Qed.

Lemma shr_record_of_loc_m m l : shr_m (shr_record_of_loc m l) = m.
Proof. by destruct l as [|[]]. Qed.

(** What a shift by [n] leaves. *)
Lemma shr_fst_m mrs e n :
  0 ≤ shr_m mrs → shr_m (shr mrs e n).1 = shr_m mrs / 2 ^ Z.max 0 n.
Proof.
  intros Hm. destruct n as [|n|n]; cbn [shr fst].
  - by rewrite Z.div_1_r.
  - by rewrite iter_shr_m.
  - by rewrite Z.max_l, Z.div_1_r by lia.
Qed.

Lemma shr_snd mrs e n : (shr mrs e n).2 = e + Z.max 0 n.
Proof. destruct n; cbn [shr snd]; lia. Qed.

Lemma round_nearest_even_bounds m l : m ≤ round_nearest_even m l ≤ m + 1.
Proof. destruct l as [|[]]; cbn; [lia| |lia..]. destruct (Z.even m); lia. Qed.

(** The three results of rounding a non-negative mantissa. *)
Definition signed_result (s : bool) (x : spec_float) : Prop :=
  match x with
  | S754_zero s' | S754_infinity s' | S754_finite s' _ _ => s' = s
  | S754_nan => False
  end.

Lemma round_aux_signed prec emax s m e l :
  0 ≤ m → signed_result s (binary_round_aux prec emax s m e l).
Proof.
  intros Hm. unfold binary_round_aux, shr_fexp.
  destruct (shr (shr_record_of_loc m l) _ _) as [mrs e1] eqn:H1.
  assert (0 ≤ shr_m mrs) as Hm1.
  { change mrs with (mrs, e1).1. rewrite <- H1, shr_fst_m; rewrite shr_record_of_loc_m; [|done].
    apply Z.div_pos; lia. }
  destruct (shr (shr_record_of_loc (round_nearest_even _ _) _) _ _) as [mrs' e2] eqn:H2.
  assert (0 ≤ shr_m mrs') as Hm2.
  { change mrs' with (mrs', e2).1. pose proof (round_nearest_even_bounds (shr_m mrs) (loc_of_shr_record mrs)).
    rewrite <- H2, shr_fst_m; rewrite shr_record_of_loc_m; [|lia]. apply Z.div_pos; lia. }
  destruct (shr_m mrs'); cbn; [done| |lia]. by case_match.
Qed.

Lemma normalize_signed prec emax m e szero :
  match binary_normalize prec emax m e szero with
  | S754_nan => False
  | S754_infinity s | S754_finite s _ _ => if s then m < 0 else 0 < m
  | S754_zero _ => True
  end.
Proof.
  destruct m as [|m|m]; cbn; [done| |]; unfold binary_round;
    destruct (shl_align _ _ _) as [mz ez];
    match goal with |- context [binary_round_aux _ _ ?s _ ?e ?l] =>
      pose proof (round_aux_signed prec emax s (Zpos mz) e l ltac:(lia)) as H end;
    destruct (binary_round_aux _ _ _ _ _ _); cbn in H; by subst.
Qed.

(** ** Numbers that are not negative *)

Definition nonneg (x : f64) : bool :=
  match x with
  | S754_zero _ | S754_infinity false | S754_finite false _ _ => true
  | _ => false
  end.

(** Positive and finite. *)
Definition positive_finite (x : f64) : bool :=
  match x with S754_finite false _ _ => true | _ => false end.

Lemma nonneg_not_nan x : nonneg x = true → f64_is_nan x = false.
Proof. by destruct x. Qed.

Lemma nonneg_signed x : signed_result false x → nonneg x = true.
Proof. destruct x as [[]|[]| |[] ? ?]; cbn; done. Qed.

Lemma nonneg_add a b : nonneg a = true → nonneg b = true → nonneg (f64_add a b) = true.
Proof.
  destruct a as [[]|[]| |[] ma ea], b as [[]|[]| |[] mb eb]; try done. intros _ _.
  unfold f64_add, SFadd. cbn [cond_Zopp].
  match goal with |- context [binary_normalize ?p ?q ?m ?e ?z] =>
    pose proof (normalize_signed p q m e z) as H; destruct (binary_normalize p q m e z) as [|[]| |[]] end;
    done || lia.
Qed.

Lemma nonneg_mul a c : nonneg a = true → positive_finite c = true → nonneg (f64_mul a c) = true.
Proof.
  destruct a as [[]|[]| |[] ma ea], c as [|[]| |[] mc ec]; try done. intros _ _.
  apply nonneg_signed, round_aux_signed. lia.
Qed.

Lemma div_core_nonneg m1 e1 m2 e2 :
  0 ≤ (SFdiv_core_binary 53 1024 (Zpos m1) e1 (Zpos m2) e2).1.1.
Proof.
  unfold SFdiv_core_binary. set (e' := Z.min _ _). set (m' := match _ with Z0 => _ | _ => _ end).
  assert (0 ≤ m').
  { subst m'. destruct (e1 - e2 - e'); [lia| |lia]. apply Z.shiftl_nonneg. lia. }
  pose proof (Z_div_mod m' (Zpos m2) ltac:(lia)) as Hd.
  destruct (Z.div_eucl m' (Zpos m2)) as [q r]. cbn. nia.
Qed.

Lemma nonneg_div a c : nonneg a = true → positive_finite c = true → nonneg (f64_div a c) = true.
Proof.
  destruct a as [[]|[]| |[] ma ea], c as [|[]| |[] mc ec]; try done. intros _ _.
  unfold f64_div, SFdiv. pose proof (div_core_nonneg ma ea mc ec) as Hq.
  destruct (SFdiv_core_binary 53 1024 (Zpos ma) ea (Zpos mc) ec) as [[mz ez] lz].
  apply nonneg_signed, round_aux_signed. exact Hq.
Qed.

Lemma nonneg_sum l : Forall (λ x, nonneg x = true) l → nonneg (f64_sum l) = true.
Proof.
  intros Hl. unfold f64_sum. assert (nonneg (S754_zero true) = true) as Ha by done.
  revert Ha. generalize (S754_zero true). induction Hl; intros a Ha; cbn; [done|].
  by apply IHHl, nonneg_add.
Qed.

Lemma nonneg_of_Z z : 0 ≤ z → nonneg (f64_of_Z z) = true.
Proof.
  intros Hz. unfold f64_of_Z. pose proof (normalize_signed 53 1024 z 0 false) as H.
  destruct (binary_normalize 53 1024 z 0 false) as [|[]| |[]]; done || lia.
Qed.

(** ** Sums and products that are numbers *)

Lemma add_finite_not_nan a b :
  f64_is_finite a = true → f64_is_nan b = false → f64_is_nan (f64_add a b) = false.
Proof.
  destruct a as [sa|sa| |sa ma ea], b as [sb|sb| |sb mb eb]; try done; intros _ _;
    [by destruct sa, sb|].
  unfold f64_add, SFadd.
  match goal with |- context [binary_normalize ?p ?q ?m ?e ?z] =>
    pose proof (normalize_signed p q m e z) as H; by destruct (binary_normalize p q m e z) end.
Qed.

Lemma sub_finite_not_nan a b :
  f64_is_nan a = false → f64_is_finite b = true → f64_is_nan (f64_sub a b) = false.
Proof.
  destruct a as [sa|sa| |sa ma ea], b as [sb|sb| |sb mb eb]; try done; intros _ _;
    [by destruct sa, sb|].
  unfold f64_sub, SFsub.
  match goal with |- context [binary_normalize ?p ?q ?m ?e ?z] =>
    pose proof (normalize_signed p q m e z) as H; by destruct (binary_normalize p q m e z) end.
Qed.

Lemma mul_positive_not_nan a c :
  f64_is_nan a = false → positive_finite c = true → f64_is_nan (f64_mul a c) = false.
Proof.
  destruct a as [sa|sa| |sa ma ea], c as [|[]| |[] mc ec]; try done; intros _ _.
  unfold f64_mul, SFmul.
  match goal with |- context [binary_round_aux ?p ?q ?s (Zpos ?m) ?e ?l] =>
    pose proof (round_aux_signed p q s (Zpos m) e l ltac:(lia)) as H;
    by destruct (binary_round_aux p q s (Zpos m) e l) end.
Qed.

(** A NaN stays one. *)
Lemma add_nan_l a : f64_add S754_nan a = S754_nan.
Proof. done. Qed.
Lemma add_nan_r a : f64_add a S754_nan = S754_nan.
Proof. by destruct a. Qed.
Lemma mul_nan_l a : f64_mul S754_nan a = S754_nan.
Proof. done. Qed.
Lemma mul_nan_r a : f64_mul a S754_nan = S754_nan.
Proof. by destruct a. Qed.
Lemma ltb_nan_r a : f64_ltb a S754_nan = false.
Proof. by destruct a. Qed.
Lemma ltb_nan_l a : f64_ltb S754_nan a = false.
Proof. done. Qed.

(** ** Integers of machine size *)

Lemma digits2_log2 p : Zpos (digits2_pos p) = Z.log2 (Zpos p) + 1.
Proof.
  induction p as [p IH|p IH|]; cbn [digits2_pos]; [| |done].
  - rewrite Pos2Z.inj_succ, IH. change (Zpos p~1) with (2 * Zpos p + 1).
    rewrite Z.log2_succ_double by lia. lia.
  - rewrite Pos2Z.inj_succ, IH. change (Zpos p~0) with (2 * Zpos p).
    rewrite Z.log2_double by lia. lia.
Qed.

Lemma fexp_log2 m e : -1000 ≤ Z.log2 (Zpos m) + e →
  fexp 53 1024 (Zpos (digits2_pos m) + e) = Z.log2 (Zpos m) + e - 52.
Proof. rewrite digits2_log2. unfold fexp, emin. lia. Qed.

(** Rounding a mantissa that is neither tiny nor huge leaves a finite number. *)
Lemma round_aux_finite s m e l :
  -900 ≤ e ≤ 600 → Z.log2 (Zpos m) ≤ 300 →
  ∃ m' e', binary_round_aux 53 1024 s (Zpos m) e l = S754_finite s m' e' ∧
    Z.log2 (Zpos m') ≤ 52 ∧ e ≤ e' ≤ Z.max e (Z.log2 (Zpos m) + e - 52) + 1.
Proof.
  intros He Hm. pose proof (Z.log2_nonneg (Zpos m)) as Hm0.
  unfold binary_round_aux, shr_fexp. cbn [Zdigits2]. rewrite fexp_log2 by lia.
  set (n := Z.log2 (Zpos m) + e - 52 - e).
  destruct (shr (shr_record_of_loc (Zpos m) l) e n) as [mrs e1] eqn:H1.
  assert (e1 = e + Z.max 0 n) as He1 by (change e1 with (mrs, e1).2; by rewrite <- H1, shr_snd).
  assert (shr_m mrs = Zpos m / 2 ^ Z.max 0 n) as Hm1.
  { change mrs with (mrs, e1).1. rewrite <- H1, shr_fst_m; by rewrite shr_record_of_loc_m. }
  assert (Z.log2 (shr_m mrs) = Z.log2 (Zpos m) - Z.max 0 n ∧ 0 < shr_m mrs) as [Hlog Hpos].
  { rewrite Hm1. rewrite <- Z.shiftr_div_pow2 by lia. rewrite Z.log2_shiftr by lia. split; [lia|].
    rewrite Z.shiftr_div_pow2 by lia. apply Z.div_str_pos. split; [lia|].
    apply (Z.le_trans _ (2 ^ Z.log2 (Zpos m))); [apply Z.pow_le_mono_r; lia|].
    by apply Z.log2_spec. }
  pose proof (round_nearest_even_bounds (shr_m mrs) (loc_of_shr_record mrs)) as Hr.
  set (m1 := round_nearest_even _ _) in *.
  assert (Z.log2 (shr_m mrs) ≤ Z.log2 m1 ≤ Z.log2 (shr_m mrs) + 1) as Hlog1.
  { split; [apply Z.log2_le_mono; lia|].
    etrans; [apply Z.log2_le_mono; apply Hr|]. apply Z.log2_succ_le. }
  clearbody m1. destruct m1 as [|m1|]; [lia| |lia]. cbn [Zdigits2]. rewrite fexp_log2 by lia.
  set (n2 := Z.log2 (Zpos m1) + e1 - 52 - e1).
  destruct (shr (shr_record_of_loc (Zpos m1) loc_Exact) e1 n2) as [mrs2 e2] eqn:H2.
  assert (e2 = e1 + Z.max 0 n2) as He2 by (change e2 with (mrs2, e2).2; by rewrite <- H2, shr_snd).
  assert (0 < shr_m mrs2) as Hm2.
  { change mrs2 with (mrs2, e2).1. rewrite <- H2, shr_fst_m; rewrite shr_record_of_loc_m; [|lia].
    apply Z.div_str_pos. split; [lia|].
    apply (Z.le_trans _ (2 ^ Z.log2 (Zpos m1))); [apply Z.pow_le_mono_r; lia|].
    by apply Z.log2_spec. }
  assert (Z.log2 (shr_m mrs2) ≤ 52) as Hm3.
  { change mrs2 with (mrs2, e2).1. rewrite <- H2, shr_fst_m; rewrite shr_record_of_loc_m; [|lia].
    rewrite <- Z.shiftr_div_pow2 by lia. rewrite Z.log2_shiftr by lia. lia. }
  destruct (shr_m mrs2) as [|m2|]; [lia| |lia].
  destruct (Z.leb_spec e2 (1024 - 53)); [|lia]. exists m2, e2. split_and!; [done|done|lia..].
Qed.

Lemma iter_xO m n : Zpos (Pos.iter xO m n) = Zpos m * 2 ^ Zpos n.
Proof.
  induction n as [|n IH] using Pos.peano_ind; [cbn; lia|].
  rewrite Pos.iter_succ. change (Zpos (Pos.iter xO m n)~0) with (2 * Zpos (Pos.iter xO m n)).
  rewrite IH, Pos2Z.inj_succ, Z.pow_succ_r by lia. lia.
Qed.

Lemma shl_align_log2 m e e' : e' ≤ e →
  Z.log2 (Zpos (shl_align m e e').1) = Z.log2 (Zpos m) + (e - e') ∧ (shl_align m e e').2 = e'.
Proof.
  intros He. unfold shl_align. destruct (e' - e) as [|d|d] eqn:Hd; [cbn [fst snd]; lia|lia|].
  cbn [fst snd]. split; [|done]. rewrite iter_xO, Z.log2_mul_pow2 by lia. lia.
Qed.

(** A positive number of moderate size. *)
Definition moderate (x : f64) : Prop :=
  match x with
  | S754_finite false m e => Z.log2 (Zpos m) ≤ 52 ∧ -60 ≤ e ≤ 60
  | _ => False
  end.

Lemma moderate_positive x : moderate x → positive_finite x = true.
Proof. by destruct x as [| | |[]]. Qed.

Lemma moderate_nonneg x : moderate x → nonneg x = true.
Proof. by destruct x as [| | |[]]. Qed.

(** A positive integer below [2 ^ 64] converts to one. *)
Lemma f64_of_Z_moderate z : 0 < z < 2 ^ 64 → moderate (f64_of_Z z).
Proof.
  intros Hz. destruct z as [|p|]; [lia| |lia]. unfold f64_of_Z. cbn [binary_normalize].
  unfold binary_round. assert (0 ≤ Z.log2 (Zpos p) < 64) as Hlog.
  { split; [apply Z.log2_nonneg|]. apply Z.log2_lt_pow2; lia. }
  rewrite fexp_log2 by lia. rewrite Z.add_0_r. remember (Z.log2 (Zpos p) - 52) as e eqn:Hed.
  destruct (decide (e ≤ 0)) as [He|He].
  - pose proof (shl_align_log2 p 0 e He) as [Hm He']. destruct (shl_align p 0 e) as [m e'].
    cbn [fst snd] in Hm, He'. subst e'.
    destruct (round_aux_finite false m e loc_Exact) as (m' & e' & -> & ?); [lia..|].
    change (Z.log2 (Zpos m') ≤ 52 ∧ -60 ≤ e' ≤ 60). lia.
  - unfold shl_align. rewrite Z.sub_0_r. destruct e as [|e|e]; [lia| |lia].
    destruct (round_aux_finite false p 0 loc_Exact) as (m' & e' & -> & ?); [lia..|].
    change (Z.log2 (Zpos m') ≤ 52 ∧ -60 ≤ e' ≤ 60). lia.
Qed.

Lemma f64_of_Z_positive z : 0 < z < 2 ^ 64 → positive_finite (f64_of_Z z) = true.
Proof. intros Hz. by apply moderate_positive, f64_of_Z_moderate. Qed.

(** The sum of two such numbers is still positive and finite. *)
Lemma moderate_add a b : moderate a → moderate b → positive_finite (f64_add a b) = true.
Proof.
  destruct a as [| | |[] ma ea], b as [| | |[] mb eb]; try done. intros [Ha He] [Hb He'].
  unfold f64_add, SFadd. cbn [cond_Zopp].
  pose proof (shl_align_log2 ma ea (Z.min ea eb) ltac:(lia)) as [Hma _].
  pose proof (shl_align_log2 mb eb (Z.min ea eb) ltac:(lia)) as [Hmb _].
  set (x := (shl_align ma ea (Z.min ea eb)).1) in *. set (y := (shl_align mb eb (Z.min ea eb)).1) in *.
  assert (Z.log2 (Zpos x + Zpos y) ≤ 200) as Hlog.
  { transitivity (Z.log2 (2 * Z.max (Zpos x) (Zpos y))); [apply Z.log2_le_mono; lia|].
    rewrite Z.log2_double by lia. destruct (Z.max_spec (Zpos x) (Zpos y)) as [[_ ->]|[_ ->]]; lia. }
  change (Zpos x + Zpos y) with (Zpos (x + y)) in Hlog |- *. cbn [binary_normalize].
  unfold binary_round. pose proof (Z.log2_nonneg (Zpos (x + y))) as Hnn.
  remember (Z.min ea eb) as e eqn:Hee. rewrite fexp_log2 by lia.
  remember (Z.log2 (Zpos (x + y)) + e - 52) as e1 eqn:He1.
  destruct (decide (e1 ≤ e)) as [Hle|Hgt].
  - pose proof (shl_align_log2 (x + y) e e1 Hle) as [Hm He2].
    destruct (shl_align (x + y) e e1) as [m e'']. cbn [fst snd] in Hm, He2. subst e''.
    destruct (round_aux_finite false m e1 loc_Exact) as (m' & e' & -> & ?); [lia..|done].
  - unfold shl_align. destruct (e1 - e) as [|d|d] eqn:Hd; [lia| |lia].
    destruct (round_aux_finite false (x + y) e loc_Exact) as (m' & e' & -> & ?); [lia..|done].
Qed.

(** ** The order of numbers *)

Lemma leb_cmp a b :
  f64_is_nan a = false → f64_is_nan b = false → f64_leb a b = negb (f64_ltb b a).
Proof.
  intros Ha Hb. pose proof (float_cmp_opp a b Ha Hb) as Ho.
  unfold f64_leb, f64_ltb, SFleb, SFltb, float_cmp, f64_partial_cmp in *.
  destruct (SFcompare a b) as [[]|] eqn:Hab, (SFcompare b a) as [[]|] eqn:Hba; cbn in *; try done;
    by destruct a, b.
Qed.

Lemma leb_iff a b :
  f64_is_nan a = false → f64_is_nan b = false → f64_leb a b = true ↔ float_cmp a b ≠ Gt.
Proof.
  intros Ha Hb. rewrite leb_cmp, negb_true_iff by done.
  rewrite <- not_true_iff_false, f64_ltb_cmp, (float_cmp_opp a b) by done.
  by destruct (float_cmp a b).
Qed.

Lemma leb_refl a : f64_is_nan a = false → f64_leb a a = true.
Proof.
  intros Ha. apply leb_iff; [done..|]. pose proof (float_cmp_opp a a Ha Ha). by destruct (float_cmp a a).
Qed.

Lemma leb_trans a b c :
  f64_is_nan a = false → f64_is_nan b = false → f64_is_nan c = false →
  f64_leb a b = true → f64_leb b c = true → f64_leb a c = true.
Proof.
  intros Ha Hb Hc. rewrite !leb_iff by done. intros Hab Hbc.
  rewrite (float_cmp_trans a b c) by done. by destruct (float_cmp a b).
Qed.

Lemma leb_not_nan a b : f64_leb a b = true → f64_is_nan a = false ∧ f64_is_nan b = false.
Proof. by destruct a, b. Qed.

(** ** The largest of a list *)

Lemma max_fold_spec {A : Type} (key : A → f64) (scores : list A) (s : A) :
  Forall (λ x, f64_is_nan (key x) = false) (s :: scores) →
  let best := foldl (λ best y, match float_cmp (key best) (key y) with Gt => best | _ => y end)
                s scores in
  best ∈ s :: scores ∧ Forall (λ x, f64_leb (key x) (key best) = true) (s :: scores).
Proof.
  revert s. induction scores as [|x scores IH]; intros s Hn; cbn [foldl].
  - split; [by left|]. apply Forall_cons in Hn as [Hn _]. constructor; [by apply leb_refl|done].
  - apply Forall_cons in Hn as [Hs Hn]. pose proof Hn as [Hx Hn']%Forall_cons.
    assert (float_cmp (key s) (key x) ≠ Gt → f64_leb (key s) (key x) = true) as Hsx by (by intros; apply leb_iff).
    assert (∀ b, f64_leb (key s) (key x) = true → f64_leb (key x) b = true → f64_leb (key s) b = true) as Htr.
    { intros b Hsx' Hxb. destruct (leb_not_nan _ _ Hxb). by apply (leb_trans _ (key x)). }
    destruct (float_cmp (key s) (key x)) eqn:Hc.
    + destruct (IH x Hn) as [Hin Hall]. split; [by right|]. constructor; [|done].
      apply Forall_cons in Hall as [Hb _]. apply Htr; [by apply Hsx|done].
    + destruct (IH x Hn) as [Hin Hall]. split; [by right|]. constructor; [|done].
      apply Forall_cons in Hall as [Hb _]. apply Htr; [by apply Hsx|done].
    + destruct (IH s) as [Hin Hall]; [by constructor|]. apply Forall_cons in Hall as [Hb Hall].
      split; [set_solver|]. repeat constructor; [done| |done].
      destruct (leb_not_nan _ _ Hb). apply (leb_trans _ (key s)); [done..| |done].
      apply leb_iff; [done..|]. by rewrite (float_cmp_opp (key s)), Hc.
Qed.

Lemma max_by_float_spec {A : Type} (key : A → f64) (l : list A) :
  l ≠ [] → Forall (λ x, f64_is_nan (key x) = false) l →
  ∃ best, max_by_float key l = Some best ∧ best ∈ l ∧
    Forall (λ x, f64_leb (key x) (key best) = true) l.
Proof.
  destruct l as [|s l]; [done|]. intros _ Hn. eexists. split; [done|].
  exact (max_fold_spec key l s Hn).
Qed.

(** ** The first of a sorted list

    What [sort_by] on a float followed by [truncate] gives: the best elements, best first. *)

Section top.
Context {A : Type}.

(** [r] is the best [k] of [l], in order; of fewer, all. *)
Definition top_k (better : A → A → Prop) (k : nat) (l r : list A) : Prop :=
  (length r = k `min` length l)%nat ∧ StronglySorted better r ∧
  ∃ rest, l ≡ₚ r ++ rest ∧ ∀ x y, x ∈ r → y ∈ rest → better x y.

Lemma take_sorted (better : A → A → Prop) (k : nat) (l s : list A) :
  s ≡ₚ l → StronglySorted better s → top_k better k l (take k s).
Proof.
  intros Hp Hs. rewrite <- (take_drop k s) in Hs. apply StronglySorted_app in Hs as (Hall & Hs1 & Hs2).
  split; [by rewrite length_take, Hp|]. split; [done|]. exists (drop k s).
  split; [by rewrite take_drop|]. intros x y Hx Hy. by apply Hall.
Qed.

Context (key : A → f64).

Definition smaller (x y : A) : Prop := f64_leb (key x) (key y) = true.
Definition larger (x y : A) : Prop := f64_leb (key y) (key x) = true.

Definition numbers (l : list A) : Prop := Forall (λ x, f64_is_nan (key x) = false) l.

Lemma sort_ascending (l : list A) :
  numbers l → StronglySorted smaller (sort_by (λ x y, float_cmp (key x) (key y)) l).
Proof.
  unfold numbers. rewrite Forall_forall. intros Hn. apply sort_by_sorted.
  - intros x y z Hx Hy Hz. by apply leb_trans; apply Hn.
  - intros l1 x l2 y -> Hy. pose proof (Hn x) as Hx. pose proof (Hn y) as Hy'.
    rewrite elem_of_app, elem_of_cons in *. specialize (Hx (or_intror (or_introl eq_refl))).
    specialize (Hy' (or_intror (or_intror Hy))). unfold smaller. rewrite !leb_iff by done.
    rewrite (float_cmp_opp (key x) (key y)) by done. destruct (float_cmp (key x) (key y)); naive_solver.
Qed.

Lemma sort_descending (l : list A) :
  numbers l → StronglySorted larger (sort_by (λ x y, float_cmp (key y) (key x)) l).
Proof.
  unfold numbers. rewrite Forall_forall. intros Hn. apply sort_by_sorted.
  - intros x y z Hx Hy Hz Hxy Hyz. by apply (leb_trans _ (key y)); try apply Hn.
  - intros l1 x l2 y -> Hy. pose proof (Hn x) as Hx. pose proof (Hn y) as Hy'.
    rewrite elem_of_app, elem_of_cons in *. specialize (Hx (or_intror (or_introl eq_refl))).
    specialize (Hy' (or_intror (or_intror Hy))). unfold larger. rewrite !leb_iff by done.
    rewrite (float_cmp_opp (key x) (key y)) by done. destruct (float_cmp (key x) (key y)); naive_solver.
Qed.

End top.
