(* ===== verification/LockTable.v ===== *)
(** * The lock table of the transaction manager

    Models the types and the [LockTable] of
    [src/rust-core/verisim-hexad/src/transaction.rs]: modality locks, the
    wait-for graph and its deadlock detector.  [Transaction.v] builds the
    manager on top.  [HashMap] is [gmap]; the order in which [detect_cycle]
    visits a [HashSet] is the parameter [HashIter]. *)

From S2P Require Import Prelude.

(** ** Core types *)

(** [Uuid::new_v4()] is drawn outside the model: an identifier is a number and
    [begin] receives the one that was drawn. *)
Abbreviation Uuid := N.

Definition MODALITIES : list string :=
  ["graph"; "vector"; "tensor"; "semantic"; "document"; "temporal";
   "provenance"; "spatial"]%string.

Inductive TransactionState := Active | Committed | RolledBack.

Inductive IsolationLevel := ReadCommitted | Serializable.

(** [impl Default for IsolationLevel]. *)
Definition IsolationLevel_default : IsolationLevel := ReadCommitted.

Inductive LockType := Shared | Exclusive.

#[export] Instance TransactionState_eq_dec : EqDecision TransactionState.
Proof. solve_decision. Defined.
#[export] Instance IsolationLevel_eq_dec : EqDecision IsolationLevel.
Proof. solve_decision. Defined.
#[export] Instance LockType_eq_dec : EqDecision LockType.
Proof. solve_decision. Defined.

Inductive TransactionError :=
| InvalidState (transaction_id : Uuid) (current : TransactionState) (expected : string)
| LockConflict (entity_id modality : string) (held_by : Uuid)
| DeadlockDetected (transaction_id : Uuid) (cycle : list Uuid)
| TransactionNotFound (id : Uuid)
| InvalidModality (m : string)
| VersionConflict (entity_id : string) (expected_version actual_version : Z).

(** Key for the lock table: (entity_id, modality). *)
Record LockKey := { lk_entity_id : string; lk_modality : string }.

#[export] Instance LockKey_eq_dec : EqDecision LockKey.
Proof. solve_decision. Defined.
#[export] Instance LockKey_countable : Countable LockKey.
Proof.
  refine (inj_countable' (λ k, (lk_entity_id k, lk_modality k))
                         (λ p, {| lk_entity_id := p.1; lk_modality := p.2 |}) _).
  by intros [].
Defined.

(** Information about a lock held in the global lock table. *)
Record LockInfo := { li_holder : Uuid; li_lock_type : LockType }.

#[export] Instance LockInfo_eq_dec : EqDecision LockInfo.
Proof. solve_decision. Defined.

Module LockTable.

Record t := {
  locks : gmap LockKey (list LockInfo);
  wait_for : gmap Uuid (gset Uuid);
}.

Definition new : t := {| locks := ∅; wait_for := ∅ |}.

Definition set_wait_for (w : gmap Uuid (gset Uuid)) (lt : t) : t :=
  {| locks := locks lt; wait_for := w |}.

(** ** Deadlock detection

    [wait_for.get(&u)], in the order the set is iterated. *)
Definition neighbors `{!HashIter Uuid} (w : gmap Uuid (gset Uuid)) (u : Uuid) : list Uuid :=
  match w !! u with
  | Some s => hash_iter s
  | None => []
  end.

(** The [while let Some(path) = queue.pop_front()] loop: [None] only when the
    fuel runs out, [Some r] with [r] what [detect_cycle] returns. *)
Fixpoint cycle_loop `{!HashIter Uuid} (w : gmap Uuid (gset Uuid)) (start : Uuid)
    (fuel : nat) (visited : gset Uuid) (queue : list (list Uuid)) : option (option (list Uuid)) :=
  match fuel with
  | 0 => None
  | S fuel =>
    match queue with
    | [] => Some None
    | path :: queue =>
      match last path with
      | None => cycle_loop w start fuel visited queue
      | Some current =>
        if decide (current = start) then Some (Some path)
        else if decide (current ∈ visited) then cycle_loop w start fuel visited queue
        else cycle_loop w start fuel ({[current]} ∪ visited)
               (queue ++ ((λ neighbor, path ++ [neighbor]) <$> neighbors w current))
      end
    end
  end.

(** Every path is popped at most once, and at most one path per edge is pushed:
    the number of edges bounds the loop. *)
Definition edge_count (w : gmap Uuid (gset Uuid)) : nat :=
  map_fold (λ _ s n, size s + n) 0 w.

Definition cycle_fuel (w : gmap Uuid (gset Uuid)) : nat := S (2 * edge_count w).

Definition detect_cycle `{!HashIter Uuid} (lt : t) (start : Uuid) : option (list Uuid) :=
  let w := wait_for lt in
  default None
    (cycle_loop w start (cycle_fuel w) ∅ ((λ neighbor, [start; neighbor]) <$> neighbors w start)).

(** ** Acquiring a lock *)

Inductive AcquireAction :=
| AlreadyHeld
| Upgrade
| UpgradeConflict (other_holder : Uuid)
| Conflict (blocker : Uuid)
| Grant.

(** [!matches!((info.lock_type, lock_type), (Shared, Shared))] *)
Definition conflicts (held requested : LockType) : bool :=
  match held, requested with
  | Shared, Shared => false
  | _, _ => true
  end.

(** Phase 1, the loop over [holders] with its breaks: [holders] is the whole
    vector, [rest] what the loop has still to visit. *)
Fixpoint acquire_scan (transaction_id : Uuid) (lock_type : LockType)
    (holders rest : list LockInfo) : AcquireAction :=
  match rest with
  | [] => Grant
  | info :: rest =>
    if decide (li_holder info = transaction_id) then
      if bool_decide (li_lock_type info = Shared) && bool_decide (lock_type = Exclusive) then
        if decide (length holders = 1) then Upgrade
        else UpgradeConflict
               (default transaction_id
                  (li_holder <$> head (filter (λ h, li_holder h ≠ transaction_id) holders)))
      else AlreadyHeld
    else if conflicts (li_lock_type info) lock_type then Conflict (li_holder info)
    else acquire_scan transaction_id lock_type holders rest
  end.

(** Phase 3: [retain], [push], and the wait-for edges of the transaction go. *)
Definition grant (transaction_id : Uuid) (key : LockKey) (lock_type : LockType) (lt : t) : t :=
  let holders := default [] (locks lt !! key) in
  {| locks :=
       <[key := filter (λ info, li_holder info ≠ transaction_id) holders
                ++ [{| li_holder := transaction_id; li_lock_type := lock_type |}]]> (locks lt);
     wait_for := delete transaction_id (wait_for lt) |}.

(** [wait_for.entry(transaction_id).or_default().insert(blocker)] *)
Definition add_wait (transaction_id blocker : Uuid) (lt : t) : t :=
  set_wait_for
    (<[transaction_id := {[blocker]} ∪ default ∅ (wait_for lt !! transaction_id)]> (wait_for lt)) lt.

Definition acquire `{!HashIter Uuid} (transaction_id : Uuid) (entity_id modality : string)
    (lock_type : LockType) (lt : t) : result TransactionError () * t :=
  let key := {| lk_entity_id := entity_id; lk_modality := modality |} in
  let holders := default [] (locks lt !! key) in
  match acquire_scan transaction_id lock_type holders holders with
  | AlreadyHeld => (Ok (), lt)
  | UpgradeConflict other_holder => (Err (LockConflict entity_id modality other_holder), lt)
  | Conflict blocker =>
    let lt := add_wait transaction_id blocker lt in
    match detect_cycle lt transaction_id with
    | Some cycle =>
      (Err (DeadlockDetected transaction_id cycle),
       set_wait_for (delete transaction_id (wait_for lt)) lt)
    | None => (Err (LockConflict entity_id modality blocker), lt)
    end
  | Upgrade | Grant => (Ok (), grant transaction_id key lock_type lt)
  end.

(** ** Releasing and inspecting *)

Definition release_holders (transaction_id : Uuid) (holders : list LockInfo)
    : option (list LockInfo) :=
  match filter (λ info, li_holder info ≠ transaction_id) holders with
  | [] => None
  | holders => Some holders
  end.

Definition release_all (transaction_id : Uuid) (lt : t) : t :=
  {| locks := omap (release_holders transaction_id) (locks lt);
     wait_for := (λ waiters, waiters ∖ {[transaction_id]}) <$> delete transaction_id (wait_for lt) |}.

Definition is_locked (entity_id modality : string) (lt : t) : bool :=
  match locks lt !! {| lk_entity_id := entity_id; lk_modality := modality |} with
  | Some h => negb (bool_decide (h = []))
  | None => false
  end.

Definition holders (entity_id modality : string) (lt : t) : list (Uuid * LockType) :=
  match locks lt !! {| lk_entity_id := entity_id; lk_modality := modality |} with
  | Some h => (λ info, (li_holder info, li_lock_type info)) <$> h
  | None => []
  end.

End LockTable.
