(* ===== verification/DeadlockDetector.v ===== *)
(** * The deadlock detector

    [LockTable.detect_cycle] is a breadth-first search of the wait-for graph.
    This file proves that its loop ends, that a reported cycle is a cycle
    through the requesting transaction and a shortest one, and that it reports
    one whenever there is one. *)

From S2P Require Import Prelude LockTable.
Import LockTable.

Section detector.
Context `{!HashIter Uuid}.
Implicit Types (w : gmap Uuid (gset Uuid)) (u v : Uuid) (path : list Uuid).

(** ** The wait-for graph *)

(** [u] waits for [v]. *)
Definition waits w u v : Prop := ∃ s, w !! u = Some s ∧ v ∈ s.

(** [walk w u n v]: [v] is reached from [u] along [n] edges. *)
Inductive walk w u : nat → Uuid → Prop :=
| walk_one v : waits w u v → walk w u 1 v
| walk_snoc n v v' : walk w u n v → waits w v v' → walk w u (S n) v'.

(** A list of transactions each of which waits for the next. *)
Fixpoint is_path w path : Prop :=
  match path with
  | u :: ((v :: _) as rest) => waits w u v ∧ is_path w rest
  | _ => True
  end.

(** A cycle through [u], as the detector reports it: both ends are [u]. *)
Definition is_cycle w u path : Prop :=
  head path = Some u ∧ last path = Some u ∧ 2 ≤ length path ∧ is_path w path.

Lemma elem_of_neighbors w u v : v ∈ neighbors w u ↔ waits w u v.
Proof.
  unfold neighbors, waits. destruct (w !! u) as [s|].
  - rewrite elem_of_hash_iter. naive_solver.
  - split; [by intros ?%elem_of_nil|naive_solver].
Qed.

Lemma is_path_snoc w path u v :
  last path = Some u → waits w u v → is_path w path → is_path w (path ++ [v]).
Proof.
  induction path as [|a path IH]; [done|].
  destruct path as [|b path]; cbn; [naive_solver|].
  intros Hl Hw [Hab Hp]. split; [done|]. by apply IH.
Qed.

Lemma is_path_walk w path u v :
  head path = Some u → last path = Some v → 2 ≤ length path → is_path w path →
  walk w u (pred (length path)) v.
Proof.
  revert v. induction path as [|x path IH] using rev_ind; [done|]. intros v Hh Hl Hlen Hp.
  rewrite last_snoc in Hl. simplify_eq. rewrite length_app in *. cbn in *.
  destruct (last path) as [y|] eqn:Hy; [|by apply last_None in Hy; subst; cbn in *; lia].
  assert (is_path w path ∧ waits w y v) as [Hp' Hyv].
  { clear -Hp Hy. induction path as [|a path IH]; [done|].
    destruct path as [|b path]; cbn in *; [naive_solver|]. naive_solver. }
  replace (pred (length path + 1)) with (length path) by lia.
  destruct path as [|a [|b path]]; cbn in Hh |- *; simplify_eq/=; [by constructor|].
  eapply walk_snoc; [|done]. by apply (IH y); [| |cbn; lia|].
Qed.

(** ** Termination *)

(** The edges that leave a transaction not yet visited. *)
Definition remaining w (visited : gset Uuid) : nat :=
  edge_count (filter (λ kv, kv.1 ∉ visited) w).

Lemma edge_count_delete w u :
  edge_count w = length (neighbors w u) + edge_count (delete u w).
Proof.
  unfold neighbors, edge_count. destruct (w !! u) as [s|] eqn:Hu.
  - rewrite length_hash_iter. rewrite (map_fold_delete_L _ _ u s); [done|lia|done].
  - by rewrite delete_id.
Qed.

Lemma remaining_visit w visited u :
  u ∉ visited →
  remaining w visited = length (neighbors w u) + remaining w ({[u]} ∪ visited).
Proof.
  intros Hu. unfold remaining. rewrite (edge_count_delete _ u). f_equal.
  - unfold neighbors. destruct (w !! u) as [s|] eqn:Hs.
    + by rewrite (map_lookup_filter_Some_2 _ _ _ s).
    + by rewrite map_lookup_filter_None_2 by (by left).
  - f_equal. apply map_eq. intros v. destruct (decide (v = u)) as [->|Hne].
    + rewrite lookup_delete_eq. symmetry. apply map_lookup_filter_None. right. set_solver.
    + rewrite lookup_delete_ne by done. apply option_eq. intros s.
      rewrite !map_lookup_filter_Some. set_solver.
Qed.

Lemma remaining_empty w : remaining w ∅ = edge_count w.
Proof. unfold remaining. by rewrite map_filter_id by set_solver. Qed.

Lemma cycle_loop_ends w start fuel visited queue :
  length queue + remaining w visited < fuel →
  is_Some (cycle_loop w start fuel visited queue).
Proof.
  revert visited queue. induction fuel as [|fuel IH]; intros visited queue Hlt; [lia|].
  cbn. destruct queue as [|path queue]; [by eexists|]. cbn in Hlt.
  destruct (last path) as [c|]; [|apply IH; lia].
  destruct (decide _); [by eexists|]. destruct (decide _) as [Hin|Hin]; [apply IH; lia|].
  apply IH. rewrite length_app, length_fmap. rewrite (remaining_visit w visited c) in Hlt by done.
  lia.
Qed.

Lemma length_neighbors_le w u : length (neighbors w u) ≤ edge_count w.
Proof. rewrite (edge_count_delete w u). lia. Qed.

(** The fuel [detect_cycle] supplies is enough. *)
Lemma cycle_fuel_enough w start :
  is_Some (cycle_loop w start (cycle_fuel w) ∅ ((λ v, [start; v]) <$> neighbors w start)).
Proof.
  apply cycle_loop_ends. rewrite length_fmap, remaining_empty.
  pose proof (length_neighbors_le w start). unfold cycle_fuel. lia.
Qed.

(** ** Correctness *)

(** What holds each time round the loop.  [depth] gives, for a visited
    transaction, the length of the path that first reached it. *)
Record loop_inv w start (visited : gset Uuid) (queue : list (list Uuid))
    (depth : Uuid → nat) : Prop := {
  inv_paths : ∀ path, path ∈ queue →
    head path = Some start ∧ 2 ≤ length path ∧ is_path w path;
  inv_sorted : ∃ n q1 q2, queue = q1 ++ q2 ∧
    Forall (λ path, length path = n) q1 ∧ Forall (λ path, length path = S n) q2;
  inv_start : start ∉ visited;
  inv_seed : ∀ v, waits w start v → v ∈ visited ∨
    ∃ path, path ∈ queue ∧ last path = Some v ∧ length path = 2;
  inv_closed : ∀ u v, u ∈ visited → waits w u v → v ∈ visited ∨
    ∃ path, path ∈ queue ∧ last path = Some v ∧ length path ≤ S (depth u);
  inv_depth : ∀ u n, u ∈ visited → walk w start n u → depth u ≤ S n;
}.

(** A walk that leaves the visited set passes through the queue. *)
Lemma loop_inv_frontier w start visited queue depth n v :
  loop_inv w start visited queue depth →
  walk w start n v → v ∉ visited →
  ∃ path, path ∈ queue ∧ length path ≤ S n.
Proof.
  intros Hinv. induction 1 as [v Hv|n u v Hwalk IH Huv]; intros Hni.
  - destruct (inv_seed _ _ _ _ _ Hinv v Hv) as [?|(path & ? & _ & ?)]; [done|].
    exists path. split; [done|lia].
  - destruct (decide (u ∈ visited)) as [Hu|Hu].
    + destruct (inv_closed _ _ _ _ _ Hinv u v Hu Huv) as [?|(path & ? & _ & ?)]; [done|].
      exists path. split; [done|]. pose proof (inv_depth _ _ _ _ _ Hinv u n Hu Hwalk). lia.
    + destruct (IH Hu) as (path & ? & ?). exists path. split; [done|lia].
Qed.

(** The path at the head of the queue is a shortest one. *)
Lemma loop_inv_head w start visited path queue depth path' :
  loop_inv w start visited (path :: queue) depth →
  path' ∈ path :: queue → length path ≤ length path'.
Proof.
  intros Hinv Hin. destruct (inv_sorted _ _ _ _ _ Hinv) as (n & q1 & q2 & Hq & H1 & H2).
  rewrite Forall_forall in H1, H2. rewrite Hq in Hin.
  destruct q1 as [|a q1]; cbn in Hq, Hin.
  - rewrite (H2 path), (H2 path'); [done|done|]. rewrite <- Hq. by left.
  - injection Hq as <- _. rewrite (H1 path) by (by left).
    change (path' ∈ (path :: q1) ++ q2) in Hin. apply elem_of_app in Hin as [Hp|Hp].
    + by rewrite (H1 path').
    + rewrite (H2 path') by done. lia.
Qed.

Lemma sorted_tail (n : nat) path (q1 q2 queue : list (list Uuid)) :
  path :: queue = q1 ++ q2 →
  Forall (λ path, length path = n) q1 → Forall (λ path, length path = S n) q2 →
  ∃ n' q1' q2', queue = q1' ++ q2' ∧ length path = n' ∧
    Forall (λ path, length path = n') q1' ∧ Forall (λ path, length path = S n') q2'.
Proof.
  intros Hq H1 H2. destruct q1 as [|a q1]; simplify_eq/=.
  - inversion H2; subst. exists (S n), queue, []. rewrite app_nil_r. naive_solver.
  - inversion H1; subst. eexists _, q1, q2. naive_solver.
Qed.

(** Dropping a path whose end is visited already. *)
Lemma loop_inv_skip w start visited path queue depth v :
  last path = Some v → v ∈ visited →
  loop_inv w start visited (path :: queue) depth → loop_inv w start visited queue depth.
Proof.
  intros Hl Hv Hinv. pose proof Hinv as [Hpaths (n & q1 & q2 & Hq & H1 & H2) Hst Hseed Hcl Hd].
  split; [| |done| | |done].
  - intros p Hp. apply Hpaths. set_solver.
  - destruct (sorted_tail _ _ _ _ _ Hq H1 H2) as (n' & q1' & q2' & ? & _ & ? & ?). naive_solver.
  - intros u Hu. destruct (Hseed u Hu) as [?|(p & [->|Hp]%elem_of_cons & ? & ?)]; [by left| |].
    + left. naive_solver.
    + right. by exists p.
  - intros u u' Hu Huu'. destruct (Hcl u u' Hu Huu')
      as [?|(p & [->|Hp]%elem_of_cons & ? & ?)]; [by left| |].
    + left. naive_solver.
    + right. by exists p.
Qed.

(** Expanding the path at the head of the queue. *)
Lemma loop_inv_expand w start visited path queue depth c :
  last path = Some c → c ∉ visited → c ≠ start →
  loop_inv w start visited (path :: queue) depth →
  loop_inv w start ({[c]} ∪ visited)
    (queue ++ ((λ v, path ++ [v]) <$> neighbors w c))
    (λ u, if decide (u = c) then length path else depth u).
Proof.
  intros Hl Hc Hcs Hinv. pose proof Hinv as [Hpaths (n & q1 & q2 & Hq & H1 & H2) Hst Hseed Hcl Hd].
  destruct (Hpaths path) as (Hh & Hlen & Hp); [by left|].
  assert (∀ v p n', p ∈ path :: queue → last p = Some v → length p ≤ n' →
    v ∈ ({[c]} ∪ visited) ∨ ∃ p', p' ∈ queue ++ ((λ v, path ++ [v]) <$> neighbors w c) ∧
      last p' = Some v ∧ length p' = length p) as Hmove.
  { intros v p n' [->|Hin]%elem_of_cons Hlv _; [left; set_solver|].
    right. exists p. rewrite elem_of_app. naive_solver. }
  split.
  - intros p [Hin|Hin]%elem_of_app; [by apply Hpaths; right|].
    apply list_elem_of_fmap in Hin as (v & -> & Hv%elem_of_neighbors).
    rewrite length_app. split_and!; [by destruct path|lia|by eapply is_path_snoc].
  - destruct (sorted_tail _ _ _ _ _ Hq H1 H2) as (n' & q1' & q2' & -> & Hn' & ? & ?).
    exists n', q1', (q2' ++ ((λ v, path ++ [v]) <$> neighbors w c)).
    rewrite app_assoc. split_and!; [done|done|]. apply Forall_app; split; [done|].
    apply Forall_fmap, Forall_forall. intros v _. cbn. rewrite length_app. cbn. lia.
  - set_solver.
  - intros v Hv. destruct (Hseed v Hv) as [?|(p & Hp' & Hlp & Hlen')]; [left; set_solver|].
    destruct (Hmove v p (length p)) as [?|(p' & ? & ? & ?)]; [done..|by left|].
    right. exists p'. naive_solver lia.
  - intros u v Hu Huv. case_decide as Huc; [subst u|].
    + right. exists (path ++ [v]). rewrite last_snoc, length_app, elem_of_app, list_elem_of_fmap.
      setoid_rewrite elem_of_neighbors. cbn. naive_solver lia.
    + destruct (Hcl u v) as [?|(p & Hp' & Hlp & Hlen')]; [set_solver|done|left; set_solver|].
      destruct (Hmove v p (length p)) as [?|(p' & ? & ? & ?)]; [done..|by left|].
      right. exists p'. naive_solver lia.
  - intros u m Hu Hw. case_decide as Huc; [subst u|apply Hd; [set_solver|done]].
    destruct (loop_inv_frontier _ _ _ _ _ _ _ Hinv Hw Hc) as (p & Hp' & ?).
    pose proof (loop_inv_head _ _ _ _ _ _ _ Hinv Hp'). lia.
Qed.

Lemma loop_inv_start w start :
  loop_inv w start ∅ ((λ v, [start; v]) <$> neighbors w start) (λ _, 0).
Proof.
  split.
  - intros p (v & -> & Hv%elem_of_neighbors)%list_elem_of_fmap. cbn. naive_solver lia.
  - exists 2, ((λ v, [start; v]) <$> neighbors w start), []. rewrite app_nil_r.
    split_and!; [done| |done]. by apply Forall_fmap, Forall_forall.
  - set_solver.
  - intros v Hv. right. exists [start; v]. rewrite list_elem_of_fmap.
    setoid_rewrite elem_of_neighbors. naive_solver.
  - set_solver.
  - set_solver.
Qed.

(** What the loop returns, from any state that satisfies the invariant. *)
Lemma cycle_loop_spec w start fuel visited queue depth r :
  loop_inv w start visited queue depth →
  cycle_loop w start fuel visited queue = Some r →
  match r with
  | Some path => is_cycle w start path ∧ ∀ n, walk w start n start → length path ≤ S n
  | None => ∀ n, ¬ walk w start n start
  end.
Proof.
  revert visited queue depth. induction fuel as [|fuel IH]; intros visited queue depth Hinv; [done|].
  cbn. destruct queue as [|path queue].
  { intros [= <-] n Hn.
    destruct (loop_inv_frontier _ _ _ _ _ _ _ Hinv Hn) as (p & ?%elem_of_nil & _);
      [apply (inv_start _ _ _ _ _ Hinv)|done]. }
  destruct (inv_paths _ _ _ _ _ Hinv path) as (Hh & Hlen & Hp); [by left|].
  destruct (last path) as [c|] eqn:Hl; [|by apply last_None in Hl; subst].
  destruct (decide _) as [->|Hc].
  { intros [= <-]. split; [done|]. intros n Hn.
    destruct (loop_inv_frontier _ _ _ _ _ _ _ Hinv Hn) as (p & Hin & ?);
      [apply (inv_start _ _ _ _ _ Hinv)|].
    pose proof (loop_inv_head _ _ _ _ _ _ _ Hinv Hin). lia. }
  destruct (decide _) as [Hv|Hv]; [by eapply IH, loop_inv_skip|].
  by eapply IH, loop_inv_expand.
Qed.

(** [detect_cycle] as its loop. *)
Lemma detect_cycle_loop lt start r :
  detect_cycle lt start = r →
  cycle_loop (wait_for lt) start (cycle_fuel (wait_for lt)) ∅
    ((λ v, [start; v]) <$> neighbors (wait_for lt) start) = Some r.
Proof.
  intros <-. unfold detect_cycle. by destruct (cycle_fuel_enough (wait_for lt) start) as [r' ->].
Qed.

Lemma detect_cycle_spec lt start r :
  detect_cycle lt start = r →
  match r with
  | Some path => is_cycle (wait_for lt) start path ∧
      ∀ n, walk (wait_for lt) start n start → length path ≤ S n
  | None => ∀ n, ¬ walk (wait_for lt) start n start
  end.
Proof.
  intros Hd%detect_cycle_loop.
  exact (cycle_loop_spec _ _ _ _ _ _ _ (loop_inv_start _ _) Hd).
Qed.

(** C38: A cycle the detector reports is a cycle of the wait-for graph through
    the requesting transaction, no longer than any other such cycle. *)
Theorem detect_cycle_shortest lt start path :
  detect_cycle lt start = Some path →
  is_cycle (wait_for lt) start path ∧
  ∀ path', is_cycle (wait_for lt) start path' → length path ≤ length path'.
Proof.
  intros [Hc Hmin]%detect_cycle_spec. split; [done|]. intros path' (Hh & Hl & Hlen & Hp).
  pose proof (Hmin _ (is_path_walk _ _ _ _ Hh Hl Hlen Hp)). lia.
Qed.

(** The detector stays silent exactly when the requesting transaction does
    not wait, directly or through others, for itself. *)
Theorem detect_cycle_complete lt start :
  detect_cycle lt start = None ↔ ∀ n, ¬ walk (wait_for lt) start n start.
Proof.
  split; [by intros ?%detect_cycle_spec|].
  intros Hno. destruct (detect_cycle lt start) as [path|] eqn:Hd; [|done].
  apply detect_cycle_spec in Hd as [(Hh & Hl & Hlen & Hp) _].
  by destruct (Hno _ (is_path_walk _ _ _ _ Hh Hl Hlen Hp)).
Qed.

End detector.
