(* ===== verification/LockSpec.v ===== *)
(** * The lock table implements reader-writer locks

    The abstract lock table: for every key, which transactions hold it and how.
    A request is granted when every other holder is compatible.  The refinement
    theorem says that [LockTable.acquire] and [LockTable.release_all] implement
    it, on the tables that satisfy the exclusivity invariant, which both
    operations preserve. *)

From S2P Require Import Prelude LockTable DeadlockDetector.
Import LockTable.

(** ** The specification *)

Module RwLock.

Abbreviation holding := (gmap Uuid LockType).
Abbreviation t := (gmap LockKey holding).

(** Every other transaction's lock is compatible with the request. *)
Definition compatible (tid : Uuid) (lock_type : LockType) (h : holding) : Prop :=
  map_Forall (λ other held, other = tid ∨ conflicts held lock_type = false) h.

#[export] Instance compatible_dec tid lock_type h : Decision (compatible tid lock_type h).
Proof. unfold compatible. apply _. Defined.

(** A transaction keeps the stronger of the lock it has and the one it asks for. *)
Definition stronger (held : option LockType) (lock_type : LockType) : LockType :=
  match held with
  | Some Exclusive => Exclusive
  | _ => lock_type
  end.

Definition acquire (tid : Uuid) (key : LockKey) (lock_type : LockType) (s : t) : bool * t :=
  let h := default ∅ (s !! key) in
  if decide (compatible tid lock_type h)
  then (true, <[key := <[tid := stronger (h !! tid) lock_type]> h]> s)
  else (false, s).

Definition drop (tid : Uuid) (h : holding) : option holding :=
  let h := delete tid h in
  if decide (h = ∅) then None else Some h.

Definition release_all (tid : Uuid) (s : t) : t := omap (drop tid) s.

End RwLock.

(** ** The invariant and the abstraction function *)

(** The holders of one key: somebody, each transaction once, and alone when exclusive. *)
Definition holders_wf (hs : list LockInfo) : Prop :=
  hs ≠ [] ∧ NoDup (li_holder <$> hs) ∧
  ∀ info, info ∈ hs → li_lock_type info = Exclusive → hs = [info].

Definition lock_table_wf (lt : t) : Prop := map_Forall (λ _ hs, holders_wf hs) (locks lt).

Definition abs_holders (hs : list LockInfo) : RwLock.holding :=
  list_to_map ((λ info, (li_holder info, li_lock_type info)) <$> hs).

Definition abs_table (lt : t) : RwLock.t := abs_holders <$> locks lt.

Lemma abs_holders_lookup hs tid lty :
  NoDup (li_holder <$> hs) →
  abs_holders hs !! tid = Some lty ↔ {| li_holder := tid; li_lock_type := lty |} ∈ hs.
Proof.
  intros Hnd. unfold abs_holders. rewrite <- elem_of_list_to_map.
  - rewrite list_elem_of_fmap. split; [|intros ?; by exists {| li_holder := tid; li_lock_type := lty |}].
    intros ([h ty] & Heq & ?). cbn in Heq. by simplify_eq.
  - rewrite <- list_fmap_compose. exact Hnd.
Qed.

Lemma holders_inj hs i j :
  NoDup (li_holder <$> hs) → i ∈ hs → j ∈ hs → li_holder i = li_holder j → i = j.
Proof.
  intros Hnd Hi Hj Hij. destruct i as [h ti], j as [h' tj]. cbn in Hij. subst h'.
  apply (abs_holders_lookup _ _ _ Hnd) in Hi, Hj. congruence.
Qed.

(** ** The scan over the holders *)

Lemma acquire_scan_grant tid lty hs rest :
  acquire_scan tid lty hs rest = Grant →
  ∀ info, info ∈ rest → li_holder info ≠ tid ∧ conflicts (li_lock_type info) lty = false.
Proof.
  induction rest as [|i rest IH]; cbn; [by intros _ info ?%elem_of_nil|].
  intros Hs info [->|Hin]%elem_of_cons; case_all; eauto.
Qed.

Lemma acquire_scan_conflict tid lty hs rest b :
  acquire_scan tid lty hs rest = Conflict b →
  ∃ info, info ∈ rest ∧ li_holder info = b ∧ b ≠ tid ∧ conflicts (li_lock_type info) lty = true.
Proof.
  induction rest as [|i rest IH]; cbn; [done|]. intros Hs. case_all.
  - exists i. set_solver.
  - destruct IH as (info & ? & ? & ? & ?); [done|]. exists info. set_solver.
Qed.

Lemma acquire_scan_own tid lty hs rest a :
  acquire_scan tid lty hs rest = a → a ≠ Grant → (∀ b, a ≠ Conflict b) →
  ∃ info, info ∈ rest ∧ li_holder info = tid ∧
    if bool_decide (li_lock_type info = Shared) && bool_decide (lty = Exclusive) then
      if decide (length hs = 1) then a = Upgrade
      else a = UpgradeConflict
               (default tid (li_holder <$> head (filter (λ h, li_holder h ≠ tid) hs)))
    else a = AlreadyHeld.
Proof.
  induction rest as [|i rest IH]; cbn; [intros <-; done|]. intros Hs Hg Hc.
  destruct (decide (li_holder i = tid)) as [Ht|Ht].
  - exists i. split; [by left|]. split; [done|]. rewrite <- Hs.
    by destruct (_ && _); [destruct (decide _)|].
  - destruct (conflicts _ _) eqn:Hco; [by destruct (Hc (li_holder i))|].
    destruct IH as (info & ? & ? & ?); [done..|]. exists info. split; [by right|done].
Qed.

(** Compatibility, read off the list. *)
Lemma compatible_holders tid lty hs :
  NoDup (li_holder <$> hs) →
  RwLock.compatible tid lty (abs_holders hs) ↔
  ∀ info, info ∈ hs → li_holder info = tid ∨ conflicts (li_lock_type info) lty = false.
Proof.
  intros Hnd. unfold RwLock.compatible, map_Forall. split.
  - intros Hall [h ty] Hin. apply Hall. by apply abs_holders_lookup.
  - intros Hall h ty Hin%abs_holders_lookup; [|done]. by apply (Hall _ Hin).
Qed.

Lemma holders_wf_two_shared hs info :
  holders_wf hs → length hs ≠ 1 → info ∈ hs → li_lock_type info = Shared.
Proof.
  intros (_ & _ & Hex) Hlen Hin. destruct (li_lock_type info) eqn:Hty; [done|].
  by rewrite (Hex info Hin Hty) in Hlen.
Qed.

(** An exclusive holder is the only one. *)
Lemma exclusive_alone hs i j :
  holders_wf hs → i ∈ hs → li_lock_type i = Exclusive → j ∈ hs → j = i.
Proof.
  intros (_ & _ & Hex) Hi Hty Hj. rewrite (Hex i Hi Hty) in Hj.
  by apply list_elem_of_singleton in Hj.
Qed.

(** Another holder exists when there is more than one. *)
Lemma other_holder tid hs :
  NoDup (li_holder <$> hs) → hs ≠ [] → length hs ≠ 1 →
  ∃ info, head (filter (λ h, li_holder h ≠ tid) hs) = Some info ∧
    info ∈ hs ∧ li_holder info ≠ tid.
Proof.
  intros Hnd Hne Hlen.
  destruct (filter (λ h, li_holder h ≠ tid) hs) as [|info l] eqn:Hf.
  - exfalso. destruct hs as [|a [|b hs]]; [done..|].
    assert (∀ x, x ∈ a :: b :: hs → li_holder x = tid) as Hall.
    { intros x Hx. destruct (decide (li_holder x = tid)) as [?|Hn]; [done|].
      assert (x ∈ filter (λ h, li_holder h ≠ tid) (a :: b :: hs)) as Hx'
        by by apply list_elem_of_filter.
      rewrite Hf in Hx'. by apply elem_of_nil in Hx'. }
    cbn in Hnd. apply NoDup_cons in Hnd as [Hni _]. apply Hni.
    rewrite (Hall a) by (by left). rewrite <- (Hall b) by (right; by left). by left.
  - exists info. assert (info ∈ filter (λ h, li_holder h ≠ tid) hs) as Hin by (rewrite Hf; by left).
    apply list_elem_of_filter in Hin as [? ?]. naive_solver.
Qed.

(** What the scan decides, on a well-formed list of holders. *)
Lemma acquire_scan_spec tid lty hs :
  holders_wf hs →
  match acquire_scan tid lty hs hs with
  | Grant => RwLock.compatible tid lty (abs_holders hs) ∧ abs_holders hs !! tid = None
  | Upgrade => hs = [{| li_holder := tid; li_lock_type := Shared |}] ∧ lty = Exclusive
  | AlreadyHeld => RwLock.compatible tid lty (abs_holders hs) ∧
      ∃ held, abs_holders hs !! tid = Some held ∧ RwLock.stronger (Some held) lty = held
  | UpgradeConflict b | Conflict b => ¬ RwLock.compatible tid lty (abs_holders hs) ∧
      b ≠ tid ∧ ∃ held, abs_holders hs !! b = Some held ∧ conflicts held lty = true
  end.
Proof.
  intros Hwf. pose proof Hwf as (Hne & Hnd & Hex). pose proof (compatible_holders tid lty hs Hnd) as Hcomp.
  assert (∀ i, i ∈ hs → abs_holders hs !! li_holder i = Some (li_lock_type i)) as Hlk.
  { intros [h ty] Hi. by apply abs_holders_lookup. }
  destruct (acquire_scan tid lty hs hs) as [| |b|b|] eqn:Hs; rewrite ?Hcomp.
  - destruct (acquire_scan_own _ _ _ _ _ Hs) as ([h ty] & Hin & Hh & Hif); [done..|].
    cbn in Hh. subst h. split; [|exists ty; split; [by apply (Hlk _ Hin)|]].
    + intros info Hi. destruct (li_lock_type info) eqn:Hty, lty; try (by right).
      * left. destruct ty; cbn in Hif; [by case_all|].
        by rewrite (exclusive_alone hs _ info Hwf Hin).
      * left. by rewrite <- (exclusive_alone hs info _ Hwf Hi Hty Hin).
      * left. by rewrite <- (exclusive_alone hs info _ Hwf Hi Hty Hin).
    + destruct ty, lty; cbn in *; case_all.
  - destruct (acquire_scan_own _ _ _ _ _ Hs) as ([h ty] & Hin & Hh & Hif); [done..|].
    cbn in Hh. subst h. destruct ty, lty; cbn in Hif; case_all.
    destruct hs as [|a [|? ?]]; [done| |done]. by apply list_elem_of_singleton in Hin as ->.
  - destruct (acquire_scan_own _ _ _ _ _ Hs) as ([h ty] & Hin & Hh & Hif); [done..|].
    destruct ty, lty; cbn in Hif; case_all.
    destruct (other_holder tid hs) as (o & Ho & Hio & Hot); [done..|].
    rewrite Ho. cbn. rewrite (Hlk _ Hio).
    split_and!; [|done|by exists (li_lock_type o); destruct (li_lock_type o)].
    intros Hall. destruct (Hall o Hio) as [?|Hc]; [done|]. by destruct (li_lock_type o).
  - destruct (acquire_scan_conflict _ _ _ _ _ Hs) as (o & Hio & <- & Hot & Hc).
    rewrite (Hlk _ Hio). split_and!; [|done|by eexists].
    intros Hall. by destruct (Hall o Hio) as [?|?]; [|congruence].
  - pose proof (acquire_scan_grant _ _ _ _ Hs) as Hg. split.
    + intros info Hi. right. by apply Hg.
    + apply eq_None_not_Some. intros [ty Hty%abs_holders_lookup]; [|done].
      by destruct (Hg _ Hty).
Qed.

(** ** Granting and releasing *)

Definition without (tid : Uuid) (hs : list LockInfo) : list LockInfo :=
  filter (λ info, li_holder info ≠ tid) hs.

Lemma elem_of_without tid hs info :
  info ∈ without tid hs ↔ li_holder info ≠ tid ∧ info ∈ hs.
Proof. unfold without. by rewrite list_elem_of_filter. Qed.

Lemma NoDup_without tid hs : NoDup (li_holder <$> hs) → NoDup (li_holder <$> without tid hs).
Proof. apply NoDup_fmap_filter. Qed.

Lemma NoDup_granted tid lty hs :
  NoDup (li_holder <$> hs) →
  NoDup (li_holder <$> without tid hs ++ [{| li_holder := tid; li_lock_type := lty |}]).
Proof.
  intros Hnd. rewrite fmap_app. apply NoDup_app. split_and!.
  - by apply NoDup_without.
  - intros h (info & -> & [Hne _]%elem_of_without)%list_elem_of_fmap Hin.
    apply Hne. by apply list_elem_of_singleton in Hin.
  - apply NoDup_singleton.
Qed.

Lemma abs_holders_granted tid lty hs :
  NoDup (li_holder <$> hs) →
  abs_holders (without tid hs ++ [{| li_holder := tid; li_lock_type := lty |}])
  = <[tid := lty]> (abs_holders hs).
Proof.
  intros Hnd. apply map_eq. intros h. apply option_eq. intros ty.
  rewrite abs_holders_lookup by by apply NoDup_granted.
  rewrite elem_of_app, elem_of_without, list_elem_of_singleton. cbn.
  destruct (decide (h = tid)) as [->|Hne].
  - rewrite lookup_insert_eq. naive_solver.
  - rewrite lookup_insert_ne by done. rewrite abs_holders_lookup by done. naive_solver.
Qed.

Lemma abs_holders_without tid hs :
  NoDup (li_holder <$> hs) → abs_holders (without tid hs) = delete tid (abs_holders hs).
Proof.
  intros Hnd. apply map_eq. intros h. apply option_eq. intros ty.
  rewrite abs_holders_lookup by by apply NoDup_without. rewrite elem_of_without. cbn.
  rewrite lookup_delete_Some, abs_holders_lookup by done. naive_solver.
Qed.

Lemma abs_holders_empty hs : abs_holders hs = ∅ ↔ hs = [].
Proof.
  split; [|by intros ->]. destruct hs as [|[h ty] hs]; [done|].
  intros Hm%(f_equal (.!! h)). unfold abs_holders in Hm. cbn in Hm.
  by rewrite lookup_insert_eq in Hm.
Qed.

(** A compatible holder list stays well-formed when the request is granted. *)
Lemma holders_wf_granted tid lty hs :
  NoDup (li_holder <$> hs) → (∀ info, info ∈ hs → li_lock_type info = Exclusive → hs = [info]) →
  RwLock.compatible tid lty (abs_holders hs) →
  holders_wf (without tid hs ++ [{| li_holder := tid; li_lock_type := lty |}]).
Proof.
  intros Hnd Hex Hc. rewrite compatible_holders in Hc by done. split_and!.
  - by destruct (without tid hs).
  - by apply NoDup_granted.
  - intros info [Hin|Hin]%elem_of_app Hty; cbn in *.
    + apply elem_of_without in Hin as [Hn Hi]. destruct (Hc info Hi) as [?|Hco]; [done|].
      by rewrite Hty in Hco.
    + apply list_elem_of_singleton in Hin as ->. cbn in Hty. subst lty.
      assert (without tid hs = []) as ->; [|done].
      destruct (without tid hs) as [|i l] eqn:Hw; [done|].
      assert (i ∈ without tid hs) as [Hn Hi]%elem_of_without by (rewrite Hw; by left).
      destruct (Hc i Hi) as [?|Hco]; [done|]. by destruct (li_lock_type i).
Qed.

Lemma holders_wf_without tid hs : holders_wf hs → without tid hs ≠ [] → holders_wf (without tid hs).
Proof.
  intros (Hne & Hnd & Hex) Hw. split_and!; [done|by apply NoDup_without|].
  intros info [Hn Hi]%elem_of_without Hty. rewrite (Hex info Hi Hty) in Hw |- *.
  unfold without in *. rewrite filter_cons in *. by case_decide.
Qed.

(** ** Refinement *)

(** The holders a key has, with nobody for a key that is not in the table. *)
Lemma lock_table_wf_holders lt key hs :
  lock_table_wf lt → default [] (locks lt !! key) = hs →
  NoDup (li_holder <$> hs) ∧ (∀ info, info ∈ hs → li_lock_type info = Exclusive → hs = [info]) ∧
  default ∅ (abs_table lt !! key) = abs_holders hs ∧ (hs ≠ [] → locks lt !! key = Some hs).
Proof.
  intros Hwf <-. unfold abs_table. rewrite lookup_fmap.
  destruct (locks lt !! key) as [hs|] eqn:Hk; cbn.
  - destruct (Hwf _ _ Hk) as (? & ? & ?). done.
  - split_and!; [apply NoDup_nil_2| |done|done]. by intros info ?%elem_of_nil.
Qed.

Lemma grant_refines tid key lty lt :
  lock_table_wf lt →
  RwLock.compatible tid lty (default ∅ (abs_table lt !! key)) →
  abs_table (grant tid key lty lt)
    = <[key := <[tid := lty]> (default ∅ (abs_table lt !! key))]> (abs_table lt) ∧
  lock_table_wf (grant tid key lty lt).
Proof.
  intros Hwf Hc.
  destruct (lock_table_wf_holders lt key _ Hwf eq_refl) as (Hnd & Hex & Hd & _).
  rewrite Hd in *. split.
  - unfold abs_table, grant. cbn. rewrite fmap_insert. f_equal. by apply abs_holders_granted.
  - apply map_Forall_insert_2; [by apply holders_wf_granted|done].
Qed.

#[local] Arguments abs_table : simpl never.
#[local] Arguments abs_holders : simpl never.
#[local] Arguments grant : simpl never.

Section refinement.
Context `{!HashIter Uuid}.

(** A key's holders: none, or a well-formed list that is in the table. *)
Lemma holders_cases key lt :
  lock_table_wf lt →
  default [] (locks lt !! key) = [] ∨ holders_wf (default [] (locks lt !! key)).
Proof.
  intros Hwf. destruct (locks lt !! key) as [hs|] eqn:Hk; [|by left]. right. by apply (Hwf key).
Qed.

Lemma acquire_granted tid entity_id modality lty lt :
  lock_table_wf lt →
  let key := {| lk_entity_id := entity_id; lk_modality := modality |} in
  let h := default ∅ (abs_table lt !! key) in
  RwLock.compatible tid lty h →
  ∃ lt', acquire tid entity_id modality lty lt = (Ok (), lt') ∧ lock_table_wf lt' ∧
    abs_table lt' = <[key := <[tid := RwLock.stronger (h !! tid) lty]> h]> (abs_table lt).
Proof.
  intros Hwf key h Hc. unfold acquire. fold key.
  destruct (lock_table_wf_holders lt key _ Hwf eq_refl) as (Hnd & Hex & Hd & Hk).
  destruct (grant_refines tid key lty lt Hwf Hc) as [Hg ?]. subst h. rewrite Hd in *.
  destruct (holders_cases key lt Hwf) as [Hnil|Hhwf].
  { rewrite Hnil in *. cbn. by eexists. }
  set (hs := default [] (locks lt !! key)) in *.
  pose proof (acquire_scan_spec tid lty hs Hhwf) as Hscan.
  destruct (acquire_scan tid lty hs hs) as [| |b|b|].
  - destruct Hscan as (_ & held & Hheld & Hst). eexists. split_and!; [done|done|].
    rewrite Hheld, Hst. rewrite (insert_id _ tid held) by done.
    symmetry. apply insert_id. unfold abs_table. rewrite lookup_fmap, Hk; [done|apply Hhwf].
  - destruct Hscan as [Heq ->]. rewrite Heq in *. eexists. split_and!; [done|done|].
    rewrite Hg. unfold abs_holders. cbn. by rewrite lookup_insert_eq.
  - by destruct Hscan.
  - by destruct Hscan.
  - destruct Hscan as [_ Hnone]. rewrite Hnone. by eexists.
Qed.

Lemma acquire_denied tid entity_id modality lty lt :
  lock_table_wf lt →
  let key := {| lk_entity_id := entity_id; lk_modality := modality |} in
  ¬ RwLock.compatible tid lty (default ∅ (abs_table lt !! key)) →
  ∃ e lt', acquire tid entity_id modality lty lt = (Err e, lt') ∧ locks lt' = locks lt.
Proof.
  intros Hwf key Hc. unfold acquire. fold key.
  destruct (lock_table_wf_holders lt key _ Hwf eq_refl) as (Hnd & Hex & Hd & Hk).
  rewrite Hd in *. destruct (holders_cases key lt Hwf) as [Hnil|Hhwf].
  { rewrite Hnil in Hc. by destruct Hc. }
  pose proof (acquire_scan_spec tid lty _ Hhwf) as Hscan.
  destruct (acquire_scan _ _ _ _) as [| |b|b|].
  - by destruct Hscan.
  - destruct Hscan as [Heq ->]. rewrite Heq in Hc. destruct Hc.
    apply compatible_holders; [apply NoDup_singleton|]. intros i Hi.
    apply list_elem_of_singleton in Hi as ->. by left.
  - by do 2 eexists.
  - destruct (detect_cycle _ _); by do 2 eexists.
  - by destruct Hscan.
Qed.

(** The two lemmas, read from the result. *)
Lemma acquire_ok_inv tid entity_id modality lty lt lt' :
  lock_table_wf lt → acquire tid entity_id modality lty lt = (Ok (), lt') →
  let key := {| lk_entity_id := entity_id; lk_modality := modality |} in
  let h := default ∅ (abs_table lt !! key) in
  RwLock.compatible tid lty h ∧ lock_table_wf lt' ∧
  abs_table lt' = <[key := <[tid := RwLock.stronger (h !! tid) lty]> h]> (abs_table lt).
Proof.
  intros Hwf Hacq key h. destruct (decide (RwLock.compatible tid lty h)) as [Hc|Hc].
  - destruct (acquire_granted _ _ _ _ _ Hwf Hc) as (lt'' & Heq & ? & ?).
    rewrite Heq in Hacq. by simplify_eq.
  - destruct (acquire_denied _ _ _ _ _ Hwf Hc) as (e & lt'' & Heq & _). congruence.
Qed.

Lemma acquire_err_locks tid entity_id modality lty lt e lt' :
  acquire tid entity_id modality lty lt = (Err e, lt') → locks lt' = locks lt.
Proof.
  unfold acquire. destruct (acquire_scan _ _ _ _) as [| |b|b|]; intros ?; simplify_eq/=; [done|].
  destruct (detect_cycle _ _); by simplify_eq/=.
Qed.

(** C12: On a well-formed table, [LockTable.acquire] succeeds exactly when the
    reader-writer lock specification grants the request, leaves the holdings the
    specification leaves, and preserves well-formedness (an exclusive holder is
    alone, nobody holds a lock twice). *)
Theorem acquire_refines tid entity_id modality lty lt :
  lock_table_wf lt →
  let key := {| lk_entity_id := entity_id; lk_modality := modality |} in
  let '(r, lt') := acquire tid entity_id modality lty lt in
  (is_ok r, abs_table lt') = RwLock.acquire tid key lty (abs_table lt) ∧ lock_table_wf lt'.
Proof.
  intros Hwf key. unfold RwLock.acquire.
  destruct (decide (RwLock.compatible tid lty (default ∅ (abs_table lt !! key)))) as [Hc|Hc].
  - destruct (acquire_granted _ _ _ _ _ Hwf Hc) as (lt' & -> & ? & ->). done.
  - destruct (acquire_denied _ _ _ _ _ Hwf Hc) as (e & lt' & -> & Hl).
    unfold abs_table, lock_table_wf. by rewrite Hl.
Qed.

(** A refused request leaves every lock as it was, names a transaction that
    really holds an incompatible lock on that key, and, when it reports a
    deadlock, a cycle of the wait-for graph with the new edge in it; the
    transaction's own edges are then dropped. *)
Theorem acquire_refused tid entity_id modality lty lt e lt' :
  lock_table_wf lt →
  acquire tid entity_id modality lty lt = (Err e, lt') →
  let key := {| lk_entity_id := entity_id; lk_modality := modality |} in
  let incompatible b := b ≠ tid ∧
    ∃ held, default ∅ (abs_table lt !! key) !! b = Some held ∧ conflicts held lty = true in
  locks lt' = locks lt ∧
  match e with
  | LockConflict eid m b => eid = entity_id ∧ m = modality ∧ incompatible b
  | DeadlockDetected t cycle => t = tid ∧ wait_for lt' = delete tid (wait_for lt) ∧
      ∃ b, incompatible b ∧ is_cycle (wait_for (add_wait tid b lt)) tid cycle
  | _ => False
  end.
Proof.
  intros Hwf Hacq key. unfold acquire in Hacq. fold key in Hacq.
  destruct (lock_table_wf_holders lt key _ Hwf eq_refl) as (Hnd & Hex & Hd & Hk). rewrite Hd.
  destruct (holders_cases key lt Hwf) as [Hnil|Hhwf]; [by rewrite Hnil in Hacq|].
  set (hs := default [] (locks lt !! key)) in *.
  pose proof (acquire_scan_spec tid lty hs Hhwf) as Hscan.
  destruct (acquire_scan tid lty hs hs) as [| |b|b|]; simplify_eq.
  - by destruct Hscan.
  - destruct Hscan as [_ Hb]. destruct (detect_cycle _ _) as [cycle|] eqn:Hcyc; simplify_eq/=; [|done].
    split_and!; [done|done|apply delete_insert_eq|]. exists b. split; [done|].
    by destruct (detect_cycle_spec _ _ _ Hcyc).
Qed.

End refinement.

Lemma release_all_abs tid lt :
  lock_table_wf lt → abs_table (release_all tid lt) = RwLock.release_all tid (abs_table lt).
Proof.
  intros Hwf. apply map_eq. intros key. unfold abs_table, RwLock.release_all, release_all. cbn.
  rewrite lookup_fmap, !lookup_omap, lookup_fmap.
  destruct (locks lt !! key) as [hs|] eqn:Hk; [|done]. cbn.
  destruct (Hwf _ _ Hk) as (_ & Hnd & _).
  unfold RwLock.drop, release_holders. fold (without tid hs).
  rewrite <- abs_holders_without by done.
  destruct (without tid hs) as [|i l] eqn:Hw; [by rewrite decide_True|].
  rewrite decide_False; [done|]. by rewrite abs_holders_empty.
Qed.

Lemma release_all_wf tid lt : lock_table_wf lt → lock_table_wf (release_all tid lt).
Proof.
  intros Hwf key hs'. unfold release_all. cbn. rewrite lookup_omap_Some.
  intros (hs & Hr & Hk). unfold release_holders in Hr. fold (without tid hs) in Hr.
  assert (without tid hs ≠ [] ∧ hs' = without tid hs) as [Hne ->].
  { by destruct (without tid hs); simplify_eq. }
  apply holders_wf_without; [by eapply Hwf|done].
Qed.

(** [LockTable.release_all] implements the specification's release: the
    transaction's locks go from every key, the other holders keep theirs, keys
    nobody holds leave the table; well-formedness is preserved, and the
    transaction no longer occurs in the wait-for graph. *)
Theorem release_all_refines tid lt :
  lock_table_wf lt →
  let lt' := release_all tid lt in
  abs_table lt' = RwLock.release_all tid (abs_table lt) ∧ lock_table_wf lt' ∧
  ∀ u, ¬ waits (wait_for lt') tid u ∧ ¬ waits (wait_for lt') u tid.
Proof.
  intros Hwf. split_and!; [by apply release_all_abs|by apply release_all_wf|].
  intros u. unfold waits, release_all. cbn. split.
  - intros (s & Hs & _). by rewrite lookup_fmap, lookup_delete_eq in Hs.
  - intros (s & (s' & <- & _)%lookup_fmap_Some & ?). set_solver.
Qed.
