(* ===== verification/Transaction.v ===== *)
(** * The transaction manager

    Models [VersionTable] and [TransactionManager] of
    [src/rust-core/verisim-hexad/src/transaction.rs] on top of [LockTable.v].
    The manager's three [RwLock]s are three fields of one record.  Each method is
    the composition of the steps it performs between two lock acquisitions, so
    that [TransactionRace.v] can interleave those steps; here the methods run one
    at a time.  Identifiers and instants are drawn outside the model and passed
    in ([Uuid::new_v4()], [Utc::now()]). *)

From S2P Require Import Prelude LockTable.

(** ** Core types *)

Record LockEntry := { le_entity_id : string; le_modality : string; le_lock_type : LockType }.

Record ReadStamp := { rs_entity_id : string; rs_modality : string; rs_version_at_read : Z }.

Record UndoEntry {CH : Chrono} := {
  ue_entity_id : string;
  ue_modality : string;
  ue_previous_data : option (list byte);
  ue_previous_version : Z;
  ue_recorded_at : DateTime;
}.

Record Transaction {CH : Chrono} := {
  tx_id : Uuid;
  tx_state : TransactionState;
  tx_isolation_level : IsolationLevel;
  tx_undo_log : list UndoEntry;
  tx_locks : list LockEntry;
  tx_read_set : list ReadStamp;
  tx_started_at : DateTime;
  tx_completed_at : option DateTime;
}.

Section transaction.
Context {CH : Chrono}.

Definition Transaction_new (id : Uuid) (now : DateTime) (isolation_level : IsolationLevel)
    : Transaction :=
  {| tx_id := id; tx_state := Active; tx_isolation_level := isolation_level;
     tx_undo_log := []; tx_locks := []; tx_read_set := [];
     tx_started_at := now; tx_completed_at := None |}.

Definition is_active (txn : Transaction) : bool := bool_decide (tx_state txn = Active).

(** [txn.state = s; txn.completed_at = Some(now)] *)
Definition complete (s : TransactionState) (now : DateTime) (txn : Transaction) : Transaction :=
  {| tx_id := tx_id txn; tx_state := s; tx_isolation_level := tx_isolation_level txn;
     tx_undo_log := tx_undo_log txn; tx_locks := tx_locks txn; tx_read_set := tx_read_set txn;
     tx_started_at := tx_started_at txn; tx_completed_at := Some now |}.

Definition push_undo (entry : UndoEntry) (txn : Transaction) : Transaction :=
  {| tx_id := tx_id txn; tx_state := tx_state txn; tx_isolation_level := tx_isolation_level txn;
     tx_undo_log := tx_undo_log txn ++ [entry]; tx_locks := tx_locks txn;
     tx_read_set := tx_read_set txn;
     tx_started_at := tx_started_at txn; tx_completed_at := tx_completed_at txn |}.

Definition push_read (stamp : ReadStamp) (txn : Transaction) : Transaction :=
  {| tx_id := tx_id txn; tx_state := tx_state txn; tx_isolation_level := tx_isolation_level txn;
     tx_undo_log := tx_undo_log txn; tx_locks := tx_locks txn;
     tx_read_set := tx_read_set txn ++ [stamp];
     tx_started_at := tx_started_at txn; tx_completed_at := tx_completed_at txn |}.

(** [retain] the locks on other pairs, then [push]. *)
Definition record_lock (entry : LockEntry) (txn : Transaction) : Transaction :=
  {| tx_id := tx_id txn; tx_state := tx_state txn; tx_isolation_level := tx_isolation_level txn;
     tx_undo_log := tx_undo_log txn;
     tx_locks :=
       filter (λ l, ¬ (le_entity_id l = le_entity_id entry ∧ le_modality l = le_modality entry))
         (tx_locks txn) ++ [entry];
     tx_read_set := tx_read_set txn;
     tx_started_at := tx_started_at txn; tx_completed_at := tx_completed_at txn |}.

End transaction.

(** ** Version table (MVCC) *)

Module VersionTable.

Abbreviation t := (gmap (string * string) Z).

Definition get (entity_id modality : string) (versions : t) : Z :=
  default 0%Z (versions !! (entity_id, modality)).

Definition set (entity_id modality : string) (version : Z) (versions : t) : t :=
  <[(entity_id, modality) := version]> versions.

Definition increment (entity_id modality : string) (versions : t) : Z * t :=
  let next := u64_add (default 0%Z (versions !! (entity_id, modality))) 1 in
  (next, <[(entity_id, modality) := next]> versions).

End VersionTable.

(** ** Transaction manager *)

Record TransactionManager {CH : Chrono} := {
  active_transactions : gmap Uuid Transaction;
  lock_table : LockTable.t;
  version_table : VersionTable.t;
}.

Section manager.
Context {CH : Chrono} `{!HashIter Uuid}.

Definition TransactionManager_new : TransactionManager :=
  {| active_transactions := ∅; lock_table := LockTable.new; version_table := ∅ |}.

Definition set_active (a : gmap Uuid Transaction) (tm : TransactionManager) : TransactionManager :=
  {| active_transactions := a; lock_table := lock_table tm; version_table := version_table tm |}.

Definition set_lock_table (lt : LockTable.t) (tm : TransactionManager) : TransactionManager :=
  {| active_transactions := active_transactions tm; lock_table := lt;
     version_table := version_table tm |}.

Definition set_version_table (v : VersionTable.t) (tm : TransactionManager) : TransactionManager :=
  {| active_transactions := active_transactions tm; lock_table := lock_table tm;
     version_table := v |}.

(** [txns.get_mut(&id)] followed by a mutation of the transaction. *)
Definition update_txn (transaction_id : Uuid) (f : Transaction → Transaction)
    (tm : TransactionManager) : TransactionManager :=
  set_active (alter f transaction_id (active_transactions tm)) tm.

Definition begin (uuid : Uuid) (now : DateTime) (isolation_level : IsolationLevel)
    (tm : TransactionManager) : Uuid * TransactionManager :=
  let txn := Transaction_new uuid now isolation_level in
  (tx_id txn, set_active (<[tx_id txn := txn]> (active_transactions tm)) tm).

(** The lookup and state check that open most methods. *)
Definition active_txn (transaction_id : Uuid) (tm : TransactionManager)
    : result TransactionError Transaction :=
  txn ← ok_or (TransactionNotFound transaction_id) (active_transactions tm !! transaction_id);
  if decide (tx_state txn = Active) then Ok txn
  else Err (InvalidState transaction_id (tx_state txn) "Active").

(** *** Commit *)

(** The loop over the read set: the first stamp whose version has moved on,
    with the version found. *)
Fixpoint first_stale (versions : VersionTable.t) (read_set : list ReadStamp)
    : option (ReadStamp * Z) :=
  match read_set with
  | [] => None
  | stamp :: read_set =>
    let current_version := VersionTable.get (rs_entity_id stamp) (rs_modality stamp) versions in
    if decide (current_version = rs_version_at_read stamp) then first_stale versions read_set
    else Some (stamp, current_version)
  end.

Inductive CommitPlan :=
| CommitError (e : TransactionError)
| CommitAbort (stamp : ReadStamp) (current_version : Z)
| CommitApply (txn : Transaction).

(** Everything [commit] decides before it changes anything. *)
Definition commit_validate (transaction_id : Uuid) (tm : TransactionManager) : CommitPlan :=
  match active_txn transaction_id tm with
  | Err e => CommitError e
  | Ok txn =>
    if decide (tx_isolation_level txn = Serializable) then
      match first_stale (version_table tm) (tx_read_set txn) with
      | Some (stamp, current_version) => CommitAbort stamp current_version
      | None => CommitApply txn
      end
    else CommitApply txn
  end.

Definition apply_increments (log : list UndoEntry) (versions : VersionTable.t) : VersionTable.t :=
  foldl (λ versions entry,
    snd (VersionTable.increment (ue_entity_id entry) (ue_modality entry) versions)) versions log.

Definition release_locks (transaction_id : Uuid) (tm : TransactionManager) : TransactionManager :=
  set_lock_table (LockTable.release_all transaction_id (lock_table tm)) tm.

Definition commit (transaction_id : Uuid) (now : DateTime) (tm : TransactionManager)
    : result TransactionError () * TransactionManager :=
  match commit_validate transaction_id tm with
  | CommitError e => (Err e, tm)
  | CommitAbort stamp current_version =>
    let tm := update_txn transaction_id (complete RolledBack now) tm in
    let tm := release_locks transaction_id tm in
    (Err (VersionConflict (rs_entity_id stamp) (rs_version_at_read stamp) current_version), tm)
  | CommitApply txn =>
    let tm := set_version_table (apply_increments (tx_undo_log txn) (version_table tm)) tm in
    let tm := update_txn transaction_id (complete Committed now) tm in
    let tm := release_locks transaction_id tm in
    (Ok (), tm)
  end.

(** *** Rollback *)

Definition rollback (transaction_id : Uuid) (now : DateTime) (tm : TransactionManager)
    : result TransactionError (list UndoEntry) * TransactionManager :=
  match active_txn transaction_id tm with
  | Err e => (Err e, tm)
  | Ok txn =>
    let tm := update_txn transaction_id (complete RolledBack now) tm in
    let undo_entries := reverse (tx_undo_log txn) in
    let tm := release_locks transaction_id tm in
    (Ok undo_entries, tm)
  end.

(** *** Locks *)

(** [!MODALITIES.contains(&modality)] *)
Definition check_modality (modality : string) : result TransactionError () :=
  if decide (modality ∈ MODALITIES) then Ok () else Err (InvalidModality modality).

(** The checks of [acquire_lock], under the read lock of the transactions. *)
Definition acquire_check (transaction_id : Uuid) (modality : string) (tm : TransactionManager)
    : result TransactionError () :=
  check_modality modality ≫= λ _, active_txn transaction_id tm ≫= λ _, Ok ().

(** The request itself, under the write lock of the lock table. *)
Definition acquire_table (transaction_id : Uuid) (entity_id modality : string)
    (lock_type : LockType) (tm : TransactionManager)
    : result TransactionError () * TransactionManager :=
  let '(r, lt) := LockTable.acquire transaction_id entity_id modality lock_type (lock_table tm) in
  (r, set_lock_table lt tm).

(** The entry in the transaction's own lock set, under the write lock of the
    transactions; nothing when the transaction is gone ([if let Some]). *)
Definition acquire_record (transaction_id : Uuid) (entity_id modality : string)
    (lock_type : LockType) (tm : TransactionManager) : TransactionManager :=
  update_txn transaction_id
    (record_lock {| le_entity_id := entity_id; le_modality := modality;
                    le_lock_type := lock_type |}) tm.

Definition acquire_lock (transaction_id : Uuid) (entity_id modality : string)
    (lock_type : LockType) (tm : TransactionManager)
    : result TransactionError () * TransactionManager :=
  match acquire_check transaction_id modality tm with
  | Err e => (Err e, tm)
  | Ok _ =>
    match acquire_table transaction_id entity_id modality lock_type tm with
    | (Err e, tm) => (Err e, tm)
    | (Ok _, tm) => (Ok (), acquire_record transaction_id entity_id modality lock_type tm)
    end
  end.

(** *** Undo log and read set *)

Definition record_undo (transaction_id : Uuid) (entity_id modality : string)
    (previous_data : option (list byte)) (previous_version : Z) (now : DateTime)
    (tm : TransactionManager) : result TransactionError () * TransactionManager :=
  match check_modality modality ≫= λ _, active_txn transaction_id tm with
  | Err e => (Err e, tm)
  | Ok _ =>
    (Ok (), update_txn transaction_id
      (push_undo {| ue_entity_id := entity_id; ue_modality := modality;
                    ue_previous_data := previous_data; ue_previous_version := previous_version;
                    ue_recorded_at := now |}) tm)
  end.

(** [record_read] first reads the version, then stamps it. *)
Definition read_stamp (transaction_id : Uuid) (entity_id modality : string)
    (current_version : Z) (tm : TransactionManager)
    : result TransactionError () * TransactionManager :=
  match active_txn transaction_id tm with
  | Err e => (Err e, tm)
  | Ok _ =>
    (Ok (), update_txn transaction_id
      (push_read {| rs_entity_id := entity_id; rs_modality := modality;
                    rs_version_at_read := current_version |}) tm)
  end.

Definition record_read (transaction_id : Uuid) (entity_id modality : string)
    (tm : TransactionManager) : result TransactionError () * TransactionManager :=
  match check_modality modality with
  | Err e => (Err e, tm)
  | Ok _ =>
    let current_version := VersionTable.get entity_id modality (version_table tm) in
    read_stamp transaction_id entity_id modality current_version tm
  end.

(** *** Queries and maintenance *)

Definition get_transaction_state (transaction_id : Uuid) (tm : TransactionManager)
    : option TransactionState :=
  tx_state <$> active_transactions tm !! transaction_id.

Definition active_count (tm : TransactionManager) : nat :=
  size (filter (λ kv, tx_state kv.2 = Active) (active_transactions tm)).

Definition current_version (entity_id modality : string) (tm : TransactionManager) : Z :=
  VersionTable.get entity_id modality (version_table tm).

Definition set_version (entity_id modality : string) (version : Z) (tm : TransactionManager)
    : TransactionManager :=
  set_version_table (VersionTable.set entity_id modality version (version_table tm)) tm.

Definition is_locked (entity_id modality : string) (tm : TransactionManager) : bool :=
  LockTable.is_locked entity_id modality (lock_table tm).

Definition lock_holders (entity_id modality : string) (tm : TransactionManager)
    : list (Uuid * LockType) :=
  LockTable.holders entity_id modality (lock_table tm).

Definition purge_completed (tm : TransactionManager) : nat * TransactionManager :=
  let before := size (active_transactions tm) in
  let txns := filter (λ kv, tx_state kv.2 = Active) (active_transactions tm) in
  (before - size txns, set_active txns tm).

End manager.
