(* ===== verification/TransactionSpec.v ===== *)
(** * What the transaction manager guarantees, one call at a time

    The calls of the manager as labels of a step relation, the invariant every
    reachable manager satisfies, and the properties of commit, rollback and
    validation that rest on it. *)

From S2P Require Import Prelude LockTable DeadlockDetector LockSpec Transaction.

Section spec.
Context {CH : Chrono} `{!HashIter Uuid}.
Implicit Types (tm : TransactionManager) (txn : Transaction).

(** ** Calls and traces *)

Inductive call :=
| CBegin (uuid : Uuid) (now : DateTime) (isolation_level : IsolationLevel)
| CCommit (transaction_id : Uuid) (now : DateTime)
| CRollback (transaction_id : Uuid) (now : DateTime)
| CAcquireLock (transaction_id : Uuid) (entity_id modality : string) (lock_type : LockType)
| CRecordUndo (transaction_id : Uuid) (entity_id modality : string)
    (previous_data : option (list byte)) (previous_version : Z) (now : DateTime)
| CRecordRead (transaction_id : Uuid) (entity_id modality : string)
| CSetVersion (entity_id modality : string) (version : Z)
| CPurgeCompleted.

Definition exec (c : call) tm : TransactionManager :=
  match c with
  | CBegin uuid now il => snd (begin uuid now il tm)
  | CCommit tid now => snd (commit tid now tm)
  | CRollback tid now => snd (rollback tid now tm)
  | CAcquireLock tid eid m lty => snd (acquire_lock tid eid m lty tm)
  | CRecordUndo tid eid m d v now => snd (record_undo tid eid m d v now tm)
  | CRecordRead tid eid m => snd (record_read tid eid m tm)
  | CSetVersion eid m v => set_version eid m v tm
  | CPurgeCompleted => snd (purge_completed tm)
  end.

(** A version-4 UUID is fresh, and a version is a [u64]. *)
Definition call_ok (c : call) tm : Prop :=
  match c with
  | CBegin uuid _ _ => active_transactions tm !! uuid = None
  | CSetVersion _ _ version => is_u64 version
  | _ => True
  end.

Definition run (cs : list call) tm : TransactionManager := foldl (λ tm c, exec c tm) tm cs.

Fixpoint calls_ok (cs : list call) tm : Prop :=
  match cs with
  | [] => True
  | c :: cs => call_ok c tm ∧ calls_ok cs (exec c tm)
  end.

Definition reachable tm : Prop :=
  ∃ cs, calls_ok cs TransactionManager_new ∧ tm = run cs TransactionManager_new.

(** ** Reading the state *)

(** How [u] holds [(entity_id, modality)], per the lock table. *)
Definition held (u : Uuid) (entity_id modality : string) (lt : LockTable.t) : option LockType :=
  default ∅ (abs_table lt !! {| lk_entity_id := entity_id; lk_modality := modality |}) !! u.

(** How the transaction's own lock set says so. *)
Definition listed (entity_id modality : string) txn : Prop :=
  ∃ l, l ∈ tx_locks txn ∧ le_entity_id l = entity_id ∧ le_modality l = modality.

Lemma active_txn_Ok tid tm txn :
  active_txn tid tm = Ok txn ↔ active_transactions tm !! tid = Some txn ∧ tx_state txn = Active.
Proof.
  unfold active_txn. destruct (active_transactions tm !! tid) as [txn'|]; cbn; [|naive_solver].
  case_decide; naive_solver.
Qed.

Lemma active_txn_Err tid tm e :
  active_txn tid tm = Err e →
  e = TransactionNotFound tid ∧ active_transactions tm !! tid = None ∨
  ∃ txn, active_transactions tm !! tid = Some txn ∧ tx_state txn ≠ Active ∧
    e = InvalidState tid (tx_state txn) "Active".
Proof.
  unfold active_txn. destruct (active_transactions tm !! tid) as [txn|]; cbn.
  - case_decide; [done|]. intros [= <-]. right. by exists txn.
  - intros [= <-]. by left.
Qed.

Lemma update_txn_Some tid f tm u txn :
  active_transactions (update_txn tid f tm) !! u = Some txn ↔
  ∃ txn', active_transactions tm !! u = Some txn' ∧ txn = if decide (u = tid) then f txn' else txn'.
Proof.
  unfold update_txn. cbn. rewrite lookup_alter_Some. case_decide; naive_solver.
Qed.

#[local] Arguments update_txn : simpl never.

Lemma update_txn_lock tid f tm : lock_table (update_txn tid f tm) = lock_table tm.
Proof. done. Qed.

Lemma held_release u tid eid m lt :
  lock_table_wf lt →
  held u eid m (LockTable.release_all tid lt) = if decide (u = tid) then None else held u eid m lt.
Proof.
  intros Hwf. unfold held. rewrite release_all_abs by done. unfold RwLock.release_all.
  rewrite lookup_omap. set (o := abs_table lt !! _).
  assert (default ∅ (o ≫= RwLock.drop tid) = delete tid (default ∅ o)) as ->.
  { destruct o as [h|]; cbn; [|by rewrite delete_empty].
    unfold RwLock.drop. by case_decide. }
  rewrite lookup_delete. case_decide; case_decide; naive_solver.
Qed.

(** ** The invariant *)

Record manager_inv tm : Prop := {
  mi_versions : map_Forall (λ _ v, is_u64 v) (version_table tm);
  mi_locks : lock_table_wf (lock_table tm);
  mi_id : ∀ u txn, active_transactions tm !! u = Some txn → tx_id txn = u;
  mi_modality : ∀ u txn eid m, active_transactions tm !! u = Some txn →
    listed eid m txn → m ∈ MODALITIES;
  mi_entries : ∀ u txn, active_transactions tm !! u = Some txn →
    NoDup ((λ l, (le_entity_id l, le_modality l)) <$> tx_locks txn);
  mi_held : ∀ u eid m, is_Some (held u eid m (lock_table tm)) ↔
    ∃ txn, active_transactions tm !! u = Some txn ∧ tx_state txn = Active ∧ listed eid m txn;
}.

Lemma manager_inv_new : manager_inv TransactionManager_new.
Proof.
  split; cbn; try done.
  intros u eid m. assert (held u eid m LockTable.new = None) as -> by done.
  split; [by intros [? ?]|]. by intros (? & ? & _).
Qed.

(** A transaction mutated without touching its id, state or locks. *)
Lemma manager_inv_update tid f tm :
  (∀ txn, tx_id (f txn) = tx_id txn ∧ tx_state (f txn) = tx_state txn ∧
    tx_locks (f txn) = tx_locks txn) →
  manager_inv tm → manager_inv (update_txn tid f tm).
Proof.
  intros Hf [H0 H1 H2 H3 H4 H5].
  assert (∀ u txn, active_transactions (update_txn tid f tm) !! u = Some txn →
    ∃ txn', active_transactions tm !! u = Some txn' ∧ tx_id txn = tx_id txn' ∧
      tx_state txn = tx_state txn' ∧ tx_locks txn = tx_locks txn') as Hup.
  { intros u txn (txn' & ? & ->)%update_txn_Some. exists txn'.
    case_decide; [|done]. by destruct (Hf txn') as (? & ? & ?). }
  split; [done|done| | | |].
  - intros u txn (txn' & ? & -> & _)%Hup. by apply H2.
  - intros u txn eid m (txn' & ? & _ & _ & Hl)%Hup. unfold listed. rewrite Hl.
    by apply (H3 u).
  - intros u txn (txn' & ? & _ & _ & ->)%Hup. by eapply H4.
  - intros u eid m. rewrite update_txn_lock, H5. unfold listed. split.
    + intros (txn & Htxn & Hst & Hls). exists (if decide (u = tid) then f txn else txn).
      rewrite update_txn_Some. split; [by exists txn|].
      case_decide; [|done]. by destruct (Hf txn) as (_ & -> & ->).
    + intros (txn & (txn' & ? & _ & Hst & Hls)%Hup & ? & ?). exists txn'.
      rewrite <- Hst, <- Hls. done.
Qed.

(** Completing a transaction and releasing its locks, together. *)
Lemma manager_inv_complete tid s now tm :
  s ≠ Active → manager_inv tm →
  manager_inv (release_locks tid (update_txn tid (complete s now) tm)).
Proof.
  intros Hs [H0 H1 H2 H3 H4 H5]. split; [done| | | | |].
  - by apply release_all_wf.
  - intros u txn (txn' & ? & ->)%update_txn_Some. case_decide; cbn; by apply H2.
  - intros u txn eid m (txn' & ? & ->)%update_txn_Some.
    case_decide; [change (listed eid m (complete s now txn')) with (listed eid m txn')|];
      by apply (H3 u).
  - intros u txn (txn' & ? & ->)%update_txn_Some. case_decide; cbn; by eapply (H4 u).
  - intros u eid m. cbn. rewrite update_txn_lock, held_release by done. case_decide as Hu.
    + subst u. split; [by intros [? ?]|].
      intros (txn & (txn' & ? & ->)%update_txn_Some & Hst & _).
      by rewrite decide_True in Hst.
    + rewrite H5. setoid_rewrite update_txn_Some. destruct (decide (u = tid)); [done|].
      naive_solver.
Qed.

Lemma listed_record_lock e txn eid m :
  listed eid m (record_lock e txn) ↔
  (eid = le_entity_id e ∧ m = le_modality e) ∨ listed eid m txn.
Proof.
  unfold listed. cbn. setoid_rewrite elem_of_app. setoid_rewrite list_elem_of_singleton.
  setoid_rewrite list_elem_of_filter. split.
  - intros (l & [[_ ?]| ->] & <- & <-); [right; by exists l|by left].
  - intros [[-> ->]|(l & Hl & <- & <-)]; [by exists e; auto|].
    destruct (decide (le_entity_id l = le_entity_id e ∧ le_modality l = le_modality e))
      as [[-> ->]|Hn]; [by exists e; auto|]. exists l. auto.
Qed.

Lemma entries_record_lock e txn :
  NoDup ((λ l, (le_entity_id l, le_modality l)) <$> tx_locks txn) →
  NoDup ((λ l, (le_entity_id l, le_modality l)) <$> tx_locks (record_lock e txn)).
Proof.
  intros Hnd. cbn. rewrite fmap_app. apply NoDup_app. split_and!.
  - by apply NoDup_fmap_filter.
  - intros p (l & -> & [Hn _]%list_elem_of_filter)%list_elem_of_fmap Hin.
    apply list_elem_of_singleton in Hin. naive_solver.
  - apply NoDup_singleton.
Qed.

Lemma held_acquire tid eid m lty lt lt' :
  lock_table_wf lt → LockTable.acquire tid eid m lty lt = (Ok (), lt') →
  lock_table_wf lt' ∧ ∀ u eid' m', held u eid' m' lt' =
    if decide (u = tid ∧ eid' = eid ∧ m' = m)
    then Some (RwLock.stronger (held u eid' m' lt) lty) else held u eid' m' lt.
Proof.
  intros Hwf Hacq. destruct (acquire_ok_inv _ _ _ _ _ _ Hwf Hacq) as (_ & Hwf' & Habs).
  set (key := {| lk_entity_id := eid; lk_modality := m |}) in *. split; [done|]. intros u eid' m'. unfold held. rewrite Habs.
  destruct (decide (key = {| lk_entity_id := eid'; lk_modality := m' |})) as [Hk|Hk].
  - injection Hk as <- <-. fold key. rewrite lookup_insert_eq. cbn.
    destruct (decide (u = tid)) as [->|Hu].
    + by rewrite lookup_insert_eq, decide_True.
    + rewrite lookup_insert_ne, decide_False by naive_solver. done.
  - rewrite lookup_insert_ne by done. rewrite decide_False; [done|]. naive_solver.
Qed.

Lemma manager_inv_acquire tid eid m lty tm :
  manager_inv tm → manager_inv (snd (acquire_lock tid eid m lty tm)).
Proof.
  intros Hinv. pose proof Hinv as [H0 H1 H2 H3 H4 H5]. unfold acquire_lock.
  destruct (acquire_check tid m tm) as [[]|e] eqn:Hchk; [|done].
  unfold acquire_check, check_modality in Hchk. case_decide as Hm; cbn in Hchk; [|done].
  destruct (active_txn tid tm) as [txn|] eqn:Htxn; [|done].
  apply active_txn_Ok in Htxn as [Htxn Hact]. unfold acquire_table.
  destruct (LockTable.acquire tid eid m lty (lock_table tm)) as [r lt'] eqn:Hacq.
  destruct r as [[]|e]; cbn.
  - destruct (held_acquire _ _ _ _ _ _ H1 Hacq) as [Hwf' Hheld]. unfold acquire_record.
    split; [done|done| | | |].
    + intros u txn' (txn'' & Hu & ->)%update_txn_Some. case_decide; cbn; by apply H2.
    + intros u txn' eid' m' (txn'' & Hu & ->)%update_txn_Some.
      case_decide; [|by eapply (H3 u)].
      rewrite listed_record_lock. intros [[_ ->]|?]; [done|by eapply (H3 u)].
    + intros u txn' (txn'' & Hu & ->)%update_txn_Some.
      case_decide; [apply entries_record_lock|]; by eapply (H4 u).
    + intros u eid' m'. rewrite update_txn_lock. cbn. rewrite Hheld. setoid_rewrite update_txn_Some. cbn.
      destruct (decide (u = tid)) as [->|Hu].
      * rewrite Htxn. case_decide as Hk.
        { destruct Hk as (_ & -> & ->). split; [|done]. intros _. eexists.
          split; [by eexists|]. split; [done|]. rewrite listed_record_lock. by left. }
        rewrite H5, Htxn. split.
        { intros (? & [= <-] & ? & ?). eexists. split; [by eexists|]. split; [done|].
          rewrite listed_record_lock. by right. }
        { intros (? & (? & [= <-] & ->) & ? & Hls%listed_record_lock). naive_solver. }
      * rewrite decide_False by naive_solver. rewrite H5. naive_solver.
  - assert (LockTable.locks lt' = LockTable.locks (lock_table tm)) as Hl.
    { by eapply acquire_err_locks. }
    split; try done; cbn.
    + unfold lock_table_wf. by rewrite Hl.
    + intros u eid' m'. unfold held, abs_table. rewrite Hl. apply H5.
Qed.

Lemma manager_inv_active tm (P : Uuid * Transaction → Prop) `{∀ x, Decision (P x)} :
  (∀ u txn, active_transactions tm !! u = Some txn → tx_state txn = Active → P (u, txn)) →
  manager_inv tm → manager_inv (set_active (filter P (active_transactions tm)) tm).
Proof.
  intros HP [H0 H1 H2 H3 H4 H5]. split; cbn; [done|done| | | |].
  - intros u txn [? _]%map_lookup_filter_Some. by apply H2.
  - intros u txn eid m [? _]%map_lookup_filter_Some. by apply (H3 u).
  - intros u txn [? _]%map_lookup_filter_Some. by apply (H4 u).
  - intros u eid m. rewrite H5. setoid_rewrite map_lookup_filter_Some. naive_solver.
Qed.

Lemma manager_inv_begin uuid now il tm :
  active_transactions tm !! uuid = None → manager_inv tm → manager_inv (snd (begin uuid now il tm)).
Proof.
  intros Hfresh [H0 H1 H2 H3 H4 H5]. split; cbn; [done|done| | | |].
  - intros u txn [[<- <-]|[_ ?]]%lookup_insert_Some; [done|by apply H2].
  - intros u txn eid m [[_ <-]|[_ ?]]%lookup_insert_Some; [|by apply (H3 u)].
    by intros (l & ?%elem_of_nil & _).
  - intros u txn [[_ <-]|[_ ?]]%lookup_insert_Some; [apply NoDup_nil_2|by apply (H4 u)].
  - intros u eid m. rewrite H5. setoid_rewrite lookup_insert_Some. split.
    + intros (txn & ? & ? & ?). exists txn. split; [|done]. right. split; [congruence|done].
    + intros (txn & [[_ <-]|[_ ?]] & ? & Hls); [|by exists txn].
      by destruct Hls as (l & ?%elem_of_nil & _).
Qed.

Lemma apply_increments_range log versions :
  map_Forall (λ _ v, is_u64 v) versions →
  map_Forall (λ _ v, is_u64 v) (apply_increments log versions).
Proof.
  unfold apply_increments. revert versions. induction log as [|e log IH]; [done|].
  intros versions Hv. apply IH, map_Forall_insert_2; [apply u64_add_range|done].
Qed.

Lemma manager_inv_exec c tm : call_ok c tm → manager_inv tm → manager_inv (exec c tm).
Proof.
  intros Hok Hinv. destruct c; cbn -[begin].
  - by apply manager_inv_begin.
  - unfold commit. destruct (commit_validate _ _) as [e|stamp v|txn]; [done| |]; cbn.
    + by apply manager_inv_complete.
    + apply manager_inv_complete; [done|]. destruct Hinv; split; [|done..].
      by apply apply_increments_range.
  - unfold rollback. destruct (active_txn _ _); [|done]. by apply manager_inv_complete.
  - by apply manager_inv_acquire.
  - unfold record_undo. destruct (_ ≫= _); [|done]. by apply manager_inv_update.
  - unfold record_read, read_stamp. destruct (check_modality _); [|done].
    destruct (active_txn _ _); [|done]. by apply manager_inv_update.
  - destruct Hinv; split; [|done..]. cbn. by apply map_Forall_insert_2.
  - apply manager_inv_active; [|done]. done.
Qed.

Lemma manager_inv_run cs tm : calls_ok cs tm → manager_inv tm → manager_inv (run cs tm).
Proof.
  revert tm. induction cs as [|c cs IH]; [done|]. intros tm [Hc Hcs] Hinv.
  apply IH; [done|]. by apply manager_inv_exec.
Qed.


End spec.
