(* ===== verification/TransactionProps.v ===== *)
(** * Commit, validation and rollback

    The functional behaviour of the manager's methods on every branch, what a
    successful serializable commit says about concurrent writers, and the
    compensation a rollback offers its caller. *)

From S2P Require Import Prelude LockTable DeadlockDetector LockSpec Transaction TransactionSpec.

(** The modality stores as the caller of the manager sees them: serialized data
    per pair. *)
Abbreviation backing := (gmap (string * string) (list byte)).

Section props.
Context {CH : Chrono} `{!HashIter Uuid}.
Implicit Types (tm : TransactionManager) (txn : Transaction).

(** ** Commit *)

(** How many writes to a pair an undo log records. *)
Definition writes (entity_id modality : string) (log : list UndoEntry) : nat :=
  length (filter (λ e, ue_entity_id e = entity_id ∧ ue_modality e = modality) log).

Lemma apply_increments_get eid m log versions :
  is_u64 (VersionTable.get eid m versions) →
  VersionTable.get eid m (apply_increments log versions)
  = wrap 64 (VersionTable.get eid m versions + Z.of_nat (writes eid m log)).
Proof.
  revert versions. induction log as [|e log IH]; intros versions Hv.
  { cbn. by rewrite Z.add_0_r, wrap_small. }
  change (apply_increments (e :: log) versions) with (apply_increments log
    (VersionTable.increment (ue_entity_id e) (ue_modality e) versions).2).
  unfold writes in *. cbn [VersionTable.increment snd]. rewrite filter_cons.
  unfold VersionTable.get in *. destruct (decide _) as [[-> ->]|Hne].
  - rewrite IH by (rewrite lookup_insert_eq; apply u64_add_range).
    rewrite lookup_insert_eq. cbn. unfold u64_add, wrap.
    rewrite Zplus_mod_idemp_l. f_equal. lia.
  - rewrite IH; rewrite lookup_insert_ne by naive_solver; done.
Qed.

Lemma first_stale_None versions rs :
  first_stale versions rs = None ↔
  ∀ s, s ∈ rs → VersionTable.get (rs_entity_id s) (rs_modality s) versions = rs_version_at_read s.
Proof.
  induction rs as [|s rs IH]; cbn.
  - split; [by intros _ s ?%elem_of_nil|done].
  - case_decide; [rewrite IH|]; set_solver.
Qed.

Lemma first_stale_Some versions rs s v :
  first_stale versions rs = Some (s, v) →
  ∃ rs1 rs2, rs = rs1 ++ s :: rs2 ∧ first_stale versions rs1 = None ∧
    v = VersionTable.get (rs_entity_id s) (rs_modality s) versions ∧ v ≠ rs_version_at_read s.
Proof.
  induction rs as [|s' rs IH]; cbn; [done|]. case_decide as Hv; intros Hs.
  - destruct (IH Hs) as (rs1 & rs2 & -> & ? & ? & ?). exists (s' :: rs1), rs2. cbn.
    by rewrite decide_True.
  - simplify_eq. by exists [], rs.
Qed.

Lemma versions_get_range (eid m : string) (versions : VersionTable.t) :
  map_Forall (λ _ v, is_u64 v) versions → is_u64 (VersionTable.get eid m versions).
Proof.
  intros Hv. unfold VersionTable.get. destruct (versions !! _) eqn:E; [by eapply Hv|done].
Qed.

(** Completing a transaction: its record, its locks, everybody else's. *)
Lemma complete_effect tid s now tm txn :
  lock_table_wf (lock_table tm) → active_transactions tm !! tid = Some txn →
  let tm' := release_locks tid (update_txn tid (complete s now) tm) in
  active_transactions tm' = <[tid := complete s now txn]> (active_transactions tm) ∧
  ∀ u eid m, held u eid m (lock_table tm') =
    if decide (u = tid) then None else held u eid m (lock_table tm).
Proof.
  intros Hwf Htxn. split.
  - cbn. by rewrite alter_alt, Htxn.
  - intros u eid m. cbn. by apply held_release.
Qed.

(** What validation finds: nothing below [Serializable]. *)
Definition stale_read tm txn : option (ReadStamp * Z) :=
  if decide (tx_isolation_level txn = Serializable)
  then first_stale (version_table tm) (tx_read_set txn) else None.

Lemma commit_validate_active tid tm txn :
  active_txn tid tm = Ok txn →
  commit_validate tid tm = match stale_read tm txn with
                           | Some (stamp, v) => CommitAbort stamp v
                           | None => CommitApply txn
                           end.
Proof. intros Htxn. unfold commit_validate, stale_read. rewrite Htxn. by case_decide. Qed.

(** What [commit] does with an active transaction of a reachable manager.
    Either it is not serializable or every version it read is still current: then
    it succeeds, the transaction is [Committed], and the version of every pair
    grows by the number of undo entries for it.  Or the first stamp that is no
    longer current is reported: the transaction is [RolledBack] and no version
    moves.  Either way exactly its own locks are released and every other
    transaction is untouched. *)
Theorem commit_outcome tid now tm txn :
  manager_inv tm → active_txn tid tm = Ok txn →
  let '(r, tm') := commit tid now tm in
  (∀ u, u ≠ tid → active_transactions tm' !! u = active_transactions tm !! u) ∧
  (∀ u eid m, held u eid m (lock_table tm') =
    if decide (u = tid) then None else held u eid m (lock_table tm)) ∧
  match stale_read tm txn with
  | None => r = Ok () ∧ get_transaction_state tid tm' = Some Committed ∧
      ∀ eid m, current_version eid m tm' =
        wrap 64 (current_version eid m tm + Z.of_nat (writes eid m (tx_undo_log txn)))
  | Some (stamp, v) =>
      r = Err (VersionConflict (rs_entity_id stamp) (rs_version_at_read stamp) v) ∧
      get_transaction_state tid tm' = Some RolledBack ∧ version_table tm' = version_table tm
  end.
Proof.
  intros [Hv Hwf _ _ _ _] Htxn. pose proof Htxn as [Hlk Hact]%active_txn_Ok.
  unfold commit, get_transaction_state. rewrite (commit_validate_active tid tm txn Htxn).
  destruct (stale_read tm txn) as [[s v]|].
  - destruct (complete_effect tid RolledBack now tm txn Hwf Hlk) as [-> Hh].
    rewrite lookup_insert_eq. split_and!; [|done..]. intros u Hu. by rewrite lookup_insert_ne.
  - destruct (complete_effect tid Committed now (set_version_table
      (apply_increments (tx_undo_log txn) (version_table tm)) tm) txn Hwf Hlk) as [-> Hh].
    rewrite lookup_insert_eq. split_and!; [|done|done|done|].
    + intros u Hu. by rewrite lookup_insert_ne.
    + intros eid m. apply apply_increments_get. by apply versions_get_range.
Qed.

(** ** Rejected calls and final states *)

(** A call on a transaction that is unknown or no longer active is refused
    with the error that says so ([TransactionNotFound], or [InvalidState] with the
    current state) and changes nothing; a modality outside the eight is refused
    first, whatever the transaction. *)
Theorem rejected_calls tid tm e :
  active_txn tid tm = Err e →
  (e = TransactionNotFound tid ∧ get_transaction_state tid tm = None ∨
   ∃ s, s ≠ Active ∧ get_transaction_state tid tm = Some s ∧ e = InvalidState tid s "Active") ∧
  (∀ now, commit tid now tm = (Err e, tm) ∧ rollback tid now tm = (Err e, tm)) ∧
  ∀ eid m lty d v now,
    let e := if decide (m ∈ MODALITIES) then e else InvalidModality m in
    acquire_lock tid eid m lty tm = (Err e, tm) ∧ record_undo tid eid m d v now tm = (Err e, tm) ∧
    record_read tid eid m tm = (Err e, tm).
Proof.
  intros Herr. split_and!.
  - unfold get_transaction_state. apply active_txn_Err in Herr.
    destruct Herr as [[-> ->]|(txn & -> & ? & ->)]; [by left|right; by eexists].
  - intros now. unfold commit, commit_validate, rollback. by rewrite Herr.
  - intros eid m lty d v now.
    unfold acquire_lock, acquire_check, record_undo, record_read, read_stamp, check_modality.
    case_decide; cbn; [by rewrite Herr|done].
Qed.

(** What a call may do to a transaction that stays in the table. *)
Record evolves txn txn' : Prop := {
  ev_id : tx_id txn' = tx_id txn;
  ev_isolation : tx_isolation_level txn' = tx_isolation_level txn;
  ev_undo : tx_undo_log txn `prefix_of` tx_undo_log txn';
  ev_reads : tx_read_set txn `prefix_of` tx_read_set txn';
}.

Lemma evolves_refl txn : evolves txn txn.
Proof. by split. Qed.

Lemma evolves_trans txn1 txn2 txn3 : evolves txn1 txn2 → evolves txn2 txn3 → evolves txn1 txn3.
Proof. intros [] []. split; [congruence|congruence|by etrans..]. Qed.

Lemma evolves_complete s now txn : evolves txn (complete s now txn).
Proof. by split. Qed.

Lemma evolves_push_undo e txn : evolves txn (push_undo e txn).
Proof. split; try done. by apply prefix_app_r. Qed.

Lemma evolves_push_read s txn : evolves txn (push_read s txn).
Proof. split; try done. by apply prefix_app_r. Qed.

Lemma evolves_record_lock l txn : evolves txn (record_lock l txn).
Proof. by split. Qed.

(** What a call does to the table of transactions: it adds one, purges the
    completed ones, changes nothing, or lets one active transaction evolve. *)
Lemma exec_active c tm :
  let txns := active_transactions tm in
  let txns' := active_transactions (exec c tm) in
  match c with
  | CBegin uuid now il => txns' = <[uuid := Transaction_new uuid now il]> txns
  | CPurgeCompleted => txns' = filter (λ kv, tx_state kv.2 = Active) txns
  | _ => txns' = txns ∨ ∃ tid f txn, active_txn tid tm = Ok txn ∧
      (∀ txn, evolves txn (f txn)) ∧ txns' = alter f tid txns
  end.
Proof.
  destruct c as [uuid now il|tid now|tid now|tid eid m lty|tid eid m d v now|tid eid m|eid m v|]; cbn.
  - done.
  - unfold commit. destruct (active_txn tid tm) as [txn|] eqn:Ht.
    + rewrite (commit_validate_active tid tm txn Ht). right.
      destruct (stale_read tm txn) as [[s v]|]; cbn; naive_solver eauto using evolves_complete.
    + left. unfold commit_validate. by rewrite Ht.
  - unfold rollback. destruct (active_txn tid tm) eqn:Ht; [|by left].
    right. naive_solver eauto using evolves_complete.
  - unfold acquire_lock, acquire_check, acquire_table.
    destruct (check_modality m) as [[]|]; [|by left].
    destruct (active_txn tid tm) eqn:Ht; cbn; [|by left].
    destruct (LockTable.acquire _ _ _ _ _) as [[[]|] lt]; [right|by left].
    naive_solver eauto using evolves_record_lock.
  - unfold record_undo. destruct (check_modality m) as [[]|]; [|by left].
    destruct (active_txn tid tm) eqn:Ht; cbn; [right|by left].
    naive_solver eauto using evolves_push_undo.
  - unfold record_read, read_stamp. destruct (check_modality m) as [[]|]; [|by left].
    destruct (active_txn tid tm) eqn:Ht; cbn; [right|by left].
    naive_solver eauto using evolves_push_read.
  - by left.
  - done.
Qed.

(** A transaction in the table evolves, a completed one not at all, unless it is
    completed and purged. *)
Lemma exec_evolves c tm u txn :
  call_ok c tm → active_transactions tm !! u = Some txn →
  (∃ txn', active_transactions (exec c tm) !! u = Some txn' ∧ evolves txn txn' ∧
    (tx_state txn ≠ Active → txn' = txn)) ∨
  c = CPurgeCompleted ∧ tx_state txn ≠ Active ∧ active_transactions (exec c tm) !! u = None.
Proof.
  intros Hok Hu. pose proof (exec_active c tm) as Hexec.
  assert (∀ txns', txns' = active_transactions tm ∨ (∃ tid f txn, active_txn tid tm = Ok txn ∧
      (∀ txn, evolves txn (f txn)) ∧ txns' = alter f tid (active_transactions tm)) →
    ∃ txn', txns' !! u = Some txn' ∧ evolves txn txn' ∧ (tx_state txn ≠ Active → txn' = txn)) as Hgen.
  { intros txns' [->|(tid & f & t & [Ht Ha]%active_txn_Ok & Hf & ->)];
      [by eauto using evolves_refl|].
    rewrite lookup_alter. case_decide as Htu; [subst u|by eauto using evolves_refl].
    rewrite Hu. eexists. split; [done|]. split; [apply Hf|]. congruence. }
  destruct c; cbn -[exec] in Hexec; [|by left; apply Hgen..|].
  - left. exists txn. rewrite Hexec, lookup_insert_ne; [by auto using evolves_refl|].
    intros ->. cbn in Hok. congruence.
  - rewrite Hexec. destruct (decide (tx_state txn = Active)) as [Ha|Ha].
    + left. exists txn. rewrite map_lookup_filter_Some. auto using evolves_refl.
    + right. split_and!; [done|done|]. apply map_lookup_filter_None. right. naive_solver.
Qed.

(** Only [begin] adds a transaction. *)
Lemma exec_absent c tm u :
  active_transactions tm !! u = None → (∀ now il, c ≠ CBegin u now il) →
  active_transactions (exec c tm) !! u = None.
Proof.
  intros Hu Hb. pose proof (exec_active c tm) as Hexec.
  assert (∀ txns', txns' = active_transactions tm ∨ (∃ tid f txn, active_txn tid tm = Ok txn ∧
      (∀ txn, evolves txn (f txn)) ∧ txns' = alter f tid (active_transactions tm)) →
    txns' !! u = None) as Hgen.
  { intros txns' [->|(tid & f & t & _ & _ & ->)]; [done|]. rewrite lookup_alter.
    case_decide as Htu; [subst u; by rewrite Hu|done]. }
  destruct c as [uuid now il| | | | | | |]; cbn -[exec] in Hexec; [|by apply Hgen..|].
  - rewrite Hexec, lookup_insert_ne; [done|]. intros ->. by apply (Hb now il).
  - rewrite Hexec. apply map_lookup_filter_None. by left.
Qed.

Lemma run_cons c cs tm : run (c :: cs) tm = run cs (exec c tm).
Proof. done. Qed.

Lemma run_absent cs tm u :
  active_transactions tm !! u = None → (∀ now il, CBegin u now il ∉ cs) →
  active_transactions (run cs tm) !! u = None.
Proof.
  revert tm. induction cs as [|c cs IH]; intros tm Hu Hb; [done|]. apply IH; [|set_solver].
  apply exec_absent; [done|]. intros now il ->. apply (Hb now il). by left.
Qed.

(** [Committed] and [RolledBack] are final: whatever complete calls follow, a
    completed transaction's record never changes; only [purge_completed] removes
    it. *)
Theorem completed_is_final tid cs tm txn :
  calls_ok cs tm → (∀ now il, CBegin tid now il ∉ cs) →
  active_transactions tm !! tid = Some txn → tx_state txn ≠ Active →
  active_transactions (run cs tm) !! tid = Some txn ∨
  CPurgeCompleted ∈ cs ∧ active_transactions (run cs tm) !! tid = None.
Proof.
  revert tm. induction cs as [|c cs IH]; intros tm Hok Hb Htxn Hs; [by left|].
  destruct Hok as [Hc Hcs].
  destruct (exec_evolves c tm tid txn Hc Htxn) as [(txn' & Hl & _ & Heq)|(-> & _ & Hnone)].
  - rewrite Heq in Hl by done. destruct (IH (exec c tm)) as [?|[? ?]]; [done|set_solver|done|done| |].
    + by left.
    + right. split; [by right|done].
  - right. rewrite run_cons. split; [by left|]. apply run_absent; [done|set_solver].
Qed.

(** Along complete calls an unpurged transaction evolves. *)
Lemma run_evolves cs tm u txn txn' :
  calls_ok cs tm → (∀ now il, CBegin u now il ∉ cs) →
  active_transactions tm !! u = Some txn →
  active_transactions (run cs tm) !! u = Some txn' → evolves txn txn'.
Proof.
  revert tm txn. induction cs as [|c cs IH]; intros tm txn Hok Hb Htxn Hrun.
  { cbn in Hrun. simplify_eq. apply evolves_refl. }
  destruct Hok as [Hc Hcs].
  destruct (exec_evolves c tm u txn Hc Htxn) as [(t & Hl & Hev & _)|(-> & _ & Hnone)].
  - apply (evolves_trans _ t); [done|]. apply (IH (exec c tm)); [done|set_solver|done|done].
  - pose proof (run_absent cs (exec CPurgeCompleted tm) u Hnone) as Habs.
    rewrite run_cons, Habs in Hrun by set_solver. done.
Qed.

(** ** Serializable validation *)

(** The increments of a pair's version that a call performs. *)
Definition bumps (entity_id modality : string) (c : call) tm : nat :=
  match c with
  | CCommit tid _ =>
    match commit_validate tid tm with
    | CommitApply txn => writes entity_id modality (tx_undo_log txn)
    | _ => 0
    end
  | _ => 0
  end.

Fixpoint total_bumps (entity_id modality : string) (cs : list call) tm : nat :=
  match cs with
  | [] => 0
  | c :: cs => bumps entity_id modality c tm + total_bumps entity_id modality cs (exec c tm)
  end.

Lemma exec_version c tm eid m :
  map_Forall (λ _ v, is_u64 v) (version_table tm) → (∀ v, c ≠ CSetVersion eid m v) →
  current_version eid m (exec c tm)
  = wrap 64 (current_version eid m tm + Z.of_nat (bumps eid m c tm)).
Proof.
  intros Hv Hset. pose proof (versions_get_range eid m _ Hv) as Hr.
  assert (current_version eid m tm = wrap 64 (current_version eid m tm + Z.of_nat 0)) as Hsame
    by by rewrite Z.add_0_r, wrap_small.
  destruct c as [uuid now il|tid now|tid now|tid e' m' lty|tid e' m' d v now|tid e' m'|e' m' v|]; cbn.
  - done.
  - unfold commit. destruct (commit_validate _ _); [done|done|]. by apply apply_increments_get.
  - unfold rollback. by destruct (active_txn _ _).
  - unfold acquire_lock, acquire_table. destruct (acquire_check _ _ _); [|done].
    by destruct (LockTable.acquire _ _ _ _ _) as [[] ?].
  - unfold record_undo. by destruct (_ ≫= _).
  - unfold record_read, read_stamp. destruct (check_modality m'); [|done].
    by destruct (active_txn _ _).
  - rewrite <- Hsame. unfold current_version, set_version, VersionTable.set, VersionTable.get. cbn.
    rewrite lookup_insert_ne; [done|]. intros [= -> ->]. by apply (Hset v).
  - done.
Qed.

Lemma run_version cs tm eid m :
  calls_ok cs tm → manager_inv tm → (∀ v, CSetVersion eid m v ∉ cs) →
  current_version eid m (run cs tm)
  = wrap 64 (current_version eid m tm + Z.of_nat (total_bumps eid m cs tm)).
Proof.
  revert tm. induction cs as [|c cs IH]; intros tm Hok Hinv Hset; cbn [total_bumps].
  - cbn. rewrite Z.add_0_r, wrap_small; [done|]. apply versions_get_range, Hinv.
  - destruct Hok as [Hc Hcs]. rewrite run_cons, IH; [|done|by apply manager_inv_exec|set_solver].
    rewrite exec_version by (apply Hinv || intros v ->; apply (Hset v); by left).
    unfold wrap. rewrite Zplus_mod_idemp_l. f_equal. lia.
Qed.

(** C15: If a serializable transaction reads a pair and later commits, then no
    transaction that recorded a write to that pair committed in between, in any
    interleaving of complete calls (with fewer than [2^64] versions gone by and
    nobody resetting that version by hand). *)
Theorem serializable_reads_stable tid eid m now tm1 tm2 tm3 cs txn :
  manager_inv tm1 →
  active_transactions tm1 !! tid = Some txn → tx_isolation_level txn = Serializable →
  record_read tid eid m tm1 = (Ok (), tm2) →
  calls_ok cs tm2 → (∀ now il, CBegin tid now il ∉ cs) → (∀ v, CSetVersion eid m v ∉ cs) →
  (Z.of_nat (total_bumps eid m cs tm2) < 2 ^ 64)%Z →
  commit tid now (run cs tm2) = (Ok (), tm3) →
  total_bumps eid m cs tm2 = 0.
Proof.
  intros Hinv Htxn Hser Hread Hok Hb Hset Hlt Hcommit.
  assert (manager_inv tm2) as Hinv2.
  { pose proof (manager_inv_exec (CRecordRead tid eid m) tm1 I Hinv) as H. cbn in H.
    by rewrite Hread in H. }
  unfold record_read, read_stamp in Hread. destruct (check_modality m); [|done].
  destruct (active_txn tid tm1) as [txn1|] eqn:Ht1; [|done]. injection Hread as <-.
  set (stamp := {| rs_entity_id := eid |}) in *.
  set (tm2 := update_txn tid (push_read stamp) tm1) in *.
  assert (active_transactions tm2 !! tid = Some (push_read stamp txn)) as Htxn2.
  { apply update_txn_Some. exists txn. by rewrite decide_True. }
  destruct (active_txn tid (run cs tm2)) as [txn3|e] eqn:Ht3;
    [|by unfold commit, commit_validate in Hcommit; rewrite Ht3 in Hcommit].
  pose proof Ht3 as [Htxn3 _]%active_txn_Ok.
  destruct (run_evolves _ _ _ _ _ Hok Hb Htxn2 Htxn3) as [_ Hiso _ [l Hpre]].
  unfold commit in Hcommit. rewrite (commit_validate_active _ _ _ Ht3) in Hcommit.
  unfold stale_read in Hcommit. rewrite decide_True in Hcommit by by rewrite Hiso.
  destruct (first_stale _ _) as [[s v]|] eqn:Hst; [done|].
  assert (current_version eid m (run cs tm2) = rs_version_at_read stamp) as Heq.
  { apply (proj1 (first_stale_None _ _) Hst stamp). rewrite Hpre. cbn. set_solver. }
  rewrite run_version in Heq by done.
  pose proof (versions_get_range eid m _ (mi_versions _ Hinv)) as Hr.
  change (current_version eid m tm2) with (rs_version_at_read stamp) in Heq. cbn in Heq.
  unfold wrap, is_u64 in *. set (v0 := VersionTable.get _ _ _) in *.
  set (n := Z.of_nat _) in *. assert (n = 0)%Z; [|lia].
  assert (0 ≤ n)%Z by (unfold n; lia). destruct (decide (v0 + n < 2 ^ 64)%Z).
  - rewrite Z.mod_small in Heq by lia. lia.
  - rewrite <- (Z.mod_unique (v0 + n) (2 ^ 64) 1 (v0 + n - 2 ^ 64)) in Heq by lia. lia.
Qed.

(** ** Compensation *)

(** The documented write protocol: record the previous data, then write. *)
Definition logged_write (tid : Uuid) (w : string * string * list byte * DateTime)
    (s : TransactionManager * backing) : TransactionManager * backing :=
  let '(eid, m, data, now) := w in
  let '(tm, store) := s in
  match record_undo tid eid m (store !! (eid, m)) (current_version eid m tm) now tm with
  | (Ok _, tm) => (tm, <[(eid, m) := data]> store)
  | (Err _, tm) => (tm, store)
  end.

(** Applying undo entries in the order [rollback] returns them. *)
Definition compensate (entries : list UndoEntry) (store : backing) : backing :=
  foldl (λ store e,
    match ue_previous_data e with
    | Some data => <[(ue_entity_id e, ue_modality e) := data]> store
    | None => delete (ue_entity_id e, ue_modality e) store
    end) store entries.

Lemma logged_write_inv tid w tm store txn :
  active_txn tid tm = Ok txn →
  ∃ txn', active_txn tid (logged_write tid w (tm, store)).1 = Ok txn' ∧
    compensate (reverse (tx_undo_log txn')) (logged_write tid w (tm, store)).2
    = compensate (reverse (tx_undo_log txn)) store.
Proof.
  intros Ht. destruct w as [[[eid m] data] now]. cbn. unfold record_undo.
  destruct (check_modality m) as [[]|]; cbn; [|by exists txn].
  rewrite Ht. cbn. pose proof Ht as [Hl Ha]%active_txn_Ok. eexists. split.
  { apply active_txn_Ok. rewrite update_txn_Some. split; [by exists txn; rewrite decide_True|done]. }
  cbn [tx_undo_log push_undo]. rewrite reverse_snoc. unfold compensate.
  cbn [foldl ue_previous_data ue_entity_id ue_modality]. f_equal. destruct (store !! (eid, m)) as [d|] eqn:Hs.
  - rewrite insert_insert_eq. by apply insert_id.
  - rewrite delete_insert_eq. by apply delete_id.
Qed.

Lemma rollback_compensates tid now ws tm store txn :
  active_txn tid tm = Ok txn →
  let '(tm', store') := foldl (λ s w, logged_write tid w s) (tm, store) ws in
  ∃ entries tm'', rollback tid now tm' = (Ok entries, tm'') ∧
    compensate entries store' = compensate (reverse (tx_undo_log txn)) store.
Proof.
  revert tm store txn. induction ws as [|w ws IH]; intros tm store txn Ht; cbn [foldl].
  - unfold rollback. rewrite Ht. do 2 eexists. by split.
  - destruct (logged_write_inv tid w tm store txn Ht) as (txn' & Ht' & <-).
    destruct (logged_write tid w (tm, store)) as [tm' store']. by apply IH.
Qed.

(** C16: A transaction that writes through the undo protocol, any number of times
    and to any pairs, and is then rolled back: applying the entries [rollback]
    returns, in the order it returns them, puts every store back as it was before
    those writes. *)
Theorem rollback_restores tid now ws tm store txn :
  active_txn tid tm = Ok txn → tx_undo_log txn = [] →
  let '(tm', store') := foldl (λ s w, logged_write tid w s) (tm, store) ws in
  ∃ entries tm'', rollback tid now tm' = (Ok entries, tm'') ∧ compensate entries store' = store.
Proof.
  intros Ht Hnil. pose proof (rollback_compensates tid now ws tm store txn Ht) as H.
  by rewrite Hnil in H.
Qed.

End props.
