(* ===== verification/TransactionExamples.v ===== *)
(** * The transaction manager at work

    Two behaviours of the lock table and the lock bookkeeping that a caller has
    to know about, and concrete runs of the manager at which the theorems on it
    apply. *)

From S2P Require Import Prelude LockTable DeadlockDetector LockSpec Transaction TransactionSpec TransactionProps.
Import LockTable.

(** ** Two readers that both upgrade *)

Section upgrades.
Context `{!HashIter Uuid}.

(** Both transactions ask for the exclusive lock, in any order, again and again:
    [true] is the first holder. *)
Fixpoint upgrade_requests (t1 t2 : Uuid) (eid m : string) (turns : list bool) (lt : t)
    : list (result TransactionError ()) * t :=
  match turns with
  | [] => ([], lt)
  | turn :: turns =>
    let '(r, lt) := acquire (if turn : bool then t1 else t2) eid m Exclusive lt in
    let '(rs, lt) := upgrade_requests t1 t2 eid m turns lt in (r :: rs, lt)
  end.

Lemma no_cycle_one_edge t1 t2 lt :
  t1 ≠ t2 → wait_for lt = {[t2 := {[t1]}]} → detect_cycle lt t2 = None.
Proof.
  intros Hne Hw. assert (∀ n v, walk (wait_for lt) t2 n v → v = t1) as Hwalk.
  { intros n v Hn. induction Hn as [v Hv|n u v Hu -> Hv]; rewrite Hw in Hv;
      destruct Hv as (s & [? <-]%lookup_singleton_Some & Hin); set_solver. }
  destruct (detect_cycle lt t2) as [path|] eqn:Hd; [|done].
  apply detect_cycle_spec in Hd as [(Hh & Hl & Hlen & Hp) _].
  by destruct Hne, (Hwalk _ _ (is_path_walk _ _ _ _ Hh Hl Hlen Hp)).
Qed.

(** Two transactions that share a lock and both ask to upgrade it wait for
    each other, and the detector never says so: every request of either, in any
    order, is answered [LockConflict] naming the other, and the table stays as it
    is.  (The first holder's failed upgrade adds no edge to the wait-for graph.) *)
Theorem upgrade_deadlock_undetected t1 t2 eid m turns lt :
  t1 ≠ t2 →
  locks lt !! {| lk_entity_id := eid; lk_modality := m |}
    = Some [{| li_holder := t1; li_lock_type := Shared |};
            {| li_holder := t2; li_lock_type := Shared |}] →
  wait_for lt = ∅ →
  let '(rs, lt') := upgrade_requests t1 t2 eid m turns lt in
  locks lt' = locks lt ∧
  rs = (λ turn : bool, Err (LockConflict eid m (if turn then t2 else t1))) <$> turns.
Proof.
  intros Hne Hk Hw. assert (wait_for lt = ∅ ∨ wait_for lt = {[t2 := {[t1]}]}) as Hcase by by left.
  clear Hw. revert lt Hk Hcase. induction turns as [|turn turns IH]; intros lt Hk Hcase; [done|].
  cbn [upgrade_requests]. destruct turn.
  - assert (acquire t1 eid m Exclusive lt = (Err (LockConflict eid m t2), lt)) as ->.
    { unfold acquire. rewrite Hk. cbn -[filter]. rewrite decide_True by done.
      rewrite filter_cons_False by (cbn; auto). rewrite filter_cons_True by (cbn; auto). done. }
    specialize (IH lt Hk Hcase). destruct (upgrade_requests _ _ _ _ _ _) as [rs lt'].
    by destruct IH as [-> ->].
  - assert (wait_for (add_wait t2 t1 lt) = {[t2 := {[t1]}]}) as Hw.
    { unfold add_wait. cbn. destruct Hcase as [-> | ->].
      - rewrite lookup_empty. cbn. by rewrite union_empty_r_L.
      - rewrite lookup_singleton_eq. cbn. rewrite union_idemp_L. apply insert_singleton_eq. }
    assert (acquire t2 eid m Exclusive lt = (Err (LockConflict eid m t1), add_wait t2 t1 lt)) as ->.
    { unfold acquire. rewrite Hk. cbn -[add_wait detect_cycle].
      rewrite decide_False by done. by rewrite (no_cycle_one_edge t1). }
    specialize (IH (add_wait t2 t1 lt) Hk (or_intror Hw)).
    destruct (upgrade_requests _ _ _ _ _ _) as [rs lt']. by destruct IH as [-> ->].
Qed.

End upgrades.

(** ** Concrete runs *)

(** A call that a concrete list of calls does not hold. *)
Ltac not_called :=
  intros; let Hin := fresh in intros Hin;
  repeat (apply elem_of_cons in Hin as [Hin|Hin]; [discriminate Hin|]);
  by apply elem_of_nil in Hin.

#[local] Existing Instance milli_chrono.
#[local] Instance uuid_iter : HashIter Uuid := elements_iter Uuid.

Definition doc : string := "document".
Definition e1 : string := "e1".

Example detector_two_cycle :
  detect_cycle {| locks := ∅; wait_for := {[1%N := {[2%N; 3%N]}; 2%N := {[3%N]}; 3%N := {[1%N]}]} |} 1%N
  = Some [1%N; 3%N; 1%N].
Proof. vm_compute. reflexivity. Qed.

Lemma detect_cycle_shortest_witness :
  let lt := {| locks := ∅;
               wait_for := {[1%N := {[2%N; 3%N]}; 2%N := {[3%N]}; 3%N := {[1%N]}]} |} in
  is_cycle (wait_for lt) 1%N [1%N; 3%N; 1%N] ∧
  ∀ path', is_cycle (wait_for lt) 1%N path' → 3 ≤ length path'.
Proof. intros lt. apply (detect_cycle_shortest lt 1%N [1%N; 3%N; 1%N]). vm_compute. reflexivity. Defined.

(** Two transactions share a lock. *)
Definition shared_table : t :=
  {| locks := {[ {| lk_entity_id := e1; lk_modality := doc |} :=
       [{| li_holder := 1%N; li_lock_type := Shared |};
        {| li_holder := 2%N; li_lock_type := Shared |}] ]};
     wait_for := ∅ |}.

Lemma shared_table_wf : lock_table_wf shared_table.
Proof.
  apply map_Forall_singleton. split_and!; [done| |].
  - cbn. apply NoDup_cons. split; [|apply NoDup_singleton]. set_solver.
  - intros info Hin Hty. apply elem_of_cons in Hin as [->|Hin%list_elem_of_singleton]; by subst.
Qed.

Lemma acquire_refines_witness :
  let '(r, lt') := acquire 3%N e1 doc Exclusive shared_table in
  (is_ok r, abs_table lt') = RwLock.acquire 3%N {| lk_entity_id := e1; lk_modality := doc |}
    Exclusive (abs_table shared_table) ∧ lock_table_wf lt'.
Proof. apply (acquire_refines 3%N e1 doc Exclusive shared_table). exact shared_table_wf. Defined.

Lemma acquire_refused_witness :
  let key := {| lk_entity_id := e1; lk_modality := doc |} in
  ∃ b, (b ≠ 3%N ∧ ∃ ty, default ∅ (abs_table shared_table !! key) !! b = Some ty ∧
    conflicts ty Exclusive = true).
Proof.
  intros key. exists 1%N.
  apply (acquire_refused 3%N e1 doc Exclusive shared_table (LockConflict e1 doc 1%N)
           (add_wait 3%N 1%N shared_table)); [exact shared_table_wf|vm_compute; reflexivity].
Defined.

Lemma release_all_refines_witness :
  abs_table (release_all 1%N shared_table) = RwLock.release_all 1%N (abs_table shared_table).
Proof. apply (release_all_refines 1%N shared_table shared_table_wf). Defined.

Lemma upgrade_deadlock_undetected_witness :
  let '(rs, lt') := upgrade_requests 1%N 2%N e1 doc [true; false; true; false] shared_table in
  locks lt' = locks shared_table ∧
  rs = [Err (LockConflict e1 doc 2%N); Err (LockConflict e1 doc 1%N);
        Err (LockConflict e1 doc 2%N); Err (LockConflict e1 doc 1%N)].
Proof.
  apply (upgrade_deadlock_undetected 1%N 2%N e1 doc [true; false; true; false] shared_table);
    [done|vm_compute; reflexivity|done].
Defined.

(** A manager with two serializable transactions, the first of which has read a
    pair and both of which have recorded a write to it. *)
Definition two_writers : list call :=
  [CBegin 1%N 0%Z Serializable; CBegin 2%N 0%Z Serializable;
   CRecordRead 1%N e1 doc; CRecordUndo 1%N e1 doc None 0%Z 1%Z;
   CRecordUndo 2%N e1 doc None 0%Z 1%Z].

Definition two_writers_tm : TransactionManager := run two_writers TransactionManager_new.

Lemma two_writers_ok : calls_ok two_writers TransactionManager_new.
Proof. by repeat split. Qed.

Lemma two_writers_inv : manager_inv two_writers_tm.
Proof. apply manager_inv_run; [exact two_writers_ok|apply manager_inv_new]. Qed.


(** First committer wins: the second one's write is validated away. *)
Example second_committer_fails :
  let '(r2, tm2) := commit 2%N 5%Z two_writers_tm in
  let '(r1, tm1) := commit 1%N 6%Z tm2 in
  r2 = Ok () ∧ r1 = Err (VersionConflict e1 0 1) ∧
  get_transaction_state 1%N tm1 = Some RolledBack ∧ current_version e1 doc tm1 = 1%Z.
Proof. vm_compute. repeat split. Qed.

Definition txn_one : Transaction :=
  default (Transaction_new 0%N (0%Z : @DateTime milli_chrono) ReadCommitted)
    (active_transactions two_writers_tm !! 1%N).

Lemma commit_outcome_witness :
  ∃ r tm', commit 1%N (9%Z : @DateTime milli_chrono) two_writers_tm = (r, tm') ∧ r = Ok () ∧
    get_transaction_state 1%N tm' = Some Committed.
Proof.
  assert (active_txn 1%N two_writers_tm = Ok txn_one) as Ht by (vm_compute; reflexivity).
  pose proof (commit_outcome 1%N (9%Z : @DateTime milli_chrono) two_writers_tm txn_one
    two_writers_inv Ht) as H.
  assert (stale_read two_writers_tm txn_one = None) as Hs by (vm_compute; reflexivity).
  rewrite Hs in H. destruct (commit _ _ _) as [r tm']. exists r, tm'.
  destruct H as (_ & _ & ? & ? & _). done.
Defined.

Lemma rejected_calls_witness :
  active_txn 7%N two_writers_tm = Err (TransactionNotFound 7%N) ∧
  commit 7%N (9%Z : @DateTime milli_chrono) two_writers_tm =
    (Err (TransactionNotFound 7%N), two_writers_tm) ∧
  rollback 7%N (9%Z : @DateTime milli_chrono) two_writers_tm =
    (Err (TransactionNotFound 7%N), two_writers_tm).
Proof.
  assert (active_txn 7%N two_writers_tm = Err (TransactionNotFound 7%N)) as H
    by (vm_compute; reflexivity).
  destruct (rejected_calls 7%N two_writers_tm (TransactionNotFound 7%N) H) as (_ & Hr & _).
  exact (conj H (Hr 9%Z)).
Defined.

Definition rolled_back_tm : TransactionManager := exec (CRollback 1%N 8%Z) two_writers_tm.

Lemma completed_is_final_witness :
  let txn := complete RolledBack (8%Z : @DateTime milli_chrono) txn_one in
  let cs := [CCommit 1%N 9%Z; CRecordRead 1%N e1 doc; CPurgeCompleted] in
  active_transactions (run cs rolled_back_tm) !! 1%N = Some txn ∨
  CPurgeCompleted ∈ cs ∧ active_transactions (run cs rolled_back_tm) !! 1%N = None.
Proof.
  intros txn cs.
  apply (completed_is_final 1%N cs rolled_back_tm txn).
  - exact (conj I (conj I (conj I I))).
  - not_called.
  - vm_compute; reflexivity.
  - discriminate.
Defined.

Lemma serializable_reads_stable_witness :
  let cs := [CRecordUndo 2%N "e2" doc None 0 4%Z; CRollback 2%N 5%Z] in
  let tm2 := exec (CRecordRead 1%N e1 doc) two_writers_tm in
  total_bumps e1 doc cs tm2 = 0.
Proof.
  intros cs tm2.
  eapply (serializable_reads_stable 1%N e1 doc (7%Z : @DateTime milli_chrono)
            two_writers_tm tm2 _ cs txn_one).
  - exact two_writers_inv.
  - vm_compute; reflexivity.
  - vm_compute; reflexivity.
  - vm_compute; reflexivity.
  - exact (conj I (conj I I)).
  - not_called.
  - not_called.
  - vm_compute; reflexivity.
  - vm_compute; reflexivity.
Defined.

Lemma rollback_restores_witness :
  let tm := run [CBegin 1%N 0%Z ReadCommitted] TransactionManager_new in
  let store : backing := {[ (e1, doc) := [Byte.x01] ]} in
  let ws : list (string * string * list byte * Z) :=
    [(e1, doc, [Byte.x02], 1%Z); (e1, doc, [Byte.x03], 2%Z); ("e2"%string, doc, [Byte.x04], 3%Z)] in
  let '(tm', store') := foldl (λ s w, logged_write 1%N w s) (tm, store) ws in
  ∃ entries tm'', rollback 1%N 4%Z tm' = (Ok entries, tm'') ∧ compensate entries store' = store.
Proof.
  intros tm store ws.
  apply (rollback_restores 1%N (4%Z : @DateTime milli_chrono) ws tm store
           (Transaction_new 1%N (0%Z : @DateTime milli_chrono) ReadCommitted));
    vm_compute; reflexivity.
Defined.

(** ** A downgrade that the lock table does not make

    Asking for a shared lock while holding the exclusive one succeeds; the table
    keeps the exclusive lock, the transaction's own lock set says shared. *)
Definition downgrade : list call :=
  [CBegin 1%N 0%Z ReadCommitted; CAcquireLock 1%N e1 doc Exclusive; CAcquireLock 1%N e1 doc Shared].

(** The lock set of a transaction can disagree with the lock table on how a
    pair is held: after an exclusive and then a shared request by the same
    transaction, the table says exclusive and the lock set shared. *)
Theorem lock_set_understates :
  ∃ tm txn, reachable tm ∧ active_transactions tm !! 1%N = Some txn ∧
    held 1%N e1 doc (lock_table tm) = Some Exclusive ∧
    tx_locks txn = [{| le_entity_id := e1; le_modality := doc; le_lock_type := Shared |}].
Proof.
  exists (run downgrade TransactionManager_new).
  destruct (active_transactions (run downgrade TransactionManager_new) !! 1%N) as [txn|] eqn:Htxn;
    [|by vm_compute in Htxn].
  exists txn. split_and!; [|done|vm_compute; reflexivity|].
  - exists downgrade. split; [by repeat split|done].
  - vm_compute in Htxn. by injection Htxn as <-.
Qed.
