(* ===== verification/TransactionRace.v ===== *)
(** * Interleaved calls on one transaction manager

    [TransactionManager] guards its three tables by three [RwLock]s, and a method
    may be pre-empted between two of them.  Here threads run methods as sequences
    of such steps, in any interleaving; [commit] and [rollback] keep the write
    lock of the transactions ([txns]) to their end, so that steps needing it wait.
    A method that needs one lock at a time and makes its only visible change under
    it is one step. *)

From S2P Require Import Prelude LockTable DeadlockDetector LockSpec Transaction TransactionSpec.

Section race.
Context {CH : Chrono} `{!HashIter Uuid}.

(** ** Threads and steps *)

(** Where a thread is inside a method; [Idle] between calls. *)
Inductive pc :=
| Idle
| AcquireChecked (tid : Uuid) (eid m : string) (lty : LockType)
| AcquireGranted (tid : Uuid) (eid m : string) (lty : LockType)
| ReadVersion (tid : Uuid) (eid m : string) (version : Z)
| CommitValidated (tid : Uuid) (log : list UndoEntry)
| CommitApplied (tid : Uuid)
| CommitFailed (tid : Uuid).

(** The transaction whose commit a thread is in the middle of. *)
Definition committing (p : pc) : option Uuid :=
  match p with
  | CommitValidated tid _ | CommitApplied tid | CommitFailed tid => Some tid
  | _ => None
  end.

Record gstate := {
  gs_tm : TransactionManager;
  (** The thread that keeps the write lock of the transactions. *)
  gs_txns_writer : option nat;
  gs_threads : gmap nat pc;
}.

Definition at_pc (s : gstate) (th : nat) : pc := default Idle (gs_threads s !! th).

Definition gs_init : gstate :=
  {| gs_tm := TransactionManager_new; gs_txns_writer := None; gs_threads := ∅ |}.

Definition goto (th : nat) (p : pc) (w : option nat) (tm : TransactionManager) (s : gstate) : gstate :=
  {| gs_tm := tm; gs_txns_writer := w; gs_threads := <[th := p]> (gs_threads s) |}.

(** [s -> s']: thread [th] makes one step of a method. *)
Inductive step (th : nat) (s : gstate) : gstate → Prop :=
| step_begin uuid now il :
    at_pc s th = Idle → gs_txns_writer s = None →
    active_transactions (gs_tm s) !! uuid = None →
    step th s (goto th Idle None (snd (begin uuid now il (gs_tm s))) s)
| step_acquire_check tid eid m lty :
    at_pc s th = Idle → gs_txns_writer s = None →
    acquire_check tid m (gs_tm s) = Ok () →
    step th s (goto th (AcquireChecked tid eid m lty) None (gs_tm s) s)
| step_acquire_table_ok tid eid m lty tm' :
    at_pc s th = AcquireChecked tid eid m lty →
    acquire_table tid eid m lty (gs_tm s) = (Ok (), tm') →
    step th s (goto th (AcquireGranted tid eid m lty) (gs_txns_writer s) tm' s)
| step_acquire_table_err tid eid m lty e tm' :
    at_pc s th = AcquireChecked tid eid m lty →
    acquire_table tid eid m lty (gs_tm s) = (Err e, tm') →
    step th s (goto th Idle (gs_txns_writer s) tm' s)
| step_acquire_record tid eid m lty :
    at_pc s th = AcquireGranted tid eid m lty → gs_txns_writer s = None →
    step th s (goto th Idle None (acquire_record tid eid m lty (gs_tm s)) s)
| step_read_version tid eid m :
    at_pc s th = Idle → check_modality m = Ok () →
    step th s (goto th (ReadVersion tid eid m (current_version eid m (gs_tm s)))
                 (gs_txns_writer s) (gs_tm s) s)
| step_read_stamp tid eid m v :
    at_pc s th = ReadVersion tid eid m v → gs_txns_writer s = None →
    step th s (goto th Idle None (snd (read_stamp tid eid m v (gs_tm s))) s)
| step_record_undo tid eid m d v now :
    at_pc s th = Idle → gs_txns_writer s = None →
    step th s (goto th Idle None (snd (record_undo tid eid m d v now (gs_tm s))) s)
| step_commit_validated tid txn :
    at_pc s th = Idle → gs_txns_writer s = None →
    commit_validate tid (gs_tm s) = CommitApply txn →
    step th s (goto th (CommitValidated tid (tx_undo_log txn)) (Some th) (gs_tm s) s)
| step_commit_failed tid stamp v :
    at_pc s th = Idle → gs_txns_writer s = None →
    commit_validate tid (gs_tm s) = CommitAbort stamp v →
    step th s (goto th (CommitFailed tid) (Some th) (gs_tm s) s)
| step_commit_apply tid log :
    at_pc s th = CommitValidated tid log →
    step th s (goto th (CommitApplied tid) (Some th)
      (set_version_table (apply_increments log (version_table (gs_tm s))) (gs_tm s)) s)
| step_commit_release tid now :
    at_pc s th = CommitApplied tid →
    step th s (goto th Idle None
      (release_locks tid (update_txn tid (complete Committed now) (gs_tm s))) s)
| step_commit_abort tid now :
    at_pc s th = CommitFailed tid →
    step th s (goto th Idle None
      (release_locks tid (update_txn tid (complete RolledBack now) (gs_tm s))) s)
| step_rollback tid now :
    at_pc s th = Idle → gs_txns_writer s = None →
    step th s (goto th Idle None (snd (rollback tid now (gs_tm s))) s)
| step_set_version eid m v :
    at_pc s th = Idle →
    step th s (goto th Idle (gs_txns_writer s) (set_version eid m v (gs_tm s)) s)
| step_purge :
    at_pc s th = Idle → gs_txns_writer s = None →
    step th s (goto th Idle None (snd (purge_completed (gs_tm s))) s).

Definition gstep (s s' : gstate) : Prop := ∃ th, step th s s'.

Definition greachable (s : gstate) : Prop := rtc gstep gs_init s.

(** ** Invariants *)

(** A transaction that is gone or no longer active. *)
Definition finished (tid : Uuid) (tm : TransactionManager) : Prop :=
  get_transaction_state tid tm ≠ Some Active.

Record gs_inv (s : gstate) : Prop := {
  gi_locks : lock_table_wf (lock_table (gs_tm s));
  gi_committing : ∀ th tid, committing (at_pc s th) = Some tid →
    gs_txns_writer s = Some th ∧ ¬ finished tid (gs_tm s);
}.

Lemma at_pc_goto s th th' p w tm :
  at_pc (goto th p w tm s) th' = if decide (th' = th) then p else at_pc s th'.
Proof.
  unfold at_pc. cbn. destruct (decide _) as [->|Hne]; [by rewrite lookup_insert_eq|].
  by rewrite lookup_insert_ne.
Qed.

Lemma acquire_table_ok tid eid m lty tm tm' :
  lock_table_wf (lock_table tm) → acquire_table tid eid m lty tm = (Ok (), tm') →
  lock_table_wf (lock_table tm') ∧ active_transactions tm' = active_transactions tm ∧
  ∀ u eid' m', held u eid' m' (lock_table tm') =
    if decide (u = tid ∧ eid' = eid ∧ m' = m)
    then Some (RwLock.stronger (held u eid' m' (lock_table tm)) lty)
    else held u eid' m' (lock_table tm).
Proof.
  intros Hwf. unfold acquire_table.
  destruct (LockTable.acquire _ _ _ _ _) as [r lt] eqn:Hacq. intros [= -> <-].
  destruct (held_acquire _ _ _ _ _ _ Hwf Hacq). by split_and!.
Qed.

Lemma acquire_table_err tid eid m lty tm e tm' :
  acquire_table tid eid m lty tm = (Err e, tm') →
  LockTable.locks (lock_table tm') = LockTable.locks (lock_table tm) ∧
  active_transactions tm' = active_transactions tm.
Proof.
  unfold acquire_table. destruct (LockTable.acquire _ _ _ _ _) as [r lt] eqn:Hacq.
  intros [= -> <-]. split; [|done]. by eapply acquire_err_locks.
Qed.

Lemma finished_active tid tm tm' :
  active_transactions tm' = active_transactions tm → finished tid tm' ↔ finished tid tm.
Proof. unfold finished, get_transaction_state. by intros ->. Qed.

Lemma commit_validate_is_active tid tm :
  match commit_validate tid tm with
  | CommitError _ => True
  | _ => ∃ txn, active_txn tid tm = Ok txn
  end.
Proof.
  unfold commit_validate. destruct (active_txn tid tm) as [txn|]; [|done].
  repeat case_match; by eexists.
Qed.

Lemma active_not_finished tid tm : ¬ finished tid tm ↔ is_ok (active_txn tid tm) = true.
Proof.
  unfold finished, get_transaction_state, active_txn.
  destruct (active_transactions tm !! tid) as [txn|]; cbn.
  - case_decide as Ha; cbn; [rewrite Ha|]; naive_solver.
  - naive_solver.
Qed.

(** A transaction mutated by a function that keeps its state, or completed. *)
Lemma finished_update tid f tm u :
  (∀ txn, tx_state (f txn) = tx_state txn ∨ tx_state (f txn) ≠ Active) →
  finished u tm → finished u (update_txn tid f tm).
Proof.
  unfold finished, get_transaction_state, update_txn. intros Hf. cbn. rewrite lookup_alter.
  case_decide as Hu; [subst u|done].
  destruct (active_transactions tm !! tid) as [txn|]; cbn; [|done].
  destruct (Hf txn) as [->|?]; [done|congruence].
Qed.

Lemma finished_complete tid s now tm : s ≠ Active → finished tid (update_txn tid (complete s now) tm).
Proof.
  intros Hs. unfold finished, get_transaction_state, update_txn. cbn. rewrite lookup_alter, decide_True by done.
  by destruct (active_transactions tm !! tid); cbn; [congruence|].
Qed.

(** *** Exclusion *)

Lemma step_wf th s s' :
  step th s s' → lock_table_wf (lock_table (gs_tm s)) → lock_table_wf (lock_table (gs_tm s')).
Proof.
  intros Hstep Hwf. destruct Hstep; cbn; try done.
  - by apply (acquire_table_ok _ _ _ _ _ _ Hwf) in H0 as [? _].
  - apply acquire_table_err in H0 as [Hl _]. unfold lock_table_wf. by rewrite Hl.
  - unfold read_stamp. by destruct (active_txn _ _).
  - unfold record_undo. by destruct (_ ≫= _).
  - by apply release_all_wf.
  - by apply release_all_wf.
  - unfold rollback. destruct (active_txn _ _); [|done]. by apply release_all_wf.
Qed.

(** *** The writer of the transactions *)

(** While one thread keeps [txns] locked, no other thread changes a transaction. *)
Lemma step_other_writer th th' s s' :
  step th s s' → gs_txns_writer s = Some th' → (committing (at_pc s th) = None) →
  gs_txns_writer s' = Some th' ∧ active_transactions (gs_tm s') = active_transactions (gs_tm s).
Proof.
  intros Hstep Hw Hc. destruct Hstep; cbn; try congruence; try done;
    try (match goal with H : at_pc s th = _ |- _ => rewrite H in Hc; done end).
  - split; [done|]. unfold acquire_table in H0. destruct (LockTable.acquire _ _ _ _ _).
    by injection H0 as _ <-.
  - split; [done|]. by apply acquire_table_err in H0 as [_ ?].
Qed.

Lemma gs_inv_init : gs_inv gs_init.
Proof. split; [by apply map_Forall_empty|done]. Qed.

Lemma gs_inv_step th s s' : step th s s' → gs_inv s → gs_inv s'.
Proof.
  intros Hstep [Hwf Hc]. split; [by eapply step_wf|].
  intros th' tid Hc'. destruct (decide (th' = th)) as [->|Hne].
  - pose proof (Hc th) as Hcth.
    destruct Hstep; rewrite at_pc_goto, decide_True in Hc' by done; cbn in Hc'; try done;
      injection Hc' as <-; cbn.
    + split; [done|]. apply active_not_finished. pose proof (commit_validate_is_active tid0 (gs_tm s)) as Hv.
      rewrite H1 in Hv. by destruct Hv as [txn' ->].
    + split; [done|]. apply active_not_finished. pose proof (commit_validate_is_active tid0 (gs_tm s)) as Hv.
      rewrite H1 in Hv. by destruct Hv as [txn' ->].
    + rewrite H in Hcth. destruct (Hcth tid0 eq_refl) as [_ Hf]. by split.
  - assert (at_pc s' th' = at_pc s th') as Hpc.
    { destruct Hstep; rewrite at_pc_goto; by rewrite decide_False. }
    rewrite Hpc in Hc'. destruct (Hc _ _ Hc') as [Hw Hf].
    assert (committing (at_pc s th) = None) as Hnone.
    { destruct (committing (at_pc s th)) as [tid'|] eqn:Hth; [|done].
      destruct (Hc _ _ Hth) as [Hw' _]. congruence. }
    destruct (step_other_writer _ _ _ _ Hstep Hw Hnone) as [Hw' Ha].
    split; [done|]. by rewrite (finished_active _ _ _ Ha).
Qed.

Lemma gs_inv_reachable s s' : gs_inv s → rtc gstep s s' → gs_inv s'.
Proof. intros Hinv. induction 1 as [|? ? ? [th Hstep] _ IH]; [done|]. apply IH. by eapply gs_inv_step. Qed.

(** C14: However the threads' steps interleave, the lock table never holds two
    incompatible locks: in every reachable state, two different transactions that
    hold the same pair both hold it shared. *)
Theorem race_exclusion s u v eid m tu tv :
  greachable s → u ≠ v →
  held u eid m (lock_table (gs_tm s)) = Some tu → held v eid m (lock_table (gs_tm s)) = Some tv →
  tu = Shared ∧ tv = Shared.
Proof.
  intros Hr Hne Hu Hv. destruct (gs_inv_reachable _ _ gs_inv_init Hr) as [Hwf _].
  unfold held in *. set (key := {| lk_entity_id := eid |}) in *.
  destruct (lock_table_wf_holders _ key _ Hwf eq_refl) as (Hnd & Hex & Hd & _).
  rewrite Hd in Hu, Hv. apply abs_holders_lookup in Hu, Hv; [|done..].
  set (hs := default [] _) in *.
  split.
  - destruct tu; [done|]. rewrite (Hex _ Hu eq_refl) in Hv.
    apply list_elem_of_singleton in Hv. congruence.
  - destruct tv; [done|]. rewrite (Hex _ Hv eq_refl) in Hu.
    apply list_elem_of_singleton in Hu. congruence.
Qed.

(** *** Finished transactions *)

(** A step under which [tid] is not drawn again as an identifier. *)
Definition gstep_without (tid : Uuid) (s s' : gstate) : Prop :=
  gstep s s' ∧
  (active_transactions (gs_tm s) !! tid = None → active_transactions (gs_tm s') !! tid = None).

Lemma step_finished th s s' tid :
  step th s s' → gs_inv s → finished tid (gs_tm s) →
  (active_transactions (gs_tm s) !! tid = None → active_transactions (gs_tm s') !! tid = None) →
  finished tid (gs_tm s').
Proof.
  intros Hstep Hinv Hf Hnone. destruct Hstep; cbn in *; try done.
  - unfold finished, get_transaction_state. cbn. destruct (decide (uuid = tid)) as [->|Hne].
    + rewrite Hnone by done. done.
    + by rewrite lookup_insert_ne.
  - unfold acquire_table in H0. destruct (LockTable.acquire _ _ _ _ _). by injection H0 as _ <-.
  - apply acquire_table_err in H0 as [_ Ha]. by rewrite (finished_active _ _ _ Ha).
  - apply finished_update; [by left|done].
  - unfold read_stamp. destruct (active_txn _ _); [|done]. apply finished_update; [by left|done].
  - unfold record_undo. destruct (_ ≫= _); [|done]. apply finished_update; [by left|done].
  - apply finished_update; [by right|done].
  - apply finished_update; [by right|done].
  - unfold rollback. destruct (active_txn _ _); [|done]. cbn. apply finished_update; [by right|done].
  - unfold finished, get_transaction_state in *. cbn. intros Ha. apply Hf.
    destruct (filter _ _ !! tid) as [txn|] eqn:Hl; [|done].
    by apply map_lookup_filter_Some in Hl as [-> _].
Qed.

(** Nothing releases the locks of a finished transaction. *)
Lemma step_keeps_leak th s s' tid eid m ty :
  step th s s' → gs_inv s → finished tid (gs_tm s) →
  held tid eid m (lock_table (gs_tm s)) = Some ty →
  ∃ ty', held tid eid m (lock_table (gs_tm s')) = Some ty' ∧ (ty = Exclusive → ty' = Exclusive).
Proof.
  intros Hstep [Hwf Hc] Hf Hh.
  assert (∀ lt, lt = lock_table (gs_tm s) →
    ∃ ty', held tid eid m lt = Some ty' ∧ (ty = Exclusive → ty' = Exclusive)) as Hsame by by intros ? ->; eauto.
  assert (∀ u lt, lt = lock_table (gs_tm s) → ¬ finished u (gs_tm s) →
    ∃ ty', held tid eid m (LockTable.release_all u lt) = Some ty' ∧ (ty = Exclusive → ty' = Exclusive))
    as Hother.
  { intros u lt -> Hu. rewrite held_release by done. rewrite decide_False by (intros ->; done). eauto. }
  destruct Hstep; cbn; try by apply Hsame.
  - destruct (acquire_table_ok _ _ _ _ _ _ Hwf H0) as (_ & _ & Hheld). rewrite Hheld.
    case_decide; [|by eauto]. rewrite Hh. eexists. split; [done|]. by intros ->.
  - apply acquire_table_err in H0 as [Hl _]. unfold held, abs_table. rewrite Hl. by eauto.
  - apply Hsame. unfold read_stamp. by destruct (active_txn _ _).
  - apply Hsame. unfold record_undo. by destruct (_ ≫= _).
  - apply Hother; [done|]. apply (Hc th). by rewrite H.
  - apply Hother; [done|]. apply (Hc th). by rewrite H.
  - unfold rollback. destruct (active_txn tid0 (gs_tm s)) eqn:Ht; [|by apply Hsame].
    apply Hother; [done|]. apply active_not_finished. by rewrite Ht.
Qed.

(** A lock held by a transaction that is finished is never released: whatever
    steps follow in any interleaving (that do not draw its identifier again), it
    stays, and while it is exclusive every other transaction's request for that
    pair is refused. *)
Theorem leaked_lock_is_permanent s s' tid eid m :
  greachable s → finished tid (gs_tm s) →
  held tid eid m (lock_table (gs_tm s)) = Some Exclusive →
  rtc (gstep_without tid) s s' →
  held tid eid m (lock_table (gs_tm s')) = Some Exclusive ∧
  ∀ u lty, u ≠ tid → ∃ e tm', acquire_table u eid m lty (gs_tm s') = (Err e, tm').
Proof.
  intros Hr%(gs_inv_reachable _ _ gs_inv_init) Hf Hh Hrtc.
  assert (gs_inv s' ∧ finished tid (gs_tm s') ∧
    held tid eid m (lock_table (gs_tm s')) = Some Exclusive) as (Hinv' & _ & Hh').
  { induction Hrtc as [s|s1 s2 s3 [[th Hstep] Hnone] _ IH]; [done|].
    destruct (step_keeps_leak _ _ _ _ _ _ _ Hstep Hr Hf Hh) as (ty' & Hty & Hex).
    rewrite Hex in Hty by done.
    apply IH; [by eapply gs_inv_step|by eapply step_finished|done]. }
  split; [done|]. intros u lty Hu. destruct Hinv' as [Hwf' _].
  unfold acquire_table.
  destruct (acquire_denied u eid m lty (lock_table (gs_tm s')) Hwf') as (e & lt' & -> & _); [|by eauto].
  intros Hc. specialize (Hc tid Exclusive Hh'). destruct Hc as [->|Hc]; [done|]. by destruct lty.
Qed.

Lemma state_update tid f tm u :
  (∀ txn, tx_state (f txn) = tx_state txn) →
  get_transaction_state u (update_txn tid f tm) = get_transaction_state u tm.
Proof.
  intros Hf. unfold get_transaction_state, update_txn. cbn. rewrite lookup_alter.
  case_decide as Hu; [subst u|done].
  destruct (active_transactions tm !! tid); cbn; [by rewrite Hf|done].
Qed.

Lemma state_complete_ne tid s now tm u :
  u ≠ tid → get_transaction_state u (update_txn tid (complete s now) tm) = get_transaction_state u tm.
Proof.
  intros Hu. unfold get_transaction_state, update_txn. cbn. by rewrite lookup_alter_ne.
Qed.

Lemma step_final th s s' tid st :
  step th s s' → gs_inv s → get_transaction_state tid (gs_tm s) = Some st → st ≠ Active →
  get_transaction_state tid (gs_tm s') = Some st ∨ active_transactions (gs_tm s') !! tid = None.
Proof.
  intros Hstep [_ Hc] Hst Hne.
  assert (finished tid (gs_tm s)) as Hf by (unfold finished; congruence).
  destruct Hstep; cbn in *; try by left.
  - left. unfold get_transaction_state in *. cbn. rewrite lookup_insert_ne; [done|].
    intros ->. by rewrite H1 in Hst.
  - left. unfold acquire_table in H0. destruct (LockTable.acquire _ _ _ _ _). by injection H0 as _ <-.
  - left. apply acquire_table_err in H0 as [_ Ha]. unfold get_transaction_state. by rewrite Ha.
  - left. unfold acquire_record. by rewrite state_update.
  - left. unfold read_stamp. destruct (active_txn _ _); [|done]. cbn. by rewrite state_update.
  - left. unfold record_undo. destruct (_ ≫= _); [|done]. cbn. by rewrite state_update.
  - left. rewrite <- Hst. apply state_complete_ne. intros ->. by apply (Hc th tid0); [rewrite H|].
  - left. rewrite <- Hst. apply state_complete_ne. intros ->. by apply (Hc th tid0); [rewrite H|].
  - left. unfold rollback. destruct (active_txn tid0 (gs_tm s)) eqn:Ht; [|done]. cbn.
    rewrite <- Hst. apply state_complete_ne. intros ->.
    by apply (proj2 (active_not_finished tid0 (gs_tm s))); [rewrite Ht|].
  - right. apply map_lookup_filter_None. right. intros txn Htxn. cbn.
    unfold get_transaction_state in Hst. rewrite Htxn in Hst. cbn in Hst. congruence.
Qed.

(** [Committed] and [RolledBack] are final under every interleaving: no step
    takes a finished transaction back to [Active] or from one final state to the
    other; it can only leave the table. *)
Theorem race_finality s s' tid st :
  greachable s → get_transaction_state tid (gs_tm s) = Some st → st ≠ Active →
  rtc (gstep_without tid) s s' →
  get_transaction_state tid (gs_tm s') = Some st ∨ get_transaction_state tid (gs_tm s') = None.
Proof.
  intros Hr%(gs_inv_reachable _ _ gs_inv_init) Hst Hne Hrtc.
  assert (get_transaction_state tid (gs_tm s) = Some st ∨
    active_transactions (gs_tm s) !! tid = None) as Hcase by by left.
  clear Hst. induction Hrtc as [s|s1 s2 s3 [[th Hstep] Hnone] _ IH].
  - destruct Hcase as [?|Hn]; [by left|right]. unfold get_transaction_state. by rewrite Hn.
  - apply IH; [by eapply gs_inv_step|]. destruct Hcase as [Hst|Hn]; [|by right; apply Hnone].
    by eapply step_final.
Qed.

End race.

(** ** A lock that leaks

    Thread 0 has checked that transaction 1 is active and is pre-empted before it
    takes the lock table; thread 1 rolls transaction 1 back; thread 0 goes on. *)

#[local] Existing Instance milli_chrono.
#[local] Instance race_uuid_iter : HashIter Uuid := elements_iter Uuid.

Definition leak_begun : gstate :=
  goto 0 Idle None (snd (begin 1%N (0%Z : @DateTime milli_chrono) ReadCommitted
    TransactionManager_new)) gs_init.

Definition leak_checked : gstate :=
  goto 0 (AcquireChecked 1%N "e1" "document" Exclusive) None (gs_tm leak_begun) leak_begun.

Definition leak_rolled_back : gstate :=
  goto 1 Idle None (snd (rollback 1%N (1%Z : @DateTime milli_chrono) (gs_tm leak_checked))) leak_checked.

Definition leak_granted : gstate :=
  goto 0 (AcquireGranted 1%N "e1" "document" Exclusive) None
    (snd (acquire_table 1%N "e1" "document" Exclusive (gs_tm leak_rolled_back))) leak_rolled_back.

Definition leak_final : gstate :=
  goto 0 Idle None (acquire_record 1%N "e1" "document" Exclusive (gs_tm leak_granted)) leak_granted.

Lemma leak_final_reachable : greachable leak_final.
Proof.
  apply (rtc_l _ _ leak_begun).
  { exists 0. by apply (step_begin 0 gs_init 1%N (0%Z : @DateTime milli_chrono)). }
  apply (rtc_l _ _ leak_checked).
  { exists 0. apply (step_acquire_check 0 leak_begun); vm_compute; reflexivity. }
  apply (rtc_l _ _ leak_rolled_back).
  { exists 1. apply (step_rollback 1 leak_checked); vm_compute; reflexivity. }
  apply (rtc_l _ _ leak_granted).
  { exists 0. apply (step_acquire_table_ok 0 leak_rolled_back); vm_compute; reflexivity. }
  apply rtc_once. exists 0. apply (step_acquire_record 0 leak_granted); vm_compute; reflexivity.
Qed.

(** The check that a transaction is active and the grant of its lock are not
    atomic: a reachable state has every thread idle and a rolled-back transaction
    that holds an exclusive lock (for good, by the theorem above). *)
Theorem lock_leak_reachable :
  ∃ s, greachable s ∧ (∀ th, at_pc s th = Idle) ∧
    get_transaction_state 1%N (gs_tm s) = Some RolledBack ∧
    held 1%N "e1" "document" (lock_table (gs_tm s)) = Some Exclusive.
Proof.
  exists leak_final. split_and!; [apply leak_final_reachable| |vm_compute; reflexivity..].
  intros th. unfold leak_final, leak_granted, leak_rolled_back, leak_checked, leak_begun.
  rewrite !at_pc_goto. by repeat case_decide.
Qed.

Lemma leaked_lock_is_permanent_witness :
  held 1%N "e1" "document" (lock_table (gs_tm leak_final)) = Some Exclusive ∧
  ∀ u lty, u ≠ 1%N → ∃ e tm', acquire_table u "e1" "document" lty (gs_tm leak_final) = (Err e, tm').
Proof.
  apply (leaked_lock_is_permanent leak_final leak_final 1%N "e1" "document");
    [apply leak_final_reachable|vm_compute; discriminate|vm_compute; reflexivity|apply rtc_refl].
Defined.

Lemma race_finality_witness :
  get_transaction_state 1%N (gs_tm leak_final) = Some RolledBack ∨
  get_transaction_state 1%N (gs_tm leak_final) = None.
Proof.
  apply (race_finality leak_final leak_final 1%N RolledBack);
    [apply leak_final_reachable|vm_compute; reflexivity|done|apply rtc_refl].
Defined.

(** Two threads that take the same shared lock, step by step. *)
Definition share_begun : gstate :=
  goto 1 Idle None (snd (begin 2%N (0%Z : @DateTime milli_chrono) ReadCommitted (gs_tm leak_begun)))
    leak_begun.

Definition share_checked_1 : gstate :=
  goto 0 (AcquireChecked 1%N "e1" "document" Shared) None (gs_tm share_begun) share_begun.

Definition share_checked_2 : gstate :=
  goto 1 (AcquireChecked 2%N "e1" "document" Shared) None (gs_tm share_checked_1) share_checked_1.

Definition share_granted_2 : gstate :=
  goto 1 (AcquireGranted 2%N "e1" "document" Shared) None
    (snd (acquire_table 2%N "e1" "document" Shared (gs_tm share_checked_2))) share_checked_2.

Definition share_granted_1 : gstate :=
  goto 0 (AcquireGranted 1%N "e1" "document" Shared) None
    (snd (acquire_table 1%N "e1" "document" Shared (gs_tm share_granted_2))) share_granted_2.

Lemma share_reachable : greachable share_granted_1.
Proof.
  apply (rtc_l _ _ leak_begun).
  { exists 0. by apply (step_begin 0 gs_init 1%N (0%Z : @DateTime milli_chrono)). }
  apply (rtc_l _ _ share_begun).
  { exists 1. apply (step_begin 1 leak_begun 2%N (0%Z : @DateTime milli_chrono));
      vm_compute; reflexivity. }
  apply (rtc_l _ _ share_checked_1).
  { exists 0. apply (step_acquire_check 0 share_begun); vm_compute; reflexivity. }
  apply (rtc_l _ _ share_checked_2).
  { exists 1. apply (step_acquire_check 1 share_checked_1); vm_compute; reflexivity. }
  apply (rtc_l _ _ share_granted_2).
  { exists 1. apply (step_acquire_table_ok 1 share_checked_2); vm_compute; reflexivity. }
  apply rtc_once. exists 0. apply (step_acquire_table_ok 0 share_granted_2); vm_compute; reflexivity.
Qed.

Lemma race_exclusion_witness :
  held 1%N "e1" "document" (lock_table (gs_tm share_granted_1)) = Some Shared ∧ Shared = Shared.
Proof.
  split; [vm_compute; reflexivity|].
  apply (race_exclusion share_granted_1 1%N 2%N "e1" "document" Shared Shared);
    [apply share_reachable|done|vm_compute; reflexivity..].
Defined.
