(* ===== verification/WalEntry.v ===== *)
(** * Write-ahead log entries

    Models [src/rust-core/verisim-wal/src/entry.rs] and the error type of
    [error.rs]: the entry, its on-disk format and the parser.  A Rust [String] is
    a [string] whose bytes are its UTF-8 encoding.  The checksum of the [crc32fast]
    crate is the parameter [Crc32fast]; [chrono] is [Chrono]. *)

From S2P Require Import Prelude.
From coqutil Require Import Byte LittleEndianList.
From Stdlib Require String.
Local Open Scope Z_scope.

(** ** Standard library *)


(** [&l[off..off + n]], for ranges the caller has checked. *)
Definition zslice {A : Type} (off n : Z) (l : list A) : list A :=
  take (Z.to_nat n) (drop (Z.to_nat off) l).

(** [l[off]], for an index the caller has checked. *)
Definition byte_at (off : Z) (l : list byte) : byte := default Byte.x00 (l !! Z.to_nat off).

(** [x as u32] for a [usize]. *)
Definition as_u32 (z : Z) : Z := wrap 32 z.

Definition in_range (lo hi : Z) (b : byte) : bool :=
  (lo <=? byte.unsigned b) && (byte.unsigned b <=? hi).

(** A continuation byte. *)
Definition utf8_cont (b : byte) : bool := in_range 0x80 0xBF b.

(** The second byte a three-byte (four-byte) sequence may have, given its first. *)
Definition utf8_second3 (b0 b1 : byte) : bool :=
  if byte.unsigned b0 =? 0xE0 then in_range 0xA0 0xBF b1
  else if byte.unsigned b0 =? 0xED then in_range 0x80 0x9F b1 else utf8_cont b1.

Definition utf8_second4 (b0 b1 : byte) : bool :=
  if byte.unsigned b0 =? 0xF0 then in_range 0x90 0xBF b1
  else if byte.unsigned b0 =? 0xF4 then in_range 0x80 0x8F b1 else utf8_cont b1.

(** Well-formed UTF-8 (the Unicode standard's table of byte sequences). *)
Fixpoint utf8_valid (bs : list byte) : bool :=
  match bs with
  | [] => true
  | b0 :: r0 =>
    if in_range 0 0x7F b0 then utf8_valid r0 else
    match r0 with
    | [] => false
    | b1 :: r1 =>
      if in_range 0xC2 0xDF b0 then utf8_cont b1 && utf8_valid r1 else
      match r1 with
      | [] => false
      | b2 :: r2 =>
        if in_range 0xE0 0xEF b0 then utf8_second3 b0 b1 && utf8_cont b2 && utf8_valid r2 else
        match r2 with
        | [] => false
        | b3 :: r3 =>
          in_range 0xF0 0xF4 b0 && utf8_second4 b0 b1 && utf8_cont b2 && utf8_cont b3
          && utf8_valid r3
        end
      end
    end
  end.

(** ** Errors *)

Inductive WalError :=
| Io (e : string)
| CrcMismatch (sequence expected actual : Z)
| EntryTooLarge (sequence length max_length : Z)
| InvalidOperation (byte : byte)
| InvalidWalModality (byte : byte)
| TruncatedEntry (offset : Z) (segment : string)
| Json (e : string)
| InvalidEntityId (bytes : list byte)
| DirectoryNotFound (dir : string)
| UnexpectedEof (offset : Z).

(** [String::from_utf8(bytes)?] *)
Definition from_utf8 (bs : list byte) : result WalError string :=
  if utf8_valid bs then Ok (String.string_of_list_byte bs) else Err (InvalidEntityId bs).

(** ** Operations and modalities *)

Definition MAX_ENTRY_SIZE : Z := 64 * 1024 * 1024.
Definition HEADER_PREFIX_SIZE : Z := 4 + 4.
Definition FIXED_FIELDS_SIZE : Z := 8 + 8 + 1 + 1.

Inductive WalOperation := WInsert | WUpdate | WDelete | WCheckpoint.

#[export] Instance WalOperation_eq_dec : EqDecision WalOperation.
Proof. solve_decision. Defined.

Definition WalOperation_from_byte (b : byte) : result WalError WalOperation :=
  match byte.unsigned b with
  | 0 => Ok WInsert
  | 1 => Ok WUpdate
  | 2 => Ok WDelete
  | 3 => Ok WCheckpoint
  | _ => Err (InvalidOperation b)
  end.

Definition WalOperation_to_byte (op : WalOperation) : byte :=
  match op with
  | WInsert => byte.of_Z 0
  | WUpdate => byte.of_Z 1
  | WDelete => byte.of_Z 2
  | WCheckpoint => byte.of_Z 3
  end.

Inductive WalModality :=
| MGraph | MVector | MTensor | MSemantic | MDocument | MTemporal | MProvenance | MSpatial | MAll.

#[export] Instance WalModality_eq_dec : EqDecision WalModality.
Proof. solve_decision. Defined.

Definition WalModality_from_byte (b : byte) : result WalError WalModality :=
  match byte.unsigned b with
  | 0 => Ok MGraph
  | 1 => Ok MVector
  | 2 => Ok MTensor
  | 3 => Ok MSemantic
  | 4 => Ok MDocument
  | 5 => Ok MTemporal
  | 6 => Ok MProvenance
  | 7 => Ok MSpatial
  | 255 => Ok MAll
  | _ => Err (InvalidWalModality b)
  end.

Definition WalModality_to_byte (m : WalModality) : byte :=
  match m with
  | MGraph => byte.of_Z 0
  | MVector => byte.of_Z 1
  | MTensor => byte.of_Z 2
  | MSemantic => byte.of_Z 3
  | MDocument => byte.of_Z 4
  | MTemporal => byte.of_Z 5
  | MProvenance => byte.of_Z 6
  | MSpatial => byte.of_Z 7
  | MAll => byte.of_Z 255
  end.

(** ** Entries *)

Record WalEntry {CH : Chrono} := {
  we_sequence : Z;
  we_timestamp : DateTime;
  we_operation : WalOperation;
  we_modality : WalModality;
  we_entity_id : string;
  we_payload : list byte;
}.

(** The [crc32fast] crate: a [u32] for every byte slice. *)
Class Crc32fast := {
  crc32fast_hash : list byte → Z;
  crc32fast_range : ∀ bs, is_u32 (crc32fast_hash bs);
}.

Section entry.
Context {CH : Chrono} {CRC : Crc32fast}.

Definition compute_crc32 (data : list byte) : Z := crc32fast_hash data.

(** The inner content: everything after [entry_length] and the checksum. *)
Definition serialize_inner (e : WalEntry) : list byte :=
  let entity_id_bytes := as_bytes (we_entity_id e) in
  le_split 8 (we_sequence e)
  ++ le_split 8 (timestamp_millis (we_timestamp e))
  ++ [WalOperation_to_byte (we_operation e)]
  ++ [WalModality_to_byte (we_modality e)]
  ++ le_split 4 (as_u32 (zlength entity_id_bytes))
  ++ entity_id_bytes
  ++ le_split 4 (as_u32 (zlength (we_payload e)))
  ++ we_payload e.

Definition serialize (e : WalEntry) : list byte :=
  let inner := serialize_inner e in
  let crc := compute_crc32 inner in
  let entry_length := as_u32 (4 + zlength inner) in
  le_split 4 entry_length ++ le_split 4 crc ++ inner.

(** [if inner.len() < offset + n { return Err(UnexpectedEof(offset)) }] *)
Definition need (inner : list byte) (offset n : Z) : result WalError () :=
  if zlength inner <? offset + n then Err (UnexpectedEof offset) else Ok ().

(** [now] is what [Utc::now()] gives when the stored instant is out of range. *)
Definition parse_inner (now : DateTime) (inner : list byte) : result WalError WalEntry :=
  let offset := 0 in
  _ ← need inner offset 8;
  let sequence := le_combine (zslice offset 8 inner) in
  let offset := offset + 8 in
  _ ← need inner offset 8;
  let timestamp_millis := to_signed 64 (le_combine (zslice offset 8 inner)) in
  let offset := offset + 8 in
  let timestamp := default now (timestamp_millis_opt timestamp_millis) in
  _ ← need inner offset 1;
  operation ← WalOperation_from_byte (byte_at offset inner);
  let offset := offset + 1 in
  _ ← need inner offset 1;
  modality ← WalModality_from_byte (byte_at offset inner);
  let offset := offset + 1 in
  _ ← need inner offset 4;
  let entity_id_len := le_combine (zslice offset 4 inner) in
  let offset := offset + 4 in
  _ ← need inner offset entity_id_len;
  entity_id ← from_utf8 (zslice offset entity_id_len inner);
  let offset := offset + entity_id_len in
  _ ← need inner offset 4;
  let payload_len := le_combine (zslice offset 4 inner) in
  let offset := offset + 4 in
  _ ← need inner offset payload_len;
  let payload := zslice offset payload_len inner in
  Ok {| we_sequence := sequence; we_timestamp := timestamp; we_operation := operation;
        we_modality := modality; we_entity_id := entity_id; we_payload := payload |}.

(** [data] starts right after the [entry_length] field. *)
Definition deserialize (now : DateTime) (data : list byte) (entry_length : Z)
    : result WalError WalEntry :=
  if as_u32 (zlength data) <? entry_length then Err (UnexpectedEof (zlength data)) else
  let data := zslice 0 entry_length data in
  if zlength data <? 4 then Err (UnexpectedEof 0) else
  let stored_crc := le_combine (zslice 0 4 data) in
  let inner := drop 4 data in
  let computed_crc := compute_crc32 inner in
  if negb (stored_crc =? computed_crc) then
    let sequence := if 8 <=? zlength inner then le_combine (zslice 0 8 inner) else 0 in
    Err (CrcMismatch sequence stored_crc computed_crc)
  else parse_inner now inner.

End entry.

(** ** The entry format is a faithful encoding

    Round trip of [serialize] and [deserialize], detection of a wrong checksum,
    and the exact size of an entry on disk; the lemmas on slices and lengths that
    the log readers share. *)

(** ** Slices *)

Lemma zlength_nonneg {A} (l : list A) : 0 ≤ zlength l.
Proof. unfold zlength. lia. Qed.

Lemma zlength_app {A} (l1 l2 : list A) : zlength (l1 ++ l2) = zlength l1 + zlength l2.
Proof. unfold zlength. rewrite length_app. lia. Qed.

Lemma zlength_cons {A} (x : A) l : zlength (x :: l) = 1 + zlength l.
Proof. unfold zlength. cbn. lia. Qed.

Lemma zlength_nil {A} : zlength (@nil A) = 0.
Proof. done. Qed.

Lemma zlength_le_split n z : zlength (le_split n z) = Z.of_nat n.
Proof. unfold zlength. by rewrite length_le_split. Qed.

Create Rewrite HintDb zlength.
#[export] Hint Rewrite @zlength_app @zlength_cons @zlength_nil zlength_le_split : zlength.

(** Computes lengths and closes the arithmetic. *)
Ltac zlen :=
  autorewrite with zlength in *;
  repeat match goal with
         | |- context [zlength ?l] => lazymatch goal with
             | _ : 0 ≤ zlength l |- _ => fail
             | _ => pose proof (zlength_nonneg l) end
         end;
  cbn [Z.of_nat Pos.of_succ_nat Pos.succ] in *; lia.

Lemma zslice_skip {A} off n (a l : list A) :
  zlength a ≤ off → zslice off n (a ++ l) = zslice (off - zlength a) n l.
Proof.
  intros Hoff. unfold zslice, zlength in *. rewrite drop_app_ge by lia. do 2 f_equal. lia.
Qed.

Lemma zslice_head {A} off n (b l : list A) :
  off = 0 → zlength b = n → zslice off n (b ++ l) = b.
Proof. intros -> <-. unfold zslice, zlength. cbn. rewrite Nat2Z.id. apply take_app_length. Qed.

Lemma zslice_all {A} n (b : list A) : zlength b = n → zslice 0 n b = b.
Proof. intros Hn. rewrite <- (app_nil_r b) at 1. by apply zslice_head. Qed.

Lemma byte_at_head off b l : off = 0 → byte_at off ([b] ++ l) = b.
Proof. by intros ->. Qed.

Lemma byte_at_skip off (a l : list byte) :
  zlength a ≤ off → byte_at off (a ++ l) = byte_at (off - zlength a) l.
Proof.
  intros Hoff. unfold byte_at, zlength in *. rewrite lookup_app_r by lia.
  replace (Z.to_nat off - length a)%nat with (Z.to_nat (off - Z.of_nat (length a))) by lia. done.
Qed.

Lemma need_ok inner offset n : offset + n ≤ zlength inner → need inner offset n = Ok ().
Proof. intros Hle. unfold need. by rewrite (proj2 (Z.ltb_ge _ _)). Qed.

(** ** Codes *)

Lemma WalOperation_roundtrip op : WalOperation_from_byte (WalOperation_to_byte op) = Ok op.
Proof. by destruct op. Qed.

Lemma WalModality_roundtrip m : WalModality_from_byte (WalModality_to_byte m) = Ok m.
Proof. by destruct m. Qed.

Lemma to_signed_mod w z :
  0 < w → - 2 ^ (w - 1) ≤ z < 2 ^ (w - 1) → to_signed w (z mod 2 ^ w) = z.
Proof.
  intros Hw Hz. assert (2 ^ w = 2 * 2 ^ (w - 1)) as Hp.
  { replace w with (Z.succ (w - 1)) at 1 by lia. by rewrite Z.pow_succ_r by lia. }
  unfold to_signed. destruct (decide (0 ≤ z)).
  - rewrite Z.mod_small by lia. destruct (Z.ltb_spec z (2 ^ (w - 1))); lia.
  - rewrite <- (Z.mod_unique z (2 ^ w) (-1) (z + 2 ^ w)) by lia.
    destruct (Z.ltb_spec (z + 2 ^ w) (2 ^ (w - 1))); lia.
Qed.

Section entry_spec.
Context {CH : Chrono} {CL : ChronoLaws CH} {CRC : Crc32fast}.

(** ** What an entry is *)

(** The invariants of the Rust types: [sequence] is a [u64], [entity_id] is
    UTF-8. *)
Definition entry_ok (e : WalEntry) : Prop :=
  is_u64 (we_sequence e) ∧ utf8_valid (as_bytes (we_entity_id e)) = true.

(** The [entry_length] field before it is cut to 32 bits. *)
Definition entry_length (e : WalEntry) : Z :=
  4 + (FIXED_FIELDS_SIZE + 4 + zlength (as_bytes (we_entity_id e)) + 4 + zlength (we_payload e)).

(** The entry as it is read back: the timestamp loses its part below a
    millisecond. *)
Definition reread (now : DateTime) (e : WalEntry) : WalEntry :=
  {| we_sequence := we_sequence e;
     we_timestamp := default now (timestamp_millis_opt (timestamp_millis (we_timestamp e)));
     we_operation := we_operation e; we_modality := we_modality e;
     we_entity_id := we_entity_id e; we_payload := we_payload e |}.

Lemma reread_millis now e :
  timestamp_millis (we_timestamp (reread now e)) = timestamp_millis (we_timestamp e).
Proof.
  cbn. destruct (timestamp_millis_opt_millis (we_timestamp e)) as (t & -> & Ht). exact Ht.
Qed.

Lemma zlength_serialize_inner e : zlength (serialize_inner e) = entry_length e - 4.
Proof. unfold serialize_inner, entry_length, FIXED_FIELDS_SIZE. zlen. Qed.

Lemma entry_length_bounds e : 30 ≤ entry_length e.
Proof. unfold entry_length, FIXED_FIELDS_SIZE. zlen. Qed.

Lemma zlength_serialize e : zlength (serialize e) = 4 + entry_length e.
Proof. unfold serialize. autorewrite with zlength. rewrite zlength_serialize_inner. lia. Qed.

(** ** Parsing what was serialized *)

Lemma le_combine_u32 z : 0 ≤ z < 2 ^ 32 → le_combine (le_split 4 (as_u32 z)) = z.
Proof.
  intros Hz. rewrite le_combine_split. change (Z.of_nat 4 * 8) with 32.
  unfold as_u32, wrap. rewrite Z.mod_mod by lia. by apply Z.mod_small.
Qed.

Lemma from_utf8_as_bytes s : utf8_valid (as_bytes s) = true → from_utf8 (as_bytes s) = Ok s.
Proof.
  intros Hv. unfold from_utf8. rewrite Hv. f_equal. apply String.string_of_list_byte_of_string.
Qed.

(** Works on the next step of the parser, its continuation set aside. *)
Ltac at_step tac :=
  cbv zeta;
  lazymatch goal with
  | |- mbind ?f ?x = _ => let k := fresh "k" in set (k := f); tac; subst k; cbn [mbind result_bind]
  end.

(** Passes a length check, and reads the field the parser has come to. *)
Ltac pass_need := at_step ltac:(rewrite need_ok by zlen).
Ltac skip_fields := repeat first [rewrite zslice_skip by zlen | rewrite byte_at_skip by zlen].
Ltac read_field := skip_fields; first [rewrite zslice_head by zlen | rewrite byte_at_head by zlen].

Lemma parse_inner_serialize now e junk :
  entry_ok e → entry_length e < 2 ^ 32 →
  parse_inner now (serialize_inner e ++ junk) = Ok (reread now e).
Proof.
  intros [Hseq Hutf] Hlen. unfold entry_length, FIXED_FIELDS_SIZE in Hlen.
  unfold parse_inner, serialize_inner. rewrite <- !app_assoc.
  set (id := as_bytes (we_entity_id e)) in *. set (pl := we_payload e) in *.
  pose proof (zlength_nonneg id). pose proof (zlength_nonneg pl). pose proof (zlength_nonneg junk).
  set (l := le_split 8 (we_sequence e) ++ _).
  assert (zlength l = entry_length e - 4 + zlength junk) as Hl.
  { subst l. unfold entry_length, FIXED_FIELDS_SIZE. fold id pl. zlen. }
  unfold entry_length, FIXED_FIELDS_SIZE in Hl. fold id pl in Hl.
  assert (le_combine (zslice 0 8 l) = we_sequence e) as Hs.
  { subst l. read_field. rewrite le_combine_split. by apply Z.mod_small. }
  assert (to_signed 64 (le_combine (zslice (0 + 8) 8 l)) = timestamp_millis (we_timestamp e)) as Ht.
  { subst l. read_field. rewrite le_combine_split. apply to_signed_mod; [lia|].
    apply timestamp_millis_range. }
  assert (le_combine (zslice (0 + 8 + 8 + 1 + 1) 4 l) = zlength id) as Hi.
  { subst l. read_field. apply le_combine_u32. lia. }
  assert (zslice (0 + 8 + 8 + 1 + 1 + 4) (zlength id) l = id) as Hid by by subst l; read_field.
  assert (le_combine (zslice (0 + 8 + 8 + 1 + 1 + 4 + zlength id) 4 l) = zlength pl) as Hp.
  { subst l. read_field. apply le_combine_u32. lia. }
  assert (byte_at (0 + 8 + 8) l = WalOperation_to_byte (we_operation e)) as Hop by (subst l; by read_field).
  assert (byte_at (0 + 8 + 8 + 1) l = WalModality_to_byte (we_modality e)) as Hmo by (subst l; by read_field).
  assert (zslice (0 + 8 + 8 + 1 + 1 + 4 + zlength id + 4) (zlength pl) l = pl) as Hpl by (subst l; by read_field).
  pose proof (from_utf8_as_bytes _ Hutf) as Hu. fold id in Hu.
  clearbody l. do 3 (at_step ltac:(rewrite need_ok by lia)).
  rewrite Hop. at_step ltac:(rewrite WalOperation_roundtrip). at_step ltac:(rewrite need_ok by lia).
  rewrite Hmo. at_step ltac:(rewrite WalModality_roundtrip). at_step ltac:(rewrite need_ok by lia).
  rewrite Hi. at_step ltac:(rewrite need_ok by lia).
  rewrite Hid. at_step ltac:(rewrite Hu).
  at_step ltac:(rewrite need_ok by lia). rewrite Hp. at_step ltac:(rewrite need_ok by lia).
  cbv zeta. by rewrite Hs, Ht, Hpl.
Qed.

(** ** The whole entry *)

Lemma take_serialize e rest :
  entry_length e < 2 ^ 32 → le_combine (take 4 (serialize e ++ rest)) = entry_length e.
Proof.
  intros Hlen. unfold serialize. rewrite <- !app_assoc, take_app_length' by done.
  rewrite zlength_serialize_inner. pose proof (entry_length_bounds e).
  replace (4 + (entry_length e - 4)) with (entry_length e) by lia. apply le_combine_u32. lia.
Qed.

(** The bytes of an entry after its [entry_length] field. *)
Definition serialize_body (e : WalEntry) : list byte :=
  le_split 4 (compute_crc32 (serialize_inner e)) ++ serialize_inner e.

Lemma serialize_body_eq e :
  entry_length e < 2 ^ 32 → serialize e = le_split 4 (entry_length e) ++ serialize_body e.
Proof.
  intros Hlen. unfold serialize, serialize_body. rewrite zlength_serialize_inner. f_equal. f_equal.
  pose proof (entry_length_bounds e). unfold as_u32. rewrite wrap_small; lia.
Qed.

Lemma zlength_serialize_body e : zlength (serialize_body e) = entry_length e.
Proof. unfold serialize_body. autorewrite with zlength. rewrite zlength_serialize_inner. lia. Qed.

Lemma crc_field inner rest :
  le_combine (zslice 0 4 (le_split 4 (compute_crc32 inner) ++ rest)) = compute_crc32 inner.
Proof.
  rewrite zslice_head by zlen. rewrite le_combine_split. change (Z.of_nat 4 * 8) with 32.
  apply Z.mod_small, crc32fast_range.
Qed.

Lemma deserialize_body now e :
  entry_ok e → entry_length e < 2 ^ 32 →
  deserialize now (serialize_body e) (entry_length e) = Ok (reread now e).
Proof.
  intros Hok Hlen. pose proof (entry_length_bounds e). unfold deserialize.
  rewrite zlength_serialize_body, zslice_all, zlength_serialize_body by apply zlength_serialize_body.
  rewrite (proj2 (Z.ltb_ge (as_u32 _) _)) by (unfold as_u32; rewrite wrap_small; lia).
  rewrite (proj2 (Z.ltb_ge (entry_length e) 4)) by lia.
  unfold serialize_body at 1 3. rewrite crc_field.
  unfold serialize_body. rewrite !drop_app_length' by done. rewrite Z.eqb_refl. cbn [negb].
  rewrite <- (app_nil_r (serialize_inner e)). by apply parse_inner_serialize.
Qed.

(** Round trip of the on-disk format: reading an entry's length field and
    deserializing what follows gives the entry back, on every field, its timestamp
    to the millisecond, for every entry whose encoding is shorter than [2^32]
    bytes. *)
Theorem entry_roundtrip now e :
  entry_ok e → entry_length e < 2 ^ 32 →
  let bytes := serialize e in
  deserialize now (drop 4 bytes) (le_combine (take 4 bytes)) = Ok (reread now e) ∧
  timestamp_millis (we_timestamp (reread now e)) = timestamp_millis (we_timestamp e).
Proof.
  intros Hok Hlen bytes. subst bytes. split; [|apply reread_millis].
  pose proof (take_serialize e [] Hlen) as Ht. rewrite app_nil_r in Ht. rewrite Ht.
  rewrite serialize_body_eq by done. rewrite drop_app_length' by done. by apply deserialize_body.
Qed.

(** ** What the parser accepts *)

Lemma result_step {A B} (x : result WalError A) (f : A → result WalError B) b :
  mbind f x = Ok b → ∃ a, x = Ok a ∧ f a = Ok b.
Proof. apply result_bind_Ok. Qed.

Lemma need_inv inner offset n u : need inner offset n = Ok u → offset + n ≤ zlength inner.
Proof. unfold need. destruct (Z.ltb_spec (zlength inner) (offset + n)); [done|lia]. Qed.

Lemma drop_split {A} off n (l : list A) :
  0 ≤ off → 0 ≤ n → off + n ≤ zlength l →
  drop (Z.to_nat off) l = zslice off n l ++ drop (Z.to_nat (off + n)) l ∧
  zlength (zslice off n l) = n.
Proof.
  intros Hoff Hn Hle. unfold zslice, zlength in *. split.
  - rewrite <- (take_drop (Z.to_nat n) (drop (Z.to_nat off) l)) at 1. f_equal.
    rewrite drop_drop. f_equal. lia.
  - rewrite length_take, length_drop. lia.
Qed.

Lemma drop_byte off (l : list byte) :
  0 ≤ off → off + 1 ≤ zlength l →
  drop (Z.to_nat off) l = [byte_at off l] ++ drop (Z.to_nat (off + 1)) l.
Proof.
  intros Hoff Hle. unfold byte_at, zlength in *.
  destruct (l !! Z.to_nat off) as [b|] eqn:Hl; [|apply lookup_ge_None_1 in Hl; lia].
  rewrite (drop_S l b) by done. cbn. do 2 f_equal. lia.
Qed.

Lemma le_split_zslice n off (l : list byte) :
  zlength (zslice off (Z.of_nat n) l) = Z.of_nat n →
  le_split n (le_combine (zslice off (Z.of_nat n) l)) = zslice off (Z.of_nat n) l.
Proof. intros Hn. apply split_le_combine'. unfold zlength in Hn. lia. Qed.

Lemma u32_field off (l : list byte) :
  zlength (zslice off 4 l) = 4 →
  le_split 4 (as_u32 (le_combine (zslice off 4 l))) = zslice off 4 l.
Proof.
  intros Hl. pose proof (le_combine_bound (zslice off 4 l)) as Hb. unfold zlength in Hl.
  rewrite Hl in Hb. unfold as_u32. rewrite wrap_small by done.
  apply split_le_combine'. lia.
Qed.

Lemma operation_code b op : WalOperation_from_byte b = Ok op → WalOperation_to_byte op = b.
Proof. intros H. destruct b; vm_compute in H; try discriminate H; by injection H as <-. Qed.

Lemma modality_code b m : WalModality_from_byte b = Ok m → WalModality_to_byte m = b.
Proof. intros H. destruct b; vm_compute in H; try discriminate H; by injection H as <-. Qed.

Lemma from_utf8_inv bs s : from_utf8 bs = Ok s → as_bytes s = bs ∧ utf8_valid bs = true.
Proof.
  unfold from_utf8. destruct (utf8_valid bs); [|done]. intros [= <-]. split; [|done].
  apply String.list_byte_of_string_of_list_byte.
Qed.

(** Two's complement, there and back. *)
Lemma le_split_signed n (bs : list byte) :
  length bs = n → (0 < n)%nat →
  le_split n (to_signed (Z.of_nat n * 8) (le_combine bs)) = bs.
Proof.
  intros Hlen Hn. rewrite le_split_mod. unfold to_signed.
  pose proof (le_combine_bound bs) as Hb. rewrite Hlen in Hb.
  rewrite (Z.mul_comm 8) in Hb. destruct (_ <? _).
  - rewrite Z.mod_small by lia. by apply split_le_combine'.
  - rewrite <- (Z.mod_unique _ _ (-1) (le_combine bs)) by lia. by apply split_le_combine'.
Qed.

Lemma drop_0_eq {A} (l : list A) : l = drop (Z.to_nat 0) l.
Proof. done. Qed.

(** Peels one step off a parse that succeeded. *)
Ltac peel H :=
  let a := fresh "v" in let Ha := fresh "Hs" in
  apply result_step in H as (a & Ha & H); cbv zeta in H.

(** What the parser has read, field by field. *)
Lemma parse_inner_fields now inner e :
  parse_inner now inner = Ok e →
  let off := 0 + 8 + 8 + 1 + 1 in
  let n := le_combine (zslice off 4 inner) in
  let k := le_combine (zslice (off + 4 + n) 4 inner) in
  off + 4 + n + 4 + k ≤ zlength inner ∧
  we_sequence e = le_combine (zslice 0 8 inner) ∧
  we_timestamp e = default now (timestamp_millis_opt (to_signed 64 (le_combine (zslice (0 + 8) 8 inner)))) ∧
  WalOperation_to_byte (we_operation e) = byte_at (0 + 8 + 8) inner ∧
  WalModality_to_byte (we_modality e) = byte_at (0 + 8 + 8 + 1) inner ∧
  as_bytes (we_entity_id e) = zslice (off + 4) n inner ∧
  utf8_valid (as_bytes (we_entity_id e)) = true ∧
  we_payload e = zslice (off + 4 + n + 4) k inner.
Proof.
  intros H off n k. unfold parse_inner in H. cbv zeta in H.
  do 3 peel H. peel H. apply operation_code in Hs2. do 1 peel H. peel H. apply modality_code in Hs4.
  do 2 peel H. peel H. apply from_utf8_inv in Hs7 as [Hid Hutf]. do 2 peel H.
  apply need_inv in Hs8. injection H as <-.
  cbn [we_sequence we_timestamp we_operation we_modality we_entity_id we_payload].
  rewrite Hs2, Hs4, Hid. subst off n k. by split_and!.
Qed.

(** The parser accepts nothing but encodings: whenever [parse_inner] succeeds
    (on bytes whose instant chrono can represent), the bytes begin with exactly the
    serialization of the entry returned, and that entry satisfies the Rust types'
    invariants. *)
Theorem parse_inner_canonical now inner e :
  parse_inner now inner = Ok e →
  is_Some (timestamp_millis_opt (to_signed 64 (le_combine (zslice 8 8 inner)))) →
  entry_ok e ∧ ∃ junk, inner = serialize_inner e ++ junk.
Proof.
  intros H [t Ht]. apply parse_inner_fields in H.
  set (off := 0 + 8 + 8 + 1 + 1) in *. cbv zeta in H.
  set (n := le_combine (zslice off 4 inner)) in *.
  set (k := le_combine (zslice (off + 4 + n) 4 inner)) in *.
  destruct H as (Hlen & Hseq & Hts & Hop & Hmo & Hid & Hutf & Hpl).
  change (0 + 8) with 8 in Hts. rewrite Ht in Hts. cbn in Hts.
  pose proof (timestamp_millis_opt_Some _ _ Ht) as Hms. rewrite <- Hts in Hms.
  assert (0 ≤ n) as Hn by apply le_combine_bound.
  assert (0 ≤ k) as Hk by apply le_combine_bound. subst off.
  destruct (drop_split 0 8 inner) as [E1 L1]; [lia..|].
  destruct (drop_split (0 + 8) 8 inner) as [E2 L2]; [lia..|].
  pose proof (drop_byte (0 + 8 + 8) inner ltac:(lia) ltac:(lia)) as E3.
  pose proof (drop_byte (0 + 8 + 8 + 1) inner ltac:(lia) ltac:(lia)) as E4.
  destruct (drop_split (0 + 8 + 8 + 1 + 1) 4 inner) as [E5 L5]; [lia..|].
  destruct (drop_split (0 + 8 + 8 + 1 + 1 + 4) n inner) as [E6 L6]; [lia..|].
  destruct (drop_split (0 + 8 + 8 + 1 + 1 + 4 + n) 4 inner) as [E7 L7]; [lia..|].
  destruct (drop_split (0 + 8 + 8 + 1 + 1 + 4 + n + 4) k inner) as [E8 L8]; [lia..|].
  split.
  - split; [|done]. rewrite Hseq. pose proof (le_combine_bound (zslice 0 8 inner)) as Hb.
    unfold zlength in L1. unfold is_u64. replace (length (zslice 0 8 inner)) with 8%nat in Hb by lia.
    exact Hb.
  - eexists. rewrite (drop_0_eq inner) at 1. rewrite E1, E2, E3, E4, E5, E6, E7, E8.
    unfold serialize_inner. rewrite <- !app_assoc.
    rewrite Hseq, Hms, Hop, Hmo, Hid, Hpl, L6, L8.
    assert (le_split 8 (to_signed 64 (le_combine (zslice 8 8 inner))) = zslice 8 8 inner) as F2.
    { apply (le_split_signed 8); [|lia]. change (0 + 8) with 8 in L2. unfold zlength in L2. lia. }
    pose proof (le_split_zslice 8 0 inner L1) as F1.
    pose proof (u32_field _ inner L5) as F5. pose proof (u32_field _ inner L7) as F7.
    change (Z.of_nat 8) with 8 in *.
    rewrite F1, F2.
    fold n in F5. fold k in F7. rewrite F5, F7. reflexivity.
Qed.

End entry_spec.
