(* ===== verification/WalLog.v ===== *)
(** * The write-ahead log on disk

    Models [src/rust-core/verisim-wal/src/segment.rs], [writer.rs] and [reader.rs]:
    the segment files of a log directory, the writer that appends to them and the
    reader that replays them.  The directory is a map from file names to files; a
    path is the name of the file in it, and a [File] handle the name it was opened
    by.  A file records how many of its bytes [fsync] has made durable.  File-system
    errors are not modelled: every call on a directory that exists succeeds. *)

From S2P Require Import Prelude WalEntry.
From coqutil Require Import Byte LittleEndianList.
From Stdlib Require String.
Local Open Scope Z_scope.

(** ** Decimal numbers *)

Definition digit_byte (d : Z) : byte := byte.of_Z (48 + d).

Definition digit_value (b : byte) : option Z :=
  if in_range 48 57 b then Some (byte.unsigned b - 48) else None.

(** The decimal digits of a number below [10 ^ fuel]. *)
Fixpoint dec_digits (fuel : nat) (z : Z) : list byte :=
  match fuel with
  | O => []
  | S fuel =>
    if z <? 10 then [digit_byte z] else dec_digits fuel (z / 10) ++ [digit_byte (z mod 10)]
  end.

(** A [u64] has at most twenty digits. *)
Definition u64_digits (z : Z) : list byte := dec_digits 20 z.

(** [{:0w$}] pads with zeros on the left. *)
Definition zero_pad (w : nat) (bs : list byte) : list byte :=
  replicate (w - length bs) (digit_byte 0) ++ bs.

(** [checked_mul] and [checked_add] of a digit at a time. *)
Fixpoint parse_digits (acc : Z) (bs : list byte) : option Z :=
  match bs with
  | [] => Some acc
  | b :: bs =>
    d ← digit_value b;
    let acc := acc * 10 + d in
    if acc <? 2 ^ 64 then parse_digits acc bs else None
  end.

(** [str::parse::<u64>]: digits, after an optional [+]. *)
Definition parse_u64 (bs : list byte) : option Z :=
  match bs with
  | [] => None
  | b :: r =>
    if byte.unsigned b =? 43 then if decide (r = []) then None else parse_digits 0 r
    else parse_digits 0 bs
  end.

Definition strip_prefix (p bs : list byte) : option (list byte) :=
  if decide (take (length p) bs = p) then Some (drop (length p) bs) else None.

Definition strip_suffix (s bs : list byte) : option (list byte) :=
  let n := (length bs - length s)%nat in
  if decide ((length s ≤ length bs)%nat ∧ drop n bs = s) then Some (take n bs) else None.

(** ** Segments *)

Definition DEFAULT_MAX_SEGMENT_SIZE : Z := 64 * 1024 * 1024.
Definition SEGMENT_EXTENSION : list byte := as_bytes "log".
Definition SEGMENT_PREFIX : list byte := as_bytes "wal-".
Definition segment_suffix : list byte := as_bytes "." ++ SEGMENT_EXTENSION.

Record SegmentInfo := { path : string; start_sequence : Z; file_size : Z }.

Definition is_full (s : SegmentInfo) (max_size : Z) : bool := max_size <=? file_size s.

Definition segment_filename (start_sequence : Z) : string :=
  String.string_of_list_byte
    (SEGMENT_PREFIX ++ zero_pad 16 (u64_digits start_sequence) ++ segment_suffix).

(** A name that is not UTF-8 has no lossy form that parses. *)
Definition parse_segment_filename (name : string) : option Z :=
  stripped ← strip_prefix SEGMENT_PREFIX (as_bytes name);
  num_str ← strip_suffix segment_suffix stripped;
  parse_u64 num_str.

(** ** The directory *)

(** A file, and the length of the prefix that [fsync] has written to the medium. *)
Record file := { f_data : list byte; f_synced : nat }.

Abbreviation directory := (gmap string file).

(** [None] when the directory does not exist. *)
Definition disk := option directory.

Definition empty_file : file := {| f_data := []; f_synced := 0 |}.
Definition f_append (bs : list byte) (f : file) : file :=
  {| f_data := f_data f ++ bs; f_synced := f_synced f |}.
Definition f_sync (f : file) : file := {| f_data := f_data f; f_synced := length (f_data f) |}.

(** [fs::read] of a file of the directory. *)
Definition fs_read (d : directory) (path : string) : list byte :=
  default [] (f_data <$> d !! path).

Section log.
Context {HI : HashIter string}.

Definition segment_of (d : directory) (name : string) : option SegmentInfo :=
  start ← parse_segment_filename name;
  Some {| path := name; start_sequence := start; file_size := zlength (fs_read d name) |}.

Definition dir_segments (d : directory) : list SegmentInfo :=
  sort_by_key start_sequence (omap (segment_of d) (hash_iter (dom d))).

(** [read_dir] gives the names in the file system's order. *)
Definition list_segments (wal_dir : string) (k : disk) : result WalError (list SegmentInfo) :=
  d ← ok_or (DirectoryNotFound wal_dir) k;
  Ok (dir_segments d).

(** The segments [prune_segments_before] removes. *)
Definition prunable (segments : list SegmentInfo) (checkpoint_sequence : Z)
    (segment : SegmentInfo) : bool :=
  (start_sequence segment <? checkpoint_sequence)
  && existsb (λ s, checkpoint_sequence <=? start_sequence s) segments.

Definition remove_segments (removed : list SegmentInfo) (d : directory) : directory :=
  foldl (λ d s, delete (path s) d) d removed.

Definition prune_segments_before (wal_dir : string) (checkpoint_sequence : Z) (k : disk)
    : result WalError (nat * disk) :=
  d ← ok_or (DirectoryNotFound wal_dir) k;
  segments ← list_segments wal_dir k;
  let removed := filter (λ s, prunable segments checkpoint_sequence s = true) segments in
  Ok (length removed, Some (remove_segments removed d)).

(** ** Writer *)

Inductive SyncMode := Fsync | Periodic (interval : Z) | Async.

(** The handle [current_file] is the file [path current_segment]; [wal_dir] is the
    directory the operations run on. *)
Record WalWriter := {
  current_segment : SegmentInfo;
  next_sequence : Z;
  max_segment_size : Z;
  sync_mode : SyncMode;
  last_sync : Z;
}.

(** [Instant::elapsed] is zero when the clock seems to run backwards. *)
Definition elapsed (now since : Z) : Z := Z.max 0 (now - since).

Definition set_last_sync (t : Z) (w : WalWriter) : WalWriter :=
  {| current_segment := current_segment w; next_sequence := next_sequence w;
     max_segment_size := max_segment_size w; sync_mode := sync_mode w; last_sync := t |}.

Definition set_next_sequence (n : Z) (w : WalWriter) : WalWriter :=
  {| current_segment := current_segment w; next_sequence := n;
     max_segment_size := max_segment_size w; sync_mode := sync_mode w;
     last_sync := last_sync w |}.

Definition set_current_segment (s : SegmentInfo) (w : WalWriter) : WalWriter :=
  {| current_segment := s; next_sequence := next_sequence w;
     max_segment_size := max_segment_size w; sync_mode := sync_mode w;
     last_sync := last_sync w |}.

(** [clock k] is the [k]-th reading of the monotonic clock an operation makes. *)
Definition clock := nat → Z.

(** [self.current_file.sync_all()] *)
Definition sync_all (w : WalWriter) (d : directory) : directory :=
  alter f_sync (path (current_segment w)) d.

Definition wal_sync (now : Z) (w : WalWriter) (d : directory) : WalWriter * directory :=
  (set_last_sync now w, sync_all w d).

Definition maybe_sync (t0 t1 : Z) (w : WalWriter) (d : directory) : WalWriter * directory :=
  match sync_mode w with
  | Fsync => (set_last_sync t1 w, sync_all w d)
  | Periodic interval =>
    if interval <=? elapsed t0 (last_sync w) then (set_last_sync t1 w, sync_all w d) else (w, d)
  | Async => (w, d)
  end.

Definition rotate (now : Z) (w : WalWriter) (d : directory) : WalWriter * directory :=
  let '(w, d) := wal_sync now w d in
  let new_start := next_sequence w in
  let new_path := segment_filename new_start in
  let d := <[new_path := empty_file]> d in
  (set_current_segment {| path := new_path; start_sequence := new_start; file_size := 0 |} w, d).

Section entries.
Context {CH : Chrono} {CRC : Crc32fast}.

Definition with_sequence (n : Z) (e : WalEntry) : WalEntry :=
  {| we_sequence := n; we_timestamp := we_timestamp e; we_operation := we_operation e;
     we_modality := we_modality e; we_entity_id := we_entity_id e; we_payload := we_payload e |}.

(** [self.current_file.write_all(bytes)]; the file grows at its end. *)
Definition write_all (bytes : list byte) (w : WalWriter) (d : directory) : WalWriter * directory :=
  let s := current_segment w in
  (set_current_segment {| path := path s; start_sequence := start_sequence s;
                          file_size := u64_add (file_size s) (zlength bytes) |} w,
   alter (f_append bytes) (path s) d).

Definition append (c : clock) (entry : WalEntry) (w : WalWriter) (d : directory)
    : Z * WalWriter * directory :=
  let sequence := next_sequence w in
  let entry := with_sequence sequence entry in
  let w := set_next_sequence (u64_add (next_sequence w) 1) w in
  let bytes := serialize entry in
  let '(w, d) :=
    if max_segment_size w <? u64_add (file_size (current_segment w)) (zlength bytes)
    then rotate (c 0%nat) w d else (w, d) in
  let '(w, d) := write_all bytes w d in
  let '(w, d) := maybe_sync (c 1%nat) (c 2%nat) w d in
  (sequence, w, d).

Definition checkpoint_entry (now : DateTime) : WalEntry :=
  {| we_sequence := 0; we_timestamp := now; we_operation := WCheckpoint; we_modality := MAll;
     we_entity_id := ""; we_payload := [] |}.

Definition checkpoint (now : DateTime) (c : clock) (w : WalWriter) (d : directory)
    : Z * WalWriter * directory :=
  let '(sequence, w, d) := append c (checkpoint_entry now) w d in
  let '(w, d) := wal_sync (c 3%nat) w d in
  (sequence, w, d).

(** The loop of [scan_last_sequence]; it advances by at least four bytes, so
    [length data] iterations are enough. *)
Fixpoint scan_loop (fuel : nat) (data : list byte) (offset last_sequence : Z) : Z :=
  match fuel with
  | O => last_sequence
  | S fuel =>
    if offset + 4 <=? zlength data then
      let entry_length := le_combine (zslice offset 4 data) in
      if zlength data <? offset + 4 + entry_length then last_sequence else
      let inner_start := offset + 4 + 4 in
      let last_sequence :=
        if inner_start + 8 <=? zlength data then
          let seq := le_combine (zslice inner_start 8 data) in
          if last_sequence <=? seq then seq else last_sequence
        else last_sequence in
      scan_loop fuel data (offset + (4 + entry_length)) last_sequence
    else last_sequence
  end.

Definition scan_last_sequence (d : directory) (segment : SegmentInfo) : Z :=
  if file_size segment =? 0 then u64_add (start_sequence segment) 1 else
  let data := fs_read d (path segment) in
  u64_add (scan_loop (length data) data 0 (start_sequence segment)) 1.

Definition open_with_max_size (mode : SyncMode) (max_size : Z) (now : Z) (k : disk)
    : WalWriter * directory :=
  let d := default ∅ k in
  let segments := dir_segments d in
  let '(current, d, next) :=
    match last segments with
    | None =>
      let start_seq := 0 in
      let p := segment_filename start_seq in
      ({| path := p; start_sequence := start_seq; file_size := 0 |}, <[p := empty_file]> d, 1)
    | Some s => (s, d, scan_last_sequence d s)
    end in
  ({| current_segment := current; next_sequence := next; max_segment_size := max_size;
      sync_mode := mode; last_sync := now |}, d).

Definition wal_open (mode : SyncMode) (now : Z) (k : disk) : WalWriter * directory :=
  open_with_max_size mode DEFAULT_MAX_SEGMENT_SIZE now k.

(** ** Reader *)

(** [now] is what [Utc::now()] gives for an entry whose timestamp is out of range. *)
Fixpoint read_loop (now : DateTime) (fuel : nat) (data : list byte) (offset : Z)
    (entries : list WalEntry) : list WalEntry :=
  match fuel with
  | O => entries
  | S fuel =>
    if offset + 4 <=? zlength data then
      let entry_length := le_combine (zslice offset 4 data) in
      if entry_length =? 0 then entries else
      if MAX_ENTRY_SIZE <? entry_length then entries else
      let entry_end := offset + 4 + entry_length in
      if zlength data <? entry_end then entries else
      let entry_data := zslice (offset + 4) entry_length data in
      match deserialize now entry_data entry_length with
      | Ok entry => read_loop now fuel data entry_end (entries ++ [entry])
      | Err (CrcMismatch _ _ _) => read_loop now fuel data entry_end entries
      | Err _ => read_loop now fuel data entry_end entries
      end
    else entries
  end.

(** An iteration consumes at least five bytes: [length data] of them are enough. *)
Definition read_entries (now : DateTime) (data : list byte) : list WalEntry :=
  read_loop now (length data) data 0 [].

Definition read_segment_entries (now : DateTime) (d : directory) (path : string)
    : list WalEntry :=
  read_entries now (fs_read d path).

Definition wal_reader_open (wal_dir : string) (k : disk) : result WalError () :=
  match k with Some _ => Ok () | None => Err (DirectoryNotFound wal_dir) end.

Record WalEntryIterator := { entries : list WalEntry; position : nat }.

Definition replay_from (wal_dir : string) (now : DateTime) (from_sequence : Z) (k : disk)
    : result WalError WalEntryIterator :=
  d ← ok_or (DirectoryNotFound wal_dir) k;
  segments ← list_segments wal_dir k;
  let all_entries :=
    filter (λ e, from_sequence ≤ we_sequence e)
      (segments ≫= λ s, read_segment_entries now d (path s)) in
  Ok {| entries := sort_by_key we_sequence all_entries; position := 0 |}.

Definition replay_all (wal_dir : string) (now : DateTime) (k : disk)
    : result WalError WalEntryIterator :=
  replay_from wal_dir now 0 k.

Definition next (it : WalEntryIterator) : option WalEntry * WalEntryIterator :=
  match entries it !! position it with
  | Some e => (Some e, {| entries := entries it; position := S (position it) |})
  | None => (None, it)
  end.

Definition size_hint (it : WalEntryIterator) : nat * option nat :=
  let remaining := (length (entries it) - position it)%nat in (remaining, Some remaining).

(** The last checkpoint of one segment: [entries.iter().rev()]. *)
Definition segment_checkpoint (es : list WalEntry) : option Z :=
  we_sequence <$> head (filter (λ e, we_operation e = WCheckpoint) (reverse es)).

(** The first segment, from the end, that holds a checkpoint decides. *)
Fixpoint last_checkpoint_in (now : DateTime) (d : directory) (segments : list SegmentInfo)
    : option Z :=
  match segments with
  | [] => None
  | s :: segments =>
    match segment_checkpoint (read_segment_entries now d (path s)) with
    | Some n => Some n
    | None => last_checkpoint_in now d segments
    end
  end.

Definition find_last_checkpoint (wal_dir : string) (now : DateTime) (k : disk)
    : result WalError (option Z) :=
  d ← ok_or (DirectoryNotFound wal_dir) k;
  segments ← list_segments wal_dir k;
  Ok (last_checkpoint_in now d (reverse segments)).

Definition entry_count (wal_dir : string) (now : DateTime) (k : disk) : result WalError nat :=
  d ← ok_or (DirectoryNotFound wal_dir) k;
  segments ← list_segments wal_dir k;
  Ok (foldl (λ count s, count + length (read_segment_entries now d (path s)))%nat 0%nat segments).

End entries.
End log.
