(* ===== verification/WalFrames.v ===== *)
(** * Segment files are sequences of frames

    What [read_segment_entries] and [scan_last_sequence] compute, on every file: a
    file is a sequence of complete frames (a length and a body) and a rest at which
    reading stops, and the reader returns the bodies that deserialize, in order. *)

From S2P Require Import Prelude WalEntry WalLog.
From coqutil Require Import Byte LittleEndianList.
Local Open Scope Z_scope.

Lemma zslice_prefix {A} off n (a l : list A) :
  off = zlength a → zslice off n (a ++ l) = zslice 0 n l.
Proof.
  intros ->. unfold zslice, zlength. rewrite Nat2Z.id, drop_app_length. done.
Qed.

Lemma le_combine_split_u32 z : 0 ≤ z < 2 ^ 32 → le_combine (le_split 4 z) = z.
Proof. intros Hz. rewrite le_combine_split. by apply Z.mod_small. Qed.

Lemma le_combine_zslice_range n off (l : list byte) :
  (n ≤ 8)%nat → 0 ≤ le_combine (zslice off (Z.of_nat n) l) < 2 ^ (8 * Z.of_nat n).
Proof.
  intros Hn. pose proof (le_combine_bound (zslice off (Z.of_nat n) l)) as Hb.
  assert (length (zslice off (Z.of_nat n) l) ≤ n)%nat as Hl.
  { unfold zslice. rewrite Nat2Z.id, length_take. lia. }
  assert (2 ^ (8 * Z.of_nat (length (zslice off (Z.of_nat n) l))) ≤ 2 ^ (8 * Z.of_nat n)).
  { apply Z.pow_le_mono_r; lia. }
  lia.
Qed.

(** Any data splits at a length it covers. *)
Lemma zsplit {A} n (l : list A) :
  0 ≤ n ≤ zlength l → ∃ l1 l2, l = l1 ++ l2 ∧ zlength l1 = n ∧ zslice 0 n l = l1.
Proof.
  intros Hn. exists (take (Z.to_nat n) l), (drop (Z.to_nat n) l). rewrite take_drop.
  split; [done|]. split; [|done]. unfold zlength in *. rewrite length_take. lia.
Qed.

Section frames.
Context {CH : Chrono} {CL : ChronoLaws CH} {CRC : Crc32fast}.

(** A length-prefixed body. *)
Definition frame (body : list byte) : list byte := le_split 4 (zlength body) ++ body.

Definition frames (bodies : list (list byte)) : list byte := bodies ≫= frame.

(** The bodies the reader passes over: neither padding nor unreasonably long. *)
Definition body_ok (body : list byte) : Prop := 0 < zlength body ≤ MAX_ENTRY_SIZE.

(** Where the reader stops: too short for a length, a zero or unreasonable length,
    or a body cut short. *)
Definition stops (rest : list byte) : Prop :=
  zlength rest < 4 ∨
  let n := le_combine (zslice 0 4 rest) in
  n = 0 ∨ MAX_ENTRY_SIZE < n ∨ zlength rest < 4 + n.

(** Where the scan for the next sequence number stops. *)
Definition scan_stops (rest : list byte) : Prop :=
  zlength rest < 4 ∨ zlength rest < 4 + le_combine (zslice 0 4 rest).

Lemma scan_stops_stops rest : scan_stops rest → stops rest.
Proof. unfold scan_stops, stops. tauto. Qed.

Lemma zlength_frame body : zlength (frame body) = 4 + zlength body.
Proof. unfold frame. autorewrite with zlength. lia. Qed.

Lemma frames_cons body bodies : frames (body :: bodies) = frame body ++ frames bodies.
Proof. done. Qed.

Lemma frames_app b1 b2 : frames (b1 ++ b2) = frames b1 ++ frames b2.
Proof. apply bind_app. Qed.

(** The entry a body holds, if it deserializes. *)
Definition read_body (now : DateTime) (body : list byte) : option WalEntry :=
  match deserialize now body (zlength body) with Ok e => Some e | Err _ => None end.

Lemma frame_length_field body rest :
  zlength body < 2 ^ 32 → le_combine (zslice 0 4 (frame body ++ rest)) = zlength body.
Proof.
  intros Hb. unfold frame. rewrite <- app_assoc, zslice_head by zlen.
  apply le_combine_split_u32. pose proof (zlength_nonneg body). lia.
Qed.

(** One iteration of the reader's loop passes one frame. *)
Lemma read_loop_frame now fuel pre body rest acc :
  body_ok body →
  read_loop now (S fuel) (pre ++ frame body ++ rest) (zlength pre) acc =
  read_loop now fuel (pre ++ frame body ++ rest) (zlength (pre ++ frame body))
    (acc ++ option_list (read_body now body)).
Proof.
  intros [Hpos Hmax]. unfold MAX_ENTRY_SIZE in Hmax. cbn [read_loop].
  pose proof (zlength_frame body) as Hf.
  assert (zlength (pre ++ frame body ++ rest) = zlength pre + (4 + zlength body) + zlength rest)
    as Hl by (autorewrite with zlength; lia).
  pose proof (zlength_nonneg pre). pose proof (zlength_nonneg rest).
  rewrite (proj2 (Z.leb_le _ _)) by lia.
  rewrite (zslice_prefix (zlength pre)) by done. rewrite frame_length_field by lia.
  rewrite (proj2 (Z.eqb_neq _ _)) by lia. unfold MAX_ENTRY_SIZE.
  rewrite (proj2 (Z.ltb_ge _ (zlength body))) by lia.
  rewrite (proj2 (Z.ltb_ge (zlength (pre ++ _)) _)) by lia.
  replace (zslice (zlength pre + 4) (zlength body) (pre ++ frame body ++ rest)) with body.
  2:{ unfold frame. rewrite <- app_assoc, (app_assoc pre), zslice_prefix by zlen.
      by rewrite zslice_head by zlen. }
  replace (zlength (pre ++ frame body)) with (zlength pre + 4 + zlength body) by zlen.
  unfold read_body. destruct (deserialize now body (zlength body)) as [e|[]]; cbn;
    rewrite ?app_nil_r; done.
Qed.

Lemma read_loop_stop now fuel pre rest acc :
  stops rest → read_loop now fuel (pre ++ rest) (zlength pre) acc = acc.
Proof.
  intros Hs. destruct fuel as [|fuel]; [done|]. cbn [read_loop].
  rewrite zslice_prefix by done.
  assert (zlength (pre ++ rest) = zlength pre + zlength rest) as Hl by zlen.
  destruct (Z.leb_spec (zlength pre + 4) (zlength (pre ++ rest))); [|done].
  destruct Hs as [Hs|[Hs|[Hs|Hs]]]; [lia| | |].
  - by rewrite Hs.
  - case_match; [done|]. by rewrite (proj2 (Z.ltb_lt _ _)).
  - case_match; [done|]. case_match; [done|]. rewrite (proj2 (Z.ltb_lt _ _)) by lia. done.
Qed.

Lemma read_loop_frames now bodies : ∀ fuel pre rest acc,
  Forall body_ok bodies → stops rest → (length (frames bodies) ≤ fuel)%nat →
  read_loop now fuel (pre ++ frames bodies ++ rest) (zlength pre) acc =
  acc ++ omap (read_body now) bodies.
Proof.
  induction bodies as [|body bodies IH]; intros fuel pre rest acc Hok Hst Hfuel.
  - rewrite app_nil_r. by apply read_loop_stop.
  - apply Forall_cons in Hok as [Hb Hok]. rewrite frames_cons in *.
    pose proof (zlength_frame body) as Hf. unfold zlength in Hf.
    rewrite length_app in Hfuel. destruct fuel as [|fuel]; [lia|].
    rewrite <- app_assoc, read_loop_frame by done.
    rewrite app_assoc, IH by (done || lia). rewrite <- app_assoc. f_equal.
    cbn. by destruct (read_body now body).
Qed.

Lemma read_entries_frames now bodies rest :
  Forall body_ok bodies → stops rest →
  read_entries now (frames bodies ++ rest) = omap (read_body now) bodies.
Proof.
  intros Hok Hst. unfold read_entries.
  apply (read_loop_frames now bodies _ [] rest []); [done..|]. rewrite length_app. lia.
Qed.

(** Every file splits into frames and a rest where reading stops. *)
Lemma frames_exist n : ∀ data, (length data ≤ n)%nat →
  ∃ bodies rest, data = frames bodies ++ rest ∧ Forall body_ok bodies ∧ stops rest.
Proof.
  induction n as [|n IH]; intros data Hn.
  - exists [], data. split; [done|]. split; [done|]. left. unfold zlength. lia.
  - destruct (Z.ltb_spec (zlength data) 4) as [H4|H4].
    { exists [], data. split; [done|]. split; [done|]. by left. }
    remember (le_combine (zslice 0 4 data)) as k eqn:Hkeq.
    destruct (decide (k = 0 ∨ MAX_ENTRY_SIZE < k ∨ zlength data < 4 + k)) as [Hk|Hk].
    { exists [], data. split; [done|]. split; [done|]. right. cbv zeta. by rewrite <- Hkeq. }
    pose proof (le_combine_zslice_range 4 0 data ltac:(lia)) as Hr.
    change (Z.of_nat 4) with 4 in Hr. rewrite <- Hkeq in Hr.
    apply Decidable.not_or in Hk as [Hk0 Hk]. apply Decidable.not_or in Hk as [Hk1 Hk2].
    destruct (zsplit 4 data) as (hd & tl & -> & Hhd & Hz); [lia|].
    destruct (zsplit k tl) as (body & tl' & -> & Hbody & _).
    { rewrite zlength_app in Hk2. lia. }
    destruct (IH tl') as (bodies & rest & -> & Hok & Hst).
    { rewrite !length_app in Hn. unfold zlength in Hhd. lia. }
    exists (body :: bodies), rest. split; [|split; [|done]].
    + rewrite frames_cons. unfold frame. rewrite <- !app_assoc. f_equal.
      rewrite Hbody, Hkeq, Hz.
      rewrite split_le_combine'; [done|]. unfold zlength in Hhd. lia.
    + constructor; [|done]. split; lia.
Qed.

(** What a segment read returns, for every file: the file is a sequence of
    length-prefixed bodies and a rest at which reading stops (too short for a length,
    a zero or unreasonable length, or a body cut short), and the entries are those of
    the bodies that deserialize, in file order; a body that does not is skipped.  In
    particular the loop ends within its fuel. *)
Theorem read_entries_spec now data :
  ∃ bodies rest,
    data = frames bodies ++ rest ∧ Forall body_ok bodies ∧ stops rest ∧
    read_entries now data = omap (read_body now) bodies.
Proof.
  destruct (frames_exist (length data) data) as (bodies & rest & -> & Hok & Hst); [lia|].
  exists bodies, rest. split_and!; [done..|]. by apply read_entries_frames.
Qed.

(** ** Entries as frames *)

(** An entry the log can hold: it respects its types and the reader's size limit. *)
Definition entry_fits (e : WalEntry) : Prop := entry_ok e ∧ entry_length e ≤ MAX_ENTRY_SIZE.

Definition encode_entries (es : list WalEntry) : list byte := es ≫= serialize.

Lemma encode_entries_app es1 es2 :
  encode_entries (es1 ++ es2) = encode_entries es1 ++ encode_entries es2.
Proof. apply bind_app. Qed.

Lemma encode_entries_cons e es : encode_entries (e :: es) = serialize e ++ encode_entries es.
Proof. done. Qed.

Lemma serialize_frame e : entry_length e < 2 ^ 32 → serialize e = frame (serialize_body e).
Proof. intros He. rewrite serialize_body_eq by done. unfold frame. by rewrite zlength_serialize_body. Qed.

Lemma entry_fits_length e : entry_fits e → entry_length e < 2 ^ 32.
Proof. intros [_ He]. unfold MAX_ENTRY_SIZE in He. lia. Qed.

Lemma entry_fits_body e : entry_fits e → body_ok (serialize_body e).
Proof.
  intros [_ He]. unfold body_ok. rewrite zlength_serialize_body.
  pose proof (entry_length_bounds e). lia.
Qed.

Lemma encode_entries_frames es :
  Forall entry_fits es → encode_entries es = frames (serialize_body <$> es).
Proof.
  induction 1 as [|e es He _ IH]; [done|].
  rewrite fmap_cons, frames_cons, encode_entries_cons, IH. f_equal.
  by apply serialize_frame, entry_fits_length.
Qed.

Lemma read_body_entry now e : entry_fits e → read_body now (serialize_body e) = Some (reread now e).
Proof.
  intros He. pose proof (entry_fits_length e He). destruct He as [Hok _].
  unfold read_body. rewrite zlength_serialize_body. by rewrite deserialize_body.
Qed.

Lemma omap_read_bodies now es :
  Forall entry_fits es → omap (read_body now) (serialize_body <$> es) = reread now <$> es.
Proof.
  induction 1 as [|e es He _ IH]; [done|]. cbn. rewrite read_body_entry by done. cbn. by f_equal.
Qed.

(** A frame cut short stops the reader. *)
Lemma torn_frame_stops body k :
  zlength body ≤ MAX_ENTRY_SIZE → (k < length (frame body))%nat → scan_stops (take k (frame body)).
Proof.
  intros Hb Hk. unfold scan_stops. pose proof (zlength_frame body) as Hf. unfold zlength in Hf at 1.
  assert (zlength (take k (frame body)) = Z.of_nat k) as Hl
    by (unfold zlength; rewrite length_take; lia).
  destruct (Z.ltb_spec (Z.of_nat k) 4) as [H4|H4]; [left; lia|]. right.
  assert (take k (frame body) = le_split 4 (zlength body) ++ take (k - 4) body) as ->.
  { unfold frame. rewrite take_app_ge by (rewrite length_le_split; lia).
    by rewrite length_le_split. }
  rewrite zslice_head by zlen. unfold MAX_ENTRY_SIZE in Hb.
  rewrite le_combine_split_u32 by (pose proof (zlength_nonneg body); lia).
  rewrite zlength_app, zlength_le_split. unfold zlength at 1. rewrite length_take.
  unfold zlength in *. lia.
Qed.

Lemma read_entries_cut now es rest :
  Forall entry_fits es → stops rest →
  read_entries now (encode_entries es ++ rest) = reread now <$> es.
Proof.
  intros Hes Hst. rewrite encode_entries_frames by done.
  rewrite read_entries_frames; [by apply omap_read_bodies| |done].
  apply Forall_fmap. eapply Forall_impl; [done|]. intros ?. apply entry_fits_body.
Qed.

Lemma read_entries_encode now es :
  Forall entry_fits es → read_entries now (encode_entries es) = reread now <$> es.
Proof.
  intros Hes. rewrite <- (app_nil_r (encode_entries es)). apply read_entries_cut; [done|by left].
Qed.

(** A crash in the middle of a write costs only the entry being written: a
    segment that holds complete entries and then any proper prefix of another one
    reads back as exactly the complete ones. *)
Theorem torn_tail_ignored now es e k :
  Forall entry_fits es → entry_fits e → (k < length (serialize e))%nat →
  read_entries now (encode_entries es ++ take k (serialize e)) = reread now <$> es.
Proof.
  intros Hes He Hk. apply read_entries_cut; [done|].
  rewrite serialize_frame in * by by apply entry_fits_length.
  apply scan_stops_stops, torn_frame_stops; [|done]. by apply entry_fits_body.
Qed.

(** A corrupted entry costs only itself: whatever overwrites its checksum and
    contents without touching its length, as long as the stored checksum differs from
    the computed one, the segment reads back as the entries before it and the entries
    after it, and deserializing it reports the mismatch. *)
Theorem corrupt_entry_skipped now es1 e body es2 :
  Forall entry_fits es1 → entry_fits e → Forall entry_fits es2 →
  zlength body = entry_length e →
  le_combine (take 4 body) ≠ compute_crc32 (drop 4 body) →
  read_entries now
    (encode_entries es1 ++ (take 4 (serialize e) ++ body) ++ encode_entries es2) =
    (reread now <$> es1) ++ (reread now <$> es2) ∧
  ∃ sequence, deserialize now body (entry_length e) =
    Err (CrcMismatch sequence (le_combine (take 4 body)) (compute_crc32 (drop 4 body))).
Proof.
  intros H1 He H2 Hb Hcrc. pose proof (entry_fits_length e He) as Hlen.
  pose proof (entry_length_bounds e) as Hlow.
  assert (∃ sequence, deserialize now body (entry_length e) =
    Err (CrcMismatch sequence (le_combine (take 4 body)) (compute_crc32 (drop 4 body)))) as Hd.
  { unfold deserialize. rewrite Hb, zslice_all, Hb by done.
    rewrite (proj2 (Z.ltb_ge (as_u32 _) _)) by (unfold as_u32; rewrite wrap_small; lia).
    rewrite (proj2 (Z.ltb_ge (entry_length e) 4)) by lia.
    replace (zslice 0 4 body) with (take 4 body) by done.
    rewrite (proj2 (Z.eqb_neq _ _) Hcrc). cbn [negb]. by eexists. }
  split; [|done].
  assert (take 4 (serialize e) ++ body = frame body) as ->.
  { rewrite serialize_body_eq by done. rewrite take_app_length' by done. unfold frame.
    by rewrite Hb. }
  rewrite !encode_entries_frames by done. rewrite <- frames_cons, <- frames_app.
  rewrite <- (app_nil_r (frames _)), read_entries_frames; [| |by left].
  - rewrite omap_app, omap_read_bodies by done. f_equal. cbn.
    unfold read_body at 1. rewrite Hb. destruct Hd as [sequence ->].
    by apply omap_read_bodies.
  - assert (∀ es, Forall entry_fits es → Forall body_ok (serialize_body <$> es)) as Hall.
    { intros es Hes. apply Forall_fmap. eapply Forall_impl; [done|]. intros ?. apply entry_fits_body. }
    apply Forall_app. split; [by apply Hall|]. constructor; [|by apply Hall].
    unfold body_ok. rewrite Hb. destruct He as [_ He]. lia.
Qed.

(** An entry above the size limit hides the rest of its segment: the writer has no
    such limit, but from an entry whose encoding is longer than [MAX_ENTRY_SIZE] on,
    nothing that follows in the file is read back. *)
Theorem oversized_entry_hides_segment now es e rest :
  Forall entry_fits es → MAX_ENTRY_SIZE < entry_length e < 2 ^ 32 →
  read_entries now (encode_entries es ++ serialize e ++ rest) = reread now <$> es.
Proof.
  intros Hes [Hmax Hlen]. apply read_entries_cut; [done|]. rewrite serialize_frame by done.
  right. rewrite frame_length_field by by rewrite zlength_serialize_body.
  rewrite zlength_serialize_body. auto.
Qed.

End frames.
