(* ===== verification/WalSegments.v ===== *)
(** * Segment names and log directories

    The names [segment_filename] writes are the ones [parse_segment_filename]
    reads, the directory listing is sorted and complete, and what pruning keeps. *)

From S2P Require Import Prelude WalEntry WalLog WalFrames.
From coqutil Require Import Byte LittleEndianList.
From Stdlib Require String.
Local Open Scope Z_scope.

(** ** Decimal numbers *)

Lemma digit_value_byte d : 0 ≤ d < 10 → digit_value (digit_byte d) = Some d.
Proof.
  intros Hd. unfold digit_value, digit_byte, in_range.
  rewrite byte.unsigned_of_Z. unfold byte.wrap. rewrite Z.mod_small by lia.
  rewrite !(proj2 (Z.leb_le _ _)) by lia. cbn. f_equal. lia.
Qed.

Lemma digit_byte_plus d : 0 ≤ d < 10 → (byte.unsigned (digit_byte d) =? 43) = false.
Proof.
  intros Hd. unfold digit_byte. rewrite byte.unsigned_of_Z. unfold byte.wrap.
  rewrite Z.mod_small by lia. apply Z.eqb_neq. lia.
Qed.

Lemma parse_digits_app l1 : ∀ acc l2,
  parse_digits acc (l1 ++ l2) = parse_digits acc l1 ≫= λ a, parse_digits a l2.
Proof.
  induction l1 as [|b l1 IH]; intros acc l2; cbn; [done|].
  destruct (digit_value b); cbn; [|done]. case_match; [apply IH|done].
Qed.

Lemma parse_dec_digits fuel : ∀ z, 0 ≤ z < 10 ^ Z.of_nat fuel → is_u64 z → (0 < fuel)%nat →
  parse_digits 0 (dec_digits fuel z) = Some z.
Proof.
  unfold is_u64. induction fuel as [|fuel IH]; intros z Hz Hu Hf; [lia|].
  cbn -[Z.pow parse_digits Z.div Z.modulo]. destruct (Z.ltb_spec z 10).
  - cbn. rewrite digit_value_byte by lia. cbn. rewrite (proj2 (Z.ltb_lt _ _)) by lia. done.
  - rewrite Nat2Z.inj_succ, Z.pow_succ_r in Hz by lia.
    assert (0 < fuel)%nat by (destruct fuel; cbn in Hz; lia).
    pose proof (Z.mod_pos_bound z 10). pose proof (Z.div_mod z 10).
    pose proof (Z.div_le_upper_bound z 10 z).
    assert (0 ≤ z / 10 < 10 ^ Z.of_nat fuel) by (split; [apply Z.div_pos; lia|apply Z.div_lt_upper_bound; lia]).
    rewrite parse_digits_app, IH by lia. cbn -[Z.div Z.modulo].
    rewrite digit_value_byte by lia. cbn -[Z.div Z.modulo].
    replace (z / 10 * 10 + z mod 10) with z by lia. rewrite (proj2 (Z.ltb_lt _ _)) by lia. done.
Qed.

Lemma parse_zero_pad n bs : parse_digits 0 (replicate n (digit_byte 0) ++ bs) = parse_digits 0 bs.
Proof.
  induction n as [|n IH]; [done|].
  change (replicate (S n) (digit_byte 0) ++ bs)
    with ([digit_byte 0] ++ replicate n (digit_byte 0) ++ bs).
  rewrite parse_digits_app. exact IH.
Qed.

Lemma dec_digits_head fuel : ∀ z, 0 ≤ z → (0 < fuel)%nat →
  ∃ d r, dec_digits fuel z = digit_byte d :: r ∧ 0 ≤ d < 10.
Proof.
  induction fuel as [|fuel IH]; intros z Hz Hf; [lia|]. cbn -[Z.div Z.modulo].
  pose proof (Z.mod_pos_bound z 10).
  destruct (Z.ltb_spec z 10); [by exists z, []|].
  destruct fuel as [|fuel]; [by exists (z mod 10), []; split; [|lia]|].
  destruct (IH (z / 10)) as (d & r & -> & Hd); [apply Z.div_pos; lia|lia|].
  by exists d, (r ++ [digit_byte (z mod 10)]).
Qed.

Lemma zero_pad_head n z : 0 ≤ z →
  ∃ d r, zero_pad n (u64_digits z) = digit_byte d :: r ∧ 0 ≤ d < 10.
Proof.
  intros Hz. unfold zero_pad. destruct (n - length (u64_digits z))%nat as [|k]; cbn [replicate app].
  - apply (dec_digits_head 20); lia.
  - by exists 0, (replicate k (digit_byte 0) ++ u64_digits z).
Qed.

Lemma parse_u64_digits n z : is_u64 z → parse_u64 (zero_pad n (u64_digits z)) = Some z.
Proof.
  intros Hz. unfold is_u64 in Hz. destruct (zero_pad_head n z) as (d & r & Heq & Hd); [lia|].
  unfold parse_u64. rewrite Heq, digit_byte_plus by done. rewrite <- Heq.
  unfold zero_pad. rewrite parse_zero_pad. unfold u64_digits.
  apply parse_dec_digits; [|done|lia]. change (10 ^ Z.of_nat 20) with (10 ^ 20). lia.
Qed.

(** ** Names *)

Lemma strip_prefix_app p bs : strip_prefix p (p ++ bs) = Some bs.
Proof.
  unfold strip_prefix. rewrite take_app_length, drop_app_length. by rewrite decide_True.
Qed.

Lemma strip_suffix_app bs s : strip_suffix s (bs ++ s) = Some bs.
Proof.
  unfold strip_suffix. rewrite length_app. replace (length bs + length s - length s)%nat
    with (length bs) by lia.
  rewrite drop_app_length, take_app_length. rewrite decide_True; [done|]. split; [lia|done].
Qed.

Lemma parse_segment_filename_name z :
  is_u64 z → parse_segment_filename (segment_filename z) = Some z.
Proof.
  intros Hz. unfold parse_segment_filename, segment_filename, as_bytes.
  rewrite String.list_byte_of_string_of_list_byte, strip_prefix_app. cbn -[strip_suffix zero_pad].
  rewrite strip_suffix_app. cbn -[zero_pad parse_u64]. by apply parse_u64_digits.
Qed.

(** Segment names round-trip: the name written for a starting sequence parses back
    to it, for every [u64], so two segments never share a file. *)
Theorem segment_filename_roundtrip z z' :
  is_u64 z → is_u64 z' →
  parse_segment_filename (segment_filename z) = Some z ∧
  (segment_filename z = segment_filename z' → z = z').
Proof.
  intros Hz Hz'. split; [by apply parse_segment_filename_name|]. intros Heq.
  apply parse_segment_filename_name in Hz. apply parse_segment_filename_name in Hz'. congruence.
Qed.

Lemma segment_filename_inj z z' :
  is_u64 z → is_u64 z' → segment_filename z = segment_filename z' → z = z'.
Proof.
  intros Hz%parse_segment_filename_name Hz'%parse_segment_filename_name Heq. congruence.
Qed.

Arguments segment_filename : simpl never.
Arguments parse_segment_filename : simpl never.

(** ** Listing *)

Section listing.
Context {HI : HashIter string}.

Lemma elem_of_dir_segments d s :
  s ∈ dir_segments d ↔
  is_Some (d !! path s) ∧ parse_segment_filename (path s) = Some (start_sequence s) ∧
  file_size s = zlength (fs_read d (path s)).
Proof.
  unfold dir_segments. rewrite elem_of_sort_by_key, list_elem_of_omap.
  setoid_rewrite elem_of_hash_iter. setoid_rewrite elem_of_dom. unfold segment_of. split.
  - intros (name & Hd & Hs). destruct (parse_segment_filename name) as [z|] eqn:Hp; [|done].
    cbn in Hs. by simplify_eq/=.
  - intros (Hd & Hp & Hz). exists (path s). split; [done|]. rewrite Hp. cbn.
    destruct s; cbn in *. by rewrite Hz.
Qed.

Lemma NoDup_dir_segments d : NoDup (dir_segments d).
Proof.
  unfold dir_segments. rewrite sort_by_key_perm.
  assert (NoDup (hash_iter (dom d))) as Hnd by (rewrite hash_iter_perm; apply NoDup_elements).
  induction Hnd as [|name l Hni _ IH]; [constructor|]. cbn.
  destruct (segment_of d name) as [s|] eqn:Hs; [|done].
  apply NoDup_cons. split; [|done]. rewrite list_elem_of_omap. intros (name' & Hin & Hs').
  unfold segment_of in *. apply bind_Some in Hs as (? & _ & ?). apply bind_Some in Hs' as (? & _ & ?).
  by simplify_eq.
Qed.

Lemma dir_segments_sorted d : StronglySorted (key_le start_sequence) (dir_segments d).
Proof. apply sort_by_key_StronglySorted. Qed.

(** [d] has exactly the segment files [files], named by their starting sequences,
    which increase strictly. *)
Record dir_layout (d : directory) (files : list (Z * list byte)) : Prop := {
  dl_only : ∀ name z, is_Some (d !! name) → parse_segment_filename name = Some z →
    name = segment_filename z ∧ z ∈ files.*1;
  dl_file : ∀ z data, (z, data) ∈ files → f_data <$> d !! segment_filename z = Some data;
  dl_sorted : StronglySorted Z.lt files.*1;
  dl_u64 : Forall is_u64 files.*1;
}.

Definition layout_segment (f : Z * list byte) : SegmentInfo :=
  {| path := segment_filename f.1; start_sequence := f.1; file_size := zlength f.2 |}.

Lemma dir_layout_read d files z data :
  dir_layout d files → (z, data) ∈ files → fs_read d (segment_filename z) = data.
Proof. intros Hl Hin. unfold fs_read. by rewrite (dl_file d files Hl z data). Qed.

Lemma strictly_sorted_NoDup (l : list Z) : StronglySorted Z.lt l → NoDup l.
Proof.
  induction 1 as [|x l _ IH Hall]; constructor; [|done].
  intros Hin. rewrite Forall_forall in Hall. specialize (Hall x Hin). lia.
Qed.

Lemma strictly_sorted_unique (l1 l2 : list SegmentInfo) :
  l1 ≡ₚ l2 → StronglySorted (key_le start_sequence) l1 →
  StronglySorted Z.lt (start_sequence <$> l2) → l1 = l2.
Proof.
  intros Hp Hs1. revert l2 Hp. induction Hs1 as [|x l1 Hs1 IH Hall]; intros l2 Hp Hs2.
  { by apply Permutation_nil_l in Hp. }
  destruct l2 as [|y l2]; [by apply Permutation_nil_r in Hp|].
  cbn in Hs2. apply StronglySorted_inv in Hs2 as [Hs2 Hall2].
  rewrite Forall_fmap, Forall_forall in Hall2. rewrite Forall_forall in Hall. cbn in Hall2.
  assert (x = y) as <-.
  { assert (x ∈ y :: l2) as [Hx|Hx]%elem_of_cons by (rewrite <- Hp; by left); [done|].
    assert (y ∈ x :: l1) as [Hy|Hy]%elem_of_cons by (rewrite Hp; by left); [done|].
    specialize (Hall2 x Hx). specialize (Hall y Hy). unfold key_le in Hall. lia. }
  f_equal. apply IH; [|done]. by apply Permutation_cons_inv in Hp.
Qed.

Lemma dir_layout_segments d files :
  dir_layout d files → dir_segments d = layout_segment <$> files.
Proof.
  intros Hl. apply strictly_sorted_unique.
  - apply NoDup_Permutation; [apply NoDup_dir_segments| |].
    + apply (NoDup_fmap_1 start_sequence). rewrite <- list_fmap_compose.
      apply strictly_sorted_NoDup, (dl_sorted d files Hl).
    + intros s. rewrite elem_of_dir_segments, list_elem_of_fmap. split.
      * intros (Hd & Hp & Hz). destruct (dl_only d files Hl _ _ Hd Hp) as [Hn Hin].
        apply list_elem_of_fmap in Hin as ([z data] & Hz' & Hin). cbn in Hz'.
        exists (z, data). split; [|done]. rewrite Hn, Hz' in Hz.
        rewrite (dir_layout_read d files z data) in Hz by done.
        unfold layout_segment. cbn. destruct s; cbn in *. by simplify_eq.
      * intros ([z data] & -> & Hin). cbn.
        pose proof (dl_file d files Hl z data Hin) as Hf.
        apply fmap_Some in Hf as (f & Hf & ->). split; [by eexists|].
        assert (is_u64 z) as Hu.
        { pose proof (dl_u64 d files Hl) as Hall. rewrite Forall_forall in Hall. apply Hall.
          by apply (list_elem_of_fmap_2' fst _ _ _ Hin). }
        split; [by apply parse_segment_filename_name|]. unfold fs_read. by rewrite Hf.
  - apply dir_segments_sorted.
  - rewrite <- list_fmap_compose. apply (dl_sorted d files Hl).
Qed.

(** ** Pruning *)

Lemma lookup_remove_segments removed : ∀ d name,
  remove_segments removed d !! name =
  if decide (name ∈ path <$> removed) then None else d !! name.
Proof.
  induction removed as [|s removed IH]; intros d name; cbn; [done|].
  fold (remove_segments removed (delete (path s) d)). rewrite IH.
  destruct (decide (name = path s)) as [->|Hne].
  - rewrite (decide_True (P := _ ∈ path s :: _)) by by left.
    case_decide; [done|]. by rewrite lookup_delete_eq.
  - rewrite lookup_delete_ne by done.
    destruct (decide (name ∈ path <$> removed)) as [Hin|Hin];
      [rewrite decide_True by by right|rewrite decide_False]; [done..|].
    intros [?|?]%elem_of_cons; done.
Qed.

Lemma dir_segments_path d s1 s2 :
  s1 ∈ dir_segments d → s2 ∈ dir_segments d → path s1 = path s2 → s1 = s2.
Proof.
  rewrite !elem_of_dir_segments. intros (_ & Hp1 & Hf1) (_ & Hp2 & Hf2) Heq.
  destruct s1, s2; cbn in *. by simplify_eq.
Qed.

Definition pruned (d : directory) (cp : Z) : list SegmentInfo :=
  filter (λ s, prunable (dir_segments d) cp s = true) (dir_segments d).

Definition kept (d : directory) (cp : Z) : list SegmentInfo :=
  filter (λ s, prunable (dir_segments d) cp s ≠ true) (dir_segments d).

Lemma pruned_path d cp s :
  s ∈ dir_segments d → path s ∈ path <$> pruned d cp ↔ s ∈ pruned d cp.
Proof.
  intros Hs. rewrite list_elem_of_fmap. split; [|by exists s].
  intros (s' & Heq & Hs'). pose proof Hs' as Hp. apply list_elem_of_filter in Hp as [_ Hp].
  by rewrite (dir_segments_path d s s').
Qed.

Lemma fs_read_pruned d cp s :
  s ∈ kept d cp → fs_read (remove_segments (pruned d cp) d) (path s) = fs_read d (path s).
Proof.
  intros [Hk Hs]%list_elem_of_filter. unfold fs_read. rewrite lookup_remove_segments.
  rewrite decide_False; [done|]. rewrite pruned_path by done.
  intros [? _]%list_elem_of_filter. done.
Qed.

Lemma dir_segments_pruned d cp :
  dir_segments (remove_segments (pruned d cp) d) ≡ₚ kept d cp.
Proof.
  apply NoDup_Permutation; [apply NoDup_dir_segments|apply NoDup_filter, NoDup_dir_segments|].
  intros s. split.
  - rewrite elem_of_dir_segments. unfold fs_read. rewrite lookup_remove_segments. case_decide as Hin.
    { intros [Hn _]. by apply is_Some_None in Hn. }
    intros Hs. apply (elem_of_dir_segments d s) in Hs.
    apply list_elem_of_filter. split; [|done]. intros Hp. apply Hin.
    apply list_elem_of_fmap_2, list_elem_of_filter. done.
  - intros Hk. pose proof (fs_read_pruned d cp s Hk) as Hr.
    apply list_elem_of_filter in Hk as [Hk Hs]. rewrite elem_of_dir_segments, Hr.
    apply elem_of_dir_segments in Hs as Hs'. split; [|apply Hs'].
    rewrite lookup_remove_segments, decide_False; [apply Hs'|].
    rewrite pruned_path by done. intros [? _]%list_elem_of_filter. done.
Qed.

Context {CH : Chrono} {CRC : Crc32fast}.

Lemma bind_ext_in {A B} (f g : A → list B) l :
  (∀ x, x ∈ l → f x = g x) → l ≫= f = l ≫= g.
Proof.
  induction l as [|x l IH]; intros Hfg; [done|]. cbn.
  rewrite Hfg by (by left). f_equal. apply IH. intros y Hy. apply Hfg. by right.
Qed.

(** Pruning is safe for aligned checkpoints: it removes only segments that start
    before the checkpoint, and when every entry of those is older than the checkpoint,
    replaying from the checkpoint gives the same entries as before, in sequence
    order. *)
Theorem prune_keeps_replay wal_dir now cp d :
  (∀ s e, s ∈ dir_segments d → start_sequence s < cp →
    e ∈ read_segment_entries now d (path s) → we_sequence e < cp) →
  ∃ n d' it it',
    prune_segments_before wal_dir cp (Some d) = Ok (n, Some d') ∧
    replay_from wal_dir now cp (Some d) = Ok it ∧
    replay_from wal_dir now cp (Some d') = Ok it' ∧
    entries it' ≡ₚ entries it ∧ StronglySorted (key_le we_sequence) (entries it') ∧
    (length (dir_segments d') + n = length (dir_segments d))%nat ∧
    ∀ s, s ∈ dir_segments d → cp ≤ start_sequence s → s ∈ dir_segments d'.
Proof.
  intros Hold. cbn. fold (pruned d cp).
  set (d' := remove_segments (pruned d cp) d).
  exists (length (pruned d cp)), d'. eexists _, _. split; [done|]. split; [done|]. split; [done|].
  cbn. pose proof (dir_segments_pruned d cp) as Hp. fold d' in Hp.
  assert (dir_segments d ≡ₚ pruned d cp ++ kept d cp) as Hsplit
    by (symmetry; apply filter_app_complement).
  split_and!.
  - rewrite !sort_by_key_perm. rewrite Hp, Hsplit, bind_app, filter_app.
    rewrite (bind_ext_in (λ s, read_segment_entries now d' (path s))
      (λ s, read_segment_entries now d (path s)) (kept d cp)).
    2:{ intros s Hs. unfold read_segment_entries. f_equal. by apply fs_read_pruned. }
    assert (filter (λ e, cp ≤ we_sequence e)
      (pruned d cp ≫= λ s, read_segment_entries now d (path s)) = []) as ->; [|done].
    apply filter_none, Forall_forall. intros e (s & He & Hs)%list_elem_of_bind.
    apply list_elem_of_filter in Hs as [Hpr Hs]. unfold prunable in Hpr.
    apply andb_true_iff in Hpr as [Hlt%Z.ltb_lt _]. specialize (Hold s e Hs Hlt He). lia.
  - apply sort_by_key_StronglySorted.
  - rewrite Hp, Hsplit, length_app. lia.
  - intros s Hs Hcp. rewrite Hp. apply list_elem_of_filter. split; [|done].
    unfold prunable. rewrite (proj2 (Z.ltb_ge _ _)) by done. done.
Qed.

End listing.
