(* ===== verification/WalRun.v ===== *)
(** * Runs of the log

    A writer over its lifetime: opened on a fresh directory, appending, writing
    checkpoints, syncing and being closed and reopened.  The run records the entries
    acknowledged so far, the log, and how many of them were made durable; the
    invariant ties both to the files. *)

From S2P Require Import Prelude WalEntry WalLog WalFrames WalSegments.
From coqutil Require Import Byte LittleEndianList.
Local Open Scope Z_scope.

Section run.
Context {HI : HashIter string} {CH : Chrono} {CL : ChronoLaws CH} {CRC : Crc32fast}.

(** ** Scanning for the next sequence number *)

Lemma scan_loop_stop fuel pre rest l :
  scan_stops rest → scan_loop fuel (pre ++ rest) (zlength pre) l = l.
Proof.
  intros Hs. destruct fuel as [|fuel]; [done|]. cbn [scan_loop].
  rewrite zslice_prefix by done.
  assert (zlength (pre ++ rest) = zlength pre + zlength rest) as Hl by zlen.
  case_match eqn:H4; [|done]. apply Z.leb_le in H4.
  destruct Hs as [Hs|Hs]; [lia|]. by rewrite (proj2 (Z.ltb_lt _ _)) by lia.
Qed.

Lemma serialize_sequence e rest :
  is_u64 (we_sequence e) → le_combine (zslice 8 8 (serialize e ++ rest)) = we_sequence e.
Proof.
  intros Hs. unfold serialize, serialize_inner. rewrite <- !app_assoc.
  rewrite (app_assoc (le_split 4 _) (le_split 4 _)), zslice_prefix by zlen.
  rewrite zslice_head by zlen. rewrite le_combine_split. by apply Z.mod_small.
Qed.

Lemma scan_loop_entry fuel pre e rest l :
  entry_fits e →
  scan_loop (S fuel) (pre ++ serialize e ++ rest) (zlength pre) l =
  scan_loop fuel (pre ++ serialize e ++ rest) (zlength (pre ++ serialize e))
    (Z.max l (we_sequence e)).
Proof.
  intros He. pose proof (entry_fits_length e He) as Hlen. pose proof (entry_length_bounds e).
  pose proof (zlength_serialize e) as Hz. pose proof (zlength_nonneg pre).
  pose proof (zlength_nonneg rest). cbn [scan_loop].
  assert (zlength (pre ++ serialize e ++ rest) = zlength pre + zlength (serialize e) + zlength rest)
    as Hl by zlen.
  rewrite (proj2 (Z.leb_le _ _)) by lia.
  assert (le_combine (zslice (zlength pre) 4 (pre ++ serialize e ++ rest)) = entry_length e) as ->.
  { rewrite zslice_prefix by done. by apply take_serialize. }
  rewrite (proj2 (Z.ltb_ge _ _)) by lia.
  rewrite (proj2 (Z.leb_le _ (zlength _))) by lia.
  assert (le_combine (zslice (zlength pre + 4 + 4) 8 (pre ++ serialize e ++ rest)) = we_sequence e)
    as ->.
  { replace (zlength pre + 4 + 4) with (zlength pre + 8) by lia.
    rewrite zslice_skip by (zlen || lia). rewrite <- (serialize_sequence e rest) by apply He.
    by replace (zlength pre + 8 - zlength pre) with 8 by lia. }
  rewrite zlength_app, Hz. f_equal. destruct (Z.leb_spec l (we_sequence e)); lia.
Qed.

Definition max_sequence (l : Z) (es : list WalEntry) : Z := foldl Z.max l (we_sequence <$> es).

Lemma scan_loop_entries es : ∀ fuel pre rest l,
  Forall entry_fits es → scan_stops rest → (length (encode_entries es) ≤ fuel)%nat →
  scan_loop fuel (pre ++ encode_entries es ++ rest) (zlength pre) l = max_sequence l es.
Proof.
  induction es as [|e es IH]; intros fuel pre rest l Hok Hst Hfuel.
  - by apply scan_loop_stop.
  - apply Forall_cons in Hok as [He Hok]. rewrite encode_entries_cons in *.
    pose proof (zlength_serialize e) as Hz. pose proof (entry_length_bounds e).
    unfold zlength in Hz. rewrite length_app in Hfuel. destruct fuel as [|fuel]; [lia|].
    rewrite <- app_assoc, scan_loop_entry by done.
    rewrite app_assoc, IH by (done || lia). done.
Qed.

Lemma max_sequence_ge es : ∀ l, l ≤ max_sequence l es.
Proof.
  induction es as [|e es IH]; intros l; cbn; [lia|].
  etrans; [|apply IH]. lia.
Qed.

Lemma max_sequence_elem es : ∀ l e, e ∈ es → we_sequence e ≤ max_sequence l es.
Proof.
  induction es as [|e' es IH]; intros l e; [by intros ?%not_elem_of_nil|].
  cbn. intros [->|Hin]%elem_of_cons; [|by apply IH].
  etrans; [|apply max_sequence_ge]. lia.
Qed.

Lemma max_sequence_lt es : ∀ l n,
  l < n → Forall (λ e, we_sequence e < n) es → max_sequence l es < n.
Proof.
  induction es as [|e es IH]; intros l n Hl Hall; cbn; [done|].
  apply Forall_cons in Hall as [He Hall]. apply IH; [lia|done].
Qed.

(** ** Runs *)

Inductive wal_op :=
| WAppend (e : WalEntry) (c : clock)
| WCheckpointAt (t : DateTime) (c : clock)
| WSync (t : Z)
| WReopen (mode : SyncMode) (max_size : Z) (t : Z).

Record wal_state := {
  ws_writer : WalWriter;
  ws_dir : directory;
  ws_log : list WalEntry;
  ws_durable : nat;
}.

Definition wal_step (s : wal_state) (op : wal_op) : wal_state :=
  let '(w, d) := (ws_writer s, ws_dir s) in
  match op with
  | WAppend e c =>
    let '(n, w', d') := append c e w d in
    let log := ws_log s ++ [with_sequence n e] in
    {| ws_writer := w'; ws_dir := d'; ws_log := log;
       ws_durable := match sync_mode w with Fsync => length log | _ => ws_durable s end |}
  | WCheckpointAt t c =>
    let '(n, w', d') := checkpoint t c w d in
    let log := ws_log s ++ [with_sequence n (checkpoint_entry t)] in
    {| ws_writer := w'; ws_dir := d'; ws_log := log; ws_durable := length log |}
  | WSync t =>
    let '(w', d') := wal_sync t w d in
    {| ws_writer := w'; ws_dir := d'; ws_log := ws_log s; ws_durable := length (ws_log s) |}
  | WReopen mode max_size t =>
    let '(w', d') := open_with_max_size mode max_size t (Some d) in
    {| ws_writer := w'; ws_dir := d'; ws_log := ws_log s; ws_durable := ws_durable s |}
  end.

Definition wal_start (mode : SyncMode) (max_size t : Z) (k : disk) : wal_state :=
  let '(w, d) := open_with_max_size mode max_size t k in
  {| ws_writer := w; ws_dir := d; ws_log := []; ws_durable := 0 |}.

Definition wal_run (s : wal_state) (ops : list wal_op) : wal_state := foldl wal_step s ops.

(** What the theorems ask of the operations: entries that respect their types and the
    reader's limit, and a segment size that leaves room in a [u64]. *)
Definition wal_op_ok (op : wal_op) : Prop :=
  match op with
  | WAppend e _ => utf8_valid (as_bytes (we_entity_id e)) = true ∧ entry_length e ≤ MAX_ENTRY_SIZE
  | WReopen _ max_size _ => 0 ≤ max_size ≤ 2 ^ 63
  | _ => True
  end.

(** No segment file. *)
Definition fresh (k : disk) : Prop :=
  ∀ d name, k = Some d → is_Some (d !! name) → parse_segment_filename name = None.

(** ** The invariant *)

(** The segments before the current one are complete and synced; the current one
    holds the entries [es], of which at least the durable ones are synced. *)
Record wal_inv (older : list (Z * list WalEntry)) (es : list WalEntry) (s : wal_state) : Prop := {
  wi_current : current_segment (ws_writer s) =
    {| path := segment_filename (start_sequence (current_segment (ws_writer s)));
       start_sequence := start_sequence (current_segment (ws_writer s));
       file_size := zlength (encode_entries es) |};
  wi_layout : dir_layout (ws_dir s)
    (prod_map id encode_entries <$>
      older ++ [(start_sequence (current_segment (ws_writer s)), es)]);
  wi_log : ws_log s = (older ≫= snd) ++ es;
  wi_fits : Forall entry_fits (ws_log s);
  wi_sorted : StronglySorted Z.lt (we_sequence <$> ws_log s);
  wi_older : Forall (λ e, we_sequence e < start_sequence (current_segment (ws_writer s)))
    (older ≫= snd);
  wi_next : Forall (λ e, we_sequence e < next_sequence (ws_writer s)) (ws_log s);
  wi_start : start_sequence (current_segment (ws_writer s)) ≤ next_sequence (ws_writer s);
  wi_positive : 0 < next_sequence (ws_writer s);
  wi_size : zlength (encode_entries es) ≤ 2 ^ 63;
  wi_max : 0 ≤ max_segment_size (ws_writer s) ≤ 2 ^ 63;
  wi_synced : ∀ z f, z ∈ older.*1 → ws_dir s !! segment_filename z = Some f →
    f_synced f = length (f_data f);
  wi_durable : ∃ f k,
    ws_dir s !! segment_filename (start_sequence (current_segment (ws_writer s))) = Some f ∧
    (f_synced f ≤ length (f_data f))%nat ∧ (k ≤ length es)%nat ∧
    (length (encode_entries (take k es)) ≤ f_synced f)%nat ∧
    (ws_durable s ≤ length (older ≫= snd) + k)%nat;
}.

Definition wal_ok (s : wal_state) : Prop := ∃ older es, wal_inv older es s.

(** ** The directory under the writer's operations *)

Lemma layout_create d files z :
  dir_layout d files → is_u64 z → Forall (λ z', z' < z) files.*1 →
  dir_layout (<[segment_filename z := empty_file]> d) (files ++ [(z, [])]).
Proof.
  intros Hl Hz Hlt. pose proof (dl_u64 _ _ Hl) as Hu. rewrite Forall_forall in Hlt, Hu. split.
  - intros name z' Hd Hp. rewrite fmap_app, elem_of_app.
    destruct (decide (name = segment_filename z)) as [->|Hne].
    + rewrite parse_segment_filename_name in Hp by done. simplify_eq. split; [done|].
      right. by apply list_elem_of_singleton.
    + rewrite lookup_insert_ne in Hd by done. destruct (dl_only _ _ Hl _ _ Hd Hp). auto.
  - intros z' data [Hin|Hin]%elem_of_app.
    + assert (z' ∈ files.*1) as Hin' by apply (list_elem_of_fmap_2 fst _ _ Hin).
      specialize (Hlt z' Hin'). rewrite lookup_insert_ne; [by apply (dl_file _ _ Hl)|].
      intros ?%segment_filename_inj; [lia|done|by apply Hu].
    + apply list_elem_of_singleton in Hin. simplify_eq. by rewrite lookup_insert_eq.
  - rewrite fmap_app. apply StronglySorted_app_2; [|apply (dl_sorted _ _ Hl)|by repeat constructor].
    intros z' z'' Hin Hz''. apply list_elem_of_singleton in Hz''. cbn in Hz''. subst. by apply Hlt.
  - rewrite fmap_app. apply Forall_app. split; [apply (dl_u64 _ _ Hl)|by apply Forall_singleton].
Qed.

Lemma layout_alter d files z data data' g :
  dir_layout d (files ++ [(z, data)]) →
  (∀ f, f_data f = data → f_data (g f) = data') →
  dir_layout (alter g (segment_filename z) d) (files ++ [(z, data')]).
Proof.
  intros Hl Hg.
  assert ((files ++ [(z, data')]).*1 = (files ++ [(z, data)]).*1) as Hk by by rewrite !fmap_app.
  pose proof (dl_u64 _ _ Hl) as Hu. pose proof (dl_sorted _ _ Hl) as Hs.
  split; [| |by rewrite Hk|by rewrite Hk].
  - intros name z' Hd Hp. rewrite Hk. apply (dl_only _ _ Hl); [|done].
    destruct (decide (name = segment_filename z)) as [->|Hne].
    + rewrite lookup_alter_eq in Hd. by apply fmap_is_Some in Hd.
    + by rewrite lookup_alter_ne in Hd.
  - intros z' x [Hin|Hin]%elem_of_app.
    + assert (z' ∈ files.*1) as Hin' by apply (list_elem_of_fmap_2 fst _ _ Hin).
      rewrite fmap_app in Hs, Hu. apply Forall_app in Hu as [Hu1 Hu2].
      assert (z' < z) by (eapply StronglySorted_app_1_elem_of; [exact Hs|done|by left]).
      rewrite lookup_alter_ne; [apply (dl_file _ _ Hl), elem_of_app; by left|].
      rewrite Forall_forall in Hu1, Hu2.
      intros Heq%segment_filename_inj; [lia|apply Hu2; by left|by apply Hu1].
    + apply list_elem_of_singleton in Hin. simplify_eq. rewrite lookup_alter_eq.
      assert (f_data <$> d !! segment_filename z = Some data) as Hf
        by (apply (dl_file _ _ Hl), elem_of_app; right; by left).
      apply fmap_Some in Hf as (f & -> & ->). cbn. f_equal. by apply Hg.
Qed.

Lemma layout_names (older : list (Z * list WalEntry)) z es :
  (prod_map id encode_entries <$> older ++ [(z, es)]) =
  (prod_map id encode_entries <$> older) ++ [(z, encode_entries es)].
Proof. by rewrite fmap_app. Qed.

Lemma layout_keys (older : list (Z * list WalEntry)) :
  (prod_map id encode_entries <$> older).*1 = older.*1.
Proof. rewrite <- list_fmap_compose. apply list_fmap_ext. by intros ? []. Qed.

(** ** Steps of an operation *)

Definition set_ws (w : WalWriter) (d : directory) (s : wal_state) : wal_state :=
  {| ws_writer := w; ws_dir := d; ws_log := ws_log s; ws_durable := ws_durable s |}.

Lemma inv_set_next older es s n :
  wal_inv older es s → next_sequence (ws_writer s) ≤ n →
  wal_inv older es (set_ws (set_next_sequence n (ws_writer s)) (ws_dir s) s).
Proof.
  intros Hi Hn. destruct Hi. split; cbn; try done; [|lia..].
  eapply Forall_impl; [done|]. cbn. lia.
Qed.

Lemma inv_set_last_sync older es s t :
  wal_inv older es s → wal_inv older es (set_ws (set_last_sync t (ws_writer s)) (ws_dir s) s).
Proof. intros []. by split. Qed.

Lemma inv_current_path older es s :
  wal_inv older es s →
  path (current_segment (ws_writer s)) =
    segment_filename (start_sequence (current_segment (ws_writer s))).
Proof. intros Hi. by rewrite (wi_current _ _ _ Hi). Qed.

Lemma inv_start_u64 older es s z :
  wal_inv older es s → z ∈ older.*1 ++ [start_sequence (current_segment (ws_writer s))] →
  is_u64 z ∧ z ≤ start_sequence (current_segment (ws_writer s)) ∧
  (z ∈ older.*1 → z < start_sequence (current_segment (ws_writer s))).
Proof.
  intros Hi Hz. pose proof (wi_layout _ _ _ Hi) as Hl.
  pose proof (dl_u64 _ _ Hl) as Hu. pose proof (dl_sorted _ _ Hl) as Hs.
  rewrite layout_names, fmap_app, layout_keys in Hu, Hs. cbn in Hu, Hs.
  rewrite Forall_forall in Hu. split; [by apply Hu|].
  assert (z ∈ older.*1 → z < start_sequence (current_segment (ws_writer s))) as Hlt.
  { intros Hin. eapply StronglySorted_app_1_elem_of; [exact Hs|done|by left]. }
  split; [|done]. apply elem_of_app in Hz as [Hz|Hz].
  - specialize (Hlt Hz). lia.
  - apply list_elem_of_singleton in Hz as ->. done.
Qed.

Lemma inv_sync older es s n :
  wal_inv older es s → (n ≤ length (ws_log s))%nat →
  wal_inv older es
    {| ws_writer := ws_writer s; ws_dir := sync_all (ws_writer s) (ws_dir s);
       ws_log := ws_log s; ws_durable := n |}.
Proof.
  intros Hi Hn. pose proof (inv_current_path _ _ _ Hi) as Hp.
  pose proof (inv_start_u64 _ _ _ (start_sequence (current_segment (ws_writer s))) Hi) as Hcur.
  pose proof (λ z, inv_start_u64 _ _ _ z Hi) as Hu. destruct Hi. split; cbn; try done.
  - unfold sync_all. rewrite Hp, layout_names in *. eapply layout_alter; [done|]. by intros f Hf.
  - intros z f Hz. unfold sync_all. rewrite Hp, lookup_alter_ne; [by apply wi_synced0|].
    destruct (Hu z) as (Hz1 & _ & Hz2); [apply elem_of_app; by left|]. specialize (Hz2 Hz).
    intros Heq%segment_filename_inj; [lia| |done]. apply Hu, elem_of_app. right. by left.
  - destruct wi_durable0 as (f & k & Hf & _). exists (f_sync f), (length es).
    unfold sync_all. rewrite Hp, lookup_alter_eq, Hf. cbn. rewrite firstn_all.
    assert (f_data f = encode_entries es) as Hfd.
    { pose proof (dl_file _ _ wi_layout0 (start_sequence (current_segment (ws_writer s)))
        (encode_entries es)) as Hd. rewrite Hf in Hd. cbn in Hd.
      assert (Some (f_data f) = Some (encode_entries es)) as Heq; [|by simplify_eq].
      apply Hd. rewrite layout_names. apply elem_of_app. right. by left. }
    rewrite Hfd. rewrite wi_log0, length_app in Hn. split_and!; [done|lia..].
Qed.

Lemma inv_durable_le older es s : wal_inv older es s → (ws_durable s ≤ length (ws_log s))%nat.
Proof.
  intros Hi. destruct (wi_durable _ _ _ Hi) as (f & k & _ & _ & Hk & _ & Hd).
  rewrite (wi_log _ _ _ Hi), length_app. lia.
Qed.

(** The current segment is on disk with the bytes of its entries. *)
Lemma inv_current_file older es s :
  wal_inv older es s →
  ∃ f, ws_dir s !! segment_filename (start_sequence (current_segment (ws_writer s))) = Some f ∧
    f_data f = encode_entries es.
Proof.
  intros Hi. assert (∃ f, ws_dir s !! segment_filename
    (start_sequence (current_segment (ws_writer s))) = Some f ∧ encode_entries es = f_data f)
    as (f & ? & ?); [|by exists f].
  apply fmap_Some, (dl_file _ _ (wi_layout _ _ _ Hi)). rewrite layout_names.
  apply elem_of_app. right. by left.
Qed.

Lemma inv_rotate older es s t :
  wal_inv older es s →
  start_sequence (current_segment (ws_writer s)) < next_sequence (ws_writer s) →
  is_u64 (next_sequence (ws_writer s)) →
  let '(w', d') := rotate t (ws_writer s) (ws_dir s) in
  wal_inv (older ++ [(start_sequence (current_segment (ws_writer s)), es)]) []
    (set_ws w' d' s).
Proof.
  intros Hi Hlt Hu. cbn. set (z := start_sequence (current_segment (ws_writer s))) in *.
  pose proof (inv_sync _ _ _ _ Hi (inv_durable_le _ _ _ Hi)) as Hi1.
  assert (∀ z' f, z' ∈ (older ++ [(z, es)]).*1 →
    sync_all (ws_writer s) (ws_dir s) !! segment_filename z' = Some f →
    f_synced f = length (f_data f)) as Hsync.
  { intros z' f. rewrite fmap_app, elem_of_app. intros [Hz|Hz].
    - by apply (wi_synced _ _ _ Hi1).
    - apply list_elem_of_singleton in Hz. cbn in Hz. subst z'. unfold sync_all.
      rewrite (inv_current_path _ _ _ Hi), lookup_alter_eq. by intros (f0 & _ & ->)%fmap_Some. }
  assert (∀ z', z' ∈ (older ++ [(z, es)]).*1 → z' < next_sequence (ws_writer s) ∧ is_u64 z')
    as Hlts.
  { intros z' Hz. rewrite fmap_app in Hz.
    destruct (inv_start_u64 _ _ _ z' Hi Hz) as (? & Hle & _). fold z in Hle. split; [lia|done]. }
  pose proof (inv_durable_le _ _ _ Hi) as Hdur. destruct Hi1. cbn in *. fold z in wi_layout0.
  split; cbn; try done; try lia.
  - rewrite layout_names. apply layout_create; [done..|]. rewrite layout_keys.
    apply Forall_forall. intros z' Hz'. by apply Hlts.
  - by rewrite bind_app, app_nil_r, wi_log0; cbn; rewrite app_nil_r.
  - rewrite bind_app. cbn. rewrite app_nil_r. by rewrite <- wi_log0.
  - intros z' f Hz'. destruct (Hlts z' Hz') as [? ?]. rewrite lookup_insert_ne; [by apply Hsync|].
    intros ?%segment_filename_inj; [lia|done..].
  - exists empty_file, 0%nat. rewrite lookup_insert_eq. split_and!; [done|cbn;lia..|].
    rewrite bind_app. cbn. rewrite app_nil_r, <- wi_log0. lia.
Qed.

Lemma inv_write older es s e :
  wal_inv older es s → entry_fits e →
  Forall (λ e', we_sequence e' < we_sequence e) (ws_log s) →
  we_sequence e < next_sequence (ws_writer s) →
  zlength (encode_entries es) + zlength (serialize e) ≤ 2 ^ 63 →
  let '(w', d') := write_all (serialize e) (ws_writer s) (ws_dir s) in
  wal_inv older (es ++ [e])
    {| ws_writer := w'; ws_dir := d'; ws_log := ws_log s ++ [e]; ws_durable := ws_durable s |}.
Proof.
  intros Hi Hfit Hlast Hnext Hsize. cbn. pose proof (inv_current_path _ _ _ Hi) as Hp.
  destruct (inv_current_file _ _ _ Hi) as (f0 & Hf0 & Hdata).
  pose proof (λ z, inv_start_u64 _ _ _ z Hi) as Hu.
  assert (encode_entries (es ++ [e]) = encode_entries es ++ serialize e) as Henc
    by (rewrite encode_entries_app; cbn; by rewrite app_nil_r).
  pose proof (zlength_nonneg (encode_entries es)). pose proof (zlength_nonneg (serialize e)).
  destruct Hi. split; cbn; try done.
  - rewrite Hp, Henc, zlength_app. f_equal. rewrite wi_current0. cbn. apply u64_add_small. red. lia.
  - rewrite Hp, layout_names in *. rewrite Henc. eapply layout_alter; [done|].
    intros f Hf. cbn. by rewrite Hf.
  - by rewrite wi_log0, app_assoc.
  - apply Forall_app. split; [done|]. by apply Forall_singleton.
  - rewrite fmap_app. apply StronglySorted_app_2; [|done|by repeat constructor].
    intros x1 x2 Hx1 Hx2. apply list_elem_of_singleton in Hx2 as ->.
    apply list_elem_of_fmap in Hx1 as (e1 & -> & He1).
    rewrite Forall_forall in Hlast. by apply Hlast.
  - apply Forall_app. split; [done|]. by apply Forall_singleton.
  - rewrite Henc, zlength_app. lia.
  - intros z f Hz. rewrite Hp, lookup_alter_ne; [by apply wi_synced0|].
    destruct (Hu z) as (Hz1 & _ & Hz2); [apply elem_of_app; by left|]. specialize (Hz2 Hz).
    intros Heq%segment_filename_inj; [lia| |done]. apply Hu, elem_of_app. right. by left.
  - destruct wi_durable0 as (f & k & Hf & Hs & Hk & Hb & Hd). rewrite Hf in Hf0. simplify_eq.
    exists (f_append (serialize e) f0), k. rewrite Hp, lookup_alter_eq, Hf. cbn.
    rewrite !length_app, take_app_le by done. split_and!; [done|lia..].
Qed.

(** The writer rotates when the entry would overflow the segment; either way there is
    then room for it. *)
Lemma inv_make_room older es s t len :
  wal_inv older es s →
  start_sequence (current_segment (ws_writer s)) < next_sequence (ws_writer s) →
  is_u64 (next_sequence (ws_writer s)) → 0 ≤ len < 2 ^ 63 →
  ∃ older' es' w' d',
    (if max_segment_size (ws_writer s) <? u64_add (file_size (current_segment (ws_writer s))) len
     then rotate t (ws_writer s) (ws_dir s) else (ws_writer s, ws_dir s)) = (w', d') ∧
    wal_inv older' es' (set_ws w' d' s) ∧
    next_sequence w' = next_sequence (ws_writer s) ∧ sync_mode w' = sync_mode (ws_writer s) ∧
    zlength (encode_entries es') + len ≤ 2 ^ 63.
Proof.
  intros Hi Hlt Hu Hlen. pose proof (wi_max _ _ _ Hi) as Hmax.
  pose proof (wi_size _ _ _ Hi) as Hsz. pose proof (zlength_nonneg (encode_entries es)).
  case_match eqn:Hfull.
  - pose proof (inv_rotate _ _ _ t Hi Hlt Hu) as Hr. cbn in Hr.
    eexists _, _, _, _. split; [done|]. split; [exact Hr|].
    split_and!; [done..|]. cbn. rewrite zlength_nil. lia.
  - exists older, es, (ws_writer s), (ws_dir s). split_and!; [done|by destruct s|done..|].
    apply Z.ltb_ge in Hfull.
    rewrite (wi_current _ _ _ Hi), u64_add_small in Hfull by (red; cbn; lia). cbn in Hfull. lia.
Qed.

Lemma inv_maybe_sync older es s t0 t1 :
  wal_inv older es s →
  let '(w', d') := maybe_sync t0 t1 (ws_writer s) (ws_dir s) in
  wal_inv older es
    {| ws_writer := w'; ws_dir := d'; ws_log := ws_log s;
       ws_durable := match sync_mode (ws_writer s) with
                     | Fsync => length (ws_log s) | _ => ws_durable s end |} ∧
  next_sequence w' = next_sequence (ws_writer s) ∧ sync_mode w' = sync_mode (ws_writer s).
Proof.
  intros Hi. unfold maybe_sync.
  assert (∀ n, (n ≤ length (ws_log s))%nat → wal_inv older es
    {| ws_writer := set_last_sync t1 (ws_writer s); ws_dir := sync_all (ws_writer s) (ws_dir s);
       ws_log := ws_log s; ws_durable := n |}) as Hsync.
  { intros n Hn. by apply (inv_set_last_sync _ _ _ t1 (inv_sync _ _ _ n Hi Hn)). }
  destruct (sync_mode (ws_writer s)) eqn:Hm; [| |by destruct s].
  - split; [by apply Hsync|done].
  - destruct (interval <=? _); [|by destruct s]. split; [by apply Hsync, (inv_durable_le _ _ _ Hi)|done].
Qed.

#[local] Arguments u64_add : simpl never.
#[local] Arguments rotate : simpl never.
#[local] Arguments maybe_sync : simpl never.
#[local] Arguments serialize : simpl never.

Lemma inv_append older es s e c :
  wal_inv older es s → is_u64 (next_sequence (ws_writer s) + 1) →
  utf8_valid (as_bytes (we_entity_id e)) = true → entry_length e ≤ MAX_ENTRY_SIZE →
  let s' := wal_step s (WAppend e c) in
  wal_ok s' ∧ next_sequence (ws_writer s') = next_sequence (ws_writer s) + 1 ∧
  sync_mode (ws_writer s') = sync_mode (ws_writer s).
Proof.
  intros Hi Hu Hutf Hlen. pose proof (wi_positive _ _ _ Hi) as Hpos.
  pose proof (wi_start _ _ _ Hi) as Hstart. pose proof (wi_next _ _ _ Hi) as Hnext.
  unfold is_u64 in Hu. set (n := next_sequence (ws_writer s)) in *.
  set (e' := with_sequence n e).
  assert (entry_fits e') as Hfit by (split; [split; [red; cbn; lia|done]|done]).
  assert (0 ≤ zlength (serialize e') < 2 ^ 63) as Hz.
  { rewrite zlength_serialize. pose proof (entry_length_bounds e').
    destruct Hfit as [_ Hmax]. unfold MAX_ENTRY_SIZE in Hmax. lia. }
  assert (u64_add n 1 = n + 1) as Hn by (apply u64_add_small; red; lia).
  pose proof (inv_set_next _ _ _ (n + 1) Hi ltac:(lia)) as Hi1.
  destruct (inv_make_room _ _ _ (c 0%nat) (zlength (serialize e')) Hi1)
    as (older' & es' & w2 & d2 & Hrot & Hi2 & Hn2 & Hm2 & Hs2); [cbn; lia|red; cbn; lia|done|].
  cbn in Hrot, Hn2, Hm2.
  pose proof (inv_write _ _ _ e' Hi2 Hfit Hnext ltac:(cbn; rewrite Hn2; lia) Hs2) as Hi3.
  intros s'. unfold wal_step, append in s'. subst s'. cbv zeta. fold n. rewrite Hn. fold e'.
  cbn in Hi3 |- *. rewrite Hrot.
  pose proof (inv_maybe_sync _ _ _ (c 1%nat) (c 2%nat) Hi3) as Hi4. cbn in Hi4.
  destruct (maybe_sync _ _ _ _) as [w4 d4]. destruct Hi4 as (Hi4 & Hn4 & Hm4).
  cbn. rewrite Hn4, Hm4, Hm2. split_and!; [|cbn; by rewrite Hn2|done].
  rewrite <- Hm2. by exists older', (es' ++ [e']).
Qed.

Lemma inv_wsync older es s t :
  wal_inv older es s → wal_inv older es (wal_step s (WSync t)).
Proof.
  intros Hi. apply (inv_set_last_sync _ _ _ t (inv_sync _ _ _ (length (ws_log s)) Hi (le_n _))).
Qed.

(** A checkpoint is an append and a sync. *)
Lemma checkpoint_step s t c :
  wal_step s (WCheckpointAt t c) =
  wal_step (wal_step s (WAppend (checkpoint_entry t) c)) (WSync (c 3%nat)).
Proof.
  unfold wal_step, checkpoint.
  by destruct (append c (checkpoint_entry t) (ws_writer s) (ws_dir s)) as [[n w] d].
Qed.

(** What [open] recovers from a directory of complete segments, the last one possibly
    torn. *)
Lemma open_existing d files z es rest mode max_size t :
  dir_layout d (files ++ [(z, encode_entries es ++ rest)]) →
  Forall entry_fits es → scan_stops rest →
  open_with_max_size mode max_size t (Some d) =
  ({| current_segment := {| path := segment_filename z; start_sequence := z;
                            file_size := zlength (encode_entries es ++ rest) |};
      next_sequence := u64_add (max_sequence z es) 1; max_segment_size := max_size;
      sync_mode := mode; last_sync := t |}, d).
Proof.
  intros Hl Hfit Hrest. unfold open_with_max_size. cbn [default].
  rewrite (dir_layout_segments _ _ Hl), fmap_app.
  change (layout_segment <$> [?x]) with [layout_segment x]. rewrite last_snoc.
  unfold layout_segment at 1. cbn [fst snd].
  do 2 f_equal. unfold scan_last_sequence, layout_segment. cbn [file_size path start_sequence fst snd id].
  rewrite (dir_layout_read d _ z (encode_entries es ++ rest) Hl)
    by (apply elem_of_app; right; by left).
  assert (scan_loop (length (encode_entries es ++ rest)) (encode_entries es ++ rest) 0 z =
    max_sequence z es) as Hscan.
  { apply (scan_loop_entries es _ [] rest z Hfit Hrest). rewrite length_app. lia. }
  destruct (Z.eqb_spec (zlength (encode_entries es ++ rest)) 0) as [H0|_]; [|by rewrite Hscan].
  rewrite <- Hscan.
  apply (f_equal Z.to_nat) in H0. unfold zlength in H0. rewrite Nat2Z.id in H0. by rewrite H0.
Qed.

Lemma inv_reopen older es s mode max_size t :
  wal_inv older es s → is_u64 (next_sequence (ws_writer s) + 1) → 0 ≤ max_size ≤ 2 ^ 63 →
  let s' := wal_step s (WReopen mode max_size t) in
  wal_inv older es s' ∧ next_sequence (ws_writer s') ≤ next_sequence (ws_writer s) + 1.
Proof.
  intros Hi Hu Hmax. unfold is_u64 in Hu. pose proof (wi_layout _ _ _ Hi) as Hl.
  pose proof (inv_start_u64 _ _ _ (start_sequence (current_segment (ws_writer s))) Hi) as Hz.
  destruct Hz as [Hz _]; [apply elem_of_app; right; by left|]. unfold is_u64 in Hz.
  assert (Forall entry_fits es) as Hfit.
  { pose proof (wi_fits _ _ _ Hi) as Hf. rewrite (wi_log _ _ _ Hi) in Hf.
    by apply Forall_app in Hf as [_ Hf]. }
  rewrite layout_names, <- (app_nil_r (encode_entries es)) in Hl.
  cbn. rewrite (open_existing _ _ _ _ _ mode max_size t Hl Hfit) by by left.
  rewrite app_nil_r. cbn. set (z := start_sequence (current_segment (ws_writer s))) in *.
  pose proof (wi_next _ _ _ Hi) as Hnext. pose proof (wi_start _ _ _ Hi) as Hstart. fold z in Hstart.
  pose proof (max_sequence_ge es z) as Hge.
  assert (max_sequence z es < next_sequence (ws_writer s) + 1) as Hlt.
  { apply max_sequence_lt; [lia|]. rewrite (wi_log _ _ _ Hi) in Hnext.
    apply Forall_app in Hnext as [_ Hnext]. eapply Forall_impl; [done|]. cbn. lia. }
  rewrite u64_add_small by (red; lia). split; [|lia].
  subst z. destruct Hi. split; cbn; try done; try lia.
  rewrite wi_log0. apply Forall_app. split.
  - eapply Forall_impl; [done|]. cbn. lia.
  - apply Forall_forall. intros e He. pose proof (max_sequence_elem es (start_sequence (current_segment (ws_writer s))) e He). lia.
Qed.

Lemma inv_start mode max_size t k :
  fresh k → 0 ≤ max_size ≤ 2 ^ 63 →
  wal_inv [] [] (wal_start mode max_size t k) ∧
  next_sequence (ws_writer (wal_start mode max_size t k)) = 1.
Proof.
  intros Hf Hmax. unfold wal_start, open_with_max_size.
  assert (∀ name z, is_Some (default ∅ k !! name) → parse_segment_filename name ≠ Some z) as Hd.
  { intros name z. destruct k as [d|]; cbn; [|intros [? ?]; done].
    intros Hn. by rewrite (Hf d name eq_refl Hn). }
  assert (dir_segments (default ∅ k) = []) as ->.
  { destruct (dir_segments (default ∅ k)) as [|s l] eqn:Hs; [done|].
    assert (s ∈ dir_segments (default ∅ k)) as Hin by (rewrite Hs; by left).
    apply elem_of_dir_segments in Hin as (Hn & Hp & _). by apply Hd in Hp. }
  cbn. split; [|done]. split; cbn; try done; try lia.
  - assert (dir_layout (default ∅ k) []) as Hl.
    { split; [|by intros ? ? ?%not_elem_of_nil|constructor..].
      intros name z Hn Hp. by apply Hd in Hp. }
    apply (layout_create _ [] 0 Hl); [red; lia|constructor].
  - constructor.
  - by intros z f ?%not_elem_of_nil.
  - exists empty_file, 0%nat. rewrite lookup_insert_eq. split_and!; done.
Qed.

(** ** The invariant of runs *)

Lemma wal_ok_step s op :
  wal_ok s → wal_op_ok op → is_u64 (next_sequence (ws_writer s) + 1) →
  wal_ok (wal_step s op) ∧
  next_sequence (ws_writer (wal_step s op)) ≤ next_sequence (ws_writer s) + 1.
Proof.
  intros (older & es & Hi) Hop Hu. destruct op as [e c|t c|t|mode max_size t].
  - destruct Hop as [Hutf Hlen]. destruct (inv_append _ _ _ _ c Hi Hu Hutf Hlen) as (? & -> & _).
    split; [done|lia].
  - rewrite checkpoint_step.
    destruct (inv_append _ _ _ (checkpoint_entry t) c Hi Hu) as ((o & e & Hi') & Hn & _);
      [done|done|].
    split; [by exists o, e; apply inv_wsync|]. cbn -[wal_step]. 
    change (next_sequence (ws_writer (wal_step ?s (WSync _)))) with (next_sequence (ws_writer s)).
    lia.
  - split; [by exists older, es; apply inv_wsync|]. cbn. lia.
  - destruct (inv_reopen _ _ _ mode max_size t Hi Hu Hop). split; [|done]. by exists older, es.
Qed.

Lemma wal_ok_run ops : ∀ s,
  wal_ok s → Forall wal_op_ok ops →
  next_sequence (ws_writer s) + Z.of_nat (length ops) < 2 ^ 64 →
  wal_ok (wal_run s ops) ∧
  next_sequence (ws_writer (wal_run s ops)) ≤ next_sequence (ws_writer s) + Z.of_nat (length ops).
Proof.
  induction ops as [|op ops IH]; intros s Hs Hall Hn; [split; [done|cbn; lia]|].
  apply Forall_cons in Hall as [Hop Hall]. cbn [length] in Hn.
  assert (0 < next_sequence (ws_writer s)) by (destruct Hs as (? & ? & []); lia).
  destruct (wal_ok_step s op Hs Hop) as [Hs' Hn']; [red; lia|].
  destruct (IH (wal_step s op) Hs' Hall) as [? ?]; [lia|]. split; [done|]. cbn [length]. 
  change (wal_run s (op :: ops)) with (wal_run (wal_step s op) ops). lia.
Qed.

Lemma wal_ok_start_run mode max_size t k ops :
  fresh k → 0 ≤ max_size ≤ 2 ^ 63 → Forall wal_op_ok ops → Z.of_nat (length ops) < 2 ^ 63 →
  let s := wal_run (wal_start mode max_size t k) ops in
  wal_ok s ∧ is_u64 (next_sequence (ws_writer s) + 1).
Proof.
  intros Hf Hmax Hops Hlen s. destruct (inv_start mode max_size t k Hf Hmax) as [Hi Hn].
  destruct (wal_ok_run ops (wal_start mode max_size t k)) as [Hs Hn'];
    [by exists [], []|done|rewrite Hn; lia|].
  split; [done|]. fold s in Hs, Hn'. destruct Hs as (? & ? & []). red. lia.
Qed.

End run.
