(* ===== verification/WalProps.v ===== *)
(** * What the log guarantees

    Replay after a clean shutdown, the crash model and recovery, and the last
    checkpoint, for every run of the writer. *)

From S2P Require Import Prelude WalEntry WalLog WalFrames WalSegments WalRun.
From coqutil Require Import Byte LittleEndianList.
Local Open Scope Z_scope.

Section props.
Context {HI : HashIter string} {CH : Chrono} {CL : ChronoLaws CH} {CRC : Crc32fast}.

(** ** Replaying a directory *)

Definition file_entries (now : DateTime) (f : Z * list byte) : list WalEntry :=
  read_entries now f.2.

Lemma layout_read now d files f :
  dir_layout d files → f ∈ files →
  read_segment_entries now d (path (layout_segment f)) = file_entries now f.
Proof.
  intros Hl Hf. destruct f as [z data]. unfold read_segment_entries. cbn.
  by rewrite (dir_layout_read _ _ z data Hl).
Qed.

Lemma layout_entries now d files :
  dir_layout d files →
  (dir_segments d ≫= λ s, read_segment_entries now d (path s)) = files ≫= file_entries now.
Proof.
  intros Hl. rewrite (dir_layout_segments _ _ Hl), list_fmap_bind. apply bind_ext_in.
  intros f Hf. by apply (layout_read now d files).
Qed.

Lemma layout_replay wal_dir now n d files :
  dir_layout d files →
  replay_from wal_dir now n (Some d) =
  Ok {| entries := sort_by_key we_sequence
          (filter (λ e, n ≤ we_sequence e) (files ≫= file_entries now)); position := 0 |}.
Proof. intros Hl. unfold replay_from. cbn. by rewrite (layout_entries _ _ _ Hl). Qed.

Lemma foldl_length_bind {A B} (f : A → list B) l : ∀ n,
  foldl (λ c x, c + length (f x))%nat n l = (n + length (l ≫= f))%nat.
Proof.
  induction l as [|x l IH]; intros n; cbn; [lia|]. rewrite IH, length_app. lia.
Qed.

Lemma layout_count wal_dir now d files :
  dir_layout d files →
  entry_count wal_dir now (Some d) = Ok (length (files ≫= file_entries now)).
Proof.
  intros Hl. unfold entry_count. cbn. rewrite foldl_length_bind. by rewrite (layout_entries _ _ _ Hl).
Qed.

(** ** The last checkpoint *)

Definition is_checkpoint (e : WalEntry) : Prop := we_operation e = WCheckpoint.

#[export] Instance is_checkpoint_dec e : Decision (is_checkpoint e).
Proof. unfold is_checkpoint. apply _. Defined.

Lemma filter_reverse {A} (P : A → Prop) `{∀ x, Decision (P x)} (l : list A) :
  filter P (reverse l) = reverse (filter P l).
Proof.
  induction l as [|x l IH]; [done|]. rewrite reverse_cons, filter_app, IH, filter_cons.
  rewrite filter_cons, filter_nil. case_decide; [by rewrite reverse_cons|by rewrite app_nil_r].
Qed.

Lemma segment_checkpoint_last es :
  segment_checkpoint es = we_sequence <$> last (filter is_checkpoint es).
Proof.
  unfold segment_checkpoint. fold is_checkpoint.
  change (filter (λ e, we_operation e = WCheckpoint) (reverse es))
    with (filter is_checkpoint (reverse es)).
  rewrite filter_reverse, head_reverse. done.
Qed.

Lemma last_checkpoint_spec now d segs :
  last_checkpoint_in now d (reverse segs) =
  we_sequence <$>
    last (filter is_checkpoint (segs ≫= λ s, read_segment_entries now d (path s))).
Proof.
  induction segs as [|s segs IH] using rev_ind; [done|].
  rewrite reverse_snoc, bind_app, filter_app, last_app. cbn. rewrite app_nil_r, IH.
  rewrite segment_checkpoint_last. by destruct (last (filter is_checkpoint (read_segment_entries _ _ _))).
Qed.

(** ** Clean runs *)

Lemma read_entries_sequences now (es : list WalEntry) :
  we_sequence <$> (reread now <$> es) = we_sequence <$> es.
Proof. rewrite <- list_fmap_compose. by apply list_fmap_ext. Qed.

Lemma encoded_entries now (segs : list (Z * list WalEntry)) :
  Forall entry_fits (segs ≫= snd) →
  (prod_map id encode_entries <$> segs) ≫= file_entries now = reread now <$> (segs ≫= snd).
Proof.
  induction segs as [|[z es] segs IH]; [done|]. cbn. intros [H1 H2]%Forall_app.
  rewrite fmap_app, <- IH by done. f_equal. by apply read_entries_encode.
Qed.

Lemma filter_reread now n (es : list WalEntry) :
  filter (λ e, n ≤ we_sequence e) (reread now <$> es) =
  reread now <$> filter (λ e, n ≤ we_sequence e) es.
Proof.
  induction es as [|e es IH]; [done|]. rewrite fmap_cons, !filter_cons. cbn.
  case_decide; by rewrite IH.
Qed.

Lemma filter_checkpoints now (es : list WalEntry) :
  filter is_checkpoint (reread now <$> es) = reread now <$> filter is_checkpoint es.
Proof.
  induction es as [|e es IH]; [done|]. rewrite fmap_cons.
  destruct (decide (is_checkpoint e)) as [He|He].
  - rewrite !filter_cons_True by done. by rewrite IH.
  - rewrite !filter_cons_False by done. done.
Qed.

Lemma sorted_filter {A} (R : relation A) (P : A → Prop) `{∀ x, Decision (P x)} (l : list A) :
  StronglySorted R l → StronglySorted R (filter P l).
Proof.
  induction 1 as [|x l _ IH Hall]; [constructor|]. rewrite filter_cons. case_decide; [|done].
  constructor; [done|]. rewrite Forall_forall in Hall |- *.
  intros y [_ Hy]%list_elem_of_filter. by apply Hall.
Qed.

Lemma sorted_sequences (es : list WalEntry) :
  StronglySorted Z.lt (we_sequence <$> es) → StronglySorted (key_le we_sequence) es.
Proof.
  induction es as [|e es IH]; [constructor|]. cbn. intros [Hs Hall]%StronglySorted_inv.
  constructor; [by apply IH|]. rewrite Forall_fmap in Hall.
  eapply Forall_impl; [done|]. unfold key_le. cbn. lia.
Qed.

Lemma inv_files older es s now :
  wal_inv older es s →
  (prod_map id encode_entries <$>
     older ++ [(start_sequence (current_segment (ws_writer s)), es)]) ≫= file_entries now =
  reread now <$> ws_log s.
Proof.
  intros Hi. pose proof (wi_fits _ _ _ Hi) as Hf. rewrite (wi_log _ _ _ Hi) in Hf |- *.
  rewrite encoded_entries by by rewrite bind_app; cbn; rewrite app_nil_r.
  rewrite bind_app. cbn. by rewrite app_nil_r.
Qed.

Lemma sort_log now n (es : list WalEntry) :
  StronglySorted Z.lt (we_sequence <$> es) →
  sort_by_key we_sequence (filter (λ e, n ≤ we_sequence e) (reread now <$> es)) =
  reread now <$> filter (λ e, n ≤ we_sequence e) es.
Proof.
  intros Hs. rewrite sort_by_key_sorted; [by apply filter_reread|].
  apply sorted_filter, sorted_sequences. by rewrite read_entries_sequences.
Qed.

(** C11: The log is complete and ordered: for every run of the writer from a fresh
    directory, over appends, checkpoints, syncs, rotations on the way and clean
    reopenings, replaying from any sequence number returns exactly the acknowledged
    entries from that number on, in the order they were acknowledged, with strictly
    increasing sequence numbers; the entry count and the last checkpoint agree. *)
Theorem replay_returns_log wal_dir now mode max_size t k ops n :
  fresh k → 0 ≤ max_size ≤ 2 ^ 63 → Forall wal_op_ok ops → Z.of_nat (length ops) < 2 ^ 63 →
  let s := wal_run (wal_start mode max_size t k) ops in
  replay_from wal_dir now n (Some (ws_dir s)) =
    Ok {| entries := reread now <$> filter (λ e, n ≤ we_sequence e) (ws_log s); position := 0 |} ∧
  StronglySorted Z.lt (we_sequence <$> ws_log s) ∧
  entry_count wal_dir now (Some (ws_dir s)) = Ok (length (ws_log s)) ∧
  find_last_checkpoint wal_dir now (Some (ws_dir s)) =
    Ok (we_sequence <$> last (filter is_checkpoint (ws_log s))).
Proof.
  intros Hf Hmax Hops Hlen s.
  destruct (wal_ok_start_run mode max_size t k ops Hf Hmax Hops Hlen) as [(older & es & Hi) _].
  fold s in Hi. pose proof (wi_layout _ _ _ Hi) as Hl. pose proof (wi_sorted _ _ _ Hi) as Hs.
  split_and!; [|done| |].
  - rewrite (layout_replay _ _ _ _ _ Hl), (inv_files _ _ _ _ Hi). by rewrite sort_log.
  - by rewrite (layout_count _ _ _ _ Hl), (inv_files _ _ _ _ Hi), length_fmap.
  - unfold find_last_checkpoint. cbn. rewrite last_checkpoint_spec, (layout_entries _ _ _ Hl).
    rewrite (inv_files _ _ _ _ Hi), filter_checkpoints, fmap_last.
    by destruct (last (filter is_checkpoint (ws_log s))).
Qed.

(** ** Crashes *)

(** What a crash may leave of a file: any prefix that holds what was synced.  The
    directory entries survive. *)
Definition file_crashed (f f' : file) : Prop :=
  ∃ n, (f_synced f ≤ n)%nat ∧ f' = f_sync {| f_data := take n (f_data f); f_synced := 0 |}.

Definition crashed (d d' : directory) : Prop :=
  ∀ name, option_Forall2 file_crashed (d !! name) (d' !! name).

Lemma crashed_l d d' name f :
  crashed d d' → d !! name = Some f → ∃ f', d' !! name = Some f' ∧ file_crashed f f'.
Proof. intros Hc Hf. specialize (Hc name). rewrite Hf in Hc. inversion Hc; subst. by eexists. Qed.

Lemma crashed_r d d' name f' :
  crashed d d' → d' !! name = Some f' → ∃ f, d !! name = Some f ∧ file_crashed f f'.
Proof. intros Hc Hf. specialize (Hc name). rewrite Hf in Hc. inversion Hc; subst. by eexists. Qed.

(** A cut of an encoding is whole entries and a torn one. *)
Lemma take_entries es : ∀ n, Forall entry_fits es →
  ∃ k rest, take n (encode_entries es) = encode_entries (take k es) ++ rest ∧
    (k ≤ length es)%nat ∧ scan_stops rest ∧
    ∀ m, (m ≤ length es)%nat → (length (encode_entries (take m es)) ≤ n)%nat → (m ≤ k)%nat.
Proof.
  induction es as [|e es IH]; intros n Hfit.
  { exists 0%nat, []. split_and!; [apply take_nil|done|by left|by intros [|m] ? _; cbn in *; lia]. }
  apply Forall_cons in Hfit as [He Hfit]. rewrite encode_entries_cons.
  destruct (decide (n < length (serialize e))%nat) as [Hn|Hn].
  - exists 0%nat, (take n (serialize e)). rewrite take_app_le by lia. cbn.
    rewrite (serialize_frame e) in Hn |- * by by apply entry_fits_length.
    split_and!; [done|lia|by apply torn_frame_stops; [apply entry_fits_body|]|].
    intros [|m] _; [lia|]. cbn [take]. rewrite encode_entries_cons, length_app.
    rewrite (serialize_frame e) by by apply entry_fits_length. lia.
  - destruct (IH (n - length (serialize e))%nat Hfit) as (k & rest & Heq & Hk & Hst & Hmax).
    exists (S k), rest. rewrite take_app_ge by lia. rewrite Heq. cbn [take].
    rewrite encode_entries_cons, <- app_assoc. split_and!; [done|cbn; lia|done|].
    intros [|m] Hm; [lia|]. cbn [take length] in *. rewrite encode_entries_cons, length_app.
    intros Hlen. assert (m ≤ k)%nat; [|lia]. apply Hmax; lia.
Qed.

Lemma crashed_synced f f' : file_crashed f f' → f_synced f = length (f_data f) → f_data f' = f_data f.
Proof. intros (n & Hn & ->) Hs. cbn. apply take_ge. lia. Qed.

(** What a crash leaves of a run: the older segments whole, the current one cut after
    some entry that is not before the durable ones. *)
Lemma crash_layout older es s d' :
  wal_inv older es s → crashed (ws_dir s) d' →
  let z := start_sequence (current_segment (ws_writer s)) in
  ∃ k rest,
    dir_layout d' ((prod_map id encode_entries <$> older) ++
      [(z, encode_entries (take k es) ++ rest)]) ∧
    scan_stops rest ∧ (ws_durable s ≤ length (older ≫= snd) + k)%nat ∧ (k ≤ length es)%nat.
Proof.
  intros Hi Hc z. pose proof (wi_layout _ _ _ Hi) as Hl. fold z in Hl.
  assert (Forall entry_fits es) as Hfit.
  { pose proof (wi_fits _ _ _ Hi) as Hf. rewrite (wi_log _ _ _ Hi) in Hf.
    by apply Forall_app in Hf as [_ Hf]. }
  destruct (wi_durable _ _ _ Hi) as (f & m & Hf & Hs & Hm & Hb & Hd). fold z in Hf.
  destruct (inv_current_file _ _ _ Hi) as (f0 & Hf0 & Hdata). fold z in Hf0.
  rewrite Hf in Hf0. simplify_eq. 
  destruct (crashed_l _ _ _ _ Hc Hf) as (f' & Hf'z & n & Hn & ->).
  destruct (take_entries es n Hfit) as (k & rest & Htake & Hk & Hst & Hmax).
  exists k, rest. split_and!; [|done| |done].
  2:{ assert (m ≤ k)%nat; [|lia]. apply Hmax; lia. }
  rewrite <- Htake. rewrite layout_names in Hl. split.
  - intros name z' [x Hx] Hp. destruct (crashed_r _ _ _ _ Hc Hx) as (y & Hy & _).
    destruct (dl_only _ _ Hl name z') as [? Hin]; [by eexists|done|].
    split; [done|]. rewrite fmap_app in Hin |- *. done.
  - intros z' data [Hin|Hin]%elem_of_app.
    + assert (z' ∈ older.*1) as Hin'.
      { rewrite <- layout_keys. apply (list_elem_of_fmap_2 fst _ _ Hin). }
      assert (f_data <$> ws_dir s !! segment_filename z' = Some data) as Hfz
        by (apply (dl_file _ _ Hl), elem_of_app; by left).
      apply fmap_Some in Hfz as (g & Hg & ->).
      destruct (crashed_l _ _ _ _ Hc Hg) as (g' & -> & Hgc). cbn. f_equal.
      apply crashed_synced; [done|]. by apply (wi_synced _ _ _ Hi z').
    + apply list_elem_of_singleton in Hin. simplify_eq. rewrite Hf'z. cbn. by rewrite Hdata.
  - pose proof (dl_sorted _ _ Hl) as H. rewrite fmap_app in H |- *. done.
  - pose proof (dl_u64 _ _ Hl) as H. rewrite fmap_app in H |- *. done.
Qed.

(** What a crashed run recovers: a prefix of the log with everything durable in it, and
    a next sequence number above all of it. *)
Definition recovers (wal_dir : string) (now : DateTime) (s : wal_state) (d' : directory)
    (n : nat) : Prop :=
  replay_all wal_dir now (Some d') =
    Ok {| entries := reread now <$> take n (ws_log s); position := 0 |} ∧
  ∀ mode max_size t e, e ∈ take n (ws_log s) →
    we_sequence e < next_sequence (open_with_max_size mode max_size t (Some d')).1.

Lemma wal_ok_recovers wal_dir now s d' :
  wal_ok s → is_u64 (next_sequence (ws_writer s) + 1) → crashed (ws_dir s) d' →
  ∃ n, (ws_durable s ≤ n ≤ length (ws_log s))%nat ∧ recovers wal_dir now s d' n.
Proof.
  intros (older & es & Hi) Hu Hc. unfold is_u64 in Hu.
  destruct (crash_layout _ _ _ _ Hi Hc) as (k & rest & Hl & Hst & Hdur & Hk).
  set (z := start_sequence (current_segment (ws_writer s))) in *.
  pose proof (wi_log _ _ _ Hi) as Hlog. pose proof (wi_fits _ _ _ Hi) as Hfit.
  pose proof (wi_sorted _ _ _ Hi) as Hs. pose proof (wi_next _ _ _ Hi) as Hnext.
  rewrite Hlog in Hfit. apply Forall_app in Hfit as [Hfo Hfe].
  assert (Forall entry_fits (take k es)) as Hfk by by apply Forall_take.
  assert (take (length (older ≫= snd) + k) (ws_log s) = (older ≫= snd) ++ take k es) as Htake.
  { rewrite Hlog, take_app_ge by lia. do 2 f_equal. lia. }
  exists (length (older ≫= snd) + k)%nat. split; [rewrite Hlog, length_app; lia|].
  unfold recovers. rewrite Htake. split.
  - unfold replay_all. rewrite (layout_replay _ _ _ _ _ Hl), bind_app, encoded_entries by done.
    cbn [mbind list_bind]. rewrite app_nil_r. unfold file_entries at 1. cbn [snd].
    rewrite read_entries_cut by (done || by apply scan_stops_stops).
    rewrite <- fmap_app, <- Htake, sort_log.
    + rewrite filter_id; [done|]. apply Forall_take, Forall_forall. intros e He.
      pose proof (wi_fits _ _ _ Hi) as Hf. rewrite Forall_forall in Hf.
      destruct (Hf e He) as [[[? _] _] _]. done.
    + rewrite fmap_take. rewrite <- (take_drop (length (older ≫= snd) + k) (we_sequence <$> _)) in Hs.
      by apply StronglySorted_app_1_l in Hs.
  - intros mode max_size t e He. rewrite (open_existing _ _ _ _ _ mode max_size t Hl Hfk Hst). cbn.
    pose proof (max_sequence_ge (take k es) z) as Hge.
    assert (0 ≤ z) as Hz0.
    { pose proof (dl_u64 _ _ Hl) as Hz. rewrite fmap_app in Hz. apply Forall_app in Hz as [_ Hz].
      apply Forall_cons in Hz as [Hz _]. apply Hz. }
    pose proof (wi_start _ _ _ Hi) as Hstart. fold z in Hstart.
    assert (max_sequence z (take k es) < next_sequence (ws_writer s) + 1) as Hlt.
    { apply max_sequence_lt; [lia|]. rewrite Hlog in Hnext. apply Forall_app in Hnext as [_ Hnext].
      apply Forall_take. eapply Forall_impl; [done|]. cbn. lia. }
    rewrite u64_add_small by (red; lia). apply elem_of_app in He as [He|He].
    + pose proof (wi_older _ _ _ Hi) as Ho. rewrite Forall_forall in Ho. specialize (Ho e He).
      fold z in Ho. lia.
    + pose proof (max_sequence_elem (take k es) z e He). lia.
Qed.

(** C1: Crash recovery: for every run and sync mode, and whatever prefix of the unsynced
    bytes of each file a crash preserves, replay succeeds and returns a prefix of the
    acknowledged entries, in order, that contains all those made durable by a sync, a
    checkpoint or the [Fsync] mode; and a writer reopened on what is left assigns
    sequence numbers above every recovered entry. *)
Theorem crash_recovers_prefix wal_dir now mode max_size t k ops d' :
  fresh k → 0 ≤ max_size ≤ 2 ^ 63 → Forall wal_op_ok ops → Z.of_nat (length ops) < 2 ^ 63 →
  let s := wal_run (wal_start mode max_size t k) ops in
  crashed (ws_dir s) d' →
  ∃ n, (ws_durable s ≤ n ≤ length (ws_log s))%nat ∧ recovers wal_dir now s d' n.
Proof.
  intros Hf Hmax Hops Hlen s Hc.
  destruct (wal_ok_start_run mode max_size t k ops Hf Hmax Hops Hlen) as [Hs Hu].
  by apply wal_ok_recovers.
Qed.

(** ** The [Fsync] mode *)

Definition keeps_fsync (op : wal_op) : Prop :=
  match op with WReopen mode _ _ => mode = Fsync | _ => True end.

Lemma open_sync_mode mode max_size t k :
  sync_mode (open_with_max_size mode max_size t k).1 = mode.
Proof. unfold open_with_max_size. by destruct (last (dir_segments _)). Qed.

Lemma fsync_step s op :
  wal_ok s → wal_op_ok op → keeps_fsync op → is_u64 (next_sequence (ws_writer s) + 1) →
  sync_mode (ws_writer s) = Fsync → ws_durable s = length (ws_log s) →
  sync_mode (ws_writer (wal_step s op)) = Fsync ∧
  ws_durable (wal_step s op) = length (ws_log (wal_step s op)).
Proof.
  intros (older & es & Hi) Hop Hk Hu Hm Hd. destruct op as [e c|u c|u|mode max_size u].
  - destruct Hop as [Hutf Hlen]. destruct (inv_append _ _ _ _ c Hi Hu Hutf Hlen) as (_ & _ & Hm').
    rewrite Hm'. split; [done|]. cbn.
    destruct (append c e (ws_writer s) (ws_dir s)) as [[n w] d]. cbn. by rewrite Hm.
  - rewrite checkpoint_step.
    destruct (inv_append _ _ _ (checkpoint_entry u) c Hi Hu) as (_ & _ & Hm'); [done|done|].
    split; [|done]. by rewrite <- Hm, <- Hm'.
  - done.
  - cbn in Hk. subst mode. pose proof (open_sync_mode Fsync max_size u (Some (ws_dir s))) as Ho.
    cbn. by destruct (open_with_max_size Fsync max_size u (Some (ws_dir s))).
Qed.

Lemma fsync_run ops : ∀ s,
  wal_ok s → Forall wal_op_ok ops → Forall keeps_fsync ops →
  next_sequence (ws_writer s) + Z.of_nat (length ops) < 2 ^ 64 →
  sync_mode (ws_writer s) = Fsync → ws_durable s = length (ws_log s) →
  ws_durable (wal_run s ops) = length (ws_log (wal_run s ops)).
Proof.
  induction ops as [|op ops IH]; intros s Hs Hall Hk Hn Hm Hd; [done|].
  apply Forall_cons in Hall as [Hop Hall]. apply Forall_cons in Hk as [Hko Hk].
  cbn [length] in Hn. assert (0 < next_sequence (ws_writer s)) by (destruct Hs as (? & ? & []); lia).
  assert (is_u64 (next_sequence (ws_writer s) + 1)) as Hu by (red; lia).
  destruct (wal_ok_step s op Hs Hop Hu) as [Hs' Hn'].
  destruct (fsync_step s op Hs Hop Hko Hu Hm Hd) as [Hm' Hd'].
  apply IH; [done..|lia|done|done].
Qed.


End props.
