(* ===== verification/WalExamples.v ===== *)
(** * The log on concrete inputs

    Witnesses of the log's theorems, run with the IEEE CRC-32 and a millisecond
    clock, and the runs on which the log loses entries it has acknowledged. *)

From S2P Require Import Prelude WalEntry WalLog WalFrames WalSegments WalRun WalProps.
From coqutil Require Import Byte LittleEndianList.
Local Open Scope Z_scope.

(** CRC-32 (IEEE 802.3, reflected), a bit at a time. *)
Definition crc_bit (c : Z) : Z :=
  if Z.odd c then Z.lxor (Z.shiftr c 1) 0xEDB88320 else Z.shiftr c 1.

Definition crc_byte (c : Z) (b : byte) : Z := Nat.iter 8 crc_bit (Z.lxor c (byte.unsigned b)).

Definition ieee_crc32 (bs : list byte) : Z :=
  wrap 32 (Z.lxor (foldl crc_byte 0xFFFFFFFF bs) 0xFFFFFFFF).

#[local] Instance ieee_crc : Crc32fast :=
  {| crc32fast_hash := ieee_crc32; crc32fast_range := λ bs, wrap_range 32 _ (Zle_0_nat 32) |}.

#[local] Instance ieee_chrono : Chrono := milli_chrono.
#[local] Instance string_iter : HashIter string := elements_iter string.

(** The check value of the CRC-32 catalogue. *)
Example ieee_crc32_check : ieee_crc32 (as_bytes "123456789") = 0xCBF43926.
Proof. vm_compute. reflexivity. Qed.

Definition ex_entry (id : string) (payload : string) : WalEntry :=
  {| we_sequence := 0; we_timestamp := 1700000000000; we_operation := WInsert;
     we_modality := MDocument; we_entity_id := id; we_payload := as_bytes payload |}.

Definition ex_time : DateTime (Chrono := ieee_chrono) := 0.

Definition tick : clock := λ k, Z.of_nat k.

(** ** Entries *)

Lemma entry_roundtrip_witness :
  entry_ok (ex_entry "doc-1" "{}") ∧ entry_length (ex_entry "doc-1" "{}") < 2 ^ 32 ∧
  let bytes := serialize (ex_entry "doc-1" "{}") in
  deserialize ex_time (drop 4 bytes) (le_combine (take 4 bytes)) =
    Ok (reread ex_time (ex_entry "doc-1" "{}")).
Proof.
  assert (entry_ok (ex_entry "doc-1" "{}")) as Hok by (split; [split; vm_compute; done|vm_compute; done]).
  assert (entry_length (ex_entry "doc-1" "{}") < 2 ^ 32) as Hlen by (vm_compute; done).
  split; [exact Hok|]. split; [exact Hlen|].
  exact (proj1 (entry_roundtrip ex_time (ex_entry "doc-1" "{}") Hok Hlen)).
Defined.

Lemma parse_inner_canonical_witness :
  ∃ junk, serialize_inner (ex_entry "doc-1" "{}") = serialize_inner (ex_entry "doc-1" "{}") ++ junk.
Proof.
  assert (parse_inner ex_time (serialize_inner (ex_entry "doc-1" "{}")) = Ok (ex_entry "doc-1" "{}")) as H
    by (vm_compute; reflexivity).
  assert (is_Some (timestamp_millis_opt 1700000000000)) as Ht
    by (vm_compute; by eexists).
  exact (proj2 (parse_inner_canonical ex_time _ _ H Ht)).
Defined.

(** ** Segments *)

Lemma ex_fits id payload :
  utf8_valid (as_bytes id) = true → entry_length (ex_entry id payload) ≤ MAX_ENTRY_SIZE →
  entry_fits (ex_entry id payload).
Proof. intros Hu Hl. split; [split; [by vm_compute|done]|done]. Defined.

Definition ex_entries : list WalEntry := [ex_entry "a" "1"; ex_entry "b" "22"].

Lemma ex_entries_fit : Forall entry_fits ex_entries.
Proof. repeat constructor; by vm_compute. Qed.

Lemma ex_c_fits : entry_fits (ex_entry "c" "333").
Proof. apply ex_fits; by vm_compute. Qed.

Lemma torn_tail_ignored_witness :
  read_entries ex_time (encode_entries ex_entries ++ take 20 (serialize (ex_entry "c" "333"))) =
  reread ex_time <$> ex_entries.
Proof.
  apply (torn_tail_ignored ex_time ex_entries (ex_entry "c" "333") 20 ex_entries_fit ex_c_fits).
  vm_compute. lia.
Defined.

(** The last byte of an entry's payload flipped. *)
Definition flipped : list byte :=
  take 33 (serialize_body (ex_entry "c" "333")) ++ [byte.of_Z 0].

Lemma corrupt_entry_skipped_witness :
  read_entries ex_time
    (encode_entries ex_entries ++ (take 4 (serialize (ex_entry "c" "333")) ++ flipped) ++
     encode_entries ex_entries) =
  (reread ex_time <$> ex_entries) ++ (reread ex_time <$> ex_entries).
Proof.
  assert (zlength flipped = entry_length (ex_entry "c" "333")) as Hlen by (vm_compute; reflexivity).
  assert (le_combine (take 4 flipped) ≠ compute_crc32 (drop 4 flipped)) as Hcrc
    by (vm_compute; discriminate).
  exact (proj1 (corrupt_entry_skipped ex_time ex_entries (ex_entry "c" "333") flipped ex_entries
    ex_entries_fit ex_c_fits ex_entries_fit Hlen Hcrc)).
Defined.

(** An entry whose payload is two bytes too long for the reader. *)
Definition big_entry : WalEntry :=
  {| we_sequence := 0; we_timestamp := 0; we_operation := WInsert; we_modality := MDocument;
     we_entity_id := ""; we_payload := replicate (Z.to_nat MAX_ENTRY_SIZE) Byte.x00 |}.

Lemma big_entry_length : entry_length big_entry = MAX_ENTRY_SIZE + 30.
Proof.
  unfold entry_length, FIXED_FIELDS_SIZE, big_entry. cbn [we_entity_id we_payload].
  change (zlength (as_bytes "")) with 0. unfold zlength. rewrite length_replicate.
  rewrite Z2Nat.id by by vm_compute. lia.
Qed.

Lemma oversized_entry_hides_segment_witness :
  MAX_ENTRY_SIZE < entry_length big_entry < 2 ^ 32 ∧
  read_entries ex_time (encode_entries ex_entries ++ serialize big_entry ++ encode_entries ex_entries) =
  reread ex_time <$> ex_entries.
Proof.
  assert (MAX_ENTRY_SIZE < entry_length big_entry < 2 ^ 32) as Hlen.
  { rewrite big_entry_length. split; by vm_compute. }
  split; [exact Hlen|].
  exact (oversized_entry_hides_segment ex_time ex_entries big_entry _ ex_entries_fit Hlen).
Defined.

Lemma segment_filename_roundtrip_witness :
  segment_filename 17 = "wal-0000000000000017.log" ∧
  parse_segment_filename (segment_filename 17) = Some 17.
Proof.
  assert (is_u64 17) as H by (split; by vm_compute).
  split; [vm_compute; reflexivity|exact (proj1 (segment_filename_roundtrip 17 17 H H))].
Defined.

(** ** Runs *)

Definition ex_ops : list wal_op :=
  [WAppend (ex_entry "a" "1") tick; WAppend (ex_entry "b" "22") tick; WCheckpointAt ex_time tick;
   WReopen Fsync 100 5; WAppend (ex_entry "c" "333") tick].

Lemma ex_ops_ok : Forall wal_op_ok ex_ops.
Proof. repeat constructor; by vm_compute. Qed.

Lemma fresh_none : fresh None.
Proof. intros d name H. discriminate H. Qed.

Definition ex_state : wal_state := wal_run (wal_start Fsync 100 0 None) ex_ops.

(** The checkpoint did not fit and opened a second segment, named one past its own
    sequence number. *)
Example ex_state_segments :
  start_sequence <$> dir_segments (ws_dir ex_state) = [0; 4] ∧
  we_sequence <$> ws_log ex_state = [1; 2; 3; 5].
Proof. vm_compute. split; reflexivity. Qed.

Lemma ex_max : 0 ≤ 100 ≤ 2 ^ 63.
Proof. split; by vm_compute. Qed.

Lemma ex_len : Z.of_nat (length ex_ops) < 2 ^ 63.
Proof. by vm_compute. Qed.

Lemma replay_returns_log_witness :
  replay_from "wal" ex_time 3 (Some (ws_dir ex_state)) =
    Ok {| entries := reread ex_time <$> filter (λ e, 3 ≤ we_sequence e) (ws_log ex_state);
          position := 0 |}.
Proof.
  exact (proj1 (replay_returns_log "wal" ex_time Fsync 100 0 None ex_ops 3
    fresh_none ex_max ex_ops_ok ex_len)).
Defined.

(** ** Crashes *)

(** A crash that loses everything not synced. *)
Definition lose_unsynced (f : file) : file :=
  f_sync {| f_data := take (f_synced f) (f_data f); f_synced := 0 |}.

Lemma crashed_fmap d : crashed d (lose_unsynced <$> d).
Proof.
  intros name. rewrite lookup_fmap. destruct (d !! name) as [f|]; constructor.
  by exists (f_synced f).
Qed.

Definition async_state : wal_state := wal_run (wal_start Async 100 0 None)
  [WAppend (ex_entry "a" "1") tick; WSync 3; WAppend (ex_entry "b" "22") tick].

(** The entry that was not synced is lost, and only that one. *)
Lemma crash_recovers_prefix_witness :
  ws_durable async_state = 1%nat ∧
  ∃ n, (ws_durable async_state ≤ n ≤ length (ws_log async_state))%nat ∧
    recovers "wal" ex_time async_state (lose_unsynced <$> ws_dir async_state) n.
Proof.
  split; [vm_compute; reflexivity|].
  apply (crash_recovers_prefix "wal" ex_time Async 100 0 None).
  - exact fresh_none.
  - exact ex_max.
  - repeat constructor; by vm_compute.
  - reflexivity.
  - apply crashed_fmap.
Defined.

Lemma ex_keeps_fsync : Forall keeps_fsync ex_ops.
Proof. by repeat constructor. Qed.


(** ** Pruning *)

Lemma ex_aligned s e :
  s ∈ dir_segments (ws_dir ex_state) → start_sequence s < 3 →
  e ∈ read_segment_entries ex_time (ws_dir ex_state) (path s) → we_sequence e < 3.
Proof.
  assert (forallb (λ s, implb (start_sequence s <? 3) (forallb (λ e, we_sequence e <? 3)
    (read_segment_entries ex_time (ws_dir ex_state) (path s)))) (dir_segments (ws_dir ex_state))
    = true) as Hall by (vm_compute; reflexivity).
  generalize dependent (ws_dir ex_state). intros d Hall Hs Hlt He. rewrite forallb_forall in Hall.
  specialize (Hall s (proj1 (list_elem_of_In _ _) Hs)). rewrite (proj2 (Z.ltb_lt _ _) Hlt) in Hall.
  cbn [implb] in Hall. rewrite forallb_forall in Hall.
  apply Z.ltb_lt, (Hall e), list_elem_of_In, He.
Qed.

Lemma prune_keeps_replay_witness :
  ∃ n d' it it',
    prune_segments_before "wal" 3 (Some (ws_dir ex_state)) = Ok (n, Some d') ∧
    replay_from "wal" ex_time 3 (Some (ws_dir ex_state)) = Ok it ∧
    replay_from "wal" ex_time 3 (Some d') = Ok it' ∧ entries it' ≡ₚ entries it.
Proof.
  destruct (prune_keeps_replay "wal" ex_time 3 (ws_dir ex_state) ex_aligned)
    as (n & d' & it & it' & H1 & H2 & H3 & H4 & _).
  exists n, d', it, it'. exact (conj H1 (conj H2 (conj H3 H4))).
Defined.

(** Pruning can lose live entries: a segment is removed when it starts before the
    checkpoint and some later segment exists, although it may also hold entries
    written after the checkpoint.  Here the checkpoint is entry 2, entry 3 follows it in
    the first segment and entry 4 opens the next one; pruning before 2 removes the
    first segment, and the replay from the checkpoint no longer returns entry 3. *)
Theorem prune_drops_live_entry :
  let s := wal_run (wal_start Fsync 110 0 None)
    [WAppend (ex_entry "a" "1") tick; WCheckpointAt ex_time tick;
     WAppend (ex_entry "b" "22") tick; WAppend (ex_entry "c" "333") tick] in
  we_sequence <$> ws_log s = [1; 2; 3; 4] ∧
  find_last_checkpoint "wal" ex_time (Some (ws_dir s)) = Ok (Some 2) ∧
  ('(removed, k) ← prune_segments_before "wal" 2 (Some (ws_dir s));
   it ← replay_from "wal" ex_time 2 k;
   Ok (removed, we_sequence <$> entries it)) = Ok (1%nat, [4]).
Proof. cbv zeta. split_and!; vm_compute; reflexivity. Qed.

(** Rotating right after an append that rotated destroys that entry: the new
    segment is named after the next sequence number, which is already past the entry
    it was opened for, so an explicit [rotate] creates the same file again and
    truncates it, although the entry was acknowledged and synced. *)
Theorem rotate_destroys_entry :
  let s := wal_run (wal_start Fsync 50 0 None)
    [WAppend (ex_entry "a" "1") tick; WAppend (ex_entry "b" "22") tick] in
  we_sequence <$> ws_log s = [1; 2] ∧ ws_durable s = 2%nat ∧
  let '(w', d') := rotate 9 (ws_writer s) (ws_dir s) in
  (λ it, we_sequence <$> entries it) <$> replay_all "wal" ex_time (Some d') = Ok [1].
Proof. vm_compute. repeat split; reflexivity. Qed.

(** Reopening after a torn write loses later entries: [open] leaves the torn bytes
    at the end of the last segment and appends after them, so that the reader takes
    the new entries for the missing part of the torn one.  Here a crash tears the
    second entry; after reopening, an entry is appended, synced and acknowledged, and
    replay does not return it. *)
Theorem torn_tail_loses_appends :
  let s := wal_run (wal_start Async 1000 0 None)
    [WAppend (ex_entry "a" "1") tick; WAppend (ex_entry "b" "22") tick] in
  ∃ d', crashed (ws_dir s) d' ∧
    let '(w, d) := wal_open Fsync 0 (Some d') in
    let '(n, w2, d2) := append tick (ex_entry "c" "333") w d in
    n = 2 ∧ (λ it, we_sequence <$> entries it) <$> replay_all "wal" ex_time (Some d2) = Ok [1].
Proof.
  intros s. 
  exists ((λ f, f_sync {| f_data := take 50 (f_data f); f_synced := 0 |}) <$> ws_dir s).
  split; [|vm_compute; split; reflexivity].
  intros name. rewrite lookup_fmap. destruct (ws_dir s !! name) as [f|] eqn:Hf; constructor.
  exists 50%nat. split; [|done].
  assert (∀ f', f' ∈ (map_to_list (ws_dir s)).*2 → (f_synced f' ≤ 50)%nat) as Hall.
  { vm_compute. intros f' Hin%list_elem_of_singleton. subst f'. cbn. lia. }
  apply Hall. apply list_elem_of_fmap. exists (name, f). split; [done|]. by apply elem_of_map_to_list.
Qed.
