(* ===== verification/Provenance.v ===== *)
(** * Provenance chains

    Models [src/rust-core/verisim-provenance/src/lib.rs]: the records of an entity's
    history, linked by hashes, and the in-memory store of chains.  The digest of the
    [sha2] crate, the printer of [serde_json] and the RFC 3339 form of an instant are
    parameters. *)

From S2P Require Import Prelude.
From stdpp Require Import pretty.
From Stdlib Require String.

(** ** Third-party code *)

(** [serde_json::Value], as far as the hashes use it. *)
#[warnings="-register-all"]
Inductive json :=
| JNull
| JString (s : string)
| JObject (fields : list (string * json)).

(** The [sha2] crate, its digest in hexadecimal; [to_string] of [serde_json], and
    [to_rfc3339] of [chrono]. *)
Class Digest {CH : Chrono} := {
  sha256_hex : list byte → string;
  json_to_string : json → string;
  to_rfc3339 : DateTime → string;
}.

(** What they document: a value and an instant can be read back from their text, and
    no value prints as nothing.  Nothing is assumed of the digest. *)
Class DigestLaws {CH : Chrono} (D : Digest) := {
  json_to_string_inj : ∀ v v', json_to_string v = json_to_string v' → v = v';
  json_to_string_nonempty : ∀ v, json_to_string v ≠ "";
  to_rfc3339_inj : ∀ t t', to_rfc3339 t = to_rfc3339 t' → t = t';
}.

(** ** Records *)

Inductive ProvenanceError :=
| NotFound (entity : string)
| ChainCorrupted (entity reason : string)
| HashMismatch (entity : string) (index : nat)
| IoError (e : string).

Inductive ProvenanceEventType :=
| Created
| Modified
| Imported
| Normalized
| DriftRepaired
| Deleted
| Merged
| Custom (name : string).

#[export] Instance ProvenanceEventType_eq_dec : EqDecision ProvenanceEventType.
Proof. solve_decision. Defined.

(** [Display] *)
Definition event_to_string (e : ProvenanceEventType) : string :=
  match e with
  | Created => "created"
  | Modified => "modified"
  | Imported => "imported"
  | Normalized => "normalized"
  | DriftRepaired => "drift_repaired"
  | Deleted => "deleted"
  | Merged => "merged"
  | Custom name => "custom:" +:+ name
  end.

(** The derived [Serialize]: a unit variant is its name, [Custom] an object. *)
Definition event_to_json (e : ProvenanceEventType) : json :=
  match e with
  | Created => JString "Created"
  | Modified => JString "Modified"
  | Imported => JString "Imported"
  | Normalized => JString "Normalized"
  | DriftRepaired => JString "DriftRepaired"
  | Deleted => JString "Deleted"
  | Merged => JString "Merged"
  | Custom name => JObject [("Custom", JString name)]
  end.

Section provenance.
Context {CH : Chrono} {D : Digest}.

Record ProvenanceRecord := {
  event_type : ProvenanceEventType;
  actor : string;
  timestamp : DateTime;
  source : option string;
  description : string;
  parent_hash : string;
  content_hash : string;
}.

(** The fields that are hashed; an object's keys are sorted. *)
Definition canonical (event_type : ProvenanceEventType) (actor : string) (timestamp : DateTime)
    (source : option string) (description parent_hash : string) : json :=
  JObject
    [("actor", JString actor);
     ("description", JString description);
     ("event_type", event_to_json event_type);
     ("parent_hash", JString parent_hash);
     ("source", match source with Some s => JString s | None => JNull end);
     ("timestamp", JString (to_rfc3339 timestamp))].

Definition compute_hash (event_type : ProvenanceEventType) (actor : string) (timestamp : DateTime)
    (source : option string) (description parent_hash : string) : string :=
  sha256_hex (String.list_byte_of_string
    (json_to_string (canonical event_type actor timestamp source description parent_hash))).

(** [now] is [Utc::now()]. *)
Definition ProvenanceRecord_new (now : DateTime) (event_type : ProvenanceEventType)
    (actor : string) (source : option string) (description parent_hash : string)
    : ProvenanceRecord :=
  {| event_type := event_type; actor := actor; timestamp := now; source := source;
     description := description; parent_hash := parent_hash;
     content_hash := compute_hash event_type actor now source description parent_hash |}.

Definition record_verify (r : ProvenanceRecord) : bool :=
  let expected := compute_hash (event_type r) (actor r) (timestamp r) (source r) (description r)
                    (parent_hash r) in
  bool_decide (content_hash r = expected).

(** ** Chains *)

Record ProvenanceChain := { entity_id : string; records : list ProvenanceRecord }.

Definition ProvenanceChain_new (entity_id : string) : ProvenanceChain :=
  {| entity_id := entity_id; records := [] |}.

Definition chain_len (c : ProvenanceChain) : nat := length (records c).
Definition chain_is_empty (c : ProvenanceChain) : bool := bool_decide (records c = []).

Definition genesis_hash : string := sha256_hex [].

Definition mismatch_reason (i : nat) (expected got : string) : string :=
  "Record " +:+ pretty i +:+ " parent_hash mismatch: expected " +:+ expected +:+ ", got " +:+ got.

(** The loop of [verify], from record [i] on. *)
Fixpoint verify_records (entity : string) (i : nat) (expected_parent : string)
    (rs : list ProvenanceRecord) : result ProvenanceError () :=
  match rs with
  | [] => Ok ()
  | record :: rs =>
    if negb (bool_decide (parent_hash record = expected_parent)) then
      Err (ChainCorrupted entity (mismatch_reason i expected_parent (parent_hash record)))
    else if negb (record_verify record) then Err (HashMismatch entity i)
    else verify_records entity (S i) (content_hash record) rs
  end.

Definition chain_verify (c : ProvenanceChain) : result ProvenanceError () :=
  verify_records (entity_id c) 0 genesis_hash (records c).

Definition origin (c : ProvenanceChain) : option ProvenanceRecord := head (records c).
Definition latest (c : ProvenanceChain) : option ProvenanceRecord := last (records c).

Definition chain_append (now : DateTime) (event_type : ProvenanceEventType) (actor : string)
    (source : option string) (description : string) (c : ProvenanceChain)
    : ProvenanceRecord * ProvenanceChain :=
  let parent_hash := default genesis_hash (content_hash <$> last (records c)) in
  let record := ProvenanceRecord_new now event_type actor source description parent_hash in
  (record, {| entity_id := entity_id c; records := records c ++ [record] |}).

(** ** The in-memory store *)

(** [InMemoryProvenanceStore] is its map [chains]. *)

Definition store_new : gmap string ProvenanceChain := ∅.

Definition record_event (now : DateTime) (entity_id : string) (event_type : ProvenanceEventType)
    (actor : string) (source : option string) (description : string)
    (chains : gmap string ProvenanceChain)
    : result ProvenanceError ProvenanceRecord * gmap string ProvenanceChain :=
  let chain := default (ProvenanceChain_new entity_id) (chains !! entity_id) in
  let '(record, chain) := chain_append now event_type actor source description chain in
  (Ok record, <[entity_id := chain]> chains).

Definition get_chain (entity_id : string) (chains : gmap string ProvenanceChain)
    : result ProvenanceError ProvenanceChain :=
  ok_or (NotFound entity_id) (chains !! entity_id).

Definition verify_chain (entity_id : string) (chains : gmap string ProvenanceChain)
    : result ProvenanceError bool :=
  match chains !! entity_id with
  | Some chain => _ ← chain_verify chain; Ok true
  | None => Ok false
  end.

Definition get_origin (entity_id : string) (chains : gmap string ProvenanceChain)
    : result ProvenanceError (option ProvenanceRecord) :=
  Ok (chains !! entity_id ≫= origin).

Definition get_latest (entity_id : string) (chains : gmap string ProvenanceChain)
    : result ProvenanceError (option ProvenanceRecord) :=
  Ok (chains !! entity_id ≫= latest).

Definition search_by_actor {HI : HashIter string} (who : string) (chains : gmap string ProvenanceChain)
    : result ProvenanceError (list (string * ProvenanceRecord)) :=
  Ok (hash_iter (dom chains) ≫= λ entity_id,
        pair entity_id <$>
          filter (λ record, actor record = who) (default [] (records <$> chains !! entity_id))).

Definition delete_chain (entity_id : string) (chains : gmap string ProvenanceChain)
    : result ProvenanceError () * gmap string ProvenanceChain :=
  (Ok (), delete entity_id chains).

End provenance.

(** ** What a provenance chain proves

    Verification accepts exactly the linked chains and reports the first record that
    breaks the link; the head of a verified chain commits to its whole history, up to a
    collision of the digest; and the store keeps only chains that verify, each the
    events recorded for its entity. *)

Section spec.
Context {CH : Chrono} {D : Digest}.

(** ** Linked chains *)

(** The hash a further record has to name as its parent. *)
Definition head_hash (parent : string) (rs : list ProvenanceRecord) : string :=
  default parent (content_hash <$> last rs).

Fixpoint linked (parent : string) (rs : list ProvenanceRecord) : Prop :=
  match rs with
  | [] => True
  | r :: rs => parent_hash r = parent ∧ record_verify r = true ∧ linked (content_hash r) rs
  end.

Lemma head_hash_cons parent r rs : head_hash parent (r :: rs) = head_hash (content_hash r) rs.
Proof. unfold head_hash. rewrite last_cons. by destruct (last rs). Qed.

Lemma linked_snoc rs r : ∀ parent,
  linked parent (rs ++ [r]) ↔
  linked parent rs ∧ parent_hash r = head_hash parent rs ∧ record_verify r = true.
Proof.
  induction rs as [|r' rs IH]; intros parent; cbn [app linked].
  - unfold head_hash. cbn. tauto.
  - rewrite IH, head_hash_cons. tauto.
Qed.

Lemma linked_take rs n : ∀ parent, linked parent rs → linked parent (take n rs).
Proof. revert n. induction rs as [|r rs IH]; intros [|n] parent; cbn; naive_solver. Qed.

(** What [verify] returns says where the chain first breaks. *)
Definition verdict (entity parent : string) (i : nat) (rs : list ProvenanceRecord)
    (v : result ProvenanceError ()) : Prop :=
  match v with
  | Ok _ => linked parent rs
  | Err (ChainCorrupted entity' reason) =>
    ∃ j r, rs !! j = Some r ∧ linked parent (take j rs) ∧ entity' = entity ∧
      parent_hash r ≠ head_hash parent (take j rs) ∧
      reason = mismatch_reason (i + j) (head_hash parent (take j rs)) (parent_hash r)
  | Err (HashMismatch entity' k) =>
    ∃ j r, rs !! j = Some r ∧ linked parent (take j rs) ∧ entity' = entity ∧ k = (i + j)%nat ∧
      parent_hash r = head_hash parent (take j rs) ∧ record_verify r = false
  | Err _ => False
  end.

Lemma verify_records_verdict entity rs : ∀ parent i,
  verdict entity parent i rs (verify_records entity i parent rs).
Proof.
  induction rs as [|r rs IH]; intros parent i; cbn [verify_records]; [exact I|].
  destruct (bool_decide_reflect (parent_hash r = parent)) as [Hp|Hp]; cbn [negb].
  2:{ exists 0%nat, r. by rewrite Nat.add_0_r. }
  destruct (record_verify r) eqn:Hv; cbn [negb].
  2:{ exists 0%nat, r. by rewrite Nat.add_0_r. }
  specialize (IH (content_hash r) (S i)).
  destruct (verify_records entity (S i) (content_hash r) rs) as [u|[]]; cbn in IH |- *; [done|done| | |done].
  - destruct IH as (j & r' & Hj & Hl & He & Hne & Hr). exists (S j), r'. cbn [take].
    rewrite head_hash_cons, Nat.add_succ_r. done.
  - destruct IH as (j & r' & Hj & Hl & He & Hk & Hh & Hb). exists (S j), r'. cbn [take].
    rewrite head_hash_cons, Nat.add_succ_r. done.
Qed.

Lemma verify_records_linked entity rs parent i :
  verify_records entity i parent rs = Ok () ↔ linked parent rs.
Proof.
  split.
  - intros Hv. pose proof (verify_records_verdict entity rs parent i) as H. by rewrite Hv in H.
  - revert parent i. induction rs as [|r rs IH]; intros parent i; cbn; [done|].
    intros (Hp & Hv & Hl). rewrite bool_decide_true, Hv by done. cbn. by apply IH.
Qed.

(** Chain verification is exact: it accepts a chain when and only when every
    record names its predecessor's hash (the first one the hash of the empty string)
    and hashes to its own; otherwise it names the first record that breaks this, a
    wrong parent before a wrong hash, everything before it being in order. *)
Theorem chain_verify_spec c :
  verdict (entity_id c) genesis_hash 0 (records c) (chain_verify c) ∧
  (chain_verify c = Ok () ↔ linked genesis_hash (records c)).
Proof. split; [apply verify_records_verdict|apply verify_records_linked]. Qed.

(** ** The head commits to the history *)

(** Two inputs the digest does not tell apart. *)
Definition collision : Prop :=
  ∃ b b' : list byte, b ≠ b' ∧ sha256_hex b = sha256_hex b'.

Definition record_bytes (r : ProvenanceRecord) : list byte :=
  String.list_byte_of_string (json_to_string (canonical (event_type r) (actor r) (timestamp r)
    (source r) (description r) (parent_hash r))).

Lemma record_verify_hash r : record_verify r = true → content_hash r = sha256_hex (record_bytes r).
Proof. apply bool_decide_eq_true. Qed.

Context {DL : DigestLaws D}.

Lemma event_to_json_inj e e' : event_to_json e = event_to_json e' → e = e'.
Proof. destruct e, e'; cbn; intros H; simplify_eq; done. Qed.

(** A record that verifies is determined by the bytes that are hashed. *)
Lemma record_bytes_inj r r' :
  record_verify r = true → record_verify r' = true → record_bytes r = record_bytes r' → r = r'.
Proof.
  intros Hv Hv' Hb. pose proof (record_verify_hash r Hv) as Hh.
  pose proof (record_verify_hash r' Hv') as Hh'. rewrite <- Hb, <- Hh in Hh'.
  apply list_byte_of_string_inj, json_to_string_inj in Hb.
  destruct r as [ev ac ts so de pa ha], r' as [ev' ac' ts' so' de' pa' ha']; cbn in *.
  injection Hb as Ha Hd He Hp Hs Ht. apply event_to_json_inj in He. apply to_rfc3339_inj in Ht.
  destruct so, so'; simplify_eq; done.
Qed.

Lemma record_bytes_nonempty r : record_bytes r ≠ [].
Proof.
  intros Hb. apply (json_to_string_nonempty (canonical (event_type r) (actor r) (timestamp r)
    (source r) (description r) (parent_hash r))).
  by apply list_byte_of_string_inj.
Qed.

Lemma binding rs : ∀ rs',
  linked genesis_hash rs → linked genesis_hash rs' →
  head_hash genesis_hash rs = head_hash genesis_hash rs' → rs = rs' ∨ collision.
Proof.
  assert (∀ rs r, linked genesis_hash (rs ++ [r]) →
    head_hash genesis_hash (rs ++ [r]) = genesis_hash → collision) as Hgen.
  { intros l r (_ & _ & Hv)%linked_snoc Hh. unfold head_hash in Hh. rewrite last_snoc in Hh.
    cbn in Hh. rewrite (record_verify_hash r Hv) in Hh.
    exists (record_bytes r), []. split; [apply record_bytes_nonempty|done]. }
  induction rs as [|r rs IH] using rev_ind; intros rs' Hl Hl' Hh.
  - destruct rs' as [|r' rs' _] using rev_ind; [by left|]. right. by eapply Hgen.
  - destruct rs' as [|r' rs' _] using rev_ind; [right; by eapply Hgen|].
    apply linked_snoc in Hl as (Hl & Hp & Hv). apply linked_snoc in Hl' as (Hl' & Hp' & Hv').
    unfold head_hash in Hh. rewrite !last_snoc in Hh. cbn in Hh.
    destruct (decide (record_bytes r = record_bytes r')) as [Hb|Hb].
    + apply record_bytes_inj in Hb as ->; [|done..]. rewrite Hp in Hp'.
      destruct (IH rs' Hl Hl' Hp') as [->|?]; [by left|by right].
    + right. exists (record_bytes r), (record_bytes r'). split; [done|].
      by rewrite <- !record_verify_hash.
Qed.

(** C22: Tamper evidence: two verified chains with the same latest hash are the same,
    record for record, or the digest has been made to collide.  So whoever holds the
    latest hash detects any change to any earlier record, any insertion and any
    removal; [chain_verify] needs that hash from outside, since a chain cut short
    still verifies. *)
Theorem head_binds_history c c' :
  chain_verify c = Ok () → chain_verify c' = Ok () →
  head_hash genesis_hash (records c) = head_hash genesis_hash (records c') →
  (records c = records c' ∨ collision) ∧
  ∀ n, chain_verify {| entity_id := entity_id c; records := take n (records c) |} = Ok ().
Proof.
  intros Hv Hv' Hh. apply verify_records_linked in Hv. apply verify_records_linked in Hv'.
  split; [by apply binding|]. intros n. by apply verify_records_linked, linked_take.
Qed.

(** ** The store *)

Lemma record_new_verifies now ev who src d parent :
  record_verify (ProvenanceRecord_new now ev who src d parent) = true.
Proof. by apply bool_decide_eq_true. Qed.

Lemma chain_append_linked now ev who src d c :
  linked genesis_hash (records c) →
  linked genesis_hash (records (chain_append now ev who src d c).2).
Proof. intros Hl. apply linked_snoc. split_and!; [done|done|apply record_new_verifies]. Qed.

Inductive prov_op :=
| PRecord (now : DateTime) (entity : string) (ev : ProvenanceEventType) (who : string)
    (src : option string) (d : string)
| PDelete (entity : string).

Definition prov_step (st : gmap string ProvenanceChain) (op : prov_op) : gmap string ProvenanceChain :=
  match op with
  | PRecord now entity ev who src d => (record_event now entity ev who src d st).2
  | PDelete entity => (delete_chain entity st).2
  end.

Definition prov_run (ops : list prov_op) : gmap string ProvenanceChain := foldl prov_step store_new ops.

(** What was recorded for an entity since it was last deleted, oldest first. *)
Definition event := (ProvenanceEventType * string * DateTime * option string * string)%type.

Definition history_step (entity : string) (h : option (list event)) (op : prov_op)
    : option (list event) :=
  match op with
  | PRecord now e ev who src d =>
    if decide (e = entity) then Some (default [] h ++ [(ev, who, now, src, d)]) else h
  | PDelete e => if decide (e = entity) then None else h
  end.

Definition history (entity : string) (ops : list prov_op) : option (list event) :=
  foldl (history_step entity) None ops.

Definition event_of (r : ProvenanceRecord) : event :=
  (event_type r, actor r, timestamp r, source r, description r).

Definition chain_inv (entity : string) (h : option (list event)) (c : option ProvenanceChain) : Prop :=
  (λ c, event_of <$> records c) <$> c = h ∧
  ∀ c', c = Some c' → entity_id c' = entity ∧ linked genesis_hash (records c') ∧ records c' ≠ [].

Lemma chain_inv_step entity h st op :
  chain_inv entity h (st !! entity) →
  chain_inv entity (history_step entity h op) (prov_step st op !! entity).
Proof.
  intros [Hh Hc]. destruct op as [now e ev who src d|e]; cbn; case_decide as He; subst.
  - cbn. rewrite lookup_insert_eq. split.
    + cbn. rewrite fmap_app. cbn. by destruct (st !! entity).
    + intros c' [= <-]. cbn. split_and!; [|apply chain_append_linked|by destruct (records _)].
      * by destruct (st !! entity) as [c|] eqn:Hs; [destruct (Hc c eq_refl)|].
      * by destruct (st !! entity) as [c|] eqn:Hs; [destruct (Hc c eq_refl) as (? & ? & ?)|].
  - cbn. rewrite lookup_insert_ne by done. by split.
  - cbn. rewrite lookup_delete_eq. by split.
  - cbn. rewrite lookup_delete_ne by done. by split.
Qed.

Lemma prov_run_inv entity ops : chain_inv entity (history entity ops) (prov_run ops !! entity).
Proof.
  unfold history, prov_run. induction ops as [|op ops IH] using rev_ind.
  - cbn. by split.
  - rewrite !foldl_app. cbn. by apply chain_inv_step.
Qed.

(** The store keeps faithful histories: after any calls, the chain of an entity
    carries its name and holds exactly the events recorded for it since it was last
    deleted, in order; it verifies, its origin and latest record are the first and
    last of those, and an entity without events is reported as having no chain. *)
Theorem store_keeps_history entity ops :
  let st := prov_run ops in
  match history entity ops with
  | None => get_chain entity st = Err (NotFound entity) ∧ verify_chain entity st = Ok false ∧
      get_origin entity st = Ok None ∧ get_latest entity st = Ok None
  | Some evs => ∃ c, get_chain entity st = Ok c ∧ entity_id c = entity ∧
      event_of <$> records c = evs ∧ evs ≠ [] ∧ verify_chain entity st = Ok true ∧
      get_origin entity st = Ok (head (records c)) ∧ get_latest entity st = Ok (last (records c))
  end.
Proof.
  intros st. destruct (prov_run_inv entity ops) as [Hh Hc]. fold st in Hh, Hc.
  unfold get_chain, verify_chain, get_origin, get_latest.
  destruct (st !! entity) as [c|]; cbn in Hh; rewrite <- Hh; cbn; [|done].
  destruct (Hc c eq_refl) as (He & Hl & Hne). exists c.
  assert (chain_verify c = Ok ()) as -> by by apply verify_records_linked.
  split_and!; [done..| |done|done|done]. by destruct (records c).
Qed.

(** Searching by actor finds exactly that actor's records: over the whole store a
    record is in the result, paired with its entity, when and only when it is in that
    entity's chain and names the actor. *)
Theorem search_by_actor_exact {HI : HashIter string} who ops e r :
  let st := prov_run ops in
  ∃ found, search_by_actor who st = Ok found ∧
    ((e, r) ∈ found ↔ ∃ c, get_chain e st = Ok c ∧ r ∈ records c ∧ actor r = who).
Proof.
  intros st. eexists. split; [done|]. rewrite list_elem_of_bind. unfold get_chain.
  setoid_rewrite ok_or_Ok. split.
  - intros (e' & Hin & He'). apply list_elem_of_fmap in Hin as (r' & [= -> ->] & Hr).
    apply list_elem_of_filter in Hr as [Ha Hr].
    destruct (st !! e') as [c|] eqn:Hs; cbn in Hr; [|by apply not_elem_of_nil in Hr]. by exists c.
  - intros (c & Hs & Hr & Ha). exists e. rewrite Hs. cbn. split.
    + apply list_elem_of_fmap_2, list_elem_of_filter. done.
    + apply elem_of_hash_iter, elem_of_dom. by eexists.
Qed.

End spec.
