(* ===== verification/Temporal.v ===== *)
(** * Version history

    Models [src/rust-core/verisim-temporal/src/lib.rs] and [diff.rs]: the versions of
    each entity, kept in a [BTreeMap] by number, and the differences between them. *)

From S2P Require Import Prelude.
Local Open Scope Z_scope.

(** ** Ordered maps *)

(** [BTreeMap<u64, V>]: the entries in key order. *)
Fixpoint btree_insert {V : Type} (k : Z) (v : V) (m : list (Z * V)) : list (Z * V) :=
  match m with
  | [] => [(k, v)]
  | (k', v') :: m =>
    if k <? k' then (k, v) :: (k', v') :: m
    else if k =? k' then (k, v) :: m
    else (k', v') :: btree_insert k v m
  end.

Fixpoint btree_get {V : Type} (k : Z) (m : list (Z * V)) : option V :=
  match m with
  | [] => None
  | (k', v) :: m => if k =? k' then Some v else btree_get k m
  end.

(** ** Versions *)

Inductive TemporalError :=
| EntityNotFound (entity : string)
| VersionNotFound (entity : string) (v : Z)
| InvalidTimeRange (reason : string)
| TemporalConflict (reason : string)
| LockPoisoned.

Section temporal.
Context {CH : Chrono} {T : Type}.

Record Version := {
  version : Z;
  v_timestamp : DateTime;
  v_data : T;
  v_author : string;
  v_message : option string;
}.

Definition Version_new (now : DateTime) (n : Z) (data : T) (author : string) : Version :=
  {| version := n; v_timestamp := now; v_data := data; v_author := author; v_message := None |}.

Definition with_message (message : string) (v : Version) : Version :=
  {| version := version v; v_timestamp := v_timestamp v; v_data := v_data v;
     v_author := v_author v; v_message := Some message |}.

(** [VersionHistory<T>] is [gmap string (list (Z * Version))]. *)

(** ** Time ranges *)

Record TimeRange := { tr_start : DateTime; tr_end : DateTime }.

(** [start >= end] *)
Definition TimeRange_new (start stop : DateTime) : result TemporalError TimeRange :=
  if DateTime_leb stop start then Err (InvalidTimeRange "start must be before end")
  else Ok {| tr_start := start; tr_end := stop |}.

(** [time >= start && time < end] *)
Definition tr_contains (r : TimeRange) (time : DateTime) : bool :=
  DateTime_leb (tr_start r) time && negb (DateTime_leb (tr_end r) time).

(** ** The in-memory store *)

Definition versions_of (entity_id : string) (store : gmap string (list (Z * Version))) : list Version :=
  snd <$> default [] (store !! entity_id).

Definition temporal_append (now : DateTime) (entity_id : string) (data : T) (author : string)
    (message : option string) (store : gmap string (list (Z * Version)))
    : result TemporalError Z * gmap string (list (Z * Version)) :=
  let versions := default [] (store !! entity_id) in
  let next_version := match last versions with Some (v, _) => u64_add v 1 | None => 1 end in
  let v := Version_new now next_version data author in
  let v := match message with Some msg => with_message msg v | None => v end in
  (Ok next_version, <[entity_id := btree_insert next_version v versions]> store).

Definition temporal_latest (entity_id : string) (store : gmap string (list (Z * Version)))
    : result TemporalError (option Version) :=
  Ok (last (versions_of entity_id store)).

Definition at_version (entity_id : string) (n : Z) (store : gmap string (list (Z * Version)))
    : result TemporalError (option Version) :=
  Ok (btree_get n (default [] (store !! entity_id))).

Definition temporal_at_time (entity_id : string) (time : DateTime) (store : gmap string (list (Z * Version)))
    : result TemporalError (option Version) :=
  Ok (last (filter (λ v, DateTime_leb (v_timestamp v) time = true) (versions_of entity_id store))).

Definition in_range (entity_id : string) (range : TimeRange) (store : gmap string (list (Z * Version)))
    : result TemporalError (list Version) :=
  Ok (filter (λ v, tr_contains range (v_timestamp v) = true) (versions_of entity_id store)).

Definition temporal_history (entity_id : string) (limit : nat) (store : gmap string (list (Z * Version)))
    : result TemporalError (list Version) :=
  Ok (take limit (reverse (versions_of entity_id store))).

(** ** Time series *)

Record TimePoint := { tp_time : DateTime; tp_value : T; tp_labels : gmap string string }.

Definition series_append (series_id : string) (point : TimePoint)
    (series : gmap string (list TimePoint))
    : result TemporalError () * gmap string (list TimePoint) :=
  (Ok (), <[series_id := default [] (series !! series_id) ++ [point]]> series).

Definition series_query (series_id : string) (range : TimeRange)
    (series : gmap string (list TimePoint)) : result TemporalError (list TimePoint) :=
  Ok (filter (λ p, tr_contains range (tp_time p) = true) (default [] (series !! series_id))).

Definition series_latest (series_id : string) (series : gmap string (list TimePoint))
    : result TemporalError (option TimePoint) :=
  Ok (series !! series_id ≫= last).

(** ** Differences *)

Inductive Diff :=
| NoChange (value : T)
| Changed (old new : T)
| Added (value : T)
| Removed (value : T).

Definition has_change (d : Diff) : bool := match d with NoChange _ => false | _ => true end.

Definition new_value (d : Diff) : option T :=
  match d with
  | NoChange value => Some value
  | Changed _ new => Some new
  | Added value => Some value
  | Removed _ => None
  end.

Definition old_value (d : Diff) : option T :=
  match d with
  | NoChange value => Some value
  | Changed old _ => Some old
  | Added _ => None
  | Removed value => Some value
  end.

Inductive DiffError := IncomparableValues.

(** [PartialEq] on the data is a parameter. *)
Context (data_eqb : T → T → bool).

Definition compare_values (old new : option T) : result DiffError Diff :=
  match old, new with
  | Some old_val, Some new_val =>
    if data_eqb old_val new_val then Ok (NoChange old_val) else Ok (Changed old_val new_val)
  | Some old_val, None => Ok (Removed old_val)
  | None, Some new_val => Ok (Added new_val)
  | None, None => Err IncomparableValues
  end.

Definition not_comparable (entity_id : string) : TemporalError :=
  EntityNotFound ("No versions to compare for entity " +:+ entity_id).

Definition diff (entity_id : string) (v1 v2 : Z) (store : gmap string (list (Z * Version)))
    : result TemporalError Diff :=
  version1 ← at_version entity_id v1 store;
  version2 ← at_version entity_id v2 store;
  map_err (λ _, not_comparable entity_id)
    (compare_values (v_data <$> version1) (v_data <$> version2)).

Definition diff_time (entity_id : string) (t1 t2 : DateTime) (store : gmap string (list (Z * Version)))
    : result TemporalError Diff :=
  version1 ← temporal_at_time entity_id t1 store;
  version2 ← temporal_at_time entity_id t2 store;
  map_err (λ _, not_comparable entity_id)
    (compare_values (v_data <$> version1) (v_data <$> version2)).

End temporal.
Arguments Version {CH} T.
Arguments Diff T : clear implicits.

(** ** Version histories are faithful

    Versions are numbered from one without gaps, every one of them stays readable as it
    was written, and asking for a time gives the version that was current then. *)

(** ** Ordered maps *)

Lemma btree_insert_last {V : Type} (k : Z) (v : V) m :
  Forall (λ e, e.1 < k) m → btree_insert k v m = m ++ [(k, v)].
Proof.
  induction 1 as [|[k' v'] m Hk _ IH]; [done|]. cbn in *.
  rewrite (proj2 (Z.ltb_ge _ _)) by lia. rewrite (proj2 (Z.eqb_neq _ _)) by lia. by rewrite IH.
Qed.

Section spec.
Context {CH : Chrono} {T : Type}.

(** ** Runs *)

Record append_op := {
  ap_now : DateTime; ap_entity : string; ap_data : T; ap_author : string;
  ap_message : option string;
}.

Definition append_step (store : gmap string (list (Z * Version T))) (op : append_op)
    : gmap string (list (Z * Version T)) :=
  (temporal_append (ap_now op) (ap_entity op) (ap_data op) (ap_author op) (ap_message op) store).2.

Definition append_run (ops : list append_op) : gmap string (list (Z * Version T)) :=
  foldl append_step ∅ ops.

(** The calls for one entity, and the version the [i]-th of them makes. *)
Definition calls_for (entity : string) (ops : list append_op) : list append_op :=
  filter (λ op, ap_entity op = entity) ops.

Definition version_of (i : nat) (op : append_op) : Version T :=
  {| version := Z.of_nat i + 1; v_timestamp := ap_now op; v_data := ap_data op;
     v_author := ap_author op; v_message := ap_message op |}.

Definition written (entity : string) (ops : list append_op) : list (Version T) :=
  imap version_of (calls_for entity ops).

(** The map of an entity: its versions under their numbers. *)
Definition keyed (vs : list (Version T)) : list (Z * Version T) := (λ v, (version v, v)) <$> vs.

Lemma written_snoc entity ops op :
  written entity (ops ++ [op]) =
  written entity ops ++
    (if decide (ap_entity op = entity) then [version_of (length (written entity ops)) op] else []).
Proof.
  unfold written, calls_for. rewrite filter_app, filter_cons, filter_nil.
  rewrite length_imap. case_decide; [|by rewrite !app_nil_r].
  rewrite imap_app. cbn. by rewrite Nat.add_0_r.
Qed.

Lemma written_lookup entity ops i v : written entity ops !! i = Some v → version v = Z.of_nat i + 1.
Proof. unfold written. rewrite list_lookup_imap. by intros (op & _ & ->)%fmap_Some. Qed.

Lemma length_written entity ops : (length (written entity ops) ≤ length ops)%nat.
Proof. unfold written. rewrite length_imap. apply length_filter. Qed.

Lemma keyed_below entity ops :
  Forall (λ e, e.1 < Z.of_nat (length (written entity ops)) + 1) (keyed (written entity ops)).
Proof.
  apply Forall_forall. intros e (v & -> & Hv)%list_elem_of_fmap. cbn.
  apply list_elem_of_lookup in Hv as [i Hi]. pose proof (lookup_lt_Some _ _ _ Hi) as Hlt.
  rewrite (written_lookup _ _ _ _ Hi). lia.
Qed.

Lemma last_keyed entity ops :
  match last (keyed (written entity ops)) with Some (v, _) => v | None => 0 end =
  Z.of_nat (length (written entity ops)).
Proof.
  unfold keyed. rewrite fmap_last, last_lookup.
  destruct (written entity ops !! Nat.pred (length (written entity ops))) as [v|] eqn:Hv; cbn.
  - pose proof (lookup_lt_Some _ _ _ Hv) as Hlt. rewrite (written_lookup _ _ _ _ Hv). lia.
  - apply lookup_ge_None in Hv. lia.
Qed.

Lemma append_run_written entity ops :
  Z.of_nat (length ops) < 2 ^ 64 - 1 →
  default [] (append_run ops !! entity) = keyed (written entity ops).
Proof.
  induction ops as [|op ops IH] using rev_ind; [done|].
  rewrite length_app. cbn. intros Hlen. specialize (IH ltac:(lia)).
  unfold append_run in *. rewrite foldl_app. cbn [foldl]. rewrite written_snoc.
  unfold append_step at 1, temporal_append. cbn [snd]. case_decide as He.
  - subst entity. rewrite lookup_insert_eq. change (default [] (Some ?x)) with x.
    rewrite IH. pose proof (last_keyed (ap_entity op) ops) as Hl.
    assert (match last (keyed (written (ap_entity op) ops)) with
            | Some (v, _) => u64_add v 1 | None => 1 end =
            Z.of_nat (length (written (ap_entity op) ops)) + 1) as ->.
    { pose proof (length_written (ap_entity op) ops). destruct (last _) as [[v ?]|]; [|lia]. subst v. apply u64_add_small. red. lia. }
    rewrite btree_insert_last by apply keyed_below.
    unfold keyed. rewrite fmap_app. do 2 f_equal. cbn. unfold version_of.
    by destruct (ap_message op).
  - rewrite lookup_insert_ne by done. by rewrite IH, app_nil_r.
Qed.

Lemma versions_written entity ops :
  Z.of_nat (length ops) < 2 ^ 64 - 1 → versions_of entity (append_run ops) = written entity ops.
Proof.
  intros Hlen. unfold versions_of. rewrite append_run_written by done.
  unfold keyed. rewrite <- list_fmap_compose. apply list_fmap_id.
Qed.

Lemma btree_get_keyed n vs :
  (∀ i v, vs !! i = Some v → version v = Z.of_nat i + 1 + n) → ∀ k,
  btree_get k (keyed vs) = if decide (n < k) then vs !! Z.to_nat (k - n - 1) else None.
Proof.
  revert n. induction vs as [|v vs IH]; intros n Hv k; cbn.
  - by destruct (decide (n < k)).
  - pose proof (Hv 0%nat v eq_refl) as H0. rewrite H0.
    destruct (Z.eqb_spec k (Z.of_nat 0 + 1 + n)) as [->|Hne].
    + rewrite decide_True by lia. by replace (Z.to_nat _) with 0%nat by lia.
    + rewrite (IH (n + 1)).
      2:{ intros i w Hw. rewrite (Hv (S i) w Hw). lia. }
      destruct (decide (n + 1 < k)), (decide (n < k)); try lia; [|done].
      by replace (Z.to_nat (k - n - 1)) with (S (Z.to_nat (k - (n + 1) - 1))) by lia.
Qed.

(** The version current at a time. *)
Definition current_at (vs : list (Version T)) (time : DateTime) (o : option (Version T)) : Prop :=
  match o with
  | Some v => ∃ i, vs !! i = Some v ∧ DateTime_leb (v_timestamp v) time = true ∧
      ∀ w, vs !! S i = Some w → DateTime_leb (v_timestamp w) time = false
  | None => ∀ w, vs !! 0%nat = Some w → DateTime_leb (v_timestamp w) time = false
  end.

Definition chronological (vs : list (Version T)) : Prop :=
  StronglySorted (λ v w, DateTime_leb (v_timestamp v) (v_timestamp w) = true) vs.

Context {CL : ChronoLaws CH}.

Lemma filter_current vs time :
  chronological vs →
  ∃ n, filter (λ v, DateTime_leb (v_timestamp v) time = true) vs = take n vs ∧ (n ≤ length vs)%nat ∧
    Forall (λ v, DateTime_leb (v_timestamp v) time = true) (take n vs) ∧
    ∀ w, vs !! n = Some w → DateTime_leb (v_timestamp w) time = false.
Proof.
  induction 1 as [|v vs Hs IH Hall]; [by exists 0%nat; split_and!|].
  destruct (DateTime_leb (v_timestamp v) time) eqn:Hv.
  - destruct IH as (n & Hf & Hn & Hle & Hw). exists (S n).
    rewrite filter_cons_True by done. cbn. rewrite Hf. split_and!; [done|lia|by constructor|done].
  - exists 0%nat. split_and!; [|lia|constructor|by intros w [= <-]].
    rewrite filter_cons_False by by rewrite Hv. apply filter_none, Forall_forall. intros w Hw Hle.
    rewrite Forall_forall in Hall. specialize (Hall w Hw).
    by rewrite (DateTime_leb_trans _ _ _ Hall Hle) in Hv.
Qed.

(** C23: Version histories are faithful: after any appends, the versions of an entity
    are exactly the data appended for it, numbered from one in order; the next append
    gets the next number, reading a number gives the version written under it, latest
    and history agree, and, when the clock never ran backwards, asking for a time gives
    the version that was current then (none before the first). *)
Theorem history_faithful entity ops :
  Z.of_nat (length ops) < 2 ^ 64 - 1 → chronological (written entity ops) →
  let st := append_run ops in
  let vs := written entity ops in
  (∀ now data author message,
    (temporal_append now entity data author message st).1 = Ok (Z.of_nat (length vs) + 1)) ∧
  (∀ n, at_version entity n st = Ok (if decide (0 < n) then vs !! Z.to_nat (n - 1) else None)) ∧
  temporal_latest entity st = Ok (last vs) ∧
  (∀ limit, temporal_history entity limit st = Ok (take limit (reverse vs))) ∧
  ∀ time, ∃ o, temporal_at_time entity time st = Ok o ∧ current_at vs time o.
Proof.
  intros Hlen Hchr st vs. pose proof (versions_written entity ops Hlen) as Hvs. fold st vs in Hvs.
  pose proof (append_run_written entity ops Hlen) as Hm. fold st vs in Hm.
  split_and!.
  - intros now data author message. cbn. rewrite Hm. pose proof (last_keyed entity ops) as Hl.
    fold vs in Hl. pose proof (length_written entity ops) as Hle. fold vs in Hle.
    destruct (last (keyed vs)) as [[v ?]|]; [|by rewrite <- Hl].
    subst v. f_equal. apply u64_add_small. red. lia.
  - intros n. unfold at_version. rewrite Hm, (btree_get_keyed 0).
    2:{ intros i v Hi. rewrite (written_lookup _ _ _ _ Hi). lia. }
    do 2 f_equal. by rewrite Z.sub_0_r.
  - unfold temporal_latest. by rewrite Hvs.
  - intros limit. unfold temporal_history. by rewrite Hvs.
  - intros time. eexists. split; [done|]. rewrite Hvs.
    destruct (filter_current vs time Hchr) as (n & -> & Hn & Hle & Hw).
    destruct n as [|n]; [done|]. destruct (vs !! n) as [v|] eqn:Hv.
    2:{ apply lookup_ge_None in Hv. lia. }
    rewrite (take_S_r _ _ _ Hv) in Hle |- *. rewrite last_snoc.
    apply Forall_app in Hle as [_ Hle]. rewrite Forall_singleton in Hle.
    exists n. split_and!; [exact Hv|exact Hle|exact Hw].
Qed.

End spec.
