(* ===== verification/Graph.v ===== *)
(** * The graph store

    Models the in-memory [SimpleGraphStore] of [src/rust-core/verisim-graph/src/lib.rs]:
    triples under a canonical key, indexed by subject and by object, and the search of a
    node's neighbourhood.  The order a [HashSet] iterates in is a parameter.  A lock is
    never poisoned: no operation panics while it holds one. *)

From S2P Require Import Prelude.
From Stdlib Require String Ascii.
From Stdlib Require String.

Inductive GraphError :=
| StoreError (e : string)
| ParseError (e : string)
| GraphNotFound (e : string)
| InvalidIri (e : string)
| GraphLockPoisoned.

Record GraphNode := { iri : string; local_name : string }.

#[export] Instance GraphNode_eq_dec : EqDecision GraphNode.
Proof. solve_decision. Defined.

(** What follows the last [c] of a string: [rsplit_once(c)]'s second half. *)
Fixpoint after_last (c : Ascii.ascii) (s : string) : option string :=
  match s with
  | String.EmptyString => None
  | String.String a s =>
    match after_last c s with
    | Some t => Some t
    | None => if decide (a = c) then Some s else None
    end
  end.

Definition hash : Ascii.ascii := Ascii.ascii_of_nat 35.

Definition GraphNode_new (iri : string) : GraphNode :=
  {| iri := iri;
     local_name :=
       match after_last slash iri with
       | Some name => name
       | None => default iri (after_last hash iri)
       end |}.

Inductive GraphObject :=
| Node (n : GraphNode)
| Literal (value : string) (datatype : option string).

Record GraphEdge := { subject : GraphNode; predicate : GraphNode; object : GraphObject }.

(** [TripleKey(subject_iri, predicate_iri, object_key)] *)
Definition TripleKey : Type := string * string * string.

Definition object_key (o : GraphObject) : string :=
  match o with
  | Node n => iri n
  | Literal value _ => "literal::" +:+ value
  end.

Definition from_edge (e : GraphEdge) : TripleKey :=
  (iri (subject e), iri (predicate e), object_key (object e)).

Record SimpleGraphStore := {
  edges : gmap TripleKey GraphEdge;
  subject_idx : gmap string (gset TripleKey);
  object_idx : gmap string (gset TripleKey);
}.

Definition graph_new : SimpleGraphStore := {| edges := ∅; subject_idx := ∅; object_idx := ∅ |}.

(** [idx.entry(k).or_default().insert(key)] *)
Definition idx_insert (k : string) (key : TripleKey) (idx : gmap string (gset TripleKey))
    : gmap string (gset TripleKey) :=
  <[k := {[key]} ∪ default ∅ (idx !! k)]> idx.

(** [if let Some(keys) = idx.get_mut(k) { keys.remove(&key); if keys.is_empty() { idx.remove(k) } }] *)
Definition idx_remove (k : string) (key : TripleKey) (idx : gmap string (gset TripleKey))
    : gmap string (gset TripleKey) :=
  match idx !! k with
  | Some keys =>
    let keys := keys ∖ {[key]} in
    if decide (keys = ∅) then delete k idx else <[k := keys]> idx
  | None => idx
  end.

Definition graph_insert (e : GraphEdge) (g : SimpleGraphStore)
    : result GraphError () * SimpleGraphStore :=
  let key := from_edge e in
  (Ok (),
   {| subject_idx := idx_insert (iri (subject e)) key (subject_idx g);
      object_idx := match object e with
                    | Node n => idx_insert (iri n) key (object_idx g)
                    | Literal _ _ => object_idx g
                    end;
      edges := <[key := e]> (edges g) |}).

Definition graph_exists (e : GraphEdge) (g : SimpleGraphStore) : result GraphError bool :=
  Ok (bool_decide (is_Some (edges g !! from_edge e))).

Definition graph_delete (e : GraphEdge) (g : SimpleGraphStore)
    : result GraphError () * SimpleGraphStore :=
  let key := from_edge e in
  (Ok (),
   {| subject_idx := idx_remove (iri (subject e)) key (subject_idx g);
      object_idx := match object e with
                    | Node n => idx_remove (iri n) key (object_idx g)
                    | Literal _ _ => object_idx g
                    end;
      edges := delete key (edges g) |}).

Section queries.
Context `{HK : !HashIter TripleKey} `{HS : !HashIter string}.

(** [keys.iter().filter_map(|k| edges.get(k).cloned())] *)
Definition edges_at (idx : gmap string (gset TripleKey)) (k : string) (g : SimpleGraphStore)
    : list GraphEdge :=
  match idx !! k with
  | Some keys => omap (λ key, edges g !! key) (hash_iter keys)
  | None => []
  end.

Definition outgoing (node : GraphNode) (g : SimpleGraphStore) : result GraphError (list GraphEdge) :=
  Ok (edges_at (subject_idx g) (iri node) g).

Definition incoming (node : GraphNode) (g : SimpleGraphStore) : result GraphError (list GraphEdge) :=
  Ok (edges_at (object_idx g) (iri node) g).

(** [if visited.insert(n.iri) { next_frontier.push(n) }] *)
Definition visit (n : GraphNode) (acc : gset string * list GraphNode) : gset string * list GraphNode :=
  let '(visited, next_frontier) := acc in
  if decide (iri n ∈ visited) then acc else ({[iri n]} ∪ visited, next_frontier ++ [n]).

Definition visit_object (acc : gset string * list GraphNode) (e : GraphEdge)
    : gset string * list GraphNode :=
  match object e with
  | Node n => visit n acc
  | Literal _ _ => acc
  end.

Definition visit_subject (acc : gset string * list GraphNode) (e : GraphEdge)
    : gset string * list GraphNode := visit (subject e) acc.

End queries.

(** [neighborhood], whose loop is the same in every store. *)
Section search.
Context `{HS : !HashIter string}.
Context (out inc : GraphNode → result GraphError (list GraphEdge)).

(** One node of the frontier. *)
Definition expand (acc : result GraphError (gset string * list GraphNode)) (current : GraphNode)
    : result GraphError (gset string * list GraphNode) :=
  acc ← acc;
  outgoing ← out current;
  let acc := foldl visit_object acc outgoing in
  incoming ← inc current;
  Ok (foldl visit_subject acc incoming).

(** One round of [for _ in 0..hops]. *)
Definition hop (state : result GraphError (gset string * list GraphNode))
    : result GraphError (gset string * list GraphNode) :=
  '(visited, frontier) ← state;
  foldl expand (Ok (visited, [])) frontier.

Definition search (node : GraphNode) (hops : nat) : result GraphError (list GraphNode) :=
  '(visited, _) ← Nat.iter hops hop (Ok ({[iri node]}, [node]));
  Ok (GraphNode_new <$> hash_iter visited).

End search.

Definition neighborhood `{!HashIter TripleKey} `{!HashIter string} (node : GraphNode) (hops : nat)
    (g : SimpleGraphStore) : result GraphError (list GraphNode) :=
  search (λ n, outgoing n g) (λ n, incoming n g) node hops.

(** ** The graph store answers exactly

    The indices never drift from the stored triples, and the neighbourhood search finds
    exactly the nodes within the given number of hops. *)

(** ** Runs *)

Inductive graph_op := GInsert (e : GraphEdge) | GDelete (e : GraphEdge).

Definition graph_step (g : SimpleGraphStore) (op : graph_op) : SimpleGraphStore :=
  match op with
  | GInsert e => (graph_insert e g).2
  | GDelete e => (graph_delete e g).2
  end.

Definition graph_run (ops : list graph_op) : SimpleGraphStore := foldl graph_step graph_new ops.

(** The reference: a map from keys to triples. *)
Definition model_step (m : gmap TripleKey GraphEdge) (op : graph_op) : gmap TripleKey GraphEdge :=
  match op with
  | GInsert e => <[from_edge e := e]> m
  | GDelete e => delete (from_edge e) m
  end.

Definition graph_model (ops : list graph_op) : gmap TripleKey GraphEdge := foldl model_step ∅ ops.

Definition stored (ops : list graph_op) (e : GraphEdge) : Prop :=
  graph_model ops !! from_edge e = Some e.

(** ** The indices *)

Definition idx_keys (idx : gmap string (gset TripleKey)) (k : string) : gset TripleKey :=
  default ∅ (idx !! k).

Record graph_inv (g : SimpleGraphStore) : Prop := {
  gi_key : ∀ k e, edges g !! k = Some e → from_edge e = k;
  gi_subject : ∀ s k, k ∈ idx_keys (subject_idx g) s ↔ k.1.1 = s ∧ is_Some (edges g !! k);
  gi_object : ∀ o k, k ∈ idx_keys (object_idx g) o → k.2 = o;
  gi_nodes : ∀ k e n, edges g !! k = Some e → object e = Node n →
    k ∈ idx_keys (object_idx g) (iri n);
}.

Lemma elem_of_idx_insert key k idx k' key' :
  key' ∈ idx_keys (idx_insert k key idx) k' ↔ key' ∈ idx_keys idx k' ∨ k = k' ∧ key' = key.
Proof.
  unfold idx_keys, idx_insert. destruct (decide (k = k')) as [->|Hne].
  - rewrite lookup_insert_eq. cbn. set_solver.
  - rewrite lookup_insert_ne by done. naive_solver.
Qed.

Lemma elem_of_idx_remove key k idx k' key' :
  key' ∈ idx_keys (idx_remove k key idx) k' ↔ key' ∈ idx_keys idx k' ∧ ¬ (k = k' ∧ key' = key).
Proof.
  unfold idx_keys, idx_remove. destruct (idx !! k) as [keys|] eqn:Hk; [case_decide as He|].
  - destruct (decide (k = k')) as [<-|Hne].
    + rewrite lookup_delete_eq, Hk. cbn. set_solver.
    + rewrite lookup_delete_ne by done. naive_solver.
  - destruct (decide (k = k')) as [<-|Hne].
    + rewrite lookup_insert_eq, Hk. cbn. set_solver.
    + rewrite lookup_insert_ne by done. naive_solver.
  - split; [|naive_solver]. intros Hin. split; [done|]. intros [<- ->]. rewrite Hk in Hin. set_solver.
Qed.

Lemma graph_inv_insert g e : graph_inv g → graph_inv (graph_insert e g).2.
Proof.
  intros [Hk Hs Ho Hn]. split; cbn.
  - intros k e' [[<- <-]|[_ H]]%lookup_insert_Some; [done|by apply Hk].
  - intros s k. rewrite elem_of_idx_insert, Hs, lookup_insert_is_Some. unfold from_edge.
    destruct (decide (from_edge e = k)) as [<-|Hne]; cbn; [naive_solver|].
    unfold from_edge in Hne. naive_solver.
  - intros o k. destruct (object e) as [n|v d] eqn:He; [|apply Ho].
    rewrite elem_of_idx_insert. intros [H|[<- ->]]; [by apply Ho|]. cbn. by rewrite He.
  - intros k e' n [[<- <-]|[_ H]]%lookup_insert_Some He'.
    + rewrite He'. apply elem_of_idx_insert. by right.
    + specialize (Hn k e' n H He'). destruct (object e); [|done]. apply elem_of_idx_insert. by left.
Qed.

Lemma graph_inv_delete g e : graph_inv g → graph_inv (graph_delete e g).2.
Proof.
  intros [Hk Hs Ho Hn]. split; cbn.
  - intros k e' [_ H]%lookup_delete_Some. by apply Hk.
  - intros s k. rewrite elem_of_idx_remove, Hs, lookup_delete_is_Some. unfold from_edge.
    split; [|naive_solver]. intros [[<- Hsome] Hne]. split_and!; [done| |done].
    intros <-. by apply Hne.
  - intros o k. destruct (object e) as [n|v d] eqn:He; [|apply Ho].
    rewrite elem_of_idx_remove. intros [H _]. by apply Ho.
  - intros k e' n [Hne H]%lookup_delete_Some He'. specialize (Hn k e' n H He').
    destruct (object e); [|done]. apply elem_of_idx_remove. naive_solver.
Qed.

Lemma graph_inv_run ops : graph_inv (graph_run ops) ∧ edges (graph_run ops) = graph_model ops.
Proof.
  induction ops as [|op ops [IH IHe]] using rev_ind.
  - split; [|done]. split; cbn; unfold idx_keys.
    + intros k e H. by rewrite lookup_empty in H.
    + intros s k. rewrite !lookup_empty. cbn. split; [set_solver|]. by intros [_ [? ?]].
    + intros o k. rewrite lookup_empty. cbn. set_solver.
    + intros k e n H. by rewrite lookup_empty in H.
  - unfold graph_run, graph_model in *. rewrite !foldl_app. cbn [foldl]. destruct op; cbn [graph_step].
    + split; [by apply graph_inv_insert|]. cbn. by rewrite IHe.
    + split; [by apply graph_inv_delete|]. cbn. by rewrite IHe.
Qed.

Section queries.
Context `{HK : !HashIter TripleKey} `{HS : !HashIter string}.

Lemma elem_of_edges_at idx k g e :
  graph_inv g → e ∈ edges_at idx k g ↔ edges g !! from_edge e = Some e ∧ from_edge e ∈ idx_keys idx k.
Proof.
  intros Hi. unfold edges_at, idx_keys. destruct (idx !! k) as [keys|]; cbn.
  - rewrite list_elem_of_omap. setoid_rewrite elem_of_hash_iter. split.
    + intros (key & Hin & He). by rewrite (gi_key g Hi key e He).
    + intros [He Hin]. by exists (from_edge e).
  - split; [by intros ?%not_elem_of_nil|set_solver].
Qed.

Lemma NoDup_edges_at idx k g : graph_inv g → NoDup (edges_at idx k g).
Proof.
  intros Hi. unfold edges_at. destruct (idx !! k) as [keys|]; [|constructor].
  assert (NoDup (hash_iter keys)) as Hnd by (rewrite hash_iter_perm; apply NoDup_elements).
  induction Hnd as [|key l Hni _ IH]; [constructor|]. cbn.
  destruct (edges g !! key) as [e|] eqn:He; [|done]. constructor; [|done].
  rewrite list_elem_of_omap. intros (key' & Hin & He'). apply Hni.
  by rewrite <- (gi_key g Hi _ _ He), (gi_key g Hi _ _ He').
Qed.

(** An IRI that no literal's key can be mistaken for. *)
Definition proper_iri (i : string) : Prop := ∀ v, i ≠ "literal::" +:+ v.

Definition points_to (e : GraphEdge) (i : string) : Prop := ∃ n, object e = Node n ∧ iri n = i.

Lemma elem_of_outgoing g n e :
  graph_inv g →
  e ∈ edges_at (subject_idx g) (iri n) g ↔
    edges g !! from_edge e = Some e ∧ iri (subject e) = iri n.
Proof. intros Hi. rewrite elem_of_edges_at, (gi_subject g Hi) by done. cbn. naive_solver. Qed.

Lemma elem_of_incoming g n e :
  graph_inv g → proper_iri (iri n) →
  e ∈ edges_at (object_idx g) (iri n) g ↔
    edges g !! from_edge e = Some e ∧ points_to e (iri n).
Proof.
  intros Hi Hn. rewrite elem_of_edges_at by done. split; intros [He Ho]; (split; [done|]).
  - apply (gi_object g Hi) in Ho. cbn in Ho. destruct (object e) as [n'|v d] eqn:Hobj; cbn in Ho.
    + by exists n'.
    + by destruct (Hn v).
  - destruct Ho as (n' & Hobj & <-). by apply (gi_nodes g Hi _ e).
Qed.

(** C24: Graph queries are exact: after any inserts and deletes, the outgoing edges of a
    node are the stored triples whose subject it is and the incoming ones those whose
    object it is, each once, and a triple exists when one with its key is stored; a
    stored triple is the last one inserted under its key and not deleted since.  (An
    IRI that begins with [literal::] shares its key with a literal.) *)
Theorem graph_queries_exact ops n :
  proper_iri (iri n) →
  let g := graph_run ops in
  ∃ out inc, outgoing n g = Ok out ∧ incoming n g = Ok inc ∧ NoDup out ∧ NoDup inc ∧
    (∀ e, e ∈ out ↔ stored ops e ∧ iri (subject e) = iri n) ∧
    (∀ e, e ∈ inc ↔ stored ops e ∧ points_to e (iri n)) ∧
    ∀ e, graph_exists e g = Ok true ↔ ∃ e', stored ops e' ∧ from_edge e' = from_edge e.
Proof.
  intros Hn g. destruct (graph_inv_run ops) as [Hi He]. fold g in Hi, He. unfold stored.
  rewrite <- He. eexists _, _. split_and!; [done..|by apply NoDup_edges_at|by apply NoDup_edges_at| | |].
  - intros e. by apply elem_of_outgoing.
  - intros e. by apply elem_of_incoming.
  - intros e. unfold graph_exists. split.
    + intros [= [e' Hs]%bool_decide_eq_true]. exists e'.
      assert (from_edge e' = from_edge e) as Hk by by apply (gi_key g Hi). by rewrite Hk.
    + intros (e' & Hs & Hk). f_equal. apply bool_decide_eq_true. rewrite <- Hk. by eexists.
Qed.

End queries.

(** ** Neighbourhoods *)

(** A search step that visits the IRIs of [P]: the new ones, and only those, join the
    next frontier. *)
Definition visits (P : string → Prop) (before after : gset string * list GraphNode) : Prop :=
  (∀ x, x ∈ after.1 ↔ x ∈ before.1 ∨ P x) ∧
  (∀ x, x ∈ iri <$> after.2 ↔ x ∈ iri <$> before.2 ∨ P x ∧ x ∉ before.1).

Lemma visits_refl a : visits (λ _, False) a a.
Proof. split; naive_solver. Qed.

Lemma visits_trans P Q a b c : visits P a b → visits Q b c → visits (λ x, P x ∨ Q x) a c.
Proof.
  intros [H1 H2] [H3 H4]. split.
  - intros x. rewrite H3, H1. tauto.
  - intros x. rewrite H4, H2. specialize (H1 x).
    destruct (decide (x ∈ a.1)), (decide (x ∈ b.1)); tauto.
Qed.

Lemma visits_ext P Q a b : (∀ x, P x ↔ Q x) → visits P a b → visits Q a b.
Proof. intros HPQ [H1 H2]. split; intros x; [rewrite H1|rewrite H2]; by rewrite HPQ. Qed.

Lemma visit_visits n a : visits (λ x, x = iri n) a (visit n a).
Proof.
  destruct a as [vis nf]. unfold visit. case_decide as Hin; split; intros x; cbn.
  - split; [by left|]. intros [?| ->]; done.
  - split; [by left|]. by intros [?|[-> ?]].
  - set_solver.
  - rewrite fmap_app, elem_of_app. cbn. rewrite list_elem_of_singleton. naive_solver.
Qed.

Lemma foldl_visits (f : gset string * list GraphNode → GraphEdge → gset string * list GraphNode)
    (P : GraphEdge → string → Prop) (l : list GraphEdge) :
  (∀ a e, visits (P e) a (f a e)) → ∀ a,
  visits (λ x, ∃ e, e ∈ l ∧ P e x) a (foldl f a l).
Proof.
  intros Hf. induction l as [|e l IH]; intros a; cbn.
  - eapply visits_ext; [|apply visits_refl]. intros x. split; [done|]. by intros (e & ?%not_elem_of_nil & _).
  - eapply visits_ext; [|apply (visits_trans _ _ _ _ _ (Hf a e) (IH (f a e)))].
    intros x. cbn. setoid_rewrite elem_of_cons. naive_solver.
Qed.

Lemma visit_object_visits a e : visits (points_to e) a (visit_object a e).
Proof.
  unfold visit_object, points_to. destruct (object e) as [n|v d].
  - eapply visits_ext; [|apply visit_visits]. naive_solver.
  - eapply visits_ext; [|apply visits_refl]. naive_solver.
Qed.

(** At most [h] steps of [adj] away. *)
Fixpoint within (adj : string → string → Prop) (h : nat) (s x : string) : Prop :=
  match h with
  | O => x = s
  | S h => within adj h s x ∨ ∃ u, within adj h s u ∧ adj u x
  end.

Section search_exact.
Context `{HS : !HashIter string}.
Context (out inc : GraphNode → result GraphError (list GraphEdge)).
Context (adj : string → string → Prop) (good : string → Prop).
Context (answers : ∀ n, good (iri n) → ∃ o i, out n = Ok o ∧ inc n = Ok i ∧
  ∀ x, ((∃ e, e ∈ o ∧ points_to e x) ∨ ∃ e, e ∈ i ∧ x = iri (subject e)) ↔ adj (iri n) x).
Context (good_adj : ∀ u v, good u → adj u v → good v).

Lemma expand_visits a n :
  good (iri n) → ∃ b, expand out inc (Ok a) n = Ok b ∧ visits (adj (iri n)) a b.
Proof.
  intros Hn. destruct (answers n Hn) as (o & i & Ho & Hi & Hadj). eexists. split.
  { cbn. rewrite Ho. cbn. by rewrite Hi. }
  eapply visits_ext; [|eapply visits_trans; apply foldl_visits].
  3:{ intros a' e. apply (visit_visits (subject e)). }
  2:{ intros a' e. apply visit_object_visits. }
  intros x. cbn. apply Hadj.
Qed.

Lemma expand_all_visits frontier : ∀ a,
  Forall (λ n, good (iri n)) frontier →
  ∃ b, foldl (expand out inc) (Ok a) frontier = Ok b ∧
    visits (λ x, ∃ u, u ∈ iri <$> frontier ∧ adj u x) a b.
Proof.
  induction frontier as [|n frontier IH]; intros a Hall; cbn [foldl].
  - exists a. split; [done|]. eapply visits_ext; [|apply visits_refl].
    intros x. split; [done|]. by intros (u & ?%not_elem_of_nil & _).
  - apply Forall_cons in Hall as [Hn Hall]. destruct (expand_visits a n Hn) as (b & -> & Hb).
    destruct (IH b Hall) as (c & -> & Hc). exists c. split; [done|].
    eapply visits_ext; [|apply (visits_trans _ _ _ _ _ Hb Hc)].
    intros x. cbn. setoid_rewrite elem_of_cons. naive_solver.
Qed.

(** After [h] rounds: the visited IRIs are those within [h] hops, and an IRI that has
    left the frontier has had its neighbours visited. *)
Record hop_inv (s : string) (h : nat) (a : gset string * list GraphNode) : Prop := {
  hi_within : ∀ x, x ∈ a.1 ↔ within adj h s x;
  hi_frontier : ∀ x, x ∈ iri <$> a.2 → x ∈ a.1;
  hi_done : ∀ u v, u ∈ a.1 → adj u v → u ∈ iri <$> a.2 ∨ v ∈ a.1;
}.

Lemma within_good s h x : good s → within adj h s x → good x.
Proof.
  intros Hs. revert x. induction h as [|h IH]; intros x; cbn; [by intros ->|].
  intros [Hx|(u & Hu & Ha)]; eauto.
Qed.

Lemma hop_step s h a :
  good s → hop_inv s h a → ∃ b, hop out inc (Ok a) = Ok b ∧ hop_inv s (S h) b.
Proof.
  intros Hs [Hw Hf Hd]. destruct a as [vis frontier]. cbn [fst snd] in *. unfold hop. cbn.
  destruct (expand_all_visits frontier (vis, [])) as (b & -> & H1 & H2).
  { apply Forall_forall. intros n Hn. apply (within_good s h); [done|]. apply Hw, Hf.
    by apply list_elem_of_fmap_2. }
  cbn in H1, H2. exists b. split; [done|]. split.
  - intros x. rewrite H1. cbn. split.
    + intros [Hx|(u & Hu & Ha)]; [left; by apply Hw|]. right. exists u. split; [|done]. by apply Hw, Hf.
    + intros [Hx|(u & Hu & Ha)]; [left; by apply Hw|]. apply Hw in Hu.
      destruct (Hd u x Hu Ha); [right; by exists u|by left].
  - intros x. rewrite H2, H1. intros [?%not_elem_of_nil|[? _]]; [done|by right].
  - intros u v. rewrite H1. intros Hu Ha. destruct (decide (u ∈ vis)) as [Hin|Hni].
    + right. rewrite H1. destruct (Hd u v Hin Ha); [right; by exists u|by left].
    + left. rewrite H2. destruct Hu as [?|Hu]; [done|]. by right.
Qed.

Lemma hops_inv s h :
  good (iri s) →
  ∃ a, Nat.iter h (hop out inc) (Ok ({[iri s]}, [s])) = Ok a ∧ hop_inv (iri s) h a.
Proof.
  intros Hs. induction h as [|h (a & Ha & Hinv)].
  - eexists. split; [done|]. split; cbn.
    + set_solver.
    + intros x. rewrite list_elem_of_singleton. set_solver.
    + intros u v ->%elem_of_singleton _. left. by apply list_elem_of_singleton.
  - change (Nat.iter (S h) ?f ?x) with (f (Nat.iter h f x)). rewrite Ha. by apply hop_step.
Qed.

(** The search finds the set of what is within its number of hops. *)
Lemma search_exact s hops :
  good (iri s) → ∃ visited : gset string,
    search out inc s hops = Ok (GraphNode_new <$> hash_iter visited) ∧
    ∀ x, x ∈ visited ↔ within adj hops (iri s) x.
Proof.
  intros Hs. destruct (hops_inv s hops Hs) as ([vis frontier] & Ha & [Hw _ _]).
  exists vis. split; [|done]. unfold search. by rewrite Ha.
Qed.

Lemma iris_of_visited (visited : gset string) : iri <$> (GraphNode_new <$> hash_iter visited) = hash_iter visited.
Proof.
  rewrite <- list_fmap_compose. rewrite <- (list_fmap_id (hash_iter visited)) at 2. by apply list_fmap_ext.
Qed.

End search_exact.

Section neighborhood.
Context `{HK : !HashIter TripleKey} `{HS : !HashIter string}.
Context (ops : list graph_op).

(** Two IRIs joined by a stored triple, in either direction. *)
Definition adjacent (u v : string) : Prop :=
  ∃ e, stored ops e ∧
    (iri (subject e) = u ∧ points_to e v ∨ iri (subject e) = v ∧ points_to e u).

(** Every IRI in sight is a proper one. *)
Definition proper_graph : Prop :=
  ∀ e, stored ops e → proper_iri (iri (subject e)) ∧ ∀ x, points_to e x → proper_iri x.

Lemma adjacent_answers n : proper_iri (iri n) →
  ∃ o i, outgoing n (graph_run ops) = Ok o ∧ incoming n (graph_run ops) = Ok i ∧
    ∀ x, ((∃ e, e ∈ o ∧ points_to e x) ∨ ∃ e, e ∈ i ∧ x = iri (subject e)) ↔ adjacent (iri n) x.
Proof.
  intros Hn. destruct (graph_inv_run ops) as [Hi He]. eexists _, _. split_and!; [done..|].
  intros x. setoid_rewrite (elem_of_outgoing _ _ _ Hi).
  setoid_rewrite (elem_of_incoming _ _ _ Hi Hn). unfold adjacent, stored. rewrite <- He. naive_solver.
Qed.

Lemma adjacent_proper u v : proper_graph → proper_iri u → adjacent u v → proper_iri v.
Proof.
  intros Hg Hu (e & He & Hd). destruct (Hg e He) as [Hs Ho].
  destruct Hd as [[_ Hp]|[<- _]]; [by apply Ho|done].
Qed.

(** The neighbourhood search is exact: it always answers, and the nodes it returns
    are, each once, those joined to the start by at most [hops] stored triples, followed
    in either direction. *)
Theorem neighborhood_exact s hops :
  proper_graph → proper_iri (iri s) →
  ∃ l, neighborhood s hops (graph_run ops) = Ok l ∧ NoDup (iri <$> l) ∧
    ∀ x, x ∈ iri <$> l ↔ within adjacent hops (iri s) x.
Proof.
  intros Hg Hs. destruct (search_exact (λ n, outgoing n (graph_run ops))
    (λ n, incoming n (graph_run ops)) adjacent proper_iri adjacent_answers) with (s := s) (hops := hops)
    as (vis & Hv & Hw); [intros u v; by apply adjacent_proper|done|].
  eexists. split; [exact Hv|]. rewrite iris_of_visited. split.
  - rewrite hash_iter_perm. apply NoDup_elements.
  - intros x. by rewrite elem_of_hash_iter.
Qed.

End neighborhood.
