(* ===== verification/Storage.v ===== *)
(** * Storage backends

    Models [src/rust-core/verisim-storage/src]: the key-value interface ([backend.rs]), the
    in-memory backend over a [BTreeMap] ([memory.rs]) and the typed store that adds a
    namespace and JSON ([typed.rs]).  Each call of the in-memory backend holds its lock
    throughout, so a call is one step. *)

From S2P Require Import Prelude.
From stdpp Require Import pretty.
From Stdlib Require Import NArith.
From Stdlib Require Import Strings.Byte.
From Stdlib Require String Ascii.

#[export] Instance byte_countable : Countable byte.
Proof.
  refine (inj_countable Byte.to_N Byte.of_N _). intros b. apply Byte.of_to_N.
Defined.

(** ** Errors *)

Inductive StorageError :=
| Io (e : string)
| StorageNotFound (key : string)
| SerializationError (message : string)
| CorruptedData (message : string)
| BackendUnavailable (message : string)
| KeyTooLarge (size max : nat)
| ValueTooLarge (size max : nat).

Definition storage_error_to_string (e : StorageError) : string :=
  match e with
  | Io e => "I/O error: " +:+ e
  | StorageNotFound key => "key not found: " +:+ key
  | SerializationError message => "serialization error: " +:+ message
  | CorruptedData message => "corrupted data: " +:+ message
  | BackendUnavailable message => "backend unavailable: " +:+ message
  | KeyTooLarge size max => "key too large: " +:+ pretty size +:+ " bytes (max: " +:+ pretty max +:+ ")"
  | ValueTooLarge size max =>
    "value too large: " +:+ pretty size +:+ " bytes (max: " +:+ pretty max +:+ ")"
  end.

(** ** The interface *)

Class StorageBackend (B : Type) := {
  sb_get : list byte → B → result StorageError (option (list byte));
  sb_put : list byte → list byte → B → result StorageError () * B;
  sb_delete : list byte → B → result StorageError bool * B;
  sb_exists : list byte → B → result StorageError bool;
  sb_scan_prefix : list byte → nat → B → result StorageError (list (list byte * list byte));
  sb_multi_get : list (list byte) → B → result StorageError (list (option (list byte)));
  sb_batch_put : list (list byte * list byte) → B → result StorageError () * B;
  sb_flush : B → result StorageError () * B;
  sb_name : B → string;
  sb_approximate_size : B → result StorageError (option Z);
}.

(** ** The in-memory backend *)

(** The order of [Vec<u8>]: lexicographic. *)
Fixpoint bytes_leb (a b : list byte) : bool :=
  match a, b with
  | [], _ => true
  | _ :: _, [] => false
  | x :: a, y :: b =>
    if (Byte.to_N x <? Byte.to_N y)%N then true
    else if (Byte.to_N y <? Byte.to_N x)%N then false
    else bytes_leb a b
  end.

Definition bytes_le (a b : list byte) : Prop := bytes_leb a b = true.
#[export] Instance bytes_le_dec a b : Decision (bytes_le a b).
Proof. unfold bytes_le. apply _. Defined.

Abbreviation BTreeMap := (gmap (list byte) (list byte)).

(** The keys in order. *)
Definition sorted_keys (m : BTreeMap) : list (list byte) := merge_sort bytes_le (elements (dom m)).

Fixpoint take_while {A} (f : A → bool) (l : list A) : list A :=
  match l with
  | [] => []
  | x :: l => if f x then x :: take_while f l else []
  end.

Record InMemoryBackend := { data : BTreeMap }.

Definition memory_new : InMemoryBackend := {| data := ∅ |}.

Definition memory_len (b : InMemoryBackend) : nat := size (data b).
Definition memory_is_empty (b : InMemoryBackend) : bool := bool_decide (data b = ∅).

Definition memory_get (key : list byte) (b : InMemoryBackend)
    : result StorageError (option (list byte)) := Ok (data b !! key).

Definition memory_put (key value : list byte) (b : InMemoryBackend)
    : result StorageError () * InMemoryBackend :=
  (Ok (), {| data := <[key := value]> (data b) |}).

Definition memory_delete (key : list byte) (b : InMemoryBackend)
    : result StorageError bool * InMemoryBackend :=
  (Ok (bool_decide (is_Some (data b !! key))), {| data := delete key (data b) |}).

Definition memory_exists (key : list byte) (b : InMemoryBackend) : result StorageError bool :=
  Ok (bool_decide (is_Some (data b !! key))).

(** [map.range(prefix..).take_while(|(k, _)| k.starts_with(prefix)).take(limit)] *)
Definition memory_scan_prefix (prefix : list byte) (limit : nat) (b : InMemoryBackend)
    : result StorageError (list (list byte * list byte)) :=
  let range := filter (bytes_le prefix) (sorted_keys (data b)) in
  Ok (omap (λ k, (λ v, (k, v)) <$> data b !! k)
        (take limit (take_while (λ k, bool_decide (prefix `prefix_of` k)) range))).

Definition memory_multi_get (keys : list (list byte)) (b : InMemoryBackend)
    : result StorageError (list (option (list byte))) := Ok ((λ key, data b !! key) <$> keys).

Definition memory_batch_put (entries : list (list byte * list byte)) (b : InMemoryBackend)
    : result StorageError () * InMemoryBackend :=
  (Ok (), {| data := foldl (λ m '(key, value), <[key := value]> m) (data b) entries |}).

Definition memory_approximate_size (b : InMemoryBackend) : result StorageError (option Z) :=
  Ok (Some (foldl (λ acc '(k, v), u64_add acc (wrap 64 (zlength k + zlength v))) 0%Z
              (map_to_list (data b)))).

#[export] Instance memory_backend : StorageBackend InMemoryBackend := {|
  sb_get := memory_get;
  sb_put := memory_put;
  sb_delete := memory_delete;
  sb_exists := memory_exists;
  sb_scan_prefix := memory_scan_prefix;
  sb_multi_get := memory_multi_get;
  sb_batch_put := memory_batch_put;
  sb_flush := λ b, (Ok (), b);
  sb_name := λ _, "in-memory";
  sb_approximate_size := memory_approximate_size;
|}.

(** ** The typed store *)

(** [serde_json] at a type; an error carries its text.  [utf8_lossy] is
    [String::from_utf8_lossy]. *)
Class Serde (T : Type) := {
  to_vec : T → result string (list byte);
  from_slice : list byte → result string T;
}.

Class Utf8 := { utf8_lossy : list byte → string }.

Record TypedStore (B : Type) := { backend : B; namespace : string }.
Arguments backend {B} t.
Arguments namespace {B} t.

Section typed.
Context {B : Type} `{!StorageBackend B} {U8 : Utf8}.

Definition typed_new (b : B) (ns : string) : TypedStore B := {| backend := b; namespace := ns |}.

Definition prefixed_key (key : string) (s : TypedStore B) : list byte :=
  as_bytes (namespace s +:+ ":" +:+ key).

Definition prefix_bytes (s : TypedStore B) : list byte := as_bytes (namespace s +:+ ":").

Definition set_backend (b : B) (s : TypedStore B) : TypedStore B :=
  {| backend := b; namespace := namespace s |}.

Section values.
Context {T : Type} `{!Serde T}.

Definition typed_get (key : string) (s : TypedStore B) : result StorageError (option T) :=
  bytes ← sb_get (prefixed_key key s) (backend s);
  match bytes with
  | Some bytes =>
    value ← map_err (λ err, SerializationError
      ("failed to deserialize value for key '" +:+ key +:+ "': " +:+ err)) (from_slice bytes);
    Ok (Some value)
  | None => Ok None
  end.

Definition typed_put (key : string) (value : T) (s : TypedStore B)
    : result StorageError () * TypedStore B :=
  match map_err (λ err, SerializationError
      ("failed to serialize value for key '" +:+ key +:+ "': " +:+ err)) (to_vec value) with
  | Err e => (Err e, s)
  | Ok bytes =>
    let '(r, b) := sb_put (prefixed_key key s) bytes (backend s) in (r, set_backend b s)
  end.

(** One result of a scan. *)
Definition scanned (ns_prefix_len : nat) (raw : list byte * list byte)
    : result StorageError (string * T) :=
  let logical_key :=
    if (ns_prefix_len <=? length raw.1)%nat then utf8_lossy (drop ns_prefix_len raw.1)
    else utf8_lossy raw.1 in
  value ← map_err (λ err, SerializationError
    ("failed to deserialize scanned value for key '" +:+ logical_key +:+ "': " +:+ err))
    (from_slice raw.2);
  Ok (logical_key, value).

Fixpoint scan_results (ns_prefix_len : nat) (raw : list (list byte * list byte))
    : result StorageError (list (string * T)) :=
  match raw with
  | [] => Ok []
  | r :: raw =>
    x ← scanned ns_prefix_len r;
    xs ← scan_results ns_prefix_len raw;
    Ok (x :: xs)
  end.

Definition typed_scan_prefix (key_prefix : string) (limit : nat) (s : TypedStore B)
    : result StorageError (list (string * T)) :=
  let full_prefix := as_bytes (namespace s +:+ ":" +:+ key_prefix) in
  raw_results ← sb_scan_prefix full_prefix limit (backend s);
  scan_results (length (prefix_bytes s)) raw_results.

End values.

Definition typed_delete (key : string) (s : TypedStore B) : result StorageError bool * TypedStore B :=
  let '(r, b) := sb_delete (prefixed_key key s) (backend s) in (r, set_backend b s).

End typed.

(** ** Storage: what a backend promises and what the typed store makes of it

    [StorageLaws] states a backend as a finite map of byte strings whose scans are sorted;
    the in-memory backend satisfies it, and typed stores over any such backend are
    separate typed maps as long as no namespace contains a colon. *)

(** ** The order of keys *)

#[export] Instance bytes_le_total : Total bytes_le.
Proof.
  unfold bytes_le. intros a. induction a as [|x a IH]; intros [|y b]; cbn; [by left..|by right|].
  destruct (N.ltb_spec (Byte.to_N x) (Byte.to_N y)), (N.ltb_spec (Byte.to_N y) (Byte.to_N x));
    try lia; auto.
Qed.

#[export] Instance bytes_le_trans : Transitive bytes_le.
Proof.
  unfold bytes_le. intros a. induction a as [|x a IH]; intros [|y b] [|z c]; cbn; try done.
  destruct (N.ltb_spec (Byte.to_N x) (Byte.to_N y)), (N.ltb_spec (Byte.to_N y) (Byte.to_N x)),
    (N.ltb_spec (Byte.to_N y) (Byte.to_N z)), (N.ltb_spec (Byte.to_N z) (Byte.to_N y)),
    (N.ltb_spec (Byte.to_N x) (Byte.to_N z)), (N.ltb_spec (Byte.to_N z) (Byte.to_N x));
    try lia; try done. apply IH.
Qed.

Lemma bytes_le_prefix p s : bytes_le p (p ++ s).
Proof.
  unfold bytes_le. induction p as [|x p IH]; [done|]. cbn. by rewrite N.ltb_irrefl.
Qed.

(** The keys with a prefix lie together. *)
Lemma prefix_between p k s : bytes_le p k → bytes_le k (p ++ s) → p `prefix_of` k.
Proof.
  unfold bytes_le. revert k. induction p as [|x p IH]; intros [|y k]; cbn; [intros; apply prefix_nil..|done|].
  destruct (N.ltb_spec (Byte.to_N x) (Byte.to_N y)), (N.ltb_spec (Byte.to_N y) (Byte.to_N x));
    try lia; try done.
  intros Hpk Hks. assert (x = y) as ->.
  { assert (Byte.to_N x = Byte.to_N y) as Heq by lia. apply (f_equal Byte.of_N) in Heq.
    rewrite !Byte.of_to_N in Heq. by injection Heq. }
  apply prefix_cons. by apply IH.
Qed.

Lemma sorted_keys_sorted m : StronglySorted bytes_le (sorted_keys m).
Proof. apply (StronglySorted_merge_sort bytes_le). Qed.

Lemma elem_of_sorted_keys m k : k ∈ sorted_keys m ↔ is_Some (m !! k).
Proof. unfold sorted_keys. by rewrite merge_sort_Permutation, elem_of_elements, elem_of_dom. Qed.

Lemma NoDup_sorted_keys m : NoDup (sorted_keys m).
Proof. unfold sorted_keys. rewrite merge_sort_Permutation. apply NoDup_elements. Qed.

(** ** What a backend promises *)

(** The entries with a prefix, in the order of their keys. *)
Definition entries_with (p : list byte) (m : BTreeMap) : list (list byte * list byte) :=
  omap (λ k, (λ v, (k, v)) <$> m !! k) (filter (prefix p) (sorted_keys m)).

Class StorageLaws (B : Type) `{!StorageBackend B} := {
  contents : B → BTreeMap;
  sl_get : ∀ k b, sb_get k b = Ok (contents b !! k);
  sl_put : ∀ k v b, ∃ b', sb_put k v b = (Ok (), b') ∧ contents b' = <[k := v]> (contents b);
  sl_delete : ∀ k b, ∃ b',
    sb_delete k b = (Ok (bool_decide (is_Some (contents b !! k))), b') ∧
    contents b' = delete k (contents b);
  sl_exists : ∀ k b, sb_exists k b = Ok (bool_decide (is_Some (contents b !! k)));
  sl_scan : ∀ p limit b, sb_scan_prefix p limit b = Ok (take limit (entries_with p (contents b)));
  sl_multi_get : ∀ ks b, sb_multi_get ks b = Ok ((λ k, contents b !! k) <$> ks);
  sl_batch_put : ∀ es b, ∃ b', sb_batch_put es b = (Ok (), b') ∧
    contents b' = list_to_map (reverse es) ∪ contents b;
}.

Lemma elem_of_entries_with p m k v :
  (k, v) ∈ entries_with p m ↔ m !! k = Some v ∧ p `prefix_of` k.
Proof.
  unfold entries_with. rewrite list_elem_of_omap. setoid_rewrite list_elem_of_filter.
  setoid_rewrite elem_of_sorted_keys. split.
  - intros (k' & [Hp _] & (v' & Hv & [= <- <-])%fmap_Some). done.
  - intros [Hm Hp]. exists k. rewrite Hm. split; [by split|done].
Qed.

Lemma entries_with_keys p m : (entries_with p m).*1 = filter (prefix p) (sorted_keys m).
Proof.
  unfold entries_with. assert (Forall (λ k, is_Some (m !! k)) (filter (prefix p) (sorted_keys m))) as Hf.
  { apply Forall_forall. intros k [_ Hk]%list_elem_of_filter. by apply elem_of_sorted_keys. }
  induction Hf as [|k l [v Hv] _ IH]; [done|]. cbn. rewrite Hv. cbn. by f_equal.
Qed.

Lemma StronglySorted_filter {A} (R : relation A) (P : A → Prop) `{∀ x, Decision (P x)} (l : list A) :
  StronglySorted R l → StronglySorted R (filter P l).
Proof.
  induction 1 as [|x l Hs IH Hf]; [constructor|]. rewrite filter_cons. case_decide; [|done].
  constructor; [done|]. apply Forall_forall. intros y [_ Hy]%list_elem_of_filter.
  rewrite Forall_forall in Hf. by apply Hf.
Qed.

(** ** The in-memory backend *)

(** The loop stops at the first key without the prefix, and misses none. *)
Lemma take_while_prefix p (ks : list (list byte)) :
  StronglySorted bytes_le ks →
  take_while (λ k, bool_decide (p `prefix_of` k)) (filter (bytes_le p) ks) = filter (prefix p) ks.
Proof.
  induction 1 as [|k ks Hs IH Hf]; [done|]. rewrite !filter_cons.
  destruct (decide (bytes_le p k)) as [Hle|Hle].
  - cbn. destruct (decide (p `prefix_of` k)) as [Hp|Hp].
    + rewrite bool_decide_true by done. by rewrite IH.
    + rewrite bool_decide_false by done. symmetry. apply filter_none, Forall_forall.
      intros k' Hk' [s ->]. apply Hp, (prefix_between p k s); [done|].
      rewrite Forall_forall in Hf. by apply Hf.
  - rewrite IH. rewrite decide_False; [done|]. intros [s ->]. apply Hle, bytes_le_prefix.
Qed.

Lemma take_omap_total {A B} (f : A → option B) (l : list A) n :
  Forall (λ x, is_Some (f x)) l → omap f (take n l) = take n (omap f l).
Proof.
  revert n. induction l as [|x l IH]; intros n; [intros _; by destruct n|].
  intros [[y Hy] Hf]%Forall_cons. destruct n; [done|]. cbn. rewrite Hy. cbn. f_equal. by apply IH.
Qed.

Lemma memory_scan_spec p limit b :
  memory_scan_prefix p limit b = Ok (take limit (entries_with p (data b))).
Proof.
  unfold memory_scan_prefix, entries_with.
  rewrite take_while_prefix by apply sorted_keys_sorted. f_equal. apply take_omap_total.
  apply Forall_forall. intros k [_ Hk]%list_elem_of_filter. apply elem_of_sorted_keys in Hk as [v Hv].
  rewrite Hv. by eexists.
Qed.

Lemma foldl_insert_union (es : list (list byte * list byte)) (m : BTreeMap) :
  foldl (λ m '(key, value), <[key := value]> m) m es = list_to_map (reverse es) ∪ m.
Proof.
  induction es as [|[k v] es IH] using rev_ind; cbn.
  - by rewrite (left_id_L ∅ (∪)).
  - rewrite foldl_app, reverse_app. cbn. rewrite IH. by rewrite insert_union_l.
Qed.

#[export] Instance memory_laws : StorageLaws InMemoryBackend.
Proof.
  refine {| contents := data |}; try done.
  - intros k v b. by eexists.
  - intros k b. by eexists.
  - apply memory_scan_spec.
  - intros es b. eexists. split; [done|]. apply foldl_insert_union.
Defined.

(** A prefix scan of the in-memory backend is exact and ordered: it returns the first
    [limit] of the entries whose keys have the prefix, all of them and no others, in
    strictly increasing lexicographic order of their keys. *)
Theorem scan_prefix_exact (b : InMemoryBackend) (p : list byte) (limit : nat) :
  ∃ all, memory_scan_prefix p limit b = Ok (take limit all) ∧
    StronglySorted bytes_le all.*1 ∧ NoDup all.*1 ∧
    ∀ k v, (k, v) ∈ all ↔ data b !! k = Some v ∧ p `prefix_of` k.
Proof.
  exists (entries_with p (data b)). split_and!.
  - apply memory_scan_spec.
  - rewrite entries_with_keys. apply StronglySorted_filter, sorted_keys_sorted.
  - rewrite entries_with_keys. apply NoDup_filter, NoDup_sorted_keys.
  - intros k v. apply elem_of_entries_with.
Qed.

(** ** Namespaces *)

Definition colon : byte := x3a.

(** A namespace without a colon. *)
Definition plain (ns : string) : Prop := colon ∉ as_bytes ns.

Definition full_key (ns key : string) : list byte := as_bytes ns ++ colon :: as_bytes key.

Lemma full_key_eq ns key : as_bytes (ns +:+ ":" +:+ key) = full_key ns key.
Proof. rewrite !as_bytes_app. done. Qed.

Lemma split_colon (n n' p k : list byte) :
  colon ∉ n → colon ∉ n' → n ++ colon :: p `prefix_of` n' ++ colon :: k → n = n' ∧ p `prefix_of` k.
Proof.
  revert n'. induction n as [|x n IH]; intros [|y n'] Hn Hn' Hp; cbn in *.
  - split; [done|]. by apply prefix_cons_inv_2 in Hp.
  - apply prefix_cons_inv_1 in Hp as <-. set_solver.
  - apply prefix_cons_inv_1 in Hp as ->. set_solver.
  - pose proof (prefix_cons_inv_1 _ _ _ _ Hp) as <-. apply prefix_cons_inv_2 in Hp.
    destruct (IH n') as [-> ?]; set_solver.
Qed.

Lemma full_key_prefix ns ns' p key :
  plain ns → plain ns' → full_key ns p `prefix_of` full_key ns' key →
  ns = ns' ∧ as_bytes p `prefix_of` as_bytes key.
Proof.
  intros Hn Hn' Hp. apply split_colon in Hp as [Heq ?]; [|done..].
  split; [by apply as_bytes_inj|done].
Qed.

Lemma full_key_inj ns ns' key key' :
  plain ns → plain ns' → full_key ns key = full_key ns' key' → ns = ns' ∧ key = key'.
Proof.
  intros Hn Hn' Heq. destruct (full_key_prefix ns ns' key key') as [<- _]; [done..|by rewrite Heq|].
  split; [done|]. apply app_inv_head in Heq. injection Heq. apply as_bytes_inj.
Qed.

(** With a colon the keys of two namespaces collide. *)
Lemma namespaces_collide {B} (b : B) ns1 ns2 key :
  prefixed_key key (typed_new b (ns1 +:+ ":" +:+ ns2)) =
  prefixed_key (ns2 +:+ ":" +:+ key) (typed_new b ns1).
Proof. unfold prefixed_key. cbn [typed_new namespace]. rewrite !as_bytes_app, <- !app_assoc. done. Qed.

(** ** Typed stores are maps

    What [serde_json] and [from_utf8_lossy] document: what is written is read back, and a
    [String] is valid UTF-8. *)

Class SerdeLaws (T : Type) `{!Serde T} := {
  from_slice_to_vec : ∀ (v : T) bytes, to_vec v = Ok bytes → from_slice bytes = Ok v;
}.

Class Utf8Laws (U8 : Utf8) := { utf8_lossy_string : ∀ s, utf8_lossy (as_bytes s) = s }.

(** The operations of several stores on one backend, each with its namespace. *)
Inductive store_op (T : Type) :=
| Put (ns key : string) (value : T)
| Delete (ns key : string).
Arguments Put {T} ns key value.
Arguments Delete {T} ns key.

Section refinement.
Context {B : Type} `{!StorageBackend B} `{!StorageLaws B} {U8 : Utf8} `{!Utf8Laws U8}.
Context {T : Type} `{!Serde T} `{!SerdeLaws T}.

Definition op_namespace (op : store_op T) : string :=
  match op with Put ns _ _ | Delete ns _ => ns end.

(** The backend after an operation through a typed store of that namespace. *)
Definition run_op (b : B) (op : store_op T) : B :=
  match op with
  | Put ns key value => backend (typed_put key value (typed_new b ns)).2
  | Delete ns key => backend (typed_delete key (typed_new b ns)).2
  end.

(** The specification: one map, keyed by namespace and key; a value that cannot be
    serialized is not stored. *)
Definition spec_op (m : gmap (string * string) T) (op : store_op T) : gmap (string * string) T :=
  match op with
  | Put ns key value => if is_ok (to_vec value) then <[(ns, key) := value]> m else m
  | Delete ns key => delete (ns, key) m
  end.

(** The backend holds the encoding of the map and nothing else. *)
Record represents (b : B) (m : gmap (string * string) T) : Prop := {
  rp_plain : ∀ ns key v, m !! (ns, key) = Some v → plain ns;
  rp_sound : ∀ k bytes, contents b !! k = Some bytes →
    ∃ ns key v, k = full_key ns key ∧ m !! (ns, key) = Some v ∧ to_vec v = Ok bytes;
  rp_complete : ∀ ns key v, m !! (ns, key) = Some v →
    ∃ bytes, contents b !! full_key ns key = Some bytes ∧ to_vec v = Ok bytes;
}.

Lemma represents_put b m ns key v bytes b' :
  plain ns → represents b m → to_vec v = Ok bytes →
  contents b' = <[full_key ns key := bytes]> (contents b) → represents b' (<[(ns, key) := v]> m).
Proof.
  intros Hns [Hp Hs Hc] Hv Hb. split.
  - intros ns' key' v'. rewrite lookup_insert_Some. intros [[[= <- <-] _]|[_ ?]]; eauto.
  - intros k bs. rewrite Hb, lookup_insert_Some. intros [[<- <-]|[Hne Hk]].
    + exists ns, key, v. by rewrite lookup_insert_eq.
    + destruct (Hs _ _ Hk) as (ns' & key' & v' & -> & Hm & Hv'). exists ns', key', v'.
      rewrite lookup_insert_ne; [done|]. intros [= -> ->]. done.
  - intros ns' key' v'. rewrite lookup_insert_Some, Hb. intros [[[= <- <-] <-]|[Hne Hm]].
    + exists bytes. by rewrite lookup_insert_eq.
    + destruct (Hc _ _ _ Hm) as (bs & Hk & Hv'). exists bs. rewrite lookup_insert_ne; [done|].
      intros Heq. apply full_key_inj in Heq as [-> ->]; [done..|by eapply Hp].
Qed.

Lemma represents_delete b m ns key b' :
  plain ns → represents b m → contents b' = delete (full_key ns key) (contents b) →
  represents b' (delete (ns, key) m).
Proof.
  intros Hns [Hp Hs Hc] Hb. split.
  - intros ns' key' v'. rewrite lookup_delete_Some. intros [_ ?]; eauto.
  - intros k bs. rewrite Hb, lookup_delete_Some. intros [Hne Hk].
    destruct (Hs _ _ Hk) as (ns' & key' & v' & -> & Hm & Hv'). exists ns', key', v'.
    rewrite lookup_delete_ne; [done|]. intros [= -> ->]. done.
  - intros ns' key' v'. rewrite lookup_delete_Some, Hb. intros [Hne Hm].
    destruct (Hc _ _ _ Hm) as (bs & Hk & Hv'). exists bs. rewrite lookup_delete_ne; [done|].
    intros Heq. apply full_key_inj in Heq as [-> ->]; [done..|by eapply Hp].
Qed.

Lemma run_op_represents b m op :
  plain (op_namespace op) → represents b m → represents (run_op b op) (spec_op m op).
Proof.
  intros Hns Hr. destruct op as [ns key v|ns key]; cbn in *.
  - unfold typed_put. destruct (to_vec v) as [bytes|e] eqn:Hv; cbn; [|done].
    unfold prefixed_key. cbn. rewrite full_key_eq.
    destruct (sl_put (full_key ns key) bytes b) as (b' & -> & Hb). cbn. by eapply represents_put.
  - unfold typed_delete, prefixed_key. cbn. rewrite full_key_eq.
    destruct (sl_delete (full_key ns key) b) as (b' & -> & Hb). cbn. by eapply represents_delete.
Qed.

(** The entries of one namespace in the order of their keys, decoded. *)
Lemma scan_results_spec b m ns raw :
  plain ns → represents b m →
  (∀ k bytes, (k, bytes) ∈ raw → contents b !! k = Some bytes ∧ full_key ns "" `prefix_of` k) →
  ∃ xs : list (string * T), scan_results (length (as_bytes ns) + 1) raw = Ok xs ∧
    Forall2 (λ r x, r.1 = full_key ns x.1 ∧ m !! (ns, x.1) = Some x.2) raw xs.
Proof.
  intros Hns [Hp Hs Hc] Hraw. induction raw as [|[k bytes] raw IH]; [by exists []|].
  destruct (Hraw k bytes) as [Hk Hpre]; [set_solver|].
  destruct (Hs _ _ Hk) as (ns' & key & v & -> & Hm & Hv).
  destruct (full_key_prefix ns ns' "" key) as [<- _]; [done|by eapply Hp|done|].
  destruct IH as (xs & Hxs & Hf); [set_solver|].
  exists ((key, v) :: xs). split; [|by constructor].
  cbn [scan_results]. unfold scanned. cbn [fst snd]. rewrite (from_slice_to_vec v bytes Hv).
  cbn [map_err mbind result_bind]. rewrite Hxs. cbn [mbind result_bind]. do 3 f_equal.
  unfold full_key. rewrite (proj2 (Nat.leb_le _ _)) by (rewrite length_app; cbn; lia).
  rewrite cons_middle, app_assoc, drop_app_length' by (by rewrite length_app).
  apply utf8_lossy_string.
Qed.

Lemma represents_empty b : contents b = ∅ → represents b ∅.
Proof.
  intros Hb. split.
  - intros ns key v. by rewrite lookup_empty.
  - intros k bytes. by rewrite Hb, lookup_empty.
  - intros ns key v. by rewrite lookup_empty.
Qed.

Lemma represents_get b m ns key :
  plain ns → represents b m → typed_get key (typed_new b ns) = Ok (m !! (ns, key)).
Proof.
  intros Hns [Hp Hs Hc]. unfold typed_get, prefixed_key. cbn [typed_new backend namespace].
  rewrite full_key_eq, sl_get. cbn [mbind result_bind].
  destruct (m !! (ns, key)) as [v|] eqn:Hm.
  - destruct (Hc _ _ _ Hm) as (bytes & -> & Hv). by rewrite (from_slice_to_vec v bytes Hv).
  - destruct (contents b !! full_key ns key) as [bytes|] eqn:Hk; [|done].
    destruct (Hs _ _ Hk) as (ns' & key' & v & Heq & Hm' & _).
    apply full_key_inj in Heq as [-> ->]; [congruence|done|by eapply Hp].
Qed.

Lemma represents_scan b m ns p limit :
  plain ns → represents b m → ∃ all : list (string * T),
    typed_scan_prefix p limit (typed_new b ns) = Ok (take limit all) ∧
    StronglySorted bytes_le (as_bytes <$> all.*1) ∧
    ∀ key v, (key, v) ∈ all ↔ m !! (ns, key) = Some v ∧ as_bytes p `prefix_of` as_bytes key.
Proof.
  intros Hns Hr. set (raw := entries_with (full_key ns p) (contents b)).
  destruct (scan_results_spec b m ns raw Hns Hr) as (all & Hall & Hf).
  { intros k bytes [Hk Hpre]%elem_of_entries_with. split; [done|]. etransitivity; [|exact Hpre].
    unfold full_key. apply prefix_app, prefix_cons, prefix_nil. }
  destruct (scan_results_spec b m ns (take limit raw) Hns Hr) as (taken & Htaken & Hft).
  { intros k bytes Hin. apply (subseteq_take limit raw) in Hin.
    apply elem_of_entries_with in Hin as [Hk Hpre]. split; [done|]. etransitivity; [|exact Hpre].
    unfold full_key. apply prefix_app, prefix_cons, prefix_nil. }
  exists all. split_and!.
  - unfold typed_scan_prefix, prefix_bytes. cbn [typed_new backend namespace].
    rewrite full_key_eq, sl_scan. cbn [mbind result_bind]. fold raw.
    rewrite as_bytes_app, length_app. cbn [length as_bytes String.list_byte_of_string].
    change (length (as_bytes ":")) with 1. rewrite Htaken. f_equal. clear Htaken.
    apply (Forall2_take _ _ _ limit) in Hf. revert Hft Hf. generalize (take limit raw), (take limit all).
    intros l1 l2 Hft. revert l2. induction Hft as [|r x l1 t [Hr1 Hm1] _ IH]; intros l2.
    { by intros ->%Forall2_nil_inv_l. }
    intros (y & l & [Hr2 Hm2] & Hf' & ->)%Forall2_cons_inv_l. f_equal; [|by apply IH].
    destruct x as [k1 v1], y as [k2 v2]. cbn in *. rewrite Hr1 in Hr2.
    apply full_key_inj in Hr2 as [_ ->]; [congruence|done..].
  - assert (raw.*1 = full_key ns <$> all.*1) as Hkeys.
    { clear -Hf. induction Hf as [|r x raw all [Hr _] _ IH]; [done|]. cbn. by rewrite IH, Hr. }
    assert (StronglySorted bytes_le raw.*1) as Hsorted.
    { unfold raw. rewrite entries_with_keys. apply StronglySorted_filter, sorted_keys_sorted. }
    rewrite Hkeys in Hsorted. clear -Hsorted. induction all as [|x all IH]; [constructor|].
    cbn in *. apply StronglySorted_inv in Hsorted as [Hs Hf]. constructor; [by apply IH|].
    rewrite Forall_fmap in Hf |- *. rewrite !Forall_fmap in *. eapply Forall_impl; [exact Hf|].
    intros y. unfold full_key, bytes_le, compose. clear.
    induction (as_bytes ns) as [|c n IH]; cbn; [done|by rewrite N.ltb_irrefl].
  - intros key v. split.
    + intros [i Hi]%list_elem_of_lookup.
      destruct (Forall2_lookup_r _ _ _ _ _ Hf Hi) as ([k bytes] & Hraw & Hk & Hm). cbn in *. split; [done|].
      apply list_elem_of_lookup_2, elem_of_entries_with in Hraw as [_ Hpre]. rewrite Hk in Hpre.
      by apply full_key_prefix in Hpre as [_ ?].
    + intros [Hm Hpre]. destruct Hr as [Hp Hs Hc]. destruct (Hc _ _ _ Hm) as (bytes & Hk & Hv).
      assert ((full_key ns key, bytes) ∈ raw) as [i Hi]%list_elem_of_lookup.
      { apply elem_of_entries_with. split; [done|]. unfold full_key. by apply prefix_app, prefix_cons. }
      destruct (Forall2_lookup_l _ _ _ _ _ Hf Hi) as ([key' v'] & Hall' & Heq & Hm'). cbn in *.
      apply full_key_inj in Heq as [_ <-]; [|done..]. apply list_elem_of_lookup_2 in Hall'. congruence.
Qed.

(** Typed stores are separate maps: when serialization round-trips and no namespace
    contains a colon, any puts and deletes through typed stores that share a backend leave
    every store with exactly its own entries, its last value for each key that was not
    deleted since; a scan returns, in the order of the keys, the first [limit] of the
    entries of the namespace whose key has the prefix. *)
Theorem typed_stores_are_maps (b : B) (ops : list (store_op T)) (ns : string) :
  contents b = ∅ → Forall (λ op, plain (op_namespace op)) ops → plain ns →
  let b' := foldl run_op b ops in
  let m := foldl spec_op ∅ ops in
  (∀ key, typed_get key (typed_new b' ns) = Ok (m !! (ns, key))) ∧
  ∀ p limit, ∃ all : list (string * T),
    typed_scan_prefix p limit (typed_new b' ns) = Ok (take limit all) ∧
    StronglySorted bytes_le (as_bytes <$> all.*1) ∧
    ∀ key v, (key, v) ∈ all ↔ m !! (ns, key) = Some v ∧ as_bytes p `prefix_of` as_bytes key.
Proof.
  intros Hb Hops Hns b' m. assert (represents b' m) as Hr.
  { subst b' m. apply represents_empty in Hb. revert b Hb. generalize (∅ : gmap (string * string) T).
    induction Hops as [|op ops Hop _ IH]; intros m b Hb; [done|]. cbn. by apply IH, run_op_represents. }
  split; [intros key; by apply represents_get|intros p limit; by apply represents_scan].
Qed.

End refinement.
