(* ===== verification/Redb.v ===== *)
(** * A storage backend on disk

    Models [src/rust-core/verisim-storage/src/redb_backend.rs]: the key-value interface of
    [Storage.v] over the embedded database of the [redb] crate.  The database is a parameter,
    a class of its transactions; every call of it may fail.  A call of the backend is one
    transaction, so the calls of concurrent clients are one after the other.  The closure each
    method gives to [spawn_blocking] does not panic, so joining it does not fail. *)

From S2P Require Import Prelude Storage.
From Stdlib Require Import Strings.Byte.
From Stdlib Require String.

(** ** The database

    [Database], the transactions that read a snapshot of it and those that write to it.  A
    table is known by its name; opening one creates it in a transaction that writes, and
    fails in one that reads if it is not there.  What is written becomes visible at
    [commit]; a transaction that is dropped before has no effect. *)

Class Redb := {
  Database : Type; ReadTransaction : Type; ReadOnlyTable : Type; WriteTransaction : Type;
  database_create : string → result string Database;
  file_length : string → Database → option Z;
  begin_read : Database → result string ReadTransaction;
  read_table : string → ReadTransaction → result string ReadOnlyTable;
  table_get : list byte → ReadOnlyTable → result string (option (list byte));
  table_range : list byte → ReadOnlyTable →
    result string (list (result string (list byte * list byte)));
  begin_write : Database → result string WriteTransaction;
  write_table : string → WriteTransaction → result string WriteTransaction;
  table_insert : string → list byte → list byte → WriteTransaction → result string WriteTransaction;
  table_remove : string → list byte → WriteTransaction →
    result string (option (list byte) * WriteTransaction);
  commit : WriteTransaction → Database → result string () * Database;
}.

(** What the crate documents of them.  [tables] is what is committed. *)

Definition table_at (n : string) (ts : gmap string BTreeMap) : BTreeMap := default ∅ (ts !! n).

(** The entries from a key on, in the order of the keys. *)
Definition entries_from (k : list byte) (m : BTreeMap) : list (list byte * list byte) :=
  omap (λ k', (λ v, (k', v)) <$> m !! k') (filter (bytes_le k) (sorted_keys m)).

(** What an iterator over [es] yields: all of them, or some and then an error. *)
Definition iterates (es : list (list byte * list byte))
    (l : list (result string (list byte * list byte))) : Prop :=
  l = Ok <$> es ∨ ∃ n e rest, l = (Ok <$> take n es) ++ Err e :: rest.

Class RedbLaws (RD : Redb) := {
  tables : Database → gmap string BTreeMap;
  snapshot : ReadTransaction → gmap string BTreeMap;
  table_view : ReadOnlyTable → BTreeMap;
  pending : WriteTransaction → gmap string BTreeMap;
  rl_begin_read : ∀ d t, begin_read d = Ok t → snapshot t = tables d;
  rl_read_table : ∀ n t tb, read_table n t = Ok tb → snapshot t !! n = Some (table_view tb);
  rl_get : ∀ k tb v, table_get k tb = Ok v → v = table_view tb !! k;
  rl_range : ∀ k tb l, table_range k tb = Ok l → iterates (entries_from k (table_view tb)) l;
  rl_begin_write : ∀ d w, begin_write d = Ok w → pending w = tables d;
  rl_write_table : ∀ n w w', write_table n w = Ok w' →
    pending w' = <[n := table_at n (pending w)]> (pending w);
  rl_insert : ∀ n k v w w', table_insert n k v w = Ok w' →
    pending w' = <[n := <[k := v]> (table_at n (pending w))]> (pending w);
  rl_remove : ∀ n k w old w', table_remove n k w = Ok (old, w') →
    old = table_at n (pending w) !! k ∧
    pending w' = <[n := delete k (table_at n (pending w))]> (pending w);
  rl_commit : ∀ w d d', commit w d = (Ok (), d') → tables d' = pending w;
  rl_commit_err : ∀ w d d' e, commit w d = (Err e, d') → tables d' = tables d;
}.

(** A table that cannot be opened for reading is not there: the crate's other errors of
    opening, of storage and of types, do not occur. *)
Class TablesOpen (RD : Redb) `{!RedbLaws RD} :=
  tables_open : ∀ n t e, read_table n t = Err e → snapshot t !! n = None.

(** No call fails, but opening a table that is not there. *)
Class Reliable (RD : Redb) `{!RedbLaws RD} := {
  re_begin_read : ∀ d, is_ok (begin_read d) = true;
  re_get : ∀ k tb, is_ok (table_get k tb) = true;
  re_range : ∀ k tb, table_range k tb = Ok (Ok <$> entries_from k (table_view tb));
  re_begin_write : ∀ d, is_ok (begin_write d) = true;
  re_write_table : ∀ n w, is_ok (write_table n w) = true;
  re_insert : ∀ n k v w, is_ok (table_insert n k v w) = true;
  re_remove : ∀ n k w, is_ok (table_remove n k w) = true;
  re_commit : ∀ w d, is_ok (commit w d).1 = true;
  re_tables :: TablesOpen RD;
}.

(** ** The backend *)

Section backend.
Context {RD : Redb}.

Definition MAIN_TABLE : string := "main".

Record RedbBackend := { db : Database; path : string }.

(** [create_dir_all], on the directory of a path if it has one, is the file system's. *)
Definition redb_open (create_parent : string → result string ()) (p : string)
    : result StorageError RedbBackend :=
  _ ← map_err Io (create_parent p);
  d ← map_err (λ e, BackendUnavailable ("failed to open redb at " +:+ p +:+ ": " +:+ e))
    (database_create p);
  Ok {| db := d; path := p |}.

Definition unavailable (what e : string) : StorageError := BackendUnavailable (what +:+ ": " +:+ e).
Definition corrupted (what e : string) : StorageError := CorruptedData (what +:+ ": " +:+ e).

(** The transaction of a call that reads: [absent] is the answer where there is no table. *)
Definition reading {A} (b : RedbBackend) (absent : A) (k : ReadOnlyTable → result StorageError A)
    : result StorageError A :=
  txn ← map_err (unavailable "read txn") (begin_read (db b));
  match read_table MAIN_TABLE txn with
  | Ok table => k table
  | Err _ => Ok absent
  end.

(** The transaction of a call that writes: [body] works on the open table. *)
Definition writing {A} (what : string) (b : RedbBackend)
    (body : WriteTransaction → result StorageError (A * WriteTransaction))
    : result StorageError A * RedbBackend :=
  let done :=
    txn ← map_err (unavailable "write txn") (begin_write (db b));
    txn ← map_err (unavailable "open table") (write_table MAIN_TABLE txn);
    body txn in
  match done with
  | Err e => (Err e, b)
  | Ok (a, txn) =>
    let '(r, d) := commit txn (db b) in
    (_ ← map_err (corrupted what) r; Ok a, {| db := d; path := path b |})
  end.

Definition redb_get (key : list byte) (b : RedbBackend)
    : result StorageError (option (list byte)) :=
  reading b None (λ table, map_err (corrupted "get") (table_get key table)).

Definition redb_put (key value : list byte) (b : RedbBackend)
    : result StorageError () * RedbBackend :=
  writing "commit" b (λ txn,
    txn ← map_err (corrupted "insert") (table_insert MAIN_TABLE key value txn);
    Ok ((), txn)).

Definition redb_delete (key : list byte) (b : RedbBackend)
    : result StorageError bool * RedbBackend :=
  writing "commit" b (λ txn,
    '(old, txn) ← map_err (corrupted "remove") (table_remove MAIN_TABLE key txn);
    Ok (bool_decide (is_Some old), txn)).

Definition redb_exists (key : list byte) (b : RedbBackend) : result StorageError bool :=
  value ← redb_get key b; Ok (bool_decide (is_Some value)).

(** [for entry in iter]: the limit is looked at after an entry was taken. *)
Fixpoint scan_loop (prefix : list byte) (limit : nat)
    (iter : list (result string (list byte * list byte))) (results : list (list byte * list byte))
    : result StorageError (list (list byte * list byte)) :=
  match iter with
  | [] => Ok results
  | entry :: iter =>
    '(k, v) ← map_err (corrupted "scan entry") entry;
    if bool_decide (prefix `prefix_of` k) then
      let results := results ++ [(k, v)] in
      if (limit <=? length results)%nat then Ok results else scan_loop prefix limit iter results
    else Ok results
  end.

Definition redb_scan_prefix (prefix : list byte) (limit : nat) (b : RedbBackend)
    : result StorageError (list (list byte * list byte)) :=
  reading b [] (λ table,
    iter ← map_err (corrupted "range scan") (table_range prefix table);
    scan_loop prefix limit iter []).

Fixpoint get_all (keys : list (list byte)) (table : ReadOnlyTable)
    : result StorageError (list (option (list byte))) :=
  match keys with
  | [] => Ok []
  | key :: keys =>
    v ← map_err (corrupted "multi_get") (table_get key table);
    results ← get_all keys table;
    Ok (v :: results)
  end.

Definition redb_multi_get (keys : list (list byte)) (b : RedbBackend)
    : result StorageError (list (option (list byte))) :=
  reading b ((λ _, None) <$> keys) (get_all keys).

Fixpoint insert_all (entries : list (list byte * list byte)) (txn : WriteTransaction)
    : result StorageError WriteTransaction :=
  match entries with
  | [] => Ok txn
  | (k, v) :: entries =>
    txn ← map_err (corrupted "batch insert") (table_insert MAIN_TABLE k v txn);
    insert_all entries txn
  end.

Definition redb_batch_put (entries : list (list byte * list byte)) (b : RedbBackend)
    : result StorageError () * RedbBackend :=
  writing "batch commit" b (λ txn, txn ← insert_all entries txn; Ok ((), txn)).

Definition redb_flush (b : RedbBackend) : result StorageError () * RedbBackend := (Ok (), b).
Definition redb_name (b : RedbBackend) : string := "redb".
Definition redb_approximate_size (b : RedbBackend) : result StorageError (option Z) :=
  Ok (file_length (path b) (db b)).

#[export] Instance redb_backend : StorageBackend RedbBackend := {|
  sb_get := redb_get;
  sb_put := redb_put;
  sb_delete := redb_delete;
  sb_exists := redb_exists;
  sb_scan_prefix := redb_scan_prefix;
  sb_multi_get := redb_multi_get;
  sb_batch_put := redb_batch_put;
  sb_flush := redb_flush;
  sb_name := redb_name;
  sb_approximate_size := redb_approximate_size;
|}.

End backend.

(** ** What the backend guarantees

    Whatever fails, a call that fails changes nothing and a call that succeeds does what the
    map does. *)

Lemma iterates_nil es : iterates es [] → es = [].
Proof. intros [H|(n & e & rest & H)]; [by destruct es|by destruct (_ <$> _)]. Qed.

Lemma iterates_cons es x l :
  iterates es (x :: l) → (∃ e es', es = e :: es' ∧ x = Ok e ∧ iterates es' l) ∨ ∃ e, x = Err e.
Proof.
  intros [H|(n & e & rest & H)]; destruct es as [|a es]; [done| | |].
  - injection H as -> ->. left. exists a, es. split_and!; [done..|]. by left.
  - rewrite take_nil in H. injection H as -> ->. right. by eexists.
  - destruct n as [|n]; cbn in H; injection H as -> ->; [right; by eexists|].
    left. exists a, es. split_and!; [done..|]. right. by exists n, e, rest.
Qed.

(** The keys with a prefix come first among those from the prefix on. *)
Lemma take_while_entries p m :
  take_while (λ e, bool_decide (p `prefix_of` e.1)) (entries_from p m) = entries_with p m.
Proof.
  unfold entries_from, entries_with. rewrite <- (take_while_prefix p) by apply sorted_keys_sorted.
  assert (Forall (λ k, is_Some (m !! k)) (filter (bytes_le p) (sorted_keys m))) as Hf.
  { apply Forall_forall. intros k [_ Hk]%list_elem_of_filter. by apply elem_of_sorted_keys. }
  induction Hf as [|k l [v Hv] _ IH]; [done|]. cbn. rewrite Hv. cbn.
  case_bool_decide; [|done]. cbn. rewrite Hv. cbn. by f_equal.
Qed.

Lemma scan_loop_spec p limit iter : ∀ es acc l,
  iterates es iter → length acc < Nat.max 1 limit → scan_loop p limit iter acc = Ok l →
  l = acc ++ take (Nat.max 1 limit - length acc) (take_while (λ e, bool_decide (p `prefix_of` e.1)) es).
Proof.
  induction iter as [|x iter IH]; intros es acc l Hi Hlt; cbn.
  - apply iterates_nil in Hi as ->. intros [= <-]. cbn. by rewrite take_nil, app_nil_r.
  - apply iterates_cons in Hi as [([k v] & es' & -> & -> & Hi)|[e ->]]; [|done]. cbn.
    case_bool_decide as Hp; [|intros [= <-]; by rewrite take_nil, app_nil_r].
    rewrite length_app. cbn. destruct (Nat.leb_spec limit (length acc + 1)) as [Hle|Hgt].
    + intros [= <-]. replace (Nat.max 1 limit - length acc) with 1 by lia. cbn. by rewrite take_0.
    + intros Hl. apply (IH es') in Hl; [|done|rewrite length_app; cbn; lia]. rewrite Hl, <- app_assoc.
      f_equal. rewrite length_app. cbn.
      replace (Nat.max 1 limit - length acc) with (S (Nat.max 1 limit - (length acc + 1))) by lia. done.
Qed.

Section laws.
Context {RD : Redb} `{!RedbLaws RD}.

Definition main (b : RedbBackend) : BTreeMap := table_at MAIN_TABLE (tables (db b)).

Lemma insert_all_spec es : ∀ txn txn', insert_all es txn = Ok txn' →
  pending txn' = (if es is [] then pending txn
                  else <[MAIN_TABLE := list_to_map (reverse es) ∪ table_at MAIN_TABLE (pending txn)]> (pending txn)).
Proof.
  induction es as [|[k v] es IH]; intros txn txn' Hi; cbn in Hi; [naive_solver|]. inv_calls.
  apply IH in Hi. rewrite Hi. erewrite rl_insert by done. clear Hi IH.
  assert (list_to_map (reverse ((k, v) :: es)) ∪ table_at MAIN_TABLE (pending txn) =
    list_to_map (reverse es) ∪ <[k := v]> (table_at MAIN_TABLE (pending txn)) :> BTreeMap) as ->.
  { by rewrite <- !foldl_insert_union. }
  destruct es as [|e es]; cbn [reverse].
  - cbn. by rewrite (left_id_L ∅ (∪)).
  - unfold table_at at 1. rewrite lookup_insert_eq. cbn. by rewrite insert_insert_eq.
Qed.

(** A call that writes is all or nothing. *)
Lemma writing_spec {A} (what : string) (b b' : RedbBackend) (r : result StorageError A)
    (body : WriteTransaction → result StorageError (A * WriteTransaction)) (Q : A → BTreeMap → Prop) :
  (∀ txn a txn', table_at MAIN_TABLE (pending txn) = main b → body txn = Ok (a, txn') →
    Q a (table_at MAIN_TABLE (pending txn'))) →
  writing what b body = (r, b') →
  match r with Ok a => Q a (main b') | Err _ => main b' = main b end.
Proof.
  intros Hbody. unfold writing.
  destruct (_ ≫= _) as [[a txn']|e] eqn:Hd; [|by intros [= <- <-]]. inv_calls.
  destruct (commit txn' (db b)) as [[[]|e] d] eqn:Hc; intros [= <- <-]; cbn.
  - unfold main. cbn. rewrite (rl_commit _ _ _ Hc). eapply Hbody; [|done].
    erewrite rl_write_table by done. unfold table_at at 1. rewrite lookup_insert_eq. cbn.
    by erewrite rl_begin_write by done.
  - unfold main. cbn. by rewrite (rl_commit_err _ _ _ _ Hc).
Qed.

Lemma redb_put_spec k v b r b' : redb_put k v b = (r, b') →
  match r with Ok _ => main b' = <[k := v]> (main b) | Err _ => main b' = main b end.
Proof.
  apply (writing_spec _ _ _ _ _ (λ _ m, m = <[k := v]> (main b))).
  intros txn a txn' Hm Hb. inv_calls. simplify_eq. erewrite rl_insert by done.
  unfold table_at at 1. rewrite lookup_insert_eq. cbn. by rewrite Hm.
Qed.

Lemma redb_delete_spec k b r b' : redb_delete k b = (r, b') →
  match r with
  | Ok existed => existed = bool_decide (is_Some (main b !! k)) ∧ main b' = delete k (main b)
  | Err _ => main b' = main b
  end.
Proof.
  apply (writing_spec _ _ _ _ _
    (λ existed m, existed = bool_decide (is_Some (main b !! k)) ∧ m = delete k (main b))).
  intros txn a txn' Hm Hb. apply result_bind_Ok in Hb as ([old t] & Hr & [= <- ->]). inv_calls.
  apply rl_remove in Hr as [-> ->]. rewrite Hm. split; [done|].
  unfold table_at. by rewrite lookup_insert_eq.
Qed.

Lemma redb_batch_spec es b r b' : redb_batch_put es b = (r, b') →
  match r with Ok _ => main b' = list_to_map (reverse es) ∪ main b | Err _ => main b' = main b end.
Proof.
  apply (writing_spec _ _ _ _ _ (λ _ m, m = list_to_map (reverse es) ∪ main b)).
  intros txn a txn' Hm Hb. inv_calls. simplify_eq.
  match goal with H : insert_all _ _ = _ |- _ => apply insert_all_spec in H; rewrite H end.
  destruct es as [|e es]; [rewrite Hm; symmetry; apply (left_id_L ∅ (∪))|].
  unfold table_at at 1. rewrite lookup_insert_eq. cbn [default id]. by rewrite Hm.
Qed.

Context {OP : TablesOpen RD}.

(** A call that reads answers from the committed table. *)
Lemma reading_spec {A} (b : RedbBackend) (absent a : A) (k : ReadOnlyTable → result StorageError A) (Q : A → BTreeMap → Prop) :
  (main b = ∅ → Q absent ∅) → (∀ tb a, table_view tb = main b → k tb = Ok a → Q a (main b)) →
  reading b absent k = Ok a → Q a (main b).
Proof.
  intros Habs Hk. unfold reading. intros Hr. apply result_bind_Ok in Hr as (txn & Ht & Hr). inv_calls.
  pose proof (rl_begin_read _ _ Ht) as Hs. destruct (read_table MAIN_TABLE txn) as [tb|e] eqn:Ho.
  - eapply Hk; [|done]. apply rl_read_table in Ho. unfold main, table_at. by rewrite <- Hs, Ho.
  - injection Hr as ->. assert (main b = ∅) as He; [|rewrite He; by apply Habs].
    apply tables_open in Ho. unfold main, table_at. by rewrite <- Hs, Ho.
Qed.

Lemma redb_get_spec k b v : redb_get k b = Ok v → v = main b !! k.
Proof.
  apply (reading_spec _ _ _ _ (λ v m, v = m !! k)); [by rewrite lookup_empty|].
  intros tb a <- Hg. inv_calls. by apply rl_get.
Qed.

Lemma redb_exists_spec k b v : redb_exists k b = Ok v → v = bool_decide (is_Some (main b !! k)).
Proof. intros He. apply result_bind_Ok in He as (x & ->%redb_get_spec & [= <-]). done. Qed.

Lemma get_all_spec ks tb l : get_all ks tb = Ok l → l = (λ k, table_view tb !! k) <$> ks.
Proof.
  revert l. induction ks as [|k ks IH]; intros l Hg; cbn in Hg; [naive_solver|]. inv_calls.
  injection Hg as <-. cbn. f_equal; [by apply rl_get|by apply IH].
Qed.

Lemma redb_multi_get_spec ks b l : redb_multi_get ks b = Ok l → l = (λ k, main b !! k) <$> ks.
Proof.
  apply (reading_spec _ _ _ _ (λ l m, l = (λ k, m !! k) <$> ks)).
  - intros _. apply list_fmap_ext. intros i k _. by rewrite lookup_empty.
  - intros tb a <-. apply get_all_spec.
Qed.

Lemma redb_scan_spec p limit b l :
  redb_scan_prefix p limit b = Ok l → l = take (Nat.max 1 limit) (entries_with p (main b)).
Proof.
  apply (reading_spec _ _ _ _ (λ l m, l = take (Nat.max 1 limit) (entries_with p m))).
  - intros _. unfold entries_with, sorted_keys. rewrite dom_empty_L, elements_empty. cbn. by rewrite take_nil.
  - intros tb a <- Hs. inv_calls. eapply scan_loop_spec in Hs; [|by apply rl_range|cbn; lia].
    rewrite Hs, take_while_entries. cbn. by rewrite Nat.sub_0_r.
Qed.

End laws.

(** ** Runs *)

Inductive backend_op :=
| BPut (k v : list byte)
| BDelete (k : list byte)
| BBatch (es : list (list byte * list byte)).

(** The answer of a call that writes; that of a delete says whether the key was there. *)
Definition backend_step {B} `{!StorageBackend B} (op : backend_op) (b : B)
    : result StorageError bool * B :=
  match op with
  | BPut k v => let '(r, b) := sb_put k v b in (_ ← r; Ok true, b)
  | BDelete k => sb_delete k b
  | BBatch es => let '(r, b) := sb_batch_put es b in (_ ← r; Ok true, b)
  end.

Fixpoint backend_run {B} `{!StorageBackend B} (ops : list backend_op) (b : B)
    : list (result StorageError bool) * B :=
  match ops with
  | [] => ([], b)
  | op :: ops => let '(r, b) := backend_step op b in let '(rs, b) := backend_run ops b in (r :: rs, b)
  end.

(** The specification: a map, on which an operation that fails has no effect. *)
Definition map_step (op : backend_op) (m : BTreeMap) : bool * BTreeMap :=
  match op with
  | BPut k v => (true, <[k := v]> m)
  | BDelete k => (bool_decide (is_Some (m !! k)), delete k m)
  | BBatch es => (true, list_to_map (reverse es) ∪ m)
  end.

Inductive map_run : BTreeMap → list backend_op → list (result StorageError bool) → BTreeMap → Prop :=
| map_done m : map_run m [] [] m
| map_ok m op ops rs m' :
  map_run (map_step op m).2 ops rs m' → map_run m (op :: ops) (Ok (map_step op m).1 :: rs) m'
| map_failed m op ops e rs m' : map_run m ops rs m' → map_run m (op :: ops) (Err e :: rs) m'.

Section guarantees.
Context {RD : Redb} `{!RedbLaws RD}.

Lemma redb_step_spec op b r b' : backend_step op b = (r, b') →
  match r with Ok a => (a, main b') = map_step op (main b) | Err _ => main b' = main b end.
Proof.
  destruct op as [k v|k|es]; cbn.
  - destruct (redb_put k v b) as [[[]|e] b1] eqn:Hp; intros [= <- <-]; apply redb_put_spec in Hp; congruence.
  - intros Hd. apply redb_delete_spec in Hd. destruct r as [a|e]; [|done]. by destruct Hd as [-> ->].
  - destruct (redb_batch_put es b) as [[[]|e] b1] eqn:Hp; intros [= <- <-];
      apply redb_batch_spec in Hp; congruence.
Qed.

Lemma redb_run_spec ops : ∀ b rs b', backend_run ops b = (rs, b') → map_run (main b) ops rs (main b').
Proof.
  induction ops as [|op ops IH]; intros b rs b'; cbn; [intros [= <- <-]; constructor|].
  destruct (backend_step op b) as [r b1] eqn:Hs. destruct (backend_run ops b1) as [rs1 b2] eqn:Hr.
  intros [= <- <-]. apply redb_step_spec in Hs. apply IH in Hr. destruct r as [a|e].
  - destruct (map_step op (main b)) as [a' m1] eqn:Hm. injection Hs as -> Hm1.
    rewrite Hm1 in Hr. replace a' with (map_step op (main b)).1 by by rewrite Hm.
    constructor. by rewrite Hm.
  - rewrite Hs in Hr. by constructor.
Qed.


End guarantees.

(** ** A database that works

    On one that does not fail, the backend on disk answers as the one in memory. *)

Section works.
Context {RD : Redb} `{!RedbLaws RD} {RE : Reliable RD}.

Ltac all_ok :=
  repeat first
    [ apply is_ok_bind_all; [|intros ? _]
    | rewrite is_ok_map_err
    | match goal with |- context [let '(_, _) := ?x in _] => destruct x end
    | done
    | apply re_begin_read | apply re_get | apply re_begin_write | apply re_write_table
    | apply re_insert | apply re_remove | by auto ].

Lemma writing_ok {A} what (b : RedbBackend) (body : WriteTransaction → result StorageError (A * WriteTransaction)) :
  (∀ txn, is_ok (body txn) = true) → ∃ a b', writing what b body = (Ok a, b').
Proof.
  intros Hbody. unfold writing.
  assert (is_ok (txn ← map_err (unavailable "write txn") (begin_write (db b));
    txn ← map_err (unavailable "open table") (write_table MAIN_TABLE txn); body txn) = true) as H by all_ok.
  apply is_ok_iff in H as [[a txn] ->]. pose proof (re_commit txn (db b)) as Hc.
  destruct (commit txn (db b)) as [[[]|e] d]; [|done]. by eexists _, _.
Qed.

Lemma insert_all_ok es : ∀ txn, is_ok (insert_all es txn) = true.
Proof. induction es as [|[k v] es IH]; intros txn; cbn; [done|]. by all_ok. Qed.

Lemma backend_step_ok op (b : RedbBackend) : ∃ a b', backend_step op b = (Ok a, b').
Proof.
  destruct op as [k v|k|es]; cbn.
  - assert (∃ a b', redb_put k v b = (Ok a, b')) as (a & b' & ->); [|by eexists _, _].
    apply writing_ok. intros txn. by all_ok.
  - apply writing_ok. intros txn. by all_ok.
  - assert (∃ a b', redb_batch_put es b = (Ok a, b')) as (a & b' & ->); [|by eexists _, _].
    apply writing_ok. intros txn. by apply is_ok_bind_all; [apply insert_all_ok|].
Qed.

Lemma reading_ok {A} (b : RedbBackend) (absent : A) (k : ReadOnlyTable → result StorageError A) :
  (∀ tb, is_ok (k tb) = true) → ∃ a, reading b absent k = Ok a.
Proof.
  intros Hk. apply is_ok_iff. unfold reading. apply is_ok_bind_all; [by all_ok|]. intros txn _.
  by destruct (read_table MAIN_TABLE txn).
Qed.

Lemma get_all_ok ks tb : is_ok (get_all ks tb) = true.
Proof. induction ks as [|k ks IH]; cbn; [done|]. by all_ok. Qed.

Lemma scan_loop_ok p limit es : ∀ acc, is_ok (scan_loop p limit (Ok <$> es) acc) = true.
Proof.
  induction es as [|[k v] es IH]; intros acc; cbn; [done|]. case_bool_decide; [|done].
  by destruct (limit <=? _).
Qed.

Lemma redb_get_memory k b : redb_get k b = memory_get k {| data := main b |}.
Proof.
  assert (∃ v, redb_get k b = Ok v) as [v Hv] by (apply reading_ok; intros tb; by all_ok).
  rewrite Hv. by apply redb_get_spec in Hv as ->.
Qed.

Lemma redb_exists_memory k b : redb_exists k b = memory_exists k {| data := main b |}.
Proof. unfold redb_exists. by rewrite redb_get_memory. Qed.

Lemma redb_multi_get_memory ks b : redb_multi_get ks b = memory_multi_get ks {| data := main b |}.
Proof.
  assert (∃ v, redb_multi_get ks b = Ok v) as [v Hv] by (apply reading_ok; intros tb; apply get_all_ok).
  rewrite Hv. by apply redb_multi_get_spec in Hv as ->.
Qed.

Lemma redb_scan_memory p limit b :
  redb_scan_prefix p limit b = memory_scan_prefix p (Nat.max 1 limit) {| data := main b |}.
Proof.
  assert (∃ v, redb_scan_prefix p limit b = Ok v) as [v Hv].
  { apply reading_ok. intros tb. rewrite re_range. apply scan_loop_ok. }
  rewrite Hv, memory_scan_spec. by apply redb_scan_spec in Hv as ->.
Qed.

(** On a database that works the backend on disk is the one in memory: any calls that write
    have the same answers on both, and afterwards so has every call that reads, where a scan
    for no entries is one for one entry. *)
Theorem redb_like_memory (ops : list backend_op) (b : RedbBackend) :
  let '(rs, b') := backend_run ops b in
  let '(ms, m') := backend_run ops {| data := main b |} in
  rs = ms ∧
  (∀ k, redb_get k b' = memory_get k m') ∧ (∀ k, redb_exists k b' = memory_exists k m') ∧
  (∀ ks, redb_multi_get ks b' = memory_multi_get ks m') ∧
  ∀ p limit, redb_scan_prefix p limit b' = memory_scan_prefix p (Nat.max 1 limit) m'.
Proof.
  revert b. induction ops as [|op ops IH]; intros b; cbn.
  - eauto using redb_get_memory, redb_exists_memory, redb_multi_get_memory, redb_scan_memory.
  - destruct (backend_step_ok op b) as (a & b1 & Hs). rewrite Hs. apply redb_step_spec in Hs.
    assert (backend_step op {| data := main b |} = (Ok a, {| data := main b1 |})) as ->.
    { destruct op as [k v|k|es]; cbn in Hs |- *; injection Hs as -> ->; [done|done|].
      unfold memory_batch_put. cbn. by rewrite foldl_insert_union. }
    specialize (IH b1). destruct (backend_run ops b1), (backend_run ops {| data := main b1 |}).
    by destruct IH as (-> & IH).
Qed.

End works.
