(* ===== verification/GraphBackends.v ===== *)
(** * Graph stores on disk

    Models [src/rust-core/verisim-graph/src/redb_backend.rs] and [oxigraph_backend.rs]: the
    interface of the graph store over two databases.  The first keeps three tables of the
    [redb] crate, with composite keys (the class [Redb] of [Redb.v]); the second is the RDF
    store of the [oxigraph] crate, a parameter here.  The closures given to [spawn_blocking]
    do not panic, so joining them does not fail.  A call that writes is one transaction; the
    calls of a neighbourhood search are made one after the other on an unchanged store. *)

From S2P Require Import Prelude Graph Storage Redb.
From Stdlib Require Import Strings.Byte.
From Stdlib Require String.

Definition store_error (what e : string) : GraphError := StoreError (what +:+ ": " +:+ e).

(** ** Triples in tables *)

Definition SEP : byte := x00.

Definition object_bytes (o : GraphObject) : list byte :=
  match o with
  | Node n => as_bytes (iri n)
  | Literal value _ => as_bytes "literal::" ++ as_bytes value
  end.

Definition triple_key (e : GraphEdge) : list byte :=
  as_bytes (iri (subject e)) ++ SEP :: as_bytes (iri (predicate e)) ++ SEP :: object_bytes (object e).

Definition subject_index_key (subject_iri : string) (triple_key : list byte) : list byte :=
  as_bytes subject_iri ++ SEP :: triple_key.
Definition object_index_key (object_iri : string) (triple_key : list byte) : list byte :=
  as_bytes object_iri ++ SEP :: triple_key.
Definition iri_prefix (iri : string) : list byte := as_bytes iri ++ [SEP].

Section redb.
Context {RD : Redb} `{!Serde GraphEdge}.

Definition TRIPLES : string := "triples".
Definition SUBJECT_IDX : string := "subject_idx".
Definition OBJECT_IDX : string := "object_idx".

Record RedbGraphStore := { graph_db : Database; graph_path : string }.

(** [create_dir_all], on the directory of a path if it has one, is the file system's. *)
Definition redb_persistent (create_parent : string → result string ()) (p : string)
    : result GraphError RedbGraphStore :=
  _ ← map_err (store_error "create dirs") (create_parent p);
  d ← map_err (store_error "open redb") (database_create p);
  Ok {| graph_db := d; graph_path := p |}.

Definition deserialise_edge (bytes : list byte) : result GraphError GraphEdge :=
  map_err (store_error "deserialise edge") (from_slice bytes).
Definition serialise_edge (e : GraphEdge) : result GraphError (list byte) :=
  map_err (store_error "serialise edge") (to_vec e).

(** [for entry in iter]. *)
Fixpoint scan_edges (prefix : list byte) (triples : ReadOnlyTable)
    (iter : list (result string (list byte * list byte))) : result GraphError (list GraphEdge) :=
  match iter with
  | [] => Ok []
  | entry :: iter =>
    '(idx_key, _) ← map_err (store_error "index entry") entry;
    if bool_decide (prefix `prefix_of` idx_key) then
      found ← map_err (store_error "triple lookup") (table_get (drop (length prefix) idx_key) triples);
      match found with
      | Some bytes =>
        e ← deserialise_edge bytes;
        edges ← scan_edges prefix triples iter;
        Ok (e :: edges)
      | None => scan_edges prefix triples iter
      end
    else Ok []
  end.

Definition scan_index_for_edges (d : Database) (index_table iri : string)
    : result GraphError (list GraphEdge) :=
  txn ← map_err (store_error "read txn") (begin_read d);
  match read_table index_table txn with
  | Err _ => Ok []
  | Ok idx =>
    match read_table TRIPLES txn with
    | Err _ => Ok []
    | Ok triples =>
      iter ← map_err (store_error "index scan") (table_range (iri_prefix iri) idx);
      scan_edges (iri_prefix iri) triples iter
    end
  end.

(** A table opened and changed in a transaction; [noun] is what the error calls its entries. *)
Definition insert_into (table noun : string) (key value : list byte) (txn : WriteTransaction)
    : result GraphError WriteTransaction :=
  txn ← map_err (store_error ("open " +:+ table)) (write_table table txn);
  map_err (store_error ("insert " +:+ noun)) (table_insert table key value txn).

Definition remove_from (table noun : string) (key : list byte) (txn : WriteTransaction)
    : result GraphError WriteTransaction :=
  txn ← map_err (store_error ("open " +:+ table)) (write_table table txn);
  '(_, txn) ← map_err (store_error ("remove " +:+ noun)) (table_remove table key txn);
  Ok txn.

Definition insert_body (e : GraphEdge) (edge_bytes : list byte) (txn : WriteTransaction)
    : result GraphError WriteTransaction :=
  let tkey := triple_key e in
  txn ← insert_into TRIPLES "triple" tkey edge_bytes txn;
  txn ← insert_into SUBJECT_IDX SUBJECT_IDX (subject_index_key (iri (subject e)) tkey) [] txn;
  match object e with
  | Node n => insert_into OBJECT_IDX OBJECT_IDX (object_index_key (iri n) tkey) [] txn
  | Literal _ _ => Ok txn
  end.

Definition delete_body (e : GraphEdge) (txn : WriteTransaction) : result GraphError WriteTransaction :=
  let tkey := triple_key e in
  txn ← remove_from TRIPLES "triple" tkey txn;
  txn ← remove_from SUBJECT_IDX SUBJECT_IDX (subject_index_key (iri (subject e)) tkey) txn;
  match object e with
  | Node n => remove_from OBJECT_IDX OBJECT_IDX (object_index_key (iri n) tkey) txn
  | Literal _ _ => Ok txn
  end.

(** [begin_write] and the body; then [commit], or the transaction is dropped. *)
Definition graph_write (s : RedbGraphStore) (body : WriteTransaction → result GraphError WriteTransaction)
    : result GraphError () * RedbGraphStore :=
  match (txn ← map_err (store_error "write txn") (begin_write (graph_db s)); body txn) with
  | Err e => (Err e, s)
  | Ok txn =>
    let '(r, d) := commit txn (graph_db s) in
    (map_err (store_error "commit") r, {| graph_db := d; graph_path := graph_path s |})
  end.

Definition redb_insert (e : GraphEdge) (s : RedbGraphStore) : result GraphError () * RedbGraphStore :=
  match serialise_edge e with
  | Err err => (Err err, s)
  | Ok edge_bytes => graph_write s (insert_body e edge_bytes)
  end.

Definition redb_graph_delete (e : GraphEdge) (s : RedbGraphStore)
    : result GraphError () * RedbGraphStore := graph_write s (delete_body e).

Definition redb_outgoing (n : GraphNode) (s : RedbGraphStore) : result GraphError (list GraphEdge) :=
  scan_index_for_edges (graph_db s) SUBJECT_IDX (iri n).
Definition redb_incoming (n : GraphNode) (s : RedbGraphStore) : result GraphError (list GraphEdge) :=
  scan_index_for_edges (graph_db s) OBJECT_IDX (iri n).

Definition redb_graph_exists (e : GraphEdge) (s : RedbGraphStore) : result GraphError bool :=
  txn ← map_err (store_error "read txn") (begin_read (graph_db s));
  match read_table TRIPLES txn with
  | Err _ => Ok false
  | Ok table =>
    found ← map_err (store_error "exists check") (table_get (triple_key e) table);
    Ok (bool_decide (is_Some found))
  end.

Definition redb_neighborhood `{!HashIter string} (n : GraphNode) (hops : nat) (s : RedbGraphStore)
    : result GraphError (list GraphNode) :=
  search (λ n, redb_outgoing n s) (λ n, redb_incoming n s) n hops.

End redb.

(** ** Triples in an RDF store

    What the store uses of the crate: IRIs that are checked, literals, and quads, of which
    [SubjectOther] and [TermOther] stand for the kinds the store leaves aside. *)

Class Oxigraph := {
  NamedNode : Type; OxLiteral : Type; Store : Type;
  named_node_new : string → result string NamedNode;
  as_str : NamedNode → string;
  new_simple_literal : string → OxLiteral;
  literal_value : OxLiteral → string;
  literal_datatype : OxLiteral → string;
}.

Inductive Subject `{OX : Oxigraph} := SubjectNamedNode (n : NamedNode) | SubjectOther (text : string).
Inductive Term `{OX : Oxigraph} :=
| TermNamedNode (n : NamedNode)
| TermLiteral (l : OxLiteral)
| TermOther (text : string).
Record Quad `{OX : Oxigraph} := {
  quad_subject : Subject; quad_predicate : NamedNode; quad_object : Term;
  quad_graph : option string;    (* [None] is the default graph *)
}.

Class OxigraphStore `{OX : Oxigraph} := {
  store_new : result string Store;
  store_open : string → result string Store;
  store_insert : Quad → Store → result string bool * Store;
  store_remove : Quad → Store → result string bool * Store;
  store_contains : Quad → Store → result string bool;
  quads_for_pattern : option Subject → option NamedNode → option Term → option (option string) →
    Store → list (result string Quad);
}.

Section oxigraph.
Context {OX : Oxigraph} {OS : OxigraphStore}.

Definition ox_in_memory : result GraphError Store := map_err StoreError store_new.
Definition ox_persistent (path : string) : result GraphError Store := map_err StoreError (store_open path).

Definition ox_node (iri : string) : result GraphError NamedNode := map_err InvalidIri (named_node_new iri).

Definition edge_to_quad (e : GraphEdge) : result GraphError Quad :=
  s ← ox_node (iri (subject e));
  p ← ox_node (iri (predicate e));
  o ← match object e with
      | Node n => n ← ox_node (iri n); Ok (TermNamedNode n)
      | Literal value _ => Ok (TermLiteral (new_simple_literal value))
      end;
  Ok {| quad_subject := SubjectNamedNode s; quad_predicate := p; quad_object := o; quad_graph := None |}.

(** [insert] and [delete] discard whether the store was changed. *)
Definition ox_insert (e : GraphEdge) (s : Store) : result GraphError () * Store :=
  match edge_to_quad e with
  | Err err => (Err err, s)
  | Ok quad => let '(r, s) := store_insert quad s in (_ ← map_err StoreError r; Ok (), s)
  end.

Definition ox_delete (e : GraphEdge) (s : Store) : result GraphError () * Store :=
  match edge_to_quad e with
  | Err err => (Err err, s)
  | Ok quad => let '(r, s) := store_remove quad s in (_ ← map_err StoreError r; Ok (), s)
  end.

Definition ox_exists (e : GraphEdge) (s : Store) : result GraphError bool :=
  quad ← edge_to_quad e; map_err StoreError (store_contains quad s).

(** [for quad in quads]: an error ends the loop, [f] may pass a quad over. *)
Fixpoint edges_of (f : Quad → option GraphEdge) (quads : list (result string Quad))
    : result GraphError (list GraphEdge) :=
  match quads with
  | [] => Ok []
  | quad :: quads =>
    quad ← map_err StoreError quad;
    edges ← edges_of f quads;
    Ok (match f quad with Some e => e :: edges | None => edges end)
  end.

Definition outgoing_edge (node : GraphNode) (quad : Quad) : option GraphEdge :=
  o ← match quad_object quad with
      | TermNamedNode n => Some (Node (GraphNode_new (as_str n)))
      | TermLiteral l => Some (Literal (literal_value l) (Some (literal_datatype l)))
      | TermOther _ => None
      end;
  Some {| subject := node; predicate := GraphNode_new (as_str (quad_predicate quad)); object := o |}.

Definition incoming_edge (node : GraphNode) (quad : Quad) : option GraphEdge :=
  s ← match quad_subject quad with
      | SubjectNamedNode n => Some (GraphNode_new (as_str n))
      | SubjectOther _ => None
      end;
  Some {| subject := s; predicate := GraphNode_new (as_str (quad_predicate quad)); object := Node node |}.

Definition ox_outgoing (node : GraphNode) (s : Store) : result GraphError (list GraphEdge) :=
  n ← ox_node (iri node);
  edges_of (outgoing_edge node) (quads_for_pattern (Some (SubjectNamedNode n)) None None None s).

Definition ox_incoming (node : GraphNode) (s : Store) : result GraphError (list GraphEdge) :=
  n ← ox_node (iri node);
  edges_of (incoming_edge node) (quads_for_pattern None None (Some (TermNamedNode n)) None s).

Definition ox_neighborhood `{!HashIter string} (node : GraphNode) (hops : nat) (s : Store)
    : result GraphError (list GraphNode) :=
  search (λ n, ox_outgoing n s) (λ n, ox_incoming n s) node hops.

End oxigraph.

(** ** The tables keep the graph

    As long as no IRI holds the separator, the three tables are the triples and the two
    indices of the store in memory. *)

(** An IRI without the separator. *)
Definition nul_free (s : string) : Prop := SEP ∉ as_bytes s.

Definition clean_edge (e : GraphEdge) : Prop :=
  nul_free (iri (subject e)) ∧ nul_free (iri (predicate e)) ∧
  ∀ n, object e = Node n → nul_free (iri n).

Definition clean_key (k : TripleKey) : Prop := nul_free k.1.1 ∧ nul_free k.1.2.

(** The bytes of a key, and of its entry in an index. *)
Definition enc (k : TripleKey) : list byte :=
  as_bytes k.1.1 ++ SEP :: as_bytes k.1.2 ++ SEP :: as_bytes k.2.
Definition index_enc (s : string) (k : TripleKey) : list byte := as_bytes s ++ SEP :: enc k.

Lemma triple_key_enc e : triple_key e = enc (from_edge e).
Proof.
  unfold triple_key, enc, from_edge. cbn [fst snd].
  destruct (object e); cbn [object_bytes object_key]; [done|by rewrite as_bytes_app].
Qed.

Lemma split_sep {A} (c : A) (a b x y : list A) :
  c ∉ a → c ∉ b → a ++ c :: x = b ++ c :: y → a = b ∧ x = y.
Proof.
  revert b. induction a as [|z a IH]; intros [|w b] Ha Hb Heq; cbn in Heq; simplify_eq; [done|set_solver..|].
  destruct (IH b) as [-> ->]; set_solver.
Qed.

Lemma enc_inj k k' : clean_key k → clean_key k' → enc k = enc k' → k = k'.
Proof.
  destruct k as [[s p] o], k' as [[s' p'] o']. intros [Hs Hp] [Hs' Hp'] Heq. cbn in *.
  apply split_sep in Heq as [->%as_bytes_inj Heq]; [|done..].
  by apply split_sep in Heq as [->%as_bytes_inj ->%as_bytes_inj].
Qed.

Lemma index_enc_inj s s' k k' :
  nul_free s → nul_free s' → clean_key k → clean_key k' →
  index_enc s k = index_enc s' k' → s = s' ∧ k = k'.
Proof.
  intros Hs Hs' Hk Hk' Heq. apply split_sep in Heq as [->%as_bytes_inj Heq]; [|done..].
  split; [done|by apply enc_inj].
Qed.

(** A table holds an index: its keys are the encodings of the pairs. *)
Record idx_rel (idx : gmap string (gset TripleKey)) (tb : BTreeMap) : Prop := {
  ir_keys : ∀ kb, is_Some (tb !! kb) ↔ ∃ s k, k ∈ idx_keys idx s ∧ kb = index_enc s k;
  ir_clean : ∀ s k, k ∈ idx_keys idx s → nul_free s ∧ clean_key k;
}.

Lemma idx_rel_empty : idx_rel ∅ ∅.
Proof.
  assert (∀ s k, k ∉ idx_keys ∅ s) as H by (intros s k; unfold idx_keys; rewrite lookup_empty; set_solver).
  split; [|by intros s k ?%H]. intros kb. rewrite lookup_empty. split; [by intros []|].
  by intros (s & k & ?%H & _).
Qed.

Lemma idx_rel_insert s k idx tb :
  nul_free s → clean_key k → idx_rel idx tb →
  idx_rel (idx_insert s k idx) (<[index_enc s k := []]> tb).
Proof.
  intros Hs Hk [Hkeys Hclean]. split.
  - intros kb. rewrite lookup_insert_is_Some, Hkeys. setoid_rewrite elem_of_idx_insert.
    destruct (decide (index_enc s k = kb)) as [<-|Hne]; naive_solver.
  - intros s' k' [H|[<- ->]]%elem_of_idx_insert; [by apply Hclean|done].
Qed.

Lemma idx_rel_remove s k idx tb :
  nul_free s → clean_key k → idx_rel idx tb →
  idx_rel (idx_remove s k idx) (delete (index_enc s k) tb).
Proof.
  intros Hs Hk [Hkeys Hclean]. split.
  - intros kb. rewrite lookup_delete_is_Some, Hkeys. setoid_rewrite elem_of_idx_remove. split.
    + intros [Hne (s' & k' & Hin & ->)]. exists s', k'. split; [|done]. split; [done|].
      by intros [<- ->].
    + intros (s' & k' & [Hin Hne] & ->). split; [|by eauto]. intros Heq.
      destruct (Hclean s' k' Hin). apply index_enc_inj in Heq as [-> ->]; auto.
  - intros s' k' [H _]%elem_of_idx_remove. by apply Hclean.
Qed.

Section tables.
Context `{!Serde GraphEdge} `{!SerdeLaws GraphEdge}.

(** The three tables hold a store. *)
Record tables_rel (g : SimpleGraphStore) (ts : gmap string BTreeMap) : Prop := {
  tr_triples : ∀ kb bytes, table_at TRIPLES ts !! kb = Some bytes ↔
    ∃ e, edges g !! from_edge e = Some e ∧ triple_key e = kb ∧ to_vec e = Ok bytes;
  tr_clean : ∀ k e, edges g !! k = Some e → clean_key k;
  tr_written : ∀ k e, edges g !! k = Some e → ∃ bytes, to_vec e = Ok bytes;
  tr_subject : idx_rel (subject_idx g) (table_at SUBJECT_IDX ts);
  tr_object : idx_rel (object_idx g) (table_at OBJECT_IDX ts);
}.

Lemma tables_rel_empty : tables_rel graph_new ∅.
Proof.
  assert (∀ n, table_at n ∅ = ∅) as HE by done.
  split; rewrite ?HE; cbn [edges subject_idx object_idx graph_new]; [| | |apply idx_rel_empty..].
  - intros kb bytes. rewrite lookup_empty. split; [done|]. intros (e & He & _). by rewrite lookup_empty in He.
  - intros k e. by rewrite lookup_empty.
  - intros k e. by rewrite lookup_empty.
Qed.

(** A key put into a table, or removed. *)
Definition put_entry (n : string) (k v : list byte) (ts : gmap string BTreeMap) : gmap string BTreeMap :=
  <[n := <[k := v]> (table_at n ts)]> ts.
Definition del_entry (n : string) (k : list byte) (ts : gmap string BTreeMap) : gmap string BTreeMap :=
  <[n := delete k (table_at n ts)]> ts.

Definition insert_entries (e : GraphEdge) (bytes : list byte) (ts : gmap string BTreeMap)
    : gmap string BTreeMap :=
  let k := from_edge e in
  let ts := put_entry SUBJECT_IDX (index_enc (iri (subject e)) k) [] (put_entry TRIPLES (enc k) bytes ts) in
  match object e with
  | Node n => put_entry OBJECT_IDX (index_enc (iri n) k) [] ts
  | Literal _ _ => ts
  end.

Definition delete_entries (e : GraphEdge) (ts : gmap string BTreeMap) : gmap string BTreeMap :=
  let k := from_edge e in
  let ts := del_entry SUBJECT_IDX (index_enc (iri (subject e)) k) (del_entry TRIPLES (enc k) ts) in
  match object e with
  | Node n => del_entry OBJECT_IDX (index_enc (iri n) k) ts
  | Literal _ _ => ts
  end.

Lemma table_at_insert n m ts : table_at n (<[n := m]> ts) = m.
Proof. unfold table_at. by rewrite lookup_insert_eq. Qed.
Lemma table_at_insert_ne n n' m ts : n ≠ n' → table_at n (<[n' := m]> ts) = table_at n ts.
Proof. intros Hne. unfold table_at. by rewrite lookup_insert_ne. Qed.

Lemma clean_from_edge e : clean_edge e → clean_key (from_edge e).
Proof. by intros (Hs & Hp & _). Qed.

Lemma tables_rel_insert g ts e bytes :
  clean_edge e → to_vec e = Ok bytes → tables_rel g ts →
  tables_rel (graph_insert e g).2 (insert_entries e bytes ts).
Proof.
  intros He Hv [Ht Hc Hw Hs Ho]. pose proof (clean_from_edge e He) as Hk. destruct He as (Hes & Hep & Heo).
  assert (table_at TRIPLES (insert_entries e bytes ts) = <[enc (from_edge e) := bytes]> (table_at TRIPLES ts)) as HT.
  { unfold insert_entries, put_entry. destruct (object e); by rewrite ?table_at_insert_ne, ?table_at_insert by done. }
  assert (table_at SUBJECT_IDX (insert_entries e bytes ts) =
    <[index_enc (iri (subject e)) (from_edge e) := []]> (table_at SUBJECT_IDX ts)) as HS.
  { unfold insert_entries, put_entry.
    destruct (object e); rewrite ?table_at_insert_ne, ?table_at_insert by done; by rewrite ?table_at_insert_ne by done. }
  split; cbn [edges subject_idx object_idx graph_insert snd].
  - intros kb v. rewrite HT, lookup_insert_Some, Ht. split.
    + intros [[<- <-]|(Hne & e' & He' & <- & Hv')].
      * exists e. by rewrite lookup_insert_eq, triple_key_enc.
      * exists e'. rewrite lookup_insert_ne; [done|]. intros Heq. apply Hne. by rewrite triple_key_enc, Heq.
    + intros (e' & [[Heq ->]|[Hne He']]%lookup_insert_Some & <- & Hv').
      * left. rewrite triple_key_enc. naive_solver congruence.
      * right. split; [|by exists e']. rewrite triple_key_enc. intros Heq.
        by apply Hne, enc_inj; [|eapply Hc|].
  - intros k e' [[<- _]|[_ H]]%lookup_insert_Some; [done|by eapply Hc].
  - intros k e' [[_ <-]|[_ H]]%lookup_insert_Some; [by exists bytes|by eapply Hw].
  - rewrite HS. by apply idx_rel_insert.
  - unfold insert_entries, put_entry. destruct (object e) as [n|v d] eqn:Hobj.
    + rewrite table_at_insert, !table_at_insert_ne by done. apply idx_rel_insert; auto.
    + by rewrite !table_at_insert_ne by done.
Qed.

Lemma tables_rel_delete g ts e :
  clean_edge e → tables_rel g ts → tables_rel (graph_delete e g).2 (delete_entries e ts).
Proof.
  intros He [Ht Hc Hw Hs Ho]. pose proof (clean_from_edge e He) as Hk. destruct He as (Hes & Hep & Heo).
  assert (table_at TRIPLES (delete_entries e ts) = delete (enc (from_edge e)) (table_at TRIPLES ts)) as HT.
  { unfold delete_entries, del_entry. destruct (object e); by rewrite ?table_at_insert_ne, ?table_at_insert by done. }
  assert (table_at SUBJECT_IDX (delete_entries e ts) =
    delete (index_enc (iri (subject e)) (from_edge e)) (table_at SUBJECT_IDX ts)) as HS.
  { unfold delete_entries, del_entry.
    destruct (object e); rewrite ?table_at_insert_ne, ?table_at_insert by done; by rewrite ?table_at_insert_ne by done. }
  split; cbn [edges subject_idx object_idx graph_delete snd].
  - intros kb v. rewrite HT, lookup_delete_Some, Ht. split.
    + intros (Hne & e' & He' & <- & Hv'). exists e'. rewrite lookup_delete_ne; [done|].
      intros Heq. apply Hne. by rewrite triple_key_enc, Heq.
    + intros (e' & [Hne He']%lookup_delete_Some & <- & Hv'). split; [|by exists e'].
      rewrite triple_key_enc. intros Heq. by apply Hne, enc_inj; [|eapply Hc|].
  - intros k e' [_ H]%lookup_delete_Some. by eapply Hc.
  - intros k e' [_ H]%lookup_delete_Some. by eapply Hw.
  - rewrite HS. by apply idx_rel_remove.
  - unfold delete_entries, del_entry. destruct (object e) as [n|v d] eqn:Hobj.
    + rewrite table_at_insert, !table_at_insert_ne by done. apply idx_rel_remove; auto.
    + by rewrite !table_at_insert_ne by done.
Qed.

End tables.

(** ** What the calls do to the tables *)

Section transactions.
Context {RD : Redb} `{!RedbLaws RD} `{!Serde GraphEdge}.

Lemma insert_into_spec table noun k v txn txn' :
  insert_into table noun k v txn = Ok txn' → pending txn' = put_entry table k v (pending txn).
Proof.
  unfold insert_into. intros Hi. inv_calls. erewrite rl_insert, rl_write_table by done.
  unfold put_entry. by rewrite table_at_insert, insert_insert_eq.
Qed.

Lemma remove_from_spec table noun k txn txn' :
  remove_from table noun k txn = Ok txn' → pending txn' = del_entry table k (pending txn).
Proof.
  unfold remove_from. intros Hi. apply result_bind_Ok in Hi as (t & Hw%map_err_Ok & Hi).
  apply result_bind_Ok in Hi as ([old t'] & Hr%map_err_Ok & [= ->]). apply rl_remove in Hr as [_ ->].
  erewrite rl_write_table by done. unfold del_entry. by rewrite table_at_insert, insert_insert_eq.
Qed.

Lemma insert_body_spec e bytes txn txn' :
  insert_body e bytes txn = Ok txn' → pending txn' = insert_entries e bytes (pending txn).
Proof.
  unfold insert_body, insert_entries. rewrite triple_key_enc. intros Hi.
  apply result_bind_Ok in Hi as (t1 & H1%insert_into_spec & Hi).
  apply result_bind_Ok in Hi as (t2 & H2%insert_into_spec & Hi). rewrite <- H1.
  destruct (object e) as [n|v d]; [apply insert_into_spec in Hi|injection Hi as <-];
    rewrite ?Hi; by rewrite H2.
Qed.

Lemma delete_body_spec e txn txn' :
  delete_body e txn = Ok txn' → pending txn' = delete_entries e (pending txn).
Proof.
  unfold delete_body, delete_entries. rewrite triple_key_enc. intros Hi.
  apply result_bind_Ok in Hi as (t1 & H1%remove_from_spec & Hi).
  apply result_bind_Ok in Hi as (t2 & H2%remove_from_spec & Hi). rewrite <- H1.
  destruct (object e) as [n|v d]; [apply remove_from_spec in Hi|injection Hi as <-];
    rewrite ?Hi; by rewrite H2.
Qed.

Definition graph_tables (s : RedbGraphStore) : gmap string BTreeMap := tables (graph_db s).

Lemma graph_write_spec s body r s' :
  graph_write s body = (r, s') →
  match r with
  | Ok _ => ∃ txn txn', pending txn = graph_tables s ∧ body txn = Ok txn' ∧
              graph_tables s' = pending txn'
  | Err _ => graph_tables s' = graph_tables s
  end.
Proof.
  unfold graph_write. destruct (_ ≫= _) as [txn'|e] eqn:Hb; [|by intros [= <- <-]].
  apply result_bind_Ok in Hb as (txn & Hw%map_err_Ok & Hb).
  destruct (commit txn' (graph_db s)) as [[[]|e] d] eqn:Hc; intros [= <- <-]; cbn.
  - exists txn, txn'. split_and!; [by apply rl_begin_write|done|by eapply rl_commit].
  - by eapply rl_commit_err.
Qed.

(** ** What a scan of an index returns *)

(** The edge an entry of an index stands for. *)
Definition lookup_edge (prefix : list byte) (triples : BTreeMap) (entry : list byte * list byte)
    : option GraphEdge :=
  bytes ← triples !! drop (length prefix) entry.1;
  match from_slice bytes with Ok e => Some e | Err _ => None end.

Lemma scan_edges_spec prefix triples iter : ∀ es l,
  iterates es iter → scan_edges prefix triples iter = Ok l →
  l = omap (lookup_edge prefix (table_view triples))
        (take_while (λ e, bool_decide (prefix `prefix_of` e.1)) es).
Proof.
  induction iter as [|x iter IH]; intros es l Hi; cbn [scan_edges].
  - apply iterates_nil in Hi as ->. by intros [= <-].
  - apply iterates_cons in Hi as [([k v] & es' & -> & -> & Hi)|[e ->]]; [|done]. cbn.
    case_bool_decide as Hp; [|by intros [= <-]]. intros Hs.
    apply result_bind_Ok in Hs as (found & Hg%map_err_Ok & Hs). apply rl_get in Hg as ->.
    cbn. unfold lookup_edge at 1. cbn. destruct (table_view triples !! _) as [bytes|]; cbn in Hs |- *.
    + apply result_bind_Ok in Hs as (e & He%map_err_Ok & Hs). rewrite He.
      apply result_bind_Ok in Hs as (l' & Hl & [= <-]). f_equal. by apply IH.
    + by apply IH.
Qed.

Lemma entries_with_empty p : entries_with p ∅ = [].
Proof. unfold entries_with, sorted_keys. by rewrite dom_empty_L, elements_empty. Qed.

Lemma omap_none {A B} (f : A → option B) (l : list A) : (∀ x, f x = None) → omap f l = [].
Proof. intros Hf. induction l as [|x l IH]; [done|]. cbn. by rewrite Hf. Qed.

Lemma scan_index_spec `{!TablesOpen RD} d table iri l :
  scan_index_for_edges d table iri = Ok l →
  l = omap (lookup_edge (iri_prefix iri) (table_at TRIPLES (tables d)))
        (entries_with (iri_prefix iri) (table_at table (tables d))).
Proof.
  unfold scan_index_for_edges. intros Hs. apply result_bind_Ok in Hs as (txn & Ht%map_err_Ok & Hs).
  apply rl_begin_read in Ht. destruct (read_table table txn) as [idx|e] eqn:Hi.
  - apply rl_read_table in Hi. destruct (read_table TRIPLES txn) as [triples|e] eqn:Ho.
    + apply rl_read_table in Ho. apply result_bind_Ok in Hs as (iter & Hr%map_err_Ok & Hs).
      eapply scan_edges_spec in Hs; [|by apply rl_range]. rewrite take_while_entries in Hs.
      unfold table_at. by rewrite <- Ht, Hi, Ho.
    + apply tables_open in Ho. injection Hs as <-. symmetry. apply omap_none. intros x.
      unfold lookup_edge, table_at. rewrite <- Ht, Ho. cbn. by rewrite lookup_empty.
  - apply tables_open in Hi. injection Hs as <-. unfold table_at at 2. rewrite <- Ht, Hi. cbn.
    by rewrite entries_with_empty.
Qed.

Context `{!SerdeLaws GraphEdge}.

Lemma lookup_edge_rel g ts k s v :
  graph_inv g → tables_rel g ts → clean_key k →
  lookup_edge (iri_prefix s) (table_at TRIPLES ts) (index_enc s k, v) = edges g !! k.
Proof.
  intros Hi Hr Hk. unfold lookup_edge. cbn [fst].
  assert (drop (length (iri_prefix s)) (index_enc s k) = enc k) as ->.
  { change (index_enc s k) with (as_bytes s ++ [SEP] ++ enc k). rewrite app_assoc. apply drop_app_length. }
  destruct (edges g !! k) as [e|] eqn:He.
  - pose proof (gi_key g Hi _ _ He) as <-. destruct (tr_written _ _ Hr _ _ He) as [bytes Hb].
    assert (table_at TRIPLES ts !! enc (from_edge e) = Some bytes) as ->.
    { apply (tr_triples _ _ Hr). exists e. by rewrite triple_key_enc. }
    cbn. by rewrite (from_slice_to_vec e bytes Hb).
  - destruct (table_at TRIPLES ts !! enc k) as [bytes|] eqn:Hb; [|done].
    apply (tr_triples _ _ Hr) in Hb as (e & He' & Heq & _). rewrite triple_key_enc in Heq.
    apply enc_inj in Heq as <-; [congruence|by eapply tr_clean|done].
Qed.

Lemma fmap_preimage {A B} (f : A → B) (P : A → Prop) (l : list B) :
  Forall (λ y, ∃ x, P x ∧ y = f x) l → ∃ xs, l = f <$> xs ∧ Forall P xs.
Proof.
  induction 1 as [|y l (x & Hx & ->) _ (xs & -> & Hxs)]; [by exists []|].
  exists (x :: xs). by split; [|constructor].
Qed.

(** The entries of one IRI in an index are its keys. *)
Lemma index_entries idx tb s :
  idx_rel idx tb → nul_free s →
  ∃ ks, (entries_with (iri_prefix s) tb).*1 = index_enc s <$> ks ∧ ks ≡ₚ elements (idx_keys idx s).
Proof.
  intros [Hkeys Hclean] Hs. rewrite entries_with_keys.
  set (l := filter (prefix (iri_prefix s)) (sorted_keys tb)).
  assert (∀ kb, kb ∈ l ↔ ∃ k, k ∈ idx_keys idx s ∧ kb = index_enc s k) as Hl.
  { intros kb. unfold l. rewrite list_elem_of_filter, elem_of_sorted_keys, Hkeys. split.
    - intros [[rest Hp] (s' & k & Hin & ->)]. destruct (Hclean _ _ Hin) as [Hs' _].
      unfold index_enc, iri_prefix in Hp. rewrite <- app_assoc in Hp.
      apply split_sep in Hp as [->%as_bytes_inj _]; [by eauto|done..].
    - intros (k & Hin & ->). split; [|by eauto]. exists (enc k). unfold index_enc, iri_prefix.
      by rewrite <- app_assoc. }
  destruct (fmap_preimage (index_enc s) (λ k, k ∈ idx_keys idx s) l) as (ks & Hks & Hin).
  { apply Forall_forall. intros kb. by rewrite Hl. }
  exists ks. split; [done|]. apply NoDup_Permutation; [|apply NoDup_elements|].
  - apply (NoDup_fmap_1 (index_enc s)). rewrite <- Hks. apply NoDup_filter, NoDup_sorted_keys.
  - intros k. rewrite elem_of_elements. split; [rewrite Forall_forall in Hin; by apply Hin|]. intros Hk.
    assert (index_enc s k ∈ l) as Hel by (apply Hl; by eauto).
    rewrite Hks in Hel. apply list_elem_of_fmap in Hel as (k' & Heq & Hk').
    assert (k' ∈ idx_keys idx s) as Hin' by (rewrite Forall_forall in Hin; by apply Hin).
    apply index_enc_inj in Heq as [_ ->]; [done|done|done|by eapply Hclean..].
Qed.

Lemma omap_keys {A B C} (f : A * B → option C) (h : A → option C) (l : list (A * B)) :
  (∀ x y, f (x, y) = h x) → omap f l = omap h l.*1.
Proof. intros Hf. induction l as [|[x y] l IH]; [done|]. cbn. by rewrite Hf, IH. Qed.

Context {HK : HashIter TripleKey}.

(** A scan returns the edges the index of the store in memory leads to. *)
Lemma scan_rel g ts idx tb s :
  graph_inv g → tables_rel g ts → idx_rel idx tb → nul_free s →
  omap (lookup_edge (iri_prefix s) (table_at TRIPLES ts)) (entries_with (iri_prefix s) tb)
    ≡ₚ edges_at idx s g.
Proof.
  intros Hi Hr Hx Hs. destruct (index_entries idx tb s Hx Hs) as (ks & Hks & Hp).
  rewrite (omap_keys _ (λ kb, lookup_edge (iri_prefix s) (table_at TRIPLES ts) (kb, []))) by done.
  rewrite Hks. assert (omap (λ kb, lookup_edge (iri_prefix s) (table_at TRIPLES ts) (kb, []))
    (index_enc s <$> ks) = omap (λ k, edges g !! k) ks) as ->.
  { assert (Forall clean_key ks) as Hc.
    { apply Forall_forall. intros k Hk. rewrite Hp, elem_of_elements in Hk. by eapply ir_clean. }
    clear Hks Hp. induction Hc as [|k ks Hk _ IH]; [done|]. cbn.
    by rewrite (lookup_edge_rel g), IH. }
  rewrite Hp. unfold edges_at, idx_keys. destruct (idx !! s) as [keys|]; cbn [default id].
  - by rewrite hash_iter_perm.
  - by rewrite elements_empty.
Qed.

(** ** Runs *)

Definition op_edge (op : graph_op) : GraphEdge := match op with GInsert e | GDelete e => e end.

Definition redb_graph_step (op : graph_op) (s : RedbGraphStore) : result GraphError () * RedbGraphStore :=
  match op with GInsert e => redb_insert e s | GDelete e => redb_graph_delete e s end.

(** The calls that succeeded, and the store they leave. *)
Fixpoint redb_graph_run (ops : list graph_op) (s : RedbGraphStore) : list graph_op * RedbGraphStore :=
  match ops with
  | [] => ([], s)
  | op :: ops =>
    let '(r, s) := redb_graph_step op s in
    let '(done, s) := redb_graph_run ops s in
    (if is_ok r then op :: done else done, s)
  end.

Lemma graph_step_inv g op : graph_inv g → graph_inv (graph_step g op).
Proof. intros Hi. destruct op; [by apply graph_inv_insert|by apply graph_inv_delete]. Qed.

Lemma redb_step_rel g op s r s' :
  clean_edge (op_edge op) → tables_rel g (graph_tables s) → redb_graph_step op s = (r, s') →
  tables_rel (if is_ok r then graph_step g op else g) (graph_tables s').
Proof.
  intros Hc Hr. destruct op as [e|e]; cbn.
  - unfold redb_insert, serialise_edge. destruct (to_vec e) as [bytes|err] eqn:Hv; cbn; [|by intros [= <- <-]].
    intros Hw%graph_write_spec. destruct r as [[]|err]; cbn; [|by rewrite Hw].
    destruct Hw as (txn & txn' & Hp & Hb & ->). apply insert_body_spec in Hb as ->. rewrite Hp.
    by apply tables_rel_insert.
  - intros Hw%graph_write_spec. destruct r as [[]|err]; cbn; [|by rewrite Hw].
    destruct Hw as (txn & txn' & Hp & Hb & ->). apply delete_body_spec in Hb as ->. rewrite Hp.
    by apply tables_rel_delete.
Qed.

Lemma redb_run_rel ops : ∀ g s done s',
  Forall clean_edge (op_edge <$> ops) → graph_inv g → tables_rel g (graph_tables s) →
  redb_graph_run ops s = (done, s') →
  graph_inv (foldl graph_step g done) ∧ tables_rel (foldl graph_step g done) (graph_tables s').
Proof.
  induction ops as [|op ops IH]; intros g s done s' Hc Hi Hr; cbn; [by intros [= <- <-]|].
  destruct (redb_graph_step op s) as [r s1] eqn:Hs. destruct (redb_graph_run ops s1) as [done1 s2] eqn:Hrun.
  intros [= <- <-]. apply Forall_cons in Hc as [Hop Hc]. apply (redb_step_rel g) in Hs; [|done..].
  destruct (is_ok r); cbn; (eapply IH; [done| |done|done]); [by apply graph_step_inv|done].
Qed.

Context `{!TablesOpen RD}.

Lemma redb_graph_exists_spec e s b :
  redb_graph_exists e s = Ok b → b = bool_decide (is_Some (table_at TRIPLES (graph_tables s) !! triple_key e)).
Proof.
  unfold redb_graph_exists. intros Hb. apply result_bind_Ok in Hb as (txn & Ht%map_err_Ok & Hb).
  apply rl_begin_read in Ht. unfold table_at, graph_tables. rewrite <- Ht.
  destruct (read_table TRIPLES txn) as [tb|err] eqn:Ho.
  - apply rl_read_table in Ho as ->. apply result_bind_Ok in Hb as (found & Hg%map_err_Ok & [= <-]).
    by apply rl_get in Hg as ->.
  - apply tables_open in Ho as ->. injection Hb as <-. cbn. by rewrite lookup_empty.
Qed.

Lemma stored_key g ts e :
  graph_inv g → tables_rel g ts → clean_edge e →
  is_Some (edges g !! from_edge e) ↔ is_Some (table_at TRIPLES ts !! triple_key e).
Proof.
  intros Hi Hr He%clean_from_edge. rewrite triple_key_enc. split.
  - intros [e' He']. pose proof (gi_key g Hi _ _ He') as Hk. destruct (tr_written _ _ Hr _ _ He') as [bytes Hb].
    exists bytes. apply (tr_triples _ _ Hr). exists e'. by rewrite triple_key_enc, Hk.
  - intros [bytes (e' & He' & Heq & _)%(tr_triples _ _ Hr)]. rewrite triple_key_enc in Heq.
    apply enc_inj in Heq as <-; [by eexists|by eapply tr_clean|done].
Qed.


(** ** Neighbourhoods *)

(** What the indices of a store in memory join. *)
Definition joined (g : SimpleGraphStore) (u v : string) : Prop :=
  (∃ e, e ∈ edges_at (subject_idx g) u g ∧ points_to e v) ∨
  ∃ e, e ∈ edges_at (object_idx g) u g ∧ v = iri (subject e).

Lemma joined_clean g ts u v : graph_inv g → tables_rel g ts → joined g u v → nul_free v.
Proof.
  intros Hi Hr [(e & He & n & Ho & <-)|(e & He & ->)]; apply (elem_of_edges_at _ _ _ _ Hi) in He as [He _].
  - pose proof (gi_nodes g Hi _ _ _ He Ho) as Hin. by eapply ir_clean in Hin as [? _]; [|apply Hr].
  - by eapply tr_clean in He as [? _].
Qed.

End transactions.

Section neighborhoods.
Context {RD : Redb} `{!RedbLaws RD} {RE : Reliable RD} `{!Serde GraphEdge} `{!SerdeLaws GraphEdge}.
Context {HK : HashIter TripleKey} {HS : HashIter string}.

Lemma scan_edges_ok prefix triples es :
  (∀ kb bytes, table_view triples !! kb = Some bytes → is_ok (deserialise_edge bytes) = true) →
  is_ok (scan_edges prefix triples (Ok <$> es)) = true.
Proof.
  intros Hd. induction es as [|[k v] es IH]; cbn; [done|]. case_bool_decide; [|done].
  apply is_ok_bind_all; [rewrite is_ok_map_err; apply re_get|]. intros found Hg%map_err_Ok%rl_get.
  destruct found as [bytes|]; [|done]. apply is_ok_bind_all; [by eapply Hd|]. intros e _.
  by apply is_ok_bind_all.
Qed.

Lemma scan_index_ok g s table iri :
  tables_rel g (graph_tables s) → is_ok (scan_index_for_edges (graph_db s) table iri) = true.
Proof.
  intros Hr. unfold scan_index_for_edges.
  apply is_ok_bind_all; [rewrite is_ok_map_err; apply re_begin_read|]. intros txn Ht%map_err_Ok%rl_begin_read.
  destruct (read_table table txn) as [idx|]; [|done].
  destruct (read_table TRIPLES txn) as [triples|] eqn:Ho; [|done]. apply rl_read_table in Ho.
  rewrite re_range. apply scan_edges_ok. intros kb bytes Hb. unfold deserialise_edge. rewrite is_ok_map_err.
  assert (table_at TRIPLES (graph_tables s) !! kb = Some bytes) as Hb'.
  { unfold table_at, graph_tables. by rewrite <- Ht, Ho. }
  apply (tr_triples _ _ Hr) in Hb' as (e & _ & _ & Hv). by rewrite (from_slice_to_vec e bytes Hv).
Qed.

Lemma redb_answers g s n :
  graph_inv g → tables_rel g (graph_tables s) → nul_free (iri n) →
  ∃ o i, redb_outgoing n s = Ok o ∧ redb_incoming n s = Ok i ∧
    ∀ x, ((∃ e, e ∈ o ∧ points_to e x) ∨ ∃ e, e ∈ i ∧ x = iri (subject e)) ↔ joined g (iri n) x.
Proof.
  intros Hi Hr Hn.
  destruct (proj1 (is_ok_iff _) (scan_index_ok g s SUBJECT_IDX (iri n) Hr)) as [o Ho].
  destruct (proj1 (is_ok_iff _) (scan_index_ok g s OBJECT_IDX (iri n) Hr)) as [i Hin].
  exists o, i. split_and!; [done..|]. intros x.
  assert (o ≡ₚ edges_at (subject_idx g) (iri n) g) as Hpo.
  { apply scan_index_spec in Ho as ->. apply scan_rel; [done..|apply Hr|done]. }
  assert (i ≡ₚ edges_at (object_idx g) (iri n) g) as Hpi.
  { apply scan_index_spec in Hin as ->. apply scan_rel; [done..|apply Hr|done]. }
  unfold joined. setoid_rewrite Hpo. by setoid_rewrite Hpi.
Qed.

Lemma memory_answers g n :
  ∃ o i, outgoing n g = Ok o ∧ incoming n g = Ok i ∧
    ∀ x, ((∃ e, e ∈ o ∧ points_to e x) ∨ ∃ e, e ∈ i ∧ x = iri (subject e)) ↔ joined g (iri n) x.
Proof. by eexists _, _. Qed.

(** On a database that works the neighbourhood of a node is the same on disk as in memory,
    after any inserts and deletes. *)
Theorem redb_neighborhood_like_memory (ops : list graph_op) (s : RedbGraphStore) (n : GraphNode)
    (hops : nat) :
  graph_tables s = ∅ → Forall clean_edge (op_edge <$> ops) → nul_free (iri n) →
  let '(done, s') := redb_graph_run ops s in
  redb_neighborhood n hops s' = neighborhood n hops (graph_run done).
Proof.
  intros Hs Hc Hn. destruct (redb_graph_run ops s) as [done s'] eqn:Hrun.
  destruct (redb_run_rel ops graph_new s done s') as [Hi Hr];
    [done|apply (graph_inv_run [])|rewrite Hs; apply tables_rel_empty|done|].
  fold (graph_run done) in Hi, Hr.
  assert (∀ u v, nul_free u → joined (graph_run done) u v → nul_free v) as Hj.
  { intros u v _. by eapply joined_clean. }
  destruct (search_exact (λ n, redb_outgoing n s') (λ n, redb_incoming n s') (joined (graph_run done)) nul_free)
    with (s := n) (hops := hops) as (vis & Hv & Hw);
    [intros m; by apply redb_answers|done..|].
  destruct (search_exact (λ n, outgoing n (graph_run done)) (λ n, incoming n (graph_run done))
    (joined (graph_run done)) nul_free) with (s := n) (hops := hops) as (vis' & Hv' & Hw');
    [intros m _; apply memory_answers|done..|].
  unfold redb_neighborhood, neighborhood. rewrite Hv, Hv'. do 3 f_equal. apply set_eq. intros x.
  by rewrite Hw, Hw'.
Qed.

End neighborhoods.

(** The separator is a character an IRI may hold here: it is not checked for, and two triples
    then have one key. *)
Definition nul : string := String.String (Ascii.ascii_of_nat 0) "".

Lemma iris_with_separator_collide :
  let e1 := {| subject := GraphNode_new ("a" +:+ nul +:+ "b"); predicate := GraphNode_new "c";
               object := Node (GraphNode_new "d") |} in
  let e2 := {| subject := GraphNode_new "a"; predicate := GraphNode_new ("b" +:+ nul +:+ "c");
               object := Node (GraphNode_new "d") |} in
  triple_key e1 = triple_key e2 ∧ from_edge e1 ≠ from_edge e2.
Proof. by split; [|intros [=]]. Qed.

(** ** The RDF store keeps statements

    What the [oxigraph] crate documents: an IRI is kept as it was given, a simple literal is
    an [xsd:string], a store is a set of quads, a pattern finds those that match it, and a
    call that fails changes nothing. *)

Definition XSD_STRING : string := "http://www.w3.org/2001/XMLSchema#string".

Definition matches {A} (pattern : option A) (x : A) : Prop :=
  match pattern with Some y => x = y | None => True end.

Class OxigraphLaws {OX : Oxigraph} (OS : OxigraphStore) := {
  quads : Store → Quad → Prop;
  ol_as_str : ∀ s n, named_node_new s = Ok n → as_str n = s;
  ol_as_str_inj : ∀ n n', as_str n = as_str n' → n = n';
  ol_value : ∀ v, literal_value (new_simple_literal v) = v;
  ol_datatype : ∀ v, literal_datatype (new_simple_literal v) = XSD_STRING;
  ol_new : ∀ s, store_new = Ok s → ∀ q, ¬ quads s q;
  ol_insert : ∀ q s r s', store_insert q s = (r, s') →
    ∀ q', quads s' q' ↔ quads s q' ∨ is_ok r = true ∧ q' = q;
  ol_remove : ∀ q s r s', store_remove q s = (r, s') →
    ∀ q', quads s' q' ↔ quads s q' ∧ ¬ (is_ok r = true ∧ q' = q);
  ol_contains : ∀ q s b, store_contains q s = Ok b → b = true ↔ quads s q;
  ol_pattern : ∀ s p o g st qs, quads_for_pattern s p o g st = Ok <$> qs →
    NoDup qs ∧ ∀ q, q ∈ qs ↔ quads st q ∧ matches s (quad_subject q) ∧
      matches p (quad_predicate q) ∧ matches o (quad_object q) ∧ matches g (quad_graph q);
}.

(** What a triple says: its subject, its predicate, and a node or the text of a literal. *)
Definition Statement : Type := string * string * (string + string).

Definition statement (e : GraphEdge) : Statement :=
  (iri (subject e), iri (predicate e),
   match object e with Node n => inl (iri n) | Literal value _ => inr value end).

(** How it is read back. *)
Definition read_object (o : string + string) : GraphObject :=
  match o with
  | inl i => Node (GraphNode_new i)
  | inr value => Literal value (Some XSD_STRING)
  end.

Definition statement_step (m : gset Statement) (op : graph_op) : gset Statement :=
  match op with
  | GInsert e => {[statement e]} ∪ m
  | GDelete e => m ∖ {[statement e]}
  end.

Section statements.
Context {OX : Oxigraph} {OS : OxigraphStore} `{!OxigraphLaws OS}.

Definition quad_says (q : Quad) (st : Statement) : Prop :=
  (∃ s, quad_subject q = SubjectNamedNode s ∧ as_str s = st.1.1) ∧
  as_str (quad_predicate q) = st.1.2 ∧ quad_graph q = None ∧
  match st.2 with
  | inl i => ∃ n, quad_object q = TermNamedNode n ∧ as_str n = i
  | inr v => quad_object q = TermLiteral (new_simple_literal v)
  end.

Lemma quad_says_inj q q' st : quad_says q st → quad_says q' st → q = q'.
Proof.
  destruct q as [s p o g], q' as [s' p' o' g'], st as [[i j] [k|k]]; unfold quad_says; cbn;
    intros ((n & -> & Hn) & Hp & -> & Ho) ((n' & -> & Hn') & Hp' & -> & Ho'); cbn in *.
  - destruct Ho as (m & -> & Hm), Ho' as (m' & -> & Hm').
    f_equal; [f_equal|apply ol_as_str_inj|f_equal]; try apply ol_as_str_inj; congruence.
  - subst. f_equal; [f_equal|]; apply ol_as_str_inj; congruence.
Qed.

Lemma quad_says_fun q st st' : quad_says q st → quad_says q st' → st = st'.
Proof.
  destruct q as [s p o g], st as [[i j] [k|k]], st' as [[i' j'] [k'|k']];
    unfold quad_says; cbn; intros ((n & -> & Hn) & Hp & _ & Ho) ((n' & [= <-] & Hn') & Hp' & _ & Ho'); cbn in *;
    repeat match goal with H : ∃ _, _ |- _ => destruct H as (? & ? & ?) end; simplify_eq; try done.
  match goal with H : new_simple_literal _ = new_simple_literal _ |- _ =>
    apply (f_equal literal_value) in H; rewrite !ol_value in H; by subst end.
Qed.

Lemma ox_node_Ok i n : ox_node i = Ok n → as_str n = i.
Proof. intros H%map_err_Ok. by apply ol_as_str. Qed.

Lemma edge_to_quad_says e q : edge_to_quad e = Ok q → quad_says q (statement e).
Proof.
  unfold edge_to_quad, statement. intros Hq. apply result_bind_Ok in Hq as (s & Hs%ox_node_Ok & Hq).
  apply result_bind_Ok in Hq as (p & Hp%ox_node_Ok & Hq). apply result_bind_Ok in Hq as (o & Ho & [= <-]).
  split_and!; cbn; [by eexists|done|done|]. destruct (object e) as [n|v d].
  - apply result_bind_Ok in Ho as (m & Hm%ox_node_Ok & [= <-]). by eexists.
  - by injection Ho as <-.
Qed.

(** The store holds the quads of the statements. *)
Record ox_rel (m : gset Statement) (s : Store) : Prop := {
  or_quads : ∀ q, quads s q ↔ ∃ st, st ∈ m ∧ quad_says q st;
  or_said : ∀ st, st ∈ m → ∃ q, quad_says q st;
}.

Definition ox_step (op : graph_op) (s : Store) : result GraphError () * Store :=
  match op with GInsert e => ox_insert e s | GDelete e => ox_delete e s end.

Fixpoint ox_run (ops : list graph_op) (s : Store) : list graph_op * Store :=
  match ops with
  | [] => ([], s)
  | op :: ops =>
    let '(r, s) := ox_step op s in
    let '(done, s) := ox_run ops s in
    (if is_ok r then op :: done else done, s)
  end.

Lemma ox_step_rel m op s r s' :
  ox_rel m s → ox_step op s = (r, s') → ox_rel (if is_ok r then statement_step m op else m) s'.
Proof.
  intros [Hq Hsaid]. destruct op as [e|e]; cbn; unfold ox_insert, ox_delete;
    (destruct (edge_to_quad e) as [q|err] eqn:He; [|by intros [= <- <-]]); apply edge_to_quad_says in He.
  - destruct (store_insert q s) as [r0 s1] eqn:Hi. intros [= <- <-].
    pose proof (ol_insert _ _ _ _ Hi) as Hl. destruct r0 as [b|err]; cbn in Hl |- *; split.
    + intros q'. rewrite Hl, Hq. setoid_rewrite elem_of_union. setoid_rewrite elem_of_singleton. split.
      * intros [(st & Hst & Hs)|[_ ->]]; eauto.
      * intros (st & [->|Hst] & Hs); [right; split; [done|]; by eapply quad_says_inj|eauto].
    + intros st [->%elem_of_singleton|Hst]%elem_of_union; eauto.
    + intros q'. rewrite Hl, Hq. naive_solver.
    + done.
  - destruct (store_remove q s) as [r0 s1] eqn:Hi. intros [= <- <-].
    pose proof (ol_remove _ _ _ _ Hi) as Hl. destruct r0 as [b|err]; cbn in Hl |- *; split.
    + intros q'. rewrite Hl, Hq. setoid_rewrite elem_of_difference. setoid_rewrite elem_of_singleton. split.
      * intros [(st & Hst & Hs) Hne]. exists st. split; [|done]. split; [done|]. intros ->.
        apply Hne. split; [done|]. by eapply quad_says_inj.
      * intros (st & [Hst Hne] & Hs). split; [eauto|]. intros [_ ->]. apply Hne. by eapply quad_says_fun.
    + intros st [Hst _]%elem_of_difference. eauto.
    + intros q'. rewrite Hl, Hq. naive_solver.
    + done.
Qed.

Lemma ox_run_rel ops : ∀ m s done s',
  ox_rel m s → ox_run ops s = (done, s') → ox_rel (foldl statement_step m done) s'.
Proof.
  induction ops as [|op ops IH]; intros m s done s' Hr; cbn; [by intros [= <- <-]|].
  destruct (ox_step op s) as [r s1] eqn:Hs. destruct (ox_run ops s1) as [done1 s2] eqn:Hrun.
  intros [= <- <-]. apply (ox_step_rel m) in Hs; [|done].
  destruct (is_ok r); cbn; by eapply IH.
Qed.

Lemma edges_of_spec f qs l : edges_of f qs = Ok l → ∃ qs', qs = Ok <$> qs' ∧ l = omap f qs'.
Proof.
  revert l. induction qs as [|q qs IH]; intros l; cbn; [intros [= <-]; by exists []|]. intros He.
  apply result_bind_Ok in He as (q' & Hq%map_err_Ok & He). apply result_bind_Ok in He as (l' & Hl & [= <-]).
  destruct (IH l' Hl) as (qs' & -> & ->). exists (q' :: qs'). subst q. cbn. by destruct (f q').
Qed.

Lemma ox_outgoing_spec m s n l e :
  ox_rel m s → ox_outgoing n s = Ok l →
  e ∈ l ↔ ∃ p o, (iri n, p, o) ∈ m ∧
    e = {| subject := n; predicate := GraphNode_new p; object := read_object o |}.
Proof.
  intros [Hq Hsaid] Hl. apply result_bind_Ok in Hl as (nn & Hn%ox_node_Ok & Hl).
  apply edges_of_spec in Hl as (qs & Hp & ->). apply ol_pattern in Hp as [_ Hp].
  rewrite list_elem_of_omap. setoid_rewrite Hp. split.
  - intros (q & [(st & Hst & Hs)%Hq [Hsub _]] & He). destruct st as [[i p] o].
    destruct Hs as ((s' & Hs' & Hi) & Hpr & _ & Ho). cbn in *. rewrite Hs' in Hsub. injection Hsub as ->.
    exists p, o. rewrite Hn in Hi. subst i. split; [done|]. unfold outgoing_edge in He. rewrite Hpr in He.
    destruct o as [i|v]; [destruct Ho as (on & Ho & <-)|]; rewrite Ho in He; cbn in He; injection He as <-; [done|].
    by rewrite ol_value, ol_datatype.
  - intros (p & o & Hin & ->). destruct (Hsaid _ Hin) as [q Hs]. exists q. split.
    + split; [apply Hq; eauto|]. destruct Hs as ((s' & Hs' & Hi) & _). cbn in *.
      split_and!; [|done..]. rewrite Hs'. f_equal. apply ol_as_str_inj. congruence.
    + destruct Hs as ((s' & Hs' & Hi) & Hpr & _ & Ho). cbn in *. unfold outgoing_edge. rewrite Hpr.
      destruct o as [i|v]; [destruct Ho as (on & -> & <-)|rewrite Ho]; cbn; [done|].
      by rewrite ol_value, ol_datatype.
Qed.

Lemma ox_incoming_spec m s n l e :
  ox_rel m s → ox_incoming n s = Ok l →
  e ∈ l ↔ ∃ i p, (i, p, inl (iri n)) ∈ m ∧
    e = {| subject := GraphNode_new i; predicate := GraphNode_new p; object := Node n |}.
Proof.
  intros [Hq Hsaid] Hl. apply result_bind_Ok in Hl as (nn & Hn%ox_node_Ok & Hl).
  apply edges_of_spec in Hl as (qs & Hp & ->). apply ol_pattern in Hp as [_ Hp].
  rewrite list_elem_of_omap. setoid_rewrite Hp. split.
  - intros (q & [(st & Hst & Hs)%Hq (_ & _ & Hobj & _)] & He). destruct st as [[i p] o].
    destruct Hs as ((s' & Hs' & Hi) & Hpr & _ & Ho). cbn in *. rewrite Hobj in Ho.
    unfold incoming_edge in He. rewrite Hs', Hpr in He. injection He as <-.
    exists i, p. rewrite Hi. split; [|done]. destruct o as [j|v]; [|done].
    destruct Ho as (on & [= <-] & <-). by rewrite <- Hn.
  - intros (i & p & Hin & ->). destruct (Hsaid _ Hin) as [q Hs]. exists q. split.
    + split; [apply Hq; eauto|]. destruct Hs as (_ & _ & _ & (on & Ho & Hi)). cbn in *.
      split_and!; [done..| |done]. rewrite Ho. f_equal. apply ol_as_str_inj. congruence.
    + destruct Hs as ((s' & Hs' & Hi) & Hpr & _). cbn in *. unfold incoming_edge. rewrite Hs', Hpr. cbn.
      by rewrite Hi.
Qed.

(** The RDF store keeps statements: after any inserts and deletes on a new store, of which
    some may fail, it answers as the set of the statements of the calls that succeeded; and
    what it returns of a literal is its text as an [xsd:string], whatever its datatype was. *)
Theorem ox_graph_exact (ops : list graph_op) (s : Store) :
  store_new = Ok s →
  let '(done, s') := ox_run ops s in
  let m := foldl statement_step ∅ done in
  (∀ n l, ox_outgoing n s' = Ok l → ∀ e, e ∈ l ↔ ∃ p o, (iri n, p, o) ∈ m ∧
     e = {| subject := n; predicate := GraphNode_new p; object := read_object o |}) ∧
  (∀ n l, ox_incoming n s' = Ok l → ∀ e, e ∈ l ↔ ∃ i p, (i, p, inl (iri n)) ∈ m ∧
     e = {| subject := GraphNode_new i; predicate := GraphNode_new p; object := Node n |}) ∧
  ∀ e b, ox_exists e s' = Ok b → b = bool_decide (statement e ∈ m).
Proof.
  intros Hn. destruct (ox_run ops s) as [done s'] eqn:Hrun. intros m.
  assert (ox_rel m s') as Hr.
  { eapply ox_run_rel; [|done]. split; [|intros st; set_solver]. intros q. split.
    - intros Hq. by destruct (ol_new _ Hn q).
    - intros (st & Hst & _). set_solver. }
  split_and!.
  - intros n l Hl e. by eapply ox_outgoing_spec.
  - intros n l Hl e. by eapply ox_incoming_spec.
  - intros e b Hb. apply result_bind_Ok in Hb as (q & Hq%edge_to_quad_says & Hc%map_err_Ok%ol_contains).
    symmetry. destruct b; [apply bool_decide_eq_true|apply bool_decide_eq_false].
    + destruct (proj1 (or_quads _ _ Hr q) (proj1 Hc eq_refl)) as (st & Hst & Hs).
      by rewrite (quad_says_fun q (statement e) st).
    + intros Hin. assert (quads s' q) as Hqs by (apply (or_quads _ _ Hr); eauto).
      by apply Hc in Hqs.
Qed.

End statements.
