(* ===== verification/ProvenanceExamples.v ===== *)
(** * The stores of histories, triples and bytes on concrete inputs

    A concrete printer that satisfies the laws asked of [serde_json] and [chrono], and
    the witnesses of the theorems of [Provenance.v], [Temporal.v], [Graph.v] and [Storage.v]; and
    databases in memory that keep the laws asked of [redb] and [oxigraph]. *)

From S2P Require Import Prelude Provenance Temporal Graph Storage Redb GraphBackends.
From stdpp Require Import countable pretty.
From Stdlib Require String.
From Stdlib Require Import Strings.Byte.
Local Open Scope Z_scope.

(** A value as a tree, the tree as a number, the number as a string. *)
Fixpoint json_to_tree (v : json) : gen_tree string :=
  match v with
  | JNull => GenNode 0 []
  | JString s => GenLeaf s
  | JObject fields => GenNode 1 (map (λ kv, GenNode 2 [GenLeaf kv.1; json_to_tree kv.2]) fields)
  end.

Fixpoint tree_to_json (t : gen_tree string) : json :=
  match t with
  | GenLeaf s => JString s
  | GenNode 0 _ => JNull
  | GenNode _ ts =>
    JObject (map (λ t, match t with
                       | GenNode _ [GenLeaf k; v] => (k, tree_to_json v)
                       | _ => ("", JNull)
                       end) ts)
  end.

Fixpoint json_to_tree_to_json (v : json) : tree_to_json (json_to_tree v) = v.
Proof.
  destruct v as [|s|fields]; cbn; [done|done|]. f_equal.
  induction fields as [|[k v] fields IH]; cbn; [done|]. by rewrite json_to_tree_to_json, IH.
Qed.

Fixpoint positive_string (p : positive) : string :=
  match p with
  | xH => "."
  | xO p => "0" +:+ positive_string p
  | xI p => "1" +:+ positive_string p
  end.

Lemma positive_string_inj p : ∀ p', positive_string p = positive_string p' → p = p'.
Proof.
  induction p as [p IH|p IH|]; intros [p'|p'|]; cbn; intros H; try discriminate H; [| |done];
    injection H as H; f_equal; by apply IH.
Qed.

#[local] Instance ex_chrono : Chrono := milli_chrono.

(** The identity for a digest: it has no collision. *)
#[local] Instance ex_digest : Digest (CH := ex_chrono) :=
  {| sha256_hex := λ bs, String.string_of_list_byte bs;
     json_to_string := λ v, positive_string (encode (json_to_tree v));
     to_rfc3339 := (λ t : Z, pretty t : string) : DateTime (Chrono := ex_chrono) → string |}.

#[local] Instance ex_digest_laws : DigestLaws ex_digest.
Proof.
  split; cbn.
  - intros v v' H%positive_string_inj%encode_inj.
    rewrite <- (json_to_tree_to_json v), H. apply json_to_tree_to_json.
  - intros v. by destruct (encode (json_to_tree v)).
  - intros t t'. apply (inj pretty).
Qed.

Definition ex_time : DateTime (Chrono := ex_chrono) := 7%Z.

Definition ex_chain : ProvenanceChain :=
  let '(_, c) := chain_append ex_time Created "alice" None "first" (ProvenanceChain_new "e1") in
  let '(_, c) := chain_append ex_time (Custom "tag") "bob" (Some "url") "second" c in c.

(** The same history under another entity's name. *)
Definition ex_moved : ProvenanceChain := {| entity_id := "e2"; records := records ex_chain |}.

Lemma head_binds_history_witness :
  length (records ex_chain) = 2%nat ∧ (records ex_chain = records ex_moved ∨ collision).
Proof.
  assert (chain_verify ex_chain = Ok ()) as H1 by (vm_compute; reflexivity).
  assert (chain_verify ex_moved = Ok ()) as H2 by (vm_compute; reflexivity).
  split; [reflexivity|].
  exact (proj1 (head_binds_history ex_chain ex_moved H1 H2 eq_refl)).
Defined.

(** ** The version and graph stores on concrete inputs

    Witnesses of the theorems of [Temporal.v] and [Graph.v]. *)

#[local] Instance st_chrono : Chrono := milli_chrono.
#[local] Instance st_names : HashIter string := elements_iter string.
#[local] Instance st_triples : HashIter TripleKey := elements_iter TripleKey.

(** ** Versions *)

Definition append_at (t : Z) (entity data : string) : append_op (T := string) :=
  {| ap_now := t : DateTime (Chrono := st_chrono); ap_entity := entity; ap_data := data;
     ap_author := "system"; ap_message := None |}.

Definition st_ops : list (append_op (T := string)) :=
  [append_at 1 "a" "one"; append_at 2 "b" "other"; append_at 3 "a" "two"].

Definition st_now : DateTime (Chrono := st_chrono) := 4.

Lemma history_faithful_witness :
  length (written "a" st_ops) = 2%nat ∧
  (temporal_append st_now "a" "three" "system" None (append_run st_ops)).1 = Ok 3.
Proof.
  assert (Z.of_nat (length st_ops) < 2 ^ 64 - 1) as Hlen by (cbn; lia).
  assert (chronological (written "a" st_ops)) as Hchr by (repeat constructor).
  split; [reflexivity|].
  exact (proj1 (history_faithful "a" st_ops Hlen Hchr) st_now "three" "system" None).
Defined.

(** ** Triples *)

Definition edge (s p o : string) : GraphEdge :=
  {| subject := GraphNode_new s; Graph.predicate := GraphNode_new p;
     object := Node (GraphNode_new o) |}.

Definition st_edges : list graph_op :=
  [GInsert (edge "a" "knows" "b"); GInsert (edge "b" "knows" "c"); GInsert (edge "c" "knows" "d");
   GDelete (edge "c" "knows" "d")].

Lemma graph_queries_exact_witness :
  proper_iri "b" ∧
  ∃ out inc, outgoing (GraphNode_new "b") (graph_run st_edges) = Ok out ∧
    incoming (GraphNode_new "b") (graph_run st_edges) = Ok inc ∧ NoDup out.
Proof.
  assert (proper_iri (iri (GraphNode_new "b"))) as Hn by by intros v.
  split; [exact Hn|].
  destruct (graph_queries_exact st_edges (GraphNode_new "b") Hn) as (out & inc & H1 & H2 & H3 & _).
  exact (ex_intro _ out (ex_intro _ inc (conj H1 (conj H2 H3)))).
Defined.

(** A stored triple was inserted. *)
Lemma stored_inserted ops e : stored ops e → GInsert e ∈ ops.
Proof.
  unfold stored. generalize (from_edge e). induction ops as [|op ops IH] using rev_ind; [done|].
  intros k. unfold graph_model. rewrite foldl_snoc. rewrite elem_of_app, list_elem_of_singleton.
  destruct op as [e'|e']; cbn [model_step].
  - intros [[_ ->]|[_ Hs]]%lookup_insert_Some; [by right|left]. by apply (IH k).
  - intros [_ Hs]%lookup_delete_Some. left. by apply (IH k).
Qed.

Lemma st_edges_proper : proper_graph st_edges.
Proof.
  intros e He%stored_inserted. unfold st_edges in He.
  repeat (apply elem_of_cons in He as [He|He]); try (by apply elem_of_nil in He); simplify_eq;
    (split; [by intros v|]); by intros x (n & [= <-] & <-) v.
Qed.

Lemma neighborhood_exact_witness :
  ∃ l, neighborhood (GraphNode_new "a") 2 (graph_run st_edges) = Ok l ∧
    NoDup (iri <$> l) ∧ ∀ x, x ∈ iri <$> l ↔ within (adjacent st_edges) 2 "a" x.
Proof.
  assert (proper_iri (iri (GraphNode_new "a"))) as Hs by by intros v.
  exact (neighborhood_exact st_edges (GraphNode_new "a") 2 st_edges_proper Hs).
Defined.

(** ** Typed stores on a concrete backend

    Two stores on one in-memory backend, and the namespaces that do collide. *)

(** Strings stored as their own bytes. *)
Definition raw_string : Serde string :=
  {| to_vec := λ s, Ok (as_bytes s); from_slice := λ l, Ok (String.string_of_list_byte l) |}.

Definition raw_string_laws : @SerdeLaws string raw_string.
Proof.
  split. intros v bytes [= <-]. cbn. f_equal. apply String.string_of_list_byte_of_string.
Defined.

Definition raw_utf8 : Utf8 := {| utf8_lossy := String.string_of_list_byte |}.

Definition raw_utf8_laws : Utf8Laws raw_utf8.
Proof. split. intros s. apply String.string_of_list_byte_of_string. Defined.

Definition two_stores : list (store_op string) :=
  [Storage.Put "users" "alice" "30"; Storage.Put "posts" "alice" "hello"; Storage.Put "users" "bob" "41";
   Storage.Delete "users" "bob"; Storage.Put "users" "al" "29"].

Lemma typed_stores_are_maps_witness :
  let S := raw_string in let U := raw_utf8 in
  let b := foldl run_op memory_new two_stores in
  typed_get "alice" (typed_new b "users") = Ok (Some "30") ∧
  typed_get "bob" (typed_new b "users") = Ok None.
Proof.
  intros S U b.
  assert (plain "users") as Hu by (apply (bool_decide_unpack _); vm_compute; exact I).
  assert (plain "posts") as Hp by (apply (bool_decide_unpack _); vm_compute; exact I).
  assert (Forall (λ op, plain (op_namespace op)) two_stores) as Hops by (repeat constructor; done).
  destruct (@typed_stores_are_maps InMemoryBackend memory_backend memory_laws raw_utf8 raw_utf8_laws
    string raw_string raw_string_laws memory_new two_stores "users" eq_refl Hops Hu) as [Hget _].
  split; [exact (Hget "alice")|exact (Hget "bob")].
Defined.

(** A store in the namespace [a] writes what a store in [a:b] reads. *)
Example colon_namespaces_share :
  let S := raw_string in
  let b := backend (typed_put "b:x" "secret" (typed_new memory_new "a")).2 in
  typed_get "x" (typed_new b "a:b") = Ok (Some "secret").
Proof. vm_compute. reflexivity. Qed.

(** ** Databases

    A database in memory; [faulty] is one of which no table can be read. *)

Definition test_redb (faulty : bool) : Redb := {|
  Database := gmap string BTreeMap; ReadTransaction := gmap string BTreeMap;
  ReadOnlyTable := BTreeMap; WriteTransaction := gmap string BTreeMap;
  database_create := λ _, Ok ∅;
  file_length := λ _ _, Some 0;
  begin_read := λ d, Ok d;
  read_table := λ n d, if faulty then Err "storage" else
    match d !! n with Some m => Ok m | None => Err "no table" end;
  table_get := λ k m, Ok (m !! k);
  table_range := λ k m, Ok (Ok <$> entries_from k m);
  begin_write := λ d, Ok d;
  write_table := λ n w, Ok (<[n := table_at n w]> w);
  table_insert := λ n k v w, Ok (<[n := <[k := v]> (table_at n w)]> w);
  table_remove := λ n k w, Ok (table_at n w !! k, <[n := delete k (table_at n w)]> w);
  commit := λ w _, (Ok (), w);
|}.

#[local] Instance test_redb_laws faulty : RedbLaws (test_redb faulty).
Proof.
  refine {| tables := id : @Database (test_redb faulty) → _;
            snapshot := id : @ReadTransaction (test_redb faulty) → _;
            table_view := id : @ReadOnlyTable (test_redb faulty) → _;
            pending := id : @WriteTransaction (test_redb faulty) → _ |}; cbn; try naive_solver.
  - intros n t tb. destruct faulty; [done|]. destruct (_ !! _); naive_solver.
  - intros k tb l [= <-]. by left.
Defined.

#[local] Instance test_redb_reliable : Reliable (test_redb false).
Proof.
  split; try done. intros n t e. cbn. unfold id. by destruct (_ !! n).
Defined.

Definition test_backend (faulty : bool) : RedbBackend (RD := test_redb faulty) :=
  @Build_RedbBackend (test_redb faulty) (∅ : gmap string BTreeMap) "test.redb".

Definition some_writes : list backend_op :=
  [BPut (as_bytes "a") (as_bytes "1"); BBatch [(as_bytes "b", as_bytes "2"); (as_bytes "ab", as_bytes "3")];
   BDelete (as_bytes "b"); BDelete (as_bytes "c")].


Lemma redb_like_memory_witness :
  redb_scan_prefix (as_bytes "a") 0 (backend_run some_writes (test_backend false)).2 =
    Ok [(as_bytes "a", as_bytes "1")] ∧
  redb_scan_prefix (as_bytes "a") 0 (backend_run some_writes (test_backend false)).2 =
    memory_scan_prefix (as_bytes "a") 1 (backend_run some_writes memory_new).2.
Proof.
  split; [vm_compute; reflexivity|].
  pose proof (redb_like_memory some_writes (test_backend false)) as H.
  change ({| data := main (test_backend false) |}) with memory_new in H.
  destruct (backend_run some_writes (test_backend false)) as [rs b], (backend_run some_writes memory_new).
  destruct H as (_ & _ & _ & _ & H). exact (H (as_bytes "a") 0%nat).
Defined.

(** A table that cannot be read passes for one that is not there, and what is stored in it
    for absent. *)
Lemma unreadable_is_absent :
  let b := (redb_put (as_bytes "a") (as_bytes "1") (test_backend true)).2 in
  main b !! as_bytes "a" = Some (as_bytes "1") ∧ redb_get (as_bytes "a") b = Ok None.
Proof. vm_compute. done. Qed.

(** Edges stored as the digits of their code. *)
Fixpoint digits (p : positive) : list byte :=
  match p with xH => [] | xO p => x00 :: digits p | xI p => x01 :: digits p end.
Fixpoint of_digits (l : list byte) : positive :=
  match l with [] => xH | x00 :: l => xO (of_digits l) | _ :: l => xI (of_digits l) end.

Lemma of_digits_digits p : of_digits (digits p) = p.
Proof. induction p as [p IH|p IH|]; cbn; by rewrite ?IH. Qed.

Definition edge_fields : Type := (string * string) * (string * string) * ((string * string) + (string * option string)).
Definition to_fields (e : GraphEdge) : edge_fields :=
  ((iri (subject e), local_name (subject e)), (iri (Graph.predicate e), local_name (Graph.predicate e)),
   match object e with Node n => inl (iri n, local_name n) | Literal v d => inr (v, d) end).
Definition of_fields (f : edge_fields) : GraphEdge :=
  let node := λ x : string * string, {| iri := x.1; local_name := x.2 |} in
  {| subject := node f.1.1; Graph.predicate := node f.1.2;
     object := match f.2 with inl x => Node (node x) | inr (v, d) => Literal v d end |}.

#[local] Instance edge_serde : Serde GraphEdge := {|
  to_vec := λ e, Ok (digits (encode (to_fields e)));
  from_slice := λ l, match decode (A := edge_fields) (of_digits l) with
                     | Some f => Ok (of_fields f) | None => Err "edge" end |}.

#[local] Instance edge_serde_laws : SerdeLaws GraphEdge.
Proof.
  split. intros e bytes [= <-]. cbn. rewrite of_digits_digits, decode_encode.
  by destruct e as [[] [] [[]|]].
Defined.

Definition test_graph : RedbGraphStore (RD := test_redb false) :=
  @Build_RedbGraphStore (test_redb false) (∅ : gmap string BTreeMap) "graph.redb".

Lemma st_edges_clean : Forall clean_edge (op_edge <$> st_edges).
Proof.
  assert (∀ s p o, nul_free s → nul_free p → nul_free o → clean_edge (edge s p o)) as H.
  { intros s p o Hs Hp Ho. split_and!; [done..|]. by intros n [= <-]. }
  repeat constructor; apply H; apply (bool_decide_unpack _); vm_compute; exact I.
Qed.


Lemma redb_neighborhood_like_memory_witness :
  redb_neighborhood (GraphNode_new "a") 2 (redb_graph_run st_edges test_graph).2 =
    neighborhood (GraphNode_new "a") 2 (graph_run (redb_graph_run st_edges test_graph).1).
Proof.
  assert (nul_free (iri (GraphNode_new "a"))) as Hn by (apply (bool_decide_unpack _); vm_compute; exact I).
  pose proof (redb_neighborhood_like_memory st_edges test_graph (GraphNode_new "a") 2 eq_refl
    st_edges_clean Hn) as H.
  destruct (redb_graph_run st_edges test_graph) as [done s']. exact H.
Defined.

(** An RDF store in memory: its quads as rows of strings.  The empty IRI is refused. *)

Definition row : Type :=
  (string + string) * string * (string + (string * string) + string) * option string.

#[local] Instance test_ox : Oxigraph := {|
  NamedNode := string; OxLiteral := string * string; Store := gset row;
  named_node_new := λ i, if decide (i = "") then Err "No scheme found" else Ok i;
  as_str := λ n, n;
  new_simple_literal := λ v, (v, XSD_STRING);
  literal_value := fst;
  literal_datatype := snd;
|}.

Definition subject_row (s : Subject) : string + string :=
  match s with SubjectNamedNode n => inl n | SubjectOther t => inr t end.
Definition term_row (t : Term) : string + (string * string) + string :=
  match t with TermNamedNode n => inl (inl n) | TermLiteral l => inl (inr l) | TermOther t => inr t end.
Definition to_row (q : Quad) : row :=
  (subject_row (quad_subject q), quad_predicate q, term_row (quad_object q), quad_graph q).

Definition of_row (r : row) : Quad :=
  let '(s, p, o, g) := r in
  {| quad_subject := match s with inl n => SubjectNamedNode n | inr t => SubjectOther t end;
     quad_predicate := p;
     quad_object := match o with
                    | inl (inl n) => TermNamedNode n | inl (inr l) => TermLiteral l
                    | inr t => TermOther t end;
     quad_graph := g |}.

Lemma of_row_to_row q : of_row (to_row q) = q.
Proof. by destruct q as [[] p [] g]. Qed.
Lemma to_row_of_row r : to_row (of_row r) = r.
Proof. by destruct r as [[[[] p] [[]|]] g]. Qed.
Lemma to_row_inj q q' : to_row q = to_row q' → q = q'.
Proof. intros H. by rewrite <- (of_row_to_row q), H, of_row_to_row. Qed.

Definition matches_row `{EqDecision B} {A} (f : A → B) (pattern : option A) (x : B) : bool :=
  match pattern with Some y => bool_decide (x = f y) | None => true end.

Definition test_insert (q : Quad) (s : gset row) : result string bool * gset row :=
  (Ok (bool_decide (to_row q ∉ s)), {[to_row q]} ∪ s).
Definition test_remove (q : Quad) (s : gset row) : result string bool * gset row :=
  (Ok (bool_decide (to_row q ∈ s)), s ∖ {[to_row q]}).
Definition test_contains (q : Quad) (s : gset row) : result string bool :=
  Ok (bool_decide (to_row q ∈ s)).
Definition row_matches (s : option Subject) (p : option string) (o : option Term)
    (g : option (option string)) (r : row) : bool :=
  matches_row subject_row s r.1.1.1 && matches_row id p r.1.1.2 &&
  matches_row term_row o r.1.2 && matches_row id g r.2.
Definition test_quads (s : option Subject) (p : option string) (o : option Term)
    (g : option (option string)) (st : gset row) : list (result string Quad) :=
  Ok <$> (of_row <$> filter (λ r, row_matches s p o g r) (elements st)).

#[local] Instance test_ox_store : @OxigraphStore test_ox := {|
  store_new := Ok (∅ : @Store test_ox);
  store_open := λ _ : string, Ok (∅ : gset row);
  store_insert := test_insert;
  store_remove := test_remove;
  store_contains := test_contains;
  quads_for_pattern := test_quads;
|}.

Lemma matches_row_spec `{EqDecision B} {A} (f : A → B) (pattern : option A) (x : A) :
  (∀ y z, f y = f z → y = z) → matches_row f pattern (f x) ↔ matches pattern x.
Proof.
  intros Hf. destruct pattern as [y|]; cbn; [|done]. rewrite Is_true_true, bool_decide_eq_true. naive_solver.
Qed.

Lemma row_matches_spec s p o g q :
  row_matches s p o g (to_row q) ↔ matches s (quad_subject q) ∧ matches p (quad_predicate q) ∧
    matches o (quad_object q) ∧ matches g (quad_graph q).
Proof.
  unfold row_matches. rewrite !andb_True. cbn.
  rewrite <- (matches_row_spec subject_row), <- (matches_row_spec id p),
    <- (matches_row_spec term_row), <- (matches_row_spec id g); [tauto|done|..|done|].
  - intros [] [] [=]; congruence.
  - intros [] [] [=]; congruence.
Qed.

Definition test_holds (s : gset row) (q : Quad) : Prop := to_row q ∈ s.

#[local] Instance test_ox_laws : OxigraphLaws test_ox_store.
Proof.
  refine (@Build_OxigraphLaws test_ox test_ox_store test_holds _ _ _ _ _ _ _ _ _).
  - intros s n. cbn. by case_decide; intros [= <-].
  - done.
  - done.
  - done.
  - intros s [= <-] q. change (to_row q ∉ (∅ : gset row)). apply not_elem_of_empty.
  - intros q s r s' [= <- <-] q'. unfold test_holds. rewrite (elem_of_union (C := gset row)), (elem_of_singleton (C := gset row)). cbn.
    split; [intros [Hq|Hq]|intros [Hq|[_ ->]]]; auto using to_row_inj.
  - intros q s r s' [= <- <-] q'. unfold test_holds. rewrite (elem_of_difference (C := gset row)), (elem_of_singleton (C := gset row)). cbn.
    split; (intros [Hq Hne]; split; [done|]).
    + intros [_ ->]. by apply Hne.
    + intros H. apply Hne. split; [done|by apply to_row_inj].
  - intros q s b [= <-]. apply bool_decide_eq_true.
  - intros s p o g st qs Hq. assert (Inj (=) (=) (@Ok string Quad)) as HI by by intros x y [=].
    apply (inj (fmap Ok)) in Hq as <-. split.
    + apply NoDup_fmap; [|apply NoDup_filter, NoDup_elements]. intros r r' H.
      by rewrite <- (to_row_of_row r), H, to_row_of_row.
    + intros q. rewrite list_elem_of_fmap. setoid_rewrite list_elem_of_filter.
      setoid_rewrite elem_of_elements. rewrite <- row_matches_spec. unfold test_holds. split.
      * intros (r & -> & Hm & Hr). by rewrite to_row_of_row.
      * intros [Hr Hm]. exists (to_row q). by rewrite of_row_to_row.
Defined.

Definition no_quads : @Store test_ox := (∅ : gset row).

Definition literal_edge : GraphEdge :=
  {| subject := GraphNode_new "a"; Graph.predicate := GraphNode_new "age";
     object := Literal "30" (Some "http://www.w3.org/2001/XMLSchema#integer") |}.

Definition ox_ops : list graph_op :=
  [GInsert (edge "a" "knows" "b"); GInsert literal_edge; GInsert (edge "" "knows" "b");
   GDelete (edge "a" "knows" "b")].

(** The number was an integer, and comes back as a string. *)
Lemma ox_graph_exact_witness :
  (ox_run ox_ops no_quads).1 = [GInsert (edge "a" "knows" "b"); GInsert literal_edge;
    GDelete (edge "a" "knows" "b")] ∧
  ∃ l, ox_outgoing (GraphNode_new "a") (ox_run ox_ops no_quads).2 = Ok l ∧
    {| subject := GraphNode_new "a"; Graph.predicate := GraphNode_new "age";
       object := Literal "30" (Some XSD_STRING) |} ∈ l.
Proof.
  split; [vm_compute; reflexivity|].
  pose proof (ox_graph_exact ox_ops no_quads eq_refl) as H.
  assert ((ox_run ox_ops no_quads).1 = [GInsert (edge "a" "knows" "b"); GInsert literal_edge;
    GDelete (edge "a" "knows" "b")]) as Hd by (vm_compute; reflexivity).
  assert (∃ l, ox_outgoing (GraphNode_new "a") (ox_run ox_ops no_quads).2 = Ok l) as [l Hl]
    by (eexists; vm_compute; reflexivity).
  destruct (ox_run ox_ops no_quads) as [done s']. cbn in Hd, Hl. subst done.
  exists l. split; [exact Hl|]. apply (proj1 H _ _ Hl).
  exists "age", (inr "30"). split; [apply (bool_decide_unpack _); vm_compute; exact I|reflexivity].
Defined.
