(* ===== verification/Modality.v ===== *)
(** * The modalities of a hexad

    The data of the eight modalities, and what the hexad store asks of their stores:
    the store traits of the modality crates as type classes
    ([src/rust-core/verisim-{graph,vector,document,tensor,semantic,temporal,provenance,spatial}]).
    The hexad store only prints the errors of these stores, so the interfaces carry the
    printed form.  Floats are the standard library's [spec_float]. *)

From S2P Require Import Prelude Floats Provenance Temporal Graph.
From stdpp Require Import pretty.
From Stdlib Require Import SpecFloat.
Local Open Scope Z_scope.

(** ** Vectors *)

Record Embedding := {
  emb_id : string; emb_vector : list f32; emb_metadata : gmap string string;
}.

Definition Embedding_new (id : string) (vector : list f32) : Embedding :=
  {| emb_id := id; emb_vector := vector; emb_metadata := ∅ |}.

Inductive VectorError :=
| DimensionMismatch (expected actual : nat)
| VectorNotFound (e : string)
| VectorIndexError (e : string)
| VectorSerializationError (e : string)
| VectorLockPoisoned.

Definition vector_error_to_string (e : VectorError) : string :=
  match e with
  | DimensionMismatch expected actual =>
    "Dimension mismatch: expected " +:+ pretty expected +:+ ", got " +:+ pretty actual
  | VectorNotFound e => "Vector not found: " +:+ e
  | VectorIndexError e => "Index error: " +:+ e
  | VectorSerializationError e => "Serialization error: " +:+ e
  | VectorLockPoisoned => "Lock poisoned: internal concurrency error"
  end.

Inductive DistanceMetric := Cosine | Euclidean | DotProduct.

(** The [BruteForceVectorStore]; its similarity search is in [VectorSearch.v]. *)
Record BruteForceVectorStore := {
  bf_dimension : nat; bf_metric : DistanceMetric; bf_embeddings : gmap string Embedding;
}.

Definition vector_upsert (e : Embedding) (v : BruteForceVectorStore)
    : result VectorError () * BruteForceVectorStore :=
  if decide (length (emb_vector e) = bf_dimension v) then
    (Ok (), {| bf_dimension := bf_dimension v; bf_metric := bf_metric v;
               bf_embeddings := <[emb_id e := e]> (bf_embeddings v) |})
  else (Err (DimensionMismatch (bf_dimension v) (length (emb_vector e))), v).

Definition vector_get (id : string) (v : BruteForceVectorStore)
    : result VectorError (option Embedding) := Ok (bf_embeddings v !! id).

Definition vector_delete (id : string) (v : BruteForceVectorStore)
    : result VectorError () * BruteForceVectorStore :=
  (Ok (), {| bf_dimension := bf_dimension v; bf_metric := bf_metric v;
             bf_embeddings := delete id (bf_embeddings v) |}).

(** ** Documents *)

Record Document := {
  doc_id : string; doc_title : string; doc_body : string;
  doc_fields : gmap string string; doc_metadata : gmap string string;
}.

Definition Document_new (id title body : string) : Document :=
  {| doc_id := id; doc_title := title; doc_body := body; doc_fields := ∅; doc_metadata := ∅ |}.

Definition with_field (key value : string) (d : Document) : Document :=
  {| doc_id := doc_id d; doc_title := doc_title d; doc_body := doc_body d;
     doc_fields := <[key := value]> (doc_fields d); doc_metadata := doc_metadata d |}.

Inductive DocumentError :=
| DocumentIndexError (e : string)
| DocumentNotFound (e : string)
| QueryError (e : string)
| SchemaError (e : string)
| DocumentIoError (e : string).

Definition document_error_to_string (e : DocumentError) : string :=
  match e with
  | DocumentIndexError e => "Index error: " +:+ e
  | DocumentNotFound e => "Document not found: " +:+ e
  | QueryError e => "Query parse error: " +:+ e
  | SchemaError e => "Schema error: " +:+ e
  | DocumentIoError e => "IO error: " +:+ e
  end.

(** The [tantivy] index: its writer with the deletions and additions it has been given,
    and its searcher.  An error carries its text. *)
Class Tantivy := {
  tv_index : Type;
  tv_delete_term : string → tv_index → tv_index;
  tv_add_document : string → string → string → tv_index → result string () * tv_index;
  tv_commit : tv_index → result string () * tv_index;
  tv_reload : tv_index → result string () * tv_index;
  tv_search : string → nat → tv_index → result DocumentError (list string);
}.

Record TantivyDocumentStore {TV : Tantivy} := {
  td_index : tv_index; td_documents : gmap string Document;
}.

Section documents.
Context {TV : Tantivy}.

Definition set_index (i : tv_index) (s : TantivyDocumentStore) : TantivyDocumentStore :=
  {| td_index := i; td_documents := td_documents s |}.

(** A failure of [add_document] leaves the old document in place. *)
Definition document_index (doc : Document) (s : TantivyDocumentStore)
    : result DocumentError () * TantivyDocumentStore :=
  let i := tv_delete_term (doc_id doc) (td_index s) in
  match tv_add_document (doc_id doc) (doc_title doc) (doc_body doc) i with
  | (Err e, i) => (Err (DocumentIndexError e), set_index i s)
  | (Ok _, i) => (Ok (), {| td_index := i;
                            td_documents := <[doc_id doc := doc]> (td_documents s) |})
  end.

Definition document_get (id : string) (s : TantivyDocumentStore)
    : result DocumentError (option Document) := Ok (td_documents s !! id).

Definition document_delete (id : string) (s : TantivyDocumentStore)
    : result DocumentError () * TantivyDocumentStore :=
  (Ok (), {| td_index := tv_delete_term id (td_index s);
             td_documents := delete id (td_documents s) |}).

Definition document_commit (s : TantivyDocumentStore)
    : result DocumentError () * TantivyDocumentStore :=
  match tv_commit (td_index s) with
  | (Err e, i) => (Err (DocumentIndexError e), set_index i s)
  | (Ok _, i) => let '(r, i) := tv_reload i in (map_err DocumentIndexError r, set_index i s)
  end.

(** The ids of the results. *)
Definition document_search (query : string) (limit : nat) (s : TantivyDocumentStore)
    : result DocumentError (list string) := tv_search query limit (td_index s).

End documents.

(** ** Tensors *)

Inductive DType := Float32 | Float64 | Int32 | Int64 | Bool.

Record Tensor := {
  ten_id : string; ten_shape : list Z; ten_dtype : DType; ten_data : list f64;
  ten_metadata : gmap string string;
}.

Inductive TensorError :=
| ShapeMismatch (expected actual : list Z)
| TensorNotFound (e : string)
| InvalidOperation (e : string)
| TensorSerializationError (e : string)
| TensorLockPoisoned.

(** [{:?}] of a vector of integers. *)
Fixpoint debug_items (l : list Z) : string :=
  match l with
  | [] => ""
  | [x] => pretty x
  | x :: l => pretty x +:+ ", " +:+ debug_items l
  end.
Definition debug_list (l : list Z) : string := "[" +:+ debug_items l +:+ "]".

Definition tensor_error_to_string (e : TensorError) : string :=
  match e with
  | ShapeMismatch expected actual =>
    "Shape mismatch: expected " +:+ debug_list expected +:+ ", got " +:+ debug_list actual
  | TensorNotFound e => "Tensor not found: " +:+ e
  | InvalidOperation e => "Invalid operation: " +:+ e
  | TensorSerializationError e => "Serialization error: " +:+ e
  | TensorLockPoisoned => "Lock poisoned: internal concurrency error"
  end.

(** [shape.iter().product()], in a [usize]. *)
Definition numel (shape : list Z) : Z := foldl (λ a b, wrap 64 (a * b)) 1 shape.

Definition Tensor_new (id : string) (shape : list Z) (data : list f64) : result TensorError Tensor :=
  let expected_len := numel shape in
  if negb (Z.of_nat (length data) =? expected_len) then
    Err (InvalidOperation ("Data length " +:+ pretty (length data) +:+ " doesn't match shape "
      +:+ debug_list shape +:+ " (expected " +:+ pretty expected_len +:+ ")"))
  else Ok {| ten_id := id; ten_shape := shape; ten_dtype := Float64; ten_data := data;
             ten_metadata := ∅ |}.

(** [InMemoryTensorStore] is its map. *)
Definition tensor_put (t : Tensor) (s : gmap string Tensor) : result TensorError () * gmap string Tensor :=
  (Ok (), <[ten_id t := t]> s).
Definition tensor_get (id : string) (s : gmap string Tensor) : result TensorError (option Tensor) :=
  Ok (s !! id).
Definition tensor_delete (id : string) (s : gmap string Tensor)
    : result TensorError () * gmap string Tensor := (Ok (), delete id s).

(** ** Semantics *)

Inductive ConstraintKind :=
| Required (property : string)
| Pattern (property regex : string)
| Range (property : string) (min max : option Z)
| CustomConstraint (validator : string).

Record Constraint := { co_name : string; co_kind : ConstraintKind; co_message : string }.

Record SemanticType := {
  st_iri : string; st_label : string; st_supertypes : list string;
  st_constraints : list Constraint;
}.

#[warnings="-register-all"]
Inductive SemanticValue :=
| LangString (value lang : string)
| TypedLiteral (value datatype : string)
| Reference (e : string)
| Collection (vs : list SemanticValue).

Record SemanticProvenance := {
  sp_created_at : string; sp_created_by : string; sp_source : option string; sp_confidence : f64;
}.

Record SemanticAnnotation := {
  sa_entity_id : string; sa_types : list string; sa_properties : gmap string SemanticValue;
  sa_provenance : SemanticProvenance;
}.

Inductive SemanticError :=
| TypeNotFound (e : string)
| ConstraintViolation (e : string)
| InvalidProof (e : string)
| SemanticSerializationError (e : string)
| SemanticLockPoisoned.

Definition semantic_error_to_string (e : SemanticError) : string :=
  match e with
  | TypeNotFound e => "Type not found: " +:+ e
  | ConstraintViolation e => "Constraint violation: " +:+ e
  | InvalidProof e => "Invalid proof: " +:+ e
  | SemanticSerializationError e => "Serialization error: " +:+ e
  | SemanticLockPoisoned => "Lock poisoned: internal concurrency error"
  end.

(** The [regex] crate: whether a pattern compiles, and what it then matches. *)
Class Regex := { regex_is_match : string → option (string → bool) }.

Inductive ProofType := TypeAssignment | ConstraintSatisfaction | Derivation | Attestation.

(** A stored proof of a claim; [ProofStore.v] verifies it. *)
Record ProofBlob := {
  pb_claim : string; pb_proof_type : ProofType; pb_data : list Byte.byte; pb_timestamp : string;
}.

Record InMemorySemanticStore := {
  sem_types : gmap string SemanticType; sem_annotations : gmap string SemanticAnnotation;
  sem_proofs : gmap string (list ProofBlob);
}.

Definition register_type (t : SemanticType) (s : InMemorySemanticStore)
    : result SemanticError () * InMemorySemanticStore :=
  (Ok (), {| sem_types := <[st_iri t := t]> (sem_types s); sem_annotations := sem_annotations s;
            sem_proofs := sem_proofs s |}).

Definition get_type (i : string) (s : InMemorySemanticStore)
    : result SemanticError (option SemanticType) := Ok (sem_types s !! i).

(** Whether an annotation breaks one constraint. *)
Definition violates {RX : Regex} (a : SemanticAnnotation) (c : Constraint) : bool :=
  match co_kind c with
  | Required prop => bool_decide (sa_properties a !! prop = None)
  | Pattern property regex =>
    match sa_properties a !! property with
    | Some (TypedLiteral value _) =>
      match regex_is_match regex with Some matches => negb (matches value) | None => false end
    | _ => false
    end
  | _ => false
  end.

Definition validate {RX : Regex} (a : SemanticAnnotation) (s : InMemorySemanticStore)
    : result SemanticError (list string) :=
  Ok (sa_types a ≫= λ type_iri,
        match sem_types s !! type_iri with
        | Some typ =>
          (λ c, co_name c +:+ ": " +:+ co_message c) <$>
            filter (λ c, violates a c = true) (st_constraints typ)
        | None => []
        end).

Definition annotate {RX : Regex} (a : SemanticAnnotation) (s : InMemorySemanticStore)
    : result SemanticError () * InMemorySemanticStore :=
  match validate a s with
  | Err e => (Err e, s)
  | Ok [] => (Ok (), {| sem_types := sem_types s;
                        sem_annotations := <[sa_entity_id a := a]> (sem_annotations s);
                        sem_proofs := sem_proofs s |})
  | Ok violations => (Err (ConstraintViolation (String.concat "; " violations)), s)
  end.

Definition get_annotations (id : string) (s : InMemorySemanticStore)
    : result SemanticError (option SemanticAnnotation) := Ok (sem_annotations s !! id).

(** ** Space *)

Record Coordinates := { co_latitude : f64; co_longitude : f64; co_altitude : option f64 }.

Inductive GeometryType := Point | LineString | Polygon | MultiPoint | MultiPolygon.

Record SpatialData := {
  sd_coordinates : Coordinates; sd_geometry_type : GeometryType; sd_srid : Z;
  sd_properties : gmap string string;
}.

Inductive SpatialError :=
| SpatialNotFound (e : string)
| InvalidCoordinates (e : string)
| SpatialIndexError (e : string)
| SpatialIoError (e : string).

Definition spatial_error_to_string (e : SpatialError) : string :=
  match e with
  | SpatialNotFound e => "Spatial data not found for entity: " +:+ e
  | InvalidCoordinates e => "Invalid coordinates: " +:+ e
  | SpatialIndexError e => "Spatial index error: " +:+ e
  | SpatialIoError e => "Spatial I/O error: " +:+ e
  end.

Section spatial.
Context {FD : FloatDisplay}.

Definition latitude_ok (x : f64) : bool := f64_in_range (f64_of_Z (-90)) (f64_of_Z 90) x.
Definition longitude_ok (x : f64) : bool := f64_in_range (f64_of_Z (-180)) (f64_of_Z 180) x.

Definition Coordinates_new (latitude longitude : f64) (altitude : option f64)
    : result SpatialError Coordinates :=
  if negb (latitude_ok latitude) then
    Err (InvalidCoordinates ("Latitude " +:+ f64_to_string latitude +:+ " out of range [-90, 90]"))
  else if negb (longitude_ok longitude) then
    Err (InvalidCoordinates ("Longitude " +:+ f64_to_string longitude +:+ " out of range [-180, 180]"))
  else if f64_is_nan latitude || f64_is_nan longitude then
    Err (InvalidCoordinates "Coordinates must not be NaN")
  else Ok {| co_latitude := latitude; co_longitude := longitude; co_altitude := altitude |}.

Definition with_geometry (c : Coordinates) (g : GeometryType) (srid : Z) : SpatialData :=
  {| sd_coordinates := c; sd_geometry_type := g; sd_srid := srid; sd_properties := ∅ |}.

(** [InMemorySpatialStore] is its map; its distance searches are in [VectorSearch.v]. *)
Definition spatial_index (id : string) (data : SpatialData) (s : gmap string SpatialData)
    : result SpatialError () * gmap string SpatialData :=
  let c := sd_coordinates data in
  if negb (latitude_ok (co_latitude c)) || negb (longitude_ok (co_longitude c)) then
    (Err (InvalidCoordinates ("lat=" +:+ f64_to_string (co_latitude c) +:+ ", lon="
       +:+ f64_to_string (co_longitude c) +:+ " out of WGS84 range")), s)
  else (Ok (), <[id := data]> s).

Definition spatial_get (id : string) (s : gmap string SpatialData)
    : result SpatialError (option SpatialData) := Ok (s !! id).
Definition spatial_delete (id : string) (s : gmap string SpatialData)
    : result SpatialError () * gmap string SpatialData := (Ok (), delete id s).

End spatial.

(** ** Printing the errors of the other stores *)

Definition graph_error_to_string (e : GraphError) : string :=
  match e with
  | StoreError e => "Store error: " +:+ e
  | ParseError e => "Parse error: " +:+ e
  | GraphNotFound e => "Entity not found: " +:+ e
  | InvalidIri e => "Invalid IRI: " +:+ e
  | GraphLockPoisoned => "Lock poisoned"
  end.

Definition temporal_error_to_string (e : TemporalError) : string :=
  match e with
  | EntityNotFound e => "Entity not found: " +:+ e
  | VersionNotFound e v => "Version not found: " +:+ e +:+ " @ " +:+ pretty v
  | InvalidTimeRange e => "Invalid time range: " +:+ e
  | TemporalConflict e => "Conflict: " +:+ e
  | LockPoisoned => "Lock poisoned: internal concurrency error"
  end.

Definition provenance_error_to_string (e : ProvenanceError) : string :=
  match e with
  | NotFound e => "Provenance chain not found for entity: " +:+ e
  | ChainCorrupted e reason => "Provenance chain corrupted for entity " +:+ e +:+ ": " +:+ reason
  | HashMismatch e i => "Hash mismatch at index " +:+ pretty i +:+ " for entity " +:+ e
  | IoError e => "Provenance I/O error: " +:+ e
  end.

(** A store's answer, its error printed. *)
Definition printed {E A : Type} (to_string : E → string) (r : result E A) : result string A :=
  map_err to_string r.
Definition printed_st {E A S : Type} (to_string : E → string) (r : result E A * S)
    : result string A * S := (printed to_string r.1, r.2).

(** ** The store traits, as far as the hexad store uses them *)

Class GraphStore (G : Type) := {
  g_insert : GraphEdge → G → result string () * G;
  g_outgoing : GraphNode → G → result string (list GraphEdge);
}.
Class VectorStore (V : Type) := {
  vs_upsert : Embedding → V → result string () * V;
  vs_get : string → V → result string (option Embedding);
  vs_delete : string → V → result string () * V;
  vs_search : list f32 → nat → V → result string (list string);
}.
Class DocumentStore (D : Type) := {
  ds_index : Document → D → result string () * D;
  ds_commit : D → result string () * D;
  ds_get : string → D → result string (option Document);
  ds_delete : string → D → result string () * D;
  ds_search : string → nat → D → result string (list string);
}.
Class TensorStore (T : Type) := {
  ts_put : Tensor → T → result string () * T;
  ts_get : string → T → result string (option Tensor);
  ts_delete : string → T → result string () * T;
}.
Class SemanticStore (S : Type) := {
  ss_annotate : SemanticAnnotation → S → result string () * S;
  ss_get_annotations : string → S → result string (option SemanticAnnotation);
}.
Class TemporalStore {CH : Chrono} (Data R : Type) := {
  rs_append : DateTime → string → Data → string → option string → R → result string Z * R;
  rs_history : string → nat → R → result string (list (Version Data));
  rs_at_time : string → DateTime → R → result string (option (Version Data));
}.
Class ProvenanceStore {CH : Chrono} (P : Type) := {
  ps_record_event : DateTime → string → ProvenanceEventType → string → option string → string →
    P → result string ProvenanceRecord * P;
  ps_get_chain : string → P → result string ProvenanceChain;
}.
Class SpatialStore (L : Type) := {
  ls_index : string → SpatialData → L → result string () * L;
  ls_get : string → L → result string (option SpatialData);
}.

(** ** The in-memory stores implement them *)

#[export] Instance simple_graph_store `{!HashIter TripleKey} : GraphStore SimpleGraphStore := {|
  g_insert := λ e g, printed_st graph_error_to_string (graph_insert e g);
  g_outgoing := λ n g, printed graph_error_to_string (outgoing n g);
|}.

(** The similarity search ([VectorSearch.v]) is a parameter of the instance. *)
Class VectorSearch := {
  vector_search : list f32 → nat → BruteForceVectorStore → result VectorError (list string);
}.

#[export] Instance brute_force_vector_store {VS : VectorSearch} : VectorStore BruteForceVectorStore := {|
  vs_upsert := λ e v, printed_st vector_error_to_string (vector_upsert e v);
  vs_get := λ id v, printed vector_error_to_string (vector_get id v);
  vs_delete := λ id v, printed_st vector_error_to_string (vector_delete id v);
  vs_search := λ q k v, printed vector_error_to_string (vector_search q k v);
|}.

#[export] Instance tantivy_document_store {TV : Tantivy} : DocumentStore TantivyDocumentStore := {|
  ds_index := λ d s, printed_st document_error_to_string (document_index d s);
  ds_commit := λ s, printed_st document_error_to_string (document_commit s);
  ds_get := λ id s, printed document_error_to_string (document_get id s);
  ds_delete := λ id s, printed_st document_error_to_string (document_delete id s);
  ds_search := λ q k s, printed document_error_to_string (document_search q k s);
|}.

#[export] Instance in_memory_tensor_store : TensorStore (gmap string Tensor) := {|
  ts_put := λ t s, printed_st tensor_error_to_string (tensor_put t s);
  ts_get := λ id s, printed tensor_error_to_string (tensor_get id s);
  ts_delete := λ id s, printed_st tensor_error_to_string (tensor_delete id s);
|}.

#[export] Instance in_memory_semantic_store {RX : Regex} : SemanticStore InMemorySemanticStore := {|
  ss_annotate := λ a s, printed_st semantic_error_to_string (annotate a s);
  ss_get_annotations := λ id s, printed semantic_error_to_string (get_annotations id s);
|}.

#[export] Instance in_memory_version_store {CH : Chrono} (Data : Type)
    : TemporalStore Data (gmap string (list (Z * Version Data))) := {|
  rs_append := λ now id data author message s,
    printed_st temporal_error_to_string (temporal_append now id data author message s);
  rs_history := λ id limit s, printed temporal_error_to_string (temporal_history id limit s);
  rs_at_time := λ id time s, printed temporal_error_to_string (temporal_at_time id time s);
|}.

#[export] Instance in_memory_provenance_store {CH : Chrono} {D : Digest}
    : ProvenanceStore (gmap string ProvenanceChain) := {|
  ps_record_event := λ now id ev who src d s,
    printed_st provenance_error_to_string (record_event now id ev who src d s);
  ps_get_chain := λ id s, printed provenance_error_to_string (get_chain id s);
|}.

#[export] Instance in_memory_spatial_store {FD : FloatDisplay}
    : SpatialStore (gmap string SpatialData) := {|
  ls_index := λ id data s, printed_st spatial_error_to_string (spatial_index id data s);
  ls_get := λ id s, printed spatial_error_to_string (spatial_get id s);
|}.

(** ** What a modality store promises the hexad store

    The laws of the store interfaces of [Modality.v]: a successful write is read back,
    a deletion removes what it names, a failed write and every write to another id are
    invisible.  The in-memory stores satisfy them. *)

(** ** The laws *)

Class VectorLaws (V : Type) `{!VectorStore V} := {
  vs_upsert_get : ∀ e v r v', vs_upsert e v = (r, v') → ∀ id,
    vs_get id v' = if decide (is_ok r = true ∧ id = emb_id e) then Ok (Some e) else vs_get id v;
  vs_delete_get : ∀ i v r v', vs_delete i v = (r, v') → ∀ id,
    vs_get id v' = if decide (is_ok r = true ∧ id = i) then Ok None else vs_get id v;
}.

(** A commit changes what a search finds, not what [get] returns. *)
Class DocumentLaws (D : Type) `{!DocumentStore D} := {
  ds_index_get : ∀ d s r s', ds_index d s = (r, s') → ∀ id,
    ds_get id s' = if decide (is_ok r = true ∧ id = doc_id d) then Ok (Some d) else ds_get id s;
  ds_commit_get : ∀ s r s', ds_commit s = (r, s') → ∀ id, ds_get id s' = ds_get id s;
  ds_delete_get : ∀ i s r s', ds_delete i s = (r, s') → ∀ id,
    ds_get id s' = if decide (is_ok r = true ∧ id = i) then Ok None else ds_get id s;
}.

Class TensorLaws (T : Type) `{!TensorStore T} := {
  ts_put_get : ∀ t s r s', ts_put t s = (r, s') → ∀ id,
    ts_get id s' = if decide (is_ok r = true ∧ id = ten_id t) then Ok (Some t) else ts_get id s;
  ts_delete_get : ∀ i s r s', ts_delete i s = (r, s') → ∀ id,
    ts_get id s' = if decide (is_ok r = true ∧ id = i) then Ok None else ts_get id s;
}.

Class SemanticLaws (S : Type) `{!SemanticStore S} := {
  ss_annotate_get : ∀ a s r s', ss_annotate a s = (r, s') → ∀ id,
    ss_get_annotations id s' =
      if decide (is_ok r = true ∧ id = sa_entity_id a) then Ok (Some a) else ss_get_annotations id s;
}.

Class SpatialLaws (L : Type) `{!SpatialStore L} := {
  ls_index_get : ∀ i data s r s', ls_index i data s = (r, s') → ∀ id,
    ls_get id s' = if decide (is_ok r = true ∧ id = i) then Ok (Some data) else ls_get id s;
}.

Class ProvenanceLaws {CH : Chrono} (P : Type) `{!ProvenanceStore P} := {
  ps_record_event_get : ∀ now i ev who src d s r s',
    ps_record_event now i ev who src d s = (r, s') → ∀ id, id ≠ i →
    ps_get_chain id s' = ps_get_chain id s;
}.

(** The first version of an entity is its whole history. *)
Class TemporalLaws {CH : Chrono} (Data R : Type) `{!TemporalStore Data R} := {
  rs_append_history : ∀ now i data who msg s r s',
    rs_append now i data who msg s = (r, s') → ∀ id limit, id ≠ i →
    rs_history id limit s' = rs_history id limit s;
  rs_append_first : ∀ now i data who msg s n s',
    rs_append now i data who msg s = (Ok n, s') → rs_history i 1 s = Ok [] →
    ∀ limit, ∃ v, rs_history i (S limit) s' = Ok [v] ∧ version v = n ∧ v_data v = data;
}.

(** ** The in-memory stores satisfy them *)

Section maps.
Context {E A : Type} (m : gmap string A).

Lemma insert_law i x id :
  @Ok E _ (<[i := x]> m !! id) = if decide (true = true ∧ id = i) then Ok (Some x) else Ok (m !! id).
Proof. rewrite lookup_insert. repeat case_decide; naive_solver. Qed.

Lemma delete_law i id :
  @Ok E _ (delete i m !! id) = if decide (true = true ∧ id = i) then Ok None else Ok (m !! id).
Proof. rewrite lookup_delete. repeat case_decide; naive_solver. Qed.

End maps.

#[export] Instance brute_force_vector_laws {VS : VectorSearch} : VectorLaws BruteForceVectorStore.
Proof.
  split; cbn; unfold printed_st.
  - intros e v r v' Hr id. unfold vector_upsert in Hr. case_decide; simplify_eq/=.
    + apply insert_law.
    + done.
  - intros i v r v' Hr id. simplify_eq/=. apply delete_law.
Qed.

#[export] Instance tantivy_document_laws {TV : Tantivy} : DocumentLaws TantivyDocumentStore.
Proof.
  split; cbn; unfold printed_st.
  - intros d s r s' Hr id. unfold document_index in Hr.
    destruct (tv_add_document _ _ _ _) as [[[]|e] i]; simplify_eq/=; [apply insert_law|].
    done.
  - intros s r s' Hr id. unfold document_commit in Hr.
    destruct (tv_commit _) as [[[]|e] i]; [destruct (tv_reload i)|]; by simplify_eq/=.
  - intros i s r s' Hr id. simplify_eq/=. apply delete_law.
Qed.

#[export] Instance in_memory_tensor_laws : TensorLaws (gmap string Tensor).
Proof.
  split; cbn; unfold printed_st; intros; simplify_eq/=; [apply insert_law|apply delete_law].
Qed.

#[export] Instance in_memory_semantic_laws {RX : Regex} : SemanticLaws InMemorySemanticStore.
Proof.
  split; cbn -[annotate]; unfold printed_st, annotate, validate. intros a s r s' Hr id.
  destruct (sa_types a ≫= _) as [|v vs]; simplify_eq/=; [apply insert_law|done].
Qed.

#[export] Instance in_memory_spatial_laws {FD : FloatDisplay} : SpatialLaws (gmap string SpatialData).
Proof.
  split; cbn -[spatial_index]; unfold printed_st, spatial_index. intros i data s r s' Hr id.
  destruct (_ || _); simplify_eq/=; [done|apply insert_law].
Qed.

#[export] Instance in_memory_provenance_laws {CH : Chrono} {D : Digest} :
  ProvenanceLaws (gmap string ProvenanceChain).
Proof.
  split; cbn; unfold printed_st, record_event, get_chain. intros now i ev who src d s r s' Hr id Hid.
  simplify_eq/=. unfold get_chain. by rewrite lookup_insert_ne.
Qed.

#[export] Instance in_memory_version_laws {CH : Chrono} (Data : Type) :
  TemporalLaws Data (gmap string (list (Z * Version Data))).
Proof.
  split; cbn; unfold printed_st, temporal_history, versions_of.
  - intros now i data who msg s r s' Hr id limit Hid. simplify_eq/=. by rewrite lookup_insert_ne.
  - intros now i data who msg s n s' Hr Hnil limit. unfold temporal_append in Hr.
    assert (default [] (s !! i) = []) as Hs.
    { destruct (default [] (s !! i)) as [|x l]; [done|]. rewrite fmap_cons, reverse_cons in Hnil.
      by destruct (reverse (snd <$> l)). }
    rewrite Hs in Hr. simplify_eq/=. eexists. rewrite lookup_insert_eq. cbn.
    rewrite take_nil. split_and!; [done|by destruct msg..].
Qed.
