(* ===== verification/VectorSearch.v ===== *)
(** * Searches of the modality stores

    Models the similarity search of [BruteForceVectorStore],
    [src/rust-core/verisim-vector/src/lib.rs], in the arithmetic of [f32], and the distance
    searches of [src/rust-core/verisim-spatial/src/lib.rs]; and what they find. *)

From S2P Require Import Prelude Floats Modality.
From Stdlib Require Import SpecFloat.
Local Open Scope Z_scope.

(** ** [f32] *)

Definition f32_add : f32 → f32 → f32 := SFadd 24 128.
Definition f32_sub : f32 → f32 → f32 := SFsub 24 128.
Definition f32_mul : f32 → f32 → f32 := SFmul 24 128.
Definition f32_div : f32 → f32 → f32 := SFdiv 24 128.
Definition f32_sqrt : f32 → f32 := SFsqrt 24 128.
Definition f32_neg : f32 → f32 := SFopp.

Definition f32_of_Z (z : Z) : f32 := binary_normalize 24 128 z 0 false.

(** [f32::MAX] *)
Definition f32_max_value : f32 := S754_finite false 16777215 104.

(** The sum of an iterator starts from minus zero. *)
Definition f32_sum (l : list f32) : f32 := foldl f32_add (S754_zero true) l.

(** [f32::powi], whose precision is not specified. *)
Class Powi32 := { f32_powi : f32 → Z → f32 }.

(** [v > 0.0] *)
Definition is_positive (x : f32) : bool := f64_ltb (f32_of_Z 0) x.

Definition dot (a b : list f32) : f32 := f32_sum (zip_with f32_mul a b).

Record SearchResult := { re_id : string; re_score : f32 }.

Section search.
Context {PW : Powi32}.

(** [(x - y).powi(2)], summed. *)
Definition squared_distance (a b : list f32) : f32 :=
  f32_sum (zip_with (λ x y, f32_powi (f32_sub x y) 2) a b).

Definition normalize (v : list f32) : list f32 :=
  let norm := f32_sqrt (f32_sum ((λ x, f32_mul x x) <$> v)) in
  if is_positive norm then (λ x, f32_div x norm) <$> v else v.

Definition similarity (metric : DistanceMetric) (a b : list f32) : f32 :=
  match metric with
  | Cosine => dot (normalize a) (normalize b)
  | DotProduct => dot a b
  | Euclidean => f32_div (f32_of_Z 1) (f32_add (f32_of_Z 1) (f32_sqrt (squared_distance a b)))
  end.

Definition cosine_similarity (a b : list f32) : f32 :=
  let norm_a := f32_sqrt (f32_sum ((λ x, f32_mul x x) <$> a)) in
  let norm_b := f32_sqrt (f32_sum ((λ x, f32_mul x x) <$> b)) in
  if is_positive norm_a && is_positive norm_b then f32_div (dot a b) (f32_mul norm_a norm_b)
  else f32_of_Z 0.

Definition BruteForceVectorStore_new (dimension : nat) (metric : DistanceMetric) : BruteForceVectorStore :=
  {| bf_dimension := dimension; bf_metric := metric; bf_embeddings := ∅ |}.

Context {HI : HashIter string}.

(** Every embedding with its similarity to the query. *)
Definition scored (query : list f32) (v : BruteForceVectorStore) : list SearchResult :=
  (λ '(id, e), {| re_id := id; re_score := similarity (bf_metric v) query (emb_vector e) |})
    <$> iter_map (bf_embeddings v).

Definition compare_score (a b : SearchResult) : comparison := float_cmp (re_score b) (re_score a).

Definition brute_force_search (query : list f32) (k : nat) (v : BruteForceVectorStore)
    : result VectorError (list SearchResult) :=
  if decide (length query = bf_dimension v) then Ok (take k (sort_by compare_score (scored query v)))
  else Err (DimensionMismatch (bf_dimension v) (length query)).

(** The hexad store looks at the ids only. *)
#[export] Instance brute_force : VectorSearch :=
  {| vector_search := λ query k v,
       match brute_force_search query k v with Ok r => Ok (map re_id r) | Err e => Err e end |}.

(** ** What it finds *)

Implicit Types (v : BruteForceVectorStore).

(** An answer reports stored embeddings, each at most once, with their own similarity. *)
Definition reports_embeddings (query : list f32) v (r : list SearchResult) : Prop :=
  NoDup (re_id <$> r) ∧
  ∀ x, x ∈ r → ∃ e, bf_embeddings v !! re_id x = Some e ∧
    re_score x = similarity (bf_metric v) query (emb_vector e).

Lemma scored_reports query v : reports_embeddings query v (scored query v).
Proof.
  unfold scored. split.
  - rewrite <- list_fmap_compose.
    assert (re_id ∘ (λ '(id, e), {| re_id := id; re_score := similarity (bf_metric v) query (emb_vector e) |})
      <$> iter_map (bf_embeddings v) = fst <$> iter_map (bf_embeddings v)) as ->
      by (apply list_fmap_ext; by intros ? [] ?). apply NoDup_iter_map.
  - intros x ([id e] & -> & Hin)%list_elem_of_fmap. apply elem_of_iter_map in Hin. by exists e.
Qed.

Lemma elem_of_scored query v id e :
  bf_embeddings v !! id = Some e →
  {| re_id := id; re_score := similarity (bf_metric v) query (emb_vector e) |} ∈ scored query v.
Proof. intros Hid%elem_of_iter_map. apply list_elem_of_fmap. by exists (id, e). Qed.

Lemma reports_submseteq query v (r r' : list SearchResult) :
  reports_embeddings query v r → r' ⊆+ r → reports_embeddings query v r'.
Proof.
  intros [Hn Hr] Hs. split.
  - apply submseteq_Permutation in Hs as [k Hk]. rewrite Hk, fmap_app in Hn. by apply NoDup_app in Hn as [? _].
  - intros x Hx. apply Hr. by eapply elem_of_submseteq.
Qed.

(** A search whose query has the dimension of the store answers with stored embeddings and
    their own similarities; when these are numbers, with the most similar ones, most similar
    first, as many as asked for.  Another query is refused. *)
Theorem brute_force_exact (query : list f32) (k : nat) v :
  match brute_force_search query k v with
  | Ok r => length query = bf_dimension v ∧ reports_embeddings query v r ∧
      (numbers re_score (scored query v) → top_k (larger re_score) k (scored query v) r)
  | Err e => length query ≠ bf_dimension v ∧ e = DimensionMismatch (bf_dimension v) (length query)
  end.
Proof.
  unfold brute_force_search. case_decide as Hd; [|done]. split; [done|]. split.
  - eapply reports_submseteq; [apply scored_reports|]. rewrite <- (sort_by_perm compare_score (scored query v)) at 2.
    apply sublist_submseteq, sublist_take.
  - intros Hn. apply take_sorted; [apply sort_by_perm|]. by apply (sort_descending re_score).
Qed.

End search.

(** ** Searching space

    Models the distance searches of [src/rust-core/verisim-spatial/src/lib.rs].  The sine,
    the cosine, the inverse sine and the powers come from the platform's mathematics. *)

Class Trigonometry := { f64_sin : f64 → f64; f64_cos : f64 → f64; f64_asin : f64 → f64 }.

Record BoundingBox := { bb_min_lat : f64; bb_min_lon : f64; bb_max_lat : f64; bb_max_lon : f64 }.

Record SpatialSearchResult := { sr_entity_id : string; sr_data : SpatialData; sr_distance_km : f64 }.

(** The searches of the trait [SpatialStore]; the hexad store has no use for them. *)
Class SpatialQueries (L : Type) := {
  ls_search_radius : Coordinates → f64 → nat → L → result string (list SpatialSearchResult);
  ls_search_within : BoundingBox → nat → L → result string (list SpatialSearchResult);
  ls_nearest : Coordinates → nat → L → result string (list SpatialSearchResult);
}.

Section search.
Context {TR : Trigonometry} {PW : Powi} {HI : HashIter string}.

Definition new_unchecked (latitude longitude : f64) (altitude : option f64) : Coordinates :=
  {| co_latitude := latitude; co_longitude := longitude; co_altitude := altitude |}.

(** [std::f64::consts::PI], and [to_radians]. *)
Definition f64_pi : f64 := S754_finite false 7074237752028440 (-51).
Definition to_radians (x : f64) : f64 := f64_mul x (f64_div f64_pi (f64_of_Z 180)).

Definition EARTH_RADIUS_KM : f64 := f64_of_Z 6371.

Definition haversine_distance (a b : Coordinates) : f64 :=
  let lat1 := to_radians (co_latitude a) in
  let lat2 := to_radians (co_latitude b) in
  let dlat := to_radians (f64_sub (co_latitude b) (co_latitude a)) in
  let dlon := to_radians (f64_sub (co_longitude b) (co_longitude a)) in
  let half x := f64_powi (f64_sin (f64_div x (f64_of_Z 2))) 2 in
  let h := f64_add (half dlat) (f64_mul (f64_mul (f64_cos lat1) (f64_cos lat2)) (half dlon)) in
  let c := f64_mul (f64_of_Z 2) (f64_asin (f64_sqrt h)) in
  f64_mul EARTH_RADIUS_KM c.

Definition result_from (center : Coordinates) (id : string) (data : SpatialData) : SpatialSearchResult :=
  {| sr_entity_id := id; sr_data := data;
     sr_distance_km := haversine_distance center (sd_coordinates data) |}.

Definition compare_distance (a b : SpatialSearchResult) : comparison :=
  default Eq (f64_partial_cmp (sr_distance_km a) (sr_distance_km b)).

Definition closest (limit : nat) (results : list SpatialSearchResult) : list SpatialSearchResult :=
  take limit (sort_by compare_distance results).

Definition search_radius (center : Coordinates) (radius_km : f64) (limit : nat)
    (s : gmap string SpatialData) : result SpatialError (list SpatialSearchResult) :=
  Ok (closest limit
        (omap (λ '(id, data),
           let dist := haversine_distance center (sd_coordinates data) in
           if f64_leb dist radius_km
           then Some {| sr_entity_id := id; sr_data := data; sr_distance_km := dist |}
           else None) (iter_map s))).

Definition within (bounds : BoundingBox) (c : Coordinates) : bool :=
  f64_leb (bb_min_lat bounds) (co_latitude c) && f64_leb (co_latitude c) (bb_max_lat bounds) &&
  f64_leb (bb_min_lon bounds) (co_longitude c) && f64_leb (co_longitude c) (bb_max_lon bounds).

Definition box_center (bounds : BoundingBox) : Coordinates :=
  new_unchecked (f64_div (f64_add (bb_min_lat bounds) (bb_max_lat bounds)) (f64_of_Z 2))
    (f64_div (f64_add (bb_min_lon bounds) (bb_max_lon bounds)) (f64_of_Z 2)) None.

Definition search_within (bounds : BoundingBox) (limit : nat) (s : gmap string SpatialData)
    : result SpatialError (list SpatialSearchResult) :=
  let center := box_center bounds in
  Ok (closest limit
        (omap (λ '(id, data),
           if within bounds (sd_coordinates data) then Some (result_from center id data) else None)
           (iter_map s))).

Definition nearest (point : Coordinates) (k : nat) (s : gmap string SpatialData)
    : result SpatialError (list SpatialSearchResult) :=
  Ok (closest k ((λ '(id, data), result_from point id data) <$> iter_map s)).

#[export] Instance memory_spatial_queries : SpatialQueries (gmap string SpatialData) := {|
  ls_search_radius := λ c r n s, printed spatial_error_to_string (search_radius c r n s);
  ls_search_within := λ b n s, printed spatial_error_to_string (search_within b n s);
  ls_nearest := λ p k s, printed spatial_error_to_string (nearest p k s);
|}.

End search.

(** ** What the distance searches find *)

Section search.
Context {TR : Trigonometry} {PW : Powi} {HI : HashIter string}.
Implicit Types (s : gmap string SpatialData) (c : Coordinates).

(** Every entity of the store with its distance from [c]. *)
Definition measured c s : list SpatialSearchResult :=
  (λ '(id, data), result_from c id data) <$> iter_map s.

(** An answer reports stored entities, each at most once, with their own data and distance. *)
Definition reports c s (r : list SpatialSearchResult) : Prop :=
  NoDup (sr_entity_id <$> r) ∧
  ∀ x, x ∈ r → s !! sr_entity_id x = Some (sr_data x) ∧
    sr_distance_km x = haversine_distance c (sd_coordinates (sr_data x)).

Lemma measured_reports c s : reports c s (measured c s).
Proof.
  unfold measured. split.
  - rewrite <- list_fmap_compose.
    assert (sr_entity_id ∘ (λ '(id, data), result_from c id data) <$> iter_map s = fst <$> iter_map s)
      as -> by (apply list_fmap_ext; by intros ? [] ?). apply NoDup_iter_map.
  - intros x ([id data] & -> & Hin)%list_elem_of_fmap. by apply elem_of_iter_map in Hin.
Qed.

Lemma reports_incl c s (r r' : list SpatialSearchResult) :
  reports c s r → r' ⊆+ r → reports c s r'.
Proof.
  intros [Hn Hr] Hs. split.
  - apply submseteq_Permutation in Hs as [k Hk]. rewrite Hk, fmap_app in Hn. by apply NoDup_app in Hn as [? _].
  - intros x Hx. apply Hr. by eapply elem_of_submseteq.
Qed.

Lemma closest_submseteq n l : closest n l ⊆+ l.
Proof. unfold closest. rewrite <- (sort_by_perm compare_distance l) at 2. apply sublist_submseteq, sublist_take. Qed.

Lemma omap_filter c s (Q : SpatialSearchResult → bool) :
  omap (λ '(id, data), if Q (result_from c id data) then Some (result_from c id data) else None)
    (iter_map s) = filter (λ x, Q x = true) (measured c s).
Proof.
  unfold measured. induction (iter_map s) as [|[id data] l IH]; [done|].
  rewrite fmap_cons, filter_cons. cbn [omap list_omap]. destruct (Q (result_from c id data)) eqn:HQ.
  - rewrite decide_True by done. by f_equal.
  - by rewrite decide_False by done.
Qed.

Lemma filter_reports c s n (Q : SpatialSearchResult → bool) :
  reports c s (closest n (filter (λ x, Q x = true) (measured c s))).
Proof.
  eapply reports_incl; [apply measured_reports|]. etrans; [apply closest_submseteq|].
  apply sublist_submseteq, sublist_filter.
Qed.

Definition nearer := smaller sr_distance_km.

Lemma closest_top n (l : list SpatialSearchResult) :
  numbers sr_distance_km l → top_k nearer n l (closest n l).
Proof. intros Hn. apply take_sorted; [apply sort_by_perm|]. by apply (sort_ascending sr_distance_km). Qed.

(** A radius search answers with the nearest of the entities whose distance is at most the
    radius, nearest first, as many as asked for: no entity within the radius that is left out
    is nearer than one in the answer.  (An entity at a distance that is not a number is never
    within it.)  The two other searches do the same for a box and for all entities, provided
    every distance is a number; whatever the distances, an answer reports stored entities,
    each at most once, with their own data and distance. *)
Theorem spatial_search_exact c (radius : f64) (bounds : BoundingBox) (n : nat) s :
  (∃ r, search_radius c radius n s = Ok r ∧ reports c s r ∧
     top_k nearer n (filter (λ x, f64_leb (sr_distance_km x) radius = true) (measured c s)) r) ∧
  (∃ r, nearest c n s = Ok r ∧ reports c s r ∧
     (numbers sr_distance_km (measured c s) → top_k nearer n (measured c s) r)) ∧
  (let center := box_center bounds in
   ∃ r, search_within bounds n s = Ok r ∧ reports center s r ∧
     let inside := filter (λ x, within bounds (sd_coordinates (sr_data x)) = true) (measured center s) in
     (numbers sr_distance_km inside → top_k nearer n inside r)).
Proof.
  split_and!.
  - set (Q x := f64_leb (sr_distance_km x) radius).
    exists (closest n (filter (λ x, Q x = true) (measured c s))).
    split; [unfold search_radius; do 2 f_equal; apply (omap_filter c s Q)|].
    split; [apply filter_reports|]. apply closest_top, Forall_forall.
    intros x [Hx _]%list_elem_of_filter. by apply leb_not_nan in Hx as [? _].
  - eexists. split; [reflexivity|]. split; [|apply closest_top].
    eapply reports_incl; [apply measured_reports|apply closest_submseteq].
  - cbn zeta. set (Q x := within bounds (sd_coordinates (sr_data x))).
    exists (closest n (filter (λ x, Q x = true) (measured (box_center bounds) s))).
    split; [unfold search_within; do 2 f_equal; apply (omap_filter _ s Q)|].
    split; [apply filter_reports|]. apply closest_top.
Qed.

End search.
