(* ===== verification/BinaryHeap.v ===== *)
(** * A binary heap

    The standard library's [BinaryHeap], which the searches of the vector index keep their
    candidates in: a vector in which every element is at most its parent.  The order is a
    parameter [le]; that of [Reverse] is its converse. *)

From S2P Require Import Prelude.

Section heap.
Context {A : Type} (le : A → A → bool).
Implicit Types (h : list A) (x y z : A) (i j k pos : nat).

(** ** The operations *)

(** The elements at [i] and [j] exchanged. *)
Definition swap (i j : nat) (h : list A) : list A :=
  match h !! i, h !! j with
  | Some x, Some y => <[j := x]> (<[i := y]> h)
  | _, _ => h
  end.

Definition parent (i : nat) : nat := (i - 1) / 2.

(** The element at [pos] moves up while it is greater than its parent. *)
Fixpoint sift_up (fuel pos : nat) (h : list A) : list A :=
  match fuel with
  | O => h
  | S fuel =>
    if decide (pos = 0) then h else
    match h !! pos, h !! parent pos with
    | Some x, Some y => if le x y then h else sift_up fuel (parent pos) (swap pos (parent pos) h)
    | _, _ => h
    end
  end.

Definition heap_push (x : A) (h : list A) : list A := sift_up (length h) (length h) (h ++ [x]).

(** The child that moves up when the element at [pos] moves down: of two children the greater,
    of equal ones the second. *)
Definition greater_child (pos : nat) (h : list A) : option nat :=
  match h !! (2 * pos + 1), h !! (2 * pos + 2) with
  | Some x, Some y => Some (if le x y then 2 * pos + 2 else 2 * pos + 1)
  | Some _, None => Some (2 * pos + 1)
  | _, _ => None
  end.

(** The element at [pos] moves down to the bottom, and from there up again. *)
Fixpoint sift_down (fuel pos : nat) (h : list A) : list A :=
  match fuel with
  | O => h
  | S fuel =>
    match greater_child pos h with
    | Some child => sift_down fuel child (swap pos child h)
    | None => sift_up pos pos h
    end
  end.

Definition sift_down_to_bottom (h : list A) : list A := sift_down (length h) 0 h.

Definition heap_pop (h : list A) : option (A * list A) :=
  match h with
  | [] => None
  | x :: h' =>
    match last h' with
    | None => Some (x, [])
    | Some y => Some (x, sift_down_to_bottom (y :: removelast h'))
    end
  end.

Definition heap_peek (h : list A) : option A := head h.

(** ** Exchanging *)

Lemma insert_perm i x y h : h !! i = Some x → <[i := y]> h ≡ₚ y :: delete i h.
Proof.
  intros Hi%lookup_lt_Some. rewrite insert_take_drop by done. rewrite delete_take_drop. solve_Permutation.
Qed.

Lemma swap_perm i j h : swap i j h ≡ₚ h.
Proof.
  unfold swap. destruct (h !! i) as [x|] eqn:Hi; [|done]. destruct (h !! j) as [y|] eqn:Hj; [|done].
  destruct (decide (i = j)) as [->|Hij].
  { rewrite list_insert_insert_eq. rewrite Hi in Hj. injection Hj as ->. by rewrite list_insert_id. }
  assert (<[i := y]> h !! j = Some y) as Hj' by by rewrite list_lookup_insert_ne.
  rewrite (insert_perm j y x) by done. etrans; [|symmetry; exact (delete_Permutation h i x Hi)].
  apply perm_skip, (Permutation_cons_inv (a := y)).
  etrans; [symmetry; exact (delete_Permutation _ j y Hj')|]. by apply insert_perm with x.
Qed.

Lemma length_swap i j h : length (swap i j h) = length h.
Proof. by rewrite swap_perm. Qed.

(** What [swap] leaves at each position. *)
Lemma lookup_swap i j k x y h :
  h !! i = Some x → h !! j = Some y →
  swap i j h !! k = if decide (k = j) then Some x else if decide (k = i) then Some y else h !! k.
Proof.
  intros Hi Hj. unfold swap. rewrite Hi, Hj.
  pose proof (lookup_lt_Some _ _ _ Hi). pose proof (lookup_lt_Some _ _ _ Hj).
  case_decide as H1; [subst; apply list_lookup_insert_eq; by rewrite length_insert|].
  rewrite list_lookup_insert_ne by done. case_decide as H2; [subst; by apply list_lookup_insert_eq|].
  by apply list_lookup_insert_ne.
Qed.

Lemma sift_up_perm fuel pos h : sift_up fuel pos h ≡ₚ h.
Proof.
  revert pos h. induction fuel as [|fuel IH]; intros pos h; cbn [sift_up]; [done|]. case_decide; [done|].
  destruct (h !! pos); [|done]. destruct (h !! parent pos); [|done]. destruct (le _ _); [done|].
  by rewrite IH, swap_perm.
Qed.

Lemma sift_down_perm fuel pos h : sift_down fuel pos h ≡ₚ h.
Proof.
  revert pos h. induction fuel as [|fuel IH]; intros pos h; cbn [sift_down]; [done|].
  destruct (greater_child pos h); [by rewrite IH, swap_perm|]. apply sift_up_perm.
Qed.

(** Whatever the order, a push adds its element and a pop removes the one it returns. *)
Lemma heap_push_perm x h : heap_push x h ≡ₚ x :: h.
Proof. unfold heap_push. rewrite sift_up_perm. solve_Permutation. Qed.

Lemma heap_pop_perm h x rest : heap_pop h = Some (x, rest) → h ≡ₚ x :: rest.
Proof.
  unfold heap_pop. destruct h as [|x' h]; [done|]. destruct (last h) as [y|] eqn:Hl.
  - intros [= -> <-]. f_equiv. unfold sift_down_to_bottom. rewrite sift_down_perm. apply last_Some in Hl as [l ->].
    rewrite removelast_last. solve_Permutation.
  - intros [= -> <-]. apply last_None in Hl as ->. done.
Qed.

Lemma heap_pop_None h : heap_pop h = None ↔ h = [].
Proof. unfold heap_pop. destruct h as [|x h]; [done|]. by destruct (last h). Qed.

(** ** The order

    [le] is total and transitive on the elements that satisfy [P]. *)

Context (P : A → Prop).
Context (le_total : ∀ x y, P x → P y → le x y = true ∨ le y x = true).
Context (le_trans : ∀ x y z, P x → P y → P z → le x y = true → le y z = true → le x z = true).

Lemma parent_lt i : 0 < i → parent i < i.
Proof. intros Hi. unfold parent. pose proof (Nat.Div0.div_le_upper_bound (i - 1) 2 (i - 1)). lia. Qed.

Lemma parent_children i pos : 0 < i → parent i = pos ↔ i = 2 * pos + 1 ∨ i = 2 * pos + 2.
Proof.
  intros Hi. unfold parent. pose proof (Nat.div_mod_eq (i - 1) 2). 
  pose proof (Nat.mod_upper_bound (i - 1) 2). lia.
Qed.

(** The element at [i] is at most its parent. *)
Definition below_parent h i : Prop :=
  ∀ x y, h !! i = Some x → h !! parent i = Some y → le x y = true.

Definition heap h : Prop := ∀ i, 0 < i → below_parent h i.

(** The children of [pos] are at most the parent of [pos]. *)
Definition skips h pos : Prop :=
  ∀ i x y, 0 < i → parent i = pos → 0 < pos → h !! i = Some x → h !! parent pos = Some y → le x y = true.

(** A heap but for the element at [pos] and its parent. *)
Definition heap_above h pos : Prop := (∀ i, 0 < i → i ≠ pos → below_parent h i) ∧ skips h pos.

(** A heap but for the element at [pos] with its parent and its children. *)
Definition heap_around h pos : Prop :=
  (∀ i, 0 < i → i ≠ pos → parent i ≠ pos → below_parent h i) ∧ skips h pos.

Lemma lookup_P h i x : Forall P h → h !! i = Some x → P x.
Proof. intros Hh Hi. eapply Forall_lookup_1; eauto. Qed.

Lemma sift_up_heap fuel pos h :
  Forall P h → heap_above h pos → pos ≤ fuel → heap (sift_up fuel pos h).
Proof.
  revert pos h. induction fuel as [|fuel IH]; intros pos h HP [Hab Hsk] Hf; cbn [sift_up].
  { intros i Hi. apply Hab; lia. }
  case_decide as H0; [intros i Hi; apply Hab; lia|].
  destruct (h !! pos) as [x|] eqn:Hx; cycle 1.
  { intros i Hi x y Hix. destruct (decide (i = pos)); [by simplify_eq|]. by apply Hab. }
  pose proof (parent_lt pos ltac:(lia)) as Hlt.
  destruct (lookup_lt_is_Some_2 h (parent pos)) as [y Hy]; [apply lookup_lt_Some in Hx; lia|]. rewrite Hy.
  destruct (le x y) eqn:Hle.
  { intros i Hi. destruct (decide (i = pos)) as [->|]; [|by apply Hab]. intros x' y' ??. by simplify_eq. }
  assert (le y x = true) as Hyx.
  { destruct (le_total x y); eauto using lookup_P. congruence. }
  apply IH; [by rewrite swap_perm| |lia].
  assert (∀ i z, 0 < i → i ≠ pos → parent i = parent pos → h !! i = Some z → le z y = true) as Hsib.
  { intros i z Hi Hne Hp Hz. apply (Hab i Hi Hne z y Hz). by rewrite Hp. }
  split.
  - intros i Hi Hne u v. rewrite !(lookup_swap _ _ _ x y) by done.
    rewrite (decide_False (P := i = parent pos)) by done.
    case_decide as Hip; [subst i; rewrite decide_True by done; by intros [= <-] [= <-]|].
    intros Hu. case_decide as Hp; [|case_decide as Hp'].
    + intros [= <-]. apply (le_trans u y x); eauto using lookup_P.
    + intros [= <-]. by apply (Hsk i u y); try lia.
    + by apply Hab.
  - intros i u v Hi Hp Hpp. rewrite !(lookup_swap _ _ _ x y) by done.
    pose proof (parent_lt i Hi). pose proof (parent_lt (parent pos) Hpp).
    rewrite (decide_False (P := i = parent pos)) by lia.
    rewrite (decide_False (P := parent (parent pos) = parent pos)) by lia.
    rewrite (decide_False (P := parent (parent pos) = pos)) by lia. intros Hu Hv.
    assert (le y v = true) as Hyv by (apply (Hab (parent pos)); [done|lia|done..]).
    case_decide; [by simplify_eq|]. apply (le_trans u y v); eauto using lookup_P.
Qed.

Lemma greater_child_spec h pos child :
  Forall P h → greater_child pos h = Some child →
  parent child = pos ∧ 0 < child ∧ ∃ z, h !! child = Some z ∧
    ∀ i v, 0 < i → parent i = pos → h !! i = Some v → le v z = true.
Proof.
  intros HP. unfold greater_child.
  assert (∀ i v z, h !! i = Some v → h !! i = Some z → le v z = true) as Hrefl.
  { intros i v z Hv Hz. simplify_eq. destruct (le_total v v); eauto using lookup_P. }
  destruct (h !! (2 * pos + 1)) as [x|] eqn:Hx; [|done]. 
  destruct (h !! (2 * pos + 2)) as [y|] eqn:Hy; intros [= <-].
  - destruct (le x y) eqn:Hle; (split; [apply parent_children; lia|]); (split; [lia|]);
      eexists; (split; [eassumption|]); intros i v Hi [->| ->]%parent_children Hv; try done; eauto.
    + by simplify_eq.
    + destruct (le_total x y); eauto using lookup_P; [congruence|]. by simplify_eq.
  - split; [apply parent_children; lia|]. split; [lia|]. exists x. split; [done|].
    intros i v Hi [->| ->]%parent_children Hv; try done; eauto. congruence.
Qed.

Lemma sift_down_heap fuel pos h :
  Forall P h → heap_around h pos → length h ≤ fuel + pos → heap (sift_down fuel pos h).
Proof.
  revert pos h. induction fuel as [|fuel IH]; intros pos h HP [Har Hsk] Hf; cbn [sift_down].
  { intros i Hi x y Hx Hy. apply lookup_lt_Some in Hx as Hxl. apply (Har i); try done; [lia|].
    pose proof (parent_lt i Hi). lia. }
  destruct (greater_child pos h) as [c|] eqn:Hc.
  - apply greater_child_spec in Hc as (Hpc & Hc0 & z & Hz & Hmax); [|done].
    pose proof (parent_lt c Hc0) as Hlt. rewrite Hpc in Hlt.
    destruct (lookup_lt_is_Some_2 h pos) as [x Hx]; [apply lookup_lt_Some in Hz; lia|].
    apply IH; [by rewrite swap_perm| |rewrite length_swap; lia]. split.
    + intros i Hi Hne Hpne u v. rewrite !(lookup_swap _ _ _ x z) by done.
      rewrite (decide_False (P := i = c)), (decide_False (P := parent i = c)) by done.
      pose proof (parent_lt i Hi). case_decide as Hip.
      * subst i. rewrite decide_False by lia. intros [= <-] Hv. by apply (Hsk c).
      * intros Hu. case_decide; [|by apply Har]. intros [= <-]. eauto.
    + intros i u v Hi Hp _. rewrite Hpc, !(lookup_swap _ _ _ x z) by done. pose proof (parent_lt i Hi).
      rewrite !(decide_False (P := i = _)), (decide_False (P := pos = c)), decide_True by (done || lia).
      intros Hu [= <-]. apply (Har i); try done; [lia..|by rewrite Hp].
  - apply sift_up_heap; [done| |done]. split; [|done]. intros i Hi Hne x y Hx Hy.
    assert (h !! (2 * pos + 1) = None) as Hno.
    { unfold greater_child in Hc. by destruct (h !! (2 * pos + 1)), (h !! (2 * pos + 2)). }
    apply (Har i); try done. intros [->| ->]%parent_children; [congruence| |done].
    apply lookup_lt_Some in Hx. apply lookup_ge_None in Hno. lia.
Qed.

Lemma heap_push_heap x h : Forall P h → P x → heap h → heap (heap_push x h).
Proof.
  intros HP Hx Hh. apply sift_up_heap; [|split|done].
  - apply Forall_app. by repeat constructor.
  - intros i Hi Hne u v Hu. pose proof (parent_lt i Hi). apply lookup_lt_Some in Hu as Hl.
    rewrite length_app in Hl. cbn in Hl. rewrite lookup_app_l in Hu by lia.
    rewrite lookup_app_l by lia. by apply Hh.
  - intros i u v Hi Hp _ Hu. pose proof (parent_lt i Hi). apply lookup_lt_Some in Hu.
    rewrite length_app in Hu. cbn in Hu. lia.
Qed.

Lemma heap_pop_heap h x rest : Forall P h → heap h → heap_pop h = Some (x, rest) → heap rest.
Proof.
  intros HP Hh. unfold heap_pop. destruct h as [|x' l]; [done|]. destruct (last l) as [y|] eqn:Hl.
  - intros [= -> <-]. apply last_Some in Hl as [l' ->]. rewrite removelast_last.
    apply Forall_cons in HP as [_ HP]. apply sift_down_heap.
    + by rewrite Permutation_cons_append.
    + assert (∀ j v, j ≠ 0 → (y :: l') !! j = Some v → (x :: l' ++ [y]) !! j = Some v) as Hkeep.
      { intros [|j] v ? Hj; [done|]. by apply (lookup_app_l_Some l' [y] j v). }
      split; [|by intros i u v _ _ H; lia]. intros i Hi Hne Hpne u v Hu Hv. by apply (Hh i Hi); apply Hkeep.
    + lia.
  - intros [= -> <-]. intros i _ u v. by rewrite lookup_nil.
Qed.

(** The first element of a heap is a greatest one. *)
Lemma heap_peek_max h x y : Forall P h → heap h → heap_peek h = Some x → y ∈ h → le y x = true.
Proof.
  intros HP Hh Hx [i Hi]%list_elem_of_lookup. revert y Hi. unfold heap_peek in Hx. rewrite head_lookup in Hx.
  induction (lt_wf i) as [i _ IH]. intros y Hy. destruct (decide (i = 0)) as [->|Hne].
  { simplify_eq. destruct (le_total x x); eauto using lookup_P. }
  pose proof (parent_lt i ltac:(lia)) as Hlt.
  destruct (lookup_lt_is_Some_2 h (parent i)) as [z Hz]; [apply lookup_lt_Some in Hy; lia|].
  apply (le_trans y z x); eauto using lookup_P. apply (Hh i); [lia|done..].
Qed.

Lemma heap_pop_max h x rest y :
  Forall P h → heap h → heap_pop h = Some (x, rest) → y ∈ rest → le y x = true.
Proof.
  intros HP Hh Hpop Hy. apply heap_pop_perm in Hpop as Hperm.
  apply (heap_peek_max h); [done..| |].
  - unfold heap_pop in Hpop. destruct h; [done|]. by destruct (last h); simplify_eq.
  - rewrite Hperm. by right.
Qed.

Lemma heap_nil : heap [].
Proof. intros i _ x y. by rewrite lookup_nil. Qed.

End heap.
