(* ===== verification/Hnsw.v ===== *)
(** * The vector index

    Models [src/rust-core/verisim-vector/src/hnsw.rs]: the layered graph of embeddings, its
    search and its growth, and the store around it.  A node is known by its position in the
    vector of nodes; an access out of range panics, which is [None] here.  The random level of
    a new node comes from the hash of its id with the value of a counter that the process
    shares: the counter is an argument, the hash and the logarithm are parameters. *)

From S2P Require Import Prelude Floats Modality VectorSearch BinaryHeap.
From Stdlib Require Import SpecFloat.

(** [DefaultHasher] over a string and a [u64], whose algorithm is not specified, and
    [f64::ln], whose precision is not. *)
Class DefaultHasher := { hash_of : string → Z → Z }.
Class Ln := { f64_ln : f64 → f64 }.

Definition MAX_LEVELS : nat := 16.

(** ** Distances in the heaps *)

(** [(Dist, usize)], by distance and then by position; what is not a number is equal to
    everything. *)
Abbreviation entry := (f32 * nat)%type.

Definition entry_cmp (a b : entry) : comparison :=
  then_with (float_cmp a.1 b.1) (Nat.compare a.2 b.2).

Definition entry_le (a b : entry) : bool := match entry_cmp a b with Gt => false | _ => true end.

(** [Reverse]: the greatest is the closest. *)
Definition entry_ge (a b : entry) : bool := entry_le b a.

(** ** The graph *)

Record HnswConfig := {
  max_connections : nat; max_connections_layer0 : nat; ef_construction : nat; ef_search : nat;
}.

Definition HnswConfig_default : HnswConfig :=
  {| max_connections := 16; max_connections_layer0 := 32; ef_construction := 200; ef_search := 64 |}.

Record Node := {
  nd_id : string; nd_vector : list f32; nd_metadata : gmap string string;
  nd_neighbors : list (list nat); nd_level : nat; nd_deleted : bool;
}.

Record HnswGraph := {
  hg_nodes : list Node; hg_id_map : gmap string nat; hg_entry_point : option nat;
  hg_current_max_level : nat;
}.

Definition HnswGraph_new : HnswGraph :=
  {| hg_nodes := []; hg_id_map := ∅; hg_entry_point := None; hg_current_max_level := 0 |}.

Definition set_nodes (nodes : list Node) (g : HnswGraph) : HnswGraph :=
  {| hg_nodes := nodes; hg_id_map := hg_id_map g; hg_entry_point := hg_entry_point g;
     hg_current_max_level := hg_current_max_level g |}.

(** A node with other links, revived with another embedding, and deleted. *)
Definition with_neighbors (ns : list (list nat)) (n : Node) : Node :=
  {| nd_id := nd_id n; nd_vector := nd_vector n; nd_metadata := nd_metadata n; nd_neighbors := ns;
     nd_level := nd_level n; nd_deleted := nd_deleted n |}.

Definition with_embedding (vector : list f32) (metadata : gmap string string) (n : Node) : Node :=
  {| nd_id := nd_id n; nd_vector := vector; nd_metadata := metadata; nd_neighbors := nd_neighbors n;
     nd_level := nd_level n; nd_deleted := false |}.

Definition with_deleted (n : Node) : Node :=
  {| nd_id := nd_id n; nd_vector := nd_vector n; nd_metadata := nd_metadata n;
     nd_neighbors := nd_neighbors n; nd_level := nd_level n; nd_deleted := true |}.

(** ** Distances and levels *)

Section hnsw.
Context {PW : Powi32} {DH : DefaultHasher} {LN : Ln}.

Definition distance (metric : DistanceMetric) (a b : list f32) : f32 :=
  match metric with
  | Cosine =>
    let '(d, norm_a, norm_b) :=
      foldl (λ '(d, na, nb) '(x, y),
               (f32_add d (f32_mul x y), f32_add na (f32_mul x x), f32_add nb (f32_mul y y)))
        (f32_of_Z 0, f32_of_Z 0, f32_of_Z 0) (zip a b) in
    let denom := f32_mul (f32_sqrt norm_a) (f32_sqrt norm_b) in
    if is_positive denom then f32_sub (f32_of_Z 1) (f32_div d denom) else f32_of_Z 1
  | Euclidean => f32_sqrt (squared_distance a b)
  | DotProduct => f32_neg (dot a b)
  end.

Definition distance_to_score (metric : DistanceMetric) (d : f32) : f32 :=
  match metric with
  | Cosine => f32_sub (f32_of_Z 1) d
  | Euclidean => f32_div (f32_of_Z 1) (f32_add (f32_of_Z 1) d)
  | DotProduct => f32_neg d
  end.

(** [f64::floor] *)
Definition f64_floor (x : f64) : f64 :=
  match x with
  | S754_finite s m e => binary_normalize 53 1024 (Z.shiftl (if s then Zneg m else Zpos m) e) 0 s
  | _ => x
  end.

Definition assign_level (id : string) (count : Z) (max_connections : nat) : nat :=
  let hash := hash_of id count in
  let uniform := f64_div (f64_add (f64_of_Z (Z.shiftr hash 11)) (f64_of_Z 1))
                         (f64_add (f64_of_Z (2 ^ 53)) (f64_of_Z 1)) in
  let ml := f64_div (f64_of_Z 1) (f64_ln (f64_of_Z (Z.of_nat max_connections))) in
  let level := f64_as_u64 (f64_floor (f64_mul (SFopp (f64_ln uniform)) ml)) in
  Z.to_nat (Z.min level (Z.of_nat MAX_LEVELS - 1)).

(** ** Searching a layer *)

Record Beam := { visited : gset nat; candidates : list entry; results : list entry }.

Definition furthest_dist (results : list entry) : f32 :=
  match heap_peek results with Some (d, _) => d | None => f32_max_value end.

(** An entry point: a candidate, and a result unless it is deleted. *)
Definition enter (g : HnswGraph) (query : list f32) (metric : DistanceMetric) (b : Beam) (ep : nat) : Beam :=
  match hg_nodes g !! ep with
  | None => b
  | Some n =>
    let dist := distance metric query (nd_vector n) in
    {| visited := {[ep]} ∪ visited b; candidates := heap_push entry_ge (dist, ep) (candidates b);
       results := if nd_deleted n then results b else heap_push entry_le (dist, ep) (results b) |}
  end.

(** A result enters when it is closer than the furthest, or there is room. *)
Definition keep (ef : nat) (x : entry) (results : list entry) : list entry :=
  if f64_ltb x.1 (furthest_dist results) || (length results <? ef) then
    let results := heap_push entry_le x results in
    if ef <? length results then match heap_pop entry_le results with Some (_, rest) => rest | None => [] end
    else results
  else results.

(** A neighbor of the node that is expanded. *)
Definition visit (g : HnswGraph) (query : list f32) (ef : nat) (metric : DistanceMetric) (b : Beam)
    (i : nat) : Beam :=
  match hg_nodes g !! i with
  | None => b
  | Some n =>
    if decide (i ∈ visited b) then b else
    let dist := distance metric query (nd_vector n) in
    {| visited := {[i]} ∪ visited b; candidates := heap_push entry_ge (dist, i) (candidates b);
       results := if nd_deleted n then results b else keep ef (dist, i) (results b) |}
  end.

(** The links of a node on a layer. *)
Definition links (layer : nat) (n : Node) : list nat := default [] (nd_neighbors n !! layer).

(** The loop over the candidates, closest first. *)
Fixpoint explore (fuel : nat) (g : HnswGraph) (query : list f32) (ef layer : nat)
    (metric : DistanceMetric) (b : Beam) : option Beam :=
  match fuel with
  | O => None
  | S fuel =>
    match heap_pop entry_ge (candidates b) with
    | None => Some b
    | Some ((c_dist, c_idx), rest) =>
      let b := {| visited := visited b; candidates := rest; results := results b |} in
      if f64_ltb (furthest_dist (results b)) c_dist && (ef <=? length (results b)) then Some b
      else
        n ← hg_nodes g !! c_idx;
        explore fuel g query ef layer metric (foldl (visit g query ef metric) b (links layer n))
    end
  end.

Definition compare_dist (a b : entry) : comparison := float_cmp a.1 b.1.

Definition start (g : HnswGraph) (query : list f32) (metric : DistanceMetric) (entry_points : list nat) : Beam :=
  foldl (enter g query metric) {| visited := ∅; candidates := []; results := [] |} entry_points.

(** A candidate is an entry point or a node seen for the first time. *)
Definition search_fuel (g : HnswGraph) (entry_points : list nat) : nat :=
  S (length entry_points + length (hg_nodes g)).

Definition search_layer (g : HnswGraph) (query : list f32) (entry_points : list nat) (ef layer : nat)
    (metric : DistanceMetric) : option (list entry) :=
  b ← explore (search_fuel g entry_points) g query ef layer metric (start g query metric entry_points);
  Some (sort_by compare_dist (results b)).

Definition select_neighbors (candidates : list entry) (m : nat) : list nat := snd <$> take m candidates.

(** The greedy descent: on each layer, to the closest node found from the last one. *)
Fixpoint descend (g : HnswGraph) (query : list f32) (metric : DistanceMetric) (layers : list nat)
    (current_ep : list nat) : option (list nat) :=
  match layers with
  | [] => Some current_ep
  | l :: layers =>
    nearest ← search_layer g query current_ep 1 l metric;
    descend g query metric layers (match nearest with [] => current_ep | (_, idx) :: _ => [idx] end)
  end.

(** The layers from [top] down to [bottom]. *)
Definition layers_down (top bottom : nat) : list nat := reverse (seq bottom (S top - bottom)).

Definition graph_search (query : list f32) (k ef : nat) (metric : DistanceMetric) (g : HnswGraph)
    : option (list entry) :=
  match hg_entry_point g with
  | None => Some []
  | Some ep =>
    current_ep ← descend g query metric (layers_down (hg_current_max_level g) 1) [ep];
    found ← search_layer g query current_ep (Nat.max ef k) 0 metric;
    Some (take k found)
  end.

(** ** Inserting *)

(** [while neighbors.len() <= l { push(Vec::new()) }] *)
Definition grown (l : nat) (ns : list (list nat)) : list (list nat) := ns ++ replicate (S l - length ns) [].

Definition score_link (g : HnswGraph) (metric : DistanceMetric) (vector : list f32) (i : nat) : option entry :=
  n ← hg_nodes g !! i; Some (distance metric vector (nd_vector n), i).

(** The closest [max_conn] of the links of a node. *)
Definition prune (g : HnswGraph) (metric : DistanceMetric) (max_conn : nat) (vector : list f32)
    (ns : list nat) : option (list nat) :=
  scored ← mapM (score_link g metric vector) ns;
  Some (snd <$> take max_conn (sort_by compare_dist scored)).

(** The link from the new node to a neighbor. *)
Definition link_forward (node_idx l neighbor_idx : nat) (g : HnswGraph) : option HnswGraph :=
  n ← hg_nodes g !! node_idx;
  Some match nd_neighbors n !! l with
       | None => g
       | Some ns =>
         set_nodes (<[node_idx := with_neighbors (<[l := ns ++ [neighbor_idx]]> (nd_neighbors n)) n]>
                      (hg_nodes g)) g
       end.

(** The link back, and what it leaves of the neighbor's links. *)
Definition link_back (node_idx l max_conn : nat) (metric : DistanceMetric) (neighbor_idx : nat)
    (g : HnswGraph) : option HnswGraph :=
  n ← hg_nodes g !! neighbor_idx;
  let ns := grown l (nd_neighbors n) in
  let linked := default [] (ns !! l) ++ [node_idx] in
  let g := set_nodes (<[neighbor_idx := with_neighbors (<[l := linked]> ns) n]> (hg_nodes g)) g in
  kept ← (if max_conn <? length linked then prune g metric max_conn (nd_vector n) linked else Some linked);
  Some (set_nodes (<[neighbor_idx := with_neighbors (<[l := kept]> ns) n]> (hg_nodes g)) g).

Definition connect (node_idx l max_conn : nat) (metric : DistanceMetric) (neighbor_idx : nat)
    (g : HnswGraph) : option HnswGraph :=
  g ← link_forward node_idx l neighbor_idx g;
  link_back node_idx l max_conn metric neighbor_idx g.

Fixpoint connect_all (node_idx l max_conn : nat) (metric : DistanceMetric) (selected : list nat)
    (g : HnswGraph) : option HnswGraph :=
  match selected with
  | [] => Some g
  | i :: selected =>
    g ← connect node_idx l max_conn metric i g; connect_all node_idx l max_conn metric selected g
  end.

Definition capacity (config : HnswConfig) (l : nat) : nat :=
  match l with O => max_connections_layer0 config | _ => max_connections config end.

(** The insertion on each layer. *)
Fixpoint insert_layers (config : HnswConfig) (metric : DistanceMetric) (ep node_idx : nat)
    (vector : list f32) (layers current_ep : list nat) (g : HnswGraph) : option HnswGraph :=
  match layers with
  | [] => Some g
  | l :: layers =>
    nearest ← search_layer g vector current_ep (ef_construction config) l metric;
    g ← connect_all node_idx l (capacity config l) metric
          (select_neighbors nearest (capacity config l)) g;
    let current_ep := match nearest with [] => [ep] | _ => snd <$> nearest end in
    insert_layers config metric ep node_idx vector layers current_ep g
  end.

Definition new_node (id : string) (vector : list f32) (metadata : gmap string string) (level : nat) : Node :=
  {| nd_id := id; nd_vector := vector; nd_metadata := metadata; nd_neighbors := replicate (S level) [];
     nd_level := level; nd_deleted := false |}.

Definition graph_insert (count : Z) (id : string) (vector : list f32) (metadata : gmap string string)
    (config : HnswConfig) (metric : DistanceMetric) (g : HnswGraph) : option HnswGraph :=
  match hg_id_map g !! id with
  | Some existing_idx =>
    n ← hg_nodes g !! existing_idx;
    Some (set_nodes (<[existing_idx := with_embedding vector metadata n]> (hg_nodes g)) g)
  | None =>
    let level := assign_level id count (max_connections config) in
    let node_idx := length (hg_nodes g) in
    let nodes := hg_nodes g ++ [new_node id vector metadata level] in
    let id_map := <[id := node_idx]> (hg_id_map g) in
    match hg_entry_point g with
    | None =>
      Some {| hg_nodes := nodes; hg_id_map := id_map; hg_entry_point := Some node_idx;
              hg_current_max_level := level |}
    | Some ep =>
      let top := hg_current_max_level g in
      let g := {| hg_nodes := nodes; hg_id_map := id_map; hg_entry_point := Some ep;
                  hg_current_max_level := top |} in
      current_ep ← descend g vector metric (layers_down top (S level)) [ep];
      g ← insert_layers config metric ep node_idx vector (layers_down (Nat.min level top) 0) current_ep g;
      Some (if top <? level
            then {| hg_nodes := hg_nodes g; hg_id_map := hg_id_map g; hg_entry_point := Some node_idx;
                    hg_current_max_level := level |}
            else g)
    end
  end.

(** ** The store *)

Record HnswVectorStore := {
  hn_config : HnswConfig; hn_dimension : nat; hn_metric : DistanceMetric; hn_graph : HnswGraph;
}.

Definition HnswVectorStore_new (dimension : nat) (metric : DistanceMetric) (config : HnswConfig)
    : HnswVectorStore :=
  {| hn_config := config; hn_dimension := dimension; hn_metric := metric; hn_graph := HnswGraph_new |}.

Definition with_defaults (dimension : nat) (metric : DistanceMetric) : HnswVectorStore :=
  HnswVectorStore_new dimension metric HnswConfig_default.

Definition set_graph (g : HnswGraph) (s : HnswVectorStore) : HnswVectorStore :=
  {| hn_config := hn_config s; hn_dimension := hn_dimension s; hn_metric := hn_metric s; hn_graph := g |}.

Definition hnsw_len (s : HnswVectorStore) : nat :=
  length (filter (λ n, nd_deleted n = false) (hg_nodes (hn_graph s))).

Definition hnsw_is_empty (s : HnswVectorStore) : bool := hnsw_len s =? 0.

(** [count] is what the counter of the process says; it is asked for new ids only. *)
Definition hnsw_upsert (count : Z) (e : Embedding) (s : HnswVectorStore)
    : option (result VectorError () * HnswVectorStore) :=
  if decide (length (emb_vector e) = hn_dimension s) then
    g ← graph_insert count (emb_id e) (emb_vector e) (emb_metadata e) (hn_config s) (hn_metric s) (hn_graph s);
    Some (Ok (), set_graph g s)
  else Some (Err (DimensionMismatch (hn_dimension s) (length (emb_vector e))), s).

Definition to_result (s : HnswVectorStore) (x : entry) : option SearchResult :=
  n ← hg_nodes (hn_graph s) !! x.2;
  Some {| re_id := nd_id n; re_score := distance_to_score (hn_metric s) x.1 |}.

Definition hnsw_search (query : list f32) (k : nat) (s : HnswVectorStore)
    : option (result VectorError (list SearchResult)) :=
  if decide (length query = hn_dimension s) then
    found ← graph_search query k (ef_search (hn_config s)) (hn_metric s) (hn_graph s);
    rs ← mapM (to_result s) found;
    Some (Ok rs)
  else Some (Err (DimensionMismatch (hn_dimension s) (length query))).

Definition hnsw_get (id : string) (s : HnswVectorStore) : option (result VectorError (option Embedding)) :=
  match hg_id_map (hn_graph s) !! id with
  | None => Some (Ok None)
  | Some idx =>
    n ← hg_nodes (hn_graph s) !! idx;
    Some (Ok (if nd_deleted n then None
              else Some {| emb_id := nd_id n; emb_vector := nd_vector n; emb_metadata := nd_metadata n |}))
  end.

Definition hnsw_delete (id : string) (s : HnswVectorStore) : option (result VectorError () * HnswVectorStore) :=
  match hg_id_map (hn_graph s) !! id with
  | None => Some (Ok (), s)
  | Some idx =>
    n ← hg_nodes (hn_graph s) !! idx;
    Some (Ok (), set_graph (set_nodes (<[idx := with_deleted n]> (hg_nodes (hn_graph s))) (hn_graph s)) s)
  end.

End hnsw.
