(* ===== verification/HnswSearch.v ===== *)
(** * What the search of a layer finds

    The search of a layer of the vector index returns on every graph.  It answers with live
    nodes that it reaches from its entry points, each once and with its own distance: all of
    them when its beam is wide enough, and otherwise a local optimum. *)

From S2P Require Import Prelude Floats Modality VectorSearch BinaryHeap Hnsw.

(** ** The order of the heaps *)

Definition is_number (x : entry) : Prop := f64_is_nan x.1 = false.

Lemma entry_cmp_opp (x y : entry) : is_number x → is_number y → entry_cmp y x = CompOpp (entry_cmp x y).
Proof.
  intros Hx Hy. unfold entry_cmp. rewrite (float_cmp_opp x.1 y.1) by done.
  rewrite (Nat.compare_antisym x.2 y.2). by destruct (float_cmp x.1 y.1).
Qed.

Lemma entry_le_total (x y : entry) :
  is_number x → is_number y → entry_le x y = true ∨ entry_le y x = true.
Proof.
  intros Hx Hy. unfold entry_le. rewrite (entry_cmp_opp x y) by done. destruct (entry_cmp x y); auto.
Qed.

Lemma entry_le_trans (x y z : entry) :
  is_number x → is_number y → is_number z →
  entry_le x y = true → entry_le y z = true → entry_le x z = true.
Proof.
  intros Hx Hy Hz. unfold entry_le, entry_cmp.
  pose proof (float_cmp_trans x.1 y.1 z.1 Hx Hy Hz) as Ht.
  destruct (Nat.compare_spec x.2 y.2), (Nat.compare_spec y.2 z.2), (Nat.compare_spec x.2 z.2); try lia;
    destruct (float_cmp x.1 y.1), (float_cmp y.1 z.1); cbn in *; try done; by rewrite Ht.
Qed.

Lemma entry_ge_total (x y : entry) :
  is_number x → is_number y → entry_ge x y = true ∨ entry_ge y x = true.
Proof. intros Hx Hy. by apply entry_le_total. Qed.

Lemma entry_ge_trans (x y z : entry) :
  is_number x → is_number y → is_number z →
  entry_ge x y = true → entry_ge y z = true → entry_ge x z = true.
Proof. intros Hx Hy Hz Hxy Hyz. by apply (entry_le_trans z y x). Qed.

Lemma entry_le_leb (x y : entry) :
  is_number x → is_number y → entry_le x y = true → f64_leb x.1 y.1 = true.
Proof.
  intros Hx Hy. unfold entry_le, entry_cmp. rewrite leb_iff by done. by destruct (float_cmp x.1 y.1).
Qed.

(** ** The results that are kept *)

Lemma keep_perm (ef : nat) (x : entry) (rs : list entry) :
  ∃ dropped, x :: rs ≡ₚ dropped ++ keep ef x rs ∧
    (dropped = [] ∧ length (keep ef x rs) ≤ ef ∨ length dropped = 1 ∧ ef ≤ length (keep ef x rs)).
Proof.
  unfold keep. destruct (f64_ltb x.1 (furthest_dist rs) || (length rs <? ef)) eqn:Hin; cycle 1.
  { exists [x]. split; [done|]. right. split; [done|]. apply orb_false_iff in Hin as [_ ?%Nat.ltb_ge]. done. }
  pose proof (heap_push_perm entry_le x rs) as Hp.
  destruct (ef <? length (heap_push entry_le x rs)) eqn:Hfull.
  - apply Nat.ltb_lt in Hfull. destruct (heap_pop entry_le _) as [[y rest]|] eqn:Hpop.
    + apply heap_pop_perm in Hpop. exists [y]. split; [by rewrite <- Hp, Hpop|]. right. split; [done|].
      rewrite Hpop in Hfull. cbn in Hfull. lia.
    + apply heap_pop_None in Hpop. rewrite Hpop in Hp. by apply Permutation_nil_cons in Hp.
  - apply Nat.ltb_ge in Hfull. exists []. split; [by rewrite Hp|]. by left.
Qed.

Lemma furthest_max (rs : list entry) (x : entry) :
  Forall is_number rs → heap entry_le rs → x ∈ rs → f64_leb x.1 (furthest_dist rs) = true.
Proof.
  intros Hn Hh Hx. unfold furthest_dist. destruct (heap_peek rs) as [[d i]|] eqn:Hp; cycle 1.
  { unfold heap_peek in Hp. apply head_None in Hp. subst. by apply not_elem_of_nil in Hx. }
  assert ((d, i) ∈ rs) as Hin by (apply list_elem_of_lookup; exists 0; by rewrite <- head_lookup).
  assert (entry_le x (d, i) = true) as Hle
    by by apply (heap_peek_max entry_le is_number entry_le_total entry_le_trans rs).
  rewrite Forall_forall in Hn. by apply (entry_le_leb x (d, i)); try apply Hn.
Qed.

(** What is dropped is at least as far as everything that stays. *)
Lemma keep_ordered (ef : nat) (x : entry) (rs : list entry) :
  Forall is_number (x :: rs) → heap entry_le rs → length rs ≤ ef →
  heap entry_le (keep ef x rs) ∧ length (keep ef x rs) ≤ ef ∧
  (∀ y, y ∈ x :: rs → y ∈ keep ef x rs ∨
    ef ≤ length (keep ef x rs) ∧ ∀ z, z ∈ keep ef x rs → f64_leb z.1 y.1 = true) ∧
  (∀ d, ef ≤ length rs → (∀ z, z ∈ rs → f64_leb z.1 d = true) →
    ∀ z, z ∈ keep ef x rs → f64_leb z.1 d = true).
Proof.
  intros Hn Hh Hl. pose proof Hn as [Hx Hrs]%Forall_cons. rewrite Forall_forall in Hn.
  unfold keep. destruct (f64_ltb x.1 (furthest_dist rs) || (length rs <? ef)) eqn:Hin; cycle 1.
  { split; [done|]. split; [done|]. apply orb_false_iff in Hin as [Hlt Hef%Nat.ltb_ge].
    split; [|by auto]. intros y [->|]%elem_of_cons; [right|by left]. split; [done|]. intros z Hz.
    pose proof (furthest_max rs z Hrs Hh Hz) as Hf. destruct (leb_not_nan _ _ Hf) as [Hzn Hfn].
    apply (leb_trans _ (furthest_dist rs)); try done. apply leb_iff; [done..|]. intros Hgt.
    rewrite (float_cmp_opp x.1), CompOpp_iff in Hgt by done.
    apply f64_ltb_cmp in Hgt; [congruence|done..]. }
  assert (heap entry_le (heap_push entry_le x rs)) as Hh'
    by by apply (heap_push_heap entry_le is_number entry_le_total entry_le_trans).
  pose proof (heap_push_perm entry_le x rs) as Hp.
  destruct (ef <? length (heap_push entry_le x rs)) eqn:Hfull.
  - apply Nat.ltb_lt in Hfull. destruct (heap_pop entry_le _) as [[y rest]|] eqn:Hpop.
    + assert (Forall is_number (heap_push entry_le x rs)) as Hn' by by rewrite Hp; apply Forall_forall.
      assert (heap entry_le rest) as Hr
        by by apply (heap_pop_heap entry_le is_number entry_le_total entry_le_trans (heap_push entry_le x rs) y).
      assert (∀ z, z ∈ rest → entry_le z y = true) as Hmax
        by (intros z Hz; by apply (heap_pop_max entry_le is_number entry_le_total entry_le_trans (heap_push entry_le x rs) y rest z)).
      apply heap_pop_perm in Hpop. rewrite Hpop in Hfull, Hp. cbn in Hfull.
      split; [done|]. apply Permutation_length in Hp as Hlen. cbn in Hlen. split; [lia|].
      assert (∀ z, z ∈ rest → f64_leb z.1 y.1 = true) as Hle.
      { intros z Hz. apply entry_le_leb; [| |by apply Hmax]; apply Hn; rewrite <- Hp; set_solver. }
      split.
      * intros w. rewrite <- Hp, elem_of_cons. intros [->|?]; [right|by left]. by split; [lia|].
      * intros d _ Hd z Hz. assert (y ∈ x :: rs) as [->|Hy]%elem_of_cons by (rewrite <- Hp; by left).
        { apply Hd. apply (Permutation_cons_inv (a := x)) in Hp. by rewrite <- Hp. }
        destruct (leb_not_nan _ _ (Hle z Hz)). destruct (leb_not_nan _ _ (Hd y Hy)).
        apply (leb_trans _ y.1); auto.
    + apply heap_pop_None in Hpop. rewrite Hpop in Hp. by apply Permutation_nil_cons in Hp.
  - apply Nat.ltb_ge in Hfull. split; [done|]. split; [done|]. split.
    + intros y Hy. left. by rewrite Hp.
    + intros d Hef. rewrite Hp in Hfull. cbn in Hfull. lia.
Qed.

(** ** The beam *)

Definition valid (g : HnswGraph) (i : nat) : Prop := is_Some (hg_nodes g !! i).
Definition live (g : HnswGraph) (i : nat) : Prop := ∃ n, hg_nodes g !! i = Some n ∧ nd_deleted n = false.

Definition links_of (g : HnswGraph) (l i : nat) : list nat :=
  match hg_nodes g !! i with Some n => links l n | None => [] end.

Section beam.
Context {PW : Powi32}.
Context (g : HnswGraph) (query : list f32) (ef layer : nat) (metric : DistanceMetric).
Implicit Types (b : Beam) (i j : nat) (x y : entry).

Definition dist_to i : f32 :=
  match hg_nodes g !! i with Some n => distance metric query (nd_vector n) | None => f32_of_Z 0 end.

(** [P] holds of the nodes that are seen; those in [pending] are being expanded. *)
Context (P : nat → Prop).

Record beam_ok (pending : list nat) b : Prop := {
  bo_cand : ∀ x, x ∈ candidates b → x.1 = dist_to x.2 ∧ x.2 ∈ visited b;
  bo_res : ∀ x, x ∈ results b → x.1 = dist_to x.2 ∧ x.2 ∈ visited b ∧ live g x.2;
  bo_seen : ∀ i, i ∈ visited b → valid g i ∧ P i;
  bo_NoDup : NoDup (snd <$> results b);
  bo_expanded : ∀ i, i ∈ visited b →
    i ∈ snd <$> candidates b ∨ i ∈ pending ∨ ∀ j, j ∈ links_of g layer i → valid g j → j ∈ visited b;
  bo_kept : ∀ i, i ∈ visited b → live g i → i ∈ snd <$> results b ∨ ef ≤ length (results b);
}.

(** What the candidates and the nodes not seen yet still cost. *)
Definition todo b : nat := length (candidates b) + (length (hg_nodes g) - size (visited b)).

Lemma size_seen (s : gset nat) : (∀ i, i ∈ s → valid g i) → size s ≤ length (hg_nodes g).
Proof.
  intros Hs. assert (s ⊆ set_seq 0 (length (hg_nodes g))) as Hsub.
  { intros i Hi. apply elem_of_set_seq. apply Hs, lookup_lt_is_Some in Hi. lia. }
  apply subseteq_size in Hsub. by rewrite size_set_seq in Hsub.
Qed.

(** A new node enters the beam: common to entry points and neighbors. *)
Lemma admit_ok pending b i n rs :
  beam_ok pending b → i ∉ visited b → hg_nodes g !! i = Some n → P i →
  let x := (distance metric query (nd_vector n), i) in
  (∃ dropped, (if nd_deleted n then results b else x :: results b) ≡ₚ dropped ++ rs ∧
     (dropped = [] ∨ ef ≤ length rs)) →
  (ef ≤ length (results b) → ef ≤ length rs) →
  let b' := {| visited := {[i]} ∪ visited b; candidates := heap_push entry_ge x (candidates b); results := rs |} in
  beam_ok pending b' ∧ todo b' = todo b.
Proof.
  intros Hb Hi Hn HP x (dropped & Hrs & Hdrop) Hlen. cbn zeta.
  assert (dist_to i = x.1) as Hd by (unfold dist_to; by rewrite Hn).
  pose proof (heap_push_perm entry_ge x (candidates b)) as Hc.
  assert (∀ y, y ∈ rs → y ∈ results b ∨ y = x ∧ nd_deleted n = false) as Hin.
  { intros y Hy. assert (y ∈ dropped ++ rs) as Hy' by set_solver. rewrite <- Hrs in Hy'.
    destruct (nd_deleted n); set_solver. }
  assert (NoDup (snd <$> (if nd_deleted n then results b else x :: results b))) as Hnd.
  { destruct (nd_deleted n); [apply (bo_NoDup _ _ Hb)|]. rewrite fmap_cons. constructor; [|apply (bo_NoDup _ _ Hb)].
    intros (y & Hy & Hyr)%list_elem_of_fmap. apply (bo_res _ _ Hb) in Hyr as (_ & Hv & _). cbn in Hy. congruence. }
  split; [split; cbn|].
  - intros y. rewrite Hc, elem_of_cons. intros [->|Hy]; [split; [done|set_solver]|].
    apply (bo_cand _ _ Hb) in Hy as [? ?]. set_solver.
  - intros y [Hy|[-> Hdel]]%Hin; [apply (bo_res _ _ Hb) in Hy; set_solver|]. split; [done|].
    split; [set_solver|]. by exists n.
  - intros j [->%elem_of_singleton|Hj]%elem_of_union; [split; [by exists n|done]|]. by apply (bo_seen _ _ Hb).
  - rewrite Hrs, fmap_app in Hnd. by apply NoDup_app in Hnd as (_ & _ & ?).
  - intros j. rewrite Hc, fmap_cons. intros [->%elem_of_singleton|Hj]%elem_of_union; [left; by left|].
    destruct (bo_expanded _ _ Hb j Hj) as [?|[?|Hex]]; [left; by right|by right; left|].
    right; right. intros k Hk Hv. set_solver.
  - intros j Hj (m & Hm & Hlive). destruct Hdrop as [->|?]; [|by right].
    assert (j ∈ snd <$> (if nd_deleted n then results b else x :: results b) ∨ ef ≤ length rs) as [Hj'|?]; [| |by right].
    + apply elem_of_union in Hj as [->%elem_of_singleton|Hj]; [left|].
      * rewrite Hm in Hn. injection Hn as ->. rewrite Hlive. by left.
      * destruct (bo_kept _ _ Hb j Hj) as [Hr|?]; [by exists m| |right; by apply Hlen].
        left. destruct (nd_deleted n); [done|]. by right.
    + left. by rewrite Hrs in Hj'.
  - unfold todo. cbn. rewrite Hc. cbn. rewrite size_union by set_solver. rewrite size_singleton.
    assert (size ({[i]} ∪ visited b) ≤ length (hg_nodes g)) as Hsz.
    { apply size_seen. intros j [->%elem_of_singleton|Hj]%elem_of_union; [by exists n|]. by apply (bo_seen _ _ Hb). }
    rewrite size_union, size_singleton in Hsz by set_solver. lia.
Qed.

(** The loop keeps an invariant, and returns when the fuel covers what is left to do. *)
Lemma explore_rule (I Q : Beam → Prop) :
  (∀ b, I b → candidates b = [] → Q b) →
  (∀ b c rest, I b → heap_pop entry_ge (candidates b) = Some (c, rest) →
     f64_ltb (furthest_dist (results b)) c.1 = true → ef ≤ length (results b) →
     Q {| visited := visited b; candidates := rest; results := results b |}) →
  (∀ b c rest, I b → heap_pop entry_ge (candidates b) = Some (c, rest) →
     ∃ n, hg_nodes g !! c.2 = Some n ∧
       let b' := foldl (visit g query ef metric)
                   {| visited := visited b; candidates := rest; results := results b |} (links layer n) in
       I b' ∧ todo b' < todo b) →
  ∀ fuel b, I b → todo b < fuel → ∃ b', explore fuel g query ef layer metric b = Some b' ∧ Q b'.
Proof.
  intros Hend Hbreak Hstep fuel. induction fuel as [|fuel IH]; intros b HI Hf; [lia|]. cbn [explore].
  destruct (heap_pop entry_ge (candidates b)) as [[[d i] rest]|] eqn:Hpop; cycle 1.
  { apply heap_pop_None in Hpop. eauto. }
  cbn [results]. destruct (_ && _) eqn:Hb.
  - apply andb_true_iff in Hb as [? ?%Nat.leb_le]. eexists. split; [done|]. by apply (Hbreak b (d, i) rest).
  - destruct (Hstep b (d, i) rest HI Hpop) as (n & Hn & HI' & Hlt). cbn [snd] in Hn. rewrite Hn. cbn.
    apply IH; [done|]. cbn in *. lia.
Qed.

(** ** The entry points *)

Lemma enter_ok b i :
  beam_ok [] b → i ∉ visited b → (valid g i → P i) →
  let b' := enter g query metric b i in
  beam_ok [] b' ∧ todo b' = todo b ∧ visited b ⊆ visited b' ∧ visited b' ⊆ {[i]} ∪ visited b ∧
  (valid g i → i ∈ visited b').
Proof.
  intros Hb Hi HP. cbn zeta. unfold enter. destruct (hg_nodes g !! i) as [n|] eqn:Hn; cycle 1.
  { split_and!; try done; [set_solver|]. intros [n Hv]. congruence. }
  destruct (admit_ok [] b i n (if nd_deleted n then results b
      else heap_push entry_le (distance metric query (nd_vector n), i) (results b))) as [? ?]; try done.
  - apply HP. by exists n.
  - exists []. destruct (nd_deleted n); [by split; [|left]|]. split; [|by left]. by rewrite heap_push_perm.
  - destruct (nd_deleted n); [done|]. rewrite heap_push_perm. cbn. lia.
  - split_and!; try done; set_solver.
Qed.

Lemma enter_all_ok eps b :
  beam_ok [] b → NoDup eps → (∀ i, i ∈ eps → i ∉ visited b) → (∀ i, i ∈ eps → valid g i → P i) →
  let b' := foldl (enter g query metric) b eps in
  beam_ok [] b' ∧ todo b' = todo b ∧ visited b ⊆ visited b' ∧ (∀ i, i ∈ eps → valid g i → i ∈ visited b').
Proof.
  intros Hb Hnd. revert b Hb. induction Hnd as [|i eps Hi Hnd IH]; intros b Hb Hnew HP; cbn.
  { split_and!; [done..|]. intros i Hi. by apply not_elem_of_nil in Hi. }
  destruct (enter_ok b i) as (Hb1 & Ht1 & Hs1 & Hs1' & Hv1); [done|apply Hnew; by left|apply HP; by left|].
  destruct (IH (enter g query metric b i)) as (Hb2 & Ht2 & Hs2 & Hv2); [done| | |].
  - intros j Hj Hjv. apply Hs1' in Hjv. apply elem_of_union in Hjv as [->%elem_of_singleton|Hjv]; [done|].
    apply (Hnew j); [by right|done].
  - intros j Hj. apply HP. by right.
  - split_and!; [done|congruence|set_solver|]. intros j [->|Hj]%elem_of_cons Hv; [apply Hs2|]; auto.
Qed.

Lemma start_ok eps :
  NoDup eps → (∀ i, i ∈ eps → valid g i → P i) →
  let b := start g query metric eps in
  beam_ok [] b ∧ todo b < search_fuel g eps ∧ (∀ i, i ∈ eps → valid g i → i ∈ visited b).
Proof.
  intros Hnd HP. destruct (enter_all_ok eps {| visited := ∅; candidates := []; results := [] |})
    as (Hb & Ht & _ & Hv); try done.
  - split; cbn; try (intros ? Hx; by apply not_elem_of_nil in Hx || by apply not_elem_of_empty in Hx). constructor.
  - split_and!; [done| |done]. unfold start. rewrite Ht. unfold todo, search_fuel. cbn.
    rewrite size_empty. lia.
Qed.

(** ** Expanding a node *)

Lemma visit_ok pending b i :
  beam_ok pending b → (valid g i → P i) →
  let b' := visit g query ef metric b i in
  beam_ok pending b' ∧ todo b' = todo b ∧ visited b ⊆ visited b' ∧ (valid g i → i ∈ visited b').
Proof.
  intros Hb HP. cbn zeta. unfold visit. destruct (hg_nodes g !! i) as [n|] eqn:Hn; cycle 1.
  { split_and!; try done. intros [n Hv]. congruence. }
  case_decide as Hi; [by split_and!|].
  set (x := (distance metric query (nd_vector n), i)).
  destruct (admit_ok pending b i n (if nd_deleted n then results b else keep ef x (results b))) as [? ?]; try done.
  - apply HP. by exists n.
  - destruct (nd_deleted n); [exists []; by split; [|left]|].
    destruct (keep_perm ef x (results b)) as (dropped & Hp & Hd). exists dropped. split; [done|].
    destruct Hd as [[? _]|[_ ?]]; auto.
  - destruct (nd_deleted n); [done|]. destruct (keep_perm ef x (results b)) as (dropped & Hp & Hd).
    apply Permutation_length in Hp. rewrite length_app in Hp. cbn in Hp.
    destruct Hd as [[-> ?]|[? ?]]; cbn in *; lia.
  - split_and!; try done; set_solver.
Qed.

Lemma visit_all_ok pending b ns :
  beam_ok pending b → (∀ i, i ∈ ns → valid g i → P i) →
  let b' := foldl (visit g query ef metric) b ns in
  beam_ok pending b' ∧ todo b' = todo b ∧ visited b ⊆ visited b' ∧ (∀ i, i ∈ ns → valid g i → i ∈ visited b').
Proof.
  revert b. induction ns as [|i ns IH]; intros b Hb HP; cbn.
  { split_and!; [done..|]. intros i Hi. by apply not_elem_of_nil in Hi. }
  destruct (visit_ok pending b i) as (Hb1 & Ht1 & Hs1 & Hv1); [done|apply HP; by left|].
  destruct (IH (visit g query ef metric b i)) as (Hb2 & Ht2 & Hs2 & Hv2); [done|intros j Hj; apply HP; by right|].
  split_and!; [done|congruence|set_solver|]. intros j [->|Hj]%elem_of_cons Hv; [apply Hs2|]; auto.
Qed.

(** The node popped next is a node of the graph; until its links are visited it is pending. *)
Lemma pop_ok b c rest :
  beam_ok [] b → heap_pop entry_ge (candidates b) = Some (c, rest) →
  let b' := {| visited := visited b; candidates := rest; results := results b |} in
  beam_ok [c.2] b' ∧ todo b = S (todo b') ∧ c.2 ∈ visited b ∧ c.1 = dist_to c.2 ∧ valid g c.2.
Proof.
  intros Hb Hpop%heap_pop_perm. cbn zeta.
  assert (c ∈ candidates b) as [Hd Hv]%(bo_cand _ _ Hb) by (rewrite Hpop; by left).
  split_and!; try done; [| |by apply (bo_seen _ _ Hb)].
  - destruct Hb as [Hc Hr Hs Hn He Hk]. split; cbn; try done.
    + intros x Hx. apply Hc. rewrite Hpop. by right.
    + intros i Hi. destruct (He i Hi) as [Hin|[Hin|?]]; [| |by right; right].
      * rewrite Hpop, fmap_cons in Hin. apply elem_of_cons in Hin as [->|?]; [right; left; by left|by left].
      * by apply not_elem_of_nil in Hin.
  - unfold todo. cbn. rewrite Hpop. cbn. lia.
Qed.

Lemma expanded_ok b c n :
  beam_ok [c] b → hg_nodes g !! c = Some n →
  (∀ i, i ∈ links layer n → valid g i → i ∈ visited b) → beam_ok [] b.
Proof.
  intros [Hc Hr Hs Hn He Hk] Hcn Hex. split; try done. intros i Hi.
  destruct (He i Hi) as [?|[->%list_elem_of_singleton|?]]; [by left| |by right; right].
  right; right. unfold links_of. by rewrite Hcn.
Qed.

(** [P] contains what the links lead to. *)
Definition closed : Prop := ∀ i j, P i → j ∈ links_of g layer i → valid g j → P j.

Lemma expand_ok b c rest :
  closed → beam_ok [] b → heap_pop entry_ge (candidates b) = Some (c, rest) →
  ∃ n, hg_nodes g !! c.2 = Some n ∧
    let b' := foldl (visit g query ef metric)
                {| visited := visited b; candidates := rest; results := results b |} (links layer n) in
    beam_ok [] b' ∧ todo b' < todo b ∧ visited b ⊆ visited b'.
Proof.
  intros Hcl Hb Hpop. destruct (pop_ok b c rest Hb Hpop) as (Hb' & Ht & Hv & _ & [n Hn]).
  exists n. split; [done|]. apply (bo_seen _ _ Hb) in Hv as [_ HPc].
  destruct (visit_all_ok [c.2] _ (links layer n) Hb') as (Hb2 & Ht2 & Hs2 & Hv2).
  { intros i Hi Hvi. apply (Hcl c.2); [done| |done]. unfold links_of. by rewrite Hn. }
  split; [by eapply expanded_ok|]. split; [cbn in *; lia|done].
Qed.

(** ** What is found *)

(** [seen] contains the entry points and what the links lead to, and its live nodes are found. *)
Definition finds_all (eps : list nat) (found : list entry) : Prop :=
  ∃ seen : nat → Prop, (∀ i, i ∈ eps → valid g i → seen i) ∧
    (∀ i j, seen i → j ∈ links_of g layer i → valid g j → seen j) ∧
    (∀ i, seen i → live g i → i ∈ snd <$> found).

Lemma found_all (found : list entry) :
  NoDup (snd <$> found) → (∀ x, x ∈ found → live g x.2) → length (hg_nodes g) ≤ length found →
  ∀ i, valid g i → i ∈ snd <$> found.
Proof.
  intros Hnd Hl Hlen i Hi. assert (list_to_set (snd <$> found) ⊆@{gset nat} set_seq 0 (length (hg_nodes g))) as Hsub.
  { intros j. rewrite elem_of_list_to_set, elem_of_set_seq. intros (x & -> & Hx)%list_elem_of_fmap.
    apply Hl in Hx as (n & Hn & _). apply lookup_lt_Some in Hn. lia. }
  apply set_subseteq_size_eq in Hsub as Heq.
  - assert (i ∈@{gset nat} list_to_set (snd <$> found)) as Hin; [|by apply elem_of_list_to_set in Hin].
    rewrite Heq. apply elem_of_set_seq. apply lookup_lt_is_Some in Hi. lia.
  - rewrite size_set_seq, size_list_to_set, length_fmap by done. exact Hlen.
Qed.

Lemma search_layer_reaches eps :
  NoDup eps → (∀ i, i ∈ eps → valid g i → P i) → closed →
  ∃ found, search_layer g query eps ef layer metric = Some found ∧ NoDup (snd <$> found) ∧
    (∀ x, x ∈ found → x.1 = dist_to x.2 ∧ live g x.2 ∧ P x.2) ∧
    (length found < ef ∨ length (hg_nodes g) ≤ ef → finds_all eps found).
Proof.
  intros Hnd HP Hcl. destruct (start_ok eps Hnd HP) as (Hb0 & Hf0 & Hs0).
  set (I b := beam_ok [] b ∧ ∀ i, i ∈ eps → valid g i → i ∈ visited b).
  set (Q b := ∃ pending, beam_ok pending b ∧ (∀ i, i ∈ eps → valid g i → i ∈ visited b) ∧
    (pending = [] ∧ candidates b = [] ∨ ef ≤ length (results b))).
  destruct (explore_rule I Q) with (fuel := search_fuel g eps) (b := start g query metric eps)
    as (b & Hb & pending & HQ & Hep & Hend); try done.
  - intros b [Hb Hs] Hc. exists []. auto.
  - intros b c rest [Hb Hs] Hpop _ Hef. destruct (pop_ok b c rest Hb Hpop) as (Hb' & _). exists [c.2]. auto.
  - intros b c rest [Hb Hs] Hpop. destruct (expand_ok b c rest Hcl Hb Hpop) as (n & Hn & Hb' & Ht & Hsub).
    exists n. unfold I. split_and!; try done. intros i Hi Hv. by apply Hsub, Hs.
  - unfold search_layer. rewrite Hb. cbn. eexists. split; [done|].
    pose proof (sort_by_perm compare_dist (results b)) as Hp.
    assert (NoDup (snd <$> sort_by compare_dist (results b))) as Hnd' by (rewrite Hp; apply (bo_NoDup _ _ HQ)).
    assert (∀ x, x ∈ sort_by compare_dist (results b) → x.1 = dist_to x.2 ∧ live g x.2 ∧ P x.2) as Hx.
    { intros x. rewrite Hp. intros (Hd & Hv & Hl)%(bo_res _ _ HQ). by apply (bo_seen _ _ HQ) in Hv as [_ ?]. }
    set (found := sort_by compare_dist (results b)) in *.
    assert (length found = length (results b)) as Hlen by by rewrite Hp.
    split_and!; [done..|]. intros Hsmall.
    destruct (decide (length (results b) < ef)) as [Hlt|Hge].
    + destruct Hend as [[-> Hc]|?]; [|lia]. exists (λ i, i ∈ visited b). split_and!; [done| |].
      * intros i j Hi Hj Hv. destruct (bo_expanded _ _ HQ i Hi) as [Hin|[Hin|Hex]]; [| |by apply Hex].
        -- rewrite Hc in Hin. by apply not_elem_of_nil in Hin.
        -- by apply not_elem_of_nil in Hin.
      * intros i Hi Hl. rewrite Hp. destruct (bo_kept _ _ HQ i Hi Hl); [done|lia].
    + exists (valid g). split_and!; try done. intros i Hi _. apply found_all; try done.
      * intros x ?%Hx. naive_solver.
      * rewrite Hp. lia.
Qed.

(** ** The closest *)

(** Every distance is a number. *)
Context (Hnum : ∀ i, valid g i → f64_is_nan (dist_to i) = false).

Record beam_ordered b : Prop := {
  bd_cand : heap entry_ge (candidates b);
  bd_res : heap entry_le (results b);
  bd_len : length (results b) ≤ ef;
  bd_best : ∀ i, i ∈ visited b → live g i → i ∈ snd <$> results b ∨
    ef ≤ length (results b) ∧ ∀ x, x ∈ results b → f64_leb x.1 (dist_to i) = true;
}.

Lemma cand_numbers pending b : beam_ok pending b → Forall is_number (candidates b).
Proof.
  intros Hb. apply Forall_forall. intros x [Hd Hv]%(bo_cand _ _ Hb). unfold is_number. rewrite Hd.
  apply Hnum. by apply (bo_seen _ _ Hb).
Qed.

Lemma res_numbers pending b : beam_ok pending b → Forall is_number (results b).
Proof.
  intros Hb. apply Forall_forall. intros x (Hd & Hv & _)%(bo_res _ _ Hb). unfold is_number. rewrite Hd.
  apply Hnum. by apply (bo_seen _ _ Hb).
Qed.

Lemma push_ordered pending b i n :
  beam_ok pending b → heap entry_ge (candidates b) → hg_nodes g !! i = Some n →
  heap entry_ge (heap_push entry_ge (distance metric query (nd_vector n), i) (candidates b)) ∧
  is_number (distance metric query (nd_vector n), i).
Proof.
  intros Hb Hh Hn. assert (is_number (distance metric query (nd_vector n), i)) as Hx.
  { pose proof (Hnum i ltac:(by exists n)) as H. unfold dist_to in H. by rewrite Hn in H. }
  split; [|done]. apply (heap_push_heap entry_ge is_number entry_ge_total entry_ge_trans); try done.
  by eapply cand_numbers.
Qed.

Lemma enter_ordered b i :
  beam_ok [] b → beam_ordered b → i ∉ visited b → length (results b) < ef →
  beam_ordered (enter g query metric b i) ∧ length (results (enter g query metric b i)) ≤ S (length (results b)).
Proof.
  intros Hb [Hc Hr Hl Hbest] Hi Hef. unfold enter. destruct (hg_nodes g !! i) as [n|] eqn:Hn; [|split; [done|lia]].
  destruct (push_ordered [] b i n Hb Hc Hn) as [Hc' Hx].
  pose proof (heap_push_perm entry_le (distance metric query (nd_vector n), i) (results b)) as Hp.
  split; [split; cbn|cbn].
  - done.
  - destruct (nd_deleted n); [done|].
    apply (heap_push_heap entry_le is_number entry_le_total entry_le_trans); try done. by eapply res_numbers.
  - destruct (nd_deleted n); [done|]. rewrite Hp. cbn. lia.
  - intros j [->%elem_of_singleton|Hj]%elem_of_union Hlive; left.
    + destruct Hlive as (m & Hm & Hd). rewrite Hm in Hn. injection Hn as ->. rewrite Hd, Hp. by left.
    + destruct (Hbest j Hj Hlive) as [?|[? _]]; [|lia].
      destruct (nd_deleted n); [done|]. rewrite Hp. by right.
  - destruct (nd_deleted n); [lia|]. rewrite Hp. cbn. lia.
Qed.

Lemma enter_all_ordered eps b :
  beam_ok [] b → beam_ordered b → NoDup eps → (∀ i, i ∈ eps → i ∉ visited b) →
  (∀ i, i ∈ eps → valid g i → P i) → length (results b) + length eps ≤ ef →
  beam_ordered (foldl (enter g query metric) b eps).
Proof.
  intros Hb Ho Hnd. revert b Hb Ho. induction Hnd as [|i eps Hi Hnd IH]; intros b Hb Ho Hnew HP Hl; cbn; [done|].
  cbn in Hl. destruct (enter_ok b i) as (Hb1 & _ & _ & Hs1 & _); [done|apply Hnew; by left|apply HP; by left|].
  destruct (enter_ordered b i) as [Ho1 Hl1]; [done..|apply Hnew; by left|lia|].
  apply IH; try done; [| |lia].
  - intros j Hj Hjv. apply Hs1 in Hjv. apply elem_of_union in Hjv as [->%elem_of_singleton|Hjv]; [done|].
    apply (Hnew j); [by right|done].
  - intros j Hj. apply HP. by right.
Qed.

Lemma start_ordered eps :
  NoDup eps → (∀ i, i ∈ eps → valid g i → P i) → length eps ≤ ef → beam_ordered (start g query metric eps).
Proof.
  intros Hnd HP Hl. apply enter_all_ordered; try done.
  - split; cbn; try (intros ? Hx; by apply not_elem_of_nil in Hx || by apply not_elem_of_empty in Hx). constructor.
  - split; cbn; [apply heap_nil..|lia|]. intros i Hi. by apply not_elem_of_empty in Hi.
Qed.

Lemma visit_ordered pending b i :
  beam_ok pending b → beam_ordered b → beam_ordered (visit g query ef metric b i).
Proof.
  intros Hb [Hc Hr Hl Hbest]. unfold visit. destruct (hg_nodes g !! i) as [n|] eqn:Hn; [|done].
  case_decide as Hi; [done|]. destruct (push_ordered pending b i n Hb Hc Hn) as [Hc' Hx].
  set (x := (distance metric query (nd_vector n), i)) in *.
  assert (Forall is_number (x :: results b)) as Hns by (constructor; [done|by eapply res_numbers]).
  destruct (keep_ordered ef x (results b) Hns Hr Hl) as (Hk & Hkl & Hkept & Hfar).
  split; cbn; [done|by destruct (nd_deleted n)..|]. intros j Hj Hlive.
  assert (j = i ∧ nd_deleted n = false ∨ j ∈ visited b) as [[-> Hd]|Hv].
  { apply elem_of_union in Hj as [->%elem_of_singleton|?]; [left|by right].
    destruct Hlive as (m & Hm & ?). by simplify_eq. }
  - rewrite Hd. assert (dist_to i = x.1) as -> by (unfold dist_to; by rewrite Hn).
    destruct (Hkept x) as [Hin|?]; [by left| |by right]. left. apply list_elem_of_fmap. by exists x.
  - destruct (nd_deleted n); [by apply Hbest|].
    destruct (Hbest j Hv Hlive) as [(y & -> & Hy)%list_elem_of_fmap|[Hef Hall]].
    + destruct (Hkept y) as [Hin|Hd]; [by right| |right].
      * left. apply list_elem_of_fmap. by exists y.
      * apply (bo_res _ _ Hb) in Hy as (<- & _). done.
    + right. split; [|by apply Hfar]. destruct (keep_perm ef x (results b)) as (dropped & Hp & Hd).
      apply Permutation_length in Hp. rewrite length_app in Hp. cbn in Hp.
      destruct Hd as [[-> ?]|[? ?]]; cbn in *; lia.
Qed.

Lemma visit_all_ordered pending b ns :
  beam_ok pending b → beam_ordered b → (∀ i, i ∈ ns → valid g i → P i) →
  beam_ordered (foldl (visit g query ef metric) b ns).
Proof.
  revert b. induction ns as [|i ns IH]; intros b Hb Ho HP; cbn; [done|].
  apply IH; [apply visit_ok; [done|apply HP; by left]|by eapply visit_ordered|]. intros j Hj. apply HP. by right.
Qed.

Lemma pop_ordered b c rest :
  beam_ok [] b → beam_ordered b → heap_pop entry_ge (candidates b) = Some (c, rest) →
  beam_ordered {| visited := visited b; candidates := rest; results := results b |} ∧
  ∀ y, y ∈ rest → entry_le c y = true.
Proof.
  intros Hb [Hc Hr Hl Hbest] Hpop. pose proof (cand_numbers _ _ Hb) as Hn. split; [split; cbn; try done|].
  - by apply (heap_pop_heap entry_ge is_number entry_ge_total entry_ge_trans (candidates b) c).
  - intros y Hy. by apply (heap_pop_max entry_ge is_number entry_ge_total entry_ge_trans (candidates b) c rest y).
Qed.

(** When the loop stops, what is left to expand is farther than every result. *)
Lemma break_expanded b c rest x :
  beam_ok [] b → beam_ordered b → heap_pop entry_ge (candidates b) = Some (c, rest) →
  f64_ltb (furthest_dist (results b)) c.1 = true → x ∈ results b →
  ∀ j, j ∈ links_of g layer x.2 → valid g j → j ∈ visited b.
Proof.
  intros Hb Ho Hpop Hlt Hx. pose proof (pop_ordered b c rest Hb Ho Hpop) as [_ Hmin].
  pose proof (cand_numbers _ _ Hb) as Hcn. pose proof (res_numbers _ _ Hb) as Hrn.
  pose proof (furthest_max _ x Hrn (bd_res _ Ho) Hx) as Hf. destruct (leb_not_nan _ _ Hf) as [Hxn Hfn].
  apply (bo_res _ _ Hb) in Hx as (Hd & Hv & _). apply heap_pop_perm in Hpop.
  rewrite Forall_forall in Hcn. assert (is_number c) as Hc by (apply Hcn; rewrite Hpop; by left).
  assert (∀ d, f64_leb c.1 d = true → f64_leb d (furthest_dist (results b)) = true → False) as Hno.
  { intros d Hcd Hdf. destruct (leb_not_nan _ _ Hcd) as [_ Hdn]. apply f64_ltb_cmp in Hlt; [|done..].
    assert (f64_leb c.1 (furthest_dist (results b)) = true) as Hcf by by apply (leb_trans _ d).
    apply leb_iff in Hcf; [|done..]. rewrite (float_cmp_opp (furthest_dist (results b))), Hlt in Hcf by done. done. }
  destruct (bo_expanded _ _ Hb x.2 Hv) as [(y & Hy & Hyc)%list_elem_of_fmap|[Hin|?]]; [|by apply not_elem_of_nil in Hin|done].
  exfalso. pose proof (Hcn y Hyc) as Hyn. apply (bo_cand _ _ Hb) in Hyc as Hyd. destruct Hyd as [Hyd _].
  apply (Hno x.1); [|done]. rewrite Hd, Hy, <- Hyd. rewrite Hpop in Hyc.
  apply elem_of_cons in Hyc as [->|Hyr]; [by apply leb_refl|]. apply entry_le_leb; auto.
Qed.

(** With room for at least its entry points, a search answers with at most [ef] nodes, closest
    first.  An entry point or a neighbor of an answer, if it is live, is an answer too, or
    there are [ef] answers that are all at least as close. *)
Lemma search_layer_optimal eps found :
  NoDup eps → (∀ i, i ∈ eps → valid g i → P i) → closed → length eps ≤ ef →
  search_layer g query eps ef layer metric = Some found →
  length found ≤ ef ∧ StronglySorted (smaller fst) found ∧
  ∀ j, live g j → (j ∈ eps ∨ ∃ x, x ∈ found ∧ j ∈ links_of g layer x.2) →
    j ∈ snd <$> found ∨ length found = ef ∧ ∀ y, y ∈ found → f64_leb y.1 (dist_to j) = true.
Proof.
  intros Hnd HP Hcl Hl. destruct (start_ok eps Hnd HP) as (Hb0 & Hf0 & Hs0).
  pose proof (start_ordered eps Hnd HP Hl) as Ho0.
  set (I b := beam_ok [] b ∧ beam_ordered b ∧ ∀ i, i ∈ eps → valid g i → i ∈ visited b).
  set (Q b := Forall is_number (results b) ∧ beam_ordered b ∧ (∀ i, i ∈ eps → valid g i → i ∈ visited b) ∧
    ∀ x j, x ∈ results b → j ∈ links_of g layer x.2 → valid g j → j ∈ visited b).
  destruct (explore_rule I Q) with (fuel := search_fuel g eps) (b := start g query metric eps)
    as (b & Hb & Hnb & Ho & Hep & Hex); try done.
  - intros b (Hb & Ho & Hs) Hc. split_and!; [by eapply res_numbers|done..|]. intros x j Hx Hj Hv.
    apply (bo_res _ _ Hb) in Hx as (_ & Hx & _).
    destruct (bo_expanded _ _ Hb x.2 Hx) as [Hin|[Hin|?]]; [rewrite Hc in Hin|..|by auto]; by apply not_elem_of_nil in Hin.
  - intros b c rest (Hb & Ho & Hs) Hpop Hlt _. split_and!; [exact (res_numbers [] b Hb)|by apply (pop_ordered b c rest Hb Ho Hpop)|done|].
    intros x j Hx. by apply (break_expanded b c rest x).
  - intros b c rest (Hb & Ho & Hs) Hpop. destruct (pop_ok b c rest Hb Hpop) as (Hb1 & _ & Hvc & _).
    apply (bo_seen _ _ Hb) in Hvc as [_ HPc]. destruct (expand_ok b c rest Hcl Hb Hpop) as (n & Hn & Hb' & Ht & Hsub).
    exists n. split; [done|]. unfold I. split_and!; try done; [|intros i Hi Hv; by apply Hsub, Hs].
    eapply visit_all_ordered; [done|by apply (pop_ordered b c rest Hb Ho Hpop)|]. intros i Hi Hvi. apply (Hcl c.2); [done| |done].
    unfold links_of. by rewrite Hn.
  - unfold search_layer. rewrite Hb. cbn. intros [= <-]. pose proof (sort_by_perm compare_dist (results b)) as Hp.
    split; [rewrite Hp; apply (bd_len _ Ho)|]. split; [by apply (sort_ascending fst)|].
    intros j Hj Hreach. assert (valid g j) as Hvj by (destruct Hj as (n & ? & _); by exists n).
    assert (j ∈ visited b) as Hv.
    { destruct Hreach as [?|(x & Hx & ?)]; [by apply Hep|]. rewrite Hp in Hx. by apply (Hex x). }
    destruct (bd_best _ Ho j Hv Hj) as [?|[Hef Hall]]; [left; by rewrite Hp|right].
    split; [rewrite Hp; pose proof (bd_len _ Ho); lia|]. intros y. rewrite Hp. apply Hall.
Qed.

End beam.
