(* ===== verification/HnswSpec.v ===== *)
(** * The graph of the vector index stays well-formed

    What an insertion and a deletion do to the nodes, their links and the positions of the
    ids, and the invariant both preserve, under which no access is out of range. *)

From S2P Require Import Prelude Floats Modality VectorSearch BinaryHeap Hnsw HnswSearch.

(** ** Levels and links *)

Definition level_at (nodes : list Node) (i : nat) : option nat := nd_level <$> nodes !! i.
Definition id_at (nodes : list Node) (i : nat) : option string := nd_id <$> nodes !! i.
Definition links_at (nodes : list Node) (i l : nat) : option (list nat) :=
  n ← nodes !! i; nd_neighbors n !! l.

(** The node [i] is there, at the level [l] or above. *)
Definition reaches (nodes : list Node) (l i : nat) : Prop := ∃ v, level_at nodes i = Some v ∧ l ≤ v.

(** All of a node but its links. *)
Definition body (n : Node) : string * list f32 * gmap string string * nat * bool :=
  (nd_id n, nd_vector n, nd_metadata n, nd_level n, nd_deleted n).

Definition same_bodies (nodes nodes' : list Node) : Prop := body <$> nodes' = body <$> nodes.

(** A node has a list of links for each layer up to its level, and no other.  A list has no
    duplicates and is within the capacity of its layer; its links lead to other nodes of the
    graph that are on that layer. *)
Record links_ok (config : HnswConfig) (nodes : list Node) : Prop := {
  lo_layers : ∀ i v l, level_at nodes i = Some v → is_Some (links_at nodes i l) ↔ l ≤ v;
  lo_links : ∀ i l ns, links_at nodes i l = Some ns →
    NoDup ns ∧ length ns ≤ capacity config l ∧ ∀ j, j ∈ ns → j ≠ i ∧ reaches nodes l j;
}.

(** Every id is mapped to its node; the entry point is there unless the graph is empty, and it
    is on the top layer. *)
Record graph_ok (config : HnswConfig) (g : HnswGraph) : Prop := {
  go_links : links_ok config (hg_nodes g);
  go_ids : ∀ id i, hg_id_map g !! id = Some i ↔ id_at (hg_nodes g) i = Some id;
  go_entry : match hg_entry_point g with
             | None => hg_nodes g = []
             | Some ep => level_at (hg_nodes g) ep = Some (hg_current_max_level g) ∧
                 ∀ i v, level_at (hg_nodes g) i = Some v → v ≤ hg_current_max_level g
             end;
}.

(** A graph with other links. *)
Record relinked (g g' : HnswGraph) : Prop := {
  re_bodies : same_bodies (hg_nodes g) (hg_nodes g');
  re_id_map : hg_id_map g' = hg_id_map g;
  re_entry_point : hg_entry_point g' = hg_entry_point g;
  re_max_level : hg_current_max_level g' = hg_current_max_level g;
}.

#[export] Instance relinked_preorder : PreOrder relinked.
Proof.
  split; [intros g; by split|]. intros a b c [H1 H2 H3 H4] [H1' H2' H3' H4'].
  split; [exact (eq_trans H1' H1)|congruence..].
Qed.

Lemma body_lookup nodes nodes' i n :
  same_bodies nodes nodes' → nodes !! i = Some n → ∃ n', nodes' !! i = Some n' ∧ body n' = body n.
Proof.
  intros Hb Hi. assert ((body <$> nodes') !! i = Some (body n)) as H
    by (rewrite Hb, list_lookup_fmap, Hi; done).
  rewrite list_lookup_fmap in H. by apply fmap_Some in H as (n' & ? & ?); eauto.
Qed.

Lemma same_bodies_sym nodes nodes' : same_bodies nodes nodes' → same_bodies nodes' nodes.
Proof. done. Qed.

Lemma level_same nodes nodes' i : same_bodies nodes nodes' → level_at nodes' i = level_at nodes i.
Proof.
  intros Hb. unfold level_at. assert ((body <$> nodes') !! i = (body <$> nodes) !! i) as H by by rewrite Hb.
  rewrite !list_lookup_fmap in H. by destruct (nodes' !! i), (nodes !! i); simplify_eq/=; f_equal.
Qed.

Lemma id_same nodes nodes' i : same_bodies nodes nodes' → id_at nodes' i = id_at nodes i.
Proof.
  intros Hb. unfold id_at. assert ((body <$> nodes') !! i = (body <$> nodes) !! i) as H by by rewrite Hb.
  rewrite !list_lookup_fmap in H. by destruct (nodes' !! i), (nodes !! i); simplify_eq/=; f_equal.
Qed.

Lemma reaches_same nodes nodes' l i : same_bodies nodes nodes' → reaches nodes' l i ↔ reaches nodes l i.
Proof. intros Hb. unfold reaches. by rewrite (level_same nodes nodes'). Qed.

Lemma reaches_valid g l i : reaches (hg_nodes g) l i → valid g i.
Proof. intros (v & Hv & _). unfold level_at in Hv. by apply fmap_Some in Hv as (n & ? & _); exists n. Qed.

Lemma reaches_le nodes l l' i : l' ≤ l → reaches nodes l i → reaches nodes l' i.
Proof. intros Hl (v & Hv & ?). exists v. split; [done|lia]. Qed.

Lemma links_of_at g l i : links_of g l i = default [] (links_at (hg_nodes g) i l).
Proof. unfold links_of, links_at, links. by destruct (hg_nodes g !! i). Qed.

(** ** Setting the links of a node *)

Section links.
Context (config : HnswConfig).
Implicit Types (nodes : list Node).

Lemma set_links nodes i n l old ns :
  nodes !! i = Some n → links_at nodes i l = Some old →
  let nodes' := <[i := with_neighbors (<[l := ns]> (nd_neighbors n)) n]> nodes in
  same_bodies nodes nodes' ∧
  ∀ j l', links_at nodes' j l' = if decide (j = i ∧ l' = l) then Some ns else links_at nodes j l'.
Proof.
  intros Hi Hl. unfold links_at in Hl. rewrite Hi in Hl. cbn in Hl.
  pose proof (lookup_lt_Some _ _ _ Hi). pose proof (lookup_lt_Some _ _ _ Hl). cbn zeta. split.
  - unfold same_bodies. rewrite list_fmap_insert. cbn. apply list_insert_id. by rewrite list_lookup_fmap, Hi.
  - intros j l'. unfold links_at. destruct (decide (j = i)) as [->|Hj].
    + rewrite list_lookup_insert_eq, Hi by done. cbn. case_decide as Hd.
      * destruct Hd as [_ ->]. by apply list_lookup_insert_eq.
      * rewrite list_lookup_insert_ne; naive_solver.
    + rewrite list_lookup_insert_ne by done. rewrite decide_False by naive_solver. done.
Qed.

(** What a list of links has to satisfy at its place. *)
Definition good_links nodes (i l : nat) (ns : list nat) : Prop :=
  NoDup ns ∧ length ns ≤ capacity config l ∧ ∀ j, j ∈ ns → j ≠ i ∧ reaches nodes l j.

Lemma set_links_ok nodes i n l old ns :
  links_ok config nodes → nodes !! i = Some n → links_at nodes i l = Some old → good_links nodes i l ns →
  links_ok config (<[i := with_neighbors (<[l := ns]> (nd_neighbors n)) n]> nodes).
Proof.
  intros [Hlay Hlink] Hi Hl Hg. destruct (set_links nodes i n l old ns Hi Hl) as [Hb Hat]. split.
  - intros j v l'. rewrite (level_same nodes) by done. rewrite Hat. intros Hv. case_decide as Hd.
    + destruct Hd as [-> ->]. split; [intros _|by eexists]. apply (Hlay i); [done|by exists old].
    + by apply Hlay.
  - intros j l' ns'. rewrite Hat. case_decide as Hd.
    + destruct Hd as [-> ->]. intros [= <-]. destruct Hg as (? & ? & Hg). split_and!; try done.
      intros k Hk. rewrite (reaches_same nodes) by done. by apply Hg.
    + intros Hns. destruct (Hlink j l' ns' Hns) as (? & ? & Hr). split_and!; try done.
      intros k Hk. rewrite (reaches_same nodes) by done. by apply Hr.
Qed.

(** ** Linking two nodes *)

Section connect.
Context {PW : Powi32} (metric : DistanceMetric).

Lemma prune_ok g max_conn vector ns :
  (∀ j, j ∈ ns → valid g j) → NoDup ns →
  ∃ kept, prune g metric max_conn vector ns = Some kept ∧ NoDup kept ∧ length kept ≤ max_conn ∧ kept ⊆ ns.
Proof.
  intros Hv Hnd. unfold prune.
  assert (is_Some (mapM (score_link g metric vector) ns)) as [scored Hs].
  { apply mapM_is_Some_2, Forall_forall. intros i Hi. destruct (Hv i Hi) as [n Hn]. unfold score_link. cbn. rewrite Hn. by eexists. }
  assert (snd <$> scored = ns) as Hsnd.
  { apply mapM_Some_1 in Hs. clear Hv Hnd. induction Hs as [|i [d j] ns' scored Hf _ IH]; [done|].
    cbn. rewrite IH. f_equal. unfold score_link in Hf. by destruct (hg_nodes g !! i); simplify_eq/=. }
  rewrite Hs. cbn. eexists. split; [done|].
  assert (snd <$> take max_conn (sort_by compare_dist scored) ⊆+ ns) as Hsub.
  { rewrite <- Hsnd. apply fmap_submseteq. rewrite <- (sort_by_perm compare_dist scored) at 2.
    apply sublist_submseteq, sublist_take. }
  split_and!.
  - apply submseteq_Permutation in Hsub as [k Hk]. rewrite Hk in Hnd. by apply NoDup_app in Hnd as (? & _).
  - rewrite length_fmap, length_take. lia.
  - intros j Hj. by eapply elem_of_submseteq.
Qed.

(** The links back of a neighbor with the links [old]. *)
Definition linked_back (node l : nat) (old kept : list nat) : Prop :=
  kept ⊆ node :: old ∧ (length old < capacity config l → kept = old ++ [node]).

Lemma link_back_ok g node l i old :
  links_ok config (hg_nodes g) → links_at (hg_nodes g) i l = Some old → node ∉ old → node ≠ i →
  reaches (hg_nodes g) l node →
  ∃ kept g', link_back node l (capacity config l) metric i g = Some g' ∧ linked_back node l old kept ∧
    links_ok config (hg_nodes g') ∧ relinked g g' ∧
    ∀ j l', links_at (hg_nodes g') j l' =
      if decide (j = i ∧ l' = l) then Some kept else links_at (hg_nodes g) j l'.
Proof.
  intros Hok Hold Hnew Hne Hr. destruct (lo_links _ _ Hok _ _ _ Hold) as (Hnd & Hlen & Hlinks).
  pose proof Hold as (n & Hn & Hl)%bind_Some.
  assert (grown l (nd_neighbors n) = nd_neighbors n) as Hgrown.
  { unfold grown. apply lookup_lt_Some in Hl. replace (S l - length (nd_neighbors n)) with 0 by lia.
    cbn. apply app_nil_r. }
  unfold link_back. rewrite Hn. cbn [mbind option_bind]. rewrite Hgrown, Hl. cbn [default from_option id].
  destruct (set_links (hg_nodes g) i n l old (old ++ [node]) Hn Hold) as [Hb1 _].
  set (g1 := set_nodes _ g).
  assert (NoDup (old ++ [node])) as Hnd'.
  { apply NoDup_app. split_and!; [done|intros ? ? ->%list_elem_of_singleton; done|apply NoDup_singleton]. }
  assert (∀ j, j ∈ old ++ [node] → j ≠ i ∧ reaches (hg_nodes g) l j) as Hr'.
  { intros j [Hj| ->%list_elem_of_singleton]%elem_of_app; [by apply Hlinks|done]. }
  assert (∃ kept, (if capacity config l <? length (old ++ [node])
            then prune g1 metric (capacity config l) (nd_vector n) (old ++ [node]) else Some (old ++ [node])) = Some kept ∧
          linked_back node l old kept ∧ good_links (hg_nodes g) i l kept) as (kept & -> & Hk & Hgood).
  { rewrite length_app. cbn [length]. destruct (_ <? _) eqn:Hfull.
    - apply Nat.ltb_lt in Hfull. destruct (prune_ok g1 (capacity config l) (nd_vector n) (old ++ [node]))
        as (kept & Hp & Hkn & Hkl & Hks); [|done|].
      { intros j Hj. apply (reaches_valid g1 l). apply Hr' in Hj as [_ Hj]. by apply (reaches_same (hg_nodes g)). }
      exists kept. rewrite Hp. split; [done|]. split; [split; [set_solver|lia]|].
      split_and!; [done..|]. intros j Hj. apply Hr'. by apply Hks.
    - apply Nat.ltb_ge in Hfull. exists (old ++ [node]). split; [done|]. split; [split; [set_solver|done]|].
      split_and!; [done| |done]. rewrite length_app. cbn. lia. }
  destruct (set_links (hg_nodes g) i n l old kept Hn Hold) as [Hb2 Hat].
  exists kept. eexists. split; [done|]. split; [done|].
  assert (hg_nodes (set_nodes (<[i := with_neighbors (<[l := kept]> (nd_neighbors n)) n]> (hg_nodes g1)) g1)
    = <[i := with_neighbors (<[l := kept]> (nd_neighbors n)) n]> (hg_nodes g)) as Heq
    by (cbn; apply list_insert_insert_eq).
  rewrite Heq. split_and!; [by eapply set_links_ok| |done]. split; [|done..]. by rewrite Heq.
Qed.

Lemma link_forward_ok g node l i s :
  links_ok config (hg_nodes g) → links_at (hg_nodes g) node l = Some s → i ∉ s → i ≠ node →
  length s < capacity config l → reaches (hg_nodes g) l i →
  ∃ g', link_forward node l i g = Some g' ∧ links_ok config (hg_nodes g') ∧ relinked g g' ∧
    ∀ j l', links_at (hg_nodes g') j l' =
      if decide (j = node ∧ l' = l) then Some (s ++ [i]) else links_at (hg_nodes g) j l'.
Proof.
  intros Hok Hs Hi Hne Hlen Hr. destruct (lo_links _ _ Hok _ _ _ Hs) as (Hnd & _ & Hlinks).
  pose proof Hs as (n & Hn & Hl)%bind_Some. unfold link_forward. rewrite Hn. cbn. rewrite Hl.
  destruct (set_links (hg_nodes g) node n l s (s ++ [i]) Hn Hs) as [Hb Hat].
  eexists. split; [done|]. cbn. split_and!; [|by split|done]. eapply set_links_ok; [done..|]. split_and!.
  - apply NoDup_app. split_and!; [done|intros ? ? ->%list_elem_of_singleton; done|apply NoDup_singleton].
  - rewrite length_app. cbn. lia.
  - intros j [Hj| ->%list_elem_of_singleton]%elem_of_app; [by apply Hlinks|done].
Qed.

(** The links of the new node to [selected] and back, the links [s] being there already. *)
Lemma connect_all_ok g node l s selected :
  links_ok config (hg_nodes g) → links_at (hg_nodes g) node l = Some s →
  NoDup (s ++ selected) → length (s ++ selected) ≤ capacity config l → reaches (hg_nodes g) l node →
  (∀ j, j ∈ selected → j ≠ node ∧ reaches (hg_nodes g) l j ∧
     ∀ old, links_at (hg_nodes g) j l = Some old → node ∉ old) →
  ∃ g', connect_all node l (capacity config l) metric selected g = Some g' ∧
    links_ok config (hg_nodes g') ∧ relinked g g' ∧ links_at (hg_nodes g') node l = Some (s ++ selected) ∧
    (∀ j old, j ∈ selected → links_at (hg_nodes g) j l = Some old →
       ∃ kept, links_at (hg_nodes g') j l = Some kept ∧ linked_back node l old kept) ∧
    (∀ j l', l' ≠ l ∨ j ≠ node ∧ j ∉ selected → links_at (hg_nodes g') j l' = links_at (hg_nodes g) j l').
Proof.
  revert g s. induction selected as [|i selected IH]; intros g s Hok Hs Hnd Hlen Hr Hsel; cbn [connect_all].
  { exists g. rewrite app_nil_r. split_and!; [done..|intros j old []%not_elem_of_nil|done]. }
  destruct (Hsel i) as (Hne & Hri & Hfresh); [by left|]. rewrite length_app in Hlen. cbn in Hlen.
  assert ((i ∉ s) ∧ i ∉ selected) as [His Hisel].
  { apply NoDup_app in Hnd as (_ & Hd & Hn%NoDup_cons). split; [|by apply Hn]. intros Hin. apply (Hd i Hin). by left. }
  destruct (link_forward_ok g node l i s) as (g1 & Hg1 & Hok1 & Hre1 & Hat1); try done; [lia|].
  pose proof Hri as (v & Hv & Hlv). apply (lo_layers _ _ Hok i v l Hv) in Hlv as [old Hold].
  destruct (link_back_ok g1 node l i old) as (kept & g2 & Hg2 & Hk & Hok2 & Hre2 & Hat2); try done.
  { rewrite Hat1, decide_False by naive_solver. done. }
  { by apply Hfresh. }
  { by apply (reaches_same (hg_nodes g)), Hr; destruct Hre1. }
  assert (relinked g g2) as Hre by by transitivity g1.
  assert (∀ j l', links_at (hg_nodes g2) j l' =
      if decide (j = i ∧ l' = l) then Some kept
      else if decide (j = node ∧ l' = l) then Some (s ++ [i]) else links_at (hg_nodes g) j l') as Hat
    by (intros; by rewrite Hat2, Hat1).
  destruct (IH g2 (s ++ [i])) as (g3 & Hg3 & Hok3 & Hre3 & Hnode & Hback & Hsame); try done.
  - rewrite Hat, decide_False, decide_True by naive_solver. done.
  - by rewrite <- app_assoc.
  - rewrite !length_app. cbn. lia.
  - by apply (reaches_same (hg_nodes g)), Hr; destruct Hre.
  - intros j Hj. destruct (Hsel j) as (? & Hrj & Hf); [by right|]. split_and!; [done| |].
    + by apply (reaches_same (hg_nodes g)), Hrj; destruct Hre.
    + intros old'. rewrite Hat, !decide_False by naive_solver. apply Hf.
  - exists g3. unfold connect. rewrite Hg1. cbn. rewrite Hg2. cbn. rewrite <- app_assoc in Hnode.
    split_and!; [done|done|by transitivity g2|done| |].
    + intros j old' [->|Hj]%elem_of_cons Hold'.
      * exists kept. rewrite Hsame, Hat, decide_True by auto. split; [done|]. by simplify_eq.
      * apply Hback; [done|]. rewrite Hat, !decide_False; [done| |]; [|set_solver].
        intros [-> _]. by destruct (Hsel node) as [? _]; [right|].
    + intros j l' Hj. rewrite Hsame, Hat, !decide_False by set_solver. done.
Qed.

(** ** The insertion on the layers *)

(** The new node has no links on the layer [l], and none lead to it. *)
Definition fresh_on nodes (node l : nat) : Prop :=
  links_at nodes node l = Some [] ∧ ∀ j old, links_at nodes j l = Some old → node ∉ old.

(** A node of the layer [l], other than the new one. *)
Definition settled nodes (node l i : nat) : Prop := i ≠ node ∧ reaches nodes l i.

Definition eps_ok nodes (node l : nat) (eps : list nat) : Prop :=
  NoDup eps ∧ eps ≠ [] ∧ ∀ i, i ∈ eps → settled nodes node l i.

Lemma settled_closed g node l :
  links_ok config (hg_nodes g) → (∀ j old, links_at (hg_nodes g) j l = Some old → node ∉ old) →
  closed g l (settled (hg_nodes g) node l).
Proof.
  intros Hok Hfresh i j _. rewrite links_of_at. destruct (links_at _ i l) as [ns|] eqn:Hl; [|by intros []%not_elem_of_nil].
  cbn. intros Hj _. destruct (lo_links _ _ Hok _ _ _ Hl) as (_ & _ & Hr). split; [|by apply Hr].
  intros ->. by apply (Hfresh i ns).
Qed.

Lemma layer_step g node l vector eps :
  links_ok config (hg_nodes g) → reaches (hg_nodes g) l node → fresh_on (hg_nodes g) node l →
  eps_ok (hg_nodes g) node l eps →
  ∃ nearest g', search_layer g vector eps (ef_construction config) l metric = Some nearest ∧
    connect_all node l (capacity config l) metric (select_neighbors nearest (capacity config l)) g = Some g' ∧
    links_ok config (hg_nodes g') ∧ relinked g g' ∧
    (NoDup (snd <$> nearest) ∧ ∀ x, x ∈ nearest → live g x.2 ∧ settled (hg_nodes g) node l x.2) ∧
    (length nearest < ef_construction config ∨ length (hg_nodes g) ≤ ef_construction config →
       finds_all g l eps nearest) ∧
    links_at (hg_nodes g') node l = Some (select_neighbors nearest (capacity config l)) ∧
    (∀ j old, j ∈ select_neighbors nearest (capacity config l) → links_at (hg_nodes g) j l = Some old →
       ∃ kept, links_at (hg_nodes g') j l = Some kept ∧ linked_back node l old kept) ∧
    (∀ j l', l' ≠ l → links_at (hg_nodes g') j l' = links_at (hg_nodes g) j l').
Proof.
  intros Hok Hr [Hown Hfresh] (Hnd & _ & Heps).
  destruct (search_layer_reaches g vector (ef_construction config) l metric (settled (hg_nodes g) node l) eps)
    as (nearest & Hs & Hn & Hx & Hall); [done|auto|by apply settled_closed|].
  assert (sublist (select_neighbors nearest (capacity config l)) (snd <$> nearest)) as Hsub
    by apply fmap_sublist, sublist_take.
  assert (∀ j, j ∈ select_neighbors nearest (capacity config l) → settled (hg_nodes g) node l j) as Hset.
  { intros j Hj. apply sublist_submseteq in Hsub. eapply elem_of_submseteq in Hj; [|done].
    apply list_elem_of_fmap in Hj as (x & -> & Hin). by apply Hx. }
  destruct (connect_all_ok g node l [] (select_neighbors nearest (capacity config l)))
    as (g' & Hg' & Hok' & Hre & Hnode & Hback & Hsame); try done.
  - cbn. by eapply sublist_NoDup.
  - cbn. unfold select_neighbors. rewrite length_fmap, length_take. lia.
  - intros j Hj. destruct (Hset j Hj) as [? ?]. split_and!; [done..|]. apply Hfresh.
  - exists nearest, g'. split_and!; try done; [intros x ?%Hx; naive_solver|]. intros j l' Hl'. apply Hsame. by left.
Qed.

(** The entry points of the next layer. *)
Lemma next_eps_ok nodes node l l' ep (nearest : list entry) :
  NoDup (snd <$> nearest) → (∀ x, x ∈ nearest → settled nodes node l x.2) → l' ≤ l → settled nodes node l' ep →
  eps_ok nodes node l' (match nearest with [] => [ep] | _ => snd <$> nearest end).
Proof.
  intros Hnd Hx Hl Hep. destruct nearest as [|x nearest].
  - split_and!; [apply NoDup_singleton|done|]. by intros i ->%list_elem_of_singleton.
  - split_and!; [done..|]. intros i (y & -> & Hy)%list_elem_of_fmap. destruct (Hx y Hy) as [? Hr].
    split; [done|]. by apply (reaches_le _ l).
Qed.

Lemma fresh_same nodes nodes' node l :
  (∀ j, links_at nodes' j l = links_at nodes j l) → fresh_on nodes node l → fresh_on nodes' node l.
Proof. intros Heq [Hown Hf]. split; [by rewrite Heq|]. intros j old. rewrite Heq. apply Hf. Qed.

Lemma eps_same nodes nodes' node l eps :
  same_bodies nodes nodes' → eps_ok nodes node l eps → eps_ok nodes' node l eps.
Proof.
  intros Hb (? & ? & He). split_and!; [done..|]. intros i Hi. destruct (He i Hi) as [? ?]. split; [done|].
  by apply (reaches_same nodes).
Qed.

Lemma insert_layers_ok layers g node ep vector eps :
  links_ok config (hg_nodes g) → StronglySorted gt layers →
  (∀ l, l ∈ layers → reaches (hg_nodes g) l node ∧ fresh_on (hg_nodes g) node l ∧
     settled (hg_nodes g) node l ep ∧ eps_ok (hg_nodes g) node l eps) →
  ∃ g', insert_layers config metric ep node vector layers eps g = Some g' ∧
    links_ok config (hg_nodes g') ∧ relinked g g'.
Proof.
  intros Hok Hsorted. revert g eps Hok. induction Hsorted as [|l layers Hsorted IH Hlt]; intros g eps Hok Hall.
  { exists g. by split_and!. }
  destruct (Hall l) as (Hr & Hf & Hep & Heps); [by left|].
  destruct (layer_step g node l vector eps) as (nearest & g1 & Hs & Hc & Hok1 & Hre1 & (Hnd & Hx) & _ & _ & _ & Hsame);
    [done..|]. cbn [insert_layers]. rewrite Hs. cbn. rewrite Hc. cbn.
  rewrite Forall_forall in Hlt.
  destruct (IH g1 (match nearest with [] => [ep] | _ => snd <$> nearest end)) as (g2 & Hg2 & Hok2 & Hre2); [done| |].
  - intros l' Hl'. destruct (Hall l') as (Hr' & Hf' & Hep' & _); [by right|]. pose proof (Hlt l' Hl').
    pose proof (re_bodies _ _ Hre1) as Hb. split_and!.
    + by apply (reaches_same (hg_nodes g)).
    + apply (fresh_same (hg_nodes g)); [|done]. intros j. apply Hsame. lia.
    + destruct Hep'. split; [done|]. by apply (reaches_same (hg_nodes g)).
    + apply (eps_same (hg_nodes g)); [done|]. apply (next_eps_ok _ _ l); [done|intros x Hin; by apply Hx|lia|done].
  - exists g2. split_and!; [done..|by transitivity g1].
Qed.

End connect.

(** ** The descent *)

Lemma layers_down_elem top bottom l : l ∈ layers_down top bottom ↔ bottom ≤ l ≤ top.
Proof. unfold layers_down. rewrite elem_of_reverse, elem_of_seq. lia. Qed.

Lemma layers_down_sorted top bottom : StronglySorted gt (layers_down top bottom).
Proof.
  unfold layers_down. generalize (S top - bottom) as n. intros n. revert bottom.
  induction n as [|n IH]; intros bottom; cbn [seq]; [constructor|]. rewrite reverse_cons.
  apply StronglySorted_app. split_and!.
  - intros x y. rewrite elem_of_reverse, elem_of_seq, list_elem_of_singleton. lia.
  - apply IH.
  - repeat constructor.
Qed.

(** The descent stays within [Q], a predicate for each layer that its links stay in and that
    holds of a node on the layers below, too. *)
Lemma descend_ok {PW : Powi32} g query metric (Q : nat → nat → Prop) bottom layers i :
  (∀ l, l ∈ layers → closed g l (Q l) ∧ bottom ≤ l ∧ Q l i) → StronglySorted gt layers →
  (∀ l l' j, l' ≤ l → Q l j → Q l' j) → Q bottom i →
  ∃ i', descend g query metric layers [i] = Some [i'] ∧ Q bottom i'.
Proof.
  intros Hall Hsorted Hmono. revert i Hall. induction Hsorted as [|l layers Hsorted IH Hlt]; intros i Hall Hi.
  { by exists i. }
  destruct (Hall l) as (Hcl & Hbot & HQ); [by left|]. rewrite Forall_forall in Hlt.
  destruct (search_layer_reaches g query 1 l metric (Q l) [i]) as (found & Hs & Hnd & Hx & _);
    [apply NoDup_singleton|by intros j ->%list_elem_of_singleton|done|].
  cbn [descend]. rewrite Hs. cbn. destruct found as [|[d j] found].
  - apply IH; [|done]. intros l' Hl'. apply Hall. by right.
  - destruct (Hx (d, j)) as (_ & _ & Hj); [by left|]. cbn in Hj. apply IH.
    + intros l' Hl'. destruct (Hall l') as (? & ? & _); [by right|]. split_and!; [done..|].
      apply (Hmono l); [|done]. specialize (Hlt l' Hl'). lia.
    + by apply (Hmono l).
Qed.

(** ** The graph *)

(** A node changed in place: another embedding, or the mark of deletion. *)
Lemma update_node_ok g i n n' :
  graph_ok config g → hg_nodes g !! i = Some n →
  nd_id n' = nd_id n → nd_level n' = nd_level n → nd_neighbors n' = nd_neighbors n →
  graph_ok config (set_nodes (<[i := n']> (hg_nodes g)) g).
Proof.
  intros [[Hlay Hlink] Hids Hentry] Hi Hid Hlv Hnb.
  assert (∀ j, level_at (<[i := n']> (hg_nodes g)) j = level_at (hg_nodes g) j ∧
    id_at (<[i := n']> (hg_nodes g)) j = id_at (hg_nodes g) j ∧
    ∀ l, links_at (<[i := n']> (hg_nodes g)) j l = links_at (hg_nodes g) j l) as Hsame.
  { intros j. unfold level_at, id_at, links_at. destruct (decide (j = i)) as [->|].
    - rewrite list_lookup_insert_eq by (by eapply lookup_lt_Some). rewrite Hi. cbn. split_and!; [congruence..|].
      intros l. by rewrite Hnb.
    - by rewrite list_lookup_insert_ne. }
  assert (∀ j, level_at (<[i := n']> (hg_nodes g)) j = level_at (hg_nodes g) j) as Hl by apply Hsame.
  split; [split|..]; cbn.
  - intros j v l. rewrite Hl. destruct (Hsame j) as (_ & _ & ->). apply Hlay.
  - intros j l ns. destruct (Hsame j) as (_ & _ & ->). intros Hns. destruct (Hlink j l ns Hns) as (? & ? & Hr).
    split_and!; try done. intros k Hk. unfold reaches. rewrite Hl. by apply Hr.
  - intros id j. destruct (Hsame j) as (_ & -> & _). apply Hids.
  - destruct (hg_entry_point g) as [ep|].
    + rewrite Hl. split; [apply Hentry|]. intros j v. rewrite Hl. apply Hentry.
    + rewrite Hentry in Hi. done.
Qed.

Section insert.
Context {PW : Powi32} {DH : DefaultHasher} {LN : Ln} (metric : DistanceMetric).

Lemma push_node_ok nodes id vector metadata level :
  links_ok config nodes →
  let nodes' := nodes ++ [new_node id vector metadata level] in
  links_ok config nodes' ∧ level_at nodes' (length nodes) = Some level ∧
  (∀ l, l ≤ level → links_at nodes' (length nodes) l = Some []) ∧
  (∀ l j old, links_at nodes' j l = Some old → length nodes ∉ old) ∧
  (∀ j v, level_at nodes j = Some v → level_at nodes' j = Some v ∧ j ≠ length nodes).
Proof.
  intros [Hlay Hlink]. cbn zeta. set (nodes' := nodes ++ _).
  assert (∀ j v, level_at nodes j = Some v → level_at nodes' j = Some v ∧ j ≠ length nodes) as Hold.
  { unfold level_at, nodes'. intros j v (n & Hj & ->)%fmap_Some. pose proof (lookup_lt_Some _ _ _ Hj).
    rewrite lookup_app_l, Hj by done. split; [done|lia]. }
  assert (nodes' !! length nodes = Some (new_node id vector metadata level)) as Hnew
    by (unfold nodes'; by rewrite lookup_app_r, Nat.sub_diag).
  assert (∀ j, j ≠ length nodes → nodes' !! j = nodes !! j) as Hother.
  { intros j Hj. unfold nodes'. destruct (decide (j < length nodes)); [by rewrite lookup_app_l|].
    rewrite !lookup_ge_None_2; [done|lia|]. rewrite length_app. cbn. lia. }
  assert (∀ l, links_at nodes' (length nodes) l = if decide (l ≤ level) then Some [] else None) as Hown.
  { intros l. unfold links_at. rewrite Hnew. cbn [mbind option_bind new_node nd_neighbors]. case_decide.
    - apply lookup_replicate_2. lia.
    - apply lookup_replicate_None. lia. }
  assert (∀ l j old, links_at nodes' j l = Some old → j ≠ length nodes ∧ links_at nodes j l = Some old ∨ old = []) as Hat.
  { intros l j old Hl. destruct (decide (j = length nodes)) as [->|Hj].
    - rewrite Hown in Hl. case_decide; [right; congruence|done].
    - left. split; [done|]. unfold links_at in *. by rewrite Hother in Hl. }
  split_and!; [split|..].
  - intros j v l. destruct (decide (j = length nodes)) as [->|Hj].
    + unfold level_at. rewrite Hnew, Hown. intros [= <-]. case_decide; [|by split; [intros []|]]. by split; [|eexists].
    + unfold level_at, links_at. rewrite Hother by done. apply Hlay.
  - intros j l ns [[Hj Hns]| ->]%Hat.
    + destruct (Hlink j l ns Hns) as (? & ? & Hr). split_and!; try done. intros k Hk.
      destruct (Hr k Hk) as (? & v & Hv & ?). split; [done|]. apply Hold in Hv as [Hv _]. by exists v.
    + split_and!; [constructor|cbn; lia|]. by intros k []%not_elem_of_nil.
  - unfold level_at. by rewrite Hnew.
  - intros l Hl. rewrite Hown. by apply decide_True.
  - intros l j old [[_ Hl]| ->]%Hat; [|apply not_elem_of_nil]. intros Hin.
    destruct (Hlink j l old Hl) as (_ & _ & Hr). destruct (Hr _ Hin) as (_ & v & Hv & _). by apply Hold in Hv as [_ []].
  - done.
Qed.

(** What an insertion leaves of the nodes, but for their links. *)
Definition inserted id vector metadata (level : nat) (g g' : HnswGraph) : Prop :=
  match hg_id_map g !! id with
  | Some i => ∃ n, hg_nodes g !! i = Some n ∧
      same_bodies (<[i := with_embedding vector metadata n]> (hg_nodes g)) (hg_nodes g') ∧
      hg_id_map g' = hg_id_map g
  | None => same_bodies (hg_nodes g ++ [new_node id vector metadata level]) (hg_nodes g') ∧
      hg_id_map g' = <[id := length (hg_nodes g)]> (hg_id_map g)
  end.

(** The descent to the layers of the new node, and the linking of it there. *)
Lemma insert_below_ok g ep top id vector metadata level :
  links_ok config (hg_nodes g) → level_at (hg_nodes g) ep = Some top →
  let node := length (hg_nodes g) in
  let g1 := {| hg_nodes := hg_nodes g ++ [new_node id vector metadata level];
               hg_id_map := <[id := node]> (hg_id_map g); hg_entry_point := Some ep;
               hg_current_max_level := top |} in
  ∃ eps g2, descend g1 vector metric (layers_down top (S level)) [ep] = Some eps ∧
    insert_layers config metric ep node vector (layers_down (Nat.min level top) 0) eps g1 = Some g2 ∧
    links_ok config (hg_nodes g2) ∧ relinked g1 g2 ∧
    ∀ l, l ∈ layers_down (Nat.min level top) 0 → reaches (hg_nodes g1) l node ∧ fresh_on (hg_nodes g1) node l ∧
      settled (hg_nodes g1) node l ep ∧ eps_ok (hg_nodes g1) node l eps.
Proof.
  intros Hok Hep. cbn zeta.
  match goal with |- context [descend ?g _ _ _ _] => set (g1 := g) end.
  destruct (push_node_ok (hg_nodes g) id vector metadata level Hok) as (Hok1 & Hlv & Hown & Hfresh & Hold).
  change (hg_nodes g ++ [new_node id vector metadata level]) with (hg_nodes g1)
    in Hok1, Hlv, Hown, Hfresh, Hold.
  assert (∀ l, l ≤ top → settled (hg_nodes g1) (length (hg_nodes g)) l ep) as Hset.
  { intros l Hl. destruct (Hold ep top Hep) as [Hep' Hne]. split; [done|]. by exists top. }
  destruct (descend_ok g1 vector metric (settled (hg_nodes g1) (length (hg_nodes g))) (Nat.min level top)
    (layers_down top (S level)) ep) as (i & Hd & Hi).
  - intros l Hl%layers_down_elem. split_and!; [|lia|apply Hset; lia]. apply settled_closed; [done|apply Hfresh].
  - apply layers_down_sorted.
  - intros l l' j Hl [? Hr]. split; [done|by apply (reaches_le _ l)].
  - apply Hset. lia.
  - assert (∀ l, l ≤ Nat.min level top → eps_ok (hg_nodes g1) (length (hg_nodes g)) l [i]) as Heps.
    { intros l Hl. split_and!; [apply NoDup_singleton|done|]. intros j ->%list_elem_of_singleton.
      destruct Hi as [? Hi]. split; [done|by apply (reaches_le _ (Nat.min level top))]. }
    assert (∀ l, l ∈ layers_down (Nat.min level top) 0 → reaches (hg_nodes g1) l (length (hg_nodes g)) ∧
      fresh_on (hg_nodes g1) (length (hg_nodes g)) l ∧ settled (hg_nodes g1) (length (hg_nodes g)) l ep ∧
      eps_ok (hg_nodes g1) (length (hg_nodes g)) l [i]) as Hall.
    { intros l Hl%layers_down_elem. split_and!; [exists level; split; [done|lia]| |apply Hset; lia|apply Heps; lia].
      split; [apply Hown; lia|apply Hfresh]. }
    destruct (insert_layers_ok metric (layers_down (Nat.min level top) 0) g1 (length (hg_nodes g)) ep vector [i])
      as (g2 & Hg2 & Hok2 & Hre); [done|apply layers_down_sorted|done|].
    by exists [i], g2.
Qed.

Lemma graph_insert_ok count id vector metadata g :
  graph_ok config g →
  ∃ g', graph_insert count id vector metadata config metric g = Some g' ∧ graph_ok config g' ∧
    inserted id vector metadata (assign_level id count (max_connections config)) g g'.
Proof.
  intros Hok. pose proof Hok as [Hlinks Hids Hentry]. unfold graph_insert, inserted.
  destruct (hg_id_map g !! id) as [i|] eqn:Hid.
  { apply Hids in Hid. unfold id_at in Hid. apply fmap_Some in Hid as (n & Hn & Hid). rewrite Hn. cbn.
    eexists. split; [done|]. split; [by eapply update_node_ok|]. by exists n. }
  set (level := assign_level _ _ _).
  destruct (push_node_ok (hg_nodes g) id vector metadata level Hlinks) as (Hok1 & Hlv & _ & _ & Hold).
  assert (∀ id' i, <[id := length (hg_nodes g)]> (hg_id_map g) !! id' = Some i ↔
    id_at (hg_nodes g ++ [new_node id vector metadata level]) i = Some id') as Hids'.
  { intros id' i. unfold id_at. destruct (decide (i < length (hg_nodes g))) as [Hlt|Hge].
    - rewrite lookup_app_l by done. rewrite lookup_insert_Some, Hids. unfold id_at. split; [|].
      + intros [[_ ?]|[_ ?]]; [lia|done].
      + intros Hi. right. split; [|done]. intros <-. apply Hids in Hi. congruence.
    - rewrite lookup_app_r by lia. rewrite lookup_insert_Some, Hids. unfold id_at.
      rewrite (lookup_ge_None_2 (hg_nodes g) i) by lia. split.
      + intros [[<- <-]|[_ ?]]; [|done]. by rewrite Nat.sub_diag.
      + destruct (i - length (hg_nodes g)) eqn:Hi; [|done]. intros [= <-]. left. split; [done|lia]. }
  assert (∀ i v, level_at (hg_nodes g ++ [new_node id vector metadata level]) i = Some v →
    level_at (hg_nodes g) i = Some v ∨ i = length (hg_nodes g) ∧ v = level) as Hcases.
  { intros i v Hv. destruct (decide (i = length (hg_nodes g))) as [->|Hi]; [right|left].
    - rewrite Hlv in Hv. by injection Hv as <-.
    - unfold level_at in *. apply fmap_Some in Hv as (n & Hn & ->). rewrite lookup_app_l in Hn; [by rewrite Hn|].
      apply lookup_lt_Some in Hn. rewrite length_app in Hn. cbn in Hn. lia. }
  destruct (hg_entry_point g) as [ep|] eqn:Hep.
  - destruct Hentry as [Hepl Hmax].
    destruct (insert_below_ok g ep (hg_current_max_level g) id vector metadata level Hlinks Hepl)
      as (eps & g2 & Hd & Hi & Hok2 & [Hb Hm He Hl] & _).
    rewrite Hd. cbn [mbind option_bind]. rewrite Hi. cbn [mbind option_bind]. cbn in Hb, Hm, He, Hl.
    assert (∀ i, level_at (hg_nodes g2) i = level_at (hg_nodes g ++ [new_node id vector metadata level]) i) as Hlvs
      by (intros; by apply level_same).
    eexists. split; [done|]. split; [|by destruct (_ <? _)]. split.
    + by destruct (_ <? _).
    + intros id' i. destruct (_ <? _); cbn; rewrite Hm, (id_same _ _ _ Hb); apply Hids'.
    + destruct (_ <? level) eqn:Hlt.
      * apply Nat.ltb_lt in Hlt. cbn. rewrite Hlvs. split; [done|]. intros i v. rewrite Hlvs.
        intros [Hv|[_ ->]]%Hcases; [|done]. apply Hmax in Hv. lia.
      * apply Nat.ltb_ge in Hlt. rewrite He, Hl, Hlvs. split; [by apply Hold|]. intros i v. rewrite Hlvs.
        intros [Hv|[_ ->]]%Hcases; [by apply Hmax in Hv|done].
  - eexists. split; [done|]. split; [|by split]. split; cbn; [done..|]. split; [done|].
    intros i v [Hv|[_ ->]]%Hcases; [|done]. by rewrite Hentry in Hv.
Qed.

End insert.
End links.
