(* ===== verification/HnswStore.v ===== *)
(** * The vector store over the index

    The store over the index is a map from ids to embeddings, whatever its graph looks like; a
    search answers with entries of the map, and finds a local optimum. *)

From S2P Require Import Prelude Floats Modality VectorSearch BinaryHeap Hnsw HnswSearch HnswSpec.

(** ** The contents of a store *)

Definition embedding_of (n : Node) : Embedding :=
  {| emb_id := nd_id n; emb_vector := nd_vector n; emb_metadata := nd_metadata n |}.

Definition live_embedding (n : Node) : option Embedding :=
  if nd_deleted n then None else Some (embedding_of n).

Definition stored_in (g : HnswGraph) : gmap string Embedding :=
  omap (λ i, hg_nodes g !! i ≫= live_embedding) (hg_id_map g).

Definition stored (s : HnswVectorStore) : gmap string Embedding := stored_in (hn_graph s).

Record store_ok (s : HnswVectorStore) : Prop := {
  so_graph : graph_ok (hn_config s) (hn_graph s);
  so_dimension : ∀ n, n ∈ hg_nodes (hn_graph s) → length (nd_vector n) = hn_dimension s;
}.

(** The parameters of a store do not change. *)
Definition same_parameters (s s' : HnswVectorStore) : Prop :=
  hn_config s' = hn_config s ∧ hn_dimension s' = hn_dimension s ∧ hn_metric s' = hn_metric s.

Lemma stored_lookup config g id e :
  graph_ok config g →
  stored_in g !! id = Some e ↔ ∃ i n, hg_id_map g !! id = Some i ∧ hg_nodes g !! i = Some n ∧
    nd_id n = id ∧ nd_deleted n = false ∧ e = embedding_of n.
Proof.
  intros Hok. unfold stored_in. rewrite lookup_omap. split.
  - intros (i & Hi & (n & Hn & He)%bind_Some)%bind_Some. exists i, n. unfold live_embedding in He.
    destruct (nd_deleted n) eqn:Hd; [done|]. injection He as <-. split_and!; try done.
    apply (go_ids _ _ Hok) in Hi. unfold id_at in Hi. rewrite Hn in Hi. by injection Hi.
  - intros (i & n & Hi & Hn & _ & Hd & ->). rewrite Hi. cbn. rewrite Hn. cbn. unfold live_embedding. by rewrite Hd.
Qed.

(** A live node, by its id. *)
Lemma live_stored config g i :
  graph_ok config g → live g i → ∃ n, hg_nodes g !! i = Some n ∧ hg_id_map g !! nd_id n = Some i ∧
    stored_in g !! nd_id n = Some (embedding_of n).
Proof.
  intros Hok (n & Hn & Hd). assert (hg_id_map g !! nd_id n = Some i) as Hi
    by (apply (go_ids _ _ Hok); unfold id_at; by rewrite Hn).
  exists n. split_and!; [done..|]. apply (stored_lookup config); [done|]. by exists i, n.
Qed.

Lemma stored_same g g' :
  same_bodies (hg_nodes g) (hg_nodes g') → hg_id_map g' = hg_id_map g → stored_in g' = stored_in g.
Proof.
  intros Hb Hm. apply map_eq. intros id. unfold stored_in. rewrite !lookup_omap, Hm.
  destruct (hg_id_map g !! id) as [i|]; [|done]. cbn. destruct (hg_nodes g !! i) as [n|] eqn:Hn.
  - destruct (body_lookup _ _ i n Hb Hn) as (n' & -> & Hbody). cbn. injection Hbody as H1 H2 H3 H4 H5.
    unfold live_embedding, embedding_of. by rewrite H1, H2, H3, H5.
  - destruct (hg_nodes g' !! i) as [n'|] eqn:Hn'; [|done].
    apply same_bodies_sym in Hb. destruct (body_lookup _ _ i n' Hb Hn') as (n & ? & _). congruence.
Qed.

(** A node changed in place. *)
Lemma stored_update config g i n n' :
  graph_ok config g → hg_nodes g !! i = Some n → nd_id n' = nd_id n →
  stored_in (set_nodes (<[i := n']> (hg_nodes g)) g) =
    partial_alter (λ _, live_embedding n') (nd_id n) (stored_in g).
Proof.
  intros Hok Hi Hid. apply map_eq. intros id. unfold stored_in. rewrite lookup_omap. cbn.
  assert (hg_id_map g !! nd_id n = Some i) as Hmap by (apply (go_ids _ _ Hok); unfold id_at; by rewrite Hi).
  destruct (decide (id = nd_id n)) as [->|Hne].
  - rewrite lookup_partial_alter_eq, Hmap. cbn. by rewrite list_lookup_insert_eq by (by eapply lookup_lt_Some).
  - rewrite lookup_partial_alter_ne, lookup_omap by done. destruct (hg_id_map g !! id) as [j|] eqn:Hj; [|done]. cbn.
    rewrite list_lookup_insert_ne; [done|]. intros <-. apply (go_ids _ _ Hok) in Hj, Hmap. congruence.
Qed.

Lemma stored_push config g id vector metadata level ep top :
  graph_ok config g → hg_id_map g !! id = None →
  stored_in {| hg_nodes := hg_nodes g ++ [new_node id vector metadata level];
               hg_id_map := <[id := length (hg_nodes g)]> (hg_id_map g); hg_entry_point := ep;
               hg_current_max_level := top |} =
    <[id := {| emb_id := id; emb_vector := vector; emb_metadata := metadata |}]> (stored_in g).
Proof.
  intros Hok Hid. apply map_eq. intros id'. unfold stored_in. rewrite lookup_omap. cbn.
  destruct (decide (id' = id)) as [->|Hne].
  - rewrite !lookup_insert_eq. cbn. by rewrite lookup_app_r, Nat.sub_diag.
  - rewrite !lookup_insert_ne, lookup_omap by done. destruct (hg_id_map g !! id') as [j|] eqn:Hj; [|done]. cbn.
    apply (go_ids _ _ Hok) in Hj. unfold id_at in Hj. apply fmap_Some in Hj as (n & Hn & _).
    by rewrite lookup_app_l by (by eapply lookup_lt_Some).
Qed.

Lemma graph_new_ok config : graph_ok config HnswGraph_new.
Proof.
  split; [split|..]; cbn; [..|done].
  - intros i v l. unfold level_at. by rewrite lookup_nil.
  - intros i l ns. unfold links_at. by rewrite lookup_nil.
  - intros id i. unfold id_at. by rewrite lookup_empty, lookup_nil.
Qed.

(** The live nodes, one for each entry. *)
Lemma live_nodes config g :
  graph_ok config g → length (filter (λ n, nd_deleted n = false) (hg_nodes g)) = size (stored_in g).
Proof.
  intros Hok. set (live_list := filter _ (hg_nodes g)).
  assert (NoDup (nd_id <$> hg_nodes g)) as Hnd.
  { apply NoDup_alt. intros i j id. rewrite !list_lookup_fmap.
    fold (id_at (hg_nodes g) i) (id_at (hg_nodes g) j). rewrite <- !(go_ids _ _ Hok). congruence. }
  assert (stored_in g = list_to_map ((λ n, (nd_id n, embedding_of n)) <$> live_list)) as ->.
  { assert (NoDup (((λ n, (nd_id n, embedding_of n)) <$> live_list).*1)) as Hnd'.
    { rewrite <- list_fmap_compose. change (NoDup (nd_id <$> live_list)). by apply NoDup_fmap_filter. }
    apply map_eq. intros id. apply option_eq. intros e. rewrite (stored_lookup config) by done.
    rewrite <- elem_of_list_to_map by done. rewrite list_elem_of_fmap. split.
    - intros (i & n & _ & Hn & <- & Hd & ->). exists n. split; [done|]. apply list_elem_of_filter.
      split; [done|]. by eapply list_elem_of_lookup_2.
    - intros (n & [= -> ->] & [Hd [i Hi]%list_elem_of_lookup]%list_elem_of_filter).
      exists i, n. split_and!; try done. apply (go_ids _ _ Hok). unfold id_at. by rewrite Hi. }
  rewrite map_size_list_to_map; [by rewrite length_fmap|].
  rewrite <- list_fmap_compose. change (NoDup (nd_id <$> live_list)). by apply NoDup_fmap_filter.
Qed.

Section store.
Context {PW : Powi32} {DH : DefaultHasher} {LN : Ln}.
Implicit Types (s : HnswVectorStore) (e : Embedding).

(** ** The store is a map *)

Lemma hnsw_upsert_ok count e s :
  store_ok s → length (emb_vector e) = hn_dimension s →
  ∃ g', graph_insert count (emb_id e) (emb_vector e) (emb_metadata e) (hn_config s) (hn_metric s) (hn_graph s) = Some g' ∧
    hnsw_upsert count e s = Some (Ok (), set_graph g' s) ∧ store_ok (set_graph g' s) ∧
    stored (set_graph g' s) = <[emb_id e := e]> (stored s).
Proof.
  intros [Hg Hd] Hdim. unfold hnsw_upsert. rewrite decide_True by done.
  destruct (graph_insert_ok (hn_config s) (hn_metric s) count (emb_id e) (emb_vector e) (emb_metadata e) (hn_graph s) Hg)
    as (g' & Hins & Hg' & Hin). exists g'. rewrite Hins. split_and!; [done..| |]; unfold inserted in Hin.
  - split; [done|]. cbn. intros n' Hn'. apply list_elem_of_lookup in Hn' as [j Hj].
    destruct (hg_id_map (hn_graph s) !! emb_id e) as [i|].
    + destruct Hin as (n & Hn & Hb & _). apply same_bodies_sym in Hb.
      destruct (body_lookup _ _ j n' Hb Hj) as (m & Hm & [= _ <- _ _ _]).
      apply list_lookup_insert_Some in Hm as [(_ & <- & _)|[_ Hm]]; [done|]. eapply Hd, list_elem_of_lookup_2, Hm.
    + destruct Hin as [Hb _]. apply same_bodies_sym in Hb.
      destruct (body_lookup _ _ j n' Hb Hj) as (m & Hm%list_elem_of_lookup_2 & [= _ <- _ _ _]).
      apply elem_of_app in Hm as [Hm| ->%list_elem_of_singleton]; [by apply Hd|done].
  - unfold stored. cbn. destruct (hg_id_map (hn_graph s) !! emb_id e) as [i|] eqn:Hi.
    + destruct Hin as (n & Hn & Hb & Hm). rewrite (stored_same (set_nodes _ (hn_graph s)) g' Hb Hm).
      assert (nd_id n = emb_id e) as Hid.
      { apply (go_ids _ _ Hg) in Hi. unfold id_at in Hi. rewrite Hn in Hi. by injection Hi. }
      rewrite (stored_update (hn_config s) _ i n) by done. rewrite Hid. unfold live_embedding. cbn.
      assert (embedding_of (with_embedding (emb_vector e) (emb_metadata e) n) = e) as ->; [|done].
      unfold embedding_of. cbn. rewrite Hid. by destruct e.
    + destruct Hin as [Hb Hm].
      rewrite (stored_same {| hg_nodes := hg_nodes (hn_graph s) ++ [new_node (emb_id e) (emb_vector e) (emb_metadata e) _];
        hg_id_map := <[emb_id e := length (hg_nodes (hn_graph s))]> (hg_id_map (hn_graph s));
        hg_entry_point := None; hg_current_max_level := 0 |} g' Hb Hm).
      rewrite (stored_push (hn_config s)) by done. by destruct e.
Qed.

Lemma hnsw_delete_ok id s :
  store_ok s → ∃ s', hnsw_delete id s = Some (Ok (), s') ∧ store_ok s' ∧ same_parameters s s' ∧
    stored s' = delete id (stored s).
Proof.
  intros [Hg Hd]. unfold hnsw_delete. destruct (hg_id_map (hn_graph s) !! id) as [i|] eqn:Hi.
  - pose proof Hi as Hi'. apply (go_ids _ _ Hg) in Hi'. unfold id_at in Hi'. apply fmap_Some in Hi' as (n & Hn & ->).
    rewrite Hn. cbn [mbind option_bind]. eexists. split; [done|]. split; [split|split].
    + by eapply update_node_ok.
    + intros m Hm%list_elem_of_lookup. destruct Hm as [j Hm].
      apply list_lookup_insert_Some in Hm as [(_ & <- & _)|[_ Hm]]; cbn; [|by eapply Hd, list_elem_of_lookup_2].
      by eapply Hd, list_elem_of_lookup_2.
    + done.
    + unfold stored. cbn [hn_graph set_graph].
      change (set_nodes _ (hn_graph s)) with (set_nodes (<[i := with_deleted n]> (hg_nodes (hn_graph s))) (hn_graph s)).
      by rewrite (stored_update (hn_config s) _ i n).
  - exists s. split_and!; [done..|]. symmetry. apply delete_id. unfold stored, stored_in. by rewrite lookup_omap, Hi.
Qed.

Lemma hnsw_get_ok id s : store_ok s → hnsw_get id s = Some (Ok (stored s !! id)).
Proof.
  intros [Hg _]. unfold hnsw_get, stored, stored_in. rewrite lookup_omap.
  destruct (hg_id_map (hn_graph s) !! id) as [i|] eqn:Hi; [|done]. cbn.
  apply (go_ids _ _ Hg) in Hi. unfold id_at in Hi. apply fmap_Some in Hi as (n & Hn & _). by rewrite Hn.
Qed.

Lemma new_ok dimension metric config : store_ok (HnswVectorStore_new dimension metric config).
Proof. split; [apply graph_new_ok|]. cbn. by intros n []%not_elem_of_nil. Qed.

(** What is done to a store, and what that does to a map. *)
Inductive IndexOp := IxUpsert (count : Z) (e : Embedding) | IxDelete (id : string).

Definition apply_op (s : HnswVectorStore) (op : IndexOp) : option HnswVectorStore :=
  match op with
  | IxUpsert count e => snd <$> hnsw_upsert count e s
  | IxDelete id => snd <$> hnsw_delete id s
  end.

Definition run_index (ops : list IndexOp) (s : HnswVectorStore) : option HnswVectorStore :=
  foldl (λ os op, s ← os; apply_op s op) (Some s) ops.

Definition map_op (dimension : nat) (m : gmap string Embedding) (op : IndexOp) : gmap string Embedding :=
  match op with
  | IxUpsert _ e => if decide (length (emb_vector e) = dimension) then <[emb_id e := e]> m else m
  | IxDelete id => delete id m
  end.

Lemma apply_op_ok op s :
  store_ok s → ∃ s', apply_op s op = Some s' ∧ store_ok s' ∧ same_parameters s s' ∧
    stored s' = map_op (hn_dimension s) (stored s) op.
Proof.
  intros Hok. destruct op as [count e|id]; cbn [apply_op map_op].
  - case_decide as Hd.
    + destruct (hnsw_upsert_ok count e s Hok Hd) as (g' & _ & -> & Hok' & Hst). cbn. eexists. by split_and!.
    + unfold hnsw_upsert. rewrite decide_False by done. cbn. exists s. by split_and!.
  - destruct (hnsw_delete_ok id s Hok) as (s' & -> & Hok' & Hp & Hst). cbn. by exists s'.
Qed.

Lemma run_index_app ops ops' s : run_index (ops ++ ops') s = (s' ← run_index ops s; run_index ops' s').
Proof.
  unfold run_index. rewrite foldl_app. destruct (foldl _ (Some s) ops) as [s'|]; cbn; [done|].
  by induction ops' as [|op ops' IH].
Qed.

Lemma run_index_ok ops s :
  store_ok s → ∃ s', run_index ops s = Some s' ∧ store_ok s' ∧ same_parameters s s' ∧
    stored s' = foldl (map_op (hn_dimension s)) (stored s) ops.
Proof.
  intros Hok. induction ops as [|op ops IH] using rev_ind; [by exists s|].
  destruct IH as (s1 & Hs1 & Hok1 & (Hp1 & Hp2 & Hp3) & Hst1).
  destruct (apply_op_ok op s1 Hok1) as (s2 & Hs2 & Hok2 & (Hq1 & Hq2 & Hq3) & Hst2).
  exists s2. rewrite run_index_app, Hs1. cbn. split; [done|]. split; [done|].
  split; [split_and!; congruence|]. by rewrite foldl_app, Hst2, Hst1, Hp2.
Qed.


(** ** What a search answers *)

(** The last search of a graph, on the layer 0 from where the descent ends. *)
Lemma graph_search_ok config g query k ef metric :
  graph_ok config g →
  match hg_entry_point g with
  | None => hg_nodes g = [] ∧ graph_search query k ef metric g = Some []
  | Some _ => ∃ i beam, reaches (hg_nodes g) 0 i ∧ NoDup (snd <$> beam) ∧
      search_layer g query [i] (Nat.max ef k) 0 metric = Some beam ∧
      graph_search query k ef metric g = Some (take k beam) ∧
      (∀ x, x ∈ beam → x.1 = dist_to g query metric x.2 ∧ live g x.2) ∧
      (length beam < Nat.max ef k ∨ length (hg_nodes g) ≤ Nat.max ef k → finds_all g 0 [i] beam)
  end.
Proof.
  intros [Hlinks _ Hentry]. unfold graph_search. destruct (hg_entry_point g) as [ep|]; [|done].
  destruct Hentry as [Hep _].
  assert (∀ l, closed g l (reaches (hg_nodes g) l)) as Hcl.
  { intros l i j _. rewrite links_of_at. destruct (links_at _ i l) as [ns|] eqn:Hl; [|by intros []%not_elem_of_nil].
    cbn. intros Hj _. by apply (lo_links _ _ Hlinks i l ns Hl). }
  destruct (descend_ok g query metric (reaches (hg_nodes g)) 0 (layers_down (hg_current_max_level g) 1) ep)
    as (i & Hd & Hi).
  - intros l Hl%layers_down_elem. split_and!; [apply Hcl|lia|]. eexists. split; [done|lia].
  - apply layers_down_sorted.
  - intros l l' j. apply reaches_le.
  - eexists. split; [done|lia].
  - rewrite Hd. cbn [mbind option_bind].
    destruct (search_layer_reaches g query (Nat.max ef k) 0 metric (reaches (hg_nodes g) 0) [i])
      as (beam & Hb & Hnd & Hx & Hall); [apply NoDup_singleton|by intros j ->%list_elem_of_singleton|apply Hcl|].
    rewrite Hb. cbn [mbind option_bind]. exists i, beam. split_and!; try done. intros x ?%Hx. naive_solver.
Qed.

(** The distance of the query from an entry. *)
Definition distance_of s (query : list f32) (id : string) : f32 :=
  match stored s !! id with
  | Some e => distance (hn_metric s) query (emb_vector e)
  | None => f32_of_Z 0
  end.

(** A link on the bottom layer, by the ids at its ends. *)
Definition linked s (id id' : string) : Prop :=
  ∃ i j, hg_id_map (hn_graph s) !! id = Some i ∧ hg_id_map (hn_graph s) !! id' = Some j ∧
    j ∈ links_of (hn_graph s) 0 i.

(** Every distance from the query is a number. *)
Definition measurable s (query : list f32) : Prop :=
  ∀ n, n ∈ hg_nodes (hn_graph s) → f64_is_nan (distance (hn_metric s) query (nd_vector n)) = false.

Lemma measurable_dist s query i :
  measurable s query → valid (hn_graph s) i → f64_is_nan (dist_to (hn_graph s) query (hn_metric s) i) = false.
Proof. intros Hm [n Hn]. unfold dist_to. rewrite Hn. by eapply Hm, list_elem_of_lookup_2. Qed.

(** An entry found in the graph, and what the store makes of it. *)
Definition reported s (query : list f32) (x : entry) (r : SearchResult) : Prop :=
  ∃ e, hg_id_map (hn_graph s) !! re_id r = Some x.2 ∧ stored s !! re_id r = Some e ∧
    x.1 = distance (hn_metric s) query (emb_vector e) ∧ re_score r = distance_to_score (hn_metric s) x.1.

Lemma reported_distance s query x r : reported s query x r → distance_of s query (re_id r) = x.1.
Proof. intros (e & _ & He & Hd & _). unfold distance_of. by rewrite He. Qed.

Lemma to_results_ok s query found :
  store_ok s → (∀ x, x ∈ found → x.1 = dist_to (hn_graph s) query (hn_metric s) x.2 ∧ live (hn_graph s) x.2) →
  ∃ rs, mapM (to_result s) found = Some rs ∧ Forall2 (reported s query) found rs.
Proof.
  intros Hok Hx. assert (∃ rs, Forall2 (λ x r, to_result s x = Some r ∧ reported s query x r) found rs) as [rs Hrs].
  { induction found as [|x found IH]; [by exists []|]. destruct IH as [rs Hrs]; [intros y Hy; apply Hx; by right|].
    destruct (Hx x) as [Hd Hl]; [by left|].
    destruct (live_stored _ _ _ (so_graph _ Hok) Hl) as (n & Hn & Hi & Hst).
    exists ({| re_id := nd_id n; re_score := distance_to_score (hn_metric s) x.1 |} :: rs).
    constructor; [|done]. split; [unfold to_result; by rewrite Hn|].
    exists (embedding_of n). split_and!; [done..| |done]. rewrite Hd. unfold dist_to. by rewrite Hn. }
  exists rs. split; [apply mapM_Some_2|]; (eapply Forall2_impl; [exact Hrs|]); by intros x r [? ?].
Qed.

Lemma reported_ids s query found rs :
  Forall2 (reported s query) found rs → NoDup (snd <$> found) → NoDup (re_id <$> rs).
Proof.
  intros Hall. induction Hall as [|x r found rs (e & Hi & _) Hall IH]; [constructor|].
  rewrite !fmap_cons, !NoDup_cons. intros [Hx Hnd]. split; [|by apply IH].
  intros (r' & Hr & Hin)%list_elem_of_fmap. apply Hx. apply list_elem_of_lookup in Hin as [j Hj].
  destruct (Forall2_lookup_r _ _ _ _ _ Hall Hj) as (y & Hy & (e' & Hi' & _)).
  rewrite <- Hr, Hi in Hi'. injection Hi' as ->. apply list_elem_of_fmap. exists y. split; [done|].
  by eapply list_elem_of_lookup_2.
Qed.

Lemma reported_sorted s query found rs :
  Forall2 (reported s query) found rs → StronglySorted (smaller fst) found →
  StronglySorted (smaller (λ r, distance_of s query (re_id r))) rs.
Proof.
  intros Hall. induction Hall as [|x r found rs Hr Hall IH]; [constructor|].
  intros [Hs Hx]%StronglySorted_inv. constructor; [by apply IH|]. apply Forall_forall.
  intros r' Hin. apply list_elem_of_lookup in Hin as [j Hj].
  destruct (Forall2_lookup_r _ _ _ _ _ Hall Hj) as (y & Hy & Hr'). rewrite Forall_forall in Hx.
  unfold smaller. rewrite (reported_distance s query x r), (reported_distance s query y r') by done.
  by eapply Hx, list_elem_of_lookup_2.
Qed.

Lemma reported_elem s query found rs r :
  Forall2 (reported s query) found rs → r ∈ rs → ∃ x, x ∈ found ∧ reported s query x r.
Proof.
  intros Hall Hin. apply list_elem_of_lookup in Hin as [j Hj].
  destruct (Forall2_lookup_r _ _ _ _ _ Hall Hj) as (y & Hy & Hr). exists y.
  split; [by eapply list_elem_of_lookup_2|done].
Qed.

Lemma reported_elem' s query found rs id i :
  Forall2 (reported s query) found rs → store_ok s → hg_id_map (hn_graph s) !! id = Some i →
  i ∈ snd <$> found → id ∈ re_id <$> rs.
Proof.
  intros Hall Hok Hi (x & -> & Hin)%list_elem_of_fmap. apply list_elem_of_lookup in Hin as [j Hj].
  destruct (Forall2_lookup_l _ _ _ _ _ Hall Hj) as (r & Hr & (e & Hi' & _)).
  apply list_elem_of_fmap. exists r. split; [|by eapply list_elem_of_lookup_2].
  apply (go_ids _ _ (so_graph _ Hok)) in Hi, Hi'. congruence.
Qed.

(** A node that is in the beam or, when the beam is full, no closer than all of it, is in the
    first [k] of the beam or, when these are [k], no closer than all of them. *)
Lemma take_optimal g query k ef metric beam j :
  (∀ x, x ∈ beam → x.1 = dist_to g query metric x.2) →
  length beam ≤ Nat.max ef k → StronglySorted (smaller fst) beam →
  (j ∈ snd <$> beam ∨ length beam = Nat.max ef k ∧ ∀ y, y ∈ beam → f64_leb (y : entry).1 (dist_to g query metric j) = true) →
  j ∈ snd <$> take k beam ∨
    length (take k beam) = k ∧ ∀ y, y ∈ take k beam → f64_leb y.1 (dist_to g query metric j) = true.
Proof.
  intros Hd Hlen Hs Hj. rewrite length_take. pose proof (take_drop k beam) as Htd.
  destruct Hj as [Hj|[Hl Hall]].
  - rewrite <- Htd, fmap_app in Hj. apply elem_of_app in Hj as [?|Hj]; [by left|right].
    apply list_elem_of_fmap in Hj as ([d i] & -> & Hz). cbn [snd]. split.
    + destruct (decide (k ≤ length beam)); [lia|]. rewrite drop_ge in Hz by lia. by apply not_elem_of_nil in Hz.
    + intros y Hy. assert ((d, i) ∈ beam) as Hzb by (rewrite <- Htd; apply elem_of_app; by right).
      apply Hd in Hzb. cbn in Hzb. rewrite <- Hzb.
      rewrite <- Htd in Hs. apply StronglySorted_app in Hs as (Hlt & _). by apply (Hlt y (d, i)).
  - right. split; [lia|]. intros y Hy. apply Hall. rewrite <- Htd. apply elem_of_app. by left.
Qed.

Lemma hnsw_search_ok s (query : list f32) (k : nat) :
  store_ok s →
  if decide (length query = hn_dimension s) then
    ∃ rs, hnsw_search query k s = Some (Ok rs) ∧ length rs ≤ k ∧ NoDup (re_id <$> rs) ∧
      (∀ r, r ∈ rs → ∃ e, stored s !! re_id r = Some e ∧
         re_score r = distance_to_score (hn_metric s) (distance (hn_metric s) query (emb_vector e))) ∧
      (measurable s query →
         StronglySorted (smaller (λ r, distance_of s query (re_id r))) rs ∧
         ∀ r id, r ∈ rs → linked s (re_id r) id → is_Some (stored s !! id) →
           id ∈ re_id <$> rs ∨
           length rs = k ∧ ∀ r', r' ∈ rs → f64_leb (distance_of s query (re_id r')) (distance_of s query id) = true)
  else hnsw_search query k s = Some (Err (DimensionMismatch (hn_dimension s) (length query))).
Proof.
  intros Hok. unfold hnsw_search. case_decide as Hdim; [|done].
  pose proof (graph_search_ok (hn_config s) (hn_graph s) query k (ef_search (hn_config s)) (hn_metric s) (so_graph _ Hok)) as Hg.
  destruct (hg_entry_point (hn_graph s)) as [ep|]; cycle 1.
  { destruct Hg as [_ ->]. cbn. exists []. split; [done|]. split; [cbn; lia|].
    split; [constructor|]. split; [by intros r []%not_elem_of_nil|].
    intros _. split; [constructor|]. by intros r id []%not_elem_of_nil. }
  destruct Hg as (i & beam & Hi & Hnd & Hs & Hsearch & Hx & _). rewrite Hsearch. cbn [mbind option_bind].
  pose proof (take_drop k beam) as Htd.
  assert (∀ x, x ∈ take k beam → x ∈ beam) as Htake by (intros x Hin; rewrite <- Htd; apply elem_of_app; by left).
  destruct (to_results_ok s query (take k beam) Hok) as (rs & Hrs & Hall); [intros x Hin; by apply Hx, Htake|].
  match goal with |- context [mapM ?f ?l] => change (mapM f l) with (mapM (to_result s) (take k beam)) end.
  rewrite Hrs. cbn [mbind option_bind]. exists rs. split; [done|]. pose proof (Forall2_length _ _ _ Hall) as Hlen.
  split; [rewrite <- Hlen, length_take; lia|].
  split. { eapply reported_ids; [done|]. rewrite <- Htd, fmap_app in Hnd. by apply NoDup_app in Hnd as (? & _). }
  split. { intros r Hr. destruct (reported_elem _ _ _ _ _ Hall Hr) as (x & _ & e & _ & He & Hd & Hsc). exists e. by rewrite <- Hd. }
  intros Hm. destruct (decide (k = 0)) as [->|Hk].
  { destruct rs; [|done]. split; [constructor|]. by intros r id []%not_elem_of_nil. }
  destruct (search_layer_optimal (hn_graph s) query (Nat.max (ef_search (hn_config s)) k) 0 (hn_metric s) (λ _, True)
    (λ j Hj, measurable_dist s query j Hm Hj) [i] beam) as (Hbl & Hbs & Hopt);
    [apply NoDup_singleton|done|by intros ? ? _ _ _|cbn; lia|done|].
  assert (StronglySorted (smaller fst) (take k beam)) as Hts
    by (rewrite <- Htd in Hbs; by apply StronglySorted_app in Hbs as (_ & ? & _)).
  split; [by eapply reported_sorted|]. intros r id Hr (a & j & Ha & Hj & Hlink) [e He].
  destruct (reported_elem _ _ _ _ _ Hall Hr) as (x & Hxin & ex & Hxi & _). rewrite Hxi in Ha. injection Ha as <-.
  apply (stored_lookup (hn_config s)) in He as (j' & n & Hj' & Hn & Hid & Hdel & ->); [|apply Hok].
  rewrite Hj' in Hj. injection Hj as ->.
  destruct (take_optimal (hn_graph s) query k (ef_search (hn_config s)) (hn_metric s) beam j) as [Hin|[Hfull Hfar]];
    [intros y ?%Hx; naive_solver|done|done| | |].
  - apply Hopt; [by exists n|]. right. exists x. auto.
  - left. by eapply reported_elem'.
  - right. split; [by rewrite <- Hlen|]. intros r' Hr'.
    destruct (reported_elem _ _ _ _ _ Hall Hr') as (y & Hy & Hrep). rewrite (reported_distance s query y r') by done.
    assert (distance_of s query id = dist_to (hn_graph s) query (hn_metric s) j) as ->; [|by apply Hfar].
    unfold distance_of, dist_to. rewrite Hn.
    assert (stored s !! id = Some (embedding_of n)) as ->; [|done].
    apply (stored_lookup (hn_config s)); [apply Hok|]. by exists j, n.
Qed.

(** C19: A search answers with entries of the store, at most as many as asked for, each once and
    with the score of its own distance.  When the distances are numbers, the answers are
    sorted, closest first, and they are a local optimum: an entry that a link leads to from an
    answer is itself an answer, or there are [k] answers that are all at least as close. *)
Theorem search_is_local_optimum s (query : list f32) (k : nat) :
  store_ok s →
  if decide (length query = hn_dimension s) then
    ∃ rs, hnsw_search query k s = Some (Ok rs) ∧ length rs ≤ k ∧ NoDup (re_id <$> rs) ∧
      (∀ r, r ∈ rs → ∃ e, stored s !! re_id r = Some e ∧
         re_score r = distance_to_score (hn_metric s) (distance (hn_metric s) query (emb_vector e))) ∧
      (measurable s query →
         StronglySorted (smaller (λ r, distance_of s query (re_id r))) rs ∧
         ∀ r id, r ∈ rs → linked s (re_id r) id → is_Some (stored s !! id) →
           id ∈ re_id <$> rs ∨
           length rs = k ∧ ∀ r', r' ∈ rs → f64_leb (distance_of s query (re_id r')) (distance_of s query id) = true)
  else hnsw_search query k s = Some (Err (DimensionMismatch (hn_dimension s) (length query))).
Proof. apply hnsw_search_ok. Qed.

End store.
