(* ===== verification/HnswExact.v ===== *)
(** * When the vector index is exact, and when it forgets

    On a small store that nothing was deleted from, a search finds the closest entries, as the
    search through all of them does; in a store that everything was deleted from, it finds
    nothing that is inserted afterwards.  The index is a vector store that the hexad store can
    be built on. *)

From S2P Require Import Prelude Floats Modality VectorSearch BinaryHeap Hnsw HnswSearch HnswSpec HnswStore.

Section store.
Context {PW : Powi32} {DH : DefaultHasher} {LN : Ln}.
Implicit Types (s : HnswVectorStore) (e : Embedding).

(** ** A small store *)

(** Every two nodes are linked on the bottom layer; [linked_but]: all but [node]. *)
Definition linked_but (g : HnswGraph) (node : nat) : Prop :=
  ∀ i j, valid g i → valid g j → i ≠ j → i ≠ node → j ≠ node → j ∈ links_of g 0 i.

Definition complete (g : HnswGraph) : Prop := ∀ i j, valid g i → valid g j → i ≠ j → j ∈ links_of g 0 i.

Definition all_live (g : HnswGraph) : Prop := ∀ i, valid g i → live g i.

Lemma valid_length g l : NoDup l → (∀ i, i ∈ l → valid g i) → length l ≤ length (hg_nodes g).
Proof.
  intros Hnd Hv. rewrite <- (size_list_to_set (C := gset nat)) by done. apply size_seen.
  intros i. rewrite elem_of_list_to_set. apply Hv.
Qed.

Lemma valid_same g g' i : same_bodies (hg_nodes g) (hg_nodes g') → valid g' i ↔ valid g i.
Proof.
  intros Hb. unfold valid. split; intros [n Hn].
  - apply same_bodies_sym in Hb. destruct (body_lookup _ _ i n Hb Hn) as (n' & ? & _). by exists n'.
  - destruct (body_lookup _ _ i n Hb Hn) as (n' & ? & _). by exists n'.
Qed.

Lemma live_same g g' i : same_bodies (hg_nodes g) (hg_nodes g') → live g i → live g' i.
Proof.
  intros Hb (n & Hn & Hd). destruct (body_lookup _ _ i n Hb Hn) as (n' & ? & [= _ _ _ _ Heq]).
  exists n'. split; [done|congruence].
Qed.

Lemma length_same g g' : same_bodies (hg_nodes g) (hg_nodes g') → length (hg_nodes g') = length (hg_nodes g).
Proof. intros Hb. apply (f_equal length) in Hb. by rewrite !length_fmap in Hb. Qed.

(** The step of the insertion on the bottom layer of a small graph. *)
Lemma bottom_step config metric g node vector eps :
  links_ok config (hg_nodes g) → reaches (hg_nodes g) 0 node → fresh_on (hg_nodes g) node 0 →
  eps_ok (hg_nodes g) node 0 eps → linked_but g node → all_live g →
  length (hg_nodes g) ≤ ef_construction config → length (hg_nodes g) ≤ S (capacity config 0) →
  ∃ nearest g', search_layer g vector eps (ef_construction config) 0 metric = Some nearest ∧
    connect_all node 0 (capacity config 0) metric (select_neighbors nearest (capacity config 0)) g = Some g' ∧
    complete g'.
Proof.
  intros Hok Hr Hfresh Heps Hlinked Hlive Hef Hcap.
  destruct (layer_step config metric g node 0 vector eps Hok Hr Hfresh Heps)
    as (nearest & g' & Hs & Hc & Hok' & Hre & (Hnd & Hx) & Hall & Hnode & Hback & _).
  exists nearest, g'. split_and!; try done. pose proof (re_bodies _ _ Hre) as Hb.
  destruct Hall as (seen & Hs0 & Hcl & Hf); [by right|]. destruct Heps as (_ & Hne & Heps).
  assert (∀ j, valid g j → j ≠ node → j ∈ snd <$> nearest) as Hin.
  { intros j Hj Hjn. apply Hf; [|by apply Hlive]. destruct eps as [|e0 eps]; [done|].
    destruct (Heps e0) as [He0 Hre0]; [by left|]. assert (valid g e0) as Hv0 by by eapply reaches_valid.
    destruct (decide (j = e0)) as [->|]; [apply Hs0; [by left|done]|].
    apply (Hcl e0); [apply Hs0; [by left|done]|by apply Hlinked|done]. }
  assert (∀ j, j ∈ snd <$> nearest → valid g j ∧ j ≠ node) as Hold.
  { intros j (x & -> & Hxn)%list_elem_of_fmap. destruct (Hx x Hxn) as (_ & ? & ?). split; [by eapply reaches_valid|done]. }
  assert (select_neighbors nearest (capacity config 0) = snd <$> nearest) as Hsel.
  { unfold select_neighbors. rewrite take_ge; [done|].
    assert (length (node :: (snd <$> nearest)) ≤ length (hg_nodes g)) as Hlen.
    { apply valid_length; [constructor; [by intros [_ []]%Hold|done]|].
      intros i [->|Hi]%elem_of_cons; [by eapply reaches_valid|by apply Hold]. }
    cbn in Hlen. rewrite length_fmap in Hlen. lia. }
  rewrite Hsel in Hnode, Hback.
  intros i j Hi Hj Hij. apply (valid_same g g') in Hi, Hj; [|done..].
  rewrite links_of_at. destruct (decide (i = node)) as [->|Hin']; [rewrite Hnode; cbn; by apply Hin|].
  assert (∃ old, links_at (hg_nodes g) i 0 = Some old) as [old Ho].
  { destruct Hi as [n Hn]. apply (lo_layers _ _ Hok i (nd_level n)); [|lia]. unfold level_at. by rewrite Hn. }
  destruct (Hback i old) as (kept & -> & _ & Hkept); [by apply Hin|done|]. cbn.
  destruct (lo_links _ _ Hok i 0 old Ho) as (Hond & _ & Hor).
  rewrite Hkept.
  - apply elem_of_app. destruct (decide (j = node)) as [->|Hjn]; [right; by left|left].
    specialize (Hlinked i j Hi Hj Hij Hin' Hjn). by rewrite links_of_at, Ho in Hlinked.
  - assert (length (node :: i :: old) ≤ length (hg_nodes g)) as Hlen; [|cbn in Hlen; lia].
    apply valid_length.
    + constructor; [|constructor; [by intros [? _]%Hor|done]]. intros [?|Hno]%elem_of_cons; [congruence|].
      by apply (proj2 Hfresh i old).
    + intros z [->|[->|Hz]%elem_of_cons]%elem_of_cons; [by eapply reaches_valid|done|].
      apply Hor in Hz as [_ Hz]. by eapply reaches_valid.
Qed.

Lemma insert_layers_complete config metric layers g node ep vector eps :
  links_ok config (hg_nodes g) → StronglySorted gt layers →
  (∀ l, l ∈ layers → reaches (hg_nodes g) l node ∧ fresh_on (hg_nodes g) node l ∧
     settled (hg_nodes g) node l ep ∧ eps_ok (hg_nodes g) node l eps) →
  0 ∈ layers → linked_but g node → all_live g →
  length (hg_nodes g) ≤ ef_construction config → length (hg_nodes g) ≤ S (capacity config 0) →
  ∃ g', insert_layers config metric ep node vector layers eps g = Some g' ∧ complete g'.
Proof.
  intros Hok Hsorted. revert g eps Hok.
  induction Hsorted as [|l layers Hsorted IH Hlt]; intros g eps Hok Hall H0 Hlinked Hlive Hef Hcap.
  { by apply not_elem_of_nil in H0. }
  destruct (Hall l) as (Hr & Hf & Hep & Heps); [by left|]. rewrite Forall_forall in Hlt. cbn [insert_layers].
  destruct (decide (l = 0)) as [->|Hl].
  { destruct (bottom_step config metric g node vector eps) as (nearest & g1 & -> & Hc & Hg1); try done.
    cbn [mbind option_bind]. rewrite Hc. cbn [mbind option_bind].
    destruct layers as [|l' layers]; [by exists g1|]. specialize (Hlt l' ltac:(by left)). lia. }
  destruct (layer_step config metric g node l vector eps)
    as (nearest & g1 & Hs & Hc & Hok1 & Hre1 & (Hnd & Hx) & _ & _ & _ & Hsame); [done..|].
  rewrite Hs. cbn [mbind option_bind]. rewrite Hc. cbn [mbind option_bind]. pose proof (re_bodies _ _ Hre1) as Hb.
  apply IH; try done.
  - intros l' Hl'. destruct (Hall l') as (Hr' & Hf' & Hep' & _); [by right|]. pose proof (Hlt l' Hl'). split_and!.
    + by apply (reaches_same (hg_nodes g)).
    + apply (fresh_same (hg_nodes g)); [|done]. intros j. apply Hsame. lia.
    + destruct Hep'. split; [done|]. by apply (reaches_same (hg_nodes g)).
    + apply (eps_same (hg_nodes g)); [done|]. apply (next_eps_ok _ _ l); [done|intros x Hin; by apply Hx|lia|done].
  - by apply elem_of_cons in H0 as [<-|?].
  - intros i j Hi Hj. rewrite links_of_at, Hsame, <- links_of_at by done. apply Hlinked; by apply (valid_same g g1).
  - intros i Hi. apply (live_same g); [done|]. by apply Hlive, (valid_same g g1).
  - by rewrite (length_same g).
  - by rewrite (length_same g).
Qed.

Lemma graph_insert_complete count id vector metadata config metric g g' :
  graph_ok config g → complete g → all_live g →
  graph_insert count id vector metadata config metric g = Some g' →
  length (hg_nodes g') ≤ ef_construction config → length (hg_nodes g') ≤ S (capacity config 0) →
  complete g' ∧ all_live g'.
Proof.
  intros Hok Hcomp Hlive. pose proof Hok as [Hlinks Hids Hentry]. unfold graph_insert.
  destruct (hg_id_map g !! id) as [i|] eqn:Hid.
  { apply Hids in Hid. unfold id_at in Hid. apply fmap_Some in Hid as (n & Hn & _). rewrite Hn. intros [= <-] _ _. 
    assert (∀ j m', <[i := with_embedding vector metadata n]> (hg_nodes g) !! j = Some m' →
      ∃ m, hg_nodes g !! j = Some m ∧ nd_neighbors m' = nd_neighbors m ∧ (nd_deleted m = false → nd_deleted m' = false)) as Hat.
    { intros j m' [(<- & <- & _)|[_ Hm]]%list_lookup_insert_Some; [by exists n|by exists m']. }
    split.
    - intros a b [na Ha] [nb Hb] Hab. unfold links_of, links. cbn in *. rewrite Ha.
      destruct (Hat a na Ha) as (ma & Hma & -> & _). destruct (Hat b nb Hb) as (mb & Hmb & _).
      specialize (Hcomp a b ltac:(by exists ma) ltac:(by exists mb) Hab). unfold links_of, links in Hcomp.
      by rewrite Hma in Hcomp.
    - intros a [na Ha]. cbn in Ha. destruct (Hat a na Ha) as (ma & Hma & _ & Hd). exists na. split; [done|].
      destruct (Hlive a ltac:(by exists ma)) as (m & Hm & Hdm). apply Hd. congruence. }
  set (level := assign_level _ _ _).
  assert (all_live {| hg_nodes := hg_nodes g ++ [new_node id vector metadata level]; hg_id_map := ∅;
    hg_entry_point := None; hg_current_max_level := 0 |}) as Hlive1.
  { intros i [n Hn]. cbn in Hn. exists n. split; [done|].
    apply lookup_app_Some in Hn as [Hn|[_ [_ <-]%list_lookup_singleton_Some]]; [|done].
    destruct (Hlive i ltac:(by exists n)) as (m & Hm & ?). congruence. }
  destruct (hg_entry_point g) as [ep|] eqn:Hep; cycle 1.
  { intros [= <-] _ _. split; [|exact Hlive1]. rewrite Hentry. intros i j [n Hi%lookup_lt_Some] [m Hj%lookup_lt_Some].
    cbn in *. lia. }
  destruct Hentry as [Hepl _].
  destruct (push_node_ok config (hg_nodes g) id vector metadata level Hlinks) as (Hok1 & _ & _ & _ & _).
  destruct (insert_below_ok config metric g ep (hg_current_max_level g) id vector metadata level Hlinks Hepl)
    as (eps & g2 & Hd & Hi & _ & Hre & Hall).
  rewrite Hd. cbn [mbind option_bind]. rewrite Hi. cbn [mbind option_bind].
  set (g1 := {| hg_nodes := hg_nodes g ++ [new_node id vector metadata level];
    hg_id_map := <[id := length (hg_nodes g)]> (hg_id_map g); hg_entry_point := Some ep;
    hg_current_max_level := hg_current_max_level g |}) in *.
  intros Hg' Hef Hcap. assert (hg_nodes g' = hg_nodes g2) as Hnodes by (destruct (_ <? _) in Hg'; by simplify_eq).
  rewrite Hnodes in Hef, Hcap. pose proof (length_same _ _ (re_bodies _ _ Hre)) as Hlen. rewrite Hlen in Hef, Hcap.
  destruct (insert_layers_complete config metric (layers_down (Nat.min level (hg_current_max_level g)) 0) g1
    (length (hg_nodes g)) ep vector eps) as (g3 & Hg3 & Hcomp3); try done.
  - apply layers_down_sorted.
  - apply layers_down_elem. lia.
  - intros i j [n Hn] [m Hm] Hij Hin Hjn. unfold links_of. cbn in *. 
    assert (∀ x y, (hg_nodes g ++ [new_node id vector metadata level]) !! x = Some y → x ≠ length (hg_nodes g) →
      hg_nodes g !! x = Some y) as Hx.
    { intros x y Hxy Hne. rewrite lookup_app_l in Hxy; [done|].
      apply lookup_lt_Some in Hxy. rewrite length_app in Hxy. cbn in Hxy. lia. }
    rewrite Hn. apply Hx in Hn, Hm; [|done..]. specialize (Hcomp i j ltac:(by exists n) ltac:(by exists m) Hij).
    unfold links_of in Hcomp. by rewrite Hn in Hcomp.
  - rewrite Hi in Hg3. injection Hg3 as ->. split.
    + intros i j. unfold valid, links_of. rewrite Hnodes. apply Hcomp3.
    + intros i. unfold valid, live. rewrite Hnodes. intros Hv. apply (live_same g1 g3); [apply Hre|].
      apply Hlive1. by apply (valid_same g1 g3) in Hv; [|apply Hre].
Qed.

(** ** Exactness *)

Definition upserts (l : list (Z * Embedding)) : list IndexOp := (λ '(count, e), IxUpsert count e) <$> l.

(** The map that is left by upserting. *)
Definition upserted (l : list (Z * Embedding)) : gmap string Embedding :=
  foldl (λ m '(_, e), <[emb_id e := e]> m) ∅ l.

Lemma upserted_snoc l count e : upserted (l ++ [(count, e)]) = <[emb_id e := e]> (upserted l).
Proof. unfold upserted. by rewrite foldl_app. Qed.

Lemma all_live_size config g : graph_ok config g → all_live g → length (hg_nodes g) = size (stored_in g).
Proof.
  intros Hok Hl. rewrite <- (live_nodes config g Hok). f_equal. symmetry. apply filter_id.
  apply Forall_forall. intros n Hn. apply list_elem_of_lookup in Hn as [i Hi].
  destruct (Hl i ltac:(by exists n)) as (m & Hm & ?). congruence.
Qed.

(** Upserting into a new store, as long as it stays small. *)
Lemma upserts_complete dimension metric config l :
  Forall (λ ce, length (emb_vector ce.2) = dimension) l →
  size (upserted l) ≤ ef_construction config → size (upserted l) ≤ S (max_connections_layer0 config) →
  ∃ s, run_index (upserts l) (HnswVectorStore_new dimension metric config) = Some s ∧ store_ok s ∧
    same_parameters (HnswVectorStore_new dimension metric config) s ∧ stored s = upserted l ∧
    complete (hn_graph s) ∧ all_live (hn_graph s).
Proof.
  induction l as [|[count e] l IH] using rev_ind; intros Hdim Hef Hcap.
  { eexists. split; [done|]. split; [apply new_ok|]. split_and!; try done; intros i; unfold valid; cbn.
    - intros j [n Hn]. by rewrite lookup_nil in Hn.
    - intros [n Hn]. by rewrite lookup_nil in Hn. }
  rewrite upserted_snoc in Hef, Hcap |- *.
  assert (size (upserted l) ≤ size (<[emb_id e := e]> (upserted l))) as Hsz
    by (destruct (upserted l !! emb_id e) eqn:He; [rewrite map_size_insert_Some|rewrite map_size_insert_None]; eauto; lia).
  apply Forall_app in Hdim as [Hdim [He _]%Forall_cons]. cbn in He.
  destruct IH as (s & Hs & Hok & (Hc & Hd & Hm) & Hst & Hcomp & Hlive); [done|lia..|]. cbn in Hc, Hd, Hm.
  destruct (hnsw_upsert_ok count e s Hok) as (g' & Hins & Hup & Hok' & Hst'); [by rewrite Hd|].
  rewrite Hst in Hst'.
  assert (complete g' ∧ all_live g') as [Hcomp' Hlive'].
  { assert (length (hg_nodes g') ≤ size (<[emb_id e := e]> (upserted l))) as Hle.
    { pose proof (all_live_size _ _ (so_graph _ Hok) Hlive) as Hlen. fold (stored s) in Hlen. rewrite Hst in Hlen.
      destruct (graph_insert_ok (hn_config s) (hn_metric s) count (emb_id e) (emb_vector e) (emb_metadata e) (hn_graph s)
        (so_graph _ Hok)) as (g'' & Hins' & _ & Hin). rewrite Hins in Hins'. injection Hins' as <-.
      unfold inserted in Hin. destruct (hg_id_map (hn_graph s) !! emb_id e) as [i|] eqn:Hi.
      - destruct Hin as (n & _ & Hb & _). apply (f_equal length) in Hb. rewrite !length_fmap, length_insert in Hb. lia.
      - destruct Hin as [Hb _]. apply (f_equal length) in Hb. rewrite !length_fmap, length_app in Hb. cbn in Hb.
        rewrite map_size_insert_None; [lia|]. rewrite <- Hst. unfold stored, stored_in. by rewrite lookup_omap, Hi. }
    eapply graph_insert_complete; [apply Hok|done|done|exact Hins| |]; rewrite Hc; cbn; lia. }
  exists (set_graph g' s). split.
  - unfold upserts. rewrite fmap_app, run_index_app. fold (upserts l). rewrite Hs. cbn. by rewrite Hup.
  - by split_and!.
Qed.
(** Every entry of a map with its score. *)
Definition scored_entries (metric : DistanceMetric) (query : list f32) (m : gmap string Embedding) : list SearchResult :=
  (λ '(id, e), {| re_id := id; re_score := distance_to_score metric (distance metric query (emb_vector e)) |})
    <$> map_to_list m.

Definition distance_in (metric : DistanceMetric) (query : list f32) (m : gmap string Embedding) (r : SearchResult) : f32 :=
  match m !! re_id r with
  | Some e => distance metric query (emb_vector e)
  | None => f32_of_Z 0
  end.

(** The whole beam, on a small store. *)
Lemma beam_is_everything s query beam rs :
  store_ok s → Forall2 (reported s query) beam rs → NoDup (snd <$> beam) →
  (∀ i, valid (hn_graph s) i → i ∈ snd <$> beam) →
  rs ≡ₚ scored_entries (hn_metric s) query (stored s).
Proof.
  intros Hok Hall Hnd Hin. apply NoDup_Permutation.
  - eapply NoDup_fmap_1, (reported_ids s query beam); done.
  - apply (NoDup_fmap_1 re_id). unfold scored_entries. rewrite <- list_fmap_compose.
    rewrite (list_fmap_ext _ fst); [apply NoDup_fst_map_to_list|by intros ? []].
  - intros r. unfold scored_entries. rewrite list_elem_of_fmap. split.
    + intros Hr. destruct (reported_elem _ _ _ _ _ Hall Hr) as (x & Hx & e & _ & He & Hd & Hsc).
      exists (re_id r, e). split; [|by apply elem_of_map_to_list]. rewrite <- Hd, <- Hsc. by destruct r.
    + intros ([id e] & -> & He%elem_of_map_to_list). 
      pose proof He as (i & n & Hi & Hn & Hid & Hdel & ->)%(stored_lookup _ _ _ _ (so_graph _ Hok)).
      assert (i ∈ snd <$> beam) as (x & -> & Hx)%list_elem_of_fmap by (apply Hin; by exists n).
      apply list_elem_of_lookup in Hx as [j Hj].
      destruct (Forall2_lookup_l _ _ _ _ _ Hall Hj) as (r & Hr & (e' & Hi' & He' & Hd & Hsc)).
      assert (re_id r = id) as Hrid.
      { apply (go_ids _ _ (so_graph _ Hok)) in Hi, Hi'. congruence. }
      rewrite Hrid, He in He'. injection He' as <-. apply list_elem_of_lookup_2 in Hr.
      rewrite <- Hd, <- Hsc, <- Hrid. by destruct r.
Qed.
Lemma upserts_exact (dimension : nat) (metric : DistanceMetric) (config : HnswConfig)
    (l : list (Z * Embedding)) (query : list f32) (k : nat) :
  Forall (λ ce, length (emb_vector ce.2) = dimension) l → length query = dimension →
  let m := upserted l in
  size m ≤ ef_construction config → size m ≤ S (max_connections_layer0 config) →
  size m ≤ Nat.max (ef_search config) k →
  (∀ id e, m !! id = Some e → f64_is_nan (distance metric query (emb_vector e)) = false) →
  ∃ s rs, run_index (upserts l) (HnswVectorStore_new dimension metric config) = Some s ∧
    hnsw_search query k s = Some (Ok rs) ∧
    top_k (smaller (distance_in metric query m)) k (scored_entries metric query m) rs.
Proof.
  cbn zeta. intros Hl Hq Hef Hcap Hk Hnum.
  destruct (upserts_complete dimension metric config l Hl Hef Hcap)
    as (s & Hs & Hok & (Hc & Hd & Hm) & Hst & Hcomp & Hlive). cbn in Hc, Hd, Hm.
  exists s. unfold hnsw_search. rewrite Hd, decide_True, Hc, Hm by done.
  pose proof (all_live_size _ _ (so_graph _ Hok) Hlive) as Hsize. fold (stored s) in Hsize. rewrite Hst in Hsize.
  assert (measurable s query) as Hmeas.
  { intros n Hn. apply list_elem_of_lookup in Hn as [i Hi].
    destruct (live_stored _ _ i (so_graph _ Hok)) as (n' & Hn' & _ & He); [apply Hlive; by exists n|].
    rewrite Hi in Hn'. injection Hn' as <-. fold (stored s) in He. rewrite Hst in He. rewrite Hm. by apply (Hnum _ _ He). }
  pose proof (graph_search_ok (hn_config s) (hn_graph s) query k (ef_search config) metric (so_graph _ Hok)) as Hg.
  destruct (hg_entry_point (hn_graph s)) as [ep|]; cycle 1.
  { destruct Hg as [Hnil ->]. exists []. split; [done|]. split; [done|]. rewrite Hnil in Hsize. symmetry in Hsize.
    apply map_size_empty_inv in Hsize as ->. rewrite <- (take_nil k).
    apply take_sorted; [|constructor]. unfold scored_entries. by rewrite map_to_list_empty. }
  destruct Hg as (i & beam & Hi & Hnd & Hsl & Hsearch & Hx & Hall). rewrite Hsearch. cbn [mbind option_bind].
  assert (valid (hn_graph s) i) as Hvi by by eapply reaches_valid.
  destruct Hall as (seen & Hs0 & Hcl & Hf); [right; lia|].
  assert (∀ j, valid (hn_graph s) j → j ∈ snd <$> beam) as Hin.
  { intros j Hj. apply Hf; [|by apply Hlive]. destruct (decide (j = i)) as [->|]; [apply Hs0; [by left|done]|].
    apply (Hcl i); [apply Hs0; [by left|done]|by apply Hcomp|done]. }
  rewrite <- Hm in Hx. destruct (to_results_ok s query beam Hok Hx) as (rs & Hrs & Hrep).
  assert (mapM (to_result s) (take k beam) = Some (take k rs)) as ->.
  { apply mapM_Some_2. apply mapM_Some_1 in Hrs. by apply Forall2_take. }
  cbn. exists (take k rs). split; [done|]. split; [done|]. apply take_sorted.
  - rewrite <- Hst, <- Hm. by eapply beam_is_everything.
  - assert (StronglySorted (smaller fst) beam) as Hsorted.
    { apply (search_layer_optimal (hn_graph s) query (Nat.max (ef_search config) k) 0 metric (λ _, True)) with (eps := [i]).
      - intros j Hj. rewrite <- Hm. by apply measurable_dist.
      - apply NoDup_singleton.
      - done.
      - by intros ? ? _ _.
      - apply lookup_lt_is_Some in Hvi. cbn. lia.
      - done. }
    apply (reported_sorted s query beam rs Hrep) in Hsorted. unfold distance_of in Hsorted.
    by rewrite Hst, Hm in Hsorted.
Qed.

Lemma neg_key (x : f32) : float_key (f32_neg x) =
  (let '(a, b, c) := float_key x in (- a, - b, - c)%Z).
Proof. by destruct x as [[]|[]| |[] m e]; cbn; rewrite ?Z.opp_involutive. Qed.

Lemma neg_leb (a b : f32) : f64_leb (f32_neg a) (f32_neg b) = f64_leb b a.
Proof.
  destruct (f64_is_nan a) eqn:Ha; [by destruct a, b|]. destruct (f64_is_nan b) eqn:Hb; [by destruct a, b|].
  assert (f64_is_nan (f32_neg a) = false) as Ha' by by destruct a.
  assert (f64_is_nan (f32_neg b) = false) as Hb' by by destruct b.
  apply eq_true_iff_eq. rewrite !leb_iff by done.
  pose proof (float_cmp_key _ _ Ha' Hb') as H1. pose proof (float_cmp_key _ _ Hb Ha) as H2.
  rewrite !neg_key in H1. destruct (float_key a) as [[a1 a2] a3], (float_key b) as [[b1 b2] b3].
  destruct (float_cmp (f32_neg a) (f32_neg b)), (float_cmp b a); try done; cbn in *; simplify_eq;
    (split; intros _); try done; exfalso; lia.
Qed.

Lemma sorted_mono {A} (R R' : A → A → Prop) (l : list A) :
  (∀ x y, x ∈ l → y ∈ l → R x y → R' x y) → StronglySorted R l → StronglySorted R' l.
Proof.
  intros Himpl Hs. induction Hs as [|x l Hs IH Hx]; constructor.
  - apply IH. intros y z Hy Hz. apply Himpl; by right.
  - rewrite Forall_forall in *. intros y Hy. apply Himpl; [by left|by right|by apply Hx].
Qed.

(** A store that was made by upserting alone, of no more entries than the index takes into its
    beams and links to one node, is exact: it answers with the closest [k] of its entries,
    closest first, or all of them when it has fewer. *)
Theorem small_index_exact (dimension : nat) (metric : DistanceMetric) (config : HnswConfig)
    (l : list (Z * Embedding)) (query : list f32) (k : nat) :
  Forall (λ ce, length (emb_vector ce.2) = dimension) l → length query = dimension →
  let m := upserted l in
  size m ≤ ef_construction config → size m ≤ S (max_connections_layer0 config) →
  size m ≤ Nat.max (ef_search config) k →
  (∀ id e, m !! id = Some e → f64_is_nan (distance metric query (emb_vector e)) = false) →
  ∃ s rs, run_index (upserts l) (HnswVectorStore_new dimension metric config) = Some s ∧
    hnsw_search query k s = Some (Ok rs) ∧
    top_k (smaller (distance_in metric query m)) k (scored_entries metric query m) rs.
Proof. apply upserts_exact. Qed.

(** C21: With the inner product for a metric, the two kinds of store have the same scores, and a
    small index answers as the search through all entries does, up to the order of entries
    with the same score. *)
Theorem small_index_is_brute_force {HI : HashIter string} (dimension : nat) (config : HnswConfig)
    (l : list (Z * Embedding)) (query : list f32) (k : nat) :
  Forall (λ ce, length (emb_vector ce.2) = dimension) l → length query = dimension →
  let m := upserted l in
  size m ≤ ef_construction config → size m ≤ S (max_connections_layer0 config) →
  size m ≤ Nat.max (ef_search config) k →
  (∀ id e, m !! id = Some e → f64_is_nan (dot query (emb_vector e)) = false) →
  let v := {| bf_dimension := dimension; bf_metric := DotProduct; bf_embeddings := m |} in
  ∃ s rs rs', run_index (upserts l) (HnswVectorStore_new dimension DotProduct config) = Some s ∧
    hnsw_search query k s = Some (Ok rs) ∧ brute_force_search query k v = Ok rs' ∧
    top_k (larger re_score) k (scored query v) rs ∧ top_k (larger re_score) k (scored query v) rs'.
Proof.
  cbn zeta. intros Hl Hq Hef Hcap Hk Hnum.
  assert (∀ x : f32, f32_neg (f32_neg x) = x) as Hneg by (by intros [[]|[]| |[]]).
  assert (∀ x : f32, f64_is_nan (f32_neg x) = f64_is_nan x) as Hnan by (by intros [[]|[]| |[]]).
  destruct (upserts_exact dimension DotProduct config l query k) as (s & rs & Hs & Hrs & Hlen & Hsort & rest & Hp & Hbest);
    [done..| |].
  { intros id e He. cbn. rewrite Hnan. by apply (Hnum id). }
  set (m := upserted l) in *. set (v := {| bf_dimension := dimension; bf_metric := DotProduct; bf_embeddings := m |}).
  assert (scored_entries DotProduct query m ≡ₚ scored query v) as Hsame.
  { unfold scored_entries, scored. cbn. rewrite iter_map_perm.
    erewrite list_fmap_ext; [done|]. intros i [id e] _. cbn. by rewrite Hneg. }
  assert (∀ x y, x ∈ scored_entries DotProduct query m → y ∈ scored_entries DotProduct query m →
    smaller (distance_in DotProduct query m) x y → larger re_score x y) as Hiff.
  { intros x y ([idx ex] & -> & Hx%elem_of_map_to_list)%list_elem_of_fmap
      ([idy ey] & -> & Hy%elem_of_map_to_list)%list_elem_of_fmap.
    unfold smaller, larger, distance_in. cbn. rewrite Hx, Hy, neg_leb, !Hneg. done. }
  exists s, rs, (take k (sort_by compare_score (scored query v))). split_and!; [done..| | |].
  - unfold brute_force_search. by rewrite decide_True.
  - split_and!; [by rewrite Hlen, Hsame| |].
    + eapply sorted_mono; [|exact Hsort]. intros x y Hx Hy.
      apply Hiff; rewrite Hp; apply elem_of_app; by left.
    + exists rest. split; [by rewrite <- Hsame|]. intros x y Hx Hy.
      apply Hiff; [rewrite Hp; apply elem_of_app; by left|rewrite Hp; apply elem_of_app; by right|by apply Hbest].
  - apply take_sorted; [apply sort_by_perm|]. apply (sort_descending re_score). apply Forall_forall.
    intros x. rewrite <- Hsame. intros ([id e] & -> & He%elem_of_map_to_list)%list_elem_of_fmap.
    cbn. rewrite Hneg. by apply (Hnum id).
Qed.

(** ** A store that everything was deleted from *)

(** The entry point is in a set of deleted nodes that no link leads out of. *)
Definition dead_end (g : HnswGraph) : Prop :=
  ∃ (D : nat → Prop) ep, hg_entry_point g = Some ep ∧ D ep ∧ (∀ i, D i → valid g i ∧ ¬ live g i) ∧
    ∀ l, closed g l D.

Lemma dead_layer g query (D : nat → Prop) ep ef l metric :
  D ep → (∀ i, D i → valid g i ∧ ¬ live g i) → closed g l D →
  search_layer g query [ep] ef l metric = Some [].
Proof.
  intros Hep HD Hcl. destruct (search_layer_reaches g query ef l metric D [ep]) as (found & Hs & _ & Hx & _);
    [apply NoDup_singleton|by intros i ->%list_elem_of_singleton|done|].
  rewrite Hs. destruct found as [|x found]; [done|]. destruct (Hx x) as (_ & Hl & HDx); [by left|].
  by destruct (HD _ HDx).
Qed.

Lemma dead_descend g query (D : nat → Prop) ep metric layers :
  D ep → (∀ i, D i → valid g i ∧ ¬ live g i) → (∀ l, closed g l D) →
  descend g query metric layers [ep] = Some [ep].
Proof.
  intros Hep HD Hcl. induction layers as [|l layers IH]; [done|]. cbn [descend].
  by rewrite (dead_layer g query D ep 1 l metric).
Qed.

Lemma dead_insert_layers config g vector (D : nat → Prop) ep node metric layers :
  D ep → (∀ i, D i → valid g i ∧ ¬ live g i) → (∀ l, closed g l D) →
  insert_layers config metric ep node vector layers [ep] g = Some g.
Proof.
  intros Hep HD Hcl. induction layers as [|l layers IH]; [done|]. cbn [insert_layers].
  rewrite (dead_layer g vector D ep _ l metric) by done. cbn [mbind option_bind].
  unfold select_neighbors. by rewrite take_nil.
Qed.

Lemma dead_search s query k :
  dead_end (hn_graph s) → length query = hn_dimension s → hnsw_search query k s = Some (Ok []).
Proof.
  intros (D & ep & Hen & Hep & HD & Hcl) Hq. unfold hnsw_search, graph_search. rewrite decide_True, Hen by done.
  rewrite (dead_descend _ _ D) by done. cbn [mbind option_bind]. rewrite (dead_layer _ _ D) by done.
  cbn [mbind option_bind]. by rewrite take_nil.
Qed.

(** A new node on a layer that the graph has is linked to nothing. *)
Lemma dead_insert count id vector metadata config metric g g' :
  graph_ok config g → dead_end g → hg_id_map g !! id = None →
  assign_level id count (max_connections config) ≤ hg_current_max_level g →
  graph_insert count id vector metadata config metric g = Some g' →
  dead_end g' ∧ hg_current_max_level g' = hg_current_max_level g ∧
  hg_id_map g' = <[id := length (hg_nodes g)]> (hg_id_map g).
Proof.
  intros [Hlinks Hids _] (D & ep & Hen & Hep & HD & Hcl) Hid Hlv. unfold graph_insert. rewrite Hid, Hen.
  set (level := assign_level _ _ _) in *.
  match goal with |- context [descend ?g _ _ _ _] => set (g1 := g) end.
  assert (∀ i n, hg_nodes g !! i = Some n → hg_nodes g1 !! i = Some n) as Hold
    by (intros i n Hn; unfold g1; cbn; by rewrite lookup_app_l by (by eapply lookup_lt_Some)).
  assert (∀ i, D i → valid g1 i ∧ ¬ live g1 i) as HD1.
  { intros i Hi. destruct (HD i Hi) as [[n Hn] Hdead]. split; [exists n; by apply Hold|].
    intros (m & Hm & Hd). rewrite (Hold i n Hn) in Hm. injection Hm as <-. apply Hdead. by exists n. }
  assert (∀ l, closed g1 l D) as Hcl1.
  { intros l i j Hi Hj _. destruct (HD i Hi) as [[n Hn] _].
    assert (j ∈ links_of g l i) as Hj' by (unfold links_of in *; by rewrite (Hold i n Hn) in Hj; rewrite Hn).
    apply (Hcl l i j Hi Hj'). rewrite links_of_at in Hj'.
    destruct (links_at (hg_nodes g) i l) as [ns|] eqn:Hns; [|by apply not_elem_of_nil in Hj'].
    destruct (lo_links _ _ Hlinks i l ns Hns) as (_ & _ & Hr). eapply reaches_valid. by apply Hr. }
  rewrite (dead_descend g1 vector D) by done. cbn [mbind option_bind].
  rewrite (dead_insert_layers config g1 vector D) by done. cbn [mbind option_bind].
  rewrite (proj2 (Nat.ltb_ge _ _)) by done. intros [= <-]. split; [|done]. by exists D, ep.
Qed.

(** After everything was deleted from a store that is not empty, entries with new ids that are
    assigned no layer above those of the store are stored, and can be looked up, and no search
    finds any of them. *)
Theorem cleared_index_forgets s (l : list (Z * Embedding)) :
  store_ok s → hg_nodes (hn_graph s) ≠ [] → stored s = ∅ →
  NoDup (emb_id ∘ snd <$> l) →
  Forall (λ '(count, e), length (emb_vector e) = hn_dimension s ∧ hg_id_map (hn_graph s) !! emb_id e = None ∧
    assign_level (emb_id e) count (max_connections (hn_config s)) ≤ hg_current_max_level (hn_graph s)) l →
  ∃ s', run_index (upserts l) s = Some s' ∧
    (∀ e, e ∈ snd <$> l → hnsw_get (emb_id e) s' = Some (Ok (Some e))) ∧
    ∀ query k, length query = hn_dimension s → hnsw_search query k s' = Some (Ok []).
Proof.
  intros Hok Hne Hempty Hnd Hl.
  assert (dead_end (hn_graph s)) as Hdead.
  { pose proof (go_entry _ _ (so_graph _ Hok)) as Hentry.
    destruct (hg_entry_point (hn_graph s)) as [ep|] eqn:Hen; [|done].
    exists (valid (hn_graph s)), ep. split; [done|]. split.
    { destruct Hentry as [Hep _]. unfold level_at in Hep. apply fmap_Some in Hep as (n & ? & _). by exists n. }
    split; [|by intros ? ? ? _ _]. intros i Hi. split; [done|]. intros Hlive.
    destruct (live_stored _ _ i (so_graph _ Hok) Hlive) as (n & _ & _ & Hst). fold (stored s) in Hst.
    by rewrite Hempty in Hst. }
  assert (∃ s', run_index (upserts l) s = Some s' ∧ store_ok s' ∧ same_parameters s s' ∧ dead_end (hn_graph s') ∧
    hg_current_max_level (hn_graph s') = hg_current_max_level (hn_graph s) ∧
    (∀ id, hg_id_map (hn_graph s) !! id = None → id ∉ (emb_id ∘ snd <$> l) → hg_id_map (hn_graph s') !! id = None) ∧
    ∀ e, e ∈ snd <$> l → stored s' !! emb_id e = Some e) as (s' & Hs' & Hok' & (_ & Hd & _) & Hdead' & _ & _ & Hst); cycle 1.
  { exists s'. split; [done|]. split; [intros e He; by rewrite hnsw_get_ok, Hst|].
    intros query k Hq. apply dead_search; [done|congruence]. }
  clear Hempty Hne. induction l as [|[count e] l IH] using rev_ind.
  { exists s. split_and!; try done. by intros e []%not_elem_of_nil. }
  rewrite fmap_app in Hnd. apply NoDup_app in Hnd as (Hnd & Hdisj & _).
  apply Forall_app in Hl as [Hl [(He & Hid & Hlv) _]%Forall_cons].
  assert (emb_id e ∉ (emb_id ∘ snd <$> l)) as Hfresh by (intros Hin; apply (Hdisj _ Hin); by left).
  destruct (IH Hnd Hl) as (s1 & Hs1 & Hok1 & (Hc1 & Hd1 & Hm1) & Hdead1 & Hmax1 & Hids1 & Hst1).
  destruct (hnsw_upsert_ok count e s1 Hok1) as (g' & Hins & Hup & Hok2 & Hst2); [by rewrite Hd1|].
  destruct (dead_insert _ _ _ _ _ _ _ _ (so_graph _ Hok1) Hdead1 (Hids1 _ Hid Hfresh)
    ltac:(by rewrite Hc1, Hmax1) Hins) as (Hdead2 & Hmax2 & Hids2).
  exists (set_graph g' s1). split.
  { unfold upserts. rewrite fmap_app, run_index_app. fold (upserts l). rewrite Hs1. cbn. by rewrite Hup. }
  split_and!; try done; [cbn; congruence| |].
  - intros id Hnone Hnin. cbn. rewrite Hids2, lookup_insert_ne.
    + apply Hids1; [done|]. rewrite fmap_app in Hnin. set_solver.
    + intros <-. apply Hnin. rewrite fmap_app. apply elem_of_app. right. by left.
  - intros e'. rewrite fmap_app, Hst2. intros [He'|He']%elem_of_app.
    + rewrite lookup_insert_ne; [by apply Hst1|]. intros Heq. apply Hfresh. rewrite Heq.
      apply list_elem_of_fmap in He' as (ce & -> & Hce). apply list_elem_of_fmap. by exists ce.
    + apply list_elem_of_singleton in He' as ->. by rewrite lookup_insert_eq.
Qed.

(** ** The index as a vector store

    An index that is alone in its process, with the value of the counter.  It keeps what the
    hexad store relies on. *)

Definition Index : Type := Z * { s : HnswVectorStore | store_ok s }.

Lemma hnsw_upsert_total count e s :
  store_ok s → is_Some (hnsw_upsert count e s) ∧ ∀ x, hnsw_upsert count e s = Some x → store_ok x.2.
Proof.
  intros Hok. destruct (decide (length (emb_vector e) = hn_dimension s)) as [Hd|Hd].
  - destruct (hnsw_upsert_ok count e s Hok Hd) as (g' & _ & -> & Hok' & _). by split; [eexists|intros x [= <-]].
  - unfold hnsw_upsert. rewrite decide_False by done. by split; [eexists|intros x [= <-]].
Qed.

Lemma hnsw_delete_total id s :
  store_ok s → is_Some (hnsw_delete id s) ∧ ∀ x, hnsw_delete id s = Some x → store_ok x.2.
Proof.
  intros Hok. destruct (hnsw_delete_ok id s Hok) as (s' & -> & Hok' & _). by split; [eexists|intros x [= <-]].
Qed.

Lemma hnsw_get_total id s : store_ok s → is_Some (hnsw_get id s).
Proof. intros Hok. by rewrite hnsw_get_ok. Qed.

Lemma hnsw_search_total query k s : store_ok s → is_Some (hnsw_search query k s).
Proof.
  intros Hok. pose proof (hnsw_search_ok s query k Hok) as Hs.
  case_decide; [destruct Hs as (rs & -> & _)|rewrite Hs]; by eexists.
Qed.

End store.

Section index.
Context {PW : Powi32} {DH : DefaultHasher} {LN : Ln}.

Definition index_new (dimension : nat) (metric : DistanceMetric) (config : HnswConfig) : Index :=
  (0%Z, HnswVectorStore_new dimension metric config ↾ new_ok dimension metric config).

(** The counter is asked for the level of a new id. *)
Definition next_count (count : Z) (e : Embedding) (s : HnswVectorStore) : Z :=
  if decide (length (emb_vector e) = hn_dimension s) then
    match hg_id_map (hn_graph s) !! emb_id e with Some _ => count | None => u64_add count 1 end
  else count.

(** The result of a call that does not panic. *)
Definition result_of_total {A : Type} {P : A → Prop} {o : option A}
    (H : is_Some o ∧ ∀ x, o = Some x → P x) : { x | P x } :=
  match o return is_Some o ∧ (∀ x, o = Some x → P x) → { x | P x } with
  | Some x => λ H, x ↾ proj2 H x eq_refl
  | None => λ H, False_rect _ (is_Some_None (proj1 H))
  end H.

Lemma result_of_total_eq {A : Type} {P : A → Prop} {o : option A}
    (H : is_Some o ∧ ∀ x, o = Some x → P x) : o = Some (proj1_sig (result_of_total H)).
Proof. destruct o as [x|]; [done|]. by destruct (is_Some_None (proj1 H)). Qed.

Definition index_upsert (e : Embedding) (v : Index) : result VectorError () * Index :=
  let '(count, s) := v in
  let x := result_of_total (hnsw_upsert_total count e (proj1_sig s) (proj2_sig s)) in
  ((proj1_sig x).1, (next_count count e (proj1_sig s), (proj1_sig x).2 ↾ proj2_sig x)).

Definition index_delete (id : string) (v : Index) : result VectorError () * Index :=
  let '(count, s) := v in
  let x := result_of_total (hnsw_delete_total id (proj1_sig s) (proj2_sig s)) in
  ((proj1_sig x).1, (count, (proj1_sig x).2 ↾ proj2_sig x)).

Definition index_get (id : string) (v : Index) : result VectorError (option Embedding) :=
  is_Some_proj (hnsw_get_total id (proj1_sig v.2) (proj2_sig v.2)).

Definition index_search (query : list f32) (k : nat) (v : Index) : result VectorError (list SearchResult) :=
  is_Some_proj (hnsw_search_total query k (proj1_sig v.2) (proj2_sig v.2)).

#[export] Instance hnsw_vector_store : VectorStore Index := {|
  vs_upsert := λ e v, printed_st vector_error_to_string (index_upsert e v);
  vs_get := λ id v, printed vector_error_to_string (index_get id v);
  vs_delete := λ id v, printed_st vector_error_to_string (index_delete id v);
  vs_search := λ q k v, printed vector_error_to_string
    (match index_search q k v with Ok r => Ok (map re_id r) | Err e => Err e end);
|}.

Lemma index_get_eq id v : index_get id v = Ok (stored (proj1_sig v.2) !! id).
Proof.
  unfold index_get. pose proof (hnsw_get_ok id (proj1_sig v.2) (proj2_sig v.2)) as Hg.
  generalize (hnsw_get_total id (proj1_sig v.2) (proj2_sig v.2)). rewrite Hg. done.
Qed.

#[export] Instance hnsw_vector_laws : VectorLaws Index.
Proof.
  split; cbn; unfold printed_st.
  - intros e [count [s Hok]] r v' Hr id. rewrite !index_get_eq. unfold index_upsert in Hr. cbn in Hr.
    pose proof (result_of_total_eq (hnsw_upsert_total count e s Hok)) as Heq.
    destruct (result_of_total _) as [[r' s'] Hok']. cbn in Hr, Heq. injection Hr as <- <-. cbn.
    destruct (decide (length (emb_vector e) = hn_dimension s)) as [Hd|Hd].
    + destruct (hnsw_upsert_ok count e s Hok Hd) as (g' & _ & Hup & _ & Hst). rewrite Hup in Heq.
      injection Heq as <- <-. rewrite Hst. cbn. apply insert_law.
    + unfold hnsw_upsert in Heq. rewrite decide_False in Heq by done. injection Heq as <- <-. done.
  - intros i [count [s Hok]] r v' Hr id. rewrite !index_get_eq. unfold index_delete in Hr. cbn in Hr.
    pose proof (result_of_total_eq (hnsw_delete_total i s Hok)) as Heq.
    destruct (result_of_total _) as [[r' s'] Hok']. cbn in Hr, Heq. injection Hr as <- <-. cbn.
    destruct (hnsw_delete_ok i s Hok) as (s2 & Hdel & _ & _ & Hst). rewrite Hdel in Heq.
    injection Heq as <- <-. rewrite Hst. cbn. apply delete_law.
Qed.

End index.
