(* ===== verification/HexadTypes.v ===== *)
(** * The hexad: one entity in eight modalities

    Models the types of [src/rust-core/verisim-hexad/src/lib.rs]: identifiers, status,
    inputs and their builder, the configuration, and the errors of the hexad store.
    [HexadId] is a newtype of [String]; it is a [string] here. *)

From S2P Require Import Prelude Floats LockTable Provenance Temporal Graph Modality.
From stdpp Require Import pretty.
From Stdlib Require String Ascii.
Local Open Scope Z_scope.

(** ** Errors *)

Inductive HexadError :=
| HexadNotFound (id : string)
| ModalityError (modality message : string)
| ConsistencyViolation (message : string)
| ValidationError (message : string).

Definition hexad_error_to_string (e : HexadError) : string :=
  match e with
  | HexadNotFound id => "Entity not found: " +:+ id
  | ModalityError modality message => "Modality error in " +:+ modality +:+ ": " +:+ message
  | ConsistencyViolation message => "Consistency violation: " +:+ message
  | ValidationError message => "Validation error: " +:+ message
  end.

(** ** Identifiers *)

(** [s.trim_end_matches(c)] *)
Fixpoint trim_end_matches (c : Ascii.ascii) (s : string) : string :=
  match s with
  | String.EmptyString => String.EmptyString
  | String.String a s =>
    match trim_end_matches c s with
    | String.EmptyString => if decide (a = c) then String.EmptyString else String.String a String.EmptyString
    | t => String.String a t
    end
  end.

Definition to_iri (base : string) (id : string) : string :=
  trim_end_matches slash base +:+ "/" +:+ id.

(** ** Status *)

Record ModalityStatus := {
  ms_graph : bool; ms_vector : bool; ms_tensor : bool; ms_semantic : bool;
  ms_document : bool; ms_temporal : bool; ms_provenance : bool; ms_spatial : bool;
}.

Definition ModalityStatus_default : ModalityStatus :=
  {| ms_graph := false; ms_vector := false; ms_tensor := false; ms_semantic := false;
     ms_document := false; ms_temporal := false; ms_provenance := false; ms_spatial := false |}.

Definition is_complete (m : ModalityStatus) : bool :=
  ms_graph m && ms_vector m && ms_tensor m && ms_semantic m && ms_document m && ms_temporal m
  && ms_provenance m && ms_spatial m.

Definition missing (m : ModalityStatus) : list string :=
  (if ms_graph m then [] else ["graph"]) ++ (if ms_vector m then [] else ["vector"])
  ++ (if ms_tensor m then [] else ["tensor"]) ++ (if ms_semantic m then [] else ["semantic"])
  ++ (if ms_document m then [] else ["document"]) ++ (if ms_temporal m then [] else ["temporal"])
  ++ (if ms_provenance m then [] else ["provenance"]) ++ (if ms_spatial m then [] else ["spatial"]).

(** [status.graph = true] and the like. *)
Definition mark_graph (m : ModalityStatus) : ModalityStatus :=
  {| ms_graph := true; ms_vector := ms_vector m; ms_tensor := ms_tensor m;
     ms_semantic := ms_semantic m; ms_document := ms_document m; ms_temporal := ms_temporal m;
     ms_provenance := ms_provenance m; ms_spatial := ms_spatial m |}.
Definition mark_vector (m : ModalityStatus) : ModalityStatus :=
  {| ms_graph := ms_graph m; ms_vector := true; ms_tensor := ms_tensor m;
     ms_semantic := ms_semantic m; ms_document := ms_document m; ms_temporal := ms_temporal m;
     ms_provenance := ms_provenance m; ms_spatial := ms_spatial m |}.
Definition mark_tensor (m : ModalityStatus) : ModalityStatus :=
  {| ms_graph := ms_graph m; ms_vector := ms_vector m; ms_tensor := true;
     ms_semantic := ms_semantic m; ms_document := ms_document m; ms_temporal := ms_temporal m;
     ms_provenance := ms_provenance m; ms_spatial := ms_spatial m |}.
Definition mark_semantic (m : ModalityStatus) : ModalityStatus :=
  {| ms_graph := ms_graph m; ms_vector := ms_vector m; ms_tensor := ms_tensor m;
     ms_semantic := true; ms_document := ms_document m; ms_temporal := ms_temporal m;
     ms_provenance := ms_provenance m; ms_spatial := ms_spatial m |}.
Definition mark_document (m : ModalityStatus) : ModalityStatus :=
  {| ms_graph := ms_graph m; ms_vector := ms_vector m; ms_tensor := ms_tensor m;
     ms_semantic := ms_semantic m; ms_document := true; ms_temporal := ms_temporal m;
     ms_provenance := ms_provenance m; ms_spatial := ms_spatial m |}.
Definition mark_temporal (m : ModalityStatus) : ModalityStatus :=
  {| ms_graph := ms_graph m; ms_vector := ms_vector m; ms_tensor := ms_tensor m;
     ms_semantic := ms_semantic m; ms_document := ms_document m; ms_temporal := true;
     ms_provenance := ms_provenance m; ms_spatial := ms_spatial m |}.
Definition mark_provenance (m : ModalityStatus) : ModalityStatus :=
  {| ms_graph := ms_graph m; ms_vector := ms_vector m; ms_tensor := ms_tensor m;
     ms_semantic := ms_semantic m; ms_document := ms_document m; ms_temporal := ms_temporal m;
     ms_provenance := true; ms_spatial := ms_spatial m |}.
Definition mark_spatial (m : ModalityStatus) : ModalityStatus :=
  {| ms_graph := ms_graph m; ms_vector := ms_vector m; ms_tensor := ms_tensor m;
     ms_semantic := ms_semantic m; ms_document := ms_document m; ms_temporal := ms_temporal m;
     ms_provenance := ms_provenance m; ms_spatial := true |}.

Record HexadStatus {CH : Chrono} := {
  hs_id : string;
  hs_created_at : DateTime;
  hs_modified_at : DateTime;
  hs_version : Z;
  hs_modality_status : ModalityStatus;
}.

(** ** Inputs *)

Record HexadGraphInput := { relationships : list (string * string) }.
Record HexadVectorInput := { hv_embedding : list f32; hv_model : option string }.
Record HexadTensorInput := { ht_shape : list Z; ht_data : list f64 }.
Record HexadSemanticInput := { hm_types : list string; hm_properties : gmap string string }.
Record HexadDocumentInput := { hd_title : string; hd_body : string; hd_fields : gmap string string }.
Record HexadProvenanceInput := {
  hp_event_type : string; hp_actor : string; hp_source : option string; hp_description : string;
}.
Record HexadSpatialInput := {
  hl_latitude : f64; hl_longitude : f64; hl_altitude : option f64;
  hl_geometry_type : option string; hl_srid : option Z; hl_properties : gmap string string;
}.

Record HexadInput := {
  hi_graph : option HexadGraphInput;
  hi_vector : option HexadVectorInput;
  hi_tensor : option HexadTensorInput;
  hi_semantic : option HexadSemanticInput;
  hi_document : option HexadDocumentInput;
  hi_provenance : option HexadProvenanceInput;
  hi_spatial : option HexadSpatialInput;
  hi_metadata : gmap string string;
}.

Definition HexadInput_default : HexadInput :=
  {| hi_graph := None; hi_vector := None; hi_tensor := None; hi_semantic := None;
     hi_document := None; hi_provenance := None; hi_spatial := None; hi_metadata := ∅ |}.

(** ** The entity as it is read back *)

Record Hexad {CH : Chrono} := {
  h_id : string;
  h_status : HexadStatus;
  h_graph_node : option GraphNode;
  h_embedding : option Embedding;
  h_tensor : option Tensor;
  h_semantic : option SemanticAnnotation;
  h_document : option Document;
  h_version_count : Z;
  h_provenance_chain_length : Z;
  h_spatial_data : option SpatialData;
}.

Record HexadSnapshot {CH : Chrono} := {
  sn_id : string; sn_input : HexadInput; sn_modality_status : ModalityStatus;
  sn_timestamp : DateTime;
}.

(** ** Configuration *)

Record HexadConfig := { base_iri : string; vector_dimension : nat; require_complete : bool }.

Definition HexadConfig_default : HexadConfig :=
  {| base_iri := "https://verisim.db/entity"; vector_dimension := 384; require_complete := false |}.

(** ** The builder: it wraps the input under construction *)

Module HexadBuilder.

Definition new : HexadInput := HexadInput_default.

Definition with_relationships (rels : list (string * string)) (i : HexadInput) : HexadInput :=
  {| hi_graph := Some {| relationships := rels |}; hi_vector := hi_vector i;
     hi_tensor := hi_tensor i; hi_semantic := hi_semantic i; hi_document := hi_document i;
     hi_provenance := hi_provenance i; hi_spatial := hi_spatial i; hi_metadata := hi_metadata i |}.

Definition with_embedding (embedding : list f32) (i : HexadInput) : HexadInput :=
  {| hi_graph := hi_graph i;
     hi_vector := Some {| hv_embedding := embedding; hv_model := None |};
     hi_tensor := hi_tensor i; hi_semantic := hi_semantic i; hi_document := hi_document i;
     hi_provenance := hi_provenance i; hi_spatial := hi_spatial i; hi_metadata := hi_metadata i |}.

Definition with_tensor (shape : list Z) (data : list f64) (i : HexadInput) : HexadInput :=
  {| hi_graph := hi_graph i; hi_vector := hi_vector i;
     hi_tensor := Some {| ht_shape := shape; ht_data := data |};
     hi_semantic := hi_semantic i; hi_document := hi_document i;
     hi_provenance := hi_provenance i; hi_spatial := hi_spatial i; hi_metadata := hi_metadata i |}.

(** The properties of earlier types are kept. *)
Definition with_types (types : list string) (i : HexadInput) : HexadInput :=
  let existing := default {| hm_types := []; hm_properties := ∅ |} (hi_semantic i) in
  {| hi_graph := hi_graph i; hi_vector := hi_vector i; hi_tensor := hi_tensor i;
     hi_semantic := Some {| hm_types := types; hm_properties := hm_properties existing |};
     hi_document := hi_document i;
     hi_provenance := hi_provenance i; hi_spatial := hi_spatial i; hi_metadata := hi_metadata i |}.

Definition with_document (title body : string) (i : HexadInput) : HexadInput :=
  {| hi_graph := hi_graph i; hi_vector := hi_vector i; hi_tensor := hi_tensor i;
     hi_semantic := hi_semantic i;
     hi_document := Some {| hd_title := title; hd_body := body; hd_fields := ∅ |};
     hi_provenance := hi_provenance i; hi_spatial := hi_spatial i; hi_metadata := hi_metadata i |}.

Definition with_provenance (event_type actor description : string) (i : HexadInput) : HexadInput :=
  {| hi_graph := hi_graph i; hi_vector := hi_vector i; hi_tensor := hi_tensor i;
     hi_semantic := hi_semantic i; hi_document := hi_document i;
     hi_provenance := Some {| hp_event_type := event_type; hp_actor := actor; hp_source := None;
                              hp_description := description |};
     hi_spatial := hi_spatial i; hi_metadata := hi_metadata i |}.

Definition with_spatial (latitude longitude : f64) (i : HexadInput) : HexadInput :=
  {| hi_graph := hi_graph i; hi_vector := hi_vector i; hi_tensor := hi_tensor i;
     hi_semantic := hi_semantic i; hi_document := hi_document i;
     hi_provenance := hi_provenance i;
     hi_spatial := Some {| hl_latitude := latitude; hl_longitude := longitude; hl_altitude := None;
                           hl_geometry_type := None; hl_srid := None; hl_properties := ∅ |};
     hi_metadata := hi_metadata i |}.

Definition with_metadata (key value : string) (i : HexadInput) : HexadInput :=
  {| hi_graph := hi_graph i; hi_vector := hi_vector i; hi_tensor := hi_tensor i;
     hi_semantic := hi_semantic i; hi_document := hi_document i;
     hi_provenance := hi_provenance i; hi_spatial := hi_spatial i;
     hi_metadata := <[key := value]> (hi_metadata i) |}.

Definition build (i : HexadInput) : HexadInput := i.

End HexadBuilder.

(** ** What the process draws from outside

    Random identifiers, the wall clock and the monotonic clock are sequences read one
    value at a time; the text of a UUID, Unicode's lower case and the JSON form of an
    input are the [uuid] and [serde_json] crates' and Unicode's own. *)
Class Platform {CH : Chrono} := {
  pl_float :: FloatDisplay;
  pl_digest :: Digest;
  pl_regex :: Regex;
  pl_uuids :: HashIter Uuid;
  pl_names :: HashIter string;
  uuid_to_string : Uuid → string;
  to_lowercase : string → string;
  input_to_vec : HexadInput → list byte;
  utc : nat → DateTime;
  monotonic : nat → Z;
  random_uuid : nat → Uuid;
}.

(** ** Printing the errors of the transaction manager *)

Section display.
Context {CH : Chrono} {PL : Platform}.

Definition debug_state (s : TransactionState) : string :=
  match s with Active => "Active" | Committed => "Committed" | RolledBack => "RolledBack" end.

Fixpoint debug_uuids (l : list Uuid) : string :=
  match l with
  | [] => ""
  | [u] => uuid_to_string u
  | u :: l => uuid_to_string u +:+ ", " +:+ debug_uuids l
  end.

Definition transaction_error_to_string (e : TransactionError) : string :=
  match e with
  | InvalidState transaction_id current expected =>
    "Transaction " +:+ uuid_to_string transaction_id +:+ ": state is " +:+ debug_state current
    +:+ ", expected " +:+ expected
  | LockConflict entity_id modality held_by =>
    "Lock conflict on " +:+ entity_id +:+ "/" +:+ modality +:+ " held by " +:+ uuid_to_string held_by
  | DeadlockDetected transaction_id cycle =>
    "Deadlock detected for " +:+ uuid_to_string transaction_id +:+ ": cycle [" +:+ debug_uuids cycle
    +:+ "]"
  | TransactionNotFound id => "Transaction not found: " +:+ uuid_to_string id
  | InvalidModality m => "Invalid modality: " +:+ m
  | VersionConflict entity_id expected_version actual_version =>
    "Version conflict on " +:+ entity_id +:+ ": expected v" +:+ pretty expected_version
    +:+ ", found v" +:+ pretty actual_version
  end.

End display.
