(* ===== verification/HexadStore.v ===== *)
(** * The hexad store

    Models [InMemoryHexadStore] of [src/rust-core/verisim-hexad/src/store.rs]: the
    coordination of the eight modality stores, the transaction manager and the
    write-ahead log.  The store's fields are one state record, and an [async fn] that
    returns [Result] is a function in a state-and-error monad; one operation runs at a
    time ([TransactionRace.v] interleaves the steps of the manager itself). *)

From S2P Require Import Prelude Floats LockTable DeadlockDetector Transaction WalEntry WalLog Provenance Temporal Graph Modality HexadTypes.
From stdpp Require Import pretty.
From Stdlib Require String.
Local Open Scope Z_scope.

(** ** The log as the store uses it *)

Class WriteAheadLog {CH : Chrono} (W : Type) := {
  wl_append : clock → WalEntry → W → result string Z * W;
  wl_checkpoint : DateTime → clock → W → result string Z * W;
}.

(** The writer of [WalLog.v] with its directory; there a write never fails. *)
#[export] Instance wal_writer {CH : Chrono} {CRC : Crc32fast}
    : WriteAheadLog (WalWriter * directory) := {|
  wl_append := λ c e wd, let '(n, w, d) := append c e wd.1 wd.2 in (Ok n, (w, d));
  wl_checkpoint := λ now c wd, let '(n, w, d) := checkpoint now c wd.1 wd.2 in (Ok n, (w, d));
|}.

(** The type parameters of the store and the traits they implement. *)
Class Backends {CH : Chrono} := {
  bk_graph : Type; bk_vector : Type; bk_document : Type; bk_tensor : Type; bk_semantic : Type;
  bk_temporal : Type; bk_provenance : Type; bk_spatial : Type; bk_wal : Type;
  bk_graph_store :: GraphStore bk_graph;
  bk_vector_store :: VectorStore bk_vector;
  bk_document_store :: DocumentStore bk_document;
  bk_tensor_store :: TensorStore bk_tensor;
  bk_semantic_store :: SemanticStore bk_semantic;
  bk_temporal_store :: TemporalStore HexadSnapshot bk_temporal;
  bk_provenance_store :: ProvenanceStore bk_provenance;
  bk_spatial_store :: SpatialStore bk_spatial;
  bk_wal_store :: WriteAheadLog bk_wal;
}.

(** The eight modality stores. *)
Record Octad {CH : Chrono} {BK : Backends} := {
  o_graph : bk_graph; o_vector : bk_vector; o_document : bk_document; o_tensor : bk_tensor;
  o_semantic : bk_semantic; o_temporal : bk_temporal; o_provenance : bk_provenance;
  o_spatial : bk_spatial;
}.

(** [InMemoryHexadStore], less its constant [config]; [hx_draws] counts what was drawn
    from the [Platform]. *)
Record HexadState {CH : Chrono} {BK : Backends} := {
  hexads : gmap string HexadStatus;
  txn_manager : TransactionManager;
  wal : option bk_wal;
  octad : Octad;
  hx_draws : nat;
}.

Section store.
Context {CH : Chrono} {PL : Platform} {BK : Backends} (config : HexadConfig).

Definition hexad_store_new (o : Octad) : HexadState :=
  {| hexads := ∅; txn_manager := TransactionManager_new; wal := None; octad := o; hx_draws := 0 |}.

Definition set_hexads (m : gmap string HexadStatus) (s : HexadState) : HexadState :=
  {| hexads := m; txn_manager := txn_manager s; wal := wal s; octad := octad s;
     hx_draws := hx_draws s |}.
Definition set_txn_manager (tm : TransactionManager) (s : HexadState) : HexadState :=
  {| hexads := hexads s; txn_manager := tm; wal := wal s; octad := octad s;
     hx_draws := hx_draws s |}.
Definition set_wal (w : option bk_wal) (s : HexadState) : HexadState :=
  {| hexads := hexads s; txn_manager := txn_manager s; wal := w; octad := octad s;
     hx_draws := hx_draws s |}.
Definition set_octad (o : Octad) (s : HexadState) : HexadState :=
  {| hexads := hexads s; txn_manager := txn_manager s; wal := wal s; octad := o;
     hx_draws := hx_draws s |}.
Definition draw (n : nat) (s : HexadState) : HexadState :=
  {| hexads := hexads s; txn_manager := txn_manager s; wal := wal s; octad := octad s;
     hx_draws := hx_draws s + n |}.

Definition set_graph (g : bk_graph) (o : Octad) : Octad :=
  {| o_graph := g; o_vector := o_vector o; o_document := o_document o; o_tensor := o_tensor o;
     o_semantic := o_semantic o; o_temporal := o_temporal o; o_provenance := o_provenance o;
     o_spatial := o_spatial o |}.
Definition set_vector (v : bk_vector) (o : Octad) : Octad :=
  {| o_graph := o_graph o; o_vector := v; o_document := o_document o; o_tensor := o_tensor o;
     o_semantic := o_semantic o; o_temporal := o_temporal o; o_provenance := o_provenance o;
     o_spatial := o_spatial o |}.
Definition set_document (d : bk_document) (o : Octad) : Octad :=
  {| o_graph := o_graph o; o_vector := o_vector o; o_document := d; o_tensor := o_tensor o;
     o_semantic := o_semantic o; o_temporal := o_temporal o; o_provenance := o_provenance o;
     o_spatial := o_spatial o |}.
Definition set_tensor (t : bk_tensor) (o : Octad) : Octad :=
  {| o_graph := o_graph o; o_vector := o_vector o; o_document := o_document o; o_tensor := t;
     o_semantic := o_semantic o; o_temporal := o_temporal o; o_provenance := o_provenance o;
     o_spatial := o_spatial o |}.
Definition set_semantic (m : bk_semantic) (o : Octad) : Octad :=
  {| o_graph := o_graph o; o_vector := o_vector o; o_document := o_document o;
     o_tensor := o_tensor o; o_semantic := m; o_temporal := o_temporal o;
     o_provenance := o_provenance o; o_spatial := o_spatial o |}.
Definition set_temporal (r : bk_temporal) (o : Octad) : Octad :=
  {| o_graph := o_graph o; o_vector := o_vector o; o_document := o_document o;
     o_tensor := o_tensor o; o_semantic := o_semantic o; o_temporal := r;
     o_provenance := o_provenance o; o_spatial := o_spatial o |}.
Definition set_provenance (p : bk_provenance) (o : Octad) : Octad :=
  {| o_graph := o_graph o; o_vector := o_vector o; o_document := o_document o;
     o_tensor := o_tensor o; o_semantic := o_semantic o; o_temporal := o_temporal o;
     o_provenance := p; o_spatial := o_spatial o |}.
Definition set_spatial (l : bk_spatial) (o : Octad) : Octad :=
  {| o_graph := o_graph o; o_vector := o_vector o; o_document := o_document o;
     o_tensor := o_tensor o; o_semantic := o_semantic o; o_temporal := o_temporal o;
     o_provenance := o_provenance o; o_spatial := l |}.

(** ** The monad of the store's methods *)

Definition M (A : Type) : Type := HexadState → result HexadError A * HexadState.

#[global] Instance M_ret : MRet M := λ A a s, (Ok a, s).
#[global] Instance M_bind : MBind M := λ A B f m s,
  match m s with
  | (Ok a, s) => f a s
  | (Err e, s) => (Err e, s)
  end.

Definition throw {A} (e : HexadError) : M A := λ s, (Err e, s).

(** [m.await.ok();] *)
Definition attempt {A} (m : M A) : M () := λ s, (Ok (), (m s).2).

(** [match m.await { Ok(a) => a, Err(e) => { cleanup.await; return Err(e) } }] *)
Definition or_else {A} (m : M A) (cleanup : M ()) : M A := λ s,
  match m s with
  | (Ok a, s) => (Ok a, s)
  | (Err e, s) => (Err e, (cleanup s).2)
  end.

Definition when (b : bool) (m : M ()) : M () := if b then m else mret ().

Fixpoint for_each {A} (f : A → M ()) (l : list A) : M () :=
  match l with
  | [] => mret ()
  | a :: l => _ ← f a; for_each f l
  end.

Definition utc_now : M DateTime := λ s, (Ok (utc (hx_draws s)), draw 1 s).
Definition new_v4 : M Uuid := λ s, (Ok (random_uuid (hx_draws s)), draw 1 s).
(** The four readings an operation of the log may make. *)
Definition instants : M clock := λ s, (Ok (λ k, monotonic (hx_draws s + k)%nat), draw 4 s).

Definition lookup_status (id : string) : M (option HexadStatus) := λ s, (Ok (hexads s !! id), s).
Definition insert_status (id : string) (st : HexadStatus) : M () :=
  λ s, (Ok (), set_hexads (<[id := st]> (hexads s)) s).
Definition remove_status (id : string) : M () :=
  λ s, (Ok (), set_hexads (delete id (hexads s)) s).

(** A call of the transaction manager; the caller looks at its result. *)
Definition on_txn {A} (f : TransactionManager → result TransactionError A * TransactionManager)
    : M (result TransactionError A) :=
  λ s, let '(r, tm) := f (txn_manager s) in (Ok r, set_txn_manager tm s).

(** A call of a modality store; its error becomes a [ModalityError]. *)
Definition modality_result {A} (modality : string) (r : result string A) : result HexadError A :=
  map_err (ModalityError modality) r.

Definition on_store {X A} (get : Octad → X) (set : X → Octad → Octad) (modality : string)
    (f : X → result string A * X) : M A :=
  λ s, let '(r, x) := f (get (octad s)) in
       (modality_result modality r, set_octad (set x (octad s)) s).

Definition on_graph {A} := @on_store _ A o_graph set_graph "graph".
Definition on_vector {A} := @on_store _ A o_vector set_vector "vector".
Definition on_document {A} := @on_store _ A o_document set_document "document".
Definition on_tensor {A} := @on_store _ A o_tensor set_tensor "tensor".
Definition on_semantic {A} := @on_store _ A o_semantic set_semantic "semantic".
Definition on_temporal {A} := @on_store _ A o_temporal set_temporal "temporal".
Definition on_provenance {A} := @on_store _ A o_provenance set_provenance "provenance".
Definition on_spatial {A} := @on_store _ A o_spatial set_spatial "spatial".

(** ** The log *)

(** [opened] is what [WalWriter::open] gave. *)
Definition with_wal (opened : result string bk_wal) (s : HexadState) : result HexadError HexadState :=
  writer ← map_err (λ e, ModalityError "wal" ("Failed to open WAL: " +:+ e)) opened;
  Ok (set_wal (Some writer) s).

Definition on_wal (message : string) (f : bk_wal → result string Z * bk_wal) : M () :=
  λ s, match wal s with
       | Some w =>
         let '(r, w) := f w in
         (map_err (λ e, ModalityError "wal" (message +:+ e)) ((λ _, ()) <$> r), set_wal (Some w) s)
       | None => (Ok (), s)
       end.

Definition wal_append (operation : WalOperation) (modality : WalModality) (entity_id : string)
    (payload : list byte) : M () :=
  timestamp ← utc_now;
  c ← instants;
  let entry := {| we_sequence := 0; we_timestamp := timestamp; we_operation := operation;
                  we_modality := modality; we_entity_id := entity_id; we_payload := payload |} in
  on_wal "WAL append failed: " (wl_append c entry).

Definition wal_checkpoint : M () :=
  timestamp ← utc_now;
  c ← instants;
  on_wal "WAL checkpoint failed: " (wl_checkpoint timestamp c).

(** ** Writing one modality *)

Definition process_graph (id : string) (input : HexadGraphInput) : M GraphNode :=
  let node := GraphNode_new (to_iri (base_iri config) id) in
  _ ← for_each (λ '(pred, target_id),
        let edge := {| subject := node;
                       Graph.predicate := GraphNode_new (base_iri config +:+ "/" +:+ pred);
                       object := Node (GraphNode_new (base_iri config +:+ "/" +:+ target_id)) |} in
        on_graph (g_insert edge)) (relationships input);
  mret node.

Definition process_vector (id : string) (input : HexadVectorInput) : M Embedding :=
  if negb (bool_decide (length (hv_embedding input) = vector_dimension config)) then
    throw (ValidationError ("Vector dimension mismatch: expected "
      +:+ pretty (vector_dimension config) +:+ ", got " +:+ pretty (length (hv_embedding input))))
  else
    let embedding := Embedding_new id (hv_embedding input) in
    _ ← on_vector (vs_upsert embedding);
    mret embedding.

(** The fields are added one by one; their order does not matter. *)
Definition document_of (id : string) (input : HexadDocumentInput) : Document :=
  map_fold with_field (Document_new id (hd_title input) (hd_body input)) (hd_fields input).

Definition process_document (id : string) (input : HexadDocumentInput) : M Document :=
  let doc := document_of id input in
  _ ← on_document (ds_index doc);
  _ ← on_document ds_commit;
  mret doc.

Definition process_tensor (id : string) (input : HexadTensorInput) : M Tensor :=
  match printed tensor_error_to_string (Tensor_new id (ht_shape input) (ht_data input)) with
  | Err e => throw (ModalityError "tensor" e)
  | Ok tensor =>
    _ ← on_tensor (ts_put tensor);
    mret tensor
  end.

(** [Provenance::default()] of the semantic crate. *)
Definition default_provenance (now : DateTime) : SemanticProvenance :=
  {| sp_created_at := to_rfc3339 now; sp_created_by := "system"; sp_source := None;
     sp_confidence := f64_of_Z 1 |}.

Definition process_semantic (id : string) (input : HexadSemanticInput) : M SemanticAnnotation :=
  let properties :=
    (λ value, TypedLiteral value "https://www.w3.org/2001/XMLSchema#string")
      <$> hm_properties input in
  now ← utc_now;
  let annotation := {| sa_entity_id := id; sa_types := hm_types input;
                       sa_properties := properties; sa_provenance := default_provenance now |} in
  _ ← on_semantic (ss_annotate annotation);
  mret annotation.

Definition event_of_string (s : string) : ProvenanceEventType :=
  let s := to_lowercase s in
  if decide (s = "created") then Created
  else if decide (s = "modified") then Modified
  else if decide (s = "imported") then Imported
  else if decide (s = "normalized") then Normalized
  else if decide (s = "drift_repaired") then DriftRepaired
  else if decide (s = "deleted") then Deleted
  else if decide (s = "merged") then Merged
  else Custom s.

Definition process_provenance (id : string) (input : HexadProvenanceInput) : M Z :=
  let event_type := event_of_string (hp_event_type input) in
  now ← utc_now;
  _ ← on_provenance (ps_record_event now id event_type (hp_actor input) (hp_source input)
                       (hp_description input));
  chain ← on_provenance (λ p, (ps_get_chain id p, p));
  mret (Z.of_nat (chain_len chain)).

Definition geometry_of (g : option string) : GeometryType :=
  match g with
  | Some g =>
    if decide (g = "LineString") then LineString
    else if decide (g = "Polygon") then Polygon
    else if decide (g = "MultiPoint") then MultiPoint
    else if decide (g = "MultiPolygon") then MultiPolygon
    else Point
  | None => Point
  end.

Definition process_spatial (id : string) (input : HexadSpatialInput) : M SpatialData :=
  match Coordinates_new (hl_latitude input) (hl_longitude input) (hl_altitude input) with
  | Err e => throw (ValidationError (spatial_error_to_string e))
  | Ok coordinates =>
    let data := with_geometry coordinates (geometry_of (hl_geometry_type input))
                  (default 4326 (hl_srid input)) in
    let data := {| sd_coordinates := sd_coordinates data; sd_geometry_type := sd_geometry_type data;
                   sd_srid := sd_srid data; sd_properties := hl_properties input |} in
    _ ← on_spatial (ls_index id data);
    mret data
  end.

(** What [create] undoes when a later step fails. *)
Definition rollback_create (id : string) (written : ModalityStatus) : M () :=
  _ ← when (ms_vector written) (attempt (on_vector (vs_delete id)));
  _ ← when (ms_document written) (attempt (on_document (ds_delete id)));
  when (ms_tensor written) (attempt (on_tensor (ts_delete id))).

Definition create_snapshot (id : string) (input : HexadInput) (status : ModalityStatus)
    : M HexadSnapshot :=
  now ← utc_now;
  mret {| sn_id := id; sn_input := input; sn_modality_status := status; sn_timestamp := now |}.

(** ** Reading an entity *)

Definition if_present {A} (b : bool) (r : result HexadError (option A)) : result HexadError (option A) :=
  if b then r else Ok None.

(** [r.map(len).unwrap_or(0)] *)
Definition count_or_zero {A} (len : A → nat) (r : result string A) : Z :=
  match r with Ok a => Z.of_nat (len a) | Err _ => 0 end.

Definition load_hexad (id : string) (s : HexadState) : result HexadError (option Hexad) :=
  match hexads s !! id with
  | None => Ok None
  | Some status =>
    let has := hs_modality_status status in
    let o := octad s in
    let graph_node := if ms_graph has then Some (GraphNode_new (to_iri (base_iri config) id)) else None in
    embedding ← if_present (ms_vector has) (modality_result "vector" (vs_get id (o_vector o)));
    document ← if_present (ms_document has) (modality_result "document" (ds_get id (o_document o)));
    tensor ← if_present (ms_tensor has) (modality_result "tensor" (ts_get id (o_tensor o)));
    semantic ← if_present (ms_semantic has)
                 (modality_result "semantic" (ss_get_annotations id (o_semantic o)));
    let version_count := count_or_zero length (rs_history id 1000 (o_temporal o)) in
    let provenance_chain_length :=
      if ms_provenance has then count_or_zero chain_len (ps_get_chain id (o_provenance o)) else 0 in
    spatial_data ← if_present (ms_spatial has) (modality_result "spatial" (ls_get id (o_spatial o)));
    Ok (Some {| h_id := id; h_status := status; h_graph_node := graph_node;
                h_embedding := embedding; h_tensor := tensor; h_semantic := semantic;
                h_document := document; h_version_count := version_count;
                h_provenance_chain_length := provenance_chain_length;
                h_spatial_data := spatial_data |})
  end.

(** ** The transaction around a write *)

Definition begin_txn : M Uuid :=
  uuid ← new_v4;
  now ← utc_now;
  (λ s, let '(tid, tm) := begin uuid now ReadCommitted (txn_manager s) in
        (Ok tid, set_txn_manager tm s)) : M Uuid.

(** [self.txn_manager.rollback(txn_id).await.ok();] *)
Definition rollback_txn (tid : Uuid) : M () :=
  now ← utc_now;
  _ ← on_txn (rollback tid now);
  mret ().

(** The exclusive locks, one modality after the other. *)
Fixpoint acquire_locks (purpose : string) (tid : Uuid) (id : string) (modalities : list string) : M () :=
  match modalities with
  | [] => mret ()
  | modality :: modalities =>
    r ← on_txn (acquire_lock tid id modality Exclusive);
    match r with
    | Ok _ => acquire_locks purpose tid id modalities
    | Err e =>
      _ ← rollback_txn tid;
      throw (ConsistencyViolation ("Failed to acquire lock on " +:+ modality +:+ purpose +:+ ": "
                                     +:+ transaction_error_to_string e))
    end
  end.

(** [self.txn_manager.record_undo(txn_id, id, modality, None, version).await.ok();] *)
Definition undo_entry (tid : Uuid) (id : string) (version : Z) (modality : string) : M () :=
  now ← utc_now;
  _ ← on_txn (record_undo tid id modality None version now);
  mret ().

Definition commit_txn (message : string) (on_error : M ()) (tid : Uuid) : M () :=
  now ← utc_now;
  r ← on_txn (commit tid now);
  match r with
  | Ok _ => mret ()
  | Err e =>
    _ ← on_error;
    throw (ConsistencyViolation (message +:+ transaction_error_to_string e))
  end.

(** The modalities an input writes, in the order of the locks. *)
Definition modality_names (input : HexadInput) : list string :=
  omap (λ o, o)
    [(λ _, "graph") <$> hi_graph input; (λ _, "vector") <$> hi_vector input;
     (λ _, "document") <$> hi_document input; (λ _, "tensor") <$> hi_tensor input;
     (λ _, "semantic") <$> hi_semantic input; (λ _, "provenance") <$> hi_provenance input;
     (λ _, "spatial") <$> hi_spatial input; Some "temporal"].

(** The modalities an entity has. *)
Definition populated (m : ModalityStatus) : list string :=
  let then_some (b : bool) (name : string) := if b then [name] else [] in
  then_some (ms_graph m) "graph" ++ then_some (ms_vector m) "vector"
  ++ then_some (ms_document m) "document" ++ then_some (ms_tensor m) "tensor"
  ++ then_some (ms_semantic m) "semantic" ++ then_some (ms_provenance m) "provenance"
  ++ then_some (ms_spatial m) "spatial" ++ ["temporal"].

(** ** The modality writes of an operation *)

(** One [if let Some(ref input) = …] block of [create] and [update]: the write, then
    its undo entry and its flag; [on_error] is the block's [Err] arm. *)
Definition write_modality {I A} (on_error : ModalityStatus → M ()) (tid : Uuid) (id : string)
    (version : Z) (modality : string) (mark : ModalityStatus → ModalityStatus)
    (process : I → M A) (input : option I) (status : ModalityStatus)
    : M (option A * ModalityStatus) :=
  match input with
  | None => mret (None, status)
  | Some i =>
    a ← or_else (process i) (on_error status);
    _ ← undo_entry tid id version modality;
    mret (Some a, mark status)
  end.

(** The local variables the blocks fill in. *)
Record Written := {
  wr_graph_node : option GraphNode; wr_embedding : option Embedding;
  wr_document : option Document; wr_tensor : option Tensor;
  wr_semantic : option SemanticAnnotation; wr_provenance_chain_length : Z;
  wr_spatial_data : option SpatialData; wr_status : ModalityStatus;
}.

(** The seven blocks in their order. *)
Definition write_modalities (on_error : ModalityStatus → M ()) (tid : Uuid) (id : string)
    (version : Z) (input : HexadInput) (status : ModalityStatus) : M Written :=
  '(graph_node, status) ← write_modality on_error tid id version "graph" mark_graph
      (process_graph id) (hi_graph input) status;
  '(embedding, status) ← write_modality on_error tid id version "vector" mark_vector
      (process_vector id) (hi_vector input) status;
  '(document, status) ← write_modality on_error tid id version "document" mark_document
      (process_document id) (hi_document input) status;
  '(tensor, status) ← write_modality on_error tid id version "tensor" mark_tensor
      (process_tensor id) (hi_tensor input) status;
  '(semantic, status) ← write_modality on_error tid id version "semantic" mark_semantic
      (process_semantic id) (hi_semantic input) status;
  '(chain_len, status) ← write_modality on_error tid id version "provenance" mark_provenance
      (process_provenance id) (hi_provenance input) status;
  '(spatial_data, status) ← write_modality on_error tid id version "spatial" mark_spatial
      (process_spatial id) (hi_spatial input) status;
  mret {| wr_graph_node := graph_node; wr_embedding := embedding; wr_document := document;
          wr_tensor := tensor; wr_semantic := semantic;
          wr_provenance_chain_length := default 0 chain_len;
          wr_spatial_data := spatial_data; wr_status := status |}.

(** The snapshot, taken before the temporal flag is set. *)
Definition append_version (on_error : M ()) (id : string) (input : HexadInput)
    (status : ModalityStatus) (message : string) : M Z :=
  snapshot ← create_snapshot id input status;
  now ← utc_now;
  or_else (on_temporal (rs_append now id snapshot "system" (Some message))) on_error.

(** The COMMITTED marker and the checkpoint; a failure of either is ignored. *)
Definition wal_committed (id : string) : M () :=
  _ ← attempt (wal_append WCheckpoint MAll id (as_bytes "COMMITTED"));
  attempt wal_checkpoint.

Definition hexad_of (id : string) (status : HexadStatus) (w : Written) (version_count : Z) : Hexad :=
  {| h_id := id; h_status := status; h_graph_node := wr_graph_node w;
     h_embedding := wr_embedding w; h_tensor := wr_tensor w; h_semantic := wr_semantic w;
     h_document := wr_document w; h_version_count := version_count;
     h_provenance_chain_length := wr_provenance_chain_length w;
     h_spatial_data := wr_spatial_data w |}.

(** ** Create *)

Definition create_modalities (tid : Uuid) (id : string) (input : HexadInput) : M Written :=
  write_modalities (λ status, _ ← rollback_create id status; rollback_txn tid)
    tid id 0 input ModalityStatus_default.

(** The part of [create] in its transaction and after it. *)
Definition create_in_txn (id : string) (now : DateTime) (input : HexadInput) : M Hexad :=
  tid ← begin_txn;
  _ ← acquire_locks "" tid id (modality_names input);
  w ← create_modalities tid id input;
  version ← append_version (_ ← rollback_create id (wr_status w); rollback_txn tid)
              id input (wr_status w) "Initial creation";
  let modality_status := mark_temporal (wr_status w) in
  _ ← commit_txn "Transaction commit failed: " (rollback_create id modality_status) tid;
  let status := {| hs_id := id; hs_created_at := now; hs_modified_at := now;
                   hs_version := version; hs_modality_status := modality_status |} in
  _ ← insert_status id status;
  _ ← wal_committed id;
  mret (hexad_of id status w 1).

(** [create] once its identifier is drawn. *)
Definition create_as (id : string) (input : HexadInput) : M Hexad :=
  now ← utc_now;
  _ ← wal_append WInsert MAll id (input_to_vec input);
  create_in_txn id now input.

Definition create (input : HexadInput) : M Hexad :=
  uuid ← new_v4;
  create_as (uuid_to_string uuid) input.

(** ** Update *)

Definition update_modalities (tid : Uuid) (id : string) (existing : HexadStatus)
    (input : HexadInput) : M Written :=
  write_modalities (λ _, rollback_txn tid) tid id (hs_version existing) input
    (hs_modality_status existing).

(** [existing.ok_or_else(|| HexadError::NotFound(id.to_string()))?] *)
Definition existing_status (id : string) : M HexadStatus :=
  existing ← lookup_status id;
  match existing with
  | Some existing => mret existing
  | None => throw (HexadNotFound id)
  end.

Definition update_in_txn (id : string) (existing : HexadStatus) (now : DateTime)
    (input : HexadInput) : M Hexad :=
  tid ← begin_txn;
  _ ← acquire_locks "" tid id (modality_names input);
  w ← update_modalities tid id existing input;
  version ← append_version (rollback_txn tid) id input (wr_status w) "Update";
  _ ← commit_txn "Transaction commit failed: " (mret ()) tid;
  let status := {| hs_id := id; hs_created_at := hs_created_at existing; hs_modified_at := now;
                   hs_version := version; hs_modality_status := wr_status w |} in
  _ ← insert_status id status;
  _ ← wal_committed id;
  mret (hexad_of id status w version).

Definition update (id : string) (input : HexadInput) : M Hexad :=
  existing ← existing_status id;
  now ← utc_now;
  _ ← wal_append WUpdate MAll id (input_to_vec input);
  update_in_txn id existing now input.

(** ** Delete *)

(** Temporal, graph, semantic, provenance and spatial data stay. *)
Definition delete_modalities (id : string) : M () :=
  _ ← attempt (on_vector (vs_delete id));
  _ ← attempt (on_document (ds_delete id));
  attempt (on_tensor (ts_delete id)).

Definition delete_in_txn (id : string) (existing : HexadStatus) : M () :=
  tid ← begin_txn;
  let names := populated (hs_modality_status existing) in
  _ ← acquire_locks " for delete" tid id names;
  _ ← for_each (undo_entry tid id (hs_version existing)) names;
  _ ← delete_modalities id;
  _ ← commit_txn "Transaction commit failed during delete: " (mret ()) tid;
  _ ← remove_status id;
  wal_committed id.

Definition hexad_delete (id : string) : M () :=
  existing ← existing_status id;
  _ ← wal_append WDelete MAll id [];
  delete_in_txn id existing.

(** ** Reads *)

Definition hexad_get (id : string) (s : HexadState) : result HexadError (option Hexad) :=
  load_hexad id s.

Definition hexad_status (id : string) (s : HexadState) : result HexadError (option HexadStatus) :=
  Ok (hexads s !! id).

(** [if let Some(hexad) = self.load_hexad(id).await? { hexads.push(hexad) }], in a loop. *)
Fixpoint load_all (ids : list string) (s : HexadState) : result HexadError (list Hexad) :=
  match ids with
  | [] => Ok []
  | id :: ids =>
    hexad ← load_hexad id s;
    hs ← load_all ids s;
    Ok (match hexad with Some h => h :: hs | None => hs end)
  end.

Definition search_similar (embedding : list f32) (k : nat) (s : HexadState)
    : result HexadError (list Hexad) :=
  results ← modality_result "vector" (vs_search embedding k (o_vector (octad s)));
  load_all results s.

Definition search_text (query : string) (limit : nat) (s : HexadState)
    : result HexadError (list Hexad) :=
  results ← modality_result "document" (ds_search query limit (o_document (octad s)));
  load_all results s.

(** The targets of the edges with the predicate. *)
Definition related_ids (pred : string) (edges : list GraphEdge) : list string :=
  let predicate_iri := base_iri config +:+ "/" +:+ pred in
  omap (λ edge,
    if decide (iri (Graph.predicate edge) = predicate_iri) then
      match object edge with
      | Node target => Some (default (iri target) (str_strip_prefix (base_iri config +:+ "/") (iri target)))
      | Literal _ _ => None
      end
    else None) edges.

Definition query_related (id : string) (pred : string) (s : HexadState)
    : result HexadError (list Hexad) :=
  let node := GraphNode_new (to_iri (base_iri config) id) in
  edges ← modality_result "graph" (g_outgoing node (o_graph (octad s)));
  load_all (related_ids pred edges) s.

Definition hexad_list (limit offset : nat) (s : HexadState) : result HexadError (list Hexad) :=
  load_all (take limit (drop offset (hash_iter (dom (hexads s))))) s.

(** [h.status.version = v.version; h.status.modified_at = v.timestamp] *)
Definition stamp_version (v : Version HexadSnapshot) (h : Hexad) : Hexad :=
  let st := h_status h in
  {| h_id := h_id h;
     h_status := {| hs_id := hs_id st; hs_created_at := hs_created_at st;
                    hs_modified_at := v_timestamp v; hs_version := version v;
                    hs_modality_status := hs_modality_status st |};
     h_graph_node := h_graph_node h; h_embedding := h_embedding h; h_tensor := h_tensor h;
     h_semantic := h_semantic h; h_document := h_document h;
     h_version_count := h_version_count h;
     h_provenance_chain_length := h_provenance_chain_length h;
     h_spatial_data := h_spatial_data h |}.

Definition hexad_at_time (id : string) (time : DateTime) (s : HexadState)
    : result HexadError (option Hexad) :=
  v ← modality_result "temporal" (rs_at_time id time (o_temporal (octad s)));
  match v with
  | Some v =>
    hexad ← load_hexad id s;
    Ok (match hexad with Some h => Some (stamp_version v h) | None => None end)
  | None => Ok None
  end.

End store.
