(* ===== verification/HexadLogic.v ===== *)
(** * Reasoning about the hexad store

    A Hoare logic for the store's monad, the part of the state a transaction of the store
    may touch, and what a modality store shows to a reader.  [HexadTxn.v] and
    the files after it prove the properties of the operations with them. *)

From S2P Require Import Prelude Floats LockTable DeadlockDetector LockSpec Transaction TransactionSpec TransactionProps WalEntry WalLog Provenance Temporal Graph Modality HexadTypes HexadStore.
Local Open Scope Z_scope.

(** ** One transaction of a manager *)

Section txn.
Context {CH : Chrono} `{!HashIter Uuid}.
Implicit Types (tm : TransactionManager).

(** Everything of [tm0] but transaction [tid]. *)
Record others_kept tm0 (tid : Uuid) tm : Prop := {
  ok_inv : manager_inv tm;
  ok_txns : ∀ u, u ≠ tid → active_transactions tm !! u = active_transactions tm0 !! u;
  ok_held : ∀ u eid m, u ≠ tid → held u eid m (lock_table tm) = held u eid m (lock_table tm0);
}.

(** [tid] is running, at the isolation level the hexad store uses. *)
Definition running (tid : Uuid) tm : Prop :=
  ∃ txn, active_txn tid tm = Ok txn ∧ tx_isolation_level txn = ReadCommitted.

Definition over (tid : Uuid) tm : Prop :=
  ∃ txn, active_transactions tm !! tid = Some txn ∧ tx_state txn ≠ Active.

Lemma begin_running uuid now tm :
  manager_inv tm → active_transactions tm !! uuid = None →
  let '(tid, tm') := begin uuid now ReadCommitted tm in
  tid = uuid ∧ others_kept tm uuid tm' ∧ running uuid tm'.
Proof.
  intros Hinv Hf. cbn. split_and!; [done| |].
  - split; [by apply (manager_inv_begin uuid now ReadCommitted)| |done].
    intros u Hu. cbn. by rewrite lookup_insert_ne.
  - exists (Transaction_new uuid now ReadCommitted). split; [|done]. apply active_txn_Ok. cbn. by rewrite lookup_insert_eq.
Qed.

(** A transaction mutated in place stays what it was for the others. *)
Lemma update_txn_others tid f tm u :
  u ≠ tid → active_transactions (update_txn tid f tm) !! u = active_transactions tm !! u.
Proof. intros Hu. unfold update_txn. cbn. by rewrite lookup_alter_ne. Qed.

Lemma update_txn_running tid f tm :
  (∀ txn, tx_state (f txn) = tx_state txn ∧ tx_isolation_level (f txn) = tx_isolation_level txn) →
  running tid tm → running tid (update_txn tid f tm).
Proof.
  intros Hf (txn & [Ht Ha]%active_txn_Ok & Hi). destruct (Hf txn) as [Hs Hl].
  exists (f txn). split; [|congruence]. apply active_txn_Ok. split; [|congruence].
  apply update_txn_Some. exists txn. by rewrite decide_True.
Qed.

Lemma acquire_kept tm0 tid eid m lty tm :
  others_kept tm0 tid tm → running tid tm →
  let tm' := (acquire_lock tid eid m lty tm).2 in others_kept tm0 tid tm' ∧ running tid tm'.
Proof.
  intros [Hi Ht Hh] Hrun. pose proof (manager_inv_acquire tid eid m lty tm Hi) as Hi'.
  revert Hi'. unfold acquire_lock. destruct (acquire_check _ _ _) as [[]|e]; [|done].
  unfold acquire_table. destruct (LockTable.acquire _ _ _ _ _) as [[[]|e] lt'] eqn:Hacq; cbn [snd].
  - destruct (held_acquire _ _ _ _ _ _ (mi_locks _ Hi) Hacq) as [_ Hheld]. intros Hi'. split.
    + split; [done| |]; intros u.
      * intros Hu. unfold acquire_record. rewrite update_txn_others by done. by apply Ht.
      * intros eid' m' Hu. cbn. rewrite Hheld, decide_False by naive_solver. by apply Hh.
    + by apply update_txn_running.
  - intros Hi'. split; [|done]. split; [done|done|]. intros u eid' m' Hu.
    rewrite <- Hh by done. unfold held, abs_table. cbn. by rewrite (acquire_err_locks _ _ _ _ _ _ _ Hacq).
Qed.

Lemma record_undo_kept tm0 tid eid m d v now tm :
  others_kept tm0 tid tm → running tid tm →
  let tm' := (record_undo tid eid m d v now tm).2 in others_kept tm0 tid tm' ∧ running tid tm'.
Proof.
  intros [Hi Ht Hh] Hrun.
  pose proof (manager_inv_exec (CRecordUndo tid eid m d v now) tm I Hi) as Hi'. revert Hi'. cbn.
  unfold record_undo. destruct (_ ≫= _); cbn [snd]; [|done]. intros Hi'. split.
  - split; [done| |done]. intros u Hu. rewrite update_txn_others by done. by apply Ht.
  - by apply update_txn_running.
Qed.

Lemma complete_kept tm0 tid s now tm txn :
  s ≠ Active → others_kept tm0 tid tm → active_transactions tm !! tid = Some txn →
  let tm' := release_locks tid (update_txn tid (complete s now) tm) in
  others_kept tm0 tid tm' ∧ over tid tm'.
Proof.
  intros Hs [Hi Ht Hh] Htxn.
  destruct (complete_effect tid s now tm txn (mi_locks _ Hi) Htxn) as [Ha Hl]. cbn zeta in *. split.
  - split.
    + by apply manager_inv_complete.
    + intros u Hu. rewrite Ha, lookup_insert_ne by done. by apply Ht.
    + intros u eid m Hu. rewrite Hl, decide_False by done. by apply Hh.
  - exists (complete s now txn). rewrite Ha, lookup_insert_eq. by split.
Qed.

Lemma rollback_kept tm0 tid now tm :
  others_kept tm0 tid tm → running tid tm →
  let tm' := (rollback tid now tm).2 in others_kept tm0 tid tm' ∧ over tid tm'.
Proof.
  intros Hk (txn & Htxn & _). unfold rollback. rewrite Htxn. cbn [snd].
  apply active_txn_Ok in Htxn as [Htxn _]. by eapply complete_kept.
Qed.

Lemma commit_kept tm0 tid now tm :
  others_kept tm0 tid tm → running tid tm →
  ∃ tm', commit tid now tm = (Ok (), tm') ∧ others_kept tm0 tid tm' ∧ over tid tm'.
Proof.
  intros [Hi Ht Hh] (txn & Htxn & Hrc). eexists. split.
  - unfold commit. rewrite (commit_validate_active _ _ _ Htxn). unfold stale_read. by rewrite Hrc.
  - apply active_txn_Ok in Htxn as [Htxn _]. apply (complete_kept _ _ _ _ _ txn); [done| |done].
    destruct Hi. split; [split; [|done..]|done..]. by apply apply_increments_range.
Qed.

End txn.

(** ** A logic for the monad *)

Section logic.
Context {CH : Chrono} {PL : Platform} {BK : Backends}.
Implicit Types (s : HexadState) (P : HexadState → Prop).

Definition hoare {A} P (m : M A) (Q : A → HexadState → Prop) (E : HexadError → HexadState → Prop)
    : Prop :=
  ∀ s, P s → match m s with (Ok a, s') => Q a s' | (Err e, s') => E e s' end.

Lemma hoare_ret {A} (a : A) (Q : A → HexadState → Prop) E : hoare (Q a) (mret a) Q E.
Proof. by intros s Hs. Qed.

Lemma hoare_ret_same {A} (a : A) P E : hoare P (mret a) (λ _, P) E.
Proof. by intros s Hs. Qed.

Lemma hoare_bind {A B} P (m : M A) (f : A → M B) Q R E :
  hoare P m Q E → (∀ a, hoare (Q a) (f a) R E) → hoare P (m ≫= f) R E.
Proof.
  intros Hm Hf s Hs. specialize (Hm s Hs). unfold mbind, M_bind.
  destruct (m s) as [[a|e] s']; [by apply Hf|done].
Qed.

Lemma hoare_conseq {A} P P' (m : M A) Q Q' E E' :
  hoare P' m Q' E' → (∀ s, P s → P' s) → (∀ a s, Q' a s → Q a s) → (∀ e s, E' e s → E e s) →
  hoare P m Q E.
Proof. intros Hm HP HQ HE s Hs. specialize (Hm s (HP s Hs)). case_match. case_match; eauto. Qed.

Lemma hoare_or_else {A} P (m : M A) (cleanup : M ()) Q E E' :
  hoare P m Q E → (∀ s e, E e s → E' e (cleanup s).2) → hoare P (or_else m cleanup) Q E'.
Proof.
  intros Hm Hc s Hs. specialize (Hm s Hs). unfold or_else.
  destruct (m s) as [[a|e] s']; [done|by apply Hc].
Qed.

(** *** Relations every method respects, whatever it returns *)

Definition respects (R : relation HexadState) {A} (m : M A) : Prop := ∀ s, R s (m s).2.

Section respects.
Context (R : relation HexadState) `{!PreOrder R}.

Lemma respects_ret {A} (a : A) : respects R (mret a : M A).
Proof. intros s. cbn. reflexivity. Qed.
Lemma respects_throw {A} e : respects R (throw e : M A).
Proof. intros s. cbn. reflexivity. Qed.
Lemma respects_bind {A B} (m : M A) (f : A → M B) :
  respects R m → (∀ a, respects R (f a)) → respects R (m ≫= f).
Proof.
  intros Hm Hf s. specialize (Hm s). unfold mbind, M_bind. destruct (m s) as [[a|e] s']; [|done].
  etrans; [done|apply Hf].
Qed.
Lemma respects_attempt {A} (m : M A) : respects R m → respects R (attempt m).
Proof. intros Hm s. apply Hm. Qed.
Lemma respects_when b (m : M ()) : respects R m → respects R (when b m).
Proof. intros Hm. destruct b; [done|apply respects_ret]. Qed.
Lemma respects_or_else {A} (m : M A) (c : M ()) :
  respects R m → respects R c → respects R (or_else m c).
Proof.
  intros Hm Hc s. specialize (Hm s). unfold or_else. destruct (m s) as [[a|e] s']; [done|].
  etrans; [done|apply Hc].
Qed.
Lemma respects_for_each {A} (f : A → M ()) l : (∀ a, respects R (f a)) → respects R (for_each f l).
Proof.
  intros Hf. induction l as [|a l IH]; [apply respects_ret|]. by apply respects_bind.
Qed.

End respects.

Lemma hoare_respects R {A} (m : M A) P :
  respects R m → (∀ s s', P s → R s s' → P s') → hoare P m (λ _, P) (λ _, P).
Proof.
  intros Hm HP s Hs. specialize (Hm s). destruct (m s) as [[a|e] s']; by eapply HP.
Qed.

(** *** The errors a method can raise *)

Section raises.
Context (R : HexadError → Prop).

Definition raises {A} (m : M A) : Prop := ∀ s e, (m s).1 = Err e → R e.

Lemma raises_ret {A} (a : A) : raises (mret a : M A).
Proof. by intros s e. Qed.
Lemma raises_throw {A} e : R e → raises (throw e : M A).
Proof. by intros He s e' [= <-]. Qed.
Lemma raises_bind {A B} (m : M A) (f : A → M B) :
  raises m → (∀ a, raises (f a)) → raises (m ≫= f).
Proof.
  intros Hm Hf s e. specialize (Hm s). unfold mbind, M_bind.
  destruct (m s) as [[a|e'] s']; [apply Hf|]. intros [= <-]. by apply Hm.
Qed.
Lemma raises_for_each {A} (f : A → M ()) l : (∀ a, raises (f a)) → raises (for_each f l).
Proof. intros Hf. induction l as [|a l IH]; [apply raises_ret|]. by apply raises_bind. Qed.

Lemma hoare_raises {A} P (m : M A) Q E :
  hoare P m Q E → raises m → hoare P m Q (λ e s, E e s ∧ R e).
Proof.
  intros Hm Hr s Hs. specialize (Hm s Hs). specialize (Hr s).
  destruct (m s) as [[a|e] s']; [done|]. split; [done|by apply Hr].
Qed.

End raises.

(** *** Methods that leave the registry and the manager alone *)

Record passive s s' : Prop := {
  pa_hexads : hexads s' = hexads s;
  pa_txn : txn_manager s' = txn_manager s;
  pa_draws : (hx_draws s <= hx_draws s')%nat;
}.

#[export] Instance passive_preorder : PreOrder passive.
Proof. split; [by split|]. intros s1 s2 s3 [] []. split; [congruence..|lia]. Qed.

Lemma passive_utc_now : respects passive utc_now.
Proof. split; cbn; [done..|lia]. Qed.
Lemma passive_new_v4 : respects passive new_v4.
Proof. split; cbn; [done..|lia]. Qed.
Lemma passive_instants : respects passive instants.
Proof. split; cbn; [done..|lia]. Qed.
Lemma passive_on_store {X A} get set name (f : X → result string A * X) :
  respects passive (on_store get set name f).
Proof. intros s. unfold on_store. by destruct (f _). Qed.
Lemma passive_on_wal message f : respects passive (on_wal message f).
Proof. intros s. unfold on_wal. destruct (wal s); [|done]. by destruct (f _). Qed.

End logic.

Create HintDb respects.
#[export] Hint Resolve passive_utc_now passive_new_v4 passive_instants passive_on_wal : respects.
#[export] Hint Extern 1 (respects passive _) => apply passive_on_store : respects.

(** Proves [respects R m] from the rules, down to the primitives. *)
Ltac respects_step :=
  match goal with
  | |- respects _ (_ ≫= _) => apply respects_bind; [typeclasses eauto| |intros ?]
  | |- respects _ (mret _) => apply respects_ret; typeclasses eauto
  | |- respects _ (throw _) => apply respects_throw; typeclasses eauto
  | |- respects _ (attempt _) => apply respects_attempt
  | |- respects _ (when _ _) => apply respects_when; [typeclasses eauto|]
  | |- respects _ (or_else _ _) => apply respects_or_else; [typeclasses eauto| |]
  | |- respects _ (for_each _ _) => apply respects_for_each; [typeclasses eauto|intros ?]
  | |- respects _ (match ?x with _ => _ end) => destruct x eqn:?
  | |- respects _ (let '(_, _) := ?x in _) => destruct x
  end.
Ltac respects_all := repeat first [solve [eauto with respects] | respects_step].

Section methods.
Context {CH : Chrono} {PL : Platform} {BK : Backends} (config : HexadConfig).
Implicit Types (s : HexadState) (id : string).

Lemma passive_wal_append op md id payload : respects passive (wal_append op md id payload).
Proof. unfold wal_append. respects_all. Qed.
Lemma passive_wal_committed id : respects passive (wal_committed id).
Proof. unfold wal_committed, wal_append, wal_checkpoint. respects_all. Qed.
Lemma passive_process_graph id i : respects passive (process_graph config id i).
Proof. unfold process_graph. respects_all. Qed.
Lemma passive_process_vector id i : respects passive (process_vector config id i).
Proof. unfold process_vector. respects_all. Qed.
Lemma passive_process_document id i : respects passive (process_document id i).
Proof. unfold process_document. respects_all. Qed.
Lemma passive_process_tensor id i : respects passive (process_tensor id i).
Proof. unfold process_tensor. respects_all. Qed.
Lemma passive_process_semantic id i : respects passive (process_semantic id i).
Proof. unfold process_semantic. respects_all. Qed.
Lemma passive_process_provenance id i : respects passive (process_provenance id i).
Proof. unfold process_provenance. respects_all. Qed.
Lemma passive_process_spatial id i : respects passive (process_spatial id i).
Proof. unfold process_spatial. respects_all. Qed.
Lemma passive_rollback_create id st : respects passive (rollback_create id st).
Proof. unfold rollback_create. respects_all. Qed.
Lemma passive_create_snapshot id i st : respects passive (create_snapshot id i st).
Proof. unfold create_snapshot. respects_all. Qed.
Lemma passive_delete_modalities id : respects passive (delete_modalities id).
Proof. unfold delete_modalities. respects_all. Qed.

End methods.

#[export] Hint Resolve passive_wal_append passive_wal_committed passive_process_graph
  passive_process_vector passive_process_document passive_process_tensor passive_process_semantic
  passive_process_provenance passive_process_spatial passive_rollback_create
  passive_create_snapshot passive_delete_modalities : respects.

(** ** No modality and no log reports a consistency violation *)

Definition calm (e : HexadError) : Prop := ∀ message, e ≠ ConsistencyViolation message.

Ltac raises_step :=
  match goal with
  | |- raises _ (_ ≫= _) => apply raises_bind; [|intros ?]
  | |- raises _ (mret _) => apply raises_ret
  | |- raises _ (throw _) => apply raises_throw; by intros ?
  | |- raises _ (for_each _ _) => apply raises_for_each; intros ?
  | |- raises _ (match ?x with _ => _ end) => destruct x eqn:?
  | |- raises _ (let '(_, _) := ?x in _) => destruct x
  end.
Ltac raises_all := repeat first [solve [eauto with respects] | raises_step].

Section calm.
Context {CH : Chrono} {PL : Platform} {BK : Backends} (config : HexadConfig).

Lemma calm_utc_now : raises calm utc_now.
Proof. by intros s e. Qed.
Lemma calm_new_v4 : raises calm new_v4.
Proof. by intros s e. Qed.
Lemma calm_instants : raises calm instants.
Proof. by intros s e. Qed.
Lemma calm_on_store {X A} get set name (f : X → result string A * X) :
  raises calm (on_store get set name f).
Proof. intros s e. unfold on_store. destruct (f _) as [[a|e'] x]; cbn; [done|]. by intros [= <-]. Qed.
Lemma calm_on_wal message f : raises calm (on_wal message f).
Proof.
  intros s e. unfold on_wal. destruct (wal s); [|done].
  destruct (f _) as [[a|e'] x]; cbn; [done|]. by intros [= <-].
Qed.

End calm.

#[export] Hint Resolve calm_utc_now calm_new_v4 calm_instants calm_on_wal : respects.
#[export] Hint Extern 1 (raises calm _) => apply calm_on_store : respects.

Section calm_methods.
Context {CH : Chrono} {PL : Platform} {BK : Backends} (config : HexadConfig).

Lemma calm_wal_append op md id payload : raises calm (wal_append op md id payload).
Proof. unfold wal_append. raises_all. Qed.
Lemma calm_process_graph id i : raises calm (process_graph config id i).
Proof. unfold process_graph. raises_all. Qed.
Lemma calm_process_vector id i : raises calm (process_vector config id i).
Proof. unfold process_vector. raises_all. Qed.
Lemma calm_process_document id i : raises calm (process_document id i).
Proof. unfold process_document. raises_all. Qed.
Lemma calm_process_tensor id i : raises calm (process_tensor id i).
Proof. unfold process_tensor. raises_all. Qed.
Lemma calm_process_semantic id i : raises calm (process_semantic id i).
Proof. unfold process_semantic. raises_all. Qed.
Lemma calm_process_provenance id i : raises calm (process_provenance id i).
Proof. unfold process_provenance. raises_all. Qed.
Lemma calm_process_spatial id i : raises calm (process_spatial id i).
Proof. unfold process_spatial. raises_all. Qed.

End calm_methods.

#[export] Hint Resolve calm_wal_append calm_process_graph calm_process_vector calm_process_document
  calm_process_tensor calm_process_semantic calm_process_provenance calm_process_spatial : respects.
