(* ===== verification/HexadTxn.v ===== *)
(** * Every write ends its transaction

    Whatever its outcome, [create], [update] and [delete] leave the transaction manager
    without a trace of their own transaction but its record: no lock, nothing active;
    a failed one also leaves the registry as it was.  A store used only through its
    operations is therefore idle between them, and its lock requests never fail. *)

From S2P Require Import Prelude Floats LockTable DeadlockDetector LockSpec Transaction TransactionSpec TransactionProps WalEntry WalLog Provenance Temporal Graph Modality HexadTypes HexadStore HexadLogic.
Local Open Scope Z_scope.

Section txn.
Context {CH : Chrono} {PL : Platform} {BK : Backends} (config : HexadConfig).
Implicit Types (s : HexadState) (id : string).

(** ** The operations as labels *)

Inductive hexad_op :=
| OpCreate (input : HexadInput)
| OpUpdate (id : string) (input : HexadInput)
| OpDelete (id : string).

Definition outcome (op : hexad_op) s : result HexadError () :=
  match op with
  | OpCreate input => (λ _, ()) <$> (create config input s).1
  | OpUpdate id input => (λ _, ()) <$> (update config id input s).1
  | OpDelete id => (hexad_delete id s).1
  end.

Definition exec_op (op : hexad_op) s : HexadState :=
  match op with
  | OpCreate input => (create config input s).2
  | OpUpdate id input => (update config id input s).2
  | OpDelete id => (hexad_delete id s).2
  end.

(** No random identifier still to be drawn names a transaction. *)
Definition unused s : Prop :=
  ∀ n, (hx_draws s <= n)%nat → active_transactions (txn_manager s) !! random_uuid n = None.

(** ** Inside and after the transaction of an operation *)

(** [tid] was drawn since [s0]. *)
Definition drawn s0 (tid : Uuid) s : Prop :=
  ∃ k, tid = random_uuid k ∧ (hx_draws s0 <= k < hx_draws s)%nat.

Record in_txn s0 (tid : Uuid) s : Prop := {
  it_kept : others_kept (txn_manager s0) tid (txn_manager s);
  it_running : running tid (txn_manager s);
  it_hexads : hexads s = hexads s0;
  it_drawn : drawn s0 tid s;
}.

Record done_txn s0 (tid : Uuid) s : Prop := {
  dt_kept : others_kept (txn_manager s0) tid (txn_manager s);
  dt_over : over tid (txn_manager s);
  dt_hexads : hexads s = hexads s0;
  dt_drawn : drawn s0 tid s;
}.

(** Nothing is running, and the transactions on record were drawn by this store. *)
Record idle s : Prop := {
  id_inv : manager_inv (txn_manager s);
  id_over : ∀ u txn, active_transactions (txn_manager s) !! u = Some txn → tx_state txn ≠ Active;
  id_drawn : ∀ u txn, active_transactions (txn_manager s) !! u = Some txn →
    ∃ k, u = random_uuid k ∧ (k < hx_draws s)%nat;
}.

(** What an operation that fails has left when its transaction is over. *)
Definition done_err s0 tid (e : HexadError) s : Prop := done_txn s0 tid s ∧ (idle s0 → calm e).

Lemma drawn_mono s0 tid s s' : drawn s0 tid s → (hx_draws s <= hx_draws s')%nat → drawn s0 tid s'.
Proof. intros (k & -> & ?) ?. exists k. split; [done|lia]. Qed.

Lemma in_txn_passive s0 tid s s' : in_txn s0 tid s → passive s s' → in_txn s0 tid s'.
Proof.
  intros [] [? Htm ?]. split; [by rewrite Htm|by rewrite Htm|congruence|by eapply drawn_mono].
Qed.
Lemma done_txn_passive s0 tid s s' : done_txn s0 tid s → passive s s' → done_txn s0 tid s'.
Proof.
  intros [] [? Htm ?]. split; [by rewrite Htm|by rewrite Htm|congruence|by eapply drawn_mono].
Qed.

Lemma hoare_passive {A} s0 tid (m : M A) :
  respects passive m → hoare (in_txn s0 tid) m (λ _, in_txn s0 tid) (λ _, in_txn s0 tid).
Proof. intros Hm. eapply hoare_respects; [done|apply in_txn_passive]. Qed.

Lemma rollback_txn_done s0 tid s : in_txn s0 tid s → done_txn s0 tid (rollback_txn tid s).2.
Proof.
  intros [Hk Hr Hh Hd]. destruct (rollback_kept _ tid (utc (hx_draws s)) _ Hk Hr) as [Hk' Ho].
  unfold rollback_txn, on_txn, mbind, M_bind. cbn. destruct (rollback _ _ _) as [r tm'].
  split; [done..|]. apply (drawn_mono _ _ s); [done|cbn; lia].
Qed.

Lemma hoare_rollback_txn s0 tid E :
  hoare (in_txn s0 tid) (rollback_txn tid) (λ _, done_txn s0 tid) E.
Proof.
  intros s Hs. pose proof (rollback_txn_done _ _ _ Hs) as Hd. revert Hd.
  unfold rollback_txn, on_txn, mbind, M_bind. cbn. by destruct (rollback _ _ _) as [r tm'].
Qed.

Lemma hoare_utc_now s0 tid E : hoare (in_txn s0 tid) utc_now (λ _, in_txn s0 tid) E.
Proof. intros s Hs. cbn. eapply in_txn_passive; [done|apply passive_utc_now]. Qed.

(** ** The parts of an operation *)

Lemma hoare_on_txn {A} s0 tid E
    (f : TransactionManager → result TransactionError A * TransactionManager) :
  (∀ tm, others_kept (txn_manager s0) tid tm → running tid tm →
     others_kept (txn_manager s0) tid (f tm).2 ∧ running tid (f tm).2) →
  hoare (in_txn s0 tid) (on_txn f) (λ _, in_txn s0 tid) E.
Proof.
  intros Hf s [Hk Hr Hh Hd]. unfold on_txn. destruct (Hf _ Hk Hr) as [Hk' Hr'].
  destruct (f (txn_manager s)) as [r tm']. by split.
Qed.

Lemma hoare_undo_entry s0 tid id v m E :
  hoare (in_txn s0 tid) (undo_entry tid id v m) (λ _, in_txn s0 tid) E.
Proof.
  unfold undo_entry. eapply hoare_bind; [apply hoare_utc_now|intros now].
  eapply hoare_bind; [|intros r; apply hoare_ret_same]. apply hoare_on_txn.
  intros tm Hk Hr. by apply record_undo_kept.
Qed.

(** A transaction that is not active, or not there, holds nothing. *)
Lemma held_None tm u eid m :
  manager_inv tm → (∀ txn, active_transactions tm !! u = Some txn → tx_state txn ≠ Active) →
  held u eid m (lock_table tm) = None.
Proof.
  intros Hi Hu. apply eq_None_not_Some. intros (txn & Ht & Ha & _)%(mi_held _ Hi). by apply (Hu txn).
Qed.

(** Nobody else holds the pair: the lock is granted. *)
Lemma acquire_lock_free tid eid m tm :
  manager_inv tm → running tid tm → m ∈ MODALITIES →
  (∀ u, u ≠ tid → held u eid m (lock_table tm) = None) →
  (acquire_lock tid eid m Exclusive tm).1 = Ok ().
Proof.
  intros Hi (txn & Htxn & _) Hm Hfree. unfold acquire_lock, acquire_check, check_modality.
  rewrite decide_True by done. cbn. rewrite Htxn. cbn. unfold acquire_table.
  destruct (acquire_granted tid eid m Exclusive (lock_table tm) (mi_locks _ Hi)) as (lt' & -> & _);
    [|done].
  intros u held Hu. left. destruct (decide (u = tid)) as [|Hne]; [done|].
  specialize (Hfree u Hne). unfold TransactionSpec.held in Hfree. congruence.
Qed.

Lemma idle_acquire s0 tid s id m :
  idle s0 → in_txn s0 tid s → m ∈ MODALITIES →
  (acquire_lock tid id m Exclusive (txn_manager s)).1 = Ok ().
Proof.
  intros Hid [[Hi _ Hh] Hr _ _] Hm. apply acquire_lock_free; [done..|]. intros u Hu.
  rewrite Hh by done. apply held_None; [apply Hid|apply Hid].
Qed.

Lemma hoare_acquire_locks s0 tid purpose id names :
  Forall (.∈ MODALITIES) names →
  hoare (in_txn s0 tid) (acquire_locks purpose tid id names) (λ _, in_txn s0 tid) (done_err s0 tid).
Proof.
  induction 1 as [|m names Hm _ IH]; [apply hoare_ret_same|]. cbn [acquire_locks].
  eapply (hoare_bind _ _ _ (λ r s, in_txn s0 tid s ∧ (idle s0 → r = Ok ()))).
  - intros s Hs.
    pose proof (hoare_on_txn s0 tid (λ _ _, False) (acquire_lock tid id m Exclusive)) as Hon.
    specialize (Hon (λ tm Hk Hr, acquire_kept _ _ _ _ _ _ Hk Hr) s Hs).
    pose proof (λ Hid, idle_acquire s0 tid s id m Hid Hs Hm) as Hok. revert Hon Hok. unfold on_txn.
    by destruct (acquire_lock _ _ _ _ _) as [r tm'].
  - intros [[]|e]; [eapply hoare_conseq; [apply IH|by intros s [? _]|done..]|].
    eapply (hoare_bind _ _ _ (λ _ s, done_txn s0 tid s ∧ ¬ idle s0)).
    + intros s [Hs Hid].
      pose proof (hoare_rollback_txn s0 tid (λ _ _, False) s Hs) as Hrb.
      destruct (rollback_txn tid s) as [[[]|e'] s']; [|done]. split; [done|]. by intros ?%Hid.
    + intros [] s [Hd Hid]. by split.
Qed.

(** [on_error] ends the transaction. *)
Definition ends_txn s0 tid (on_error : M ()) : Prop :=
  ∀ s, in_txn s0 tid s → done_txn s0 tid (on_error s).2.

Lemma hoare_or_end {A} s0 tid (m : M A) on_error :
  ends_txn s0 tid on_error → respects passive m → raises calm m →
  hoare (in_txn s0 tid) (or_else m on_error) (λ _, in_txn s0 tid) (done_err s0 tid).
Proof.
  intros He Hp Hc. eapply hoare_or_else; [by eapply hoare_raises; [apply hoare_passive|]|].
  intros s e [Hs Hce]. split; [by apply He|done].
Qed.

Lemma hoare_write_modality {I A} s0 tid id v m mark on_error (process : I → M A) input st :
  (∀ st, ends_txn s0 tid (on_error st)) →
  (∀ i, respects passive (process i)) → (∀ i, raises calm (process i)) →
  hoare (in_txn s0 tid) (write_modality on_error tid id v m mark process input st)
    (λ _, in_txn s0 tid) (done_err s0 tid).
Proof.
  intros He Hp Hc. destruct input as [i|]; cbn [write_modality]; [|apply hoare_ret_same].
  eapply hoare_bind; [by apply hoare_or_end|]. intros a.
  eapply hoare_bind; [apply hoare_undo_entry|]. intros []. apply hoare_ret_same.
Qed.

Lemma hoare_write_modalities s0 tid id v on_error input st :
  (∀ st, ends_txn s0 tid (on_error st)) →
  hoare (in_txn s0 tid) (write_modalities config on_error tid id v input st)
    (λ _, in_txn s0 tid) (done_err s0 tid).
Proof.
  intros He. unfold write_modalities.
  do 7 (eapply hoare_bind; [apply hoare_write_modality; eauto with respects|intros [? ?]]).
  apply hoare_ret_same.
Qed.

Lemma hoare_append_version s0 tid on_error id input st message :
  ends_txn s0 tid on_error →
  hoare (in_txn s0 tid) (append_version on_error id input st message)
    (λ _, in_txn s0 tid) (done_err s0 tid).
Proof.
  intros He. unfold append_version, create_snapshot.
  eapply hoare_bind; [eapply hoare_bind; [apply hoare_utc_now|intros now; apply hoare_ret_same]|].
  intros sn. eapply hoare_bind; [apply hoare_utc_now|intros now].
  apply hoare_or_end; [done|respects_all|raises_all].
Qed.

(** The commit of a running transaction succeeds. *)
Lemma hoare_commit_txn s0 tid message on_error E :
  hoare (in_txn s0 tid) (commit_txn message on_error tid) (λ _, done_txn s0 tid) E.
Proof.
  unfold commit_txn. eapply hoare_bind; [apply hoare_utc_now|intros now].
  eapply (hoare_bind _ _ _ (λ r s, r = Ok () ∧ done_txn s0 tid s)).
  - intros s [Hk Hr Hh Hd]. unfold on_txn.
    destruct (commit_kept _ tid now _ Hk Hr) as (tm' & -> & Hk' & Ho). by split.
  - intros r s [-> Hs]. done.
Qed.

Lemma ends_txn_rollback s0 tid : ends_txn s0 tid (rollback_txn tid).
Proof. intros s. apply rollback_txn_done. Qed.

Lemma ends_txn_rollback_create s0 tid id st :
  ends_txn s0 tid (_ ← rollback_create id st; rollback_txn tid).
Proof.
  intros s Hs. unfold mbind, M_bind.
  pose proof (hoare_passive s0 tid _ (passive_rollback_create id st) s Hs) as Hrc.
  destruct (rollback_create id st s) as [[[]|e] s'] eqn:Heq; [by apply rollback_txn_done|].
  exfalso. unfold rollback_create, mbind, M_bind, when, attempt in Heq.
  by destruct (ms_vector st), (ms_document st), (ms_tensor st); simplify_eq/=.
Qed.

(** ** After an operation *)

Record completed s0 s : Prop := {
  co_inv : manager_inv (txn_manager s);
  co_old : ∀ u txn, active_transactions (txn_manager s0) !! u = Some txn →
    active_transactions (txn_manager s) !! u = Some txn;
  co_new : ∀ u txn, active_transactions (txn_manager s) !! u = Some txn →
    active_transactions (txn_manager s0) !! u = Some txn ∨
    tx_state txn ≠ Active ∧ drawn s0 u s;
  co_held : ∀ u eid m,
    held u eid m (lock_table (txn_manager s)) = held u eid m (lock_table (txn_manager s0));
  co_draws : (hx_draws s0 <= hx_draws s)%nat;
}.

Lemma completed_mono s0 s s' :
  completed s0 s → txn_manager s' = txn_manager s → (hx_draws s <= hx_draws s')%nat →
  completed s0 s'.
Proof.
  intros [H1 H2 H3 H4 H5] Htm Hd. split; rewrite ?Htm; [done|done| |done|lia].
  intros u txn Hu. destruct (H3 u txn Hu) as [?|[? ?]]; [by left|right].
  split; [done|by eapply drawn_mono].
Qed.

Lemma passive_completed s0 s : manager_inv (txn_manager s0) → passive s0 s → completed s0 s.
Proof. intros Hi [? Htm ?]. split; rewrite ?Htm; auto. Qed.

Lemma done_txn_completed s0 tid s :
  manager_inv (txn_manager s0) → unused s0 → done_txn s0 tid s → completed s0 s.
Proof.
  intros Hi Hu [[Hi' Ht Hh] (txn & Htxn & Hs) _ (k & -> & Hk)].
  assert (active_transactions (txn_manager s0) !! random_uuid k = None) as Hnone by (apply Hu; lia).
  split; [done| | | |lia].
  - intros u t Hl. rewrite Ht; [done|]. intros ->. congruence.
  - intros u t Hl. destruct (decide (u = random_uuid k)) as [->|Hne].
    + right. split; [congruence|]. by exists k.
    + left. by rewrite <- Ht.
  - intros u eid m. destruct (decide (u = random_uuid k)) as [->|Hne]; [|by apply Hh].
    rewrite !held_None; [done|done| |done|]; [intros t Hl|intros t Hl]; congruence.
Qed.

Lemma hoare_begin_txn s0 E :
  manager_inv (txn_manager s0) → unused s0 →
  hoare (passive s0) begin_txn (λ tid, in_txn s0 tid) E.
Proof.
  intros Hi Hu s [Hh Htm Hd]. unfold begin_txn, mbind, M_bind. cbn -[begin].
  pose proof (begin_running (random_uuid (hx_draws s)) (utc (hx_draws s + 1)) (txn_manager s)) as Hb.
  destruct (begin _ _ _ _) as [tid tm']. rewrite Htm in Hb.
  destruct (Hb Hi) as (-> & Hk & Hr); [by apply Hu|].
  split; [done|done|done|]. exists (hx_draws s). split; [done|]. cbn. lia.
Qed.

(** What a failed operation leaves. *)
Definition failed s0 (e : HexadError) s : Prop :=
  completed s0 s ∧ hexads s = hexads s0 ∧ (idle s0 → calm e).

(** Before its transaction begins. *)
Lemma hoare_before s0 {A} (m : M A) :
  manager_inv (txn_manager s0) → respects passive m → raises calm m →
  hoare (passive s0) m (λ _, passive s0) (failed s0).
Proof.
  intros Hi Hm Hc s Hs. specialize (Hm s). specialize (Hc s).
  assert (passive s0 (m s).2) as Hp by by etrans.
  destruct (m s) as [[a|e] s']; [done|].
  split_and!; [by apply passive_completed|apply Hp|]. intros _. by apply Hc.
Qed.

Lemma done_failed s0 tid e s :
  manager_inv (txn_manager s0) → unused s0 → done_err s0 tid e s → failed s0 e s.
Proof. intros Hi Hu [Hd Hc]. split_and!; [by eapply done_txn_completed|apply Hd|done]. Qed.

(** Registering the outcome and closing the log. *)
Lemma hoare_register {A} s0 tid (m : M ()) (f : M A) E :
  manager_inv (txn_manager s0) → unused s0 → respects passive f → (∀ s, is_ok (f s).1 = true) →
  (∀ s, txn_manager (m s).2 = txn_manager s ∧ hx_draws (m s).2 = hx_draws s ∧ is_ok (m s).1 = true) →
  hoare (done_txn s0 tid) (_ ← m; f) (λ _, completed s0) E.
Proof.
  intros Hi Hu Hf Hfok Hm s Hs. apply done_txn_completed in Hs; [|done..].
  destruct (Hm s) as (Htm & Hd & Hok). unfold mbind, M_bind.
  destruct (m s) as [[[]|e] s1]; [|done]. cbn in Htm, Hd.
  destruct (Hf s1) as [_ Htm' Hd']. specialize (Hfok s1). destruct (f s1) as [[a|e] s2]; [|done].
  eapply completed_mono; [done|cbn in *; congruence|cbn in *; lia].
Qed.

Lemma respects_log_and_return {A} id (a : A) : respects passive (_ ← wal_committed id; mret a).
Proof. respects_all. Qed.

(** From the start of the transaction to its commit. *)
Lemma hoare_transaction {A} s0 purpose id names (body : Uuid → M A) E :
  Forall (.∈ MODALITIES) names → manager_inv (txn_manager s0) → unused s0 →
  (∀ e s, failed s0 e s → E e s) →
  (∀ tid, hoare (in_txn s0 tid) (body tid) (λ _, completed s0) E) →
  hoare (passive s0) (tid ← begin_txn; _ ← acquire_locks purpose tid id names; body tid)
    (λ _, completed s0) E.
Proof.
  intros Hn Hi Hu HE Hb. eapply hoare_bind; [by apply hoare_begin_txn|intros tid].
  eapply (hoare_bind _ _ _ (λ _, in_txn s0 tid)); [|intros []; apply Hb].
  eapply hoare_conseq; [by apply hoare_acquire_locks|done|done|]. intros e s Hd. apply HE. by apply (done_failed _ tid).
Qed.

Lemma modality_names_valid input : Forall (.∈ MODALITIES) (modality_names input).
Proof.
  unfold modality_names. destruct input as [[] [] [] [] [] [] [] ?]; cbn; repeat constructor;
    apply (bool_decide_unpack _); by vm_compute.
Qed.

Lemma populated_valid st : Forall (.∈ MODALITIES) (populated st).
Proof.
  apply (bool_decide_unpack _). destruct st as [[] [] [] [] [] [] [] []]; by vm_compute.
Qed.

Lemma create_completes input s0 :
  manager_inv (txn_manager s0) → unused s0 →
  hoare (passive s0) (create config input) (λ _, completed s0) (failed s0).
Proof.
  intros Hi Hu. unfold create, create_as, create_in_txn.
  eapply hoare_bind; [apply hoare_before; eauto with respects|intros uuid].
  eapply hoare_bind; [apply hoare_before; eauto with respects|intros now].
  eapply hoare_bind; [apply hoare_before; eauto with respects|intros []].
  apply hoare_transaction; [apply modality_names_valid|done..|]. intros tid.
  assert (∀ e s, done_err s0 tid e s → failed s0 e s) as Hdf by (intros e s; by apply done_failed).
  eapply hoare_bind; [eapply hoare_conseq; [apply hoare_write_modalities|done..]|intros w].
  { intros st. apply ends_txn_rollback_create. }
  eapply hoare_bind; [eapply hoare_conseq; [apply hoare_append_version|done..]|intros v].
  { apply ends_txn_rollback_create. }
  eapply hoare_bind; [apply hoare_commit_txn|intros []].
  by apply hoare_register; [..|apply respects_log_and_return| |].
Qed.

Lemma hoare_existing {A} id s0 (f : HexadStatus → M A) Q :
  manager_inv (txn_manager s0) →
  (∀ existing, hexads s0 !! id = Some existing → hoare (passive s0) (f existing) Q (failed s0)) →
  hoare (passive s0) (existing ← existing_status id; f existing) Q (failed s0).
Proof.
  intros Hi Hf s Hs. unfold existing_status, lookup_status, mbind, M_bind.
  destruct (hexads s !! id) as [existing|] eqn:Hl;
    [|split_and!; [by apply passive_completed|apply Hs|done]].
  apply Hf; [|done]. by rewrite <- (pa_hexads _ _ Hs).
Qed.

Lemma update_completes id input s0 :
  manager_inv (txn_manager s0) → unused s0 →
  hoare (passive s0) (update config id input) (λ _, completed s0) (failed s0).
Proof.
  intros Hi Hu. unfold update, update_in_txn. apply hoare_existing; [done|]. intros existing _.
  eapply hoare_bind; [apply hoare_before; eauto with respects|intros now].
  eapply hoare_bind; [apply hoare_before; eauto with respects|intros []].
  apply hoare_transaction; [apply modality_names_valid|done..|]. intros tid.
  assert (∀ e s, done_err s0 tid e s → failed s0 e s) as Hdf by (intros e s; by apply done_failed).
  eapply hoare_bind; [eapply hoare_conseq; [apply hoare_write_modalities|done..]|intros w].
  { intros st. apply ends_txn_rollback. }
  eapply hoare_bind; [eapply hoare_conseq; [apply hoare_append_version|done..]|intros v].
  { apply ends_txn_rollback. }
  eapply hoare_bind; [apply hoare_commit_txn|intros []].
  by apply hoare_register; [..|apply respects_log_and_return| |].
Qed.

Lemma hoare_for_each {A} s0 tid (f : A → M ()) l E :
  (∀ a, hoare (in_txn s0 tid) (f a) (λ _, in_txn s0 tid) E) →
  hoare (in_txn s0 tid) (for_each f l) (λ _, in_txn s0 tid) E.
Proof.
  intros Hf. induction l as [|a l IH]; [apply hoare_ret_same|].
  cbn [for_each]. by eapply hoare_bind; [apply Hf|intros []].
Qed.

Lemma delete_completes id s0 :
  manager_inv (txn_manager s0) → unused s0 →
  hoare (passive s0) (hexad_delete id) (λ _, completed s0) (failed s0).
Proof.
  intros Hi Hu. unfold hexad_delete, delete_in_txn. apply hoare_existing; [done|]. intros existing _.
  eapply hoare_bind; [apply hoare_before; eauto with respects|intros []].
  apply hoare_transaction; [apply populated_valid|done..|]. intros tid.
  eapply hoare_bind; [apply hoare_for_each; intros m; apply hoare_undo_entry|intros []].
  eapply (hoare_bind _ _ _ (λ _, in_txn s0 tid)); [|intros []].
  { intros s Hs. pose proof (passive_delete_modalities id s) as Hp.
    assert (is_ok (delete_modalities id s).1 = true) as Hok by done.
    destruct (delete_modalities id s) as [[[]|e] s']; [|done]. by eapply in_txn_passive. }
  eapply hoare_bind; [apply hoare_commit_txn|intros []].
  by apply hoare_register; [..|apply passive_wal_committed| |].
Qed.

(** An operation in one statement. *)
Lemma exec_op_completed op s :
  manager_inv (txn_manager s) → unused s →
  completed s (exec_op op s) ∧
  ∀ e, outcome op s = Err e → hexads (exec_op op s) = hexads s ∧ (idle s → calm e).
Proof.
  intros Hi Hu. destruct op as [input|id input|id]; cbn.
  - pose proof (create_completes input s Hi Hu s (reflexivity s)) as H.
    destruct (create config input s) as [[h|e] s']; [by split|].
    destruct H as [? H]. split; [done|]. by intros e' [= <-].
  - pose proof (update_completes id input s Hi Hu s (reflexivity s)) as H.
    destruct (update config id input s) as [[h|e] s']; [by split|].
    destruct H as [? H]. split; [done|]. by intros e' [= <-].
  - pose proof (delete_completes id s Hi Hu s (reflexivity s)) as H.
    destruct (hexad_delete id s) as [[h|e] s']; [by split|].
    destruct H as [? H]. split; [done|]. by intros e' [= <-].
Qed.

(** C2: Whatever an operation's outcome, it leaves the transaction manager sound and
    every other transaction and lock as it found them; its own transaction is over and
    holds nothing.  If it failed, the registry of entities is as before, and with no
    other transaction running it did not fail for a lock or a commit. *)
Theorem operation_completes op s :
  manager_inv (txn_manager s) → unused s →
  completed s (exec_op op s) ∧
  ∀ e, outcome op s = Err e →
    hexads (exec_op op s) = hexads s ∧ (idle s → calm e).
Proof. apply exec_op_completed. Qed.

(** *** Stores used only through their operations *)

Definition run_ops (ops : list hexad_op) s : HexadState := foldl (λ s op, exec_op op s) s ops.

Lemma idle_new o : idle (hexad_store_new o).
Proof. split; [apply manager_inv_new|done..]. Qed.

Lemma idle_unused s : Inj (=) (=) random_uuid → idle s → unused s.
Proof.
  intros Hinj Hid n Hn. apply eq_None_not_Some. intros [txn Hl].
  destruct (id_drawn _ Hid _ _ Hl) as (k & Heq & Hk). apply Hinj in Heq. lia.
Qed.

Lemma idle_exec op s : Inj (=) (=) random_uuid → idle s → idle (exec_op op s).
Proof.
  intros Hinj Hid. destruct (exec_op_completed op s) as [[Hi _ Hnew _ Hd] _];
    [apply Hid|by apply idle_unused|].
  split; [done| |]; intros u txn Hl; destruct (Hnew u txn Hl) as [Hold|[Ha (k & -> & Hk)]].
  - by apply (id_over _ Hid u).
  - done.
  - destruct (id_drawn _ Hid _ _ Hold) as (k & ? & ?). exists k. split; [done|lia].
  - exists k. split; [done|lia].
Qed.

Lemma idle_run ops s : Inj (=) (=) random_uuid → idle s → idle (run_ops ops s).
Proof. revert s. induction ops as [|op ops IH]; [done|]. intros s ? Hid. by apply IH, idle_exec. Qed.

Lemma idle_unlocked s id m : idle s → is_locked id m (txn_manager s) = false.
Proof.
  intros Hid. unfold is_locked, LockTable.is_locked.
  destruct (LockTable.locks _ !! _) as [hs|] eqn:Hl; [|done].
  destruct (mi_locks _ (id_inv _ Hid) _ _ Hl) as (Hne & Hnd & _).
  destruct hs as [|[u ty] hs]; [done|]. exfalso.
  assert (held u id m (lock_table (txn_manager s)) = Some ty) as Hh.
  { unfold held, abs_table. rewrite lookup_fmap, Hl. cbn [fmap option_fmap option_map default].
    apply abs_holders_lookup; [done|by left]. }
  rewrite held_None in Hh; [done|apply Hid|apply Hid].
Qed.

(** A store that starts empty and is used only through [create], [update] and
    [delete] is idle after any sequence of them, whichever failed: no transaction is
    active, no pair is locked, and the next operation cannot fail with a consistency
    violation. *)
Theorem store_idle_between_operations o ops op :
  Inj (=) (=) random_uuid →
  let s := run_ops ops (hexad_store_new o) in
  active_count (txn_manager s) = 0%nat ∧ (∀ id m, is_locked id m (txn_manager s) = false) ∧
  ∀ message, outcome op s ≠ Err (ConsistencyViolation message).
Proof.
  intros Hinj s. assert (idle s) as Hid by (apply idle_run; [done|apply idle_new]). split_and!.
  - unfold active_count. rewrite map_size_empty_iff. apply map_empty_filter. intros u txn Hl.
    apply (id_over _ Hid u txn Hl).
  - intros id m. by apply idle_unlocked.
  - intros message Ho. destruct (exec_op_completed op s) as [_ Hf];
      [apply Hid|by apply idle_unused|]. by destruct (Hf _ Ho) as [_ Hc]; apply (Hc Hid message).
Qed.

End txn.
