(* ===== verification/HexadView.v ===== *)
(** * What the hexad store shows

    What a reader sees of one entity, and what the operations do to it: an entity reads
    back as it was created or updated, a deleted one is gone, and no operation on one
    entity shows on another.  The modality stores are known by their laws alone
    ([Modality.v]). *)

From S2P Require Import Prelude Floats LockTable DeadlockDetector LockSpec Transaction TransactionSpec WalEntry WalLog Provenance Temporal Graph Modality HexadTypes HexadStore HexadLogic HexadTxn.
Local Open Scope Z_scope.

(** The stores keep their promises. *)
Class BackendLaws {CH : Chrono} (BK : Backends) := {
  bl_vector :: VectorLaws bk_vector;
  bl_document :: DocumentLaws bk_document;
  bl_tensor :: TensorLaws bk_tensor;
  bl_semantic :: SemanticLaws bk_semantic;
  bl_temporal :: TemporalLaws HexadSnapshot bk_temporal;
  bl_provenance :: ProvenanceLaws bk_provenance;
  bl_spatial :: SpatialLaws bk_spatial;
}.

Section view.
Context {CH : Chrono} {PL : Platform} {BK : Backends} {BL : BackendLaws BK} (config : HexadConfig).
Implicit Types (s : HexadState) (id : string) (o : Octad).

(** ** The view of an entity *)

Record view := {
  vw_vector : result string (option Embedding);
  vw_document : result string (option Document);
  vw_tensor : result string (option Tensor);
  vw_semantic : result string (option SemanticAnnotation);
  vw_spatial : result string (option SpatialData);
  vw_history : Z;
  vw_recent : result string (list (Version HexadSnapshot));
  vw_chain : Z;
}.

Definition show id o : view :=
  {| vw_vector := vs_get id (o_vector o); vw_document := ds_get id (o_document o);
     vw_tensor := ts_get id (o_tensor o); vw_semantic := ss_get_annotations id (o_semantic o);
     vw_spatial := ls_get id (o_spatial o);
     vw_history := count_or_zero length (rs_history id 1000 (o_temporal o));
     vw_recent := rs_history id 1 (o_temporal o);
     vw_chain := count_or_zero chain_len (ps_get_chain id (o_provenance o)) |}.

Definition put_vector r v : view :=
  {| vw_vector := r; vw_document := vw_document v; vw_tensor := vw_tensor v;
     vw_semantic := vw_semantic v; vw_spatial := vw_spatial v; vw_history := vw_history v;
     vw_recent := vw_recent v; vw_chain := vw_chain v |}.
Definition put_document r v : view :=
  {| vw_vector := vw_vector v; vw_document := r; vw_tensor := vw_tensor v;
     vw_semantic := vw_semantic v; vw_spatial := vw_spatial v; vw_history := vw_history v;
     vw_recent := vw_recent v; vw_chain := vw_chain v |}.
Definition put_tensor r v : view :=
  {| vw_vector := vw_vector v; vw_document := vw_document v; vw_tensor := r;
     vw_semantic := vw_semantic v; vw_spatial := vw_spatial v; vw_history := vw_history v;
     vw_recent := vw_recent v; vw_chain := vw_chain v |}.
Definition put_semantic r v : view :=
  {| vw_vector := vw_vector v; vw_document := vw_document v; vw_tensor := vw_tensor v;
     vw_semantic := r; vw_spatial := vw_spatial v; vw_history := vw_history v;
     vw_recent := vw_recent v; vw_chain := vw_chain v |}.
Definition put_spatial r v : view :=
  {| vw_vector := vw_vector v; vw_document := vw_document v; vw_tensor := vw_tensor v;
     vw_semantic := vw_semantic v; vw_spatial := r; vw_history := vw_history v;
     vw_recent := vw_recent v; vw_chain := vw_chain v |}.
Definition put_history n r v : view :=
  {| vw_vector := vw_vector v; vw_document := vw_document v; vw_tensor := vw_tensor v;
     vw_semantic := vw_semantic v; vw_spatial := vw_spatial v; vw_history := n;
     vw_recent := r; vw_chain := vw_chain v |}.
Definition put_chain n v : view :=
  {| vw_vector := vw_vector v; vw_document := vw_document v; vw_tensor := vw_tensor v;
     vw_semantic := vw_semantic v; vw_spatial := vw_spatial v; vw_history := vw_history v;
     vw_recent := vw_recent v; vw_chain := n |}.

(** [load_hexad] on a view. *)
Definition load_view id (status : HexadStatus) (v : view) : result HexadError (option Hexad) :=
  let has := hs_modality_status status in
  embedding ← if_present (ms_vector has) (modality_result "vector" (vw_vector v));
  document ← if_present (ms_document has) (modality_result "document" (vw_document v));
  tensor ← if_present (ms_tensor has) (modality_result "tensor" (vw_tensor v));
  semantic ← if_present (ms_semantic has) (modality_result "semantic" (vw_semantic v));
  spatial_data ← if_present (ms_spatial has) (modality_result "spatial" (vw_spatial v));
  Ok (Some {| h_id := id; h_status := status;
              h_graph_node := if ms_graph has then Some (GraphNode_new (to_iri (base_iri config) id)) else None;
              h_embedding := embedding; h_tensor := tensor; h_semantic := semantic;
              h_document := document; h_version_count := vw_history v;
              h_provenance_chain_length := if ms_provenance has then vw_chain v else 0;
              h_spatial_data := spatial_data |}).

Lemma load_hexad_view id s :
  load_hexad config id s = match hexads s !! id with
                           | None => Ok None
                           | Some status => load_view id status (show id (octad s))
                           end.
Proof. done. Qed.

(** ** Only the entity written to changes *)

Definition keeps id s s' : Prop :=
  ∀ id', id' ≠ id →
    hexads s' !! id' = hexads s !! id' ∧ show id' (octad s') = show id' (octad s).

#[export] Instance keeps_preorder id : PreOrder (keeps id).
Proof.
  split; [by intros s id'|]. intros s1 s2 s3 H1 H2 id' Hid.
  destruct (H1 id' Hid) as [<- <-]. by apply H2.
Qed.

(** A method that touches neither the registry nor the modality stores. *)
Definition silent s s' : Prop := hexads s' = hexads s ∧ octad s' = octad s.

#[export] Instance silent_preorder : PreOrder silent.
Proof.
  split; [by intros s|]. intros s1 s2 s3 [H1 H2] [H3 H4]. split; congruence.
Qed.

Lemma silent_keeps id {A} (m : M A) : respects silent m → respects (keeps id) m.
Proof. intros Hm s id' _. by destruct (Hm s) as [-> ->]. Qed.

Lemma silent_utc_now : respects silent utc_now.
Proof. by intros s. Qed.
Lemma silent_new_v4 : respects silent new_v4.
Proof. by intros s. Qed.
Lemma silent_instants : respects silent instants.
Proof. by intros s. Qed.
Lemma silent_on_txn {A} (f : TransactionManager → result TransactionError A * TransactionManager) :
  respects silent (on_txn f).
Proof. intros s. unfold on_txn. by destruct (f _). Qed.
Lemma silent_on_wal message f : respects silent (on_wal message f).
Proof. intros s. unfold on_wal. destruct (wal s); [|done]. by destruct (f _). Qed.
Lemma silent_lookup_status id : respects silent (lookup_status id).
Proof. by intros s. Qed.

#[local] Hint Resolve silent_utc_now silent_new_v4 silent_instants silent_on_txn silent_on_wal
  silent_lookup_status : respects.

Lemma silent_wal_append op md id payload : respects silent (wal_append op md id payload).
Proof. unfold wal_append. respects_all. Qed.
Lemma silent_wal_committed id : respects silent (wal_committed id).
Proof. unfold wal_committed, wal_append, wal_checkpoint. respects_all. Qed.
Lemma silent_begin_txn : respects silent begin_txn.
Proof. unfold begin_txn. respects_all. Qed.
Lemma silent_rollback_txn tid : respects silent (rollback_txn tid).
Proof. unfold rollback_txn. respects_all. Qed.
Lemma silent_undo_entry tid id v m : respects silent (undo_entry tid id v m).
Proof. unfold undo_entry. respects_all. Qed.
#[local] Hint Resolve silent_wal_append silent_wal_committed silent_begin_txn silent_rollback_txn
  silent_undo_entry : respects.
Lemma silent_acquire_locks purpose tid id names : respects silent (acquire_locks purpose tid id names).
Proof. induction names; cbn [acquire_locks]; respects_all. Qed.
Lemma silent_existing_status id : respects silent (existing_status id).
Proof. unfold existing_status. respects_all. Qed.
Lemma silent_commit_txn message on_error tid :
  respects silent on_error → respects silent (commit_txn message on_error tid).
Proof. intros He. unfold commit_txn. respects_all. Qed.
Lemma silent_create_snapshot id i st : respects silent (create_snapshot id i st).
Proof. unfold create_snapshot. respects_all. Qed.
#[local] Hint Resolve silent_acquire_locks silent_existing_status silent_create_snapshot : respects.

(** *** The writes of the modality stores *)

(** The state after a call that shows [put] at [id] when it succeeds. *)
Definition puts {A} id (put : view → view) (m : M A) : Prop :=
  ∀ s, hexads (m s).2 = hexads s ∧ ∀ id',
    show id' (octad (m s).2) =
      if decide (is_ok (m s).1 = true ∧ id' = id) then put (show id' (octad s)) else show id' (octad s).

Lemma puts_keeps {A} id put (m : M A) : puts id put m → respects (keeps id) m.
Proof.
  intros Hm s id' Hid. destruct (Hm s) as [-> Hs]. split; [done|].
  rewrite Hs, decide_False; [done|naive_solver].
Qed.

Ltac open_store E :=
  intros ?; unfold on_vector, on_document, on_tensor, on_semantic, on_spatial, on_temporal,
    on_provenance, on_store;
  match goal with |- context [let '(_, _) := ?x in _] => destruct x as [r ?] eqn:E end; cbn;
  split; [done|]; intros id'; unfold show; cbn.
Ltac close_store :=
  match goal with |- context [modality_result _ ?r] => destruct r end; cbn; by case_decide.

Lemma puts_upsert e : puts (emb_id e) (put_vector (Ok (Some e))) (on_vector (vs_upsert e)).
Proof. open_store E. rewrite (vs_upsert_get _ _ _ _ E). close_store. Qed.
Lemma puts_vector_delete id : puts id (put_vector (Ok None)) (on_vector (vs_delete id)).
Proof. open_store E. rewrite (vs_delete_get _ _ _ _ E). close_store. Qed.
Lemma puts_index d : puts (doc_id d) (put_document (Ok (Some d))) (on_document (ds_index d)).
Proof. open_store E. rewrite (ds_index_get _ _ _ _ E). close_store. Qed.
Lemma puts_document_commit id : puts id (λ v, v) (on_document ds_commit).
Proof. open_store E. rewrite (ds_commit_get _ _ _ E). close_store. Qed.
Lemma puts_document_delete id : puts id (put_document (Ok None)) (on_document (ds_delete id)).
Proof. open_store E. rewrite (ds_delete_get _ _ _ _ E). close_store. Qed.
Lemma puts_tensor t : puts (ten_id t) (put_tensor (Ok (Some t))) (on_tensor (ts_put t)).
Proof. open_store E. rewrite (ts_put_get _ _ _ _ E). close_store. Qed.
Lemma puts_tensor_delete id : puts id (put_tensor (Ok None)) (on_tensor (ts_delete id)).
Proof. open_store E. rewrite (ts_delete_get _ _ _ _ E). close_store. Qed.
Lemma puts_annotation a :
  puts (sa_entity_id a) (put_semantic (Ok (Some a))) (on_semantic (ss_annotate a)).
Proof. open_store E. rewrite (ss_annotate_get _ _ _ _ E). close_store. Qed.
Lemma puts_spatial id data : puts id (put_spatial (Ok (Some data))) (on_spatial (ls_index id data)).
Proof. open_store E. rewrite (ls_index_get _ _ _ _ _ E). close_store. Qed.
(** The graph is not part of the view. *)
Lemma puts_edge id e : puts id (λ v, v) (on_graph (g_insert e)).
Proof. intros s. unfold on_graph, on_store. destruct (g_insert _ _). by split; [|intros; case_decide]. Qed.

Lemma keeps_record_event now id ev who src d :
  respects (keeps id) (on_provenance (ps_record_event now id ev who src d)).
Proof.
  intros s id' Hid. unfold on_provenance, on_store. destruct (ps_record_event _ _ _ _ _ _ _) eqn:E.
  cbn. split; [done|]. unfold show. cbn. by rewrite (ps_record_event_get _ _ _ _ _ _ _ _ _ E).
Qed.
Lemma keeps_get_chain id i : respects (keeps id) (on_provenance (λ p, (ps_get_chain i p, p))).
Proof. by intros s id' Hid. Qed.
Lemma keeps_temporal_append now id data who msg :
  respects (keeps id) (on_temporal (rs_append now id data who msg)).
Proof.
  intros s id' Hid. unfold on_temporal, on_store. destruct (rs_append _ _ _ _ _ _) eqn:E.
  cbn. split; [done|]. unfold show. cbn.
  by rewrite !(rs_append_history _ _ _ _ _ _ _ _ E id') by done.
Qed.

#[local] Hint Extern 2 (respects (keeps _) _) => apply silent_keeps : respects.
#[local] Hint Extern 1 (respects (keeps ?i) (on_graph _)) => eapply (puts_keeps i), puts_edge : respects.
#[local] Hint Extern 1 (respects (keeps _) (on_vector (vs_upsert ?e))) =>
  exact (puts_keeps _ _ _ (puts_upsert e)) : respects.
#[local] Hint Extern 1 (respects (keeps ?i) (on_vector (vs_delete _))) =>
  exact (puts_keeps _ _ _ (puts_vector_delete i)) : respects.
#[local] Hint Extern 1 (respects (keeps _) (on_document (ds_delete ?i))) =>
  exact (puts_keeps _ _ _ (puts_document_delete i)) : respects.
#[local] Hint Extern 1 (respects (keeps ?i) (on_document ds_commit)) =>
  exact (puts_keeps _ _ _ (puts_document_commit i)) : respects.
#[local] Hint Extern 1 (respects (keeps _) (on_tensor (ts_delete ?i))) =>
  exact (puts_keeps _ _ _ (puts_tensor_delete i)) : respects.
#[local] Hint Extern 1 (respects (keeps _) (on_semantic (ss_annotate ?a))) =>
  exact (puts_keeps _ _ _ (puts_annotation a)) : respects.
#[local] Hint Extern 1 (respects (keeps _) (on_spatial _)) =>
  eapply puts_keeps, puts_spatial : respects.
#[local] Hint Resolve keeps_record_event keeps_get_chain keeps_temporal_append : respects.

Lemma doc_id_of id i : doc_id (document_of id i) = id.
Proof.
  unfold document_of. apply (map_fold_weak_ind (λ d _, doc_id d = id)); [done|]. by intros.
Qed.

Lemma Tensor_new_id id shape data t : Tensor_new id shape data = Ok t → ten_id t = id.
Proof. unfold Tensor_new. case_match; [done|]. by intros [= <-]. Qed.

Lemma keeps_process_graph id i : respects (keeps id) (process_graph config id i).
Proof. unfold process_graph. respects_all. Qed.
Lemma keeps_process_vector id i : respects (keeps id) (process_vector config id i).
Proof. unfold process_vector. respects_all. Qed.
Lemma keeps_process_document id i : respects (keeps id) (process_document id i).
Proof.
  unfold process_document. respects_all.
  pose proof (puts_keeps _ _ _ (puts_index (document_of id i))) as Hk. by rewrite doc_id_of in Hk.
Qed.
Lemma keeps_process_tensor id i : respects (keeps id) (process_tensor id i).
Proof.
  unfold process_tensor. destruct (Tensor_new _ _ _) as [t|e] eqn:Ht; cbn; respects_all.
  pose proof (puts_keeps _ _ _ (puts_tensor t)) as Hk. by rewrite (Tensor_new_id _ _ _ _ Ht) in Hk.
Qed.
Lemma keeps_process_semantic id i : respects (keeps id) (process_semantic id i).
Proof. unfold process_semantic. respects_all. Qed.
Lemma keeps_process_provenance id i : respects (keeps id) (process_provenance id i).
Proof. unfold process_provenance. respects_all. Qed.
Lemma keeps_process_spatial id i : respects (keeps id) (process_spatial id i).
Proof. unfold process_spatial. respects_all. Qed.
Lemma keeps_rollback_create id st : respects (keeps id) (rollback_create id st).
Proof. unfold rollback_create. respects_all. Qed.
Lemma keeps_delete_modalities id : respects (keeps id) (delete_modalities id).
Proof. unfold delete_modalities. respects_all. Qed.

#[local] Hint Resolve keeps_process_graph keeps_process_vector keeps_process_document
  keeps_process_tensor keeps_process_semantic keeps_process_provenance keeps_process_spatial
  keeps_rollback_create keeps_delete_modalities : respects.

Lemma keeps_insert_status id st : respects (keeps id) (insert_status id st).
Proof. intros s id' Hid. split; [|done]. cbn. by rewrite lookup_insert_ne. Qed.
Lemma keeps_remove_status id : respects (keeps id) (remove_status id).
Proof. intros s id' Hid. split; [|done]. cbn. by rewrite lookup_delete_ne. Qed.
#[local] Hint Resolve keeps_insert_status keeps_remove_status : respects.

Lemma keeps_write_modality {I A} on_error tid id v m mark (process : I → M A) input st :
  (∀ st, respects (keeps id) (on_error st)) → (∀ i, respects (keeps id) (process i)) →
  respects (keeps id) (write_modality on_error tid id v m mark process input st).
Proof. intros He Hp. unfold write_modality. respects_all. Qed.

Lemma keeps_write_modalities on_error tid id v input st :
  (∀ st, respects (keeps id) (on_error st)) →
  respects (keeps id) (write_modalities config on_error tid id v input st).
Proof.
  intros He. unfold write_modalities.
  do 7 (apply respects_bind; [typeclasses eauto|
    apply keeps_write_modality; eauto with respects|intros [? ?]]). respects_all.
Qed.

Lemma keeps_append_version on_error id input st message :
  respects (keeps id) on_error →
  respects (keeps id) (append_version on_error id input st message).
Proof. intros He. unfold append_version. respects_all. Qed.

Lemma keeps_commit_txn id message on_error tid :
  respects (keeps id) on_error → respects (keeps id) (commit_txn message on_error tid).
Proof. intros He. unfold commit_txn. respects_all. Qed.
Ltac keeps_all :=
  unfold create_modalities, update_modalities;
  repeat first [solve [eauto with respects] | respects_step
               | apply keeps_write_modalities; intros ? | apply keeps_append_version
               | apply keeps_commit_txn].

(** The identifier [create] gives. *)
Definition created_id s : string := uuid_to_string (random_uuid (hx_draws s)).

Definition op_entity (op : hexad_op) s : string :=
  match op with
  | OpCreate _ => created_id s
  | OpUpdate id _ | OpDelete id => id
  end.

Lemma create_drawn input s : create config input s = create_as config (created_id s) input (draw 1 s).
Proof. done. Qed.

Lemma keeps_create_as id input : respects (keeps id) (create_as config id input).
Proof. unfold create_as, create_in_txn. keeps_all. Qed.
Lemma keeps_update id input : respects (keeps id) (update config id input).
Proof. unfold update, update_in_txn. keeps_all. Qed.
Lemma keeps_delete id : respects (keeps id) (hexad_delete id).
Proof. unfold hexad_delete, delete_in_txn. keeps_all. Qed.

(** C5: An operation on one entity never shows on another, whatever its outcome: the
    status and everything [get] reads of every other entity are as before.  Of a
    [create] the entity is the one with the identifier it draws. *)
Theorem entities_are_isolated op s id :
  id ≠ op_entity op s →
  hexad_status id (exec_op config op s) = hexad_status id s ∧
  hexad_get config id (exec_op config op s) = hexad_get config id s.
Proof.
  intros Hid.
  assert (keeps (op_entity op s) s (exec_op config op s)) as Hk.
  { destruct op as [input|id' input|id']; [|apply keeps_update|apply keeps_delete].
    cbn [exec_op]. rewrite create_drawn. etrans; [|apply keeps_create_as]. by intros ?. }
  unfold hexad_status, hexad_get. rewrite !load_hexad_view. by destruct (Hk id Hid) as [-> ->].
Qed.

End view.

#[export] Hint Resolve silent_utc_now silent_new_v4 silent_instants silent_on_txn silent_on_wal
  silent_lookup_status silent_wal_append silent_wal_committed silent_begin_txn silent_rollback_txn
  silent_undo_entry silent_acquire_locks silent_existing_status silent_create_snapshot : respects.
