(* ===== verification/HexadRead.v ===== *)
(** * An entity reads back as it was written

    What [create], [update] and [delete] do to the view of their own entity when they
    succeed, and hence what [get] returns afterwards. *)

From S2P Require Import Prelude Floats LockTable DeadlockDetector LockSpec Transaction TransactionSpec WalEntry WalLog Provenance Temporal Graph Modality HexadTypes HexadStore HexadLogic HexadTxn HexadView.
Local Open Scope Z_scope.

Section read.
Context {CH : Chrono} {PL : Platform} {BK : Backends} {BL : BackendLaws BK} (config : HexadConfig).
Implicit Types (s : HexadState) (id : string) (V : view).

(** ** Steps that succeed *)

Lemma M_bind_Ok {A B} (m : M A) (f : A → M B) s b s' :
  (m ≫= f) s = (Ok b, s') → ∃ a s1, m s = (Ok a, s1) ∧ f a s1 = (Ok b, s').
Proof. unfold mbind, M_bind. destruct (m s) as [[a|e] s1]; [|done]. intros ?. by exists a, s1. Qed.

Lemma M_or_else_Ok {A} (m : M A) c s a s' : or_else m c s = (Ok a, s') → m s = (Ok a, s').
Proof. unfold or_else. by destruct (m s) as [[a'|e] s1]. Qed.

Lemma silent_Ok {A} (m : M A) s r s' :
  m s = (r, s') → respects silent m → hexads s' = hexads s ∧ octad s' = octad s.
Proof. intros Hm Hs. specialize (Hs s). by rewrite Hm in Hs. Qed.

Lemma puts_Ok {A} id put (m : M A) s a s' :
  puts id put m → m s = (Ok a, s') →
  hexads s' = hexads s ∧ show id (octad s') = put (show id (octad s)).
Proof.
  intros Hp Hm. destruct (Hp s) as [Hh Hs]. rewrite Hm in *. cbn in *. split; [done|].
  by rewrite Hs, decide_True.
Qed.

(** The call [m], then [mret b]. *)
Lemma puts_ret_Ok {A B} id put (m : M A) (b b' : B) s s' :
  puts id put m → (_ ← m; mret b) s = (Ok b', s') →
  b' = b ∧ hexads s' = hexads s ∧ show id (octad s') = put (show id (octad s)).
Proof. intros Hp (a & s1 & Hm & [= <- <-])%M_bind_Ok. split; [done|by eapply puts_Ok]. Qed.

(** ** The modality writes *)

(** [m] registers nothing and shows [put a]. *)
Definition shows {A} id (m : M A) (put : A → view → view) : Prop :=
  ∀ s a s', m s = (Ok a, s') → hexads s' = hexads s ∧ show id (octad s') = put a (show id (octad s)).

Lemma shows_process_graph id i :
  shows id (process_graph config id i) (λ _ V, V).
Proof.
  intros s a s' (u & s1 & Hm & [= <- <-])%M_bind_Ok. revert s u s1 Hm.
  induction (relationships i) as [|[p t] l IH]; cbn [for_each]; intros s u s1.
  - by intros [= <- <-].
  - intros (u1 & s2 & He & Hl)%M_bind_Ok.
    destruct (puts_Ok id _ _ _ _ _ (puts_edge id _) He) as [Hh Hs].
    destruct (IH _ _ _ Hl) as [Hh' Hs']. split; congruence.
Qed.

Lemma process_graph_node id i s a s' :
  process_graph config id i s = (Ok a, s') → a = GraphNode_new (to_iri (base_iri config) id).
Proof. by intros (u & s1 & Hm & [= <- <-])%M_bind_Ok. Qed.

Lemma shows_process_vector id i :
  shows id (process_vector config id i) (λ e, put_vector (Ok (Some e))).
Proof.
  intros s e s'. unfold process_vector. case_match; [done|].
  by intros (-> & ? & ?)%(puts_ret_Ok _ _ _ _ _ _ _ (puts_upsert (Embedding_new id _))).
Qed.

Lemma shows_process_document id i :
  shows id (process_document id i) (λ d, put_document (Ok (Some d))).
Proof.
  intros s d s'. unfold process_document. intros (u & s1 & Hi & Hc)%M_bind_Ok.
  apply (puts_Ok _ _ _ _ _ _ (puts_index _)) in Hi as [Hh Hs]. rewrite doc_id_of in Hs.
  apply (puts_ret_Ok _ _ _ _ _ _ _ (puts_document_commit id)) in Hc as (-> & -> & ->). by split.
Qed.

Lemma shows_process_tensor id i :
  shows id (process_tensor id i) (λ t, put_tensor (Ok (Some t))).
Proof.
  intros s t s'. unfold process_tensor. destruct (Tensor_new _ _ _) as [t'|e] eqn:Ht; cbn; [|done].
  intros (-> & ? & Hs)%(puts_ret_Ok _ _ _ _ _ _ _ (puts_tensor t')). split; [done|].
  by rewrite (Tensor_new_id _ _ _ _ Ht) in Hs.
Qed.

Lemma shows_process_semantic id i :
  shows id (process_semantic id i) (λ a, put_semantic (Ok (Some a))).
Proof.
  intros s a s'. unfold process_semantic. intros (now & s1 & [= <- <-] & Ha)%M_bind_Ok.
  apply (puts_ret_Ok _ _ _ _ _ _ _ (puts_annotation _)) in Ha as (-> & ? & ?). by split.
Qed.

Lemma shows_process_spatial id i :
  shows id (process_spatial id i) (λ d, put_spatial (Ok (Some d))).
Proof.
  intros s d s'. unfold process_spatial. case_match; [|done].
  intros (-> & ? & ?)%(puts_ret_Ok _ _ _ _ _ _ _ (puts_spatial id _)). by split.
Qed.

Lemma shows_process_provenance id i : shows id (process_provenance id i) put_chain.
Proof.
  intros s n s'. unfold process_provenance. intros (now & s1 & [= <- <-] & H)%M_bind_Ok.
  apply M_bind_Ok in H as (r & s2 & Hr & H). apply M_bind_Ok in H as (c & s3 & Hc & [= <- <-]).
  unfold on_provenance, on_store in *. destruct (ps_record_event _ _ _ _ _ _ _) as [r' p'].
  cbn in Hr. injection Hr as Hr <-. cbn in Hc.
  destruct (ps_get_chain id p') as [chain|] eqn:E; cbn in Hc; [|done].
  injection Hc as <- <-. split; [done|]. unfold show, put_chain. cbn. by rewrite E.
Qed.

(** One block: nothing without an input. *)
Definition block_ok {I A} (mark : ModalityStatus → ModalityStatus) (put : A → view → view)
    (input : option I) st V (a : option A) st' V' : Prop :=
  match input, a with
  | Some _, Some a => st' = mark st ∧ V' = put a V
  | None, None => st' = st ∧ V' = V
  | _, _ => False
  end.

Lemma write_modality_Ok {I A} on_error tid id v m mark (process : I → M A) put input st s a st' s' :
  (∀ i, shows id (process i) put) →
  write_modality on_error tid id v m mark process input st s = (Ok (a, st'), s') →
  hexads s' = hexads s ∧
  block_ok mark put input st (show id (octad s)) a st' (show id (octad s')).
Proof.
  intros Hp. unfold write_modality. destruct input as [i|]; [|by intros [= <- <- <-]].
  intros (x & s1 & Hx%M_or_else_Ok & H)%M_bind_Ok. apply M_bind_Ok in H as ([] & s2 & Hu & [= <- <- <-]).
  apply Hp in Hx as [Hh Hs]. destruct (silent_Ok _ _ _ _ Hu (silent_undo_entry _ _ _ _)) as [Hh' Ho].
  cbn. rewrite Ho, Hh'. by rewrite <- Hs.
Qed.

(** The seven blocks together. *)
Definition marks (input : HexadInput) (st : ModalityStatus) : ModalityStatus :=
  let has {A} (o : option A) := bool_decide (is_Some o) in
  {| ms_graph := has (hi_graph input) || ms_graph st;
     ms_vector := has (hi_vector input) || ms_vector st;
     ms_tensor := has (hi_tensor input) || ms_tensor st;
     ms_semantic := has (hi_semantic input) || ms_semantic st;
     ms_document := has (hi_document input) || ms_document st;
     ms_temporal := ms_temporal st;
     ms_provenance := has (hi_provenance input) || ms_provenance st;
     ms_spatial := has (hi_spatial input) || ms_spatial st |}.

Definition or_keep {A} (a : option A) (r : result string (option A)) : result string (option A) :=
  match a with Some a => Ok (Some a) | None => r end.

Definition written_view (input : HexadInput) (w : Written) V : view :=
  {| vw_vector := or_keep (wr_embedding w) (vw_vector V);
     vw_document := or_keep (wr_document w) (vw_document V);
     vw_tensor := or_keep (wr_tensor w) (vw_tensor V);
     vw_semantic := or_keep (wr_semantic w) (vw_semantic V);
     vw_spatial := or_keep (wr_spatial_data w) (vw_spatial V);
     vw_history := vw_history V; vw_recent := vw_recent V;
     vw_chain := if hi_provenance input is Some _ then wr_provenance_chain_length w else vw_chain V |}.

(** The values the blocks leave are there exactly for the inputs given. *)
Record fits id (input : HexadInput) (w : Written) : Prop := {
  ft_graph : wr_graph_node w =
    (λ _, GraphNode_new (to_iri (base_iri config) id)) <$> hi_graph input;
  ft_vector : is_Some (wr_embedding w) ↔ is_Some (hi_vector input);
  ft_document : is_Some (wr_document w) ↔ is_Some (hi_document input);
  ft_tensor : is_Some (wr_tensor w) ↔ is_Some (hi_tensor input);
  ft_semantic : is_Some (wr_semantic w) ↔ is_Some (hi_semantic input);
  ft_spatial : is_Some (wr_spatial_data w) ↔ is_Some (hi_spatial input);
  ft_provenance : hi_provenance input = None → wr_provenance_chain_length w = 0;
  ft_embedding_of : wr_embedding w = (λ i, Embedding_new id (hv_embedding i)) <$> hi_vector input;
  ft_document_of : wr_document w = document_of id <$> hi_document input;
}.

Lemma block_ok_inv {I A} mark put (input : option I) st V (a : option A) st' V' :
  block_ok mark put input st V a st' V' →
  st' = (if bool_decide (is_Some input) then mark st else st) ∧
  V' = (if a is Some a then put a V else V) ∧ (is_Some a ↔ is_Some input).
Proof.
  unfold block_ok. destruct input, a; try done; intros [-> ->]; split_and!; try done;
    by rewrite !is_Some_alt.
Qed.

Lemma write_modality_value {I A} (f : I → A) on_error tid id v m mark process input st s a st' s' :
  (∀ i s x s', process i s = (Ok x, s') → x = f i) →
  write_modality on_error tid id v m mark process input st s = (Ok (a, st'), s') → a = f <$> input.
Proof.
  intros Hf. unfold write_modality. destruct input as [i|]; [|by intros [= <- <- <-]].
  intros (x & s1 & Hx%M_or_else_Ok & H)%M_bind_Ok. apply M_bind_Ok in H as ([] & s2 & _ & [= <- <- <-]).
  by rewrite (Hf _ _ _ _ Hx).
Qed.

Lemma process_document_value id i s d s' : process_document id i s = (Ok d, s') → d = document_of id i.
Proof. intros (? & ? & _ & H)%M_bind_Ok. by apply M_bind_Ok in H as (? & ? & _ & [= <- <-]). Qed.

Lemma process_vector_value id i s e s' :
  process_vector config id i s = (Ok e, s') → e = Embedding_new id (hv_embedding i).
Proof. unfold process_vector. case_match; [done|]. by intros (? & ? & _ & [= <- <-])%M_bind_Ok. Qed.

Lemma write_modalities_values on_error tid id v input st s w s' :
  write_modalities config on_error tid id v input st s = (Ok w, s') →
  wr_graph_node w = (λ _, GraphNode_new (to_iri (base_iri config) id)) <$> hi_graph input ∧
  wr_embedding w = (λ i, Embedding_new id (hv_embedding i)) <$> hi_vector input ∧
  wr_document w = document_of id <$> hi_document input.
Proof.
  intros H. apply M_bind_Ok in H as ([? ?] & ? & Hg & H). apply M_bind_Ok in H as ([? ?] & ? & Hv & H).
  apply M_bind_Ok in H as ([? ?] & ? & Hd & H). do 4 apply M_bind_Ok in H as ([? ?] & ? & _ & H).
  injection H as <- _. cbn.
  apply (write_modality_value (λ _, GraphNode_new (to_iri (base_iri config) id))) in Hg as ->;
    [|intros ? ? ? ?; apply process_graph_node].
  apply (write_modality_value (λ i, Embedding_new id (hv_embedding i))) in Hv as ->;
    [|apply process_vector_value].
  by apply (write_modality_value (document_of id)) in Hd as ->; [|apply process_document_value].
Qed.

Ltac next_block H Hh Hb :=
  apply M_bind_Ok in H as ([? ?] & ? & Hb & H);
  let lem := match type of Hb with
             | context [process_vector] => constr:(shows_process_vector)
             | context [process_document] => constr:(shows_process_document)
             | context [process_tensor] => constr:(shows_process_tensor)
             | context [process_semantic] => constr:(shows_process_semantic)
             | context [process_provenance] => constr:(shows_process_provenance)
             | context [process_spatial] => constr:(shows_process_spatial)
             end in
  apply (write_modality_Ok _ _ _ _ _ _ _ _ _ _ _ _ _ _ (lem _)) in Hb as [Hh (-> & Hb & ?)%block_ok_inv].

Lemma write_modalities_Ok on_error tid id v input st s w s' :
  write_modalities config on_error tid id v input st s = (Ok w, s') →
  hexads s' = hexads s ∧ show id (octad s') = written_view input w (show id (octad s)) ∧
  wr_status w = marks input st ∧ fits id input w.
Proof.
  intros H. destruct (write_modalities_values _ _ _ _ _ _ _ _ _ H) as (Hgv & Hev & Hdv).
  apply M_bind_Ok in H as ([? ?] & ? & Hg & H).
  apply (write_modality_Ok _ _ _ _ _ _ _ _ _ _ _ _ _ _ (shows_process_graph _)) in Hg as [Hh0 (-> & Hb0 & _)%block_ok_inv].
  next_block H Hh1 Hb1. next_block H Hh2 Hb2. next_block H Hh3 Hb3. next_block H Hh4 Hb4.
  next_block H Hh5 Hb5. next_block H Hh6 Hb6. injection H as <- <-.
  split; [congruence|]. split_and!.
  - assert (show id (octad x) = show id (octad s)) as Hb by (rewrite Hb0; by destruct o).
    rewrite Hb6, Hb5, Hb4, Hb3, Hb2, Hb1, Hb. clear -H4. generalize (show id (octad s)). intros V.
    unfold written_view. cbn. destruct (hi_provenance input), o4; cbn;
      [|by destruct H4 as [_ []]|by destruct H4 as [[] _]|]; by destruct V, o0, o1, o2, o3, o5.
  - cbn. destruct st. unfold marks. cbn. repeat case_bool_decide; reflexivity.
  - split; try done. cbn. intros Hn. rewrite Hn in H4. destruct o4; [|done]. by destruct H4 as [[] _].
Qed.

(** ** The whole operations *)

Lemma append_version_Ok on_error id input st message s n s' :
  append_version on_error id input st message s = (Ok n, s') →
  hexads s' = hexads s ∧ ∃ count recent,
    show id (octad s') = put_history count recent (show id (octad s)) ∧
    (vw_recent (show id (octad s)) = Ok [] → count = 1).
Proof.
  unfold append_version. intros H. apply M_bind_Ok in H as (sn & s1 & Hs & H).
  apply (silent_Ok _ _ _ _) in Hs as [Hh Ho]; [|apply silent_create_snapshot].
  apply M_bind_Ok in H as (now & s2 & [= <- <-] & H%M_or_else_Ok).
  unfold on_temporal, on_store in H. cbn in H.
  destruct (rs_append _ _ _ _ _ _) as [[m|e] r] eqn:E; [|done]. cbn in H. injection H as <- <-.
  cbn. split; [done|]. do 2 eexists. unfold show, put_history. cbn. rewrite <- !Ho.
  split; [reflexivity|]. intros Hnil.
  by destruct (rs_append_first _ _ _ _ _ _ _ _ E Hnil 999) as (v & -> & _).
Qed.

Lemma commit_txn_Ok message on_error tid s r s' :
  commit_txn message on_error tid s = (Ok r, s') → hexads s' = hexads s ∧ octad s' = octad s.
Proof.
  unfold commit_txn. intros H. apply M_bind_Ok in H as (now & s1 & [= <- <-] & H).
  apply M_bind_Ok in H as (c & s2 & Hc & H).
  apply silent_Ok in Hc as [Hh Ho]; [|apply silent_on_txn].
  destruct c as [[]|e]; [injection H as <- <-; by split|]. by apply M_bind_Ok in H as (? & ? & _ & ?).
Qed.

Ltac silent_step H :=
  let Hs := fresh "Hs" in
  apply M_bind_Ok in H as (? & ? & Hs & H); apply silent_Ok in Hs as [? ?]; [|by eauto with respects].

(** From the modality writes on, an operation that succeeds registers a status whose
    flags are those of [w], and shows what [w] says. *)
Definition succeeded id (input : HexadInput) (st : ModalityStatus) s (h : Hexad) s' : Prop :=
  ∃ w count recent,
    fits id input w ∧ wr_status w = marks input st ∧
    h = hexad_of id (h_status h) w (h_version_count h) ∧
    hexads s' !! id = Some (h_status h) ∧
    show id (octad s') = put_history count recent (written_view input w (show id (octad s))) ∧
    (vw_recent (show id (octad s)) = Ok [] → count = 1).

(** The part [create] and [update] share, from the modality writes to the end. *)
Lemma write_and_register_Ok on_error on_error' on_error'' tid id v input st message message' version_count
    (status : Written → Z → HexadStatus) s h s' :
  (w ← write_modalities config on_error tid id v input st;
   n ← append_version (on_error' w) id input (wr_status w) message;
   _ ← commit_txn message' (on_error'' w) tid;
   _ ← insert_status id (status w n);
   _ ← wal_committed id;
   mret (hexad_of id (status w n) w (version_count n))) s = (Ok h, s') →
  succeeded id input st s h s' ∧
  ∃ w n, wr_status w = marks input st ∧ h_status h = status w n ∧
    h_version_count h = version_count n.
Proof.
  intros H. apply M_bind_Ok in H as (w & s5 & Hw & H).
  apply write_modalities_Ok in Hw as (Hh5 & Hs5 & Hst & Hfit).
  apply M_bind_Ok in H as (n & s6 & Hn & H).
  apply append_version_Ok in Hn as (Hh6 & count & recent & Hs6 & Hc).
  apply M_bind_Ok in H as ([] & s7 & Hcm & H). apply commit_txn_Ok in Hcm as (Hh7 & Ho7).
  apply M_bind_Ok in H as ([] & s8 & [= <-] & H). apply M_bind_Ok in H as ([] & s9 & Hc9 & [= <- <-]).
  apply silent_Ok in Hc9 as [Hh9 Ho9]; [|eauto with respects]. split; [|by exists w, n].
  exists w, count, recent. split_and!; [done|done|done| | |].
  - rewrite Hh9. cbn. by rewrite lookup_insert_eq.
  - rewrite Ho9. cbn. by rewrite Ho7, Hs6, Hs5.
  - by rewrite Hs5 in Hc.
Qed.

Lemma succeeded_from id input st s s1 h s' :
  octad s1 = octad s → succeeded id input st s1 h s' → succeeded id input st s h s'.
Proof. unfold succeeded. by intros ->. Qed.

Lemma create_as_Ok id input s h s' :
  create_as config id input s = (Ok h, s') →
  h_version_count h = 1 ∧
  hs_modality_status (h_status h) = mark_temporal (marks input ModalityStatus_default) ∧
  succeeded id input ModalityStatus_default s h s'.
Proof.
  unfold create_as, create_in_txn. intros H. do 4 silent_step H.
  apply (write_and_register_Ok _ (λ w, _) (λ w, _) _ _ _ _ _ _ _ (λ _, 1) (λ w n, {| hs_id := id |}))
    in H as (Hs' & w & n & Hw & -> & ->).
  split; [done|]. cbn. rewrite Hw. split; [done|]. eapply succeeded_from; [|done]. congruence.
Qed.

Lemma update_Ok id input s h s' :
  update config id input s = (Ok h, s') →
  ∃ existing, hexads s !! id = Some existing ∧
    hs_modality_status (h_status h) = marks input (hs_modality_status existing) ∧
    hs_created_at (h_status h) = hs_created_at existing ∧
    h_version_count h = hs_version (h_status h) ∧
    succeeded id input (hs_modality_status existing) s h s'.
Proof.
  unfold update, update_in_txn. intros H. apply M_bind_Ok in H as (existing & s1 & He & H).
  assert (hexads s !! id = Some existing ∧ s1 = s) as [Hex ->].
  { unfold existing_status in He. apply M_bind_Ok in He as (o & ? & [= <- <-] & He).
    destruct (hexads s !! id); [by injection He as <- <-|done]. }
  exists existing. split; [done|]. do 4 silent_step H.
  apply (write_and_register_Ok _ (λ w, _) (λ w, _) _ _ _ _ _ _ _ (λ n, n) (λ w n, {| hs_id := id |}))
    in H as (Hs' & w & n & Hw & -> & ->).
  cbn. rewrite Hw. split_and!; [done..|]. eapply succeeded_from; [|done]. congruence.
Qed.

(** ** Reading back *)

Lemma read_block {I A} modality (i : option I) (a : option A) r old :
  (is_Some a ↔ is_Some i) →
  if_present (bool_decide (is_Some i) || old) (modality_result modality (or_keep a r)) =
  if a is Some _ then Ok a else if_present old (modality_result modality r).
Proof.
  intros Hai. case_bool_decide as Hi.
  - apply Hai in Hi as [x ->]. done.
  - destruct a; [|done]. by destruct Hi; apply Hai.
Qed.

(** [get] after an operation that succeeded. *)
Lemma succeeded_get id input st s h s' :
  succeeded id input st s h s' →
  ∃ count, (vw_recent (show id (octad s)) = Ok [] → count = 1) ∧
  ∃ w recent, h = hexad_of id (h_status h) w (h_version_count h) ∧ fits id input w ∧
  hexad_get config id s' =
    load_view config id (h_status h) (put_history count recent (written_view input w (show id (octad s)))).
Proof.
  intros (w & count & recent & Hfit & _ & Hh & Hreg & Hs & Hc). exists count. split; [done|].
  exists w, recent. unfold hexad_get. by rewrite load_hexad_view, Hreg, Hs.
Qed.

(** What [create_as] returns is what [get] returns next. *)
Lemma created_get id input s h s' :
  rs_history id 1 (o_temporal (octad s)) = Ok [] → create_as config id input s = (Ok h, s') →
  h_id h = id ∧
  hs_modality_status (h_status h) = mark_temporal (marks input ModalityStatus_default) ∧
  h_document h = document_of id <$> hi_document input ∧
  hexad_get config id s' = Ok (Some h).
Proof.
  intros Hnil H.
  destruct (create_as_Ok _ _ _ _ _ H) as (Hv & Hst & Hs).
  destruct (succeeded_get _ _ _ _ _ _ Hs) as (count & Hc & w & recent & Hh & Hfit & Hg).
  rewrite (Hc Hnil) in Hg. clear Hc. rewrite Hv in Hh. clear H Hs Hv.
  destruct h as [hid hst hg he ht hm hd hv hc hl]. cbn in Hh, Hst, Hg. injection Hh as -> -> -> -> -> -> -> -> ->.
  split_and!; [done|done|apply Hfit|]. rewrite Hg. unfold load_view. cbn. rewrite Hst. cbn.
  destruct Hfit as [Hfg Hfv Hfd Hft Hfm Hfl Hfp _ _]. rewrite !read_block by done. cbn.
  destruct (hi_graph input), (hi_provenance input), (wr_embedding w), (wr_document w), (wr_tensor w),
    (wr_semantic w), (wr_spatial_data w); cbn in *; rewrite ?Hfg; try rewrite Hfp by done; done.
Qed.

(** C3: What [create] returns is what [get] returns next, in full: the identifier drawn,
    a status whose flags are exactly the modalities given and the temporal one, and the
    value each modality stored (for an identifier that has no history yet). *)
Theorem create_then_get input s h s' :
  rs_history (created_id s) 1 (o_temporal (octad s)) = Ok [] →
  create config input s = (Ok h, s') →
  h_id h = created_id s ∧
  hs_modality_status (h_status h) = mark_temporal (marks input ModalityStatus_default) ∧
  hexad_get config (created_id s) s' = Ok (Some h).
Proof.
  intros Hnil H. rewrite create_drawn in H.
  by destruct (created_get _ _ (draw 1 s) _ _ Hnil H) as (? & ? & _ & ?).
Qed.

(** What [get] shows after an update: the new values where the input gave one, the old
    ones elsewhere. *)
Definition overlay (input : HexadInput) (h h0 : Hexad) (count : Z) : Hexad :=
  let newer {A} (a b : option A) := if a is Some _ then a else b in
  {| h_id := h_id h; h_status := h_status h;
     h_graph_node := newer (h_graph_node h) (h_graph_node h0);
     h_embedding := newer (h_embedding h) (h_embedding h0);
     h_tensor := newer (h_tensor h) (h_tensor h0);
     h_semantic := newer (h_semantic h) (h_semantic h0);
     h_document := newer (h_document h) (h_document h0);
     h_version_count := count;
     h_provenance_chain_length :=
       if hi_provenance input is Some _ then h_provenance_chain_length h
       else h_provenance_chain_length h0;
     h_spatial_data := newer (h_spatial_data h) (h_spatial_data h0) |}.

Lemma load_view_Ok id st V h0 :
  load_view config id st V = Ok (Some h0) →
  let has := hs_modality_status st in
  h_status h0 = st ∧ h_id h0 = id ∧
  if_present (ms_vector has) (modality_result "vector" (vw_vector V)) = Ok (h_embedding h0) ∧
  if_present (ms_document has) (modality_result "document" (vw_document V)) = Ok (h_document h0) ∧
  if_present (ms_tensor has) (modality_result "tensor" (vw_tensor V)) = Ok (h_tensor h0) ∧
  if_present (ms_semantic has) (modality_result "semantic" (vw_semantic V)) = Ok (h_semantic h0) ∧
  if_present (ms_spatial has) (modality_result "spatial" (vw_spatial V)) = Ok (h_spatial_data h0) ∧
  h_graph_node h0 = (if ms_graph has then Some (GraphNode_new (to_iri (base_iri config) id)) else None) ∧
  h_provenance_chain_length h0 = (if ms_provenance has then vw_chain V else 0).
Proof.
  unfold load_view. intros H.
  apply result_bind_Ok in H as (e & He & H). apply result_bind_Ok in H as (d & Hd & H).
  apply result_bind_Ok in H as (t & Ht & H). apply result_bind_Ok in H as (m & Hm & H).
  apply result_bind_Ok in H as (l & Hl & H). injection H as <-. cbn. split_and!; done.
Qed.


(** ** Deleting *)

(** What [delete] leaves of the three modalities it deletes from, and of the others. *)
Definition deleted_view (vector_gone document_gone tensor_gone : bool) V : view :=
  let gone {A} (b : bool) (r : result string (option A)) := if b then Ok None else r in
  {| vw_vector := gone vector_gone (vw_vector V); vw_document := gone document_gone (vw_document V);
     vw_tensor := gone tensor_gone (vw_tensor V); vw_semantic := vw_semantic V;
     vw_spatial := vw_spatial V; vw_history := vw_history V; vw_recent := vw_recent V;
     vw_chain := vw_chain V |}.

Lemma puts_attempt {A} id put (m : M A) s :
  puts id put m →
  let s' := (attempt m s).2 in
  hexads s' = hexads s ∧
  show id (octad s') = if is_ok (m s).1 then put (show id (octad s)) else show id (octad s).
Proof.
  intros Hp. cbn. destruct (Hp s) as [Hh Hs]. split; [done|]. rewrite Hs.
  destruct (is_ok (m s).1); [by rewrite decide_True|by rewrite decide_False by naive_solver].
Qed.

Lemma is_ok_on_store {X A} get set name (f : X → result string A * X) s :
  is_ok (on_store get set name f s).1 = is_ok (f (get (octad s))).1.
Proof. unfold on_store. by destruct (f _) as [[]]. Qed.

Lemma delete_modalities_view id s s' r :
  delete_modalities id s = (r, s') →
  hexads s' = hexads s ∧
  show id (octad s') =
    deleted_view (is_ok (vs_delete id (o_vector (octad s))).1)
      (is_ok (ds_delete id (o_document (octad s))).1)
      (is_ok (ts_delete id (o_tensor (octad s))).1) (show id (octad s)).
Proof.
  intros H. change s' with (r, s').2. rewrite <- H. clear H r s'.
  unfold delete_modalities, mbind, M_bind. cbn [attempt].
  set (s1 := (on_vector (vs_delete id) s).2). set (s2 := (on_document (ds_delete id) s1).2).
  destruct (puts_attempt id _ _ s (puts_vector_delete id)) as [Hh1 Hv1].
  destruct (puts_attempt id _ _ s1 (puts_document_delete id)) as [Hh2 Hv2].
  destruct (puts_attempt id _ _ s2 (puts_tensor_delete id)) as [Hh3 Hv3].
  unfold attempt in *. cbn [snd] in *. fold s1 in Hh1, Hv1. fold s2 in Hh2, Hv2.
  split; [congruence|].
  assert (o_document (octad s1) = o_document (octad s)) as Hd.
  { unfold s1, on_vector, on_store. by destruct (vs_delete _ _). }
  assert (o_tensor (octad s2) = o_tensor (octad s)) as Ht.
  { unfold s2, s1, on_vector, on_document, on_store. destruct (vs_delete _ _). by destruct (ds_delete _ _). }
  rewrite Hv3, Hv2, Hv1. unfold on_vector, on_document, on_tensor. rewrite !is_ok_on_store, Hd, Ht.
  unfold deleted_view.
  do 3 match goal with |- context [if is_ok ?r then _ else _] => destruct (is_ok r) end; reflexivity.
Qed.

Lemma delete_Ok id s s' :
  hexad_delete id s = (Ok (), s') →
  is_Some (hexads s !! id) ∧ hexads s' !! id = None ∧
  show id (octad s') =
    deleted_view (is_ok (vs_delete id (o_vector (octad s))).1)
      (is_ok (ds_delete id (o_document (octad s))).1)
      (is_ok (ts_delete id (o_tensor (octad s))).1) (show id (octad s)).
Proof.
  unfold hexad_delete, delete_in_txn. intros H. apply M_bind_Ok in H as (existing & s1 & He & H).
  assert (is_Some (hexads s !! id) ∧ s1 = s) as [Hex ->].
  { unfold existing_status in He. apply M_bind_Ok in He as (o & ? & [= <- <-] & He).
    destruct (hexads s !! id); [by injection He as <- <-|done]. }
  split; [done|]. do 3 silent_step H. apply M_bind_Ok in H as ([] & s5 & Hu & H).
  apply silent_Ok in Hu as [Hh5 Ho5]; [|respects_all].
  apply M_bind_Ok in H as ([] & s6 & Hd & H). apply delete_modalities_view in Hd as [Hh6 Hs6].
  apply M_bind_Ok in H as ([] & s7 & Hc & H). apply commit_txn_Ok in Hc as [Hh7 Ho7].
  apply M_bind_Ok in H as ([] & s8 & [= <-] & H).
  apply silent_Ok in H as [Hh9 Ho9]; [|eauto with respects]. cbn in Hh9, Ho9.
  rewrite Hh9, lookup_delete_eq, Ho9, Ho7, Hs6. split; [done|]. by replace (octad s5) with (octad s) by congruence.
Qed.

(** A deletion that succeeds removes the entity from the registry, so [get] finds
    nothing, and what the vector, document and tensor stores agreed to delete; the
    version history, the provenance chain and the semantic and spatial data stay. *)
Theorem delete_then_get id s s' :
  hexad_delete id s = (Ok (), s') →
  is_Some (hexads s !! id) ∧
  hexad_status id s' = Ok None ∧ hexad_get config id s' = Ok None ∧
  show id (octad s') =
    deleted_view (is_ok (vs_delete id (o_vector (octad s))).1)
      (is_ok (ds_delete id (o_document (octad s))).1)
      (is_ok (ts_delete id (o_tensor (octad s))).1) (show id (octad s)).
Proof.
  intros (Hex & Hn & Hs)%delete_Ok. unfold hexad_status, hexad_get. by rewrite load_hexad_view, Hn.
Qed.

(** [update] and [delete] of an entity the registry does not know fail with
    [NotFound] and change nothing at all, the log and the transactions included. *)
Theorem unknown_entity id input s :
  hexads s !! id = None →
  update config id input s = (Err (HexadNotFound id), s) ∧
  hexad_delete id s = (Err (HexadNotFound id), s) ∧ hexad_get config id s = Ok None.
Proof.
  intros Hn. unfold update, hexad_delete, hexad_get, load_hexad, existing_status, lookup_status, mbind, M_bind.
  by rewrite Hn.
Qed.

End read.
