(* ===== verification/HexadWal.v ===== *)
(** * The hexad store writes ahead, and waits its turn

    An operation logs its intent before it writes anything, and its commit marker and a
    checkpoint only when it has succeeded; and its exclusive locks keep it away from an entity
    that another transaction works on. *)

From S2P Require Import Prelude Floats LockTable DeadlockDetector LockSpec Transaction TransactionSpec WalEntry WalLog Provenance Temporal Graph Modality HexadTypes HexadStore HexadLogic HexadTxn HexadView.
Local Open Scope Z_scope.

Section wal.
Context {CH : Chrono} {PL : Platform} {BK : Backends} (config : HexadConfig).
Implicit Types (s : HexadState) (id : string) (w : bk_wal).

(** ** Everything but the log leaves the log alone *)

Definition same_wal s s' : Prop := wal s' = wal s.

#[local] Instance same_wal_preorder : PreOrder same_wal.
Proof. split; [by intros s|]. intros s1 s2 s3 H1 H2. unfold same_wal in *. congruence. Qed.

Lemma same_wal_utc_now : respects same_wal utc_now.
Proof. by intros s. Qed.
Lemma same_wal_new_v4 : respects same_wal new_v4.
Proof. by intros s. Qed.
Lemma same_wal_insert_status id st : respects same_wal (insert_status id st).
Proof. by intros s. Qed.
Lemma same_wal_remove_status id : respects same_wal (remove_status id).
Proof. by intros s. Qed.
Lemma same_wal_on_txn {A} (f : TransactionManager → result TransactionError A * TransactionManager) :
  respects same_wal (on_txn f).
Proof. intros s. unfold on_txn. by destruct (f _). Qed.
Lemma same_wal_on_store {X A} get set name (f : X → result string A * X) :
  respects same_wal (on_store get set name f).
Proof. intros s. unfold on_store. by destruct (f _). Qed.
Lemma same_wal_begin_txn : respects same_wal begin_txn.
Proof. by intros s. Qed.

#[local] Hint Resolve same_wal_utc_now same_wal_new_v4 same_wal_on_txn same_wal_insert_status
  same_wal_remove_status same_wal_begin_txn : respects.
#[local] Hint Extern 1 (respects same_wal _) => apply same_wal_on_store : respects.

Lemma same_wal_rollback_txn tid : respects same_wal (rollback_txn tid).
Proof. unfold rollback_txn. respects_all. Qed.
Lemma same_wal_undo_entry tid id v m : respects same_wal (undo_entry tid id v m).
Proof. unfold undo_entry. respects_all. Qed.
#[local] Hint Resolve same_wal_rollback_txn same_wal_undo_entry : respects.
Lemma same_wal_acquire_locks purpose tid id names : respects same_wal (acquire_locks purpose tid id names).
Proof. induction names; cbn [acquire_locks]; respects_all. Qed.
Lemma same_wal_commit_txn message on_error tid :
  respects same_wal on_error → respects same_wal (commit_txn message on_error tid).
Proof. intros He. unfold commit_txn. respects_all. Qed.
Lemma same_wal_rollback_create id st : respects same_wal (rollback_create id st).
Proof. unfold rollback_create. respects_all. Qed.
Lemma same_wal_delete_modalities id : respects same_wal (delete_modalities id).
Proof. unfold delete_modalities. respects_all. Qed.
#[local] Hint Resolve same_wal_acquire_locks same_wal_rollback_create same_wal_delete_modalities : respects.

Lemma same_wal_write_modalities on_error tid id v input st :
  (∀ st, respects same_wal (on_error st)) →
  respects same_wal (write_modalities config on_error tid id v input st).
Proof.
  intros He. unfold write_modalities, write_modality, process_graph, process_vector, process_document,
    process_tensor, process_semantic, process_provenance, process_spatial.
  respects_all.
Qed.

Lemma same_wal_append_version on_error id input st message :
  respects same_wal on_error → respects same_wal (append_version on_error id input st message).
Proof. intros He. unfold append_version, create_snapshot. respects_all. Qed.

Ltac wal_all :=
  unfold create_modalities, update_modalities;
  repeat first [solve [eauto with respects] | respects_step
               | apply same_wal_write_modalities; intros ? | apply same_wal_append_version
               | apply same_wal_commit_txn].

(** ** What an operation logs *)

(** The intent, before anything else. *)
Definition op_intent (op : hexad_op) s (timestamp : DateTime) : WalEntry :=
  {| we_sequence := 0; we_timestamp := timestamp;
     we_operation := match op with
                     | OpCreate _ => WInsert | OpUpdate _ _ => WUpdate | OpDelete _ => WDelete
                     end;
     we_modality := MAll; we_entity_id := op_entity op s;
     we_payload := match op with
                   | OpCreate input | OpUpdate _ input => input_to_vec input
                   | OpDelete _ => []
                   end |}.

Definition commit_marker id (timestamp : DateTime) : WalEntry :=
  {| we_sequence := 0; we_timestamp := timestamp; we_operation := WCheckpoint; we_modality := MAll;
     we_entity_id := id; we_payload := as_bytes "COMMITTED" |}.

(** The marker and the checkpoint, whether they could be written or not. *)
Definition logs_commit id w w' : Prop :=
  ∃ t c t' c' , w' = (wl_checkpoint t' c' (wl_append c (commit_marker id t) w).2).2.

Lemma wal_committed_logs id s w :
  wal s = Some w →
  ∃ w', wal (wal_committed id s).2 = Some w' ∧ logs_commit id w w'.
Proof.
  intros Hw. unfold wal_committed, wal_append, wal_checkpoint, attempt, on_wal, mbind, M_bind.
  cbn. rewrite Hw.
  destruct (wl_append _ _ w) as [r1 w1] eqn:E1. cbn.
  destruct (wl_checkpoint _ _ w1) as [r2 w2] eqn:E2. cbn.
  apply (f_equal snd) in E1, E2. cbn in E1, E2. rewrite <- E1 in E2.
  eexists. split; [done|]. do 4 eexists. symmetry. exact E2.
Qed.

(** The rest of an operation, from the transaction on. *)
Lemma hoare_same_wal {A} (m : M A) w :
  respects same_wal m → hoare (λ s, wal s = Some w) m (λ _ s, wal s = Some w) (λ _ s, wal s = Some w).
Proof.
  intros Hm. eapply hoare_respects; [done|]. unfold same_wal. intros s s' ??. congruence.
Qed.

Lemma hoare_closed id w E :
  hoare (λ s, wal s = Some w) (wal_committed id)
    (λ _ s, ∃ w', wal s = Some w' ∧ logs_commit id w w') E.
Proof.
  intros s Hs. destruct (wal_committed_logs id s w Hs) as (w' & Hw & Hl).
  assert ((wal_committed id s).1 = Ok ()) as Hok by done.
  destruct (wal_committed id s) as [[[]|e] s1]; [|done]. by exists w'.
Qed.

Lemma hoare_wal_committed {A} id w (a : A) E :
  hoare (λ s, wal s = Some w) (_ ← wal_committed id; mret a)
    (λ _ s, ∃ w', wal s = Some w' ∧ logs_commit id w w') E.
Proof. eapply hoare_bind; [apply hoare_closed|intros []; apply hoare_ret_same]. Qed.

(** What the log says when the operation is over. *)
Definition logged id w1 (ok : bool) s : Prop :=
  if ok then ∃ w', wal s = Some w' ∧ logs_commit id w1 w' else wal s = Some w1.

(** What [m] has logged from [s0], with intent [op_intent op s0]. *)
Definition writes_ahead {A} (m : M A) (op : hexad_op) s0 w : Prop :=
  ∃ t c, let '(r, w1) := wl_append c (op_intent op s0 t) w in
  match r with
  | Err e => (m s0).1 = Err (ModalityError "wal" ("WAL append failed: " +:+ e)) ∧
             silent s0 (m s0).2 ∧ wal (m s0).2 = Some w1
  | Ok _ => logged (op_entity op s0) w1 (is_ok (m s0).1) (m s0).2
  end.

(** An operation as its intent and its rest. *)
Lemma intent_then_rest {A} (m rest : M A) op s0 s w operation id payload :
  m s0 = (_ ← wal_append operation MAll id payload; rest) s →
  silent s0 s → wal s = Some w → id = op_entity op s0 →
  (∀ t, {| we_sequence := 0; we_timestamp := t; we_operation := operation; we_modality := MAll;
           we_entity_id := id; we_payload := payload |} = op_intent op s0 t) →
  (∀ w1, hoare (λ s, wal s = Some w1) rest
     (λ _ s, ∃ w', wal s = Some w' ∧ logs_commit id w1 w') (λ _ s, wal s = Some w1)) →
  writes_ahead m op s0 w.
Proof.
  intros Hm [Hh Ho] Hw -> Hint Hrest. unfold writes_ahead. rewrite Hm. clear Hm.
  unfold wal_append, on_wal, mbind, M_bind. cbn. rewrite Hw.
  destruct (wl_append _ _ w) as [r w1] eqn:E. destruct r as [n|e]; cbn.
  - specialize (Hrest w1 (set_wal (Some w1) (draw 4 (draw 1 s))) eq_refl).
    destruct (rest _) as [[a|e] s']; do 2 eexists; rewrite <- Hint, E; done.
  - do 2 eexists. rewrite <- Hint, E. split_and!; [done| |done]. by split.
Qed.

Lemma rest_logs {A} id eid purpose names (body : Uuid → M A) w1 :
  (∀ tid, hoare (λ s, wal s = Some w1) (body tid)
     (λ _ s, ∃ w', wal s = Some w' ∧ logs_commit id w1 w') (λ _ s, wal s = Some w1)) →
  hoare (λ s, wal s = Some w1)
    (tid ← begin_txn; _ ← acquire_locks purpose tid eid names; body tid)
    (λ _ s, ∃ w', wal s = Some w' ∧ logs_commit id w1 w') (λ _ s, wal s = Some w1).
Proof.
  intros Hb. eapply hoare_bind; [apply hoare_same_wal; eauto with respects|intros tid].
  eapply (hoare_bind _ _ _ (λ _ s, wal s = Some w1)); [apply hoare_same_wal; eauto with respects|].
  intros []. apply Hb.
Qed.

Ltac same_wal_step := eapply hoare_bind; [apply hoare_same_wal; wal_all|intros ?].

(** C6: With a log, an operation on an entity it knows first appends its intent: the
    operation, the entity and the serialized input.  If that fails, the operation fails
    and neither the registry nor a store has changed.  Otherwise it appends nothing more
    when it fails, and the COMMITTED marker and a checkpoint when it succeeds. *)
Theorem write_ahead op s w :
  wal s = Some w →
  match op with OpCreate _ => True | OpUpdate id _ | OpDelete id => is_Some (hexads s !! id) end →
  ∃ t c, let '(r, w1) := wl_append c (op_intent op s t) w in
  match r with
  | Err e => outcome config op s = Err (ModalityError "wal" ("WAL append failed: " +:+ e)) ∧
             silent s (exec_op config op s) ∧ wal (exec_op config op s) = Some w1
  | Ok _ => logged (op_entity op s) w1 (is_ok (outcome config op s)) (exec_op config op s)
  end.
Proof.
  intros Hw Hknown.
  assert (∀ A (m : M A), writes_ahead m op s w →
    outcome config op s = (λ _, ()) <$> (m s).1 → exec_op config op s = (m s).2 →
    ∃ t c, let '(r, w1) := wl_append c (op_intent op s t) w in
    match r with
    | Err e => outcome config op s = Err (ModalityError "wal" ("WAL append failed: " +:+ e)) ∧
               silent s (exec_op config op s) ∧ wal (exec_op config op s) = Some w1
    | Ok _ => logged (op_entity op s) w1 (is_ok (outcome config op s)) (exec_op config op s)
    end) as Hgen.
  { intros A m (t & c & H) -> ->. exists t, c. destruct (wl_append _ _ w) as [[n|e] w1].
    - by destruct (m s).1.
    - by destruct H as (-> & ? & ?). }
  destruct op as [input|id input|id].
  - apply (Hgen _ (create config input)); [|done..].
    eapply (intent_then_rest _ (create_in_txn config (created_id s) (utc (hx_draws (draw 1 s))) input)
      _ s (draw 1 (draw 1 s))); [reflexivity|done..|].
    intros w1. apply rest_logs. intros tid. do 3 same_wal_step.
    same_wal_step. apply hoare_wal_committed.
  - destruct Hknown as [existing Hex].
    apply (Hgen _ (update config id input)); [|done..].
    eapply (intent_then_rest _ (update_in_txn config id existing (utc (hx_draws s)) input)
      _ s (draw 1 s)); [|done..|].
    { unfold update, existing_status, lookup_status, mbind, M_bind. by rewrite Hex. }
    intros w1. apply rest_logs. intros tid. do 3 same_wal_step.
    same_wal_step. apply hoare_wal_committed.
  - destruct Hknown as [existing Hex].
    apply (Hgen _ (hexad_delete id)); [|cbn [outcome]; by destruct (hexad_delete id s) as [[[]|e] s']|done].
    eapply (intent_then_rest _ (delete_in_txn id existing) _ s s); [|done..|].
    { unfold hexad_delete, existing_status, lookup_status, mbind, M_bind. by rewrite Hex. }
    intros w1. apply rest_logs. intros tid. do 4 same_wal_step.
    by apply hoare_closed.
Qed.

End wal.

(** ** A locked entity is left alone

    The exclusive locks of an operation keep it away from an entity on which any other
    transaction holds a lock. *)

Section locks.
Context {CH : Chrono} {PL : Platform} {BK : Backends} (config : HexadConfig).
Implicit Types (s : HexadState) (id : string).

(** An exclusive request is refused while another transaction holds the pair. *)
Lemma acquire_lock_held tid eid m u lty tm :
  manager_inv tm → u ≠ tid → held u eid m (lock_table tm) = Some lty →
  (acquire_lock tid eid m Exclusive tm).1 ≠ Ok ().
Proof.
  intros Hi Hne Hh. unfold acquire_lock. destruct (acquire_check _ _ _); [|done].
  unfold acquire_table.
  destruct (LockTable.acquire _ _ _ _ _) as [[[]|e] lt'] eqn:Ha; [|done].
  apply acquire_ok_inv in Ha as (Hc & _); [|apply Hi].
  destruct (Hc u lty Hh) as [?|Hcf]; [done|]. by destruct lty.
Qed.

Lemma acquire_locks_held s0 tid purpose id names m u lty :
  m ∈ names → u ≠ tid → held u id m (lock_table (txn_manager s0)) = Some lty →
  hoare (in_txn s0 tid) (acquire_locks purpose tid id names) (λ _ _, False) (λ _ _, True).
Proof.
  intros Hm Hne Hh. induction names as [|m' names IH]; [by apply elem_of_nil in Hm|].
  cbn [acquire_locks]. eapply (hoare_bind _ _ _ (λ r s, in_txn s0 tid s ∧ (m' = m → r ≠ Ok ()))).
  - intros s Hs.
    pose proof (hoare_on_txn s0 tid (λ _ _, False) (acquire_lock tid id m' Exclusive)) as Hon.
    specialize (Hon (λ tm Hk Hr, acquire_kept _ _ _ _ _ _ Hk Hr) s Hs).
    assert (m' = m → (acquire_lock tid id m' Exclusive (txn_manager s)).1 ≠ Ok ()) as Hno.
    { intros ->. destruct Hs as [[Hi _ Hheld] _ _ _].
      apply (acquire_lock_held _ _ _ u lty); [done|done|]. by rewrite Hheld. }
    revert Hon Hno. unfold on_txn. by destruct (acquire_lock _ _ _ _ _) as [r tm'].
  - intros [[]|e] s [Hs Hr].
    + apply elem_of_cons in Hm as [<-|Hm]; [by destruct Hr|]. by apply IH.
    + by destruct (rollback_txn tid s) as [[[]|e'] s'] eqn:E; unfold mbind, M_bind; rewrite E.
Qed.

Lemma hoare_silent {A} s0 (m : M A) P Q :
  respects silent m → hoare P m Q (λ _ _, True) →
  hoare (λ s, silent s0 s ∧ P s) m (λ a s, silent s0 s ∧ Q a s) (λ _, silent s0).
Proof.
  intros Hm Hp s [Hs HP]. specialize (Hm s). specialize (Hp s HP).
  destruct (m s) as [[a|e] s']; [split; [|done]|]; by etrans.
Qed.

Lemma hoare_silent_passive {A} s0 (m : M A) :
  respects silent m → respects passive m →
  hoare (λ s, silent s0 s ∧ passive s0 s) m (λ _ s, silent s0 s ∧ passive s0 s) (λ _, silent s0).
Proof.
  intros Hm Hp. apply hoare_silent; [done|].
  eapply hoare_conseq; [eapply (hoare_respects passive _ (passive s0)); [done|]|done..].
  intros s s' ??. by etrans.
Qed.

Lemma passive_existing_status id : respects passive (existing_status id).
Proof.
  unfold existing_status. apply respects_bind; [typeclasses eauto|by intros s|intros o].
  destruct o; respects_all.
Qed.
#[local] Hint Resolve passive_existing_status : respects.

(** The transaction of an operation stops at the locks. *)
Lemma transaction_held {A} s0 purpose id names m u lty (body : Uuid → M A) :
  manager_inv (txn_manager s0) → unused s0 → m ∈ names →
  held u id m (lock_table (txn_manager s0)) = Some lty →
  hoare (λ s, silent s0 s ∧ passive s0 s)
    (tid ← begin_txn; _ ← acquire_locks purpose tid id names; body tid)
    (λ _ _, False) (λ _, silent s0).
Proof.
  intros Hi Hu Hm Hh.
  eapply (hoare_bind _ _ _ (λ tid s, silent s0 s ∧ in_txn s0 tid s)).
  { apply hoare_silent; [eauto with respects|by apply hoare_begin_txn]. }
  intros tid. apply (hoare_bind _ _ _ (λ _ s, silent s0 s ∧ False)); [|by intros a s [_ []]].
  intros s [Hs Htx].
  assert (u ≠ tid) as Hne.
  { destruct Htx as [_ _ _ (k & -> & Hk)]. intros ->.
    apply (mk_is_Some _ _), (mi_held _ Hi) in Hh as (txn & Hl & _). rewrite Hu in Hl; [done|lia]. }
  refine (hoare_silent s0 _ (in_txn s0 tid) (λ _ _, False) _ _ s (conj Hs Htx)); [eauto with respects|].
  by eapply acquire_locks_held.
Qed.

(** The modalities an operation locks of an existing entity. *)
Definition locked_modalities (op : hexad_op) s : list string :=
  match op with
  | OpCreate input | OpUpdate _ input => modality_names input
  | OpDelete id => if hexads s !! id is Some st then populated (hs_modality_status st) else []
  end.

(** C17: While another transaction holds a lock, shared or exclusive, on one of the
    modalities an operation needs, the operation fails, and neither the registry nor any
    modality store has changed. *)
Theorem locked_entity_untouched op s m u lty :
  manager_inv (txn_manager s) → unused s →
  m ∈ locked_modalities op s →
  held u (op_entity op s) m (lock_table (txn_manager s)) = Some lty →
  is_ok (outcome config op s) = false ∧
  hexads (exec_op config op s) = hexads s ∧ octad (exec_op config op s) = octad s.
Proof.
  intros Hi Hu Hm Hh.
  assert (silent s s ∧ passive s s) as Hss by by split; reflexivity.
  destruct op as [input|id input|id]; cbn [op_entity locked_modalities outcome exec_op] in *.
  - assert (hoare (λ s', silent s s' ∧ passive s s') (create_as config (created_id s) input)
      (λ _ _, False) (λ _, silent s)) as Hc.
    { unfold create_as, create_in_txn. do 2 (eapply hoare_bind; [apply hoare_silent_passive; eauto with respects|intros ?]).
      by eapply transaction_held. }
    assert (silent s (draw 1 s) ∧ passive s (draw 1 s)) as Hd.
    { split; [done|]. split; cbn; [done..|lia]. }
    rewrite create_drawn. specialize (Hc _ Hd). by destruct (create_as config _ input (draw 1 s)) as [[h|e] s'].
  - assert (hoare (λ s', silent s s' ∧ passive s s') (update config id input)
      (λ _ _, False) (λ _, silent s)) as Hc.
    { unfold update, update_in_txn. do 3 (eapply hoare_bind; [apply hoare_silent_passive; eauto with respects|intros ?]).
      by eapply transaction_held. }
    specialize (Hc s Hss). by destruct (update config id input s) as [[h|e] s'].
  - destruct (hexads s !! id) as [st|] eqn:Hst; [|by apply elem_of_nil in Hm].
    assert (hoare (λ s', silent s s' ∧ passive s s') (hexad_delete id)
      (λ _ _, False) (λ _, silent s)) as Hc.
    { unfold hexad_delete. eapply (hoare_bind _ _ _ (λ ex s', ex = st ∧ silent s s' ∧ passive s s')).
      - intros s' [[Hh' Ho'] Hp]. unfold existing_status, lookup_status, mbind, M_bind.
        rewrite Hh', Hst. by split.
      - intros ex s' [-> Hs']. revert s' Hs'. change (hoare (λ s', silent s s' ∧ passive s s')
          (_ ← wal_append WDelete MAll id []; delete_in_txn id st) (λ _ _, False) (λ _, silent s)).
        unfold delete_in_txn.
        eapply hoare_bind; [apply hoare_silent_passive; eauto with respects|intros ?].
        by eapply transaction_held. }
    specialize (Hc s Hss). by destruct (hexad_delete id s) as [[h|e] s'].
Qed.

End locks.
