(* ===== verification/HexadExamples.v ===== *)
(** * The hexad store on concrete inputs

    A platform and a set of in-memory stores to run it with, the witnesses of the
    theorems on it, and the runs on which a failed operation leaves data behind; and the
    vector index on a few embeddings. *)

From S2P Require Import Prelude Floats LockTable DeadlockDetector LockSpec Transaction TransactionSpec TransactionProps WalEntry WalLog WalExamples Provenance Temporal Graph ProvenanceExamples Modality VectorSearch BinaryHeap Hnsw HnswSearch HnswSpec HnswStore HnswExact HexadTypes HexadStore HexadLogic HexadTxn HexadView HexadRead HexadWal.
From stdpp Require Import pretty.
From Stdlib Require Import SpecFloat.
Local Open Scope Z_scope.

(** ** The platform *)

#[local] Instance hx_chrono : Chrono := milli_chrono.
#[local] Instance hx_crc : Crc32fast := WalExamples.ieee_crc.
#[local] Instance hx_uuids : HashIter Uuid := elements_iter Uuid.
#[local] Instance hx_names : HashIter string := elements_iter string.
#[local] Instance hx_triples : HashIter TripleKey := elements_iter TripleKey.

(** A checksum for a digest, the serialized JSON of the provenance examples. *)
#[local] Instance hx_digest : Digest (CH := hx_chrono) :=
  {| sha256_hex := λ bs, pretty (WalExamples.ieee_crc32 bs);
     json_to_string := λ v, ProvenanceExamples.positive_string (encode (ProvenanceExamples.json_to_tree v));
     to_rfc3339 := (λ t : Z, pretty t : string) : DateTime (Chrono := hx_chrono) → string |}.

Definition ascii_lower (a : Ascii.ascii) : Ascii.ascii :=
  let n := Ascii.N_of_ascii a in
  if ((65 <=? n) && (n <=? 90))%N then Ascii.ascii_of_N (n + 32) else a.

Fixpoint lower (s : string) : string :=
  match s with
  | String.EmptyString => String.EmptyString
  | String.String a s => String.String (ascii_lower a) (lower s)
  end.

(** The [n]-th random identifier is the even number [2 n]: an odd one is a stranger's. *)
#[local] Instance hx_platform : Platform (CH := hx_chrono) :=
  {| pl_float := {| f64_to_string := λ x, if f64_is_nan x then "NaN" else "?" |};
     pl_digest := hx_digest;
     pl_regex := {| regex_is_match := λ p, Some (λ s, String.prefix p s) |};
     pl_uuids := hx_uuids; pl_names := hx_names;
     uuid_to_string := λ u, "id-" +:+ pretty u;
     to_lowercase := lower;
     input_to_vec := λ i, as_bytes (if hi_vector i is Some _ then "{vector}" else "{}");
     utc := (λ n, Z.of_nat n) : nat → DateTime (Chrono := hx_chrono);
     monotonic := Z.of_nat;
     random_uuid := λ n, N.double (N.of_nat n) |}.

(** An index that is the list of the documents' ids, and finds them all. *)
#[local] Instance hx_tantivy : Tantivy :=
  {| tv_index := list string;
     tv_delete_term := λ id l, filter (λ i, i ≠ id) l;
     tv_add_document := λ id _ _ l, (Ok (), l ++ [id]);
     tv_commit := λ l, (Ok (), l); tv_reload := λ l, (Ok (), l);
     tv_search := λ _ k l, Ok (take k l) |}.

(** [powi] of the squares the distances are made of. *)
#[local] Instance hx_powi : Powi32 := {| f32_powi := λ x _, f32_mul x x |}.

#[local] Instance hx_backends : Backends (CH := hx_chrono) :=
  {| bk_graph := SimpleGraphStore; bk_vector := BruteForceVectorStore;
     bk_document := TantivyDocumentStore; bk_tensor := gmap string Tensor;
     bk_semantic := InMemorySemanticStore;
     bk_temporal := gmap string (list (Z * Version HexadSnapshot));
     bk_provenance := gmap string ProvenanceChain; bk_spatial := gmap string SpatialData;
     bk_wal := WalWriter * directory |}.

#[local] Instance hx_laws : BackendLaws hx_backends.
Proof. split; apply _. Qed.

Definition hx_octad : Octad (BK := hx_backends) :=
  {| o_graph := graph_new; o_vector := {| bf_dimension := 2; bf_metric := DotProduct; bf_embeddings := ∅ |};
     o_document := {| td_index := [] : tv_index; td_documents := ∅ |}; o_tensor := (∅ : gmap string Tensor);
     o_semantic := {| sem_types := ∅; sem_annotations := ∅; sem_proofs := ∅ |};
     o_temporal := (∅ : gmap string (list (Z * Version HexadSnapshot)));
     o_provenance := (∅ : gmap string ProvenanceChain); o_spatial := (∅ : gmap string SpatialData) |}.

Definition hx_config : HexadConfig :=
  {| base_iri := "https://x.org"; vector_dimension := 2; require_complete := true |}.

(** An empty store with a log. *)
Definition hx_empty : HexadState := set_wal (Some (wal_open Fsync 0 None)) (hexad_store_new hx_octad).

Definition hx_input : HexadInput :=
  HexadBuilder.with_relationships [("knows", "id-0")]
    (HexadBuilder.with_embedding [f64_of_Z 1; f64_of_Z 2]
      (HexadBuilder.with_types ["T"]
        (HexadBuilder.with_provenance "Created" "alice" "first" HexadBuilder.new))).

(** The same, at a latitude that does not exist. *)
Definition hx_bad : HexadInput := HexadBuilder.with_spatial (f64_of_Z 100) (f64_of_Z 0) hx_input.

(** A store with one entity, and one where a stranger reads that entity's vector. *)
Definition hx_one : HexadState := exec_op hx_config (OpCreate hx_input) hx_empty.

Definition stranger : Uuid := 1%N.

Definition hold (u : Uuid) (id m : string) (ty : LockType) (s : HexadState) : HexadState :=
  let tm := (begin u (0 : DateTime (Chrono := hx_chrono)) Serializable (txn_manager s)).2 in
  set_txn_manager (acquire_lock u id m ty tm).2 s.

Definition hx_locked : HexadState := hold stranger "id-0" "vector" Shared hx_one.

Example create_succeeds : is_ok (create hx_config hx_input hx_empty).1 = true.
Proof. vm_compute. reflexivity. Qed.

Lemma hx_inj : Inj (=) (=) (random_uuid (Platform := hx_platform)).
Proof. intros n m. cbn. lia. Qed.

Lemma hx_empty_idle : idle hx_empty.
Proof. split; [apply manager_inv_new|done..]. Qed.

Lemma hx_one_idle : idle hx_one.
Proof. unfold hx_one. apply idle_exec; [exact hx_inj|exact hx_empty_idle]. Qed.

Lemma stranger_absent s :
  idle s → active_transactions (txn_manager s) !! stranger = None.
Proof.
  intros Hid. apply eq_None_not_Some. intros [txn Hl].
  destruct (id_drawn _ Hid _ _ Hl) as (k & Hk & _). cbn in Hk. unfold stranger in Hk. lia.
Qed.

Lemma hold_inv id m ty s : idle s → manager_inv (txn_manager (hold stranger id m ty s)).
Proof.
  intros Hid. unfold hold. cbn [txn_manager set_txn_manager]. apply manager_inv_acquire.
  apply manager_inv_begin; [by apply stranger_absent|exact (id_inv _ Hid)].
Qed.

Lemma hold_unused id m ty s : idle s → unused (hold stranger id m ty s).
Proof.
  intros Hid n Hn. pose proof (idle_unused s hx_inj Hid n Hn) as Hone.
  assert (random_uuid n ≠ stranger) as Hne by (cbn; unfold stranger; lia).
  pose proof (begin_running stranger (0 : DateTime (Chrono := hx_chrono)) (txn_manager s)
    (id_inv _ Hid) (stranger_absent s Hid)) as Hb.
  pose proof (exec_absent (CAcquireLock stranger id m ty)
    (begin stranger (0 : DateTime (Chrono := hx_chrono)) Serializable (txn_manager s)).2
    (random_uuid n)) as Hab.
  apply Hab; [|done]. cbn [begin snd set_active active_transactions Transaction_new tx_id].
  by rewrite lookup_insert_ne.
Qed.

(** ** Witnesses *)

Lemma operation_completes_witness :
  is_ok (outcome hx_config (OpUpdate "id-0" hx_bad) hx_one) = false ∧
  completed hx_one (exec_op hx_config (OpUpdate "id-0" hx_bad) hx_one).
Proof.
  split; [vm_compute; reflexivity|].
  exact (proj1 (operation_completes hx_config (OpUpdate "id-0" hx_bad) hx_one
    (id_inv _ hx_one_idle) (idle_unused _ hx_inj hx_one_idle))).
Defined.

Lemma store_idle_between_operations_witness :
  active_count (txn_manager (run_ops hx_config [OpCreate hx_input; OpUpdate "id-0" hx_bad; OpDelete "id-0"]
    (hexad_store_new hx_octad))) = 0%nat.
Proof.
  exact (proj1 (store_idle_between_operations hx_config hx_octad
    [OpCreate hx_input; OpUpdate "id-0" hx_bad; OpDelete "id-0"] (OpDelete "id-0") hx_inj)).
Defined.

Lemma entities_are_isolated_witness :
  is_ok (outcome hx_config (OpDelete "id-0") hx_one) = true ∧
  hexad_get hx_config "id-9" (exec_op hx_config (OpDelete "id-0") hx_one) =
    hexad_get hx_config "id-9" hx_one.
Proof.
  split; [vm_compute; reflexivity|].
  assert ("id-9" ≠ op_entity (OpDelete "id-0") hx_one) as Hne by done.
  exact (proj2 (entities_are_isolated hx_config (OpDelete "id-0") hx_one "id-9" Hne)).
Defined.

Lemma create_then_get_witness :
  match create hx_config hx_input hx_empty with
  | (Ok h, s') => hexad_get hx_config (created_id hx_empty) s' = Ok (Some h)
  | (Err _, _) => False
  end.
Proof.
  pose proof create_succeeds as Hok.
  destruct (create hx_config hx_input hx_empty) as [[h|e] s'] eqn:E; [|discriminate Hok].
  exact (proj2 (proj2 (create_then_get hx_config hx_input hx_empty h s' eq_refl E))).
Defined.

(** New types for the entity of [hx_one]. *)
Definition hx_update : HexadInput := HexadBuilder.with_types ["U"] HexadBuilder.new.


Lemma delete_then_get_witness :
  match hexad_delete "id-0" hx_one with
  | (Ok _, s') => hexad_get hx_config "id-0" s' = Ok None
  | (Err _, _) => False
  end.
Proof.
  assert (is_ok (hexad_delete "id-0" hx_one).1 = true) as Hok by (vm_compute; reflexivity).
  destruct (hexad_delete "id-0" hx_one) as [[[]|e] s'] eqn:E; [|discriminate Hok].
  exact (proj1 (proj2 (proj2 (delete_then_get hx_config "id-0" hx_one s' E)))).
Defined.

Lemma locked_entity_untouched_witness :
  is_ok (outcome hx_config (OpDelete "id-0") hx_locked) = false ∧
  octad (exec_op hx_config (OpDelete "id-0") hx_locked) = octad hx_locked.
Proof.
  assert (bool_decide ("vector" ∈ locked_modalities (OpDelete "id-0") hx_locked) = true) as Hm
    by (vm_compute; reflexivity).
  assert (held stranger "id-0" "vector" (lock_table (txn_manager hx_locked)) = Some Shared) as Hh
    by (vm_compute; reflexivity).
  destruct (locked_entity_untouched hx_config (OpDelete "id-0") hx_locked "vector" stranger Shared
    (hold_inv "id-0" "vector" Shared hx_one hx_one_idle)
    (hold_unused "id-0" "vector" Shared hx_one hx_one_idle)
    (proj1 (bool_decide_eq_true _) Hm) Hh) as (H1 & _ & H2).
  exact (conj H1 H2).
Defined.

Lemma write_ahead_witness :
  match wal hx_empty with
  | Some w =>
    ∃ t c, let '(r, w1) := wl_append c (op_intent (OpCreate hx_input) hx_empty t) w in
    is_ok r = true ∧
    logged "id-0" w1 true (exec_op hx_config (OpCreate hx_input) hx_empty)
  | None => False
  end.
Proof.
  destruct (wal hx_empty) as [w|] eqn:Hw; [|discriminate Hw].
  destruct (write_ahead hx_config (OpCreate hx_input) hx_empty w Hw I) as (t & c & H).
  exists t, c. assert (is_ok (outcome hx_config (OpCreate hx_input) hx_empty) = true) as Hok
    by (vm_compute; reflexivity).
  destruct (wl_append c _ w) as [[n|e] w1].
  - rewrite Hok in H. exact (conj eq_refl H).
  - destruct H as (H & _). rewrite H in Hok. discriminate Hok.
Defined.

(** ** What a failed or partial operation leaves behind *)

(** A [create] that fails at the spatial modality undoes its vector and nothing
    else: the edges, the semantic annotation and the provenance record it wrote stay,
    under an identifier the registry does not know. *)
Theorem failed_create_leaves_data :
  let '(r, s') := create hx_config hx_bad hx_empty in
  is_ok r = false ∧ hexads s' !! "id-0" = None ∧
  vs_get "id-0" (o_vector (octad s')) = Ok None ∧
  (length <$> g_outgoing (GraphNode_new (to_iri "https://x.org" "id-0")) (o_graph (octad s'))) = Ok 1%nat ∧
  match ss_get_annotations "id-0" (o_semantic (octad s')) with
  | Ok (Some a) => sa_types a = ["T"]
  | _ => False
  end ∧
  (chain_len <$> ps_get_chain "id-0" (o_provenance (octad s'))) = Ok 1%nat.
Proof. vm_compute. split_and!; reflexivity. Qed.

(** An [update] that fails at the spatial modality undoes nothing: the entity keeps
    its version, and [get] shows the values the failed update wrote. *)
Theorem failed_update_leaves_data :
  let input := HexadBuilder.with_spatial (f64_of_Z 100) (f64_of_Z 0)
                 (HexadBuilder.with_embedding [f64_of_Z 7; f64_of_Z 7] HexadBuilder.new) in
  let '(r, s') := update hx_config "id-0" input hx_one in
  is_ok r = false ∧
  (hs_version <$> hexads s' !! "id-0") = (hs_version <$> hexads hx_one !! "id-0") ∧
  match hexad_get hx_config "id-0" s' with
  | Ok (Some h) => (emb_vector <$> h_embedding h) = Some [f64_of_Z 7; f64_of_Z 7]
  | _ => False
  end.
Proof. vm_compute. split_and!; reflexivity. Qed.

(** With a base IRI that ends in a slash, an edge to an entity points past the node of
    that entity. *)
Example trailing_slash_splits_nodes :
  let config := {| base_iri := "https://x.org/"; vector_dimension := 2; require_complete := false |} in
  let s' := (process_graph config "a" {| relationships := [("knows", "b")] |} hx_empty).2 in
  (length <$> incoming (GraphNode_new (to_iri "https://x.org/" "b")) (o_graph (octad s'))) = Ok 0%nat ∧
  (length <$> incoming (GraphNode_new "https://x.org//b") (o_graph (octad s'))) = Ok 1%nat.
Proof. vm_compute. split; reflexivity. Qed.

(** ** The vector index on concrete inputs

    An index of three points of the plane, and one that is cleared and filled again. *)

Local Open Scope nat_scope.

(** Squares for powers, a logarithm that is right to the power of two below, and a hash that
    spreads what it counts. *)
#[local] Instance ix_powi : Powi32 := {| f32_powi := λ x _, f32_mul x x |}.
#[local] Instance ix_ln : Ln :=
  {| f64_ln := λ x, match x with
                    | S754_finite false m e => f64_mul (f64_of_Z (Z.log2 (Zpos m) + e)) (f64_literal 693147 6)
                    | S754_zero _ => S754_infinity true
                    | _ => S754_nan
                    end |}.
#[local] Instance ix_hash : DefaultHasher :=
  {| hash_of := λ id count, ((Z.of_nat (String.length id) + count * 7 + 1) * 2 ^ 59) `mod` 2 ^ 64 |}%Z.

Definition point (id : string) (x y : Z) : Embedding := Embedding_new id [f32_of_Z x; f32_of_Z y].

Definition three_points : list (Z * Embedding) :=
  [(0%Z, point "a" 0 0); (1%Z, point "b" 4 0); (2%Z, point "c" 1 1)].

Definition plane : HnswVectorStore := with_defaults 2 Euclidean.

Definition three_index : option HnswVectorStore := run_index (upserts three_points) plane.

(** Levels vary. *)
Example levels : (λ ce, assign_level (emb_id ce.2) ce.1 16) <$> three_points = [1; 0; 0].
Proof. vm_compute. reflexivity. Qed.

Definition origin : list f32 := [f32_of_Z 0; f32_of_Z 0].

(** What is known of a store that a run ends in, by evaluating the run. *)
Lemma known_of_run {A : Type} (o : option A) (s : A) (check : A → bool) :
  o = Some s → match o with Some s => check s | None => false end = true → check s = true.
Proof. by intros ->. Qed.

Definition ids_are (o : option (result VectorError (list SearchResult))) (ids : list string) : bool :=
  match o with Some (Ok rs) => bool_decide (re_id <$> rs = ids) | _ => false end.

Lemma search_is_local_optimum_witness :
  ∃ s rs, three_index = Some s ∧ hnsw_search origin 2 s = Some (Ok rs) ∧ re_id <$> rs = ["a"; "c"] ∧
    NoDup (re_id <$> rs) ∧ StronglySorted (smaller (λ r, distance_of s origin (re_id r))) rs.
Proof.
  destruct (run_index_ok (upserts three_points) plane (new_ok 2 Euclidean HnswConfig_default))
    as (s & Hs & Hok & (_ & Hd & Hm) & _). cbn in Hd, Hm.
  pose proof (search_is_local_optimum s origin 2 Hok) as H. rewrite decide_True in H by (by rewrite Hd).
  destruct H as (rs & Hrs & _ & Hnd & _ & Hopt). exists s, rs. split; [exact Hs|]. split; [exact Hrs|].
  split; [|split; [exact Hnd|]].
  - pose proof (known_of_run _ s (λ s, ids_are (hnsw_search origin 2 s) ["a"; "c"]) Hs) as H.
    cbv beta in H. rewrite Hrs in H. apply (bool_decide_eq_true_1 _). apply H. vm_compute. reflexivity.
  - apply Hopt. unfold measurable.
    pose proof (known_of_run _ s (λ s, bool_decide (Forall (λ n,
      f64_is_nan (distance (hn_metric s) origin (nd_vector n)) = false) (hg_nodes (hn_graph s)))) Hs) as H.
    apply Forall_forall. apply (bool_decide_eq_true_1 _). apply H. vm_compute. reflexivity.
Defined.

Lemma small_index_exact_witness :
  ∃ s rs, three_index = Some s ∧ hnsw_search origin 2 s = Some (Ok rs) ∧
    top_k (smaller (distance_in Euclidean origin (upserted three_points))) 2
      (scored_entries Euclidean origin (upserted three_points)) rs.
Proof.
  apply (small_index_exact 2 Euclidean HnswConfig_default three_points origin 2).
  - repeat constructor.
  - reflexivity.
  - apply (bool_decide_eq_true_1 _). vm_compute. reflexivity.
  - apply (bool_decide_eq_true_1 _). vm_compute. reflexivity.
  - apply (bool_decide_eq_true_1 _). vm_compute. reflexivity.
  - apply (bool_decide_eq_true_1 (map_Forall (λ _ e,
      f64_is_nan (distance Euclidean origin (emb_vector e)) = false) (upserted three_points))).
    vm_compute. reflexivity.
Defined.

Lemma small_index_is_brute_force_witness :
  let HI := elements_iter string in
  let query := [f32_of_Z 1; f32_of_Z 2] in
  let v := {| bf_dimension := 2; bf_metric := DotProduct; bf_embeddings := upserted three_points |} in
  ∃ s rs rs', run_index (upserts three_points) (with_defaults 2 DotProduct) = Some s ∧
    hnsw_search query 2 s = Some (Ok rs) ∧ brute_force_search query 2 v = Ok rs' ∧
    top_k (larger re_score) 2 (scored query v) rs ∧ top_k (larger re_score) 2 (scored query v) rs'.
Proof.
  intros HI query v. apply (small_index_is_brute_force (HI := HI) 2 HnswConfig_default three_points query 2).
  - repeat constructor.
  - reflexivity.
  - apply (bool_decide_eq_true_1 _). vm_compute. reflexivity.
  - apply (bool_decide_eq_true_1 _). vm_compute. reflexivity.
  - apply (bool_decide_eq_true_1 _). vm_compute. reflexivity.
  - apply (bool_decide_eq_true_1 (map_Forall (λ _ e,
      f64_is_nan (dot query (emb_vector e)) = false) (upserted three_points))).
    vm_compute. reflexivity.
Defined.

(** ** Cleared and filled again *)

Definition clearing : list IndexOp := [IxUpsert 0 (point "a" 0 0); IxDelete "a"].
Definition refilling : list (Z * Embedding) := [(1%Z, point "b" 4 0); (2%Z, point "c" 1 1)].

Lemma cleared_index_forgets_witness :
  ∃ s s', run_index clearing plane = Some s ∧ run_index (upserts refilling) s = Some s' ∧
    hnsw_get "b" s' = Some (Ok (Some (point "b" 4 0))) ∧ hnsw_search [f32_of_Z 4; f32_of_Z 0] 10 s' = Some (Ok []).
Proof.
  destruct (run_index_ok clearing plane (new_ok 2 Euclidean HnswConfig_default)) as (s & Hs & Hok & (Hc & Hd & _) & Hst).
  cbn in Hc, Hd. destruct (cleared_index_forgets s refilling) as (s' & Hs' & Hget & Hsearch).
  - exact Hok.
  - intros Hnil. pose proof (known_of_run _ s (λ s, bool_decide (hg_nodes (hn_graph s) ≠ [])) Hs) as H.
    apply (bool_decide_eq_true_1 (hg_nodes (hn_graph s) ≠ [])); [|exact Hnil]. apply H. vm_compute. reflexivity.
  - rewrite Hst. vm_compute. reflexivity.
  - apply (bool_decide_eq_true_1 _). vm_compute. reflexivity.
  - rewrite Hd, Hc. pose proof (known_of_run _ s (λ s, bool_decide (Forall (λ ce,
      length (emb_vector ce.2) = 2 ∧ hg_id_map (hn_graph s) !! emb_id ce.2 = None ∧
      assign_level (emb_id ce.2) ce.1 (max_connections HnswConfig_default) ≤ hg_current_max_level (hn_graph s)) refilling)) Hs) as H.
    assert (Forall (λ ce,
      length (emb_vector ce.2) = 2 ∧ hg_id_map (hn_graph s) !! emb_id ce.2 = None ∧
      assign_level (emb_id ce.2) ce.1 (max_connections HnswConfig_default) ≤ hg_current_max_level (hn_graph s)) refilling) as H'.
    { apply (bool_decide_eq_true_1 _). apply H. vm_compute. reflexivity. }
    apply (Forall_impl _ _ _ H'). intros [c e] Hce. exact Hce.
  - exists s, s'. split; [exact Hs|]. split; [exact Hs'|]. split.
    + apply (Hget (point "b" 4 0)). left.
    + apply Hsearch. by rewrite Hd.
Defined.

(** ** The hexad store over the index

    What the hexad store asks of a vector store the index gives: the laws hold, and an entity
    is found by its embedding. *)

#[local] Existing Instance hx_chrono.
#[local] Existing Instance hx_crc.
#[local] Existing Instance hx_uuids.
#[local] Existing Instance hx_names.
#[local] Existing Instance hx_triples.
#[local] Existing Instance hx_digest.
#[local] Existing Instance hx_platform.
#[local] Existing Instance hx_tantivy.

#[local] Instance ix_backends : Backends (CH := hx_chrono) :=
  {| bk_graph := SimpleGraphStore; bk_vector := Index;
     bk_document := TantivyDocumentStore; bk_tensor := gmap string Tensor;
     bk_semantic := InMemorySemanticStore;
     bk_temporal := gmap string (list (Z * Version HexadSnapshot));
     bk_provenance := gmap string ProvenanceChain; bk_spatial := gmap string SpatialData;
     bk_wal := WalWriter * directory |}.

Lemma ix_laws : BackendLaws ix_backends.
Proof. split; apply _. Qed.

Definition ix_octad : Octad (BK := ix_backends) :=
  {| o_graph := graph_new; o_vector := index_new 2 DotProduct HnswConfig_default;
     o_document := {| td_index := [] : tv_index; td_documents := ∅ |}; o_tensor := (∅ : gmap string Tensor);
     o_semantic := {| sem_types := ∅; sem_annotations := ∅; sem_proofs := ∅ |};
     o_temporal := (∅ : gmap string (list (Z * Version HexadSnapshot)));
     o_provenance := (∅ : gmap string ProvenanceChain); o_spatial := (∅ : gmap string SpatialData) |}.

Definition at_point (x y : Z) : HexadInput :=
  HexadBuilder.with_embedding [f32_of_Z x; f32_of_Z y] HexadBuilder.new.

Definition ix_two : HexadState :=
  exec_op hx_config (OpCreate (at_point 1 3))
    (exec_op hx_config (OpCreate (at_point 3 1)) (hexad_store_new ix_octad)).

Definition ids_found (query : list f32) (s : HexadState (BK := ix_backends)) : list string :=
  match search_similar hx_config query 1 s with Ok hs => map h_id hs | Err _ => [] end.

(** The platform of [HexadExamples.v] draws the even numbers in turn, for entities as for
    transactions and actors. *)
Example index_finds_entities :
  ids_found [f32_of_Z 1; f32_of_Z 0] ix_two = ["id-0"] ∧ ids_found [f32_of_Z 0; f32_of_Z 1] ix_two = ["id-46"].
Proof. vm_compute. split; reflexivity. Qed.
