(* ===== verification/Circuit.v ===== *)
(** * Circuits

    Models [src/rust-core/verisim-semantic/src/circuit_compiler.rs] (circuit definitions
    compiled to R1CS constraints) and
    [src/rust-core/verisim-semantic/src/circuit_registry.rs] (their verification against
    a witness, and the registry).  Floats are the standard library's [spec_float] at
    binary64; the JSON that is hashed is [serde_json]'s, a parameter. *)

From S2P Require Import Prelude Floats.
From stdpp Require Import pretty.
From Stdlib Require Import SpecFloat NArith.
From Stdlib Require Import Strings.Byte.
From Stdlib Require String.

(** [1e-10] *)
Definition tolerance : f64 := f64_literal 1 10.

(** ** Errors *)

Inductive CircuitError :=
| CircuitNotFound (name : string)
| AlreadyExists (name : string)
| CompilationFailed (message : string)
| VerificationFailed (message : string)
| InvalidWitness (message : string)
| CircuitLockPoisoned.

Definition circuit_error_to_string (e : CircuitError) : string :=
  match e with
  | CircuitNotFound name => "Circuit not found: " +:+ name
  | AlreadyExists name => "Circuit already registered: " +:+ name
  | CompilationFailed message => "Compilation failed: " +:+ message
  | VerificationFailed message => "Verification failed: " +:+ message
  | InvalidWitness message => "Invalid witness: " +:+ message
  | CircuitLockPoisoned => "Lock poisoned"
  end.

(** An error that is returned, or a panic: [gate.inputs[1]] of too short a list. *)
Inductive Failure :=
| Returned (e : CircuitError)
| Panicked.

(** ** Data *)

Inductive GateType := And | Or | Xor | Not | LinearCombination.

(** A linear combination of wires: coefficients by wire index. *)
Abbreviation linear := (gmap N f64).

Record R1CSConstraint := { rc_a : linear; rc_b : linear; rc_c : linear }.

Record CircuitIR := {
  ir_name : string;
  ir_num_public_inputs : nat;
  ir_num_witness_wires : nat;
  ir_num_wires : nat;
  ir_constraints : list R1CSConstraint;
  ir_parameter_map : gmap string N;
}.

Record CompiledCircuit := {
  cc_ir : CircuitIR; cc_circuit_hash : string; cc_verification_key : list byte;
}.

Record WireDef := { wd_name : string; wd_is_public : bool; wd_is_output : bool }.
Record GateDef := { gd_gate_type : GateType; gd_inputs : list string; gd_output : string }.
Record CircuitDef := {
  cd_name : string; cd_wires : list WireDef; cd_gates : list GateDef; cd_parameters : list string;
}.

(** [serde_json::to_vec]; an error carries its text. *)
Class CircuitJson := {
  ir_to_vec : CircuitIR → result string (list byte);
  constraint_to_vec : R1CSConstraint → result string (list byte);
}.

(** ** The compiler *)

(** The wire that stands for the constant 1: [usize::MAX]. *)
Definition constant_wire : N := 18446744073709551615.

Definition one : f64 := f64_of_Z 1.
Definition two : f64 := f64_of_Z 2.
Definition minus_one : f64 := f64_of_Z (-1).

(** [HashMap::from]: a later pair replaces an earlier one of the same key. *)
Definition linear_from (l : list (N * f64)) : linear :=
  foldl (λ m '(k, v), <[k := v]> m) ∅ l.

Definition resolve_wire (wire_map : gmap string N) (name : string) : result CircuitError N :=
  ok_or (CompilationFailed ("Unknown wire: " +:+ name)) (wire_map !! name).

(** What the loop over the wires builds. *)
Record Wires := {
  ws_map : gmap string N; ws_public_inputs : list string; ws_witness_wires : list string;
}.

Definition add_wire (ws : Wires) (wire : WireDef) : Wires :=
  let idx := N.of_nat (size (ws_map ws)) in
  let wire_map := <[wd_name wire := idx]> (ws_map ws) in
  if wd_is_public wire || wd_is_output wire then
    {| ws_map := wire_map; ws_public_inputs := ws_public_inputs ws ++ [wd_name wire];
       ws_witness_wires := ws_witness_wires ws |}
  else
    {| ws_map := wire_map; ws_public_inputs := ws_public_inputs ws;
       ws_witness_wires := ws_witness_wires ws ++ [wd_name wire] |}.

Definition wires_of (def : CircuitDef) : Wires :=
  foldl add_wire {| ws_map := ∅; ws_public_inputs := []; ws_witness_wires := [] |} (cd_wires def).

Definition returned {A} (r : result CircuitError A) : result Failure A := map_err Returned r.

(** [resolve_wire(&wire_map, &gate.inputs[i])?] *)
Definition input_wire (wire_map : gmap string N) (gate : GateDef) (i : nat) : result Failure N :=
  match gd_inputs gate !! i with
  | None => Err Panicked
  | Some name => returned (resolve_wire wire_map name)
  end.

(** [.collect::<Result<_, _>>()] into a map. *)
Fixpoint resolve_all (wire_map : gmap string N) (names : list string)
    : result CircuitError (list (N * f64)) :=
  match names with
  | [] => Ok []
  | name :: names =>
    idx ← resolve_wire wire_map name;
    rest ← resolve_all wire_map names;
    Ok ((idx, one) :: rest)
  end.

Definition compile_gate (wire_map : gmap string N) (gate : GateDef)
    : result Failure R1CSConstraint :=
  output_idx ← returned (ok_or (CompilationFailed ("Unknown output wire: " +:+ gd_output gate))
                           (wire_map !! gd_output gate));
  match gd_gate_type gate with
  | And =>
    if decide (length (gd_inputs gate) = 2) then
      a_idx ← input_wire wire_map gate 0;
      b_idx ← input_wire wire_map gate 1;
      Ok {| rc_a := linear_from [(a_idx, one)]; rc_b := linear_from [(b_idx, one)];
            rc_c := linear_from [(output_idx, one)] |}
    else Err (Returned (CompilationFailed "AND gate requires exactly 2 inputs"))
  | Or =>
    a_idx ← input_wire wire_map gate 0;
    b_idx ← input_wire wire_map gate 1;
    Ok {| rc_a := linear_from [(a_idx, one)]; rc_b := linear_from [(b_idx, one)];
          rc_c := linear_from [(output_idx, one)] |}
  | Xor =>
    a_idx ← input_wire wire_map gate 0;
    b_idx ← input_wire wire_map gate 1;
    Ok {| rc_a := linear_from [(a_idx, one)]; rc_b := linear_from [(b_idx, two)];
          rc_c := linear_from [(a_idx, one); (b_idx, one); (output_idx, minus_one)] |}
  | Not =>
    if decide (length (gd_inputs gate) = 1) then
      a_idx ← input_wire wire_map gate 0;
      Ok {| rc_a := linear_from [(a_idx, one)]; rc_b := linear_from [(constant_wire, one)];
            rc_c := linear_from [(a_idx, one); (output_idx, minus_one)] |}
    else Err (Returned (CompilationFailed "NOT gate requires exactly 1 input"))
  | LinearCombination =>
    sum ← returned (resolve_all wire_map (gd_inputs gate));
    Ok {| rc_a := linear_from sum; rc_b := linear_from [(constant_wire, one)];
          rc_c := linear_from [(output_idx, one)] |}
  end.

Fixpoint compile_gates (wire_map : gmap string N) (gates : list GateDef)
    : result Failure (list R1CSConstraint) :=
  match gates with
  | [] => Ok []
  | gate :: gates =>
    constraint ← compile_gate wire_map gate;
    constraints ← compile_gates wire_map gates;
    Ok (constraint :: constraints)
  end.

Section circuits.
Context {SH : Sha256} {CJ : CircuitJson}.

(** [to_le_bytes] of a [usize]. *)
Definition usize_to_le_bytes (n : nat) : list byte :=
  (λ i, default x00 (Byte.of_N (N.land (N.shiftr (N.of_nat n) (8 * N.of_nat i)) 255))) <$> seq 0 8.

(** [unwrap_or_default] *)
Definition or_empty (r : result string (list byte)) : list byte :=
  match r with Ok bytes => bytes | Err _ => [] end.

Definition generate_verification_key (ir : CircuitIR) : list byte :=
  sha256 (as_bytes (ir_name ir) ++ usize_to_le_bytes (ir_num_public_inputs ir)
            ++ usize_to_le_bytes (ir_num_wires ir)
            ++ (ir_constraints ir ≫= λ c, or_empty (constraint_to_vec c))).

Definition compile_circuit (def : CircuitDef) : result Failure CompiledCircuit :=
  let ws := wires_of def in
  constraints ← compile_gates (ws_map ws) (cd_gates def);
  let ir :=
    {| ir_name := cd_name def;
       ir_num_public_inputs := length (ws_public_inputs ws);
       ir_num_witness_wires := length (ws_witness_wires ws);
       ir_num_wires := size (ws_map ws);
       ir_constraints := constraints;
       ir_parameter_map :=
         foldl (λ m p, match ws_map ws !! p with Some idx => <[p := idx]> m | None => m end)
           ∅ (cd_parameters def) |} in
  circuit_bytes ← returned (map_err CompilationFailed (ir_to_vec ir));
  Ok {| cc_ir := ir; cc_circuit_hash := hex_string (sha256 circuit_bytes);
        cc_verification_key := generate_verification_key ir |}.

End circuits.

(** ** Verification *)

Section verification.
Context `{!HashIter N}.

(** [assignment.get(wire)] *)
Definition wire_value (assignment : list f64) (wire : N) : option f64 :=
  if (wire <? N.of_nat (length assignment))%N then assignment !! N.to_nat wire else None.

(** The terms in the map's own order; a wire out of range counts as 0. *)
Definition eval_linear (terms : linear) (assignment : list f64) : f64 :=
  f64_sum ((λ wire, f64_mul (default (f64_of_Z 0) (terms !! wire))
                      (default (f64_of_Z 0) (wire_value assignment wire)))
             <$> hash_iter (dom terms)).

(** [!((product - c_val).abs() > 1e-10)] *)
Definition satisfied (assignment : list f64) (c : R1CSConstraint) : bool :=
  let a_val := eval_linear (rc_a c) assignment in
  let b_val := eval_linear (rc_b c) assignment in
  let c_val := eval_linear (rc_c c) assignment in
  let product := f64_mul a_val b_val in
  negb (f64_ltb tolerance (SFabs (f64_sub product c_val))).

(** [self.ir.num_wires - self.ir.num_public_inputs] wraps. *)
Definition expected_witness_len (ir : CircuitIR) : Z :=
  wrap 64 (Z.of_nat (ir_num_wires ir) - Z.of_nat (ir_num_public_inputs ir)).

Definition verify (circuit : CompiledCircuit) (witness public_inputs : list f64)
    : result CircuitError bool :=
  let ir := cc_ir circuit in
  if negb (length public_inputs =? ir_num_public_inputs ir)%nat then
    Err (InvalidWitness ("Expected " +:+ pretty (ir_num_public_inputs ir)
      +:+ " public inputs, got " +:+ pretty (length public_inputs)))
  else if negb (Z.of_nat (length witness) =? expected_witness_len ir)%Z then
    Err (InvalidWitness ("Expected " +:+ pretty (expected_witness_len ir)
      +:+ " witness values, got " +:+ pretty (length witness)))
  else
    let assignment := public_inputs ++ witness in
    Ok (forallb (satisfied assignment) (ir_constraints ir)).

(** ** The registry

    Its lock is never poisoned: no operation panics while it holds it. *)

Definition CircuitRegistry : Type := gmap string CompiledCircuit.

Definition registry_new : CircuitRegistry := ∅.

Definition register_circuit (name : string) (circuit : CompiledCircuit) (r : CircuitRegistry)
    : result CircuitError () * CircuitRegistry :=
  match (r : gmap string CompiledCircuit) !! name with
  | Some _ => (Err (AlreadyExists name), r)
  | None => (Ok (), <[name := circuit]> (r : gmap string CompiledCircuit))
  end.

Definition get_circuit (name : string) (r : CircuitRegistry)
    : result CircuitError (option CompiledCircuit) :=
  Ok ((r : gmap string CompiledCircuit) !! name).

Definition verify_with_circuit (name : string) (witness public_inputs : list f64)
    (r : CircuitRegistry) : result CircuitError bool :=
  circuit ← ok_or (CircuitNotFound name) ((r : gmap string CompiledCircuit) !! name);
  verify circuit witness public_inputs.

Definition list_circuits `{!HashIter string} (r : CircuitRegistry)
    : result CircuitError (list string) :=
  Ok (hash_iter (dom (r : gmap string CompiledCircuit))).

Definition unregister_circuit (name : string) (r : CircuitRegistry)
    : result CircuitError bool * CircuitRegistry :=
  (Ok (bool_decide (is_Some ((r : gmap string CompiledCircuit) !! name))),
   delete name (r : gmap string CompiledCircuit)).

End verification.

(** ** What the circuits mean

    The compiler accepts exactly the well-formed definitions and emits constraints over
    the wires it numbered; circuits of AND and XOR gates are checked faithfully on
    booleans.  The verification compares with [>], so a witness of NaNs passes. *)

#[export] Instance spec_float_eq_dec : EqDecision spec_float.
Proof. solve_decision. Defined.

(** ** Small integers as floats

    [f64_of_Z] of a small integer; zero also as minus zero. *)

Definition reps (z : Z) : list f64 :=
  f64_of_Z z :: (if decide (z = 0%Z) then [S754_zero true] else []).

Definition denotes (x : f64) (z : Z) : Prop := x ∈ reps z.

(** On concrete numbers it is decided. *)
Ltac denotes := unfold denotes; apply (bool_decide_eq_true_1 _); vm_compute; reflexivity.

Definition small_range : list Z := (λ n, Z.of_nat n - 8)%Z <$> seq 0 17.

Lemma elem_of_small_range z : (Z.abs z ≤ 8)%Z → z ∈ small_range.
Proof.
  intros Hz. apply list_elem_of_fmap. exists (Z.to_nat (z + 8)). split; [lia|].
  apply elem_of_seq. lia.
Qed.

(** An operation on floats follows one on integers, on the whole range. *)
Definition follows (op : f64 → f64 → f64) (zop : Z → Z → Z) : bool :=
  forallb (λ a, forallb (λ b, forallb (λ x, forallb (λ y,
    bool_decide (op x y ∈ reps (zop a b))) (reps b)) (reps a)) small_range) small_range.

Lemma follows_denotes op zop a b x y :
  follows op zop = true → (Z.abs a ≤ 8)%Z → (Z.abs b ≤ 8)%Z →
  denotes x a → denotes y b → denotes (op x y) (zop a b).
Proof.
  unfold follows, denotes. intros Hf Ha%elem_of_small_range Hb%elem_of_small_range Hx Hy.
  rewrite forallb_forall in Hf. setoid_rewrite forallb_forall in Hf.
  setoid_rewrite forallb_forall in Hf. setoid_rewrite forallb_forall in Hf.
  eapply bool_decide_eq_true_1, Hf; by apply list_elem_of_In.
Qed.

Lemma follows_add : follows f64_add Z.add = true.
Proof. vm_compute. reflexivity. Qed.

Lemma follows_mul : follows f64_mul Z.mul = true.
Proof. vm_compute. reflexivity. Qed.

(** The comparison of [verify] on small integers. *)
Definition close (x y : f64) : bool := negb (f64_ltb tolerance (SFabs (f64_sub x y))).

Lemma close_denotes a b x y :
  (Z.abs a ≤ 8)%Z → (Z.abs b ≤ 8)%Z → denotes x a → denotes y b →
  close x y = bool_decide (a = b).
Proof.
  assert (forallb (λ a, forallb (λ b, forallb (λ x, forallb (λ y,
    Bool.eqb (close x y) (bool_decide (a = b))) (reps b)) (reps a)) small_range) small_range = true)
    as Hc by (vm_compute; reflexivity).
  unfold denotes. intros Ha%elem_of_small_range Hb%elem_of_small_range Hx Hy.
  rewrite forallb_forall in Hc. setoid_rewrite forallb_forall in Hc.
  setoid_rewrite forallb_forall in Hc. setoid_rewrite forallb_forall in Hc.
  apply Bool.eqb_prop, Hc; by apply list_elem_of_In.
Qed.

Lemma sum_list_Z_app (l k : list Z) : foldr Z.add 0%Z (l ++ k) = (foldr Z.add 0 l + foldr Z.add 0 k)%Z.
Proof. induction l; cbn; lia. Qed.

(** A sum of few small terms. *)
Lemma f64_sum_denotes (l : list f64) (zs : list Z) :
  Forall2 denotes l zs → Forall (λ z, Z.abs z ≤ 2)%Z zs → (length zs ≤ 3)%nat →
  denotes (f64_sum l) (foldr Z.add 0%Z zs).
Proof.
  intros Hd Hz Hl. unfold f64_sum.
  cut (∀ acc a, denotes acc a → (Z.abs a + 2 * Z.of_nat (length zs) ≤ 8)%Z →
    denotes (foldl f64_add acc l) (a + foldr Z.add 0%Z zs)).
  { intros H. apply (H _ 0%Z); [denotes|lia]. }
  clear Hl. induction Hd as [|x z l zs Hx Hd IH]; intros acc a Ha Hb; cbn.
  - by rewrite Z.add_0_r.
  - apply Forall_cons in Hz as [Hz Hzs]. cbn [length] in Hb. rewrite Z.add_assoc. apply IH; [done| |lia].
    apply follows_denotes; [apply follows_add|lia|lia|done|done].
Qed.

Lemma foldr_add_perm (l k : list Z) : l ≡ₚ k → foldr Z.add 0%Z l = foldr Z.add 0%Z k.
Proof. induction 1; cbn; lia. Qed.

Section linear.
Context `{!HashIter N}.

(** A linear combination whose terms are small integers. *)
Lemma eval_linear_denotes (terms : linear) (assignment : list f64) (ks : list N) (g : N → Z) :
  NoDup ks → dom terms = list_to_set ks → (length ks ≤ 3)%nat →
  (∀ k, k ∈ ks → (Z.abs (g k) ≤ 2)%Z ∧
     denotes (f64_mul (default (f64_of_Z 0) (terms !! k))
                (default (f64_of_Z 0) (wire_value assignment k))) (g k)) →
  denotes (eval_linear terms assignment) (foldr Z.add 0%Z (g <$> ks)).
Proof.
  intros Hnd Hdom Hlen Hg. assert (hash_iter (dom terms) ≡ₚ ks) as Hp.
  { rewrite hash_iter_perm, Hdom. by apply elements_list_to_set. }
  rewrite (foldr_add_perm (g <$> ks) (g <$> hash_iter (dom terms))) by (by rewrite Hp).
  apply f64_sum_denotes.
  - apply Forall2_fmap, Forall_Forall2_diag, Forall_forall. intros k Hk. rewrite Hp in Hk. by apply Hg.
  - apply Forall_fmap, Forall_forall. intros k Hk. rewrite Hp in Hk. by apply Hg.
  - by rewrite length_fmap, Hp.
Qed.

Lemma satisfied_close asg a b c :
  satisfied asg {| rc_a := a; rc_b := b; rc_c := c |} =
  close (f64_mul (eval_linear a asg) (eval_linear b asg)) (eval_linear c asg).
Proof. done. Qed.

(** One wire with its coefficient. *)
Lemma eval_linear_one i c asg x z :
  wire_value asg i = Some x → denotes (f64_mul c x) z → (Z.abs z ≤ 2)%Z →
  denotes (eval_linear (linear_from [(i, c)]) asg) z.
Proof.
  intros Hi Hx Hz. replace z with (foldr Z.add 0%Z ((λ _, z) <$> [i])) by (cbn; lia).
  apply eval_linear_denotes; [apply NoDup_singleton|cbn; set_solver|cbn; lia|].
  intros k ->%list_elem_of_singleton. split; [done|]. cbn. rewrite lookup_insert_eq, Hi. done.
Qed.

End linear.

(** ** The numbering of the wires *)

Definition is_public (w : WireDef) : Prop := (wd_is_public w || wd_is_output w) = true.
#[export] Instance is_public_dec w : Decision (is_public w).
Proof. unfold is_public. apply _. Defined.

Definition wire_names (def : CircuitDef) : list string := wd_name <$> cd_wires def.

Definition add_wires (wires : list WireDef) : Wires :=
  foldl add_wire {| ws_map := ∅; ws_public_inputs := []; ws_witness_wires := [] |} wires.

Lemma add_wires_snoc wires w : add_wires (wires ++ [w]) = add_wire (add_wires wires) w.
Proof. unfold add_wires. by rewrite foldl_app. Qed.

Lemma ws_map_add_wire ws w :
  ws_map (add_wire ws w) = <[wd_name w := N.of_nat (size (ws_map ws))]> (ws_map ws).
Proof. unfold add_wire. by case_match. Qed.

Lemma add_wires_public wires :
  ws_public_inputs (add_wires wires) = wd_name <$> filter is_public wires ∧
  ws_witness_wires (add_wires wires) = wd_name <$> filter (λ w, ¬ is_public w) wires.
Proof.
  induction wires as [|w wires [IH1 IH2]] using rev_ind; [done|].
  rewrite add_wires_snoc, !filter_app, !fmap_app, <- IH1, <- IH2. unfold add_wire.
  destruct (wd_is_public w || wd_is_output w) eqn:Hp; cbn [ws_public_inputs ws_witness_wires].
  - rewrite filter_cons_True, filter_cons_False by (unfold is_public; by rewrite Hp; auto).
    by rewrite app_nil_r.
  - rewrite filter_cons_False, filter_cons_True by (unfold is_public; by rewrite Hp).
    by rewrite app_nil_r.
Qed.

Lemma add_wires_declared wires name :
  is_Some (ws_map (add_wires wires) !! name) ↔ name ∈ wd_name <$> wires.
Proof.
  induction wires as [|w wires IH] using rev_ind.
  - change (ws_map (add_wires [])) with (∅ : gmap string N). rewrite lookup_empty. split; [by intros [??]|by intros ?%elem_of_nil].
  - rewrite add_wires_snoc, ws_map_add_wire, fmap_app, elem_of_app, lookup_insert_is_Some', IH.
    cbn [fmap list_fmap]. rewrite list_elem_of_singleton. naive_solver.
Qed.

(** Distinct names are numbered in their order. *)
Lemma add_wires_index wires :
  NoDup (wd_name <$> wires) →
  size (ws_map (add_wires wires)) = length wires ∧
  ∀ name i, ws_map (add_wires wires) !! name = Some i ↔
    (wd_name <$> wires) !! N.to_nat i = Some name.
Proof.
  induction wires as [|w wires IH] using rev_ind.
  - intros _. split; [done|]. intros name i. change (ws_map (add_wires [])) with (∅ : gmap string N). by rewrite lookup_empty.
  - rewrite fmap_app. intros (Hnd & Hnew & _)%NoDup_app. destruct (IH Hnd) as [Hsize Hidx].
    rewrite add_wires_snoc, ws_map_add_wire.
    assert (ws_map (add_wires wires) !! wd_name w = None) as Hnone.
    { apply eq_None_not_Some. rewrite add_wires_declared. intros Hin. apply (Hnew _ Hin). set_solver. }
    split; [rewrite map_size_insert_None, length_app by done; cbn; lia|].
    intros name i. rewrite lookup_insert_Some, Hsize. destruct (decide (N.to_nat i < length wires)).
    + rewrite lookup_app_l by (by rewrite length_fmap). rewrite Hidx. split.
      * intros [[_ Heq]|[_ ?]]; [lia|done].
      * intros Hl. right. split; [|done]. intros <-. apply Hidx in Hl. congruence.
    + rewrite lookup_app_r, length_fmap by (rewrite length_fmap; lia). cbn. split.
      * intros [[<- <-]|[_ Hl]]; [by rewrite Nat2N.id, Nat.sub_diag|].
        apply Hidx, lookup_lt_Some in Hl. rewrite length_fmap in Hl. lia.
      * destruct (N.to_nat i - length wires)%nat eqn:Hi; [|done]. intros [= <-].
        left. split; [done|]. lia.
Qed.

(** ** Well-formed gates *)

(** What the compiler asks of a gate. *)
Definition gate_ok (names : list string) (gate : GateDef) : Prop :=
  gd_output gate ∈ names ∧
  match gd_gate_type gate with
  | And => length (gd_inputs gate) = 2 ∧ Forall (λ n, n ∈ names) (gd_inputs gate)
  | Or | Xor => (2 ≤ length (gd_inputs gate))%nat ∧ Forall (λ n, n ∈ names) (take 2 (gd_inputs gate))
  | Not => length (gd_inputs gate) = 1 ∧ Forall (λ n, n ∈ names) (gd_inputs gate)
  | LinearCombination => Forall (λ n, n ∈ names) (gd_inputs gate)
  end.

Section compile.
Context (wires : list WireDef).
Local Abbreviation wm := (ws_map (add_wires wires)).
Local Abbreviation names := (wd_name <$> wires).

Lemma input_wire_Ok gate i idx :
  input_wire wm gate i = Ok idx ↔ ∃ n, gd_inputs gate !! i = Some n ∧ wm !! n = Some idx.
Proof.
  unfold input_wire, returned, resolve_wire. destruct (gd_inputs gate !! i) as [n|]; [|naive_solver].
  destruct (wm !! n) eqn:Hn; cbn; naive_solver.
Qed.

Lemma input_wire_ok gate i :
  (∃ idx, input_wire wm gate i = Ok idx) ↔ ∃ n, gd_inputs gate !! i = Some n ∧ n ∈ names.
Proof.
  setoid_rewrite input_wire_Ok. setoid_rewrite <- add_wires_declared. unfold is_Some. naive_solver.
Qed.

Lemma resolve_all_ok l : (∃ sum, resolve_all wm l = Ok sum) ↔ Forall (λ n, n ∈ names) l.
Proof.
  induction l as [|n l IH]; cbn; [split; [done|by eexists]|].
  rewrite Forall_cons, <- IH, <- add_wires_declared. unfold resolve_wire.
  destruct (wm !! n) as [i|]; cbn; [|split; [by intros [??]|by intros [[??] ?]]].
  destruct (resolve_all wm l); cbn; [|naive_solver]. split; [eauto|eauto].
Qed.

Lemma two_inputs_ok {A} (gate : GateDef) (k : N → N → A) :
  is_ok (a ← input_wire wm gate 0; b ← input_wire wm gate 1; Ok (k a b)) = true ↔
  (2 ≤ length (gd_inputs gate))%nat ∧ Forall (λ n, n ∈ names) (take 2 (gd_inputs gate)).
Proof.
  transitivity ((∃ a, input_wire wm gate 0 = Ok a) ∧ (∃ b, input_wire wm gate 1 = Ok b)).
  { destruct (input_wire wm gate 0), (input_wire wm gate 1); cbn; naive_solver. }
  rewrite !input_wire_ok. destruct (gd_inputs gate) as [|x [|y l]]; cbn.
  - split; [by intros [(? & ? & ?) _]|lia].
  - split; [by intros [_ (? & ? & ?)]|lia].
  - rewrite !Forall_cons. split; [intros [(? & [= <-] & ?) (? & [= <-] & ?)]|intros (_ & ? & ? & _)].
    + split_and!; [lia|done..].
    + split; by eexists.
Qed.

Lemma one_input_ok {A} (gate : GateDef) (k : N → A) :
  length (gd_inputs gate) = 1 →
  is_ok (a ← input_wire wm gate 0; Ok (k a)) = true ↔ Forall (λ n, n ∈ names) (gd_inputs gate).
Proof.
  intros Hlen. transitivity (∃ a, input_wire wm gate 0 = Ok a).
  { destruct (input_wire wm gate 0); cbn; naive_solver. }
  rewrite input_wire_ok. destruct (gd_inputs gate) as [|x [|y l]]; try done.
  rewrite Forall_singleton. cbn. naive_solver.
Qed.

Lemma compile_gate_ok gate :
  is_ok (compile_gate wm gate) = true ↔ gate_ok names gate.
Proof.
  unfold compile_gate, gate_ok. rewrite <- add_wires_declared.
  destruct (wm !! gd_output gate) as [o|] eqn:Ho; cbn [returned ok_or map_err mbind result_bind].
  2: { split; [done|by intros [[??] _]]. }
  assert (∀ P : Prop, is_Some (Some o) ∧ P ↔ P) as -> by (intros P; split; [tauto|eauto]).
  destruct (gd_gate_type gate).
  - case_decide as H2; [|naive_solver]. rewrite two_inputs_ok, take_ge by lia. naive_solver lia.
  - apply two_inputs_ok.
  - apply two_inputs_ok.
  - case_decide as H1; [|naive_solver]. rewrite one_input_ok by done. naive_solver.
  - rewrite <- resolve_all_ok. unfold returned. destruct (resolve_all wm (gd_inputs gate)); cbn; naive_solver.
Qed.

(** The wires of a constraint. *)
Definition constraint_wires (c : R1CSConstraint) : gset N :=
  dom (rc_a c) ∪ dom (rc_b c) ∪ dom (rc_c c).

Lemma dom_linear_from (l : list (N * f64)) k :
  k ∈ dom (linear_from l) ↔ k ∈ l.*1.
Proof.
  unfold linear_from. cut (∀ m : linear, k ∈ dom (foldl (λ m '(k, v), <[k := v]> m) m l) ↔
    k ∈ dom m ∨ k ∈ l.*1).
  { intros H. rewrite H, dom_empty. set_solver. }
  induction l as [|[j v] l IH]; intros m; cbn; [set_solver|].
  rewrite IH, dom_insert. set_solver.
Qed.

(** Every wire of a compiled constraint is one of the declared ones, or the constant. *)
Lemma compile_gate_wires gate c w :
  compile_gate wm gate = Ok c → w ∈ constraint_wires c →
  w = constant_wire ∨ ∃ name, wm !! name = Some w.
Proof.
  unfold compile_gate, constraint_wires. rewrite result_bind_Ok.
  intros (o & Ho & Hc). unfold returned in Ho.
  destruct (wm !! gd_output gate) as [o'|] eqn:Hout; [|done]. injection Ho as <-.
  assert (∀ i idx, input_wire wm gate i = Ok idx → ∃ name, wm !! name = Some idx) as Hin
    by (intros i idx (? & _ & ?)%input_wire_Ok; eauto).
  assert (∀ l sum, resolve_all wm l = Ok sum → w ∈ sum.*1 → ∃ name, wm !! name = Some w) as Hall.
  { induction l as [|n l IH]; intros sum; cbn; [intros [= <-]; set_solver|].
    unfold resolve_wire. destruct (wm !! n) eqn:Hn; cbn; [|done].
    intros (rest & Hr & [= <-])%result_bind_Ok. cbn. intros [->|Hw]%elem_of_cons; eauto. }
  rewrite !elem_of_union. destruct (gd_gate_type gate).
  1, 4: case_decide; [|done].
  all: autorewrite with verisim in Hc.
  all: repeat match type of Hc with _ ∧ _ => destruct Hc as [? Hc] | ∃ _, _ => destruct Hc as [? Hc]
         | (_ ≫= _) = Ok _ => rewrite result_bind_Ok in Hc end.
  all: injection Hc as <-; cbn [rc_a rc_b rc_c]; rewrite !dom_linear_from; cbn.
  5: { unfold returned in *. destruct (resolve_all wm (gd_inputs gate)) eqn:Hr; [|done].
       cbn in *. simplify_eq. set_solver. }
  all: rewrite ?elem_of_cons, ?elem_of_nil; intros Hw; destruct_or? Hw; subst; try done; eauto.
Qed.

Lemma compile_gates_Forall2 gates cs :
  compile_gates wm gates = Ok cs ↔ Forall2 (λ g c, compile_gate wm g = Ok c) gates cs.
Proof.
  revert cs. induction gates as [|g gates IH]; intros cs; cbn.
  - split; [by intros [= <-]|by intros ->%Forall2_nil_inv_l].
  - split.
    + intros (c & Hc & (cs' & Hcs%IH & [= <-])%result_bind_Ok)%result_bind_Ok. by constructor.
    + intros (c & cs' & Hc & Hcs%IH & ->)%Forall2_cons_inv_l. by rewrite Hc, Hcs.
Qed.

Lemma compile_gates_ok gates :
  is_ok (compile_gates wm gates) = true ↔ Forall (gate_ok names) gates.
Proof.
  induction gates as [|g gates IH]; cbn; [split; [constructor|done]|].
  rewrite Forall_cons, <- IH, <- compile_gate_ok.
  destruct (compile_gate wm g), (compile_gates wm gates); cbn; naive_solver.
Qed.

(** Only the second input of an OR or XOR gate is fetched without a look at the length. *)
Lemma compile_gate_panics gate :
  compile_gate wm gate = Err Panicked →
  (gd_gate_type gate = Or ∨ gd_gate_type gate = Xor) ∧ (length (gd_inputs gate) < 2)%nat.
Proof.
  assert (∀ A (r : result CircuitError A), returned r ≠ Err Panicked) as Hr by by intros A [].
  assert (∀ i, input_wire wm gate i = Err Panicked → (length (gd_inputs gate) ≤ i)%nat) as Hi.
  { intros i. unfold input_wire. destruct (gd_inputs gate !! i) eqn:E; [by intros ?%Hr|].
    intros _. by apply lookup_ge_None. }
  unfold compile_gate. intros [?%Hr|(o & _ & H)]%result_bind_Err; [done|].
  destruct (gd_gate_type gate).
  1, 4: case_decide; [|done].
  5: apply result_bind_Err in H as [?%Hr|(? & _ & ?)]; done.
  all: repeat first [done | apply result_bind_Err in H as [?%Hi|(? & _ & H)]; [lia || auto with lia|]].
Qed.

End compile.

Section compiler.
Context {SH : Sha256} {CJ : CircuitJson}.

(** C31: The compiler is a type checker: when JSON serialization succeeds, a definition
    compiles exactly when every gate's output and inputs are declared wires and it has the
    number of inputs its type asks for.  What compiles has one constraint per gate, counts
    every wire once, as public or private, and, when the names are distinct, its
    constraints mention the numbered wires and the constant only.  It panics only on an OR
    or XOR gate of fewer than two inputs. *)
Theorem compile_checks_types (def : CircuitDef) :
  (∀ ir, is_ok (ir_to_vec ir) = true) →
  (is_ok (compile_circuit def) = true ↔ Forall (gate_ok (wire_names def)) (cd_gates def)) ∧
  (∀ c, compile_circuit def = Ok c →
     length (ir_constraints (cc_ir c)) = length (cd_gates def) ∧
     ir_num_public_inputs (cc_ir c) + ir_num_witness_wires (cc_ir c) = length (cd_wires def) ∧
     (NoDup (wire_names def) → ir_num_wires (cc_ir c) = length (cd_wires def) ∧
        ∀ k w, k ∈ ir_constraints (cc_ir c) → w ∈ constraint_wires k →
          w = constant_wire ∨ (w < N.of_nat (length (cd_wires def)))%N)) ∧
  (compile_circuit def = Err Panicked →
     ∃ gate, gate ∈ cd_gates def ∧ (gd_gate_type gate = Or ∨ gd_gate_type gate = Xor) ∧
       (length (gd_inputs gate) < 2)%nat).
Proof.
  intros Hj. unfold compile_circuit, wire_names. change (wires_of def) with (add_wires (cd_wires def)).
  set (wires := cd_wires def). split_and!.
  - rewrite <- compile_gates_ok, is_ok_bind, is_ok_iff. split; [naive_solver|].
    intros [cs Hcs]. exists cs. split; [done|]. cbv zeta.
    specialize (Hj {| ir_name := cd_name def;
      ir_num_public_inputs := length (ws_public_inputs (add_wires wires));
      ir_num_witness_wires := length (ws_witness_wires (add_wires wires));
      ir_num_wires := size (ws_map (add_wires wires)); ir_constraints := cs;
      ir_parameter_map := foldl (λ m p, match ws_map (add_wires wires) !! p with
        Some idx => <[p := idx]> m | None => m end) ∅ (cd_parameters def) |}).
    by destruct (ir_to_vec _).
  - intros c (cs & Hcs%compile_gates_Forall2 & (bytes & _ & [= <-])%result_bind_Ok)%result_bind_Ok.
    cbn. destruct (add_wires_public wires) as [-> ->]. split_and!.
    + symmetry. by eapply Forall2_length.
    + rewrite !length_fmap. by rewrite <- length_app, filter_app_complement.
    + intros [Hsize Hidx]%add_wires_index. split; [done|]. intros k w Hk Hw.
      apply list_elem_of_lookup in Hk as [i Hk].
      destruct (Forall2_lookup_r _ _ _ _ _ Hcs Hk) as (g & _ & Hg).
      destruct (compile_gate_wires wires g k w Hg Hw) as [|[name Hn]]; [by left|right].
      apply Hidx, lookup_lt_Some in Hn. rewrite length_fmap in Hn. lia.
  - intros [Hp|(cs & _ & Hp)]%result_bind_Err.
    + revert Hp. induction (cd_gates def) as [|g gates IH]; cbn; [done|].
      intros [Hg|(c & _ & [Hp|(? & _ & ?)]%result_bind_Err)]%result_bind_Err; [| |done].
      * exists g. split; [set_solver|by apply (compile_gate_panics wires)].
      * destruct (IH Hp) as (g' & ? & ?). exists g'. split; [set_solver|done].
    + apply result_bind_Err in Hp as [Hp|(? & _ & ?)]; [|done]. unfold returned in Hp.
      by destruct (map_err CompilationFailed _).
Qed.

End compiler.

(** ** Gates on booleans *)

Definition enc (b : bool) : f64 := f64_of_Z (Z.b2z b).

(** Gates the compiler translates faithfully. *)
Definition boolean_gate (gate : GateDef) : Prop :=
  match gd_gate_type gate, gd_inputs gate with
  | And, [_; _] => True
  | Xor, [x; y] => x ≠ y ∧ x ≠ gd_output gate ∧ y ≠ gd_output gate
  | _, _ => False
  end.

Definition gate_holds (v : string → bool) (gate : GateDef) : bool :=
  match gd_inputs gate with
  | [x; y] =>
    Bool.eqb (v (gd_output gate))
      (match gd_gate_type gate with And => v x && v y | _ => xorb (v x) (v y) end)
  | _ => false
  end.

Section semantics.
Context `{!HashIter N} (wires : list WireDef) (v : string → bool).
Hypothesis (Hnd : NoDup (wd_name <$> wires)).

Local Abbreviation wm := (ws_map (add_wires wires)).
Local Abbreviation asg := ((λ w, enc (v (wd_name w))) <$> wires).

Lemma wire_value_name name i : wm !! name = Some i → wire_value asg i = Some (enc (v name)).
Proof.
  intros Hi. apply (add_wires_index wires Hnd) in Hi. rewrite list_lookup_fmap_Some in Hi.
  destruct Hi as (w & -> & Hw). unfold wire_value.
  pose proof (lookup_lt_Some _ _ _ Hw). rewrite length_fmap.
  destruct (N.ltb_spec i (N.of_nat (length wires))); [|lia]. by rewrite list_lookup_fmap, Hw.
Qed.

Lemma wires_distinct x y i j : wm !! x = Some i → wm !! y = Some j → x ≠ y → i ≠ j.
Proof.
  intros Hi%(add_wires_index wires Hnd) Hj%(add_wires_index wires Hnd) Hne <-.
  rewrite Hi in Hj. by injection Hj.
Qed.

Lemma denotes_enc b : denotes (f64_mul one (enc b)) (Z.b2z b).
Proof. destruct b; denotes. Qed.
Lemma denotes_enc_twice b : denotes (f64_mul two (enc b)) (2 * Z.b2z b).
Proof. destruct b; denotes. Qed.
Lemma denotes_enc_minus b : denotes (f64_mul minus_one (enc b)) (- Z.b2z b).
Proof. destruct b; denotes. Qed.

Lemma b2z_small b : (0 ≤ Z.b2z b ≤ 1)%Z.
Proof. by destruct b. Qed.

(** One boolean wire. *)
Lemma eval_wire name i :
  wm !! name = Some i →
  denotes (eval_linear (linear_from [(i, one)]) asg) (Z.b2z (v name)).
Proof.
  intros Hi%wire_value_name. pose proof (b2z_small (v name)).
  eapply eval_linear_one; [exact Hi|apply denotes_enc|lia].
Qed.

(** The right-hand side of an XOR. *)
Lemma eval_xor x y z i j o :
  wm !! x = Some i → wm !! y = Some j → wm !! z = Some o → x ≠ y → x ≠ z → y ≠ z →
  denotes (eval_linear (linear_from [(i, one); (j, one); (o, minus_one)]) asg)
    (Z.b2z (v x) + Z.b2z (v y) - Z.b2z (v z)).
Proof.
  intros Hx Hy Hz Hxy Hxz Hyz.
  assert (i ≠ j) as Hij by (by eapply wires_distinct).
  assert (i ≠ o) as Hio by (by eapply wires_distinct).
  assert (j ≠ o) as Hjo by (by eapply wires_distinct).
  apply wire_value_name in Hx, Hy, Hz.
  set (g k := if decide (k = i) then Z.b2z (v x) else if decide (k = j) then Z.b2z (v y)
              else (- Z.b2z (v z))%Z).
  assert (foldr Z.add 0%Z (g <$> [i; j; o]) = (Z.b2z (v x) + Z.b2z (v y) - Z.b2z (v z))%Z) as <-.
  { cbn. unfold g. repeat case_decide; try done; lia. }
  pose proof (b2z_small (v x)). pose proof (b2z_small (v y)). pose proof (b2z_small (v z)).
  apply eval_linear_denotes.
  - repeat constructor; set_solver.
  - unfold linear_from. cbn [foldl]. rewrite !dom_insert_L, dom_empty_L. set_solver.
  - cbn. lia.
  - unfold linear_from. cbn [foldl]. intros k Hk. unfold g.
    rewrite !elem_of_cons in Hk. destruct Hk as [-> | [-> | [-> |[]%elem_of_nil]]].
    + rewrite decide_True by done. split; [lia|]. rewrite !lookup_insert_ne by done.
      rewrite lookup_insert_eq, Hx. apply denotes_enc.
    + rewrite decide_False, decide_True by done. split; [lia|]. rewrite lookup_insert_ne by done.
      rewrite lookup_insert_eq, Hy. apply denotes_enc.
    + rewrite !decide_False by done. split; [lia|].
      rewrite lookup_insert_eq, Hz. apply denotes_enc_minus.
Qed.

(** The constraint of a gate holds exactly when the gate does. *)
Lemma satisfied_gate gate c :
  boolean_gate gate → compile_gate wm gate = Ok c → satisfied asg c = gate_holds v gate.
Proof.
  unfold boolean_gate, gate_holds, compile_gate, input_wire.
  intros Hg (o & Ho & Hc)%result_bind_Ok. unfold returned in Ho.
  destruct (wm !! gd_output gate) as [o'|] eqn:Hout; [|done]. injection Ho as <-.
  assert (∀ n idx, returned (resolve_wire wm n) = Ok idx → wm !! n = Some idx) as Hres.
  { intros n idx. unfold returned, resolve_wire. destruct (wm !! n); naive_solver. }
  destruct (gd_gate_type gate); try done;
    destruct (gd_inputs gate) as [|x [|y [|? ?]]]; try done; cbn in Hc.
  - apply result_bind_Ok in Hc as (i & Hi%Hres & (j & Hj%Hres & [= <-])%result_bind_Ok).
    rewrite satisfied_close.
    rewrite (close_denotes (Z.b2z (v x) * Z.b2z (v y)) (Z.b2z (v (gd_output gate)))).
    + by destruct (v x), (v y), (v (gd_output gate)).
    + by destruct (v x), (v y).
    + by destruct (v _).
    + apply follows_denotes; [apply follows_mul|by destruct (v x)|by destruct (v y)| |]; by apply eval_wire.
    + by apply eval_wire.
  - apply result_bind_Ok in Hc as (i & Hi%Hres & (j & Hj%Hres & [= <-])%result_bind_Ok).
    destruct Hg as (Hxy & Hxz & Hyz).
    rewrite satisfied_close.
    rewrite (close_denotes (Z.b2z (v x) * (2 * Z.b2z (v y)))
      (Z.b2z (v x) + Z.b2z (v y) - Z.b2z (v (gd_output gate)))).
    + by destruct (v x), (v y), (v (gd_output gate)).
    + by destruct (v x), (v y).
    + by destruct (v x), (v y), (v (gd_output gate)).
    + apply follows_denotes; [apply follows_mul|by destruct (v x)|by destruct (v y)|by apply eval_wire|].
      eapply eval_linear_one; [by apply wire_value_name|apply denotes_enc_twice|by destruct (v y)].
    + by apply eval_xor.
Qed.

(** The constant wire has no value: it counts as 0. *)
Lemma eval_constant :
  (N.of_nat (length wires) < constant_wire)%N →
  denotes (eval_linear (linear_from [(constant_wire, one)]) asg) 0.
Proof.
  intros Hlen. replace 0%Z with (foldr Z.add 0%Z ((λ _, 0%Z) <$> [constant_wire])) by done.
  apply eval_linear_denotes; [apply NoDup_singleton|cbn; set_solver|cbn; lia|].
  intros k ->%list_elem_of_singleton. split; [done|]. unfold linear_from. cbn [foldl].
  rewrite lookup_insert_eq. unfold wire_value. rewrite length_fmap.
  destruct (N.ltb_spec constant_wire (N.of_nat (length wires))); [lia|]. denotes.
Qed.

(** A sum of two distinct wires, each with coefficient [one] and the second also with
    [minus_one]. *)
Lemma eval_two x y i j (minus : bool) :
  wm !! x = Some i → wm !! y = Some j → x ≠ y →
  denotes (eval_linear (linear_from [(i, one); (j, if minus then minus_one else one)]) asg)
    (Z.b2z (v x) + (if minus then - Z.b2z (v y) else Z.b2z (v y))).
Proof.
  intros Hx Hy Hxy. assert (i ≠ j) as Hij by (by eapply wires_distinct).
  apply wire_value_name in Hx, Hy.
  set (g k := if decide (k = i) then Z.b2z (v x) else if minus then (- Z.b2z (v y))%Z else Z.b2z (v y)).
  assert (foldr Z.add 0%Z (g <$> [i; j]) =
    (Z.b2z (v x) + (if minus then - Z.b2z (v y) else Z.b2z (v y)))%Z) as <-.
  { cbn. unfold g. repeat case_decide; try done; destruct minus; lia. }
  pose proof (b2z_small (v x)). pose proof (b2z_small (v y)).
  apply eval_linear_denotes.
  - repeat constructor; set_solver.
  - unfold linear_from. cbn [foldl]. rewrite !dom_insert_L, dom_empty_L. set_solver.
  - cbn. lia.
  - unfold linear_from. cbn [foldl]. intros k Hk. unfold g.
    rewrite !elem_of_cons in Hk. destruct Hk as [-> | [-> |[]%elem_of_nil]].
    + rewrite decide_True by done. split; [lia|]. rewrite lookup_insert_ne by done.
      rewrite lookup_insert_eq, Hx. apply denotes_enc.
    + rewrite decide_False by done. split; [destruct minus; lia|].
      rewrite lookup_insert_eq, Hy. destruct minus; [apply denotes_enc_minus|apply denotes_enc].
Qed.

End semantics.

(** The other gates do not mean what they are called: on booleans, the constraint of
    an OR gate is that of an AND gate, the one of a NOT gate says that the output equals
    the input, and the one of a linear combination that the output is 0, because the wire
    that stands for the constant 1 has no value. *)
Theorem gates_miscompiled `{!HashIter N} (wires : list WireDef) (v : string → bool)
    (gate : GateDef) (c : R1CSConstraint) :
  NoDup (wd_name <$> wires) → (N.of_nat (length wires) < constant_wire)%N →
  compile_gate (ws_map (add_wires wires)) gate = Ok c →
  let holds := satisfied ((λ w, enc (v (wd_name w))) <$> wires) c in
  match gd_gate_type gate, gd_inputs gate with
  | Or, [x; y] => holds = Bool.eqb (v (gd_output gate)) (v x && v y)
  | Not, [x] => x ≠ gd_output gate → holds = Bool.eqb (v (gd_output gate)) (v x)
  | LinearCombination, [x; y] => x ≠ y → holds = negb (v (gd_output gate))
  | _, _ => True
  end.
Proof.
  intros Hnd Hlen (o & Ho & Hc)%result_bind_Ok holds. unfold returned in Ho.
  destruct (ws_map (add_wires wires) !! gd_output gate) as [o'|] eqn:Hout; [|done].
  injection Ho as <-. unfold input_wire in Hc.
  assert (∀ n idx, resolve_wire (ws_map (add_wires wires)) n = Ok idx →
    ws_map (add_wires wires) !! n = Some idx) as Hres.
  { intros n idx. unfold resolve_wire. destruct (ws_map _ !! n); naive_solver. }
  assert (∀ n idx, returned (resolve_wire (ws_map (add_wires wires)) n) = Ok idx →
    ws_map (add_wires wires) !! n = Some idx) as Hret.
  { intros n idx H. apply Hres. unfold returned in H. destruct (resolve_wire _ n); naive_solver. }
  pose proof (b2z_small (v (gd_output gate))).
  destruct (gd_gate_type gate); try done;
    destruct (gd_inputs gate) as [|x [|y [|? ?]]]; try done; cbn in Hc.
  - apply result_bind_Ok in Hc as (i & Hi%Hret & (j & Hj%Hret & [= <-])%result_bind_Ok).
    unfold holds. rewrite satisfied_close.
    rewrite (close_denotes (Z.b2z (v x) * Z.b2z (v y)) (Z.b2z (v (gd_output gate)))).
    + by destruct (v x), (v y), (v (gd_output gate)).
    + by destruct (v x), (v y).
    + lia.
    + apply follows_denotes; [apply follows_mul|by destruct (v x)|by destruct (v y)| |]; by apply eval_wire.
    + by apply eval_wire.
  - intros Hne. apply result_bind_Ok in Hc as (i & Hi%Hret & [= <-]).
    unfold holds. rewrite satisfied_close.
    rewrite (close_denotes (Z.b2z (v x) * 0) (Z.b2z (v x) + - Z.b2z (v (gd_output gate)))).
    + by destruct (v x), (v (gd_output gate)).
    + by destruct (v x).
    + by destruct (v x), (v (gd_output gate)).
    + apply follows_denotes; [apply follows_mul|by destruct (v x)|done|by apply eval_wire|by apply eval_constant].
    + by apply (eval_two wires v Hnd x (gd_output gate) i o' true).
  - intros Hne. unfold returned in Hc.
    destruct (resolve_wire _ x) as [i|] eqn:Hi; [|done]. apply Hres in Hi. cbn in Hc.
    destruct (resolve_wire _ y) as [j|] eqn:Hj; [|done]. apply Hres in Hj. cbn in Hc.
    injection Hc as <-.
    unfold holds. rewrite satisfied_close.
    rewrite (close_denotes ((Z.b2z (v x) + Z.b2z (v y)) * 0) (Z.b2z (v (gd_output gate)))).
    + by destruct (v x), (v y), (v (gd_output gate)).
    + by destruct (v x), (v y).
    + lia.
    + apply follows_denotes; [apply follows_mul|by destruct (v x), (v y)|done| |by apply eval_constant].
      by apply (eval_two wires v Hnd x y i j false).
    + by apply eval_wire.
Qed.

Section verifier.
Context {SH : Sha256} {CJ : CircuitJson} `{!HashIter N}.

(** Circuits of AND and XOR gates are verified faithfully: when JSON serialization
    succeeds, the public wires are declared before the private ones under distinct names
    and every gate is well-formed, with the wires of an XOR distinct, the circuit compiles,
    and the verification of a boolean assignment says whether it satisfies every gate. *)
Theorem verify_boolean_gates (def : CircuitDef) (pubs privs : list WireDef) (v : string → bool) :
  (∀ ir, is_ok (ir_to_vec ir) = true) →
  cd_wires def = pubs ++ privs → Forall is_public pubs → Forall (λ w, ¬ is_public w) privs →
  NoDup (wire_names def) → (Z.of_nat (length (cd_wires def)) < 2 ^ 64)%Z →
  Forall (λ g, gate_ok (wire_names def) g ∧ boolean_gate g) (cd_gates def) →
  ∃ c, compile_circuit def = Ok c ∧
    verify c ((λ w, enc (v (wd_name w))) <$> privs) ((λ w, enc (v (wd_name w))) <$> pubs) =
    Ok (forallb (gate_holds v) (cd_gates def)).
Proof.
  intros Hj Hw Hpub Hpriv Hnd Hlen [Hok Hb]%Forall_and. unfold compile_circuit, wire_names in *.
  change (wires_of def) with (add_wires (cd_wires def)). set (wires := cd_wires def) in *.
  apply compile_gates_ok, is_ok_iff in Hok as [cs Hcs]. rewrite Hcs. cbn [mbind result_bind].
  pose proof Hcs as Hf%compile_gates_Forall2.
  match goal with |- ∃ c, (_ ← returned (map_err _ (ir_to_vec ?ir)); _) = _ ∧ _ =>
    specialize (Hj ir); destruct (ir_to_vec ir) as [bytes|e]; [|done] end.
  cbn. eexists. split; [done|]. unfold verify, expected_witness_len. cbn.
  destruct (add_wires_public wires) as [-> _]. destruct (add_wires_index wires Hnd) as [-> _].
  assert (filter is_public wires = pubs) as ->.
  { rewrite Hw, filter_app, filter_id, filter_none by done. by rewrite app_nil_r. }
  rewrite !length_fmap, Nat.eqb_refl. cbn. rewrite wrap_small by (rewrite Hw in *; rewrite length_app in *; lia).
  rewrite (proj2 (Z.eqb_eq _ _)) by (rewrite Hw, length_app; lia). cbn. f_equal.
  rewrite <- fmap_app, <- Hw. clear Hcs Hj. induction Hf as [|g c gates cs Hg Hf IH]; [done|].
  apply Forall_cons in Hb as [Hbg Hb]. cbn. rewrite IH by done. f_equal.
  by eapply satisfied_gate.
Qed.

(** ** Not a number *)

Lemma f64_sum_nan (l : list f64) : S754_nan ∈ l → f64_sum l = S754_nan.
Proof.
  assert (∀ l, foldl f64_add S754_nan l = S754_nan) as Hnan by (clear l; by induction l).
  unfold f64_sum. generalize (S754_zero true). induction l as [|x l IH]; intros acc; cbn.
  - by intros ?%elem_of_nil.
  - intros [<-|Hin]%elem_of_cons; [|by apply IH].
    replace (f64_add acc S754_nan) with S754_nan by (by destruct acc). apply Hnan.
Qed.

Lemma f64_mul_nan_r x : f64_mul x S754_nan = S754_nan.
Proof. by destruct x. Qed.

Lemma eval_linear_nan (terms : linear) asg k :
  k ∈ dom terms → wire_value asg k = Some S754_nan → eval_linear terms asg = S754_nan.
Proof.
  intros Hk Hv. apply f64_sum_nan, list_elem_of_fmap. exists k.
  rewrite Hv. split; [by rewrite f64_mul_nan_r|by apply elem_of_hash_iter].
Qed.

Lemma satisfied_nan asg c k :
  k ∈ constraint_wires c → wire_value asg k = Some S754_nan → satisfied asg c = true.
Proof.
  destruct c as [a b c]. unfold constraint_wires. cbn. rewrite !elem_of_union, satisfied_close.
  intros [[Hk|Hk]|Hk] Hv; rewrite (eval_linear_nan _ _ _ Hk Hv); [done| |].
  - by rewrite f64_mul_nan_r.
  - by destruct (f64_mul _ _).
Qed.

(** A witness of NaNs passes: a circuit all of whose constraints mention a private wire
    accepts, under any public inputs, the witness that is not a number throughout. *)
Theorem nan_witness_accepted (circuit : CompiledCircuit) (public_inputs : list f64) (n : nat) :
  length public_inputs = ir_num_public_inputs (cc_ir circuit) →
  Z.of_nat n = expected_witness_len (cc_ir circuit) →
  (∀ c, c ∈ ir_constraints (cc_ir circuit) → ∃ k, k ∈ constraint_wires c ∧
     (length public_inputs ≤ N.to_nat k < length public_inputs + n)%nat) →
  verify circuit (replicate n S754_nan) public_inputs = Ok true.
Proof.
  intros Hp Hn Hc. unfold verify. rewrite Hp, Nat.eqb_refl, length_replicate, Hn, Z.eqb_refl. cbn.
  f_equal. apply forallb_forall. intros c Hin%list_elem_of_In.
  destruct (Hc c Hin) as (k & Hk & Hlo & Hhi). eapply satisfied_nan; [exact Hk|].
  unfold wire_value. rewrite length_app, length_replicate.
  destruct (N.ltb_spec k (N.of_nat (length public_inputs + n))); [|lia].
  rewrite lookup_app_r, lookup_replicate by done. split; [done|lia].
Qed.

End verifier.
