(* ===== verification/Zkp.v ===== *)
(** * Proofs of the semantic store

    Models [src/rust-core/verisim-semantic/src/zkp.rs] (hash commitments, Merkle
    inclusion proofs, the verification of stored proofs) and
    [src/rust-core/verisim-semantic/src/zkp_bridge.rs] (the three privacy levels).
    The digest of the [sha2] crate is a parameter; a [[u8; 32]] is a vector of 32 bytes.
    The loops over the levels of a tree run on fuel, the number of leaves; it is shown
    to be enough. *)

From S2P Require Import Prelude Floats Circuit.
From stdpp Require Import vector pretty.
From Stdlib Require Import NArith.
From Stdlib Require Import Strings.Byte.
From Stdlib Require String.
From stdpp Require Import pretty.
From Stdlib Require Import NArith ZifyNat.

(** ** Hash commitments *)

Section zkp.
Context {CH : Chrono} {SH : Sha256}.

(** [HashCommitment] is a struct of one field, the commitment. *)
Definition HashCommitment : Type := hash32.

Definition commit (claim secret : list byte) : HashCommitment := sha256 (claim ++ secret).

(** [diff |= x ^ y] over the pairs of bytes. *)
Definition constant_time_eq (a b : list byte) : bool :=
  if negb (length a =? length b)%nat then false
  else
    let diff := foldl (λ diff '(x, y), N.lor diff (N.lxor (Byte.to_N x) (Byte.to_N y))) 0%N
                  (zip a b) in
    (diff =? 0)%N.

Definition verify_commitment (commitment : HashCommitment) (claim secret : list byte) : bool :=
  let expected := commit claim secret in
  constant_time_eq commitment expected.

(** ** Merkle trees *)

Record MerklePathElement := { pe_hash : hash32; pe_is_left : bool }.

Record MerkleProof := {
  mk_leaf : list byte; mk_path : list MerklePathElement; mk_root : hash32;
}.

Definition hash (data : list byte) : hash32 := sha256 data.

Definition hash_pair (left right : hash32) : hash32 := sha256 (left ++ right).

(** A level of odd length repeats its last hash. *)
Definition pad (level : list hash32) : list hash32 :=
  if negb (length level mod 2 =? 0)%nat then
    match last level with Some h => level ++ [h] | None => level end
  else level.

(** One parent for each chunk of two; a padded level has no chunk of one. *)
Fixpoint parents (level : list hash32) : list hash32 :=
  match level with
  | a :: b :: level => hash_pair a b :: parents level
  | _ => []
  end.

Fixpoint root_loop (fuel : nat) (current_level : list hash32) : list hash32 :=
  match fuel with
  | 0 => current_level
  | S fuel =>
    if (1 <? length current_level)%nat then root_loop fuel (parents (pad current_level))
    else current_level
  end.

Definition zero_hash : hash32 := Vector.const x00 32.

Definition merkle_root (leaves : list (list byte)) : hash32 :=
  if decide (leaves = []) then zero_hash
  else default zero_hash (head (root_loop (length leaves) (hash <$> leaves))).

(** [None]: out of fuel, or an index out of bounds; neither happens. *)
Fixpoint proof_loop (fuel : nat) (hashed : list hash32) (idx : nat)
    (path : list MerklePathElement) : option (list MerklePathElement) :=
  if (1 <? length hashed)%nat then
    match fuel with
    | 0 => None
    | S fuel =>
      let hashed := pad hashed in
      let sibling_idx := if (idx mod 2 =? 0)%nat then (idx + 1)%nat else (idx - 1)%nat in
      let is_left := negb (idx mod 2 =? 0)%nat in
      h ← hashed !! sibling_idx;
      proof_loop fuel (parents hashed) (idx / 2)
        (path ++ [{| pe_hash := h; pe_is_left := is_left |}])
    end
  else Some path.

Definition merkle_proof (leaves : list (list byte)) (index : nat) : option MerkleProof :=
  match leaves !! index with
  | None => None
  | Some leaf =>
    let root := merkle_root leaves in
    path ← proof_loop (length leaves) (hash <$> leaves) index [];
    Some {| mk_leaf := leaf; mk_path := path; mk_root := root |}
  end.

(** One element of the path. *)
Definition fold_element (current : hash32) (element : MerklePathElement) : hash32 :=
  if pe_is_left element then hash_pair (pe_hash element) current
  else hash_pair current (pe_hash element).

Definition verify_merkle_proof (proof : MerkleProof) : bool :=
  let current := foldl fold_element (hash (mk_leaf proof)) (mk_path proof) in
  constant_time_eq current (mk_root proof).

(** ** Stored proofs *)

Inductive VerifiableProofData :=
| Commitment (commitment : hash32)
| Reveal (commitment : hash32) (secret : list byte)
| MerkleInclusion (proof : MerkleProof)
| ContentIntegrity (content_hash : hash32).

Definition verify_proof (data : VerifiableProofData) (claim : list byte) : bool :=
  match data with
  | Commitment _ => true
  | Reveal commitment secret =>
    let expected := commit claim secret in
    constant_time_eq commitment expected
  | MerkleInclusion proof => verify_merkle_proof proof
  | ContentIntegrity content_hash => constant_time_eq content_hash (hash claim)
  end.

(** ** Privacy levels *)

Inductive PrivacyLevel := Public | Private | ZeroKnowledge.

Record ZkpProofRequest := {
  rq_claim : list byte;
  rq_privacy_level : PrivacyLevel;
  rq_circuit_name : option string;
  rq_witness : option (list f64);
  rq_public_inputs : option (list f64);
  rq_membership_set : option (list (list byte));
  rq_membership_index : option nat;
}.

Record CircuitVerificationResult := {
  cv_circuit_name : string; cv_satisfied : bool; cv_constraints_checked : nat;
}.

(** [generated_at] is the instant before [to_rfc3339]. *)
Record ZkpProof := {
  zk_privacy_level : PrivacyLevel;
  zk_proof_data : VerifiableProofData;
  zk_blinding_nonce : option (list byte);
  zk_commitment : option hash32;
  zk_merkle_root : option hash32;
  zk_circuit_result : option CircuitVerificationResult;
  zk_generated_at : DateTime;
}.

Definition separator : list byte := String.list_byte_of_string "verisimdb-zkp-nonce-v1".

Definition generate_nonce (claim : list byte) : list byte :=
  let h := hash claim in
  sha256 (h ++ separator).

Definition generate_public_proof (now : DateTime) (request : ZkpProofRequest)
    : result CircuitError ZkpProof :=
  Ok {| zk_privacy_level := Public;
        zk_proof_data := ContentIntegrity (hash (rq_claim request));
        zk_blinding_nonce := None; zk_commitment := None; zk_merkle_root := None;
        zk_circuit_result := None; zk_generated_at := now |}.

(** The membership part of a proof: [leaves] prepares the set. *)
Definition membership_proof (leaves : list (list byte) → list (list byte)) (commitment : hash32)
    (request : ZkpProofRequest) : result CircuitError (VerifiableProofData * option hash32) :=
  match rq_membership_set request, rq_membership_index request with
  | Some set, Some index =>
    let root := merkle_root (leaves set) in
    match merkle_proof (leaves set) index with
    | Some mp => Ok (MerkleInclusion mp, Some root)
    | None => Err (InvalidWitness ("Membership index " +:+ pretty index
                +:+ " out of bounds for set of size " +:+ pretty (length set)))
    end
  | _, _ => Ok (Commitment commitment, None)
  end.

Definition generate_private_proof (now : DateTime) (request : ZkpProofRequest)
    : result CircuitError ZkpProof :=
  let nonce := generate_nonce (rq_claim request) in
  let commitment := commit (rq_claim request) nonce in
  '(proof_data, root) ← membership_proof id commitment request;
  Ok {| zk_privacy_level := Private; zk_proof_data := proof_data;
        zk_blinding_nonce := Some nonce; zk_commitment := Some commitment;
        zk_merkle_root := root; zk_circuit_result := None; zk_generated_at := now |}.

(** The leaf under the nonce. *)
Definition blind (nonce leaf : list byte) : list byte := commit leaf nonce.

Definition generate_zk_proof (now : DateTime) (request : ZkpProofRequest)
    : result CircuitError ZkpProof :=
  let nonce := generate_nonce (rq_claim request) in
  let commitment := commit (rq_claim request) nonce in
  '(proof_data, root) ← membership_proof (fmap (blind nonce)) commitment request;
  Ok {| zk_privacy_level := ZeroKnowledge; zk_proof_data := proof_data;
        zk_blinding_nonce := Some nonce; zk_commitment := Some commitment;
        zk_merkle_root := root; zk_circuit_result := None; zk_generated_at := now |}.

Definition generate_zkp (now : DateTime) (request : ZkpProofRequest)
    : result CircuitError ZkpProof :=
  match rq_privacy_level request with
  | Public => generate_public_proof now request
  | Private => generate_private_proof now request
  | ZeroKnowledge => generate_zk_proof now request
  end.

Definition verify_private_proof (proof : ZkpProof) (claim : list byte) : bool :=
  let committed :=
    match zk_blinding_nonce proof, zk_commitment proof with
    | Some nonce, Some commitment_hash => bool_decide (commit claim nonce = commitment_hash)
    | _, _ => true
    end in
  if negb committed then false
  else
    match zk_proof_data proof with
    | MerkleInclusion mp => verify_merkle_proof mp
    | Commitment _ => true
    | other => verify_proof other claim
    end.

Definition verify_zk_proof (proof : ZkpProof) : bool :=
  match zk_proof_data proof with
  | MerkleInclusion mp => verify_merkle_proof mp
  | Commitment _ => true
  | _ => false
  end.

Definition verify_zkp (proof : ZkpProof) (claim : list byte) : bool :=
  match zk_privacy_level proof with
  | Public => verify_proof (zk_proof_data proof) claim
  | Private => verify_private_proof proof claim
  | ZeroKnowledge => verify_zk_proof proof
  end.

(** [proof.circuit_result = Some(result)] *)
Definition set_circuit_result (r : CircuitVerificationResult) (p : ZkpProof) : ZkpProof :=
  {| zk_privacy_level := zk_privacy_level p; zk_proof_data := zk_proof_data p;
     zk_blinding_nonce := zk_blinding_nonce p; zk_commitment := zk_commitment p;
     zk_merkle_root := zk_merkle_root p; zk_circuit_result := Some r;
     zk_generated_at := zk_generated_at p |}.

Definition generate_zkp_with_circuit `{!HashIter N} (now : DateTime) (request : ZkpProofRequest)
    (registry : CircuitRegistry) : result CircuitError ZkpProof :=
  proof ← generate_zkp now request;
  match rq_circuit_name request with
  | None => Ok proof
  | Some circuit_name =>
    let witness := default [] (rq_witness request) in
    let public_inputs := default [] (rq_public_inputs request) in
    satisfied ← verify_with_circuit circuit_name witness public_inputs registry;
    circuit ← get_circuit circuit_name registry;
    Ok (set_circuit_result
          {| cv_circuit_name := circuit_name; cv_satisfied := satisfied;
             cv_constraints_checked :=
               match circuit with Some c => length (ir_constraints (cc_ir c)) | None => 0 end |}
          proof)
  end.

End zkp.

(** ** What the proofs of the semantic store show

    Merkle trees: every level is half the one below, so the loops end after
    [log2_up n] rounds; a generated proof verifies; a proof of that length that verifies
    is of a member, or exhibits a collision of the digest.  The privacy levels: what is
    generated verifies, and what verifies for another claim exhibits a collision. *)

(** Let [lia] see through division by constants. *)
Ltac Zify.zify_post_hook ::= Z.to_euclidean_division_equations.

(** ** Comparison *)

Lemma diff_zero (l : list (byte * byte)) (d : N) :
  foldl (λ diff '(x, y), N.lor diff (N.lxor (Byte.to_N x) (Byte.to_N y))) d l = 0%N ↔
  d = 0%N ∧ Forall (λ '(x, y), x = y) l.
Proof.
  revert d. induction l as [|[x y] l IH]; intros d; cbn.
  { split; [by intros ->|by intros [-> _]]. }
  rewrite IH, N.lor_eq_0_iff, N.lxor_eq_0_iff, Forall_cons. split.
  - intros [[-> Hxy] ?]. split_and!; [done| |done].
    apply (f_equal Byte.of_N) in Hxy. rewrite !Byte.of_to_N in Hxy. by injection Hxy.
  - by intros (-> & -> & ?).
Qed.

Lemma Forall_zip_eq (a b : list byte) :
  length a = length b → Forall (λ '(x, y), x = y) (zip a b) → a = b.
Proof.
  revert b. induction a as [|x a IH]; intros [|y b] Hl; cbn; try done.
  intros [-> Hf]%Forall_cons. f_equal. apply IH; [by injection Hl|done].
Qed.

(** The comparison in constant time is equality. *)
Lemma constant_time_eq_iff (a b : list byte) : constant_time_eq a b = true ↔ a = b.
Proof.
  unfold constant_time_eq. destruct (Nat.eqb_spec (length a) (length b)) as [Hl|Hl]; cbn.
  - rewrite N.eqb_eq, diff_zero. split.
    + intros [_ Hf]. by apply Forall_zip_eq.
    + intros ->. split; [done|]. clear. induction b; cbn; by constructor.
  - split; [done|]. by intros ->.
Qed.

Lemma constant_time_eq_hash (a b : hash32) : constant_time_eq a b = true ↔ a = b.
Proof. rewrite constant_time_eq_iff. split; [apply vec_to_list_inj2|by intros ->]. Qed.

Section trees.
Context {SH : Sha256}.

Lemma hash_pair_eq_or_collision a b c d :
  hash_pair a b = hash_pair c d → (a = c ∧ b = d) ∨ sha256_collision.
Proof.
  intros [Heq|?]%sha256_eq_or_collision; [|by right]. left.
  apply app_inj_1 in Heq as [??]; [|by rewrite !length_vec_to_list].
  split; by apply vec_to_list_inj2.
Qed.

(** ** Levels *)

Lemma parents_app (l k : list hash32) :
  (2 | length l) → parents (l ++ k) = parents l ++ parents k.
Proof.
  intros [n Hn]. revert l Hn. induction n as [|n IH]; intros l Hn.
  - by destruct l.
  - destruct l as [|a [|b l]]; [done|cbn in Hn; lia|]. cbn. f_equal. apply IH. cbn in Hn. lia.
Qed.

Lemma length_parents (l : list hash32) : length (parents l) = length l / 2.
Proof.
  cut (∀ n, length l ≤ n → length (parents l) = length l / 2)%nat; [by eauto|].
  intros n. revert l. induction n as [|n IH]; intros [|a [|b l]] Hn; try done; cbn in Hn; [lia|].
  cbn [parents length]. rewrite IH by lia.
  replace (S (S (length l))) with (length l + 1 * 2)%nat by lia. rewrite Nat.div_add by lia. lia.
Qed.

(** The parent of a pair. *)
Lemma lookup_parents (l : list hash32) (i : nat) :
  parents l !! i = (a ← l !! (2 * i)%nat; b ← l !! (2 * i + 1)%nat; Some (hash_pair a b)).
Proof.
  revert l. induction i as [|i IH]; intros l.
  - by destruct l as [|a [|b l]].
  - replace (2 * S i)%nat with (S (S (2 * i))) by lia.
    destruct l as [|a [|b l]]; [done..|]. apply IH.
Qed.

Lemma length_pad (l : list hash32) : length (pad l) = (2 * ((length l + 1) / 2))%nat.
Proof.
  unfold pad. destruct (Nat.eqb_spec (length l mod 2) 0) as [He|He]; cbn [negb]; [lia|].
  destruct (last l) as [h|] eqn:Hl.
  - rewrite length_app. cbn [length]. lia.
  - by apply last_None in Hl as ->.
Qed.

Lemma lookup_pad (l : list hash32) (i : nat) :
  (i < length l)%nat → pad l !! i = l !! i.
Proof.
  intros Hi. unfold pad. case_match; [|done]. case_match; [|done]. by apply lookup_app_l.
Qed.

(** Nothing new in a padded level. *)
Lemma elem_of_pad (l : list hash32) h : h ∈ pad l → h ∈ l.
Proof.
  unfold pad. case_match; [|done]. destruct (last l) as [x|] eqn:Hl; [|done].
  rewrite elem_of_app, list_elem_of_singleton. intros [?| ->]; [done|].
  apply last_Some in Hl as [l' ->]. set_solver.
Qed.

(** The level above. *)
Definition above (l : list hash32) : list hash32 := parents (pad l).

Lemma length_above l : length (above l) = (length l + 1) / 2.
Proof. unfold above. rewrite length_parents, length_pad. lia. Qed.

Lemma above_shorter l : (1 < length l)%nat → (0 < length (above l) < length l)%nat.
Proof.
  intros Hl. rewrite length_above. lia.
Qed.

Lemma log2_up_above l :
  (1 < length l)%nat → Nat.log2_up (length l) = S (Nat.log2_up (length (above l))).
Proof.
  intros Hl. rewrite length_above.
  assert (length l = 2 * ((length l + 1) / 2) ∨
          length l = Nat.pred (2 * ((length l + 1) / 2)))%nat as Hd by lia.
  revert Hd. generalize ((length l + 1) / 2)%nat. intros h Hd.
  rewrite <- (Nat.log2_up_double h) by lia. destruct Hd as [-> | Hd]; [done|].
  rewrite (Nat.log2_up_eqn (length l)), (Nat.log2_up_eqn (2 * h)), Hd by lia. f_equal.
  replace (Nat.pred (2 * h)) with (2 * Nat.pred h + 1)%nat by lia.
  replace (Nat.pred (2 * Nat.pred h + 1)) with (2 * Nat.pred h)%nat by lia.
  rewrite Nat.log2_double, Nat.log2_succ_double by lia. done.
Qed.

(** ** Rounds *)

(** One more unit of fuel changes nothing once the loop has ended. *)
Lemma root_loop_rounds fuel l :
  l ≠ [] → (Nat.log2_up (length l) ≤ fuel)%nat → ∃ r, root_loop fuel l = [r].
Proof.
  revert l. induction fuel as [|fuel IH]; intros l Hne Hf.
  - destruct l as [|r [|r' l]]; [done|by exists r|].
    pose proof (Nat.log2_up_pos (length (r :: r' :: l)) ltac:(cbn; lia)). cbn [length] in *. lia.
  - cbn [root_loop]. destruct (Nat.ltb_spec 1 (length l)) as [Hl|Hl].
    + fold (above l). apply IH.
      * pose proof (above_shorter l Hl) as Hs. intros Heq. rewrite Heq in Hs. cbn in Hs. lia.
      * rewrite log2_up_above in Hf by done. lia.
    + destruct l as [|r [|? l]]; [done|by exists r|cbn in *; lia].
Qed.

Lemma root_loop_step fuel l :
  (1 < length l)%nat → root_loop (S fuel) l = root_loop fuel (above l).
Proof. intros Hl. cbn [root_loop]. by destruct (Nat.ltb_spec 1 (length l)); [|lia]. Qed.

Lemma root_loop_singleton fuel r : root_loop fuel [r] = [r].
Proof. by destruct fuel. Qed.

(** The fuel does not matter once there is enough. *)
Lemma root_loop_enough fuel fuel' l :
  (Nat.log2_up (length l) ≤ fuel)%nat → (Nat.log2_up (length l) ≤ fuel')%nat →
  root_loop fuel l = root_loop fuel' l.
Proof.
  revert fuel' l. induction fuel as [|fuel IH]; intros fuel' l Hf Hf'.
  - destruct l as [|r [|r' l]]; [by destruct fuel'|by rewrite !root_loop_singleton|].
    pose proof (Nat.log2_up_pos (length (r :: r' :: l)) ltac:(cbn; lia)). lia.
  - destruct (decide (1 < length l)%nat) as [Hl|Hl].
    + rewrite (log2_up_above l) in Hf, Hf' by done. destruct fuel' as [|fuel']; [lia|].
      rewrite !root_loop_step by done. apply IH; lia.
    + destruct l as [|r [|? l]]; [by destruct fuel'|by rewrite !root_loop_singleton|cbn in *; lia].
Qed.

Lemma log2_up_le_length n : (Nat.log2_up n ≤ n)%nat.
Proof. apply Nat.log2_up_le_lin. lia. Qed.

(** The root of a tree of hashed leaves. *)
Definition root_of (l : list hash32) : hash32 := default zero_hash (head (root_loop (length l) l)).

Lemma merkle_root_of leaves : leaves ≠ [] → merkle_root leaves = root_of (hash <$> leaves).
Proof. intros Hne. unfold merkle_root, root_of. by rewrite decide_False, length_fmap by done. Qed.

Lemma root_of_above l : (1 < length l)%nat → root_of l = root_of (above l).
Proof.
  intros Hl. unfold root_of. pose proof (above_shorter l Hl).
  rewrite (root_loop_enough (length l) (S (length (above l)))).
  - by rewrite root_loop_step.
  - apply log2_up_le_length.
  - rewrite log2_up_above by done. pose proof (log2_up_le_length (length (above l))). lia.
Qed.

(** Induction on the levels of a tree. *)
Lemma levels_ind (P : list hash32 → Prop) :
  (∀ r, P [r]) → (∀ l, (1 < length l)%nat → P (above l) → P l) → ∀ l, l ≠ [] → P l.
Proof.
  intros Hone Habove l. induction l as [l IH] using (induction_ltof1 _ length). intros Hne.
  destruct (decide (1 < length l)%nat) as [Hl|Hl].
  - pose proof (above_shorter l Hl) as Hs. apply Habove; [done|]. apply IH; [red; lia|].
    intros Heq. rewrite Heq in Hs. cbn in Hs. lia.
  - destruct l as [|r [|? l]]; [done|done|cbn in *; lia].
Qed.

Lemma root_of_singleton r : root_of [r] = r.
Proof. done. Qed.

(** ** Climbing *)

(** The element the loop adds at a level. *)
Lemma climb_step (l : list hash32) i h :
  (1 < length l)%nat → l !! i = Some h → ∃ e,
    pad l !! (if (i mod 2 =? 0)%nat then (i + 1)%nat else (i - 1)%nat) = Some (pe_hash e) ∧
    pe_is_left e = negb (i mod 2 =? 0)%nat ∧ above l !! (i / 2)%nat = Some (fold_element h e).
Proof.
  intros Hl Hi. pose proof (lookup_lt_Some _ _ _ Hi) as Hlt. pose proof (length_pad l) as Hp.
  rewrite <- (lookup_pad l i Hlt) in Hi. unfold above. rewrite lookup_parents.
  destruct (Nat.eqb_spec (i mod 2) 0) as [He|He].
  - destruct (lookup_lt_is_Some_2 (pad l) (i + 1)) as [s Hs]; [lia|].
    exists {| pe_hash := s; pe_is_left := false |}. split_and!; [done..|].
    replace (2 * (i / 2))%nat with i by lia. rewrite Hi. cbn. by rewrite Hs.
  - destruct (lookup_lt_is_Some_2 (pad l) (i - 1)) as [s Hs]; [lia|].
    exists {| pe_hash := s; pe_is_left := true |}. split_and!; [done..|].
    replace (2 * (i / 2) + 1)%nat with i by lia.
    replace (2 * (i / 2))%nat with (i - 1)%nat by lia. rewrite Hs. cbn. by rewrite Hi.
Qed.

Lemma proof_loop_step fuel l i path :
  (1 < length l)%nat →
  proof_loop (S fuel) l i path =
  h ← pad l !! (if (i mod 2 =? 0)%nat then (i + 1)%nat else (i - 1)%nat);
  proof_loop fuel (above l) (i / 2)
    (path ++ [{| pe_hash := h; pe_is_left := negb (i mod 2 =? 0)%nat |}]).
Proof. intros Hl. cbn [proof_loop]. by destruct (Nat.ltb_spec 1 (length l)); [|lia]. Qed.

(** The loop climbs from any leaf to the root. *)
Lemma proof_loop_climbs l :
  l ≠ [] → ∀ i h, l !! i = Some h → ∃ elems,
    (∀ fuel path, (Nat.log2_up (length l) ≤ fuel)%nat →
       proof_loop fuel l i path = Some (path ++ elems)) ∧
    length elems = Nat.log2_up (length l) ∧ foldl fold_element h elems = root_of l.
Proof.
  revert l. refine (levels_ind _ _ _).
  - intros r i h Hi. exists []. assert (r = h) as -> by (destruct i; cbn in *; by simplify_eq).
    split_and!; [|done..]. intros fuel path _. rewrite app_nil_r. by destruct fuel.
  - intros l Hl IH i h Hi. destruct (climb_step l i h Hl Hi) as ([s b] & Hs & Hb & Ha).
    destruct (IH _ _ Ha) as (elems & Hloop & Hlen & Hfold).
    exists ({| pe_hash := s; pe_is_left := b |} :: elems). rewrite log2_up_above by done.
    split_and!.
    + intros [|fuel] path Hf; [lia|]. rewrite proof_loop_step by done. rewrite Hs. cbn [mbind option_bind].
      cbn in Hb. subst b. rewrite Hloop by lia. by rewrite <- app_assoc.
    + cbn. by rewrite Hlen.
    + cbn. by rewrite Hfold, <- root_of_above.
Qed.

Lemma elem_of_parents (l : list hash32) h :
  h ∈ parents l → ∃ a b, a ∈ l ∧ b ∈ l ∧ h = hash_pair a b.
Proof.
  intros [i Hi]%list_elem_of_lookup. rewrite lookup_parents in Hi.
  apply bind_Some in Hi as (a & Ha & (b & Hb & [= <-])%bind_Some).
  exists a, b. split_and!; [by eapply list_elem_of_lookup_2..|done].
Qed.

(** A path of the height of the tree that ends in its root starts from one of its
    leaves. *)
Lemma climb_sound l :
  l ≠ [] → ∀ path h, length path = Nat.log2_up (length l) →
  foldl fold_element h path = root_of l → h ∈ l ∨ sha256_collision.
Proof.
  revert l. refine (levels_ind _ _ _).
  - intros r [|e path] h Hlen; [|done]. cbn. intros ->. left. by rewrite list_elem_of_singleton.
  - intros l Hl IH path h Hlen Hfold. rewrite log2_up_above in Hlen by done.
    destruct path as [|e path]; [done|]. injection Hlen as Hlen. cbn in Hfold.
    rewrite root_of_above in Hfold by done.
    destruct (IH _ _ Hlen Hfold) as [(a & b & Ha & Hb & Heq)%elem_of_parents|]; [|by right].
    apply elem_of_pad in Ha, Hb. unfold fold_element in Heq.
    destruct (pe_is_left e); apply hash_pair_eq_or_collision in Heq as [[??]|]; subst; auto.
Qed.

(** ** Proofs of inclusion *)

Lemma merkle_proof_Some leaves i leaf :
  leaves !! i = Some leaf → ∃ p, merkle_proof leaves i = Some p ∧ mk_leaf p = leaf ∧
    mk_root p = merkle_root leaves ∧ length (mk_path p) = Nat.log2_up (length leaves) ∧
    foldl fold_element (hash leaf) (mk_path p) = mk_root p.
Proof.
  intros Hi. assert (leaves ≠ []) as Hne by (intros ->; by rewrite lookup_nil in Hi).
  destruct (proof_loop_climbs (hash <$> leaves)) with (i := i) (h := hash leaf)
    as (elems & Hloop & Hlen & Hfold).
  { by intros ?%fmap_nil_inv. }
  { by rewrite list_lookup_fmap, Hi. }
  rewrite length_fmap in Hlen, Hloop.
  unfold merkle_proof. rewrite Hi, Hloop by apply log2_up_le_length. cbn.
  eexists. split_and!; [done..|]. cbn. by rewrite Hfold, merkle_root_of.
Qed.

Lemma merkle_proof_ok leaves i :
  match merkle_proof leaves i with
  | Some p => verify_merkle_proof p = true ∧ mk_root p = merkle_root leaves
  | None => (length leaves ≤ i)%nat
  end.
Proof.
  destruct (leaves !! i) as [leaf|] eqn:Hi.
  - destruct (merkle_proof_Some leaves i leaf Hi) as (p & -> & Hl & Hr & _ & Hf). split; [|done].
    unfold verify_merkle_proof. by rewrite constant_time_eq_hash, Hl.
  - unfold merkle_proof. rewrite Hi. by apply lookup_ge_None.
Qed.

(** C28: Merkle proofs are complete and the loops that build them end: for an index in
    range a proof is produced, of that leaf and under the root of the tree, its path has
    one element per level, [log2_up] of the number of leaves, and it verifies; for an
    index out of range there is none. *)
Theorem merkle_proof_complete (leaves : list (list byte)) (i : nat) :
  match leaves !! i with
  | Some leaf => ∃ p, merkle_proof leaves i = Some p ∧ mk_leaf p = leaf ∧
      mk_root p = merkle_root leaves ∧ length (mk_path p) = Nat.log2_up (length leaves) ∧
      verify_merkle_proof p = true
  | None => merkle_proof leaves i = None
  end.
Proof.
  destruct (leaves !! i) as [leaf|] eqn:Hi.
  - destruct (merkle_proof_Some leaves i leaf Hi) as (p & Hp & Hl & Hr & Hlen & Hf).
    exists p. split_and!; [done..|]. unfold verify_merkle_proof. by rewrite constant_time_eq_hash, Hl.
  - unfold merkle_proof. by rewrite Hi.
Qed.


(** Inner nodes pass for members: leaves and inner nodes are hashed alike, so the two
    digests below the root of a tree of two leaves, put together, are accepted with an
    empty path as a member of the set. *)
Theorem merkle_node_accepted (a b : list byte) :
  let forged := {| mk_leaf := hash a ++ hash b; mk_path := []; mk_root := merkle_root [a; b] |} in
  verify_merkle_proof forged = true ∧
  (length a ≠ 64 → length b ≠ 64 → mk_leaf forged ∉ [a; b]).
Proof.
  cbn. split.
  - unfold verify_merkle_proof. by apply constant_time_eq_hash.
  - intros Ha Hb [H|[H|[]%elem_of_nil]%elem_of_cons]%elem_of_cons; [apply Ha|apply Hb];
      by rewrite <- H, length_app, !length_vec_to_list.
Qed.

(** A commitment does not fix its claim: the claim and the secret are hashed one after
    the other without a boundary, so part of the secret can be moved into the claim. *)
Theorem commitment_not_binding (claim extra secret : list byte) :
  commit claim (extra ++ secret) = commit (claim ++ extra) secret ∧
  verify_proof (Reveal (commit claim (extra ++ secret)) secret) (claim ++ extra) = true.
Proof.
  unfold commit. rewrite app_assoc. split; [done|]. cbn. by apply constant_time_eq_hash.
Qed.

End trees.

(** ** Privacy levels *)

Section bridge.
Context {CH : Chrono} {SH : Sha256}.

(** What the membership part of a proof can be. *)
Lemma membership_proof_cases leaves commitment rq :
  (∀ l, length (leaves l) = length l) →
  match membership_proof leaves commitment rq with
  | Ok (Commitment c, None) => c = commitment
  | Ok (MerkleInclusion mp, Some root) => verify_merkle_proof mp = true ∧ mk_root mp = root
  | Ok _ => False
  | Err _ => ∃ set i, rq_membership_set rq = Some set ∧ rq_membership_index rq = Some i ∧
      (length set ≤ i)%nat
  end.
Proof.
  intros Hlen. unfold membership_proof.
  destruct (rq_membership_set rq) as [set|], (rq_membership_index rq) as [i|]; try done.
  pose proof (merkle_proof_ok (leaves set) i) as Hok.
  destruct (merkle_proof (leaves set) i) as [mp|] eqn:Hmp; [done|].
  exists set, i. split_and!; [done..|]. by rewrite <- (Hlen set).
Qed.

(** Every proof that is generated verifies for its claim, at the privacy level that
    was asked for; none is generated exactly when a membership proof at a private level is
    asked for an index that is out of range.  (Membership is that of the leaf at the
    index: the claim itself need not be in the set.) *)
Theorem generated_proof_verifies (now : DateTime) (rq : ZkpProofRequest) :
  match generate_zkp now rq with
  | Ok p => zk_privacy_level p = rq_privacy_level rq ∧ verify_zkp p (rq_claim rq) = true
  | Err _ => rq_privacy_level rq ≠ Public ∧ ∃ set i,
      rq_membership_set rq = Some set ∧ rq_membership_index rq = Some i ∧ (length set ≤ i)%nat
  end.
Proof.
  unfold generate_zkp. destruct (rq_privacy_level rq) eqn:Hlevel.
  - split; [done|]. by apply constant_time_eq_hash.
  - unfold generate_private_proof.
    set (c := commit (rq_claim rq) (generate_nonce (rq_claim rq))).
    pose proof (membership_proof_cases id c rq (λ _, eq_refl)) as Hm.
    destruct (membership_proof id c rq) as [[data root]|e]; cbn; [|by split].
    split; [done|]. unfold verify_zkp, verify_private_proof. cbn.
    rewrite bool_decide_true by done. cbn. destruct data, root; naive_solver.
  - unfold generate_zk_proof.
    set (c := commit (rq_claim rq) (generate_nonce (rq_claim rq))).
    pose proof (membership_proof_cases (fmap (blind (generate_nonce (rq_claim rq)))) c rq) as Hm.
    destruct (membership_proof _ c rq) as [[data root]|e]; cbn.
    + split; [done|]. unfold verify_zkp, verify_zk_proof. cbn.
      destruct data, root; naive_solver eauto using length_fmap.
    + split; [done|]. apply Hm. intros l. apply length_fmap.
Qed.

(** A public or a private proof holds for the claim it was made for and no other: if it
    verifies for a claim, that is the claim, or two inputs with the same digest are
    exhibited.  (A zero-knowledge proof verifies for any claim.) *)
Theorem proof_binds_claim (now : DateTime) (rq : ZkpProofRequest) (p : ZkpProof)
    (claim : list byte) :
  generate_zkp now rq = Ok p → rq_privacy_level rq ≠ ZeroKnowledge →
  verify_zkp p claim = true → claim = rq_claim rq ∨ sha256_collision.
Proof.
  unfold generate_zkp. destruct (rq_privacy_level rq); [| |done].
  - intros [= <-] _. cbn. rewrite constant_time_eq_hash.
    intros [->|]%sha256_eq_or_collision; auto.
  - unfold generate_private_proof. intros ([data root] & _ & [= <-])%result_bind_Ok _.
    unfold verify_zkp, verify_private_proof. cbn. case_bool_decide as Hc; [|done]. intros _.
    apply sha256_eq_or_collision in Hc as [Hc|]; [|by right].
    left. by apply app_inj_2 in Hc as [-> _].
Qed.

End bridge.
