(* ===== verification/VerificationKeys.v ===== *)
(** * Verification keys

    Models [src/rust-core/verisim-semantic/src/verification_keys.rs]: the keys a proof of a
    circuit is checked with, their rotation, and their exchange between instances.  Each
    method holds the lock of the map throughout and nothing panics under it, so a call is one
    step and the lock is never poisoned.  Instants are drawn outside the model. *)

From S2P Require Import Prelude Circuit.
From stdpp Require Import strings.
From Stdlib Require Import Strings.Byte.
Local Open Scope Z_scope.

Section keys.
Context {CH : Chrono} {CT : ChronoText} {SH : Sha256} {HS : HashIter string}.

(** ** Data *)

Record VerificationKeyEntry := {
  ve_circuit_name : string; ve_active_key : list byte; ve_version : Z; ve_fingerprint : string;
  ve_previous_key : option (list byte); ve_created_at : string;
}.

Record ExportedKey := {
  ek_circuit_name : string; ek_key : list byte; ek_version : Z; ek_fingerprint : string;
}.

Record KeyExportBundle := { kb_source_instance : string; kb_keys : list ExportedKey }.

Record VerificationKeyStore := {
  vk_keys : gmap string VerificationKeyEntry; vk_instance_id : string;
}.

(** ** One entry *)

Definition key_fingerprint (key : list byte) : string := hex_string (sha256 key).

Definition VerificationKeyEntry_new (now : DateTime) (circuit_name : string) (key : list byte)
    : VerificationKeyEntry :=
  {| ve_circuit_name := circuit_name; ve_active_key := key; ve_version := 1;
     ve_fingerprint := key_fingerprint key; ve_previous_key := None; ve_created_at := rfc3339 now |}.

Definition rotate (now : DateTime) (new_key : list byte) (e : VerificationKeyEntry)
    : VerificationKeyEntry :=
  {| ve_circuit_name := ve_circuit_name e; ve_active_key := new_key;
     ve_version := u64_add (ve_version e) 1; ve_fingerprint := key_fingerprint new_key;
     ve_previous_key := Some (ve_active_key e); ve_created_at := rfc3339 now |}.

Definition matches (key : list byte) (e : VerificationKeyEntry) : bool :=
  bool_decide (ve_active_key e = key) ||
  match ve_previous_key e with Some prev => bool_decide (prev = key) | None => false end.

(** ** The store *)

Definition VerificationKeyStore_new (instance_id : string) : VerificationKeyStore :=
  {| vk_keys := ∅; vk_instance_id := instance_id |}.

Definition with_keys (keys : gmap string VerificationKeyEntry) (s : VerificationKeyStore)
    : VerificationKeyStore := {| vk_keys := keys; vk_instance_id := vk_instance_id s |}.

Definition store_key (now : DateTime) (circuit_name : string) (key : list byte)
    (s : VerificationKeyStore) : result CircuitError () * VerificationKeyStore :=
  let entry := match vk_keys s !! circuit_name with
               | Some entry => rotate now key entry
               | None => VerificationKeyEntry_new now circuit_name key
               end in
  (Ok (), with_keys (<[circuit_name := entry]> (vk_keys s)) s).

Definition get_key (circuit_name : string) (s : VerificationKeyStore)
    : result CircuitError (option (list byte)) := Ok (ve_active_key <$> vk_keys s !! circuit_name).

Definition get_entry (circuit_name : string) (s : VerificationKeyStore)
    : result CircuitError (option VerificationKeyEntry) := Ok (vk_keys s !! circuit_name).

Definition exported_key (entry : VerificationKeyEntry) : ExportedKey :=
  {| ek_circuit_name := ve_circuit_name entry; ek_key := ve_active_key entry;
     ek_version := ve_version entry; ek_fingerprint := ve_fingerprint entry |}.

Definition export_keys (s : VerificationKeyStore) : result CircuitError KeyExportBundle :=
  Ok {| kb_source_instance := vk_instance_id s;
        kb_keys := (exported_key ∘ snd) <$> iter_map (vk_keys s) |}.

Definition federated_name (source circuit_name : string) : string := source +:+ ":" +:+ circuit_name.

(** One turn of the loop, at an instant. *)
Definition import_key (source : string) (now : DateTime) (exported : ExportedKey)
    (keys : gmap string VerificationKeyEntry) (imported : nat)
    : gmap string VerificationKeyEntry * nat :=
  let name := federated_name source (ek_circuit_name exported) in
  match keys !! name with
  | Some entry =>
    if ve_version entry <? ek_version exported
    then (<[name := rotate now (ek_key exported) entry]> keys, S imported)
    else (keys, imported)
  | None =>
    (<[name := VerificationKeyEntry_new now (ek_circuit_name exported) (ek_key exported)]> keys,
     S imported)
  end.

Fixpoint import_loop (source : string) (now : nat → DateTime) (exported : list ExportedKey)
    (keys : gmap string VerificationKeyEntry) (imported : nat)
    : gmap string VerificationKeyEntry * nat :=
  match exported with
  | [] => (keys, imported)
  | x :: exported =>
    let '(keys, imported) := import_key source (now 0%nat) x keys imported in
    import_loop source (now ∘ S) exported keys imported
  end.

(** The instants of an import: one for each key of the bundle. *)
Definition import_keys (now : nat → DateTime) (bundle : KeyExportBundle) (s : VerificationKeyStore)
    : result CircuitError nat * VerificationKeyStore :=
  let '(keys, imported) := import_loop (kb_source_instance bundle) now (kb_keys bundle) (vk_keys s) 0 in
  (Ok imported, with_keys keys s).

Definition list_circuits (s : VerificationKeyStore) : result CircuitError (list string) :=
  Ok (fst <$> iter_map (vk_keys s)).

(** ** Rotation *)

Definition stored_call : Type := DateTime * string * list byte.

Definition store_call (s : VerificationKeyStore) (c : stored_call) : VerificationKeyStore :=
  (store_key c.1.1 c.1.2 c.2 s).2.

Definition store_all (calls : list stored_call) (instance_id : string) : VerificationKeyStore :=
  foldl store_call (VerificationKeyStore_new instance_id) calls.

(** The keys that were stored for a circuit, newest first. *)
Definition keys_of (name : string) (calls : list stored_call) : list (list byte) :=
  reverse (snd <$> filter (λ c, c.1.2 = name) calls).

Definition entry_of (name : string) (history : list (list byte)) (o : option VerificationKeyEntry)
    : Prop :=
  match history with
  | [] => o = None
  | key :: older =>
    ∃ e, o = Some e ∧ ve_circuit_name e = name ∧ ve_active_key e = key ∧
         ve_previous_key e = head older ∧ ve_version e = wrap 64 (zlength history) ∧
         ve_fingerprint e = key_fingerprint key
  end.

Lemma keys_of_app name calls c :
  keys_of name (calls ++ [c]) = if decide (c.1.2 = name) then c.2 :: keys_of name calls
                                else keys_of name calls.
Proof.
  unfold keys_of. rewrite filter_app, fmap_app, reverse_app. cbn. by case_decide.
Qed.

Lemma store_all_app calls c instance_id :
  store_all (calls ++ [c]) instance_id = store_call (store_all calls instance_id) c.
Proof. unfold store_all. by rewrite foldl_app. Qed.

Lemma entry_of_rotate name history now key :
  ∀ o, entry_of name history o →
  entry_of name (key :: history)
    (Some match o with Some e => rotate now key e | None => VerificationKeyEntry_new now name key end).
Proof.
  intros o. destruct history as [|k older]; cbn [entry_of].
  - intros ->. by eexists.
  - intros (e & -> & Hn & Hk & Hp & Hv & Hf). eexists. split; [done|]. cbn. rewrite Hv, (u64_add_wraps _ 1).
    split_and!; try done; [by rewrite Hk|]. f_equal. unfold zlength. cbn. lia.
Qed.

Lemma entry_follows_calls calls instance_id name :
  entry_of name (keys_of name calls) (vk_keys (store_all calls instance_id) !! name).
Proof.
  induction calls as [|c calls IH] using rev_ind; [done|].
  rewrite keys_of_app, store_all_app. unfold store_call, store_key. cbn.
  case_decide as Hn.
  - subst name. rewrite lookup_insert_eq. by apply entry_of_rotate.
  - by rewrite lookup_insert_ne.
Qed.

Lemma matches_iff key e : matches key e = true ↔ key = ve_active_key e ∨ ve_previous_key e = Some key.
Proof.
  unfold matches. rewrite orb_true_iff, bool_decide_eq_true.
  destruct (ve_previous_key e) as [prev|]; [rewrite bool_decide_eq_true|]; naive_solver.
Qed.

(** The entry of a circuit after any keys were stored: the newest is active, the one before it
    is still accepted and no other is, and the version counts them. *)
Theorem rotation_keeps_two calls instance_id name :
  let s := store_all calls instance_id in
  match keys_of name calls with
  | [] => get_entry name s = Ok None ∧ get_key name s = Ok None
  | key :: older =>
    get_key name s = Ok (Some key) ∧
    ∃ e, get_entry name s = Ok (Some e) ∧ ve_version e = wrap 64 (zlength (key :: older)) ∧
         ve_fingerprint e = key_fingerprint key ∧
         ∀ k, matches k e = true ↔ k = key ∨ head older = Some k
  end.
Proof.
  cbn zeta. pose proof (entry_follows_calls calls instance_id name) as He. unfold get_key, get_entry.
  destruct (keys_of name calls) as [|key older]; cbn [entry_of] in He.
  - by rewrite He.
  - destruct He as (e & -> & Hn & Hk & Hp & Hv & Hf). split; [by rewrite <- Hk|].
    exists e. split_and!; try done. intros k. rewrite matches_iff, Hk, Hp. done.
Qed.

(** ** Exchange *)

Lemma federated_name_inj source : Inj eq eq (federated_name source).
Proof.
  intros a b H. unfold federated_name in H. apply (f_equal as_bytes) in H.
  rewrite !as_bytes_app in H. apply app_inv_head, app_inv_head in H. by apply as_bytes_inj.
Qed.

Definition names_of (xs : list ExportedKey) : list string := ek_circuit_name <$> xs.

Lemma import_key_fresh source now x keys n :
  keys !! federated_name source (ek_circuit_name x) = None →
  import_key source now x keys n =
    (<[federated_name source (ek_circuit_name x) :=
         VerificationKeyEntry_new now (ek_circuit_name x) (ek_key x)]> keys, S n).
Proof. intros H. unfold import_key. by rewrite H. Qed.

Lemma import_loop_fresh source xs : ∀ now keys n,
  NoDup (names_of xs) →
  (∀ c, c ∈ names_of xs → keys !! federated_name source c = None) →
  let r := import_loop source now xs keys n in
  r.2 = (n + length xs)%nat ∧
  (∀ x, x ∈ xs → ve_active_key <$> r.1 !! federated_name source (ek_circuit_name x) = Some (ek_key x)) ∧
  (∀ name, (∀ c, c ∈ names_of xs → name ≠ federated_name source c) → r.1 !! name = keys !! name).
Proof.
  induction xs as [|x xs IH]; intros now keys n Hnd Hfresh; cbn zeta.
  - split_and!; [cbn; lia|by intros ? ?%elem_of_nil|done].
  - apply NoDup_cons in Hnd as [Hx Hnd]. cbn [import_loop].
    rewrite import_key_fresh by (apply Hfresh; left).
    change (ek_circuit_name x ∉ names_of xs) in Hx. change (NoDup (names_of xs)) in Hnd.
    set (keys' := <[_ := _]> keys).
    destruct (IH (now ∘ S) keys' (S n) Hnd) as (Hn & Hin & Hout).
    { intros c Hc. unfold keys'. rewrite lookup_insert_ne; [apply Hfresh; by right|].
      intros E%federated_name_inj. congruence. }
    unfold keys' in *.
    split_and!.
    + rewrite Hn. cbn. lia.
    + intros y [->|Hy]%elem_of_cons; [|by apply Hin].
      rewrite Hout, lookup_insert_eq; [done|]. intros c Hc E%federated_name_inj. congruence.
    + intros name Hne. rewrite Hout, lookup_insert_ne; [done| |].
      * intros <-. by apply (Hne (ek_circuit_name x)); [left|].
      * intros c Hc. apply Hne. by right.
Qed.

Lemma circuit_names calls instance_id name e :
  vk_keys (store_all calls instance_id) !! name = Some e → ve_circuit_name e = name.
Proof.
  intros He. pose proof (entry_follows_calls calls instance_id name) as H.
  destruct (keys_of name calls); cbn [entry_of] in H; [congruence|].
  destruct H as (e' & He' & Hn & _). congruence.
Qed.

Lemma exported_names s :
  (∀ name e, vk_keys s !! name = Some e → ve_circuit_name e = name) →
  names_of ((exported_key ∘ snd) <$> iter_map (vk_keys s)) = fst <$> iter_map (vk_keys s).
Proof.
  intros Hn. unfold names_of. rewrite <- list_fmap_compose. apply list_fmap_ext.
  intros i [name e] Hi. cbn. apply list_elem_of_lookup_2, elem_of_iter_map in Hi. by apply Hn.
Qed.

(** C30: What an instance exports of the keys it was given, a peer that has none of them imports in
    full: each under the instance's name, and nothing else of the peer's changes. *)
Theorem export_import_roundtrip calls instance_id now s bundle r s' :
  (∀ c, vk_keys s !! federated_name instance_id c = None) →
  export_keys (store_all calls instance_id) = Ok bundle →
  import_keys now bundle s = (r, s') →
  r = Ok (size (vk_keys (store_all calls instance_id))) ∧
  (∀ c, get_key (federated_name instance_id c) s' = get_key c (store_all calls instance_id)) ∧
  (∀ name, (∀ c, name ≠ federated_name instance_id c) → get_entry name s' = get_entry name s).
Proof.
  intros Hfresh [= <-]. unfold import_keys, get_key, get_entry. cbn [kb_source_instance kb_keys].
  assert (vk_instance_id (store_all calls instance_id) = instance_id) as ->
    by (induction calls as [|c calls IH] using rev_ind; [done|by rewrite store_all_app]).
  set (a := store_all calls instance_id).
  pose proof (exported_names a (circuit_names calls instance_id)) as Hnames.
  pose proof (import_loop_fresh instance_id ((exported_key ∘ snd) <$> iter_map (vk_keys a)) now
                (vk_keys s) 0) as H.
  rewrite Hnames in H. specialize (H (NoDup_iter_map _) (λ c _, Hfresh c)).
  destruct (import_loop _ _ _ _ _) as [keys n]. cbn in H. destruct H as (-> & Hin & Hout).
  intros [= <- <-]. cbn. split_and!.
  - by rewrite length_fmap, length_iter_map.
  - intros c. f_equal. destruct (vk_keys a !! c) as [e|] eqn:He.
    + assert ((c, e) ∈ iter_map (vk_keys a)) as Hce by by apply elem_of_iter_map.
      rewrite <- (circuit_names _ _ _ _ He). cbn.
      apply (Hin (exported_key e)). apply list_elem_of_fmap. by exists (c, e).
    + rewrite Hout; [by rewrite Hfresh|]. intros c' ([c'' e] & -> & Hc)%list_elem_of_fmap ->%federated_name_inj.
      apply elem_of_iter_map in Hc. cbn in He. congruence.
  - intros name Hname. f_equal. apply Hout. done.
Qed.

(** A bundle whose version is ahead by two is newer when it comes again: importing it twice in
    a row replaces the previous key by the active one, and proofs made with the key of before
    the rotation are no longer accepted. *)
Theorem reimport_ends_transition now now' source x s e :
  let bundle := {| kb_source_instance := source; kb_keys := [x] |} in
  let name := federated_name source (ek_circuit_name x) in
  get_entry name s = Ok (Some e) →
  is_u64 (ek_version x) → 0 ≤ ve_version e → ve_version e + 1 < ek_version x →
  ve_active_key e ≠ ek_key x →
  let '(r1, s1) := import_keys now bundle s in
  let '(r2, s2) := import_keys now' bundle s1 in
  r1 = Ok 1%nat ∧ r2 = Ok 1%nat ∧ get_key name s1 = get_key name s2 ∧
  (matches (ve_active_key e) <$> vk_keys s1 !! name) = Some true ∧
  (matches (ve_active_key e) <$> vk_keys s2 !! name) = Some false.
Proof.
  cbn zeta. intros [= He] Hx Hv Hlt Hne. unfold import_keys, get_key. cbn.
  unfold import_key. rewrite He. rewrite (proj2 (Z.ltb_lt _ _)) by lia. cbn.
  rewrite lookup_insert_eq. cbn. rewrite u64_add_small by (unfold is_u64 in *; lia).
  rewrite (proj2 (Z.ltb_lt _ _)) by lia. cbn. rewrite !lookup_insert_eq. cbn.
  split_and!; try done; f_equal.
  - apply matches_iff. by right.
  - apply not_true_iff_false. rewrite matches_iff. cbn. naive_solver.
Qed.

(** A key that came from a peer is exported without the peer's name: an instance that also has
    a key of its own for the circuit exports both under one name. *)
Theorem relayed_key_collides now now' source x key instance_id :
  federated_name source (ek_circuit_name x) ≠ ek_circuit_name x →
  let s1 := (import_keys now {| kb_source_instance := source; kb_keys := [x] |}
               (VerificationKeyStore_new instance_id)).2 in
  let s2 := (store_key now' (ek_circuit_name x) key s1).2 in
  ∃ bundle y z, export_keys s2 = Ok bundle ∧ y ∈ kb_keys bundle ∧ z ∈ kb_keys bundle ∧
    ek_circuit_name y = ek_circuit_name z ∧ ek_key y = ek_key x ∧ ek_key z = key.
Proof.
  intros Hne. cbn zeta. set (name := federated_name source (ek_circuit_name x)) in *.
  set (far := VerificationKeyEntry_new (now 0%nat) (ek_circuit_name x) (ek_key x)).
  set (own := VerificationKeyEntry_new now' (ek_circuit_name x) key).
  eexists _, (exported_key far), (exported_key own). split; [done|].
  assert (∀ n e, vk_keys (store_key now' (ek_circuit_name x) key
      (with_keys {[name := far]} (VerificationKeyStore_new instance_id))).2 !! n = Some e →
    exported_key e ∈ (exported_key ∘ snd) <$> iter_map (vk_keys (store_key now' (ek_circuit_name x) key
      (with_keys {[name := far]} (VerificationKeyStore_new instance_id))).2)) as Hin.
  { intros n e He. apply list_elem_of_fmap. exists (n, e). split; [done|by apply elem_of_iter_map]. }
  split_and!; try done.
  - apply (Hin name). cbn. rewrite lookup_insert_ne by done. by rewrite lookup_singleton_eq.
  - apply (Hin (ek_circuit_name x)). cbn. rewrite lookup_singleton_ne by done.
    by rewrite lookup_insert_eq.
Qed.

End keys.
