(* ===== verification/ProofStore.v ===== *)
(** * Stored proofs, certificates and contracts

    Models the proofs of [src/rust-core/verisim-semantic/src/lib.rs], the certificates of
    [proven_bridge.rs] and the contracts of [sanctify_bridge.rs], which both become stored
    proofs.  CBOR and JSON are those of the [ciborium] and [serde_json] crates; the
    attestations they carry come from other programs. *)

From S2P Require Import Prelude Floats Modality Circuit Zkp.
From stdpp Require Import pretty.
From Stdlib Require Import Strings.Byte.
From Stdlib Require String.
Local Open Scope Z_scope.

(** ** Stored proofs *)

(** [ciborium]: what it reads and writes, or the text of its error. *)
Class Ciborium := {
  proof_data_from_cbor : list byte → result string VerifiableProofData;
  proof_blob_to_cbor : ProofBlob → result string (list byte);
  proof_blob_from_cbor : list byte → result string ProofBlob;
}.

Section blobs.
Context {CH : Chrono} {CT : ChronoText} {SH : Sha256} {CB : Ciborium}.

Definition ProofBlob_new (now : DateTime) (claim : string) (proof_type : ProofType) (data : list byte)
    : ProofBlob :=
  {| pb_claim := claim; pb_proof_type := proof_type; pb_data := data; pb_timestamp := rfc3339 now |}.

Definition to_cbor (p : ProofBlob) : result SemanticError (list byte) :=
  map_err SemanticSerializationError (proof_blob_to_cbor p).

Definition from_cbor (data : list byte) : result SemanticError ProofBlob :=
  map_err SemanticSerializationError (proof_blob_from_cbor data).

Definition ProofBlob_verify (p : ProofBlob) : result SemanticError bool :=
  match proof_data_from_cbor (pb_data p) with
  | Ok data => Ok (verify_proof data (as_bytes (pb_claim p)))
  | Err _ =>
    match pb_proof_type p with
    | Attestation => Ok true
    | ConstraintSatisfaction => Ok (bool_decide (pb_data p ≠ []))
    | Derivation | TypeAssignment => Ok (bool_decide (pb_data p ≠ []))
    end
  end.

Definition store_proof (p : ProofBlob) (s : InMemorySemanticStore)
    : result SemanticError () * InMemorySemanticStore :=
  (Ok (), {| sem_types := sem_types s; sem_annotations := sem_annotations s;
             sem_proofs := <[pb_claim p := default [] (sem_proofs s !! pb_claim p) ++ [p]]> (sem_proofs s) |}).

Definition get_proofs (claim : string) (s : InMemorySemanticStore) : result SemanticError (list ProofBlob) :=
  Ok (default [] (sem_proofs s !! claim)).

(** [p.verify().unwrap_or(false)] *)
Definition counts_as_valid (p : ProofBlob) : bool :=
  match ProofBlob_verify p with Ok b => b | Err _ => false end.

Definition verify_proofs (claim : string) (s : InMemorySemanticStore) : result SemanticError (nat * nat) :=
  proofs ← get_proofs claim s;
  Ok (length (filter (λ p, counts_as_valid p = true) proofs), length proofs).

End blobs.

(** ** Certificates of the proven library *)

Inductive ProverKind := Z3 | Lean | Coq | Agda | Idris2 | CustomProver (name : string).

Record ProvenCertificate := {
  pc_version : string; pc_prover : ProverKind; pc_statement : string; pc_proof_term : option string;
  pc_valid : bool; pc_message : option string; pc_timestamp : string; pc_signature : string;
}.

(** [serde_json] and [ciborium] on certificates. *)
Class CertificateCodec := {
  certificate_to_json : ProvenCertificate → result string (list byte);
  certificate_from_json : list byte → result string ProvenCertificate;
  certificate_from_cbor : list byte → result string ProvenCertificate;
}.

Definition prover_to_string (p : ProverKind) : string :=
  match p with
  | Z3 => "z3"
  | Lean => "lean"
  | Coq => "coq"
  | Agda => "agda"
  | Idris2 => "idris2"
  | CustomProver name => "custom:" +:+ name
  end.

Section certificates.
Context {CH : Chrono} {CT : ChronoText} {SH : Sha256} {CB : Ciborium} {CC : CertificateCodec}.

(** What is hashed. *)
Definition signed_text (prover : ProverKind) (statement : string) (proof_term : option string) : string :=
  prover_to_string prover +:+ ":" +:+ statement +:+ ":" +:+ default "" proof_term.

Definition compute_signature (prover : ProverKind) (statement : string) (proof_term : option string)
    : string := "sha256:" +:+ hex_string (sha256 (as_bytes (signed_text prover statement proof_term))).

Definition parse_proven_certificate (bytes : list byte) : result SemanticError ProvenCertificate :=
  map_err (λ e, SemanticSerializationError ("Failed to parse proven certificate: " +:+ e))
    (certificate_from_json bytes).

Definition parse_proven_certificate_cbor (bytes : list byte) : result SemanticError ProvenCertificate :=
  map_err (λ e, SemanticSerializationError ("Failed to parse proven certificate (CBOR): " +:+ e))
    (certificate_from_cbor bytes).

(** [e] is chrono's text of why an instant is not one. *)
Definition verify_proven_certificate (e : string) (cert : ProvenCertificate) : result SemanticError bool :=
  if negb (bool_decide (pc_version cert = "1.0")) then
    Err (InvalidProof ("Unsupported certificate version: " +:+ pc_version cert))
  else
    let expected_sig := compute_signature (pc_prover cert) (pc_statement cert) (pc_proof_term cert) in
    if negb (bool_decide (pc_signature cert = expected_sig)) then Ok false
    else
      match parse_from_rfc3339 (pc_timestamp cert) with
      | None => Err (InvalidProof ("Invalid timestamp: " +:+ e))
      | Some _ => Ok (pc_valid cert)
      end.

Definition certificate_to_proof_blob (cert : ProvenCertificate) : result SemanticError ProofBlob :=
  data ← map_err SemanticSerializationError (certificate_to_json cert);
  Ok {| pb_claim := pc_statement cert; pb_proof_type := Attestation; pb_data := data;
        pb_timestamp := pc_timestamp cert |}.

Definition create_certificate (now : DateTime) (prover : ProverKind) (statement : string)
    (proof_term : option string) (valid : bool) (message : option string) : ProvenCertificate :=
  {| pc_version := "1.0"; pc_prover := prover; pc_statement := statement; pc_proof_term := proof_term;
     pc_valid := valid; pc_message := message; pc_timestamp := rfc3339 now;
     pc_signature := compute_signature prover statement proof_term |}.

End certificates.

(** ** Contracts of sanctify *)

Inductive Severity := Info | Low | Medium | High | Critical.

#[export] Instance Severity_eq_dec : EqDecision Severity.
Proof. solve_decision. Defined.

Inductive IssueType :=
| SqlInjection | CrossSiteScripting | CrossSiteRequestForgery | CommandInjection | PathTraversal
| UnsafeDeserialization | WeakCryptography | HardcodedSecret | DangerousFunction
| InsecureFileUpload | OpenRedirect | XPathInjection | LdapInjection | XXeVulnerability
| InsecureRandom | MissingStrictTypes | TypeCoercionRisk.

Record SecurityIssue := {
  si_issue_type : IssueType; si_severity : Severity; si_file : string; si_line : Z;
  si_column : option Z; si_description : string; si_remedy : string; si_code : option string;
}.

Record IssueSummary := { is_critical : Z; is_high : Z; is_medium : Z; is_low : Z; is_info : Z }.

Record SanctifyReport := {
  sr_timestamp : string; sr_version : string; sr_files_analysed : Z; sr_issues : list SecurityIssue;
  sr_summary : IssueSummary;
}.

Record SanctifyContract := {
  sc_contract_id : string; sc_hexad_id : string; sc_report : SanctifyReport;
  sc_all_critical_resolved : bool; sc_all_high_resolved : bool; sc_created_at : string;
}.

Class ContractCodec := {
  contract_to_json : SanctifyContract → result string (list byte);
  report_from_json : list byte → result string SanctifyReport;
}.

Section contracts.
Context {CH : Chrono} {CT : ChronoText} {CO : ContractCodec}.

Definition total (s : IssueSummary) : Z :=
  u64_add (u64_add (u64_add (u64_add (is_critical s) (is_high s)) (is_medium s)) (is_low s)) (is_info s).

Definition IssueSummary_default : IssueSummary :=
  {| is_critical := 0; is_high := 0; is_medium := 0; is_low := 0; is_info := 0 |}.

Definition count_issue (s : IssueSummary) (issue : SecurityIssue) : IssueSummary :=
  let '(Build_IssueSummary critical high medium low info) := s in
  match si_severity issue with
  | Critical => Build_IssueSummary (u64_add critical 1) high medium low info
  | High => Build_IssueSummary critical (u64_add high 1) medium low info
  | Medium => Build_IssueSummary critical high (u64_add medium 1) low info
  | Low => Build_IssueSummary critical high medium (u64_add low 1) info
  | Info => Build_IssueSummary critical high medium low (u64_add info 1)
  end.

Definition from_issues (issues : list SecurityIssue) : IssueSummary :=
  foldl count_issue IssueSummary_default issues.

Definition parse_sanctify_report (bytes : list byte) : result SemanticError SanctifyReport :=
  map_err (λ e, SemanticSerializationError ("Failed to parse sanctify report: " +:+ e))
    (report_from_json bytes).

Definition validate_contract (contract : SanctifyContract) : result SemanticError bool :=
  let summary := sr_summary (sc_report contract) in
  if bool_decide (sc_contract_id contract = "") then
    Err (ConstraintViolation "Contract ID must not be empty")
  else if bool_decide (sc_hexad_id contract = "") then
    Err (ConstraintViolation "Hexad ID must not be empty")
  else
    let computed := from_issues (sr_issues (sc_report contract)) in
    if negb (total computed =? total summary) then
      Err (ConstraintViolation ("Summary mismatch: computed " +:+ pretty (total computed)
             +:+ " issues but summary says " +:+ pretty (total summary)))
    else if sc_all_critical_resolved contract && (0 <? is_critical summary) then Ok false
    else if sc_all_high_resolved contract && (0 <? is_high summary) then Ok false
    else Ok true.

Definition contract_to_proof_blob (contract : SanctifyContract) : result SemanticError ProofBlob :=
  data ← map_err SemanticSerializationError (contract_to_json contract);
  let claim := "security-audit:" +:+ sc_contract_id contract +:+ " hexad:" +:+ sc_hexad_id contract
                 +:+ " issues:" +:+ pretty (total (sr_summary (sc_report contract))) in
  Ok {| pb_claim := claim; pb_proof_type := Attestation; pb_data := data;
        pb_timestamp := sc_created_at contract |}.

Definition bind_contract_to_hexad (now : DateTime) (contract_id hexad_id : string)
    (report : SanctifyReport) : SanctifyContract :=
  {| sc_contract_id := contract_id; sc_hexad_id := hexad_id; sc_report := report;
     sc_all_critical_resolved := is_critical (sr_summary report) =? 0;
     sc_all_high_resolved := is_high (sr_summary report) =? 0;
     sc_created_at := rfc3339 now |}.

End contracts.

(** ** What is stored is what is found *)

Section kept.
Context {CH : Chrono} {SH : Sha256} {CB : Ciborium}.

Definition store_proofs (ps : list ProofBlob) (s : InMemorySemanticStore) : InMemorySemanticStore :=
  foldl (λ s p, (store_proof p s).2) s ps.

#[local] Instance verifies_dec p : Decision (ProofBlob_verify p = Ok true).
Proof. destruct (ProofBlob_verify p) as [[]|]; [by left|right; congruence..]. Defined.

Lemma proofs_lookup ps s claim :
  default [] (sem_proofs (store_proofs ps s) !! claim) =
  default [] (sem_proofs s !! claim) ++ filter (λ p, pb_claim p = claim) ps.
Proof.
  revert s. induction ps as [|p ps IH]; intros s; [by rewrite app_nil_r|].
  change (store_proofs (p :: ps) s) with (store_proofs ps (store_proof p s).2).
  rewrite IH, filter_cons. cbn [store_proof snd sem_proofs]. case_decide as Hp.
  - subst claim. rewrite lookup_insert_eq. cbn. by rewrite <- app_assoc.
  - by rewrite lookup_insert_ne.
Qed.

(** The proofs of a claim are those that were stored for it, in order; each is counted, and
    counted as valid exactly when it verifies on its own. *)
Theorem proofs_are_kept ps s claim :
  sem_proofs s = ∅ →
  let mine := filter (λ p, pb_claim p = claim) ps in
  get_proofs claim (store_proofs ps s) = Ok mine ∧
  verify_proofs claim (store_proofs ps s) =
    Ok (length (filter (λ p, ProofBlob_verify p = Ok true) mine), length mine) ∧
  sem_annotations (store_proofs ps s) = sem_annotations s.
Proof.
  intros He mine.
  assert (get_proofs claim (store_proofs ps s) = Ok mine) as Hg
    by (unfold get_proofs; by rewrite proofs_lookup, He, lookup_empty).
  split_and!; [done| |].
  - unfold verify_proofs. rewrite Hg. cbn. do 3 f_equal. apply list_filter_iff. intros p.
    unfold counts_as_valid. destruct (ProofBlob_verify p) as [[]|]; naive_solver.
  - clear. revert s. induction ps as [|p ps IH]; intros s; [done|].
    exact (IH (store_proof p s).2).
Qed.

(** Data that are no proof pass for an attestation, or when there are any. *)
Theorem proof_blob_verifies p :
  ProofBlob_verify p = Ok true ↔
  match proof_data_from_cbor (pb_data p) with
  | Ok data => verify_proof data (as_bytes (pb_claim p)) = true
  | Err _ => pb_proof_type p = Attestation ∨ pb_data p ≠ []
  end.
Proof.
  unfold ProofBlob_verify. destruct (proof_data_from_cbor _) as [data|].
  { split; [by intros [=]|by intros ->]. }
  destruct (pb_proof_type p);
    try (split; [intros [= H%bool_decide_eq_true]; by right
                |intros [?|?]; [done|by rewrite bool_decide_true]]).
  split; [by left|done].
Qed.

End kept.

(** ** A stored attestation *)

(** The number in big-endian bytes. *)
Definition big_endian (l : list byte) : Z := foldl (λ n b, 256 * n + Z.of_N (Byte.to_N b)) 0 l.

(** RFC 8949: the byte 0x7b, which is also the brace of a JSON object, begins a text whose
    length is in the next eight bytes; data that are too short for it are not read. *)
Class CiboriumLaws (CB : Ciborium) := {
  short_text_unread : ∀ n rest,
    length n = 8%nat → zlength rest < big_endian n →
    is_ok (proof_data_from_cbor (x7b :: n ++ rest)) = false;
}.

(** A JSON object with a field begins with a brace and a quotation mark. *)
Definition json_object (data : list byte) : Prop :=
  ∃ n rest, data = x7b :: (x22 :: n) ++ rest ∧ length n = 7%nat.

Class CodecLaws (CC : CertificateCodec) (CO : ContractCodec) := {
  certificate_is_object : ∀ c data, certificate_to_json c = Ok data → json_object data;
  contract_is_object : ∀ c data, contract_to_json c = Ok data → json_object data;
}.

Section attestations.
Context {CH : Chrono} {CT : ChronoText} {SH : Sha256} {CB : Ciborium}.
Context {CC : CertificateCodec} {CO : ContractCodec} {CL : CiboriumLaws CB} {DL : CodecLaws CC CO}.

Lemma big_endian_lower l n : 256 ^ zlength l * n ≤ foldl (λ n b, 256 * n + Z.of_N (Byte.to_N b)) n l.
Proof.
  revert n. induction l as [|b l IH]; intros n; cbn; [unfold zlength; cbn; lia|].
  etrans; [|apply IH]. unfold zlength. cbn [length]. rewrite Nat2Z.inj_succ, Z.pow_succ_r by lia.
  assert (0 < 256 ^ Z.of_nat (length l)) by lia. pose proof (N2Z.is_nonneg (Byte.to_N b)). nia.
Qed.

Lemma json_is_no_proof data :
  json_object data → zlength data < 2 ^ 60 → is_ok (proof_data_from_cbor data) = false.
Proof.
  intros (n & rest & -> & Hn) Hlen. apply short_text_unread; [cbn; by rewrite Hn|].
  pose proof (big_endian_lower n 34) as Hb. unfold big_endian. cbn [foldl].
  change (256 * 0 + Z.of_N (Byte.to_N x22)) with 34.
  unfold zlength in *. rewrite Hn in Hb. cbn in Hlen. rewrite length_app in Hlen. lia.
Qed.

Lemma attestation_verifies p :
  pb_proof_type p = Attestation → is_ok (proof_data_from_cbor (pb_data p)) = false →
  ProofBlob_verify p = Ok true.
Proof. intros Ht Hd. unfold ProofBlob_verify. destruct (proof_data_from_cbor _); [done|]. by rewrite Ht. Qed.

Lemma stored_valid p s v t :
  ProofBlob_verify p = Ok true → verify_proofs (pb_claim p) s = Ok (v, t) →
  verify_proofs (pb_claim p) (store_proof p s).2 = Ok (S v, S t).
Proof.
  intros Hp. unfold verify_proofs, get_proofs. cbn. intros [= <- <-].
  rewrite lookup_insert_eq. cbn. rewrite filter_app, !length_app. cbn.
  rewrite decide_True by (unfold counts_as_valid; by rewrite Hp). cbn. do 2 f_equal; lia.
Qed.

(** Whatever a certificate's own check answers, once stored it counts as one more valid proof
    of its statement: what is stored is JSON, which is no proof, and an attestation that is no
    proof is trusted.  The same holds of a contract. *)
Theorem stored_certificate_counts cert p s v t :
  certificate_to_proof_blob cert = Ok p → zlength (pb_data p) < 2 ^ 60 →
  verify_proofs (pc_statement cert) s = Ok (v, t) →
  verify_proofs (pc_statement cert) (store_proof p s).2 = Ok (S v, S t).
Proof.
  unfold certificate_to_proof_blob. destruct (certificate_to_json cert) as [data|] eqn:Hj; [|done].
  cbn. intros [= <-]. cbn. intros Hlen Hv.
  apply (stored_valid {| pb_claim := pc_statement cert |} s v t); [|done].
  apply attestation_verifies; [done|]. apply json_is_no_proof; [by eapply certificate_is_object|done].
Qed.

Theorem stored_contract_counts contract p s v t :
  contract_to_proof_blob contract = Ok p → zlength (pb_data p) < 2 ^ 60 →
  verify_proofs (pb_claim p) s = Ok (v, t) →
  verify_proofs (pb_claim p) (store_proof p s).2 = Ok (S v, S t).
Proof.
  unfold contract_to_proof_blob. destruct (contract_to_json contract) as [data|] eqn:Hj; [|done].
  cbn. intros [= <-] Hlen Hv. apply stored_valid; [|done].
  apply attestation_verifies; [done|]. apply json_is_no_proof; [by eapply contract_is_object|done].
Qed.

End attestations.

(** ** What a signature binds *)

Definition colon : Ascii.ascii := Ascii.ascii_of_nat 58.

Definition colonless (s : string) : Prop := colon ∉ String.list_ascii_of_string s.

Lemma list_ascii_app s t :
  String.list_ascii_of_string (s +:+ t) = String.list_ascii_of_string s ++ String.list_ascii_of_string t.
Proof. induction s as [|a s IH]; [done|]. exact (f_equal (cons a) IH). Qed.

Lemma list_ascii_inj s t : String.list_ascii_of_string s = String.list_ascii_of_string t → s = t.
Proof.
  intros H. by rewrite <- (String.string_of_list_ascii_of_string s), H,
    String.string_of_list_ascii_of_string.
Qed.

Lemma split_at_first {A} (x : A) l : ∀ l' k k',
  x ∉ l → x ∉ l' → l ++ x :: k = l' ++ x :: k' → l = l' ∧ k = k'.
Proof.
  induction l as [|a l IH]; intros [|b l'] k k' Hl Hl' H.
  - by injection H.
  - injection H as -> H. exfalso. apply Hl'. left.
  - injection H as -> H. exfalso. apply Hl. left.
  - injection H as -> H. apply not_elem_of_cons in Hl as [_ Hl], Hl' as [_ Hl']. destruct (IH _ _ _ Hl Hl' H); by subst.
Qed.

Lemma colon_split s s' t t' :
  colonless s → colonless s' → s +:+ ":" +:+ t = s' +:+ ":" +:+ t' → s = s' ∧ t = t'.
Proof.
  intros Hs Hs' H%(f_equal String.list_ascii_of_string). rewrite !list_ascii_app in H.
  destruct (split_at_first _ _ _ _ _ Hs Hs' H) as [?%list_ascii_inj ?%list_ascii_inj]. done.
Qed.

Definition prover_name (p : ProverKind) : string := match p with CustomProver name => name | _ => "" end.

Lemma literal_colonless s : bool_decide (colonless s) = true → colonless s.
Proof. apply bool_decide_eq_true. Qed.

(** The text up to its first colon, and after it. *)
Definition prover_head (p : ProverKind) : string :=
  match p with CustomProver _ => "custom" | _ => prover_to_string p end.

Definition after_head (p : ProverKind) (rest : string) : string :=
  match p with CustomProver name => name +:+ ":" +:+ rest | _ => rest end.

Lemma signed_text_head p s t :
  signed_text p s t = prover_head p +:+ ":" +:+ after_head p (s +:+ ":" +:+ default "" t).
Proof. by destruct p. Qed.

Lemma prover_head_colonless p : colonless (prover_head p).
Proof. destruct p; by apply literal_colonless. Qed.

Lemma signed_text_inj p q s s' t t' :
  colonless (prover_name p) → colonless (prover_name q) → colonless s → colonless s' →
  signed_text p s t = signed_text q s' t' → p = q ∧ s = s' ∧ default "" t = default "" t'.
Proof.
  intros Hp Hq Hs Hs' H. rewrite !signed_text_head in H.
  apply colon_split in H as [Hh H]; [|apply prover_head_colonless..].
  assert (p = q ∧ s +:+ ":" +:+ default "" t = s' +:+ ":" +:+ default "" t') as [-> Hst].
  { destruct p, q; try discriminate Hh; try done.
    cbn in H. by apply colon_split in H as [-> ?]. }
  by apply colon_split in Hst as [-> ?].
Qed.

Section signatures.
Context {CH : Chrono} {CT : ChronoText} {SH : Sha256} {CL : ChronoTextLaws CT}.

Lemma verify_signed e c b :
  verify_proven_certificate e c = Ok b →
  b = false ∨ pc_signature c = compute_signature (pc_prover c) (pc_statement c) (pc_proof_term c).
Proof.
  unfold verify_proven_certificate. case_bool_decide; cbn; [|done].
  case_bool_decide; cbn; [by right|]. intros [= <-]. by left.
Qed.

Lemma compute_signature_inj p q s s' t t' :
  compute_signature p s t = compute_signature q s' t' →
  signed_text p s t = signed_text q s' t' ∨ sha256_collision.
Proof.
  unfold compute_signature. intros H. apply (f_equal as_bytes) in H. rewrite !as_bytes_app in H.
  apply app_inv_head, as_bytes_inj, hex_string_inj in H.
  destruct (sha256_eq_or_collision _ _ (vec_to_list_inj2 _ _ H)) as [E|]; [|by right].
  left. by apply as_bytes_inj.
Qed.

(** A certificate that is made here passes its check exactly when it is said to be valid: the
    signature is a digest that needs no secret. *)
Lemma created_certificate_verifies e now prover statement proof_term valid message :
  verify_proven_certificate e (create_certificate now prover statement proof_term valid message) = Ok valid.
Proof.
  unfold verify_proven_certificate, create_certificate. cbn.
  rewrite !(bool_decide_true (_ = _)) by done. cbn. by rewrite parse_rfc3339.
Qed.


(** Without the condition on colons one digest stands for two statements. *)
Example colons_are_ambiguous :
  compute_signature Coq "a:b" (Some "c") = compute_signature Coq "a" (Some "b:c").
Proof. done. Qed.

End signatures.

(** ** What a contract says *)

Section summaries.
Context {CH : Chrono} {CT : ChronoText}.

Definition count_of (sev : Severity) (s : IssueSummary) : Z :=
  match sev with
  | Critical => is_critical s | High => is_high s | Medium => is_medium s | Low => is_low s
  | Info => is_info s
  end.

Definition issues_of (sev : Severity) (issues : list SecurityIssue) : nat :=
  length (filter (λ i, si_severity i = sev) issues).

Lemma count_issue_of sev s i :
  count_of sev (count_issue s i) =
  if decide (si_severity i = sev) then u64_add (count_of sev s) 1 else count_of sev s.
Proof. destruct s, sev; unfold count_issue; by destruct (si_severity i). Qed.

Lemma from_issues_count sev issues :
  count_of sev (from_issues issues) = wrap 64 (Z.of_nat (issues_of sev issues)).
Proof.
  unfold from_issues, issues_of. induction issues as [|i issues IH] using rev_ind; [by destruct sev|].
  rewrite foldl_app, filter_app, length_app. cbn [foldl]. rewrite count_issue_of, IH. cbn.
  case_decide; cbn; [|by rewrite Nat.add_0_r].
  unfold u64_add, wrap. rewrite Zplus_mod_idemp_l. f_equal. lia.
Qed.

Lemma issues_partition issues :
  (issues_of Critical issues + issues_of High issues + issues_of Medium issues +
   issues_of Low issues + issues_of Info issues = length issues)%nat.
Proof.
  unfold issues_of. induction issues as [|i issues IH]; [done|]. rewrite !filter_cons.
  destruct (si_severity i) eqn:E; repeat case_decide; try congruence; cbn; lia.
Qed.

Lemma total_from_issues issues :
  total (from_issues issues) = wrap 64 (zlength issues).
Proof.
  unfold total.
  pose proof (from_issues_count Critical issues) as H1. pose proof (from_issues_count High issues) as H2.
  pose proof (from_issues_count Medium issues) as H3. pose proof (from_issues_count Low issues) as H4.
  pose proof (from_issues_count Info issues) as H5. cbn in H1, H2, H3, H4, H5.
  rewrite H1, H2, H3, H4, H5, !u64_add_wraps. f_equal. unfold zlength.
  rewrite <- (issues_partition issues). lia.
Qed.

(** With the summary computed from its issues a contract is valid, and it says that all
    critical or high issues are resolved exactly when there are none. *)
Theorem honest_contract_valid now contract_id hexad_id timestamp version files issues :
  contract_id ≠ "" → hexad_id ≠ "" → zlength issues < 2 ^ 64 →
  let contract := bind_contract_to_hexad now contract_id hexad_id
    {| sr_timestamp := timestamp; sr_version := version; sr_files_analysed := files;
       sr_issues := issues; sr_summary := from_issues issues |} in
  validate_contract contract = Ok true ∧
  (sc_all_critical_resolved contract = true ↔ Forall (λ i, si_severity i ≠ Critical) issues) ∧
  (sc_all_high_resolved contract = true ↔ Forall (λ i, si_severity i ≠ High) issues).
Proof.
  intros Hc Hh Hlen contract.
  assert (∀ sev, count_of sev (from_issues issues) = Z.of_nat (issues_of sev issues)) as Hn.
  { intros sev. rewrite from_issues_count. apply wrap_small. unfold issues_of, zlength in *.
    pose proof (length_filter (λ i, si_severity i = sev) issues). lia. }
  assert (∀ sev, (count_of sev (from_issues issues) =? 0) = true ↔
                 Forall (λ i, si_severity i ≠ sev) issues) as Hz.
  { intros sev. rewrite Hn, Z.eqb_eq. unfold issues_of. rewrite Forall_forall. split.
    - intros H0 i Hi E. assert (i ∈ filter (λ i, si_severity i = sev) issues) as Hf
        by by apply list_elem_of_filter.
      destruct (filter _ issues); [by apply elem_of_nil in Hf|done].
    - intros H0. destruct (filter _ issues) as [|i l] eqn:E; [done|].
      assert (i ∈ filter (λ i, si_severity i = sev) issues) as Hf by (rewrite E; left).
      apply list_elem_of_filter in Hf as [? ?]. exfalso. by apply (H0 i). }
  split_and!; [|exact (Hz Critical)|exact (Hz High)].
  unfold validate_contract. cbn. rewrite !bool_decide_false by done. rewrite Z.eqb_refl. cbn.
  pose proof (Hn Critical) as H1. pose proof (Hn High) as H2. cbn in H1, H2. rewrite H1, H2.
  by destruct (issues_of Critical issues), (issues_of High issues).
Qed.

(** Only the totals are compared: whatever the issues, there is a summary with which the
    contract is valid and says that nothing critical or high is left. *)
Theorem contract_hides_critical now contract_id hexad_id timestamp version files issues :
  contract_id ≠ "" → hexad_id ≠ "" → zlength issues < 2 ^ 64 →
  ∃ summary,
    let contract := bind_contract_to_hexad now contract_id hexad_id
      {| sr_timestamp := timestamp; sr_version := version; sr_files_analysed := files;
         sr_issues := issues; sr_summary := summary |} in
    validate_contract contract = Ok true ∧
    sc_all_critical_resolved contract = true ∧ sc_all_high_resolved contract = true.
Proof.
  intros Hc Hh Hlen.
  exists {| is_critical := 0; is_high := 0; is_medium := 0; is_low := 0; is_info := zlength issues |}.
  split_and!; try done. unfold validate_contract. cbn. rewrite !bool_decide_false by done.
  rewrite total_from_issues. unfold total. cbn [is_critical is_high is_medium is_low is_info].
  by rewrite Z.eqb_refl.
Qed.

End summaries.
