(* ===== verification/Rbac.v ===== *)
(** * Role-based access control

    Models [src/rust-core/verisim-api/src/rbac.rs]: roles and their permissions, entity
    access lists, what a request asks for, the decision and its audit entry.  The policy
    and the log are each behind a mutex; [check_access] holds the first throughout, so its
    calls do not interleave.  A panic is [None]. *)

From S2P Require Import Prelude.
From Stdlib Require Import NArith.
From Stdlib Require String Ascii.

(** ** Requests: the [http] crate's methods *)

Inductive Method :=
| GET | POST | PUT | DELETE | HEAD | OPTIONS | CONNECT | PATCH | TRACE
| Extension (name : string).

#[export] Instance Method_eq_dec : EqDecision Method.
Proof. solve_decision. Defined.

Definition method_to_string (m : Method) : string :=
  match m with
  | GET => "GET" | POST => "POST" | PUT => "PUT" | DELETE => "DELETE" | HEAD => "HEAD"
  | OPTIONS => "OPTIONS" | CONNECT => "CONNECT" | PATCH => "PATCH" | TRACE => "TRACE"
  | Extension name => name
  end.

(** ** Permissions and roles *)

Inductive ClientRole := Reader | Writer | Admin.

Record ClientIdentity := { ci_id : string; ci_role : ClientRole }.

Inductive Permission := PRead | PWrite | PAdmin | PExecute.

#[export] Instance Permission_eq_dec : EqDecision Permission.
Proof. solve_decision. Defined.

Definition permission_to_string (p : Permission) : string :=
  match p with
  | PRead => "read" | PWrite => "write" | PAdmin => "admin" | PExecute => "execute"
  end.

Record RoleDefinition := {
  rd_name : string;
  rd_global_permissions : list Permission;
  rd_modality_permissions : gmap string (list Permission);
}.

Definition has_global_permission (rd : RoleDefinition) (permission : Permission) : bool :=
  bool_decide (permission ∈ rd_global_permissions rd).

Definition has_modality_permission (rd : RoleDefinition) (modality : string)
    (permission : Permission) : bool :=
  if has_global_permission rd permission then true
  else match rd_modality_permissions rd !! modality with
       | Some perms => bool_decide (permission ∈ perms)
       | None => false
       end.

(** ** The policy *)

Record RbacPolicy := {
  rp_roles : gmap string RoleDefinition;
  rp_entity_acls : gmap string (list (string * list Permission));
}.

Definition role_with (name : string) (global : list Permission) : RoleDefinition :=
  {| rd_name := name; rd_global_permissions := global; rd_modality_permissions := ∅ |}.

Definition RbacPolicy_default : RbacPolicy :=
  {| rp_roles :=
       <["admin" := role_with "admin" [PRead; PWrite; PAdmin; PExecute]]>
       (<["writer" := role_with "writer" [PRead; PWrite; PExecute]]>
       (<["reader" := role_with "reader" [PRead; PExecute]]> ∅));
     rp_entity_acls := ∅ |}.

Definition RbacPolicy_new : RbacPolicy := {| rp_roles := ∅; rp_entity_acls := ∅ |}.

Definition role_key (client_role : ClientRole) : string :=
  match client_role with Reader => "reader" | Writer => "writer" | Admin => "admin" end.

Definition role_for (policy : RbacPolicy) (client_role : ClientRole) : option RoleDefinition :=
  rp_roles policy !! role_key client_role.

Definition set_role (role : RoleDefinition) (policy : RbacPolicy) : RbacPolicy :=
  {| rp_roles := <[rd_name role := role]> (rp_roles policy);
     rp_entity_acls := rp_entity_acls policy |}.

Definition add_entity_acl (entity_id client_id : string) (permissions : list Permission)
    (policy : RbacPolicy) : RbacPolicy :=
  {| rp_roles := rp_roles policy;
     rp_entity_acls :=
       <[entity_id := default [] (rp_entity_acls policy !! entity_id) ++ [(client_id, permissions)]]>
         (rp_entity_acls policy) |}.

Definition check_entity_acl (policy : RbacPolicy) (entity_id client_id : string)
    (permission : Permission) : bool :=
  match rp_entity_acls policy !! entity_id with
  | Some acls =>
    existsb (λ '(cid, perms), bool_decide (cid = client_id) && bool_decide (permission ∈ perms)) acls
  | None => false
  end.

(** ** The audit log *)

Inductive AccessDecision := Allowed | Denied.

Record AuditEntry := {
  ae_timestamp : Z; ae_client_id : string; ae_client_role : string; ae_resource_path : string;
  ae_method : string; ae_required_permission : Permission; ae_decision : AccessDecision;
  ae_reason : option string;
}.

Record AuditLog := { al_entries : list AuditEntry; al_max_entries : N }.

Definition AuditLog_new (max_entries : N) : AuditLog :=
  {| al_entries := []; al_max_entries := max_entries |}.

Definition AuditLog_default : AuditLog := AuditLog_new 10000.

(** [entries.remove(0)] panics on an empty log, which a capacity of 0 leads to. *)
Definition record (entry : AuditEntry) (log : AuditLog) : option AuditLog :=
  entries ←
    (if decide (al_max_entries log ≤ N.of_nat (length (al_entries log)))%N then
       match al_entries log with [] => None | _ :: entries => Some entries end
     else Some (al_entries log));
  Some {| al_entries := entries ++ [entry]; al_max_entries := al_max_entries log |}.

Definition audit_clear (log : AuditLog) : AuditLog :=
  {| al_entries := []; al_max_entries := al_max_entries log |}.

Record RbacState := { rs_policy : RbacPolicy; rs_audit_log : AuditLog }.

Definition RbacState_new (policy : RbacPolicy) : RbacState :=
  {| rs_policy := policy; rs_audit_log := AuditLog_default |}.

Definition RbacState_default : RbacState := RbacState_new RbacPolicy_default.

Record AuthzError := { az_error : string; az_code : Z; az_required_permission : string }.

(** ** What a request asks for *)

Definition is_admin_path (method : Method) (path : string) : bool :=
  if starts_with "/normalizer/trigger" path && bool_decide (method = POST) then true
  else if starts_with "/planner/config" path && bool_decide (method = PUT) then true
  else false.

Definition is_execute_path (method : Method) (path : string) : bool :=
  if negb (bool_decide (method = POST)) then false
  else starts_with "/query/plan" path || starts_with "/query/explain" path
       || starts_with "/queries/similar" path || starts_with "/search/" path.

Definition required_permission (method : Method) (path : string) : Permission :=
  if is_admin_path method path then PAdmin
  else if is_execute_path method path then PExecute
  else match method with
       | GET | HEAD | OPTIONS => PRead
       | _ => PWrite
       end.

Definition modality_from_path (path : string) : option string :=
  if starts_with "/search/vector" path then Some "vector"
  else if starts_with "/search/text" path then Some "document"
  else if starts_with "/search/related" path then Some "graph"
  else if starts_with "/drift" path then Some "temporal"
  else None.

(** The segment after a prefix, unless it is empty. *)
Definition segment_after (prefix path : string) : option string :=
  rest ← str_strip_prefix prefix path;
  let id := default rest (head (split_on slash rest)) in
  if decide (id = "") then None else Some id.

Definition entity_from_path (path : string) : option string :=
  match segment_after "/hexads/" path with
  | Some id => Some id
  | None =>
    match segment_after "/drift/entity/" path with
    | Some id => Some id
    | None => segment_after "/normalizer/trigger/" path
    end
  end.

(** ** The decision *)

(** [record(decision, reason)], then the result. *)
Definition record_decision (identity : ClientIdentity) (resource_path : string) (method : Method)
    (now_secs : Z) (permission : Permission) (decision : AccessDecision) (reason : string)
    (r : result AuthzError ()) (rbac : RbacState) : option (result AuthzError () * RbacState) :=
  let entry :=
    {| ae_timestamp := now_secs; ae_client_id := ci_id identity;
       ae_client_role := role_key (ci_role identity); ae_resource_path := resource_path;
       ae_method := method_to_string method; ae_required_permission := permission;
       ae_decision := decision; ae_reason := Some reason |} in
  log ← record entry (rs_audit_log rbac);
  Some (r, {| rs_policy := rs_policy rbac; rs_audit_log := log |}).

Definition check_access (now_secs : Z) (identity : ClientIdentity) (resource_path : string)
    (method : Method) (rbac : RbacState) : option (result AuthzError () * RbacState) :=
  let permission := required_permission method resource_path in
  let policy := rs_policy rbac in
  let role_name := role_key (ci_role identity) in
  let allow reason :=
    record_decision identity resource_path method now_secs permission Allowed reason (Ok ()) rbac in
  let deny reason :=
    record_decision identity resource_path method now_secs permission Denied reason
      (Err {| az_error := reason; az_code := 403;
              az_required_permission := permission_to_string permission |}) rbac in
  let acl_grant :=
    match entity_from_path resource_path with
    | Some entity_id => check_entity_acl policy entity_id (ci_id identity) permission
    | None => false
    end in
  if acl_grant then allow "entity ACL grant"
  else
    match role_for policy (ci_role identity) with
    | None => deny ("No role definition found for '" +:+ role_name +:+ "'")
    | Some role_def =>
      let global :=
        if has_global_permission role_def permission then allow "global role grant"
        else deny ("Role '" +:+ role_name +:+ "' does not have '"
                     +:+ permission_to_string permission +:+ "' permission") in
      match modality_from_path resource_path with
      | Some modality =>
        if has_modality_permission role_def modality permission then
          allow ("modality '" +:+ modality +:+ "' grant")
        else if bool_decide (is_Some (rd_modality_permissions role_def !! modality)) then
          deny ("Role '" +:+ role_name +:+ "' lacks '" +:+ permission_to_string permission
                  +:+ "' permission on modality '" +:+ modality +:+ "'")
        else global
      | None => global
      end
    end.

Definition check_authorization := check_access.

(** ** Access decisions and their audit

    The decision is the declarative one, every decision is logged, and the log is the
    window of the last ones. *)

(** ** The decision *)

(** What the policy grants to a client on a path. *)
Definition acl_grants (policy : RbacPolicy) (identity : ClientIdentity) (path : string)
    (permission : Permission) : Prop :=
  ∃ entity acls perms, entity_from_path path = Some entity ∧
    rp_entity_acls policy !! entity = Some acls ∧ (ci_id identity, perms) ∈ acls ∧
    permission ∈ perms.

Definition role_grants (policy : RbacPolicy) (identity : ClientIdentity) (path : string)
    (permission : Permission) : Prop :=
  ∃ rd, role_for policy (ci_role identity) = Some rd ∧
    (permission ∈ rd_global_permissions rd ∨
     ∃ modality perms, modality_from_path path = Some modality ∧
       rd_modality_permissions rd !! modality = Some perms ∧ permission ∈ perms).

Definition permitted (policy : RbacPolicy) (identity : ClientIdentity) (path : string)
    (method : Method) : Prop :=
  acl_grants policy identity path (required_permission method path) ∨
  role_grants policy identity path (required_permission method path).

Lemma has_global_permission_iff rd p :
  has_global_permission rd p = true ↔ p ∈ rd_global_permissions rd.
Proof. apply bool_decide_eq_true. Qed.

Lemma has_modality_permission_iff rd m p :
  has_modality_permission rd m p = true ↔
  p ∈ rd_global_permissions rd ∨ ∃ perms, rd_modality_permissions rd !! m = Some perms ∧ p ∈ perms.
Proof.
  unfold has_modality_permission. rewrite <- has_global_permission_iff.
  destruct (has_global_permission rd p); [naive_solver|].
  destruct (rd_modality_permissions rd !! m) as [perms|]; [|naive_solver].
  rewrite bool_decide_eq_true. naive_solver.
Qed.

Lemma check_entity_acl_iff policy entity client p :
  check_entity_acl policy entity client p = true ↔
  ∃ acls perms, rp_entity_acls policy !! entity = Some acls ∧ (client, perms) ∈ acls ∧ p ∈ perms.
Proof.
  unfold check_entity_acl. destruct (rp_entity_acls policy !! entity) as [acls|]; [|naive_solver].
  rewrite existsb_exists. setoid_rewrite <- list_elem_of_In. split.
  - intros ([cid perms] & Hin & [->%bool_decide_eq_true_1 Hp%bool_decide_eq_true_1]%andb_prop). eauto.
  - intros (? & perms & [= <-] & Hin & Hp). exists (client, perms). split; [done|].
    by rewrite !bool_decide_true.
Qed.

(** The entry a decision leaves, less its reason. *)
Definition entry_facts (e : AuditEntry) :=
  (ae_timestamp e, ae_client_id e, ae_client_role e, ae_resource_path e, ae_method e,
   ae_required_permission e, ae_decision e).

Definition decision_of (r : result AuthzError ()) : AccessDecision :=
  if is_ok r then Allowed else Denied.

Record AccessRequest := {
  ar_now : Z; ar_identity : ClientIdentity; ar_path : string; ar_method : Method;
}.

Definition request_facts (q : AccessRequest) (r : result AuthzError ()) :=
  (ar_now q, ci_id (ar_identity q), role_key (ci_role (ar_identity q)), ar_path q,
   method_to_string (ar_method q), required_permission (ar_method q) (ar_path q), decision_of r).

Definition check_request (q : AccessRequest) := check_access (ar_now q) (ar_identity q) (ar_path q) (ar_method q).

(** The log after one more entry. *)
Definition log_push (log : AuditLog) (e : AuditEntry) : list AuditEntry :=
  (if decide (al_max_entries log ≤ N.of_nat (length (al_entries log)))%N
   then tail (al_entries log) else al_entries log) ++ [e].

Lemma record_pushes e log :
  (0 < al_max_entries log)%N →
  record e log = Some {| al_entries := log_push log e; al_max_entries := al_max_entries log |}.
Proof.
  intros Hmax. unfold record, log_push. case_decide as Hfull; [|done].
  destruct (al_entries log) as [|x l]; [|done]. cbn in Hfull. lia.
Qed.

(** One call: its result, and the entry it adds. *)
Lemma check_request_spec q rbac :
  (0 < al_max_entries (rs_audit_log rbac))%N → ∃ r e,
    check_request q rbac = Some (r, {| rs_policy := rs_policy rbac;
      rs_audit_log := {| al_entries := log_push (rs_audit_log rbac) e;
                         al_max_entries := al_max_entries (rs_audit_log rbac) |} |}) ∧
    entry_facts e = request_facts q r ∧
    (r = Ok () ∧ permitted (rs_policy rbac) (ar_identity q) (ar_path q) (ar_method q) ∨
     (∃ err, r = Err err ∧ az_code err = 403%Z) ∧
       ¬ permitted (rs_policy rbac) (ar_identity q) (ar_path q) (ar_method q)).
Proof.
  intros Hmax. unfold check_request, check_access, record_decision, permitted, acl_grants, role_grants.
  set (p := required_permission (ar_method q) (ar_path q)). set (policy := rs_policy rbac).
  assert ((match entity_from_path (ar_path q) with
           | Some entity_id => check_entity_acl policy entity_id (ci_id (ar_identity q)) p
           | None => false end) = true ↔ acl_grants policy (ar_identity q) (ar_path q) p) as Hacl.
  { unfold acl_grants. destruct (entity_from_path (ar_path q)) as [entity|]; [|naive_solver].
    rewrite check_entity_acl_iff. naive_solver. }
  fold (acl_grants policy (ar_identity q) (ar_path q) p).
  destruct (match entity_from_path _ with Some _ => _ | None => _ end).
  { rewrite record_pushes by done. eexists _, _. split; [done|]. split; [done|]. left. naive_solver. }
  assert (¬ acl_grants policy (ar_identity q) (ar_path q) p) as Hno by naive_solver. clear Hacl.
  destruct (role_for policy (ci_role (ar_identity q))) as [rd|].
  2: { rewrite record_pushes by done. eexists _, _. split; [done|]. split; [done|]. right. naive_solver. }
  pose proof (has_global_permission_iff rd p) as Hg.
  destruct (modality_from_path (ar_path q)) as [m|].
  - pose proof (has_modality_permission_iff rd m p) as Hm.
    destruct (has_modality_permission rd m p).
    { rewrite record_pushes by done. eexists _, _. split; [done|]. split; [done|]. left. naive_solver. }
    destruct (has_global_permission rd p); [naive_solver|].
    case_bool_decide; rewrite record_pushes by done; eexists _, _;
      (split; [done|]); (split; [done|]); right; naive_solver.
  - destruct (has_global_permission rd p); rewrite record_pushes by done; eexists _, _;
      (split; [done|]); (split; [done|]); [left|right]; naive_solver.
Qed.

(** Access is granted exactly when the policy grants it: a client may do what a path
    asks for when an access list of the path's entity names it with that permission, or
    its role has the permission, globally or for the path's modality; otherwise the answer
    is a 403.  The policy does not change and the decision is logged as the newest entry.
    (A modality entry of a role only ever adds permissions: it does not restrict the
    global ones.) *)
Theorem access_decision (now : Z) (identity : ClientIdentity) (path : string) (method : Method)
    (rbac : RbacState) :
  (0 < al_max_entries (rs_audit_log rbac))%N → ∃ r rbac' e,
    check_access now identity path method rbac = Some (r, rbac') ∧
    (r = Ok () ↔ permitted (rs_policy rbac) identity path method) ∧
    (∀ err, r = Err err → az_code err = 403%Z) ∧
    rs_policy rbac' = rs_policy rbac ∧
    last (al_entries (rs_audit_log rbac')) = Some e ∧
    ae_client_id e = ci_id identity ∧ ae_resource_path e = path ∧
    ae_decision e = if is_ok r then Allowed else Denied.
Proof.
  intros Hmax.
  destruct (check_request_spec {| ar_now := now; ar_identity := identity; ar_path := path;
    ar_method := method |} rbac Hmax) as (r & e & Hcheck & Hfacts & Hr).
  eexists r, _, e. split; [exact Hcheck|]. cbn in Hr.
  split_and!; [naive_solver|naive_solver|done|by apply last_snoc|..]; by injection Hfacts.
Qed.

(** ** The log as a window *)

Definition last_n {A} (n : N) (l : list A) : list A := drop (length l - N.to_nat n) l.

Fixpoint check_requests (qs : list AccessRequest) (rbac : RbacState)
    : option (list (result AuthzError ()) * RbacState) :=
  match qs with
  | [] => Some ([], rbac)
  | q :: qs =>
    '(r, rbac) ← check_request q rbac;
    '(rs, rbac) ← check_requests qs rbac;
    Some (r :: rs, rbac)
  end.

Lemma last_n_snoc {A} (n : N) (l : list A) (x : A) :
  (0 < n)%N →
  last_n n (l ++ [x]) =
  (if decide (n ≤ N.of_nat (length (last_n n l)))%N then tail (last_n n l) else last_n n l) ++ [x].
Proof.
  intros Hn. unfold last_n. rewrite length_app, length_drop. cbn [length].
  case_decide as Hfull.
  - rewrite drop_app_le by lia. f_equal.
    replace (length l + 1 - N.to_nat n)%nat with (S (length l - N.to_nat n)) by lia.
    generalize (length l - N.to_nat n)%nat. clear. intros k. revert k.
    induction l as [|y l IH]; intros [|k]; cbn; [done..|apply IH].
  - replace (length l - N.to_nat n)%nat with 0%nat by lia.
    by replace (length l + 1 - N.to_nat n)%nat with 0%nat by lia.
Qed.

Lemma fmap_tail {A B} (f : A → B) (l : list A) : f <$> tail l = tail (f <$> l).
Proof. by destruct l. Qed.

(** The audit log is a faithful window: after any requests to a state with an empty log,
    it holds, oldest first, the last ones of them, as many as its capacity, each with the
    decision that was returned. *)
Theorem audit_log_window (qs : list AccessRequest) (policy : RbacPolicy) (n : N) :
  (0 < n)%N → ∃ rs log,
    check_requests qs {| rs_policy := policy; rs_audit_log := AuditLog_new n |} =
      Some (rs, {| rs_policy := policy; rs_audit_log := log |}) ∧
    length rs = length qs ∧
    entry_facts <$> al_entries log = last_n n (zip_with request_facts qs rs) ∧
    (N.of_nat (length (al_entries log)) ≤ n)%N.
Proof.
  intros Hn.
  cut (∀ log past, al_max_entries log = n → entry_facts <$> al_entries log = last_n n past →
    ∃ rs log', check_requests qs {| rs_policy := policy; rs_audit_log := log |} =
        Some (rs, {| rs_policy := policy; rs_audit_log := log' |}) ∧ length rs = length qs ∧
      entry_facts <$> al_entries log' = last_n n (past ++ zip_with request_facts qs rs)).
  { intros H. destruct (H (AuditLog_new n) [] eq_refl eq_refl) as (rs & log & Hrun & Hlen & Hlog).
    exists rs, log. split_and!; [done..|]. apply (f_equal length) in Hlog.
    rewrite length_fmap in Hlog. unfold last_n in Hlog. rewrite length_drop in Hlog. lia. }
  induction qs as [|q qs IH]; intros log past Hmax Hlog; cbn [check_requests].
  { exists [], log. rewrite app_nil_r. done. }
  destruct (check_request_spec q {| rs_policy := policy; rs_audit_log := log |})
    as (r & e & -> & Hfacts & _); [cbn; lia|]. cbn.
  destruct (IH {| al_entries := log_push log e; al_max_entries := al_max_entries log |}
              (past ++ [request_facts q r])) as (rs & log' & -> & Hlen & Hlog'); [done| |].
  - cbn. unfold log_push. rewrite last_n_snoc, <- Hlog, <- Hfacts, length_fmap, Hmax by done.
    rewrite fmap_app. f_equal. case_decide; [apply fmap_tail|done].
  - exists (r :: rs), log'. cbn. split_and!; [done|by rewrite Hlen|].
    by rewrite Hlog', <- app_assoc.
Qed.

(** ** The default policy *)

(** The default roles: without further configuration a reader may read and execute, a
    writer may also write, and only an admin may do what is reserved to admins. *)
Theorem default_roles (now : Z) (identity : ClientIdentity) (path : string) (method : Method) :
  ∃ rbac', check_access now identity path method RbacState_default =
      Some (if match ci_role identity, required_permission method path with
               | Admin, _ => true
               | Writer, PAdmin => false
               | Writer, _ => true
               | Reader, (PRead | PExecute) => true
               | Reader, _ => false
               end
            then Ok ()
            else Err {| az_error := "Role '" +:+ role_key (ci_role identity) +:+ "' does not have '"
                          +:+ permission_to_string (required_permission method path) +:+ "' permission";
                        az_code := 403;
                        az_required_permission :=
                          permission_to_string (required_permission method path) |}, rbac').
Proof.
  unfold check_access, record_decision, RbacState_default, RbacState_new. cbn [rs_policy rs_audit_log].
  assert ((match entity_from_path path with
    | Some entity_id => check_entity_acl RbacPolicy_default entity_id (ci_id identity)
        (required_permission method path)
    | None => false end) = false) as -> by (by destruct (entity_from_path path)).
  assert (∃ rd, role_for RbacPolicy_default (ci_role identity) = Some rd ∧
    rd_modality_permissions rd = ∅ ∧
    ∀ p, has_global_permission rd p = match ci_role identity, p with
      | Admin, _ => true | Writer, PAdmin => false | Writer, _ => true
      | Reader, (PRead | PExecute) => true | Reader, _ => false end) as (rd & -> & Hm & Hg).
  { destruct (ci_role identity); eexists; (split; [reflexivity|]); (split; [reflexivity|]);
      intros []; vm_compute; reflexivity. }
  unfold has_modality_permission. rewrite Hg, Hm.
  rewrite !record_pushes by done. cbn [mbind option_bind].
  destruct (modality_from_path path) as [m|]; rewrite ?lookup_empty;
    destruct (ci_role identity), (required_permission method path); eexists; reflexivity.
Qed.
