(* ===== verification/Auth.v ===== *)
(** * Authentication

    Models [src/rust-core/verisim-api/src/auth.rs]: API keys, signed tokens, the rate
    limiter and the middleware that lets a request through.  Instants of the monotonic
    clock are nanoseconds; the JSON of a token's claims is [serde_json]'s, a parameter. *)

From S2P Require Import Prelude Rbac.
From Stdlib Require Import NArith.
From Stdlib Require Import Strings.Byte.
From Stdlib Require String Ascii.
Local Open Scope Z_scope.

(** ** API keys *)

Record ApiKeyEntry := {
  ak_key_hash : string; ak_label : string; ak_role : ClientRole; ak_active : bool;
}.

Definition ApiKeyRegistry : Type := gmap string ApiKeyEntry.

Definition ApiKeyRegistry_new : ApiKeyRegistry := ∅.

Section keys.
Context {SH : Sha256}.

Definition hash_key (key : string) : string := hex_string (sha256 (String.list_byte_of_string key)).

Definition register (plaintext_key label : string) (role : ClientRole) (keys : gmap string ApiKeyEntry)
    : gmap string ApiKeyEntry :=
  let hash := hash_key plaintext_key in
  <[hash := {| ak_key_hash := hash; ak_label := label; ak_role := role; ak_active := true |}]> keys.

Definition validate (plaintext_key : string) (keys : gmap string ApiKeyEntry) : option ApiKeyEntry :=
  match keys !! hash_key plaintext_key with
  | Some entry => if ak_active entry then Some entry else None
  | None => None
  end.

Definition revoke (key_hash : string) (keys : gmap string ApiKeyEntry)
    : bool * gmap string ApiKeyEntry :=
  match keys !! key_hash with
  | Some entry =>
    (true, <[key_hash := {| ak_key_hash := ak_key_hash entry; ak_label := ak_label entry;
                            ak_role := ak_role entry; ak_active := false |}]> keys)
  | None => (false, keys)
  end.

End keys.

(** ** The rate limiter *)

Record RateLimiter := {
  rl_windows : gmap string (list Z); rl_max_requests : Z; rl_window : Z;
}.

Definition RateLimiter_new (max_requests_per_minute : Z) : RateLimiter :=
  {| rl_windows := ∅; rl_max_requests := max_requests_per_minute; rl_window := 60 * 10 ^ 9 |}.

(** [now.duration_since(t)] is zero for a later [t]. *)
Definition duration_since (now t : Z) : Z := Z.max 0 (now - t).

(** [timestamps.retain(|t| now.duration_since( *t) < self.window)] of the client's entry. *)
Definition retained (now : Z) (client_id : string) (rl : RateLimiter) : list Z :=
  filter (λ t, duration_since now t < rl_window rl) (default [] (rl_windows rl !! client_id)).

Definition set_timestamps (client_id : string) (timestamps : list Z) (rl : RateLimiter)
    : RateLimiter :=
  {| rl_windows := <[client_id := timestamps]> (rl_windows rl);
     rl_max_requests := rl_max_requests rl; rl_window := rl_window rl |}.

(** [RateLimiter::check] *)
Definition rate_check (now : Z) (client_id : string) (rl : RateLimiter) : bool * RateLimiter :=
  if rl_max_requests rl =? 0 then (true, rl)
  else
    let timestamps := retained now client_id rl in
    if rl_max_requests rl <=? wrap 32 (zlength timestamps) then
      (false, set_timestamps client_id timestamps rl)
    else (true, set_timestamps client_id (timestamps ++ [now]) rl).

Definition remaining (now : Z) (client_id : string) (rl : RateLimiter) : Z * RateLimiter :=
  if rl_max_requests rl =? 0 then (2 ^ 32 - 1, rl)
  else
    let timestamps := retained now client_id rl in
    (Z.max 0 (rl_max_requests rl - wrap 32 (zlength timestamps)),
     set_timestamps client_id timestamps rl).

(** ** Base64 *)

Definition CHARSET : list byte :=
  String.list_byte_of_string "ABCDEFGHIJKLMNOPQRSTUVWXYZabcdefghijklmnopqrstuvwxyz0123456789+/".

Definition equals_sign : byte := x3d.

Definition char_to_val (c : byte) : result string N :=
  if decide (c = equals_sign) then Ok 0%N
  else ok_or "invalid base64 character" ((N.of_nat ∘ fst) <$> list_find (λ x, x = c) CHARSET).

(** One chunk of four characters; shifts of a [u8] drop the bits that leave it. *)
Definition decode_chunk (k0 k1 k2 k3 : byte) : result string (list byte) :=
  a ← char_to_val k0;
  b ← char_to_val k1;
  c ← char_to_val k2;
  d ← char_to_val k3;
  Ok (u8 (N.lor (N.shiftl a 2) (N.shiftr b 4)) ::
      (if decide (k2 = equals_sign) then [] else [u8 (N.lor (N.shiftl b 4) (N.shiftr c 2))]) ++
      (if decide (k3 = equals_sign) then [] else [u8 (N.lor (N.shiftl c 6) d)])).

Fixpoint decode_chunks (bytes : list byte) : result string (list byte) :=
  match bytes with
  | k0 :: k1 :: k2 :: k3 :: bytes =>
    chunk ← decode_chunk k0 k1 k2 k3;
    rest ← decode_chunks bytes;
    Ok (chunk ++ rest)
  | _ => Ok []
  end.

Definition base64_decode (input : string) : result string (list byte) :=
  let bytes := String.list_byte_of_string input in
  if negb (Nat.modulo (length bytes) 4 =? 0)%nat then Err "invalid base64 length"
  else decode_chunks bytes.

(** [.replace('-', "+").replace('_', "/")] *)
Fixpoint to_standard (s : string) : string :=
  match s with
  | String.EmptyString => String.EmptyString
  | String.String a s =>
    String.String
      (if decide (a = Ascii.ascii_of_nat 45) then Ascii.ascii_of_nat 43
       else if decide (a = Ascii.ascii_of_nat 95) then slash else a)
      (to_standard s)
  end.

Definition base64url_decode (input : string) : result string (list byte) :=
  match Nat.modulo (String.length input) 4 with
  | 2%nat => base64_decode (to_standard (input +:+ "=="))
  | 3%nat => base64_decode (to_standard (input +:+ "="))
  | 0%nat => base64_decode (to_standard input)
  | _ => Err "invalid base64url length"
  end.

(** ** Tokens *)

Record AuthConfig := {
  ac_enabled : bool; ac_allow_public_health : bool; ac_rate_limit_per_minute : Z;
  ac_jwt_secret : option string;
}.

Definition AuthConfig_default : AuthConfig :=
  {| ac_enabled := false; ac_allow_public_health := true; ac_rate_limit_per_minute := 0;
     ac_jwt_secret := None |}.

(** The claims a token is asked for: [claims.get("exp").and_then(as_i64)] and the like. *)
Record Claims := { cl_exp : option Z; cl_sub : option string; cl_role : option string }.

(** [serde_json::from_slice] and the look-up of the claims; [None] is a parse error. *)
Class ClaimsJson := { parse_claims : list byte → option Claims }.

Section tokens.
Context {SH : Sha256} {CJ : ClaimsJson}.

Definition block_size : nat := 64.

Definition key_block (key : list byte) : list byte :=
  let k := if (block_size <? length key)%nat then (sha256 key : list byte) else key in
  k ++ replicate (block_size - length k) x00.

Definition xor_block (pad : byte) (block : list byte) : list byte :=
  (λ k, u8 (N.lxor (Byte.to_N pad) (Byte.to_N k))) <$> block.

Definition hmac_sha256 (data key : list byte) : list byte :=
  let inner_hash := sha256 (xor_block x36 (key_block key) ++ data) in
  sha256 (xor_block x5c (key_block key) ++ inner_hash).

Definition claimed_role (role : option string) : ClientRole :=
  match role with
  | Some r => if decide (r = "admin") then Admin else if decide (r = "writer") then Writer else Reader
  | None => Reader
  end.

(** [now] is in seconds since the epoch. *)
Definition validate_jwt (now : Z) (token : string) (config : AuthConfig)
    : result string ClientIdentity :=
  secret ← ok_or "JWT authentication not configured" (ac_jwt_secret config);
  match split_on dot token with
  | [part0; part1; part2] =>
    payload_bytes ← map_err (λ _, "Invalid JWT payload encoding") (base64url_decode part1);
    let signing_input := part0 +:+ "." +:+ part1 in
    let expected_sig :=
      hmac_sha256 (String.list_byte_of_string signing_input) (String.list_byte_of_string secret) in
    actual_sig ← map_err (λ _, "Invalid JWT signature encoding") (base64url_decode part2);
    if negb (bool_decide (expected_sig = actual_sig)) then Err "Invalid JWT signature"
    else
      claims ← ok_or "Invalid JWT payload" (parse_claims payload_bytes);
      if match cl_exp claims with Some exp => exp <? now | None => false end then
        Err "JWT token expired"
      else
        Ok {| ci_id := default "unknown" (cl_sub claims); ci_role := claimed_role (cl_role claims) |}
  | _ => Err "Invalid JWT format"
  end.

(** ** The middleware *)

Record AuthState := {
  as_config : AuthConfig; as_key_registry : gmap string ApiKeyEntry;
  as_rate_limiter : RateLimiter; as_rbac : RbacState;
}.

Definition with_rbac (config : AuthConfig) (rbac : RbacState) : AuthState :=
  {| as_config := config; as_key_registry := ∅;
     as_rate_limiter := RateLimiter_new (ac_rate_limit_per_minute config); as_rbac := rbac |}.

Definition AuthState_new (config : AuthConfig) : AuthState := with_rbac config RbacState_default.

(** What the middleware reads of a request; a header is [None] also when it is not text. *)
Record Request := {
  req_path : string; req_method : Method; req_api_key : option string;
  req_authorization : option string;
}.

(** [next.run(request)], or the answer instead. *)
Inductive Response :=
| Next
| Unauthorized (error : string)
| TooManyRequests (remaining : Z)
| Forbidden (e : AuthzError).

Definition extract_identity (now : Z) (request : Request) (auth : AuthState)
    : result Response ClientIdentity :=
  match req_api_key request with
  | Some api_key =>
    match validate api_key (as_key_registry auth) with
    | Some entry => Ok {| ci_id := ak_key_hash entry; ci_role := ak_role entry |}
    | None => Err (Unauthorized "Invalid API key")
    end
  | None =>
    match req_authorization request ≫= str_strip_prefix "Bearer " with
    | Some token => map_err Unauthorized (validate_jwt now token (as_config auth))
    | None => Err (Unauthorized
        "Authentication required. Provide X-API-Key header or Authorization: Bearer <token>")
    end
  end.

Definition set_rate_limiter (rl : RateLimiter) (auth : AuthState) : AuthState :=
  {| as_config := as_config auth; as_key_registry := as_key_registry auth;
     as_rate_limiter := rl; as_rbac := as_rbac auth |}.

Definition set_rbac (rbac : RbacState) (auth : AuthState) : AuthState :=
  {| as_config := as_config auth; as_key_registry := as_key_registry auth;
     as_rate_limiter := as_rate_limiter auth; as_rbac := rbac |}.

Definition public_health (path : string) : bool :=
  bool_decide (path = "/health") || bool_decide (path = "/ready") || bool_decide (path = "/metrics").

(** [now_secs] is the wall clock, [instant] the monotonic one; [None] is a panic. *)
Definition auth_middleware (now_secs instant : Z) (request : Request) (auth : AuthState)
    : option (Response * AuthState) :=
  if negb (ac_enabled (as_config auth)) then Some (Next, auth)
  else
    let path := req_path request in
    if ac_allow_public_health (as_config auth) && public_health path then Some (Next, auth)
    else
      match extract_identity now_secs request auth with
      | Err response => Some (response, auth)
      | Ok identity =>
        let '(admitted, rl) := rate_check instant (ci_id identity) (as_rate_limiter auth) in
        let auth := set_rate_limiter rl auth in
        if negb admitted then
          let '(rest, rl) := remaining instant (ci_id identity) rl in
          Some (TooManyRequests rest, set_rate_limiter rl auth)
        else
          '(r, rbac) ← check_authorization now_secs identity path (req_method request) (as_rbac auth);
          Some (match r with Ok _ => Next | Err e => Forbidden e end, set_rbac rbac auth)
      end.

End tokens.
