(* ===== verification/AuthSpec.v ===== *)
(** * What authentication guarantees

    Base64 is decoded as it is encoded, so an issued token is accepted and an accepted
    token is signed; the rate limiter is a sliding window; the middleware lets a request
    through only when it is authenticated, within its rate and permitted. *)

From S2P Require Import Prelude Rbac Auth.
From Stdlib Require Import NArith.
From Stdlib Require Import Strings.Byte.
From Stdlib Require String Ascii.
Local Open Scope Z_scope.

(** ** The rate limiter as a sliding window, and the middleware

    Each client's requests are admitted as long as fewer than the limit were admitted in
    the last minute; the middleware combines authentication, rate and permission. *)

(** ** A run of checks *)

(** The requests, each with its instant and client. *)
Fixpoint rate_run (qs : list (Z * string)) (rl : RateLimiter) : list bool * RateLimiter :=
  match qs with
  | [] => ([], rl)
  | (now, client) :: qs =>
    let '(b, rl) := rate_check now client rl in
    let '(bs, rl) := rate_run qs rl in
    (b :: bs, rl)
  end.

(** The specification: it remembers every admitted request. *)
Definition recent (window now : Z) (client : string) (past : list (Z * string)) : list (Z * string) :=
  filter (λ p, p.2 = client ∧ now - p.1 < window) past.

Fixpoint sliding_window (max window : Z) (past qs : list (Z * string)) : list bool :=
  match qs with
  | [] => []
  | (now, client) :: qs =>
    let b := zlength (recent window now client past) <? max in
    b :: sliding_window max window (if b then past ++ [(now, client)] else past) qs
  end.

(** The requests that were admitted. *)
Fixpoint admitted (qs : list (Z * string)) (bs : list bool) : list (Z * string) :=
  match qs, bs with
  | q :: qs, b :: bs => (if b then [q] else []) ++ admitted qs bs
  | _, _ => []
  end.

Definition in_order (qs : list (Z * string)) : Prop := StronglySorted (λ p q, p.1 ≤ q.1) qs.

(** ** The limiter keeps what matters *)

(** The client's part of the past. *)
Definition times_of (client : string) (past : list (Z * string)) : list Z :=
  (filter (λ p, p.2 = client) past).*1.

Lemma recent_times window now client past :
  zlength (recent window now client past) =
  zlength (filter (λ t, now - t < window) (times_of client past)).
Proof.
  unfold recent, times_of, zlength. f_equal.
  induction past as [|[t c] past IH]; [done|]. rewrite !filter_cons. cbn [fst snd].
  destruct (decide (c = client)) as [->|Hc].
  - rewrite fmap_cons, filter_cons. cbn [fst].
    destruct (decide (now - t < window)); [rewrite decide_True|rewrite decide_False]; naive_solver.
  - rewrite decide_False by naive_solver. done.
Qed.

Record limiter_inv (max window : Z) (rl : RateLimiter) (past : list (Z * string)) (now : Z) : Prop := {
  li_max : rl_max_requests rl = max;
  li_window : rl_window rl = window;
  li_clients : ∀ client, ∃ last, last ≤ now ∧
    default [] (rl_windows rl !! client) = filter (λ t, last - t < window) (times_of client past) ∧
    zlength (default [] (rl_windows rl !! client)) ≤ max;
}.

Lemma filter_filter_impl {A} (P Q : A → Prop) `{∀ x, Decision (P x)} `{∀ x, Decision (Q x)} (l : list A) :
  (∀ x, P x → Q x) → filter P (filter Q l) = filter P l.
Proof.
  intros HPQ. induction l as [|x l IH]; [done|]. rewrite (filter_cons Q), (filter_cons P).
  case_decide as HQ.
  - rewrite filter_cons. by case_decide; rewrite IH.
  - rewrite IH. case_decide; [naive_solver|done].
Qed.

Lemma zlength_filter_le {A} (P : A → Prop) `{∀ x, Decision (P x)} (l : list A) :
  zlength (filter P l) ≤ zlength l.
Proof. unfold zlength. pose proof (length_filter P l). lia. Qed.

Section limiter.
Context (max window : Z) (Hmax : 0 < max < 2 ^ 32) (Hwin : 0 < window).

Lemma limiter_retained rl past now0 now client :
  limiter_inv max window rl past now0 → now0 ≤ now →
  retained now client rl = filter (λ t, now - t < window) (times_of client past) ∧
  zlength (retained now client rl) ≤ max.
Proof.
  intros [Hm Hw Hc] Hnow. destruct (Hc client) as (last & Hlast & Hstate & Hlen).
  unfold retained. rewrite Hw. split.
  - rewrite Hstate. transitivity (filter (λ t, now - t < window)
      (filter (λ t, last - t < window) (times_of client past))).
    + apply list_filter_iff. intros t. unfold duration_since. lia.
    + apply filter_filter_impl. intros t. lia.
  - etransitivity; [|exact Hlen]. apply zlength_filter_le.
Qed.

Lemma times_of_snoc client past q :
  times_of client (past ++ [q]) = times_of client past ++ (if decide (q.2 = client) then [q.1] else []).
Proof.
  unfold times_of. rewrite filter_app, fmap_app. f_equal. rewrite filter_cons. by case_decide.
Qed.

(** The state after a check: the client's list is replaced. *)
Lemma limiter_inv_set rl past now0 now client (b : bool) :
  limiter_inv max window rl past now0 → now0 ≤ now →
  (b = true → zlength (retained now client rl) < max) →
  limiter_inv max window
    (set_timestamps client (retained now client rl ++ (if b then [now] else [])) rl)
    (if b then past ++ [(now, client)] else past) now.
Proof.
  intros Hinv Hnow Hb. destruct (limiter_retained _ _ _ now client Hinv Hnow) as [Hret Hlen].
  destruct Hinv as [Hm Hw Hc]. split; [done..|]. intros client'. cbn.
  destruct (decide (client' = client)) as [->|Hne].
  - exists now. rewrite lookup_insert_eq. cbn. split_and!; [done| |].
    + rewrite Hret. destruct b; [|by rewrite app_nil_r].
      rewrite times_of_snoc, filter_app. cbn. rewrite decide_True by done. f_equal.
      rewrite filter_cons_True by lia. done.
    + unfold zlength in *. rewrite length_app. destruct b; cbn; [|lia]. specialize (Hb eq_refl). lia.
  - destruct (Hc client') as (last & Hlast & Hstate & Hl). exists last.
    rewrite lookup_insert_ne by done. split_and!; [lia| |done]. rewrite Hstate. f_equal.
    destruct b; [|done]. rewrite times_of_snoc. cbn. rewrite decide_False by done. by rewrite app_nil_r.
Qed.

Lemma rate_check_window rl past now0 now client :
  limiter_inv max window rl past now0 → now0 ≤ now →
  let b := zlength (recent window now client past) <? max in
  ∃ rl', rate_check now client rl = (b, rl') ∧
    limiter_inv max window rl' (if b then past ++ [(now, client)] else past) now.
Proof.
  intros Hinv Hnow b. destruct (limiter_retained _ _ _ now client Hinv Hnow) as [Hret Hlen].
  assert (zlength (retained now client rl) = zlength (recent window now client past)) as Hz
    by (by rewrite recent_times, Hret).
  unfold rate_check. rewrite (li_max _ _ _ _ _ Hinv).
  destruct (Z.eqb_spec max 0) as [|_]; [lia|].
  rewrite wrap_small by (unfold zlength in *; lia). rewrite Hz. unfold b.
  destruct (Z.leb_spec max (zlength (recent window now client past))) as [Hle|Hlt].
  - rewrite (proj2 (Z.ltb_ge _ _)) by done. eexists. split; [done|].
    pose proof (limiter_inv_set rl past now0 now client false Hinv Hnow) as H.
    rewrite app_nil_r in H. by apply H.
  - rewrite (proj2 (Z.ltb_lt _ _)) by done. eexists. split; [done|].
    apply (limiter_inv_set rl past now0 now client true Hinv Hnow). intros _. by rewrite Hz.
Qed.

Lemma rate_run_window qs rl past now0 :
  limiter_inv max window rl past now0 → in_order qs → Forall (λ q, now0 ≤ q.1) qs →
  (rate_run qs rl).1 = sliding_window max window past qs.
Proof.
  revert rl past now0. induction qs as [|[now client] qs IH]; intros rl past now0 Hinv Hs Hf; [done|].
  apply Forall_cons in Hf as [Hnow _]. apply StronglySorted_inv in Hs as [Hs Hall].
  destruct (rate_check_window rl past now0 now client Hinv Hnow) as (rl' & Hcheck & Hinv').
  cbn [rate_run sliding_window]. rewrite Hcheck.
  specialize (IH rl' _ now Hinv' Hs Hall). destruct (rate_run qs rl') as [bs rl'']. cbn in *.
  by rewrite IH.
Qed.

(** ** The bound *)

(** The admitted requests of a client in [[w, w + window)]. *)
Definition in_window (w : Z) (client : string) (past : list (Z * string)) : list (Z * string) :=
  filter (λ p, p.2 = client ∧ w ≤ p.1 < w + window) past.

Lemma sliding_window_bound qs past now0 :
  in_order qs → Forall (λ q, now0 ≤ q.1) qs → Forall (λ p, p.1 ≤ now0) past →
  (∀ w client, zlength (in_window w client past) ≤ max) →
  ∀ w client, zlength (in_window w client
    (past ++ admitted qs (sliding_window max window past qs))) ≤ max.
Proof.
  revert past now0. induction qs as [|[now c] qs IH]; intros past now0 Hs Hf Hp Hb; cbn [sliding_window admitted].
  { by rewrite app_nil_r. }
  apply Forall_cons in Hf as [Hnow _]. apply StronglySorted_inv in Hs as [Hs Hall]. cbn in Hnow.
  destruct (Z.ltb_spec (zlength (recent window now c past)) max) as [Hlt|_].
  2: { cbn [app]. apply (IH past now); [done..| |done].
       eapply Forall_impl; [exact Hp|]. cbn. intros p Hle. cbv beta in *. lia. }
  rewrite app_assoc. apply (IH _ now); [done..| |].
  { apply Forall_app. split; [|by repeat constructor].
    eapply Forall_impl; [exact Hp|]. cbn. intros p Hle. cbv beta in *. lia. }
  intros w client. unfold in_window. rewrite filter_app. unfold zlength. rewrite length_app.
  rewrite filter_cons. case_decide as Hin; [|rewrite filter_nil; cbn; specialize (Hb w client); unfold zlength, in_window in Hb; lia].
  destruct Hin as [Hc Hw]. cbn in Hc, Hw. subst client. rewrite filter_nil. cbn [length].
  fold (in_window w c past).
  assert (length (in_window w c past) ≤ length (recent window now c past))%nat as Hle.
  { unfold recent, in_window. clear -Hw. induction past as [|p past IH]; [done|]. rewrite !filter_cons.
    repeat case_decide; cbn; try lia; naive_solver lia. }
  unfold zlength in Hlt. lia.
Qed.

End limiter.

Lemma limiter_inv_new max now :
  0 < max → limiter_inv max (60 * 10 ^ 9) (RateLimiter_new max) [] now.
Proof.
  intros Hmax. split; [done..|]. intros client. exists now. split_and!; [done|done|].
  change (zlength (@nil Z) ≤ max). unfold zlength. cbn. lia.
Qed.

Lemma rate_run_new qs max :
  0 < max < 2 ^ 32 → in_order qs →
  (rate_run qs (RateLimiter_new max)).1 = sliding_window max (60 * 10 ^ 9) [] qs.
Proof.
  intros Hmax Hs. destruct qs as [|[now c] qs]; [done|].
  apply (rate_run_window max (60 * 10 ^ 9) Hmax eq_refl _ _ [] now).
  - apply limiter_inv_new. lia.
  - done.
  - apply StronglySorted_inv in Hs as [_ Hall]. by constructor.
Qed.

(** The rate limiter is a sliding window: on requests in the order of their instants, it
    answers as the specification that remembers every admitted request, and admits one
    exactly when fewer than the limit of its client's were admitted in the last minute. *)
Theorem rate_limiter_exact (qs : list (Z * string)) (max : Z) :
  0 < max < 2 ^ 32 → in_order qs →
  (rate_run qs (RateLimiter_new max)).1 = sliding_window max (60 * 10 ^ 9) [] qs.
Proof. apply rate_run_new. Qed.

(** No client exceeds its rate: of requests in the order of their instants, at most the
    limit are admitted for a client within any minute, wherever it starts. *)
Theorem rate_limit_respected (qs : list (Z * string)) (max : Z) (client : string) (w : Z) :
  0 < max < 2 ^ 32 → in_order qs →
  zlength (in_window (60 * 10 ^ 9) w client
    (admitted qs (rate_run qs (RateLimiter_new max)).1)) ≤ max.
Proof.
  intros Hmax Hs. rewrite rate_run_new by done. destruct qs as [|[now c] qs]; [change (0 ≤ max); lia|].
  apply (sliding_window_bound max (60 * 10 ^ 9) ((now, c) :: qs) [] now).
  - done.
  - apply StronglySorted_inv in Hs as [_ Hall]. by constructor.
  - done.
  - intros w' client'. change (0 ≤ max). lia.
Qed.

(** C33: A client that waits is served: whatever was asked before, a request that comes a
    minute or more after the client's last admitted one is admitted. *)
Theorem rate_limiter_recovers (qs : list (Z * string)) (max now : Z) (client : string) :
  0 < max < 2 ^ 32 → in_order (qs ++ [(now, client)]) →
  (∀ t, (t, client) ∈ admitted qs (rate_run qs (RateLimiter_new max)).1 → t + 60 * 10 ^ 9 ≤ now) →
  last (rate_run (qs ++ [(now, client)]) (RateLimiter_new max)).1 = Some true.
Proof.
  intros Hmax Hs Hold. assert (in_order qs) as Hs' by by apply StronglySorted_app_1_l in Hs.
  rewrite rate_run_new in Hold by done. rewrite rate_run_new by done. clear Hs Hs'.
  cut (∀ past, (∀ t, (t, client) ∈ past ++ admitted qs (sliding_window max (60 * 10 ^ 9) past qs) →
    t + 60 * 10 ^ 9 ≤ now) →
    last (sliding_window max (60 * 10 ^ 9) past (qs ++ [(now, client)])) = Some true).
  { intros H. by apply (H []). }
  clear Hold. induction qs as [|[t c] qs IH]; intros past Hold; cbn [sliding_window app admitted] in *.
  - assert (recent (60 * 10 ^ 9) now client past = []) as ->.
    { apply filter_none, Forall_forall. intros [t c] Hin [Hc Ht]. cbn in *. subst c.
      rewrite app_nil_r in Hold. specialize (Hold t Hin). lia. }
    rewrite (proj2 (Z.ltb_lt (zlength (@nil (Z * string))) max)) by (change (0 < max); lia). done.
  - destruct (Z.ltb_spec (zlength (recent (60 * 10 ^ 9) t c past)) max).
    + rewrite last_cons, (IH (past ++ [(t, c)])); [done|]. intros t' Ht'. apply Hold.
      by rewrite <- app_assoc in Ht'.
    + rewrite last_cons, (IH past); [done|]. intros t' Ht'. by apply Hold.
Qed.

(** ** API keys *)

Inductive key_op :=
| Register (plaintext_key label : string) (role : ClientRole)
| Revoke (key_hash : string).

Section keys.
Context {SH : Sha256}.

Definition key_step (keys : gmap string ApiKeyEntry) (op : key_op) : gmap string ApiKeyEntry :=
  match op with
  | Register key label role => register key label role keys
  | Revoke h => (revoke h keys).2
  end.

(** The hash an operation is about. *)
Definition touched (op : key_op) : string :=
  match op with Register key _ _ => hash_key key | Revoke h => h end.

Lemma key_step_other keys op h : touched op ≠ h → key_step keys op !! h = keys !! h.
Proof.
  intros Hne. destruct op as [key label role|h']; cbn in *; [by apply lookup_insert_ne|].
  unfold revoke. destruct (keys !! h'); [by apply lookup_insert_ne|done].
Qed.

Lemma revoked_inactive keys h e : (revoke h keys).2 !! h = Some e → ak_active e = false.
Proof.
  unfold revoke. destruct (keys !! h) as [e'|] eqn:Hh; cbn.
  - rewrite lookup_insert_eq. by intros [= <-].
  - congruence.
Qed.

(** An API key is valid from its registration until it is revoked: after any
    operations, a key is accepted exactly when some registration of a key with its hash
    was the last operation on that hash, and with the label and the role given there. *)
Theorem api_key_lifecycle (ops : list key_op) (key : string) (e : ApiKeyEntry) :
  validate key (foldl key_step ApiKeyRegistry_new ops) = Some e ↔
  ∃ before after key' label role, ops = before ++ Register key' label role :: after ∧
    hash_key key' = hash_key key ∧ Forall (λ op, touched op ≠ hash_key key) after ∧
    e = {| ak_key_hash := hash_key key; ak_label := label; ak_role := role; ak_active := true |}.
Proof.
  unfold validate. induction ops as [|op ops IH] using rev_ind.
  - split; [done|]. intros (before & after & key' & label & role & H & _). by destruct before.
  - rewrite foldl_app. cbn [foldl]. destruct (decide (touched op = hash_key key)) as [Ht|Ht].
    + destruct op as [key' label role|h]; cbn [key_step touched] in *.
      * unfold register. rewrite Ht, lookup_insert_eq. cbn. split.
        { intros [= <-]. exists ops, [], key', label, role. done. }
        intros (before & after & key'' & label' & role' & Hops & Hh & Hf & ->).
        destruct after as [|x after _] using rev_ind.
        { apply app_inj_tail in Hops as [_ [= -> -> ->]]. done. }
        rewrite app_comm_cons, app_assoc in Hops. apply app_inj_tail in Hops as [_ <-].
        apply Forall_app in Hf as [_ Hf]. rewrite Forall_singleton in Hf. by destruct Hf.
      * subst h. split.
        { destruct ((revoke _ _).2 !! hash_key key) as [e'|] eqn:He; [|done].
          by rewrite (revoked_inactive _ _ _ He). }
        intros (before & after & key'' & label' & role' & Hops & Hh & Hf & ->).
        destruct after as [|x after _] using rev_ind.
        { by apply app_inj_tail in Hops as [_ [=]]. }
        rewrite app_comm_cons, app_assoc in Hops. apply app_inj_tail in Hops as [_ <-].
        apply Forall_app in Hf as [_ Hf]. rewrite Forall_singleton in Hf. by destruct Hf.
    + rewrite key_step_other by done. rewrite IH. split.
      * intros (before & after & key' & label & role & -> & Hh & Hf & ->).
        exists before, (after ++ [op]), key', label, role. rewrite <- app_assoc. split_and!; [done..| |done].
        apply Forall_app. split; [done|by apply Forall_singleton].
      * intros (before & after & key' & label & role & Hops & Hh & Hf & ->).
        destruct after as [|x after _] using rev_ind.
        { apply app_inj_tail in Hops as [_ ->]. by destruct Ht. }
        rewrite app_comm_cons, app_assoc in Hops. apply app_inj_tail in Hops as [-> <-].
        apply Forall_app in Hf as [Hf _]. by exists before, after, key', label, role.
Qed.

End keys.

(** ** The middleware *)

Section gate.
Context {SH : Sha256} {CJ : ClaimsJson}.

(** The credential a request shows: an API key, when there is one, and a token otherwise. *)
Definition presents (now : Z) (request : Request) (auth : AuthState) (identity : ClientIdentity)
    : Prop :=
  match req_api_key request with
  | Some key => ∃ e, as_key_registry auth !! hash_key key = Some e ∧ ak_active e = true ∧
      identity = {| ci_id := ak_key_hash e; ci_role := ak_role e |}
  | None => ∃ header token, req_authorization request = Some header ∧
      str_strip_prefix "Bearer " header = Some token ∧
      validate_jwt now token (as_config auth) = Ok identity
  end.

Lemma extract_identity_Ok now request auth identity :
  extract_identity now request auth = Ok identity ↔ presents now request auth identity.
Proof.
  unfold extract_identity, presents, validate. destruct (req_api_key request) as [key|].
  - destruct (as_key_registry auth !! hash_key key) as [e|]; [|naive_solver].
    destruct (ak_active e) eqn:Ha; (split; [|intros (e' & [= <-] & Ha' & ->)]); try congruence.
    intros [= <-]. by exists e.
  - destruct (req_authorization request) as [header|]; cbn; [|split; [done|by intros (? & ? & ? & _)]].
    destruct (str_strip_prefix "Bearer " header) as [token|] eqn:Ht; cbn.
    + transitivity (validate_jwt now token (as_config auth) = Ok identity).
      { destruct (validate_jwt now token (as_config auth)); cbn; split; congruence. }
      split; [intros H; by exists header, token|]. intros (h & t & [= <-] & Ht' & H).
      rewrite Ht in Ht'. by injection Ht' as <-.
    + split; [done|]. intros (h & t & [= <-] & Ht' & _). congruence.
Qed.

(** C8: The middleware is a gate: with authentication enabled, a request reaches its handler
    exactly when its path is a public health endpoint, or it shows a valid credential
    whose client is within its rate and is permitted what the path asks for; the
    configuration, the keys and the policy stay as they were. *)
Theorem middleware_gate (now_secs instant : Z) (request : Request) (auth : AuthState) :
  ac_enabled (as_config auth) = true → (0 < al_max_entries (rs_audit_log (as_rbac auth)))%N →
  ∃ response auth', auth_middleware now_secs instant request auth = Some (response, auth') ∧
    (response = Next ↔
       ac_allow_public_health (as_config auth) = true ∧ public_health (req_path request) = true ∨
       ∃ identity, presents now_secs request auth identity ∧
         (rate_check instant (ci_id identity) (as_rate_limiter auth)).1 = true ∧
         permitted (rs_policy (as_rbac auth)) identity (req_path request) (req_method request)) ∧
    as_config auth' = as_config auth ∧ as_key_registry auth' = as_key_registry auth ∧
    rs_policy (as_rbac auth') = rs_policy (as_rbac auth).
Proof.
  intros Hen Hmax. unfold auth_middleware. rewrite Hen. cbn [negb].
  destruct (ac_allow_public_health (as_config auth) && public_health (req_path request)) eqn:Hpub.
  { apply andb_prop in Hpub. eexists _, _. split; [done|]. naive_solver. }
  assert (¬ (ac_allow_public_health (as_config auth) = true ∧ public_health (req_path request) = true))
    as Hnot by (intros [Ha Hp]; by rewrite Ha, Hp in Hpub).
  pose proof (extract_identity_Ok now_secs request auth) as Hid.
  destruct (extract_identity now_secs request auth) as [identity|resp] eqn:Hex.
  2: { eexists _, _. split; [done|]. split; [|done]. split.
       - intros ->. exfalso. clear -Hex. unfold extract_identity, validate in Hex. case_all.
         destruct (validate_jwt _ _ _); by cbn in Hex.
       - intros [?|(i & Hi & _)]; [done|]. by apply Hid in Hi. }
  assert (presents now_secs request auth identity) as Hpres by by apply Hid.
  assert (∀ i, presents now_secs request auth i → i = identity) as Huniq
    by (intros i Hi%Hid; by injection Hi).
  destruct (rate_check instant (ci_id identity) (as_rate_limiter auth)) as [b rl] eqn:Hrate.
  destruct b; cbn [negb].
  - destruct (check_request_spec {| ar_now := now_secs; ar_identity := identity;
      ar_path := req_path request; ar_method := req_method request |} (as_rbac auth) Hmax)
      as (r & e & Hcheck & _ & Hr).
    cbn [set_rate_limiter as_rbac]. unfold check_authorization. unfold check_request in Hcheck. cbn in Hcheck, Hr.
    rewrite Hcheck. cbn [mbind option_bind]. eexists _, _. split; [done|]. split; [|done].
    destruct Hr as [[-> Hp]|[(err & -> & _) Hp]]; (split; [|done]) || split.
    + intros _. right. exists identity. rewrite Hrate. done.
    + done.
    + intros [?|(i & Hi%Huniq & _ & Hpi)]; [done|]. by subst i.
  - destruct (remaining instant (ci_id identity) rl) as [rest rl']. eexists _, _. split; [done|].
    split; [|done]. split; [done|]. intros [?|(i & Hi%Huniq & Hb & _)]; [done|]. subst i.
    by rewrite Hrate in Hb.
Qed.

End gate.

(** ** Base64

    The encoder of RFC 4648, section 5, without padding: the tokens' issuers use it. *)

Definition enc_char (n : N) : byte := default x00 (CHARSET !! N.to_nat n).

Definition encode_chunk (bytes : list byte) : list byte :=
  match Byte.to_N <$> bytes with
  | [x; y; z] =>
    [enc_char (x / 4); enc_char ((x mod 4) * 16 + y / 16);
     enc_char ((y mod 16) * 4 + z / 64); enc_char (z mod 64)]
  | [x; y] =>
    [enc_char (x / 4); enc_char ((x mod 4) * 16 + y / 16); enc_char ((y mod 16) * 4)]
  | [x] => [enc_char (x / 4); enc_char ((x mod 4) * 16)]
  | _ => []
  end%N.

Fixpoint encode_standard (bytes : list byte) : list byte :=
  match bytes with
  | x :: y :: z :: bytes => encode_chunk [x; y; z] ++ encode_standard bytes
  | _ => encode_chunk bytes
  end.

(** [+] and [/] become [-] and [_]. *)
Fixpoint to_url (s : string) : string :=
  match s with
  | String.EmptyString => String.EmptyString
  | String.String a s =>
    String.String
      (if decide (a = Ascii.ascii_of_nat 43) then Ascii.ascii_of_nat 45
       else if decide (a = slash) then Ascii.ascii_of_nat 95 else a)
      (to_url s)
  end.

Definition base64url_encode (bytes : list byte) : string :=
  to_url (String.string_of_list_byte (encode_standard bytes)).

Definition all_bytes : list byte := (u8 ∘ N.of_nat) <$> seq 0 256.

Lemma elem_of_all_bytes b : b ∈ all_bytes.
Proof. destruct b; apply (bool_decide_unpack _); vm_compute; exact I. Qed.

(** A property of all bytes, or of all pairs of them, by evaluation. *)
Lemma byte_check (f : byte → bool) : forallb f all_bytes = true → ∀ b, f b = true.
Proof. rewrite forallb_forall. intros H b. apply H, list_elem_of_In, elem_of_all_bytes. Qed.

Lemma byte_check2 (f : byte → byte → bool) :
  forallb (λ x, forallb (f x) all_bytes) all_bytes = true → ∀ x y, f x y = true.
Proof. intros H x. apply byte_check. by apply (byte_check (λ x, forallb (f x) all_bytes)). Qed.

(** Numbers below [k]. *)
Definition below (k : nat) : list N := N.of_nat <$> seq 0 k.

Lemma elem_of_below k n : (n < N.of_nat k)%N → n ∈ below k.
Proof.
  intros Hn. apply list_elem_of_fmap. exists (N.to_nat n). split; [lia|]. apply elem_of_seq. lia.
Qed.

Lemma below_check (k : nat) (f : N → bool) :
  forallb f (below k) = true → ∀ n, (n < N.of_nat k)%N → f n = true.
Proof. rewrite forallb_forall. intros H n Hn. by apply H, list_elem_of_In, elem_of_below. Qed.

(** A six-bit value survives. *)
Definition char_ok (n : N) : bool :=
  match char_to_val (enc_char n) with Ok m => (m =? n)%N | Err _ => false end
  && negb (bool_decide (enc_char n = equals_sign)).

Lemma char_roundtrip n : (n < 64)%N → char_to_val (enc_char n) = Ok n ∧ enc_char n ≠ equals_sign.
Proof.
  assert (forallb char_ok (below 64) = true) as H by (vm_compute; reflexivity).
  intros Hn. apply (below_check 64 char_ok H) in Hn. clear H. rename Hn into H.
  unfold char_ok in H. apply andb_prop in H as [H1 H2].
  destruct (char_to_val (enc_char n)) as [m|]; [|done]. apply N.eqb_eq in H1 as ->.
  split; [done|]. by apply negb_true_iff, bool_decide_eq_false in H2.
Qed.

Lemma byte_lt b : (Byte.to_N b < 256)%N.
Proof. pose proof (Byte.to_N_bounded b). lia. Qed.

(** The three shifts put the bytes back together. *)
Lemma shift_first x v :
  (v < 16)%N →
  u8 (N.lor (N.shiftl (Byte.to_N x / 4) 2) (N.shiftr ((Byte.to_N x mod 4) * 16 + v) 4)) = x.
Proof.
  intros Hv. eapply bool_decide_eq_true_1. revert x. apply byte_check. revert v Hv.
  apply (below_check 16). vm_compute. reflexivity.
Qed.

Lemma shift_second u y w :
  (u < 4)%N → (w < 4)%N →
  u8 (N.lor (N.shiftl (u * 16 + Byte.to_N y / 16) 4) (N.shiftr ((Byte.to_N y mod 16) * 4 + w) 2)) = y.
Proof.
  intros Hu Hw. eapply bool_decide_eq_true_1. revert y. apply byte_check. revert w Hw.
  apply (below_check 4). revert u Hu. apply (below_check 4). vm_compute. reflexivity.
Qed.

Lemma shift_third v z :
  (v < 16)%N →
  u8 (N.lor (N.shiftl (v * 4 + Byte.to_N z / 64) 6) (Byte.to_N z mod 64)) = z.
Proof.
  intros Hv. eapply bool_decide_eq_true_1. revert z. apply byte_check. revert v Hv.
  apply (below_check 16). vm_compute. reflexivity.
Qed.

Lemma div_below b (k m : N) : (k * m = 256 → k ≠ 0 → Byte.to_N b / k < m)%N.
Proof. intros Hk H0. apply N.Div0.div_lt_upper_bound. pose proof (byte_lt b). lia. Qed.

Lemma decode_chunk_full x y z :
  match encode_chunk [x; y; z] with
  | [a; b; c; d] => decode_chunk a b c d = Ok [x; y; z]
  | _ => False
  end.
Proof.
  cbn. unfold decode_chunk.
  pose proof (div_below x 4 64 eq_refl ltac:(done)) as Hx.
  pose proof (div_below y 16 16 eq_refl ltac:(done)) as Hy.
  pose proof (div_below z 64 4 eq_refl ltac:(done)) as Hz.
  pose proof (N.mod_lt (Byte.to_N x) 4 ltac:(done)) as Hx'.
  pose proof (N.mod_lt (Byte.to_N y) 16 ltac:(done)) as Hy'.
  pose proof (N.mod_lt (Byte.to_N z) 64 ltac:(done)) as Hz'.
  destruct (char_roundtrip (Byte.to_N x / 4)) as [-> _]; [lia|].
  destruct (char_roundtrip (Byte.to_N x mod 4 * 16 + Byte.to_N y / 16)) as [-> _]; [lia|].
  destruct (char_roundtrip (Byte.to_N y mod 16 * 4 + Byte.to_N z / 64)) as [-> Hc]; [lia|].
  destruct (char_roundtrip (Byte.to_N z mod 64)) as [-> Hd]; [lia|]. cbn [mbind result_bind].
  rewrite !decide_False by done. cbn [app].
  by rewrite shift_first, shift_second, shift_third by lia.
Qed.

Lemma decode_chunk_two x y :
  match encode_chunk [x; y] with
  | [a; b; c] => decode_chunk a b c equals_sign = Ok [x; y]
  | _ => False
  end.
Proof.
  cbn. unfold decode_chunk.
  pose proof (div_below x 4 64 eq_refl ltac:(done)) as Hx.
  pose proof (div_below y 16 16 eq_refl ltac:(done)) as Hy.
  pose proof (N.mod_lt (Byte.to_N x) 4 ltac:(done)) as Hx'.
  pose proof (N.mod_lt (Byte.to_N y) 16 ltac:(done)) as Hy'.
  destruct (char_roundtrip (Byte.to_N x / 4)) as [-> _]; [lia|].
  destruct (char_roundtrip (Byte.to_N x mod 4 * 16 + Byte.to_N y / 16)) as [-> _]; [lia|].
  destruct (char_roundtrip (Byte.to_N y mod 16 * 4)) as [-> Hc]; [lia|].
  change (char_to_val equals_sign) with (Ok (E := string) 0%N). cbn [mbind result_bind].
  rewrite (decide_False (P := enc_char _ = _)), decide_True by done. cbn [app].
  rewrite shift_first by lia. pose proof (shift_second (Byte.to_N x mod 4) y 0) as Hs.
  rewrite N.add_0_r in Hs. by rewrite Hs by lia.
Qed.

Lemma decode_chunk_one x :
  match encode_chunk [x] with
  | [a; b] => decode_chunk a b equals_sign equals_sign = Ok [x]
  | _ => False
  end.
Proof.
  cbn. unfold decode_chunk.
  pose proof (div_below x 4 64 eq_refl ltac:(done)) as Hx.
  pose proof (N.mod_lt (Byte.to_N x) 4 ltac:(done)) as Hx'.
  destruct (char_roundtrip (Byte.to_N x / 4)) as [-> _]; [lia|].
  destruct (char_roundtrip (Byte.to_N x mod 4 * 16)) as [-> _]; [lia|].
  change (char_to_val equals_sign) with (Ok (E := string) 0%N). cbn [mbind result_bind].
  rewrite !decide_True by done. cbn [app].
  pose proof (shift_first x 0) as Hs. rewrite N.add_0_r in Hs. by rewrite Hs by lia.
Qed.

(** The padding that [base64url_decode] adds. *)
Definition padding (n : nat) : list byte :=
  match Nat.modulo n 3 with 1%nat => [equals_sign; equals_sign] | 2%nat => [equals_sign] | _ => [] end.

Lemma three_ind (P : list byte → Prop) :
  P [] → (∀ x, P [x]) → (∀ x y, P [x; y]) → (∀ x y z l, P l → P (x :: y :: z :: l)) → ∀ l, P l.
Proof.
  intros H0 H1 H2 H3 l. induction l as [l IH] using (induction_ltof1 _ (@length byte)).
  destruct l as [|x [|y [|z l]]]; [done..|]. apply H3, IH. red. cbn. lia.
Qed.

Lemma decode_encode_standard bytes :
  decode_chunks (encode_standard bytes ++ padding (length bytes)) = Ok bytes ∧
  (Nat.modulo (length (encode_standard bytes)) 4 =
    match Nat.modulo (length bytes) 3 with 1 => 2 | 2 => 3 | _ => 0 end)%nat.
Proof.
  induction bytes as [|x|x y|x y z l [IH1 IH2]] using three_ind.
  - done.
  - pose proof (decode_chunk_one x) as H. cbn in H |- *. by rewrite H.
  - pose proof (decode_chunk_two x y) as H. cbn in H |- *. by rewrite H.
  - pose proof (decode_chunk_full x y z) as H.
    assert (Nat.modulo (length (x :: y :: z :: l)) 3 = Nat.modulo (length l) 3) as Hm.
    { cbn [length]. replace (S (S (S (length l)))) with (length l + 1 * 3)%nat by lia.
      by rewrite Nat.Div0.mod_add. }
    unfold padding in *. rewrite Hm. cbn [encode_standard].
    destruct (encode_chunk [x; y; z]) as [|a [|b [|c [|d [|? ?]]]]] eqn:He; try done.
    cbn [app decode_chunks]. rewrite H, IH1. cbn [mbind result_bind app]. split; [done|].
    rewrite <- IH2. cbn [length].
    replace (S (S (S (S (length (encode_standard l)))))) with (length (encode_standard l) + 1 * 4)%nat by lia.
    by rewrite Nat.Div0.mod_add.
Qed.

Lemma enc_char_in n : (n < 64)%N → enc_char n ∈ CHARSET.
Proof.
  intros Hn. apply (bool_decide_eq_true_1 _). revert n Hn. apply (below_check 64). vm_compute. reflexivity.
Qed.

Lemma encode_standard_chars bytes : Forall (λ b, b ∈ CHARSET) (encode_standard bytes).
Proof.
  assert (∀ x v, (v < 16)%N → Byte.to_N x mod 4 * 16 + v < 64)%N as H1
    by (intros x v ?; pose proof (N.mod_lt (Byte.to_N x) 4 ltac:(done)); lia).
  assert (∀ y v, (v < 4)%N → Byte.to_N y mod 16 * 4 + v < 64)%N as H2
    by (intros y v ?; pose proof (N.mod_lt (Byte.to_N y) 16 ltac:(done)); lia).
  assert (∀ y, Byte.to_N y / 16 < 16)%N as H3 by (intros y; by apply div_below).
  assert (∀ y, Byte.to_N y / 4 < 64)%N as H4 by (intros y; by apply div_below).
  assert (∀ y, Byte.to_N y / 64 < 4)%N as H5 by (intros y; by apply div_below).
  assert (∀ z, Byte.to_N z mod 64 < 64)%N as H6 by (intros z; by apply N.mod_lt).
  assert (∀ n l, (n < 64)%N → Forall (λ b, b ∈ CHARSET) l → Forall (λ b, b ∈ CHARSET) (enc_char n :: l))
    as Hc by (intros; by apply Forall_cons_2; [apply enc_char_in|]).
  induction bytes as [|x|x y|x y z l IH] using three_ind; [by apply Forall_nil_2|..];
    cbn [encode_standard encode_chunk fmap list_fmap app].
  - rewrite <- (N.add_0_r (_ * 16)). apply Hc; [done|]. apply Hc; [by apply H1|by apply Forall_nil_2].
  - rewrite <- (N.add_0_r (_ * 4)). apply Hc; [done|]. apply Hc; [by apply H1|].
    apply Hc; [by apply H2|by apply Forall_nil_2].
  - apply Hc; [done|]. apply Hc; [by apply H1|]. apply Hc; [by apply H2|]. by apply Hc.
Qed.

(** ** Strings of bytes *)

Lemma list_byte_of_string_app s t :
  String.list_byte_of_string (s +:+ t) = String.list_byte_of_string s ++ String.list_byte_of_string t.
Proof.
  induction s as [|a s IH]; [done|]. change (Ascii.byte_of_ascii a :: String.list_byte_of_string (s +:+ t) =
    Ascii.byte_of_ascii a :: String.list_byte_of_string s ++ String.list_byte_of_string t). by rewrite IH.
Qed.

Lemma length_list_byte_of_string s : length (String.list_byte_of_string s) = String.length s.
Proof. unfold String.list_byte_of_string. induction s; cbn; [done|]. by f_equal. Qed.

Lemma length_to_url s : String.length (to_url s) = String.length s.
Proof. induction s; cbn; [done|]. by f_equal. Qed.

Lemma append_empty_r s : s +:+ String.EmptyString = s.
Proof. induction s as [|a s IH]; [done|]. exact (f_equal (String.String _) IH). Qed.

Lemma to_standard_app s t : to_standard (s +:+ t) = to_standard s +:+ to_standard t.
Proof. induction s as [|a s IH]; [done|]. exact (f_equal (String.String _) IH). Qed.

Lemma string_of_list_byte_cons b l :
  String.string_of_list_byte (b :: l) = String.String (Ascii.ascii_of_byte b) (String.string_of_list_byte l).
Proof. done. Qed.

(** A text of the alphabet survives the two replacements, and has no dot. *)
Definition alphabet_ok (b : byte) : bool :=
  let a := Ascii.ascii_of_byte b in
  bool_decide (to_standard (to_url (String.String a String.EmptyString)) = String.String a String.EmptyString)
  && bool_decide (split_on dot (to_url (String.String a String.EmptyString)) =
                  [to_url (String.String a String.EmptyString)]).

Lemma alphabet_checked : forallb alphabet_ok CHARSET = true.
Proof. vm_compute. reflexivity. Qed.

Lemma to_standard_to_url l :
  Forall (λ b, b ∈ CHARSET) l →
  to_standard (to_url (String.string_of_list_byte l)) = String.string_of_list_byte l ∧
  split_on dot (to_url (String.string_of_list_byte l)) = [to_url (String.string_of_list_byte l)].
Proof.
  induction 1 as [|b l Hb _ [IH1 IH2]]; [done|]. rewrite string_of_list_byte_cons.
  pose proof alphabet_checked as Hc. rewrite forallb_forall in Hc.
  apply list_elem_of_In in Hb. specialize (Hc b Hb). unfold alphabet_ok in Hc.
  apply andb_prop in Hc as [H1%bool_decide_eq_true_1 H2%bool_decide_eq_true_1].
  cbn [to_url to_standard] in *. rewrite IH1. injection H1 as H1. rewrite H1. split; [done|].
  cbn [split_on] in H2 |- *. rewrite IH2. by case_decide.
Qed.

Lemma string_of_list_byte_spec l : String.list_byte_of_string (String.string_of_list_byte l) = l.
Proof. apply String.list_byte_of_string_of_list_byte. Qed.

Lemma base64_decode_padded bytes pad :
  String.list_byte_of_string pad = padding (length bytes) →
  base64_decode (String.string_of_list_byte (encode_standard bytes) +:+ pad) = Ok bytes.
Proof.
  intros Hpad. destruct (decode_encode_standard bytes) as [Hd Hl].
  unfold base64_decode. rewrite list_byte_of_string_app, string_of_list_byte_spec, Hpad.
  rewrite Hd. rewrite (proj2 (Nat.eqb_eq _ _)); [done|].
  rewrite length_app, Nat.Div0.add_mod, Hl. unfold padding.
  pose proof (Nat.mod_upper_bound (length bytes) 3 ltac:(done)).
  by destruct (Nat.modulo (length bytes) 3) as [|[|[|?]]]; [..|lia].
Qed.

Lemma base64url_decode_encode bytes : base64url_decode (base64url_encode bytes) = Ok bytes.
Proof.
  destruct (decode_encode_standard bytes) as [_ Hl].
  destruct (to_standard_to_url _ (encode_standard_chars bytes)) as [Hstd _].
  unfold base64url_decode, base64url_encode.
  rewrite length_to_url, <- length_list_byte_of_string, string_of_list_byte_spec, Hl.
  pose proof (base64_decode_padded bytes) as Hdec. unfold padding in Hdec.
  pose proof (Nat.mod_upper_bound (length bytes) 3 ltac:(done)).
  destruct (Nat.modulo (length bytes) 3) as [|[|[|?]]]; [..|lia].
  - specialize (Hdec String.EmptyString eq_refl). rewrite Hstd.
    by rewrite append_empty_r in Hdec.
  - rewrite to_standard_app, Hstd. by apply Hdec.
  - rewrite to_standard_app, Hstd. by apply Hdec.
Qed.

(** Base64 round trip: what the unpadded URL alphabet of RFC 4648 encodes is decoded, for
    bytes of any length, and the encoding has no dot, so it can be a part of a token. *)
Theorem base64url_roundtrip (bytes : list byte) :
  base64url_decode (base64url_encode bytes) = Ok bytes ∧
  split_on dot (base64url_encode bytes) = [base64url_encode bytes].
Proof.
  split; [apply base64url_decode_encode|].
  by destruct (to_standard_to_url _ (encode_standard_chars bytes)) as [_ Hdot].
Qed.

(** ** Tokens *)

Lemma split_on_join c s a l :
  split_on c s = a :: l → s = foldl (λ acc p, acc +:+ String.String c String.EmptyString +:+ p) a l.
Proof.
  revert a l. induction s as [|x s IH]; intros a l; cbn [split_on].
  { by intros [= <- <-]. }
  assert (∀ l x a, foldl (λ acc p, acc +:+ String.String c String.EmptyString +:+ p) (String.String x a) l =
    String.String x (foldl (λ acc p, acc +:+ String.String c String.EmptyString +:+ p) a l)) as Hcons.
  { clear. intros l. induction l as [|p l IH]; intros x a; [done|]. apply IH. }
  destruct (split_on c s) as [|b k] eqn:Hs.
  { destruct s; cbn in Hs; [done|]. case_decide; [done|]. by destruct (split_on c s). }
  case_decide as Hx; intros [= <- <-].
  - subst x. change (String.String c s = foldl (λ acc p, acc +:+ String.String c String.EmptyString +:+ p)
      (String.String c b) k). rewrite Hcons. f_equal. by apply IH.
  - rewrite Hcons. f_equal. by apply IH.
Qed.

Lemma split_on_app c a t :
  split_on c a = [a] → split_on c (a +:+ String.String c t) = a :: split_on c t.
Proof.
  induction a as [|x a IH]; intros Ha.
  - change (split_on c (String.String c t) = String.EmptyString :: split_on c t).
    cbn [split_on]. by rewrite decide_True.
  - cbn [split_on] in Ha. case_decide as Hx.
    { destruct (split_on c a); [done|]. by injection Ha. }
    change (split_on c (String.String x (a +:+ String.String c t)) = String.String x a :: split_on c t).
    cbn [split_on]. rewrite decide_False by done. rewrite IH; [done|].
    destruct (split_on c a) as [|b l] eqn:Hs; injection Ha.
    + intros <-. done.
    + intros -> ->. done.
Qed.

Lemma split_on_dot a t : split_on dot a = [a] → split_on dot (a +:+ "." +:+ t) = a :: split_on dot t.
Proof. apply (split_on_app dot). Qed.

Definition bytes_of (s : string) : list byte := String.list_byte_of_string s.

Section jwt.
Context {SH : Sha256} {CJ : ClaimsJson}.

(** The identity that claims describe. *)
Definition identity_of (claims : Claims) : ClientIdentity :=
  {| ci_id := default "unknown" (cl_sub claims); ci_role := claimed_role (cl_role claims) |}.

(** What an issuer that holds the secret sends. *)
Definition issue_token (header : string) (payload : list byte) (secret : string) : string :=
  let signing_input := header +:+ "." +:+ base64url_encode payload in
  signing_input +:+ "." +:+ base64url_encode (hmac_sha256 (bytes_of signing_input) (bytes_of secret)).

Lemma append_assoc s t u : (s +:+ t) +:+ u = s +:+ (t +:+ u).
Proof. induction s as [|a s IH]; [done|]. exact (f_equal (String.String _) IH). Qed.

(** An issued token is accepted: a token made with the configured secret, over any header
    without a dot and a payload whose claims parse and have not expired, is validated as
    the identity its claims describe. *)
Theorem issued_token_accepted (now : Z) (config : AuthConfig) (header secret : string)
    (payload : list byte) (claims : Claims) :
  ac_jwt_secret config = Some secret → split_on dot header = [header] →
  parse_claims payload = Some claims → (∀ exp, cl_exp claims = Some exp → now ≤ exp) →
  validate_jwt now (issue_token header payload secret) config = Ok (identity_of claims).
Proof.
  intros Hsecret Hheader Hparse Hexp. unfold validate_jwt, issue_token. rewrite Hsecret.
  destruct (to_standard_to_url _ (encode_standard_chars payload)) as [_ Hp].
  cbn [ok_or mbind result_bind]. set (sig := hmac_sha256 _ _).
  destruct (to_standard_to_url _ (encode_standard_chars sig)) as [_ Hs].
  fold (base64url_encode payload) in Hp. fold (base64url_encode sig) in Hs.
  rewrite !append_assoc.
  rewrite (split_on_dot header), (split_on_dot (base64url_encode payload)), Hs by done.
  rewrite !base64url_decode_encode. cbn [map_err mbind result_bind].
  rewrite bool_decide_true by done. rewrite Hparse. cbn [negb ok_or mbind result_bind].
  destruct (cl_exp claims) as [exp|] eqn:He; [|done].
  destruct (Z.ltb_spec exp now); [|done]. specialize (Hexp exp eq_refl). lia.
Qed.

(** C34: An accepted token is signed: it has three parts, the last decodes to the HMAC of the
    first two under the configured secret, the claims of the second have not expired, and
    the identity is the one they describe. *)
Theorem accepted_token_signed (now : Z) (token : string) (config : AuthConfig)
    (identity : ClientIdentity) :
  validate_jwt now token config = Ok identity →
  ∃ secret part0 part1 part2 payload claims, ac_jwt_secret config = Some secret ∧
    token = part0 +:+ "." +:+ part1 +:+ "." +:+ part2 ∧
    base64url_decode part2 =
      Ok (hmac_sha256 (bytes_of (part0 +:+ "." +:+ part1)) (bytes_of secret)) ∧
    base64url_decode part1 = Ok payload ∧ parse_claims payload = Some claims ∧
    (∀ exp, cl_exp claims = Some exp → now ≤ exp) ∧ identity = identity_of claims.
Proof.
  unfold validate_jwt. intros (secret & Hsecret%ok_or_Ok & H)%result_bind_Ok.
  destruct (split_on dot token) as [|p0 [|p1 [|p2 [|? ?]]]] eqn:Hsplit; try done.
  apply split_on_join in Hsplit. cbn in Hsplit.
  destruct (base64url_decode p1) as [payload|] eqn:Hp; [|done]. cbn [map_err mbind result_bind] in H.
  destruct (base64url_decode p2) as [sig|] eqn:Hs; [|done]. cbn [map_err mbind result_bind] in H.
  case_bool_decide as Hsig; [|done]. cbn [negb] in H. apply result_bind_Ok in H as (claims & Hc%ok_or_Ok & H).
  exists secret, p0, p1, p2, payload, claims. subst sig.
  destruct (match cl_exp claims with Some exp => exp <? now | None => false end) eqn:Hexp; [done|].
  injection H as <-. split_and!; [done| |done..| |done].
  - by rewrite Hsplit, append_assoc.
  - intros exp He. rewrite He in Hexp. apply Z.ltb_ge in Hexp. lia.
Qed.

End jwt.
