(* ===== verification/ZkpExamples.v ===== *)
(** * Proofs, circuits and access on concrete inputs

    The theorems of [Zkp.v] and [Circuit.v] applied to a small tree and a small
    circuit, and the circuits that are not verified as their gates mean; keys, certificates
    and contracts that move between instances; and the witnesses of the theorems on access
    control, [Rbac.v] and [AuthSpec.v]. *)

From S2P Require Import Prelude Floats Modality Circuit Zkp VerificationKeys ProofStore Rbac Auth AuthSpec.
From Stdlib Require Import SpecFloat NArith.
From Stdlib Require Import Strings.Byte.
From Stdlib Require Import DecimalString DecimalZ.

(** A digest to run the examples with: the xor of the bytes, 32 times. *)
Definition toy_sha256 : Sha256 :=
  {| sha256 := λ l, Vector.const (default x00 (Byte.of_N (foldl (λ a b, N.lxor a (Byte.to_N b)) 7%N l))) 32 |}.

(** JSON that is always empty. *)
Definition toy_json : CircuitJson :=
  {| ir_to_vec := λ _, Ok []; constraint_to_vec := λ _, Ok [] |}.

Definition wires_iter : HashIter N := elements_iter N.

Definition three_leaves : list (list byte) := [[x01]; [x02; x03]; [x04]].


Lemma merkle_node_accepted_witness :
  let SH := toy_sha256 in
  verify_merkle_proof {| mk_leaf := hash [x01] ++ hash [x02]; mk_path := [];
    mk_root := merkle_root [[x01]; [x02]] |} = true ∧
  (hash [x01] ++ hash [x02] : list byte) ∉ [[x01]; [x02]].
Proof.
  intros SH. destruct (merkle_node_accepted [x01] [x02]) as [Hv Hn]. split; [exact Hv|].
  by apply Hn.
Defined.

Definition private_request : ZkpProofRequest :=
  {| rq_claim := [x09]; rq_privacy_level := Private; rq_circuit_name := None;
     rq_witness := None; rq_public_inputs := None;
     rq_membership_set := Some three_leaves; rq_membership_index := Some 1 |}.

Lemma proof_binds_claim_witness :
  let SH := toy_sha256 in let CH := milli_chrono in
  [x09] = rq_claim private_request ∨ sha256_collision.
Proof.
  intros SH CH. destruct (generate_zkp (5%Z : @DateTime milli_chrono) private_request) as [p|e] eqn:Hp;
    [|exfalso; revert Hp; vm_compute; discriminate].
  apply (proof_binds_claim (5%Z : @DateTime milli_chrono) private_request p [x09]); [exact Hp|done|].
  assert (match generate_zkp (5%Z : @DateTime milli_chrono) private_request with
          | Ok p => verify_zkp p [x09] | Err _ => false end = true) as Hv by (vm_compute; reflexivity).
  by rewrite Hp in Hv.
Defined.

(** [a] and [b] are public, [c] is [a AND b] and [d] is [a XOR b]. *)
Definition wire (name : string) (public : bool) : WireDef :=
  {| wd_name := name; wd_is_public := public; wd_is_output := false |}.
Definition gate (t : GateType) (inputs : list string) (output : string) : GateDef :=
  {| gd_gate_type := t; gd_inputs := inputs; gd_output := output |}.
Definition circuit_of (gates : list GateDef) : CircuitDef :=
  {| cd_name := "example";
     cd_wires := [wire "a" true; wire "b" true; wire "c" false; wire "d" false];
     cd_gates := gates; cd_parameters := ["a"] |}.
Definition half_adder : CircuitDef :=
  circuit_of [gate And ["a"; "b"] "c"; gate Xor ["a"; "b"] "d"].

Lemma compile_checks_types_witness :
  let SH := toy_sha256 in let CJ := toy_json in
  is_ok (compile_circuit half_adder) = true ↔
  Forall (gate_ok (wire_names half_adder)) (cd_gates half_adder).
Proof. intros SH CJ. apply (compile_checks_types half_adder). done. Defined.

Lemma verify_boolean_gates_witness :
  let SH := toy_sha256 in let CJ := toy_json in let HI := wires_iter in
  let v := λ name, bool_decide (name ≠ "d") in
  ∃ c, compile_circuit half_adder = Ok c ∧
    verify c [enc true; enc false] [enc true; enc true] = Ok true.
Proof.
  intros SH CJ HI v.
  apply (verify_boolean_gates half_adder [wire "a" true; wire "b" true]
           [wire "c" false; wire "d" false] v).
  - done.
  - done.
  - repeat constructor.
  - repeat constructor; by intros [=].
  - apply (bool_decide_unpack _). vm_compute. exact I.
  - done.
  - repeat (constructor; [split; [apply (compile_gate_ok (cd_wires half_adder)); vm_compute; reflexivity|]; vm_compute; naive_solver|]).
    constructor.
Defined.

Definition mixed : CircuitDef :=
  circuit_of [gate Or ["a"; "b"] "c"; gate Not ["a"] "d"; gate LinearCombination ["a"; "b"] "d"].

Lemma gates_miscompiled_witness :
  let HI := wires_iter in
  let wires := cd_wires mixed in
  ∃ c, compile_gate (ws_map (add_wires wires)) (gate Not ["a"] "d") = Ok c ∧
    satisfied ((λ w, enc (bool_decide (wd_name w = "a"))) <$> wires) c =
    Bool.eqb (bool_decide ("d" = "a")) (bool_decide ("a" = "a")).
Proof.
  intros HI wires.
  destruct (compile_gate (ws_map (add_wires wires)) (gate Not ["a"] "d")) as [c|e] eqn:Hc;
    [|exfalso; revert Hc; vm_compute; discriminate].
  exists c. split; [done|].
  assert (NoDup (wd_name <$> wires)) as Hnd by (apply (bool_decide_unpack _); vm_compute; exact I).
  assert ("a" ≠ "d") as Hne by done.
  exact (gates_miscompiled wires (λ name, bool_decide (name = "a")) (gate Not ["a"] "d") c
           Hnd eq_refl Hc Hne).
Defined.

(** A single product of which one factor is private. *)
Lemma nan_witness_accepted_witness :
  let SH := toy_sha256 in let CJ := toy_json in let HI := wires_iter in
  ∃ c, compile_circuit (circuit_of [gate And ["a"; "c"] "b"]) = Ok c ∧
    verify c [S754_nan; S754_nan] [f64_of_Z 3; f64_of_Z 5] = Ok true.
Proof.
  intros SH CJ HI.
  destruct (compile_circuit (circuit_of [gate And ["a"; "c"] "b"])) as [c|e] eqn:Hc;
    [|exfalso; revert Hc; vm_compute; discriminate].
  assert (match compile_circuit (circuit_of [gate And ["a"; "c"] "b"]) with
          | Ok c => (2 =? ir_num_public_inputs (cc_ir c))%nat &&
              (2 =? expected_witness_len (cc_ir c))%Z &&
              forallb (λ k, bool_decide (2%N ∈ constraint_wires k)) (ir_constraints (cc_ir c))
          | Err _ => false end = true) as Hfacts by (vm_compute; reflexivity).
  rewrite Hc in Hfacts. apply andb_prop in Hfacts as [[Hp Hw]%andb_prop Hk].
  exists c. split; [done|].
  apply (nan_witness_accepted c [f64_of_Z 3; f64_of_Z 5] 2).
  - by apply Nat.eqb_eq.
  - by apply Z.eqb_eq.
  - intros k Hin. exists 2%N. split; [|cbn; lia].
    rewrite forallb_forall in Hk. eapply bool_decide_eq_true_1, Hk. by apply list_elem_of_In.
Defined.

(** ** Access control on concrete requests

    The theorems of [Rbac.v], [AuthSpec.v] and [AuthSpec.v] applied to a client with a
    token, a client with a key, and a handful of requests. *)

Local Open Scope Z_scope.

Definition alice : ClientIdentity := {| ci_id := "alice"; ci_role := Writer |}.

Definition alice_claims : Claims :=
  {| cl_exp := Some 100; cl_sub := Some "alice"; cl_role := Some "writer" |}.

(** A parser for which every payload holds the same claims. *)
Definition toy_claims : ClaimsJson := {| parse_claims := λ _, Some alice_claims |}.

Definition guarded : AuthConfig :=
  {| ac_enabled := true; ac_allow_public_health := true; ac_rate_limit_per_minute := 2;
     ac_jwt_secret := Some "secret" |}.

Lemma access_decision_witness :
  ∃ r rbac' e,
    check_access 7 alice "/hexads/h1" PUT RbacState_default = Some (r, rbac') ∧
    (r = Ok () ↔ permitted RbacPolicy_default alice "/hexads/h1" PUT) ∧
    (∀ err, r = Err err → az_code err = 403) ∧ rs_policy rbac' = RbacPolicy_default ∧
    last (al_entries (rs_audit_log rbac')) = Some e ∧ ae_client_id e = "alice" ∧
    ae_resource_path e = "/hexads/h1" ∧ ae_decision e = if is_ok r then Allowed else Denied.
Proof. apply (access_decision 7 alice "/hexads/h1" PUT RbacState_default). done. Defined.

Definition three_requests : list AccessRequest :=
  (λ now, {| ar_now := now; ar_identity := alice; ar_path := "/hexads/h1"; ar_method := GET |})
    <$> [1; 2; 3].

Lemma audit_log_window_witness :
  ∃ rs log, check_requests three_requests
      {| rs_policy := RbacPolicy_default; rs_audit_log := AuditLog_new 2 |} =
      Some (rs, {| rs_policy := RbacPolicy_default; rs_audit_log := log |}) ∧
    length rs = 3%nat ∧
    entry_facts <$> al_entries log = last_n 2 (zip_with request_facts three_requests rs) ∧
    (N.of_nat (length (al_entries log)) ≤ 2)%N.
Proof. apply (audit_log_window three_requests RbacPolicy_default 2). done. Defined.

Lemma issued_token_accepted_witness :
  let SH := toy_sha256 in let CJ := toy_claims in
  validate_jwt 50 (issue_token "header" [x01; x02] "secret") guarded = Ok alice.
Proof.
  intros SH CJ. apply (issued_token_accepted 50 guarded "header" "secret" [x01; x02] alice_claims).
  - done.
  - done.
  - done.
  - intros exp [= <-]. lia.
Defined.

Lemma accepted_token_signed_witness :
  let SH := toy_sha256 in let CJ := toy_claims in
  ∃ secret part0 part1 part2 payload claims, ac_jwt_secret guarded = Some secret ∧
    issue_token "header" [x01; x02] "secret" = part0 +:+ "." +:+ part1 +:+ "." +:+ part2 ∧
    base64url_decode part2 =
      Ok (hmac_sha256 (bytes_of (part0 +:+ "." +:+ part1)) (bytes_of secret)) ∧
    base64url_decode part1 = Ok payload ∧ parse_claims payload = Some claims ∧
    (∀ exp, cl_exp claims = Some exp → 50 ≤ exp) ∧ alice = identity_of claims.
Proof.
  intros SH CJ. apply (accepted_token_signed 50 _ guarded alice). vm_compute. reflexivity.
Defined.

(** Four requests of one client under a limit of two, the last a minute later. *)
Definition burst : list (Z * string) :=
  [(0, "alice"); (1, "alice"); (2, "alice"); (61 * 10 ^ 9, "alice")].

Lemma burst_in_order : in_order burst.
Proof. repeat constructor; cbn; lia. Qed.

Lemma rate_limiter_exact_witness :
  (rate_run burst (RateLimiter_new 2)).1 = [true; true; false; true].
Proof.
  transitivity (sliding_window 2 (60 * 10 ^ 9) [] burst); [|vm_compute; reflexivity].
  apply rate_limiter_exact; [lia|exact burst_in_order].
Defined.

Lemma rate_limit_respected_witness :
  zlength (in_window (60 * 10 ^ 9) 0 "alice" (admitted burst (rate_run burst (RateLimiter_new 2)).1)) ≤ 2.
Proof. apply rate_limit_respected; [lia|exact burst_in_order]. Defined.

Lemma rate_limiter_recovers_witness :
  last (rate_run (take 3 burst ++ [(61 * 10 ^ 9, "alice")]) (RateLimiter_new 2)).1 = Some true.
Proof.
  apply rate_limiter_recovers; [lia|exact burst_in_order|].
  assert (admitted (take 3 burst) (rate_run (take 3 burst) (RateLimiter_new 2)).1 =
          [(0, "alice"); (1, "alice")]) as -> by (vm_compute; reflexivity).
  intros t [[= ->]|[[= ->]|[]%elem_of_nil]%elem_of_cons]%elem_of_cons; lia.
Defined.

(** A registered key. *)
Definition keyed {SH : Sha256} : AuthState :=
  {| as_config := guarded; as_key_registry := register "k" "laptop" Writer ApiKeyRegistry_new;
     as_rate_limiter := RateLimiter_new 2; as_rbac := RbacState_default |}.

Definition put_request : Request :=
  {| req_path := "/hexads/h1"; req_method := PUT; req_api_key := Some "k";
     req_authorization := None |}.

Lemma middleware_gate_witness :
  let SH := toy_sha256 in let CJ := toy_claims in
  ∃ response auth', auth_middleware 50 0 put_request keyed = Some (response, auth') ∧
    response = Next.
Proof.
  intros SH CJ.
  destruct (middleware_gate 50 0 put_request keyed eq_refl eq_refl) as (response & auth' & Hrun & Hgate & _).
  exists response, auth'. split; [exact Hrun|]. apply Hgate. right.
  exists {| ci_id := hash_key "k"; ci_role := Writer |}. split_and!.
  - eexists. split; [vm_compute; reflexivity|]. split; vm_compute; reflexivity.
  - vm_compute. reflexivity.
  - right. eexists. split; [reflexivity|]. left. vm_compute. repeat constructor.
Defined.

(** ** Stored proofs, keys and certificates

    The clock has a readable text; CBOR reads one byte as a commitment and nothing else; JSON
    is the first field's name. *)

#[local] Existing Instance milli_chrono.
#[local] Existing Instance toy_sha256.

Definition at_time (z : Z) : DateTime := z.
Definition ms_of (t : DateTime (Chrono := milli_chrono)) : Z := t.

(** Instants are milliseconds, written in decimal; a difference is in nanoseconds. *)
Definition decimal_text : ChronoText :=
  {| rfc3339 := λ t, NilEmpty.string_of_int (Z.to_int (ms_of t));
     parse_from_rfc3339 := λ s, (at_time ∘ Z.of_int) <$> NilEmpty.int_of_string s;
     timestamp_nanos_opt := λ t, Some (ms_of t * 10 ^ 6);
     signed_duration_since := λ a b, (ms_of a - ms_of b) * 10 ^ 6 |}.

Lemma decimal_text_laws : ChronoTextLaws decimal_text.
Proof.
  split. intros t. cbn. rewrite NilEmpty.isi. cbn. by rewrite DecimalZ.of_to.
Qed.

#[local] Existing Instance decimal_text.
#[local] Existing Instance decimal_text_laws.

Definition toy_cbor : Ciborium :=
  {| proof_data_from_cbor := λ l, match l with [x00] => Ok (Commitment zero_hash) | _ => Err "eof" end;
     proof_blob_to_cbor := λ _, Err "unsupported"; proof_blob_from_cbor := λ _, Err "eof" |}.

Definition toy_certificates : CertificateCodec :=
  {| certificate_to_json := λ c, Ok (x7b :: x22 :: as_bytes "version:" ++ as_bytes (pc_statement c));
     certificate_from_json := λ _, Err "eof"; certificate_from_cbor := λ _, Err "eof" |}.

Definition toy_contracts : ContractCodec :=
  {| contract_to_json := λ c, Ok (x7b :: x22 :: as_bytes "contract_id:" ++ as_bytes (sc_contract_id c));
     report_from_json := λ _, Err "eof" |}.

#[local] Existing Instance toy_cbor.
#[local] Existing Instance toy_certificates.
#[local] Existing Instance toy_contracts.

#[local] Instance toy_cbor_laws : CiboriumLaws toy_cbor.
Proof. by split; intros [|a n] rest. Qed.

#[local] Instance toy_codec_laws : CodecLaws toy_certificates toy_contracts.
Proof.
  split; intros c data [= <-].
  - by exists (as_bytes "version"), (as_bytes ":" ++ as_bytes (pc_statement c)).
  - by exists (as_bytes "contrac"), (as_bytes "t_id:" ++ as_bytes (sc_contract_id c)).
Qed.

Definition no_proofs : InMemorySemanticStore :=
  {| sem_types := ∅; sem_annotations := ∅; sem_proofs := ∅ |}.

(** A certificate that says itself that its proof is not valid. *)
Definition refuted : ProvenCertificate := create_certificate (at_time 5) Coq "0 = 1" None false None.

Lemma stored_certificate_counts_witness :
  verify_proven_certificate "" refuted = Ok false ∧
  ∃ p, certificate_to_proof_blob refuted = Ok p ∧
       verify_proofs "0 = 1" (store_proof p no_proofs).2 = Ok (1, 1)%nat.
Proof.
  split; [vm_compute; reflexivity|]. eexists. split; [vm_compute; reflexivity|].
  apply (stored_certificate_counts refuted); [vm_compute; reflexivity..].
Defined.


#[local] Instance toy_names : HashIter string := elements_iter string.

(** Two keys for one circuit, a third for another, exported to a peer. *)
Definition key_calls : list stored_call :=
  [(at_time 1, "c", [x01]); (at_time 2, "d", [x02]); (at_time 3, "c", [x03])].

Lemma export_import_roundtrip_witness :
  ∃ bundle, export_keys (store_all key_calls "a") = Ok bundle ∧
    let peer := import_keys (λ _, at_time 4) bundle (VerificationKeyStore_new "b") in
    peer.1 = Ok 2%nat ∧ get_key "a:c" peer.2 = Ok (Some [x03]) ∧ get_key "a:d" peer.2 = Ok (Some [x02]).
Proof.
  eexists. split; [reflexivity|]. cbv zeta.
  destruct (import_keys _ _ _) as [r s'] eqn:E.
  destruct (export_import_roundtrip key_calls "a" (λ _, at_time 4) (VerificationKeyStore_new "b")
              _ _ _ (λ _, lookup_empty _) eq_refl E) as (Hr & Hk & _).
  split; [exact Hr|]. split; [exact (Hk "c")|exact (Hk "d")].
Defined.

Lemma reimport_ends_transition_witness :
  let x := {| ek_circuit_name := "c"; ek_key := [x03]; ek_version := 5; ek_fingerprint := "" |} in
  let bundle := {| kb_source_instance := "a"; kb_keys := [x] |} in
  let s := with_keys {["a:c" := VerificationKeyEntry_new (at_time 1) "c" [x01]]}
             (VerificationKeyStore_new "b") in
  (import_keys (λ _, at_time 2) bundle s).1 = Ok 1%nat.
Proof.
  intros x bundle s.
  pose proof (reimport_ends_transition (λ _, at_time 2) (λ _, at_time 3) "a" x s
    (VerificationKeyEntry_new (at_time 1) "c" [x01]) eq_refl
    ltac:(unfold is_u64; cbn; lia) ltac:(cbn; lia) ltac:(cbn; lia) ltac:(cbn; discriminate)) as H.
  cbv zeta in H. destruct (import_keys (λ _, at_time 2) _ s) as [r s1].
  destruct (import_keys (λ _, at_time 3) _ s1) as [r2 s2]. exact (proj1 H).
Defined.
