(* ===== verification/Regeneration.v ===== *)
(** * Regeneration of drifted modalities

    Models [src/rust-core/verisim-normalizer/src/regeneration.rs]: the authority order, the
    choice of a strategy, the three strategies with their audit trail, and the queue of
    entities that wait for a person.  The regenerator is a trait; the summary-only one is
    its instance.  A call of the engine appends to the queue and the trail and reads
    nothing from them, so its calls need no interleaving. *)

From S2P Require Import Prelude Floats Provenance Temporal Graph Modality HexadTypes.
From stdpp Require Import pretty.
From Stdlib Require String.
Local Open Scope Z_scope.

(** ** Modalities *)

(** The type [Modality] of the crate. *)
Inductive modality :=
| MDocument | MSemantic | MGraph | MVector | MTensor | MTemporal | MProvenance | MSpatial.

#[export] Instance modality_eq_dec : EqDecision modality.
Proof. solve_decision. Defined.

#[export] Instance modality_countable : Countable modality.
Proof.
  refine (inj_countable'
    (λ m, match m with MDocument => 0 | MSemantic => 1 | MGraph => 2 | MVector => 3 | MTensor => 4
          | MTemporal => 5 | MProvenance => 6 | MSpatial => 7 end)%nat
    (λ n, match n with 0 => MDocument | 1 => MSemantic | 2 => MGraph | 3 => MVector | 4 => MTensor
          | 5 => MTemporal | 6 => MProvenance | _ => MSpatial end)%nat _).
  by intros [].
Defined.

Definition DEFAULT_AUTHORITY_ORDER : list modality :=
  [MDocument; MSemantic; MProvenance; MGraph; MVector; MTensor; MSpatial; MTemporal].

(** [Display] *)
Definition modality_to_string (m : modality) : string :=
  match m with
  | MDocument => "document" | MSemantic => "semantic" | MGraph => "graph" | MVector => "vector"
  | MTensor => "tensor" | MTemporal => "temporal" | MProvenance => "provenance"
  | MSpatial => "spatial"
  end.

Definition geometry_to_string (g : GeometryType) : string :=
  match g with
  | Point => "Point" | LineString => "LineString" | Polygon => "Polygon"
  | MultiPoint => "MultiPoint" | MultiPolygon => "MultiPolygon"
  end.

Section regeneration.
Context {CH : Chrono} {FD : FloatDisplay} {XD : FixedDisplay}.

Definition is_some {A} (o : option A) : bool := match o with Some _ => true | None => false end.

Definition is_present_on (m : modality) (hexad : Hexad) : bool :=
  match m with
  | MDocument => is_some (h_document hexad)
  | MSemantic => is_some (h_semantic hexad)
  | MGraph => is_some (h_graph_node hexad)
  | MVector => is_some (h_embedding hexad)
  | MTensor => is_some (h_tensor hexad)
  | MTemporal => 0 <? h_version_count hexad
  | MProvenance => 0 <? h_provenance_chain_length hexad
  | MSpatial => is_some (h_spatial_data hexad)
  end.

Definition summarize (m : modality) (hexad : Hexad) : option string :=
  match m with
  | MDocument => (λ d, "document(title='" +:+ doc_title d +:+ "', body_len="
      +:+ pretty (String.length (doc_body d)) +:+ ")") <$> h_document hexad
  | MSemantic => (λ s, "semantic(types=" +:+ pretty (length (sa_types s)) +:+ ", properties="
      +:+ pretty (size (sa_properties s)) +:+ ")") <$> h_semantic hexad
  | MGraph => (λ g, "graph(iri='" +:+ iri g +:+ "', local_name='" +:+ local_name g +:+ "')")
      <$> h_graph_node hexad
  | MVector => (λ e, "vector(dim=" +:+ pretty (length (emb_vector e)) +:+ ")") <$> h_embedding hexad
  | MTensor => (λ t, "tensor(shape=" +:+ debug_list (ten_shape t) +:+ ", len="
      +:+ pretty (length (ten_data t)) +:+ ")") <$> h_tensor hexad
  | MTemporal =>
    if 0 <? h_version_count hexad then
      Some ("temporal(versions=" +:+ pretty (h_version_count hexad) +:+ ")")
    else None
  | MProvenance =>
    if 0 <? h_provenance_chain_length hexad then
      Some ("provenance(chain_length=" +:+ pretty (h_provenance_chain_length hexad) +:+ ")")
    else None
  | MSpatial => (λ s, "spatial(lat=" +:+ f64_to_string (co_latitude (sd_coordinates s))
      +:+ ", lon=" +:+ f64_to_string (co_longitude (sd_coordinates s))
      +:+ ", type=" +:+ geometry_to_string (sd_geometry_type s) +:+ ")") <$> h_spatial_data hexad
  end.

(** ** Configuration *)

Inductive RegenerationStrategy := FromAuthoritative | Merge | UserResolve.

Record RegenerationConfig := {
  rc_authority_order : list modality;
  rc_default_strategy : RegenerationStrategy;
  rc_modality_strategies : gmap modality RegenerationStrategy;
  rc_drift_threshold : f64;
  rc_max_concurrent : nat;
}.

Definition RegenerationConfig_default : RegenerationConfig :=
  {| rc_authority_order := DEFAULT_AUTHORITY_ORDER; rc_default_strategy := FromAuthoritative;
     rc_modality_strategies := ∅; rc_drift_threshold := f64_literal 3 1; rc_max_concurrent := 10 |}.

Definition strategy_for (m : modality) (config : RegenerationConfig) : RegenerationStrategy :=
  default (rc_default_strategy config) (rc_modality_strategies config !! m).

(** [position] of the first element equal to [m] *)
Definition position (m : modality) (l : list modality) : option nat := fst <$> list_find (eq m) l.

Definition authority_weight (m : modality) (config : RegenerationConfig) : f64 :=
  let n := f64_of_Z (Z.of_nat (length (rc_authority_order config))) in
  match position m (rc_authority_order config) with
  | Some idx => f64_sub n (f64_of_Z (Z.of_nat idx))
  | None => f64_of_Z 0
  end.

(** ** The trail, the queue and the results *)

Record NormalizationEvent := {
  ne_entity_id : string; ne_drifted_modality : modality; ne_strategy_used : RegenerationStrategy;
  ne_source_modality : option modality; ne_pre_drift_score : f64;
  ne_post_drift_score : option f64; ne_timestamp : DateTime; ne_success : bool;
}.

Inductive RegenerationResult :=
| Repaired (event : NormalizationEvent)
| PendingResolution (entity_id reason : string)
| NoActionNeeded
| Failed (error : string).

Record PendingNormalization := {
  pn_entity_id : string; pn_drifted_modality : modality; pn_drift_score : f64;
  pn_queued_at : DateTime;
}.

Definition NormalizationQueue : Type := list PendingNormalization.

Definition enqueue (item : PendingNormalization) (q : list PendingNormalization)
    : list PendingNormalization := q ++ [item].

(** [pending.remove(i)] of the first match. *)
Definition queue_resolve (entity_id : string) (m : modality) (q : list PendingNormalization)
    : option PendingNormalization * list PendingNormalization :=
  match list_find (λ p, pn_entity_id p = entity_id ∧ pn_drifted_modality p = m) q with
  | Some (i, p) => (Some p, delete i q)
  | None => (None, q)
  end.

Definition queue_drain (q : list PendingNormalization)
    : list PendingNormalization * list PendingNormalization := (q, []).

Inductive NormalizerError :=
| NormalizationFailed (entity_id message : string)
| StrategyNotFound (e : string)
| NormalizerHexadError (e : string)
| ChannelError (e : string).

Definition normalizer_error_to_string (e : NormalizerError) : string :=
  match e with
  | NormalizationFailed entity_id message =>
    "Normalization failed for " +:+ entity_id +:+ ": " +:+ message
  | StrategyNotFound e => "Strategy not found: " +:+ e
  | NormalizerHexadError e => "Hexad error: " +:+ e
  | ChannelError e => "Channel error: " +:+ e
  end.

(** ** Regenerators *)

Record ModalityRegenerator := {
  regenerate_from : Hexad → modality → modality → result NormalizerError string;
  merge_into : Hexad → list (modality * f64) → modality → result NormalizerError string;
  measure_drift : Hexad → modality → result NormalizerError f64;
}.

Definition summary_of (m : modality) (hexad : Hexad) : string :=
  default (modality_to_string m +:+ " (empty)") (summarize m hexad).

Definition SummaryRegenerator : ModalityRegenerator := {|
  regenerate_from := λ hexad source target,
    Ok ("Regenerated " +:+ modality_to_string target +:+ " from " +:+ modality_to_string source
          +:+ " [" +:+ summary_of source hexad +:+ "]");
  merge_into := λ hexad sources target,
    let parts := (λ '(m, w), modality_to_string m +:+ "(w=" +:+ f64_fixed 2 w +:+ ") ["
                               +:+ summary_of m hexad +:+ "]") <$> sources in
    Ok ("Merged into " +:+ modality_to_string target +:+ " from: " +:+ String.concat ", " parts);
  measure_drift := λ _ _, Ok (f64_of_Z 0);
|}.

(** ** The engine *)

Record RegenerationEngine := {
  re_config : RegenerationConfig;
  re_queue : list PendingNormalization;
  re_events : list NormalizationEvent;
  re_regenerator : ModalityRegenerator;
}.

Definition with_regenerator (config : RegenerationConfig) (r : ModalityRegenerator)
    : RegenerationEngine :=
  {| re_config := config; re_queue := []; re_events := []; re_regenerator := r |}.

Definition RegenerationEngine_new (config : RegenerationConfig) : RegenerationEngine :=
  with_regenerator config SummaryRegenerator.

Definition record_event (event : NormalizationEvent) (e : RegenerationEngine) : RegenerationEngine :=
  {| re_config := re_config e; re_queue := re_queue e; re_events := re_events e ++ [event];
     re_regenerator := re_regenerator e |}.

Definition queue_pending (item : PendingNormalization) (e : RegenerationEngine) : RegenerationEngine :=
  {| re_config := re_config e; re_queue := enqueue item (re_queue e); re_events := re_events e;
     re_regenerator := re_regenerator e |}.

Definition event_of (hexad : Hexad) (drifted : modality) (strategy : RegenerationStrategy)
    (source : option modality) (score : f64) (post : option f64) (now : DateTime) (success : bool)
    : NormalizationEvent :=
  {| ne_entity_id := h_id hexad; ne_drifted_modality := drifted; ne_strategy_used := strategy;
     ne_source_modality := source; ne_pre_drift_score := score; ne_post_drift_score := post;
     ne_timestamp := now; ne_success := success |}.

(** [.ok()] *)
Definition result_ok {E A} (r : result E A) : option A :=
  match r with Ok a => Some a | Err _ => None end.

(** The two arms that follow a call of the regenerator. *)
Definition finish (now : DateTime) (hexad : Hexad) (drifted : modality)
    (strategy : RegenerationStrategy) (source : option modality) (score : f64)
    (outcome : result NormalizerError string) (e : RegenerationEngine)
    : RegenerationResult * RegenerationEngine :=
  match outcome with
  | Ok _ =>
    let post := result_ok (measure_drift (re_regenerator e) hexad drifted) in
    let event := event_of hexad drifted strategy source score post now true in
    (Repaired event, record_event event e)
  | Err err =>
    let event := event_of hexad drifted strategy source score None now false in
    (Failed (normalizer_error_to_string err), record_event event e)
  end.

(** Whether a modality can serve as a source. *)
Definition usable (hexad : Hexad) (drifted m : modality) : bool :=
  bool_decide (m ≠ drifted) && is_present_on m hexad.

Definition execute_from_authoritative (now : DateTime) (hexad : Hexad) (drifted : modality)
    (score : f64) (e : RegenerationEngine) : RegenerationResult * RegenerationEngine :=
  match list_find (λ m, usable hexad drifted m = true) (rc_authority_order (re_config e)) with
  | None =>
    let event := event_of hexad drifted FromAuthoritative None score None now false in
    (Failed ("No authoritative source available for " +:+ modality_to_string drifted
               +:+ " on entity " +:+ h_id hexad), record_event event e)
  | Some (_, source) =>
    finish now hexad drifted FromAuthoritative (Some source) score
      (regenerate_from (re_regenerator e) hexad source drifted) e
  end.

Definition execute_merge (now : DateTime) (hexad : Hexad) (drifted : modality) (score : f64)
    (e : RegenerationEngine) : RegenerationResult * RegenerationEngine :=
  let sources :=
    (λ m, (m, authority_weight m (re_config e)))
      <$> filter (λ m, usable hexad drifted m = true) (rc_authority_order (re_config e)) in
  match sources with
  | [] =>
    let event := event_of hexad drifted Merge None score None now false in
    (Failed ("No source modalities available for merge into " +:+ modality_to_string drifted
               +:+ " on entity " +:+ h_id hexad), record_event event e)
  | _ =>
    finish now hexad drifted Merge None score
      (merge_into (re_regenerator e) hexad sources drifted) e
  end.

Definition execute_user_resolve (now : DateTime) (hexad : Hexad) (drifted : modality) (score : f64)
    (e : RegenerationEngine) : RegenerationResult * RegenerationEngine :=
  let pending := {| pn_entity_id := h_id hexad; pn_drifted_modality := drifted;
                    pn_drift_score := score; pn_queued_at := now |} in
  let e := queue_pending pending e in
  let event := event_of hexad drifted UserResolve None score None now true in
  (PendingResolution (h_id hexad)
     (modality_to_string drifted +:+ " drift (score " +:+ f64_fixed 3 score
        +:+ ") requires manual resolution per strategy config"), record_event event e).

Definition regenerate (now : DateTime) (hexad : Hexad) (drifted : modality) (score : f64)
    (e : RegenerationEngine) : RegenerationResult * RegenerationEngine :=
  if f64_leb score (rc_drift_threshold (re_config e)) then (NoActionNeeded, e)
  else
    match strategy_for drifted (re_config e) with
    | FromAuthoritative => execute_from_authoritative now hexad drifted score e
    | Merge => execute_merge now hexad drifted score e
    | UserResolve => execute_user_resolve now hexad drifted score e
    end.

End regeneration.

(** ** What a regeneration does

    The trail, the queue and the source a call of [regenerate] chooses. *)

Section regeneration.
Context {CH : Chrono} {FD : FloatDisplay} {XD : FixedDisplay}.

(** [m] is the highest-ranked modality that can serve as a source. *)
Definition best_source (order : list modality) (hexad : Hexad) (drifted m : modality) : Prop :=
  ∃ l1 l2, order = l1 ++ m :: l2 ∧ m ≠ drifted ∧ is_present_on m hexad = true ∧
    ∀ n, n ∈ l1 → n = drifted ∨ is_present_on n hexad = false.

Definition no_source (order : list modality) (hexad : Hexad) (drifted : modality) : Prop :=
  ∀ n, n ∈ order → n = drifted ∨ is_present_on n hexad = false.

Lemma usable_false hexad drifted n :
  usable hexad drifted n ≠ true → n = drifted ∨ is_present_on n hexad = false.
Proof.
  unfold usable. intros H%not_true_is_false. apply andb_false_iff in H as [H|H]; [|by right].
  apply bool_decide_eq_false in H. left. by destruct (decide (n = drifted)).
Qed.

Lemma find_source order hexad drifted :
  match list_find (λ m, usable hexad drifted m = true) order with
  | Some (_, m) => best_source order hexad drifted m
  | None => no_source order hexad drifted
  end.
Proof.
  destruct (list_find _ _) as [[i m]|] eqn:Hf.
  - apply list_find_Some in Hf as (Hi & Hu & Hbefore).
    exists (take i order), (drop (S i) order). split; [by rewrite take_drop_middle|].
    unfold usable in Hu. apply andb_true_iff in Hu as [Hne%bool_decide_eq_true Hp].
    split_and!; [done..|]. intros n (j & Hj)%list_elem_of_lookup. apply usable_false.
    apply lookup_take_Some in Hj as [Hj Hlt]. by eapply Hbefore.
  - apply list_find_None in Hf. intros n Hn. by apply usable_false, (proj1 (Forall_forall _ _) Hf n Hn).
Qed.

(** A modality that is present has a summary, and no other has. *)
Lemma present_has_summary m hexad : is_present_on m hexad = is_some (summarize m hexad).
Proof.
  destruct m; cbn;
    [by destruct (h_document hexad)|by destruct (h_semantic hexad)|by destruct (h_graph_node hexad)
    |by destruct (h_embedding hexad)|by destruct (h_tensor hexad)|by case_match..
    |by destruct (h_spatial_data hexad)].
Qed.

(** What the trail records of a request, whatever came of it. *)
Definition recorded (hexad : Hexad) (drifted : modality) (strategy : RegenerationStrategy)
    (score : f64) (now : DateTime) (ev : NormalizationEvent) : Prop :=
  ne_entity_id ev = h_id hexad ∧ ne_drifted_modality ev = drifted ∧
  ne_strategy_used ev = strategy ∧ ne_pre_drift_score ev = score ∧ ne_timestamp ev = now.

(** How the result of a call, its event and the queue agree. *)
Definition outcome_agrees (e e' : RegenerationEngine) (hexad : Hexad) (drifted : modality)
    (score : f64) (now : DateTime) (ev : NormalizationEvent) (res : RegenerationResult) : Prop :=
  match res with
  | NoActionNeeded => False
  | Repaired ev' =>
    ev' = ev ∧ ne_success ev = true ∧ ne_strategy_used ev ≠ UserResolve ∧
    ne_post_drift_score ev = result_ok (measure_drift (re_regenerator e) hexad drifted) ∧
    re_queue e' = re_queue e
  | Failed _ =>
    ne_success ev = false ∧ ne_post_drift_score ev = None ∧ re_queue e' = re_queue e
  | PendingResolution id _ =>
    id = h_id hexad ∧ ne_strategy_used ev = UserResolve ∧
    re_queue e' = re_queue e ++
      [{| pn_entity_id := h_id hexad; pn_drifted_modality := drifted; pn_drift_score := score;
          pn_queued_at := now |}]
  end.

(** Which source the event names. *)
Definition source_agrees (order : list modality) (hexad : Hexad) (drifted : modality)
    (ev : NormalizationEvent) : Prop :=
  match ne_strategy_used ev, ne_source_modality ev with
  | FromAuthoritative, Some m => best_source order hexad drifted m
  | FromAuthoritative, None => no_source order hexad drifted ∧ ne_success ev = false
  | Merge, None => no_source order hexad drifted → ne_success ev = false
  | UserResolve, None => True
  | _, Some _ => False
  end.

Definition regenerated (e e' : RegenerationEngine) (hexad : Hexad) (drifted : modality)
    (strategy : RegenerationStrategy) (score : f64) (now : DateTime) (res : RegenerationResult)
    : Prop :=
  re_config e' = re_config e ∧ re_regenerator e' = re_regenerator e ∧
  ∃ ev, re_events e' = re_events e ++ [ev] ∧ recorded hexad drifted strategy score now ev ∧
    outcome_agrees e e' hexad drifted score now ev res ∧
    source_agrees (rc_authority_order (re_config e)) hexad drifted ev.

Ltac agree := split; [done|split; [done|eexists; split; [reflexivity|]]];
  unfold recorded, outcome_agrees, source_agrees; cbn; split_and!; try done.

Lemma from_authoritative_spec now hexad drifted score e res e' :
  execute_from_authoritative now hexad drifted score e = (res, e') →
  regenerated e e' hexad drifted FromAuthoritative score now res.
Proof.
  unfold execute_from_authoritative.
  pose proof (find_source (rc_authority_order (re_config e)) hexad drifted) as Hs.
  destruct (list_find _ _) as [[i m]|]; [unfold finish; case_match|];
    intros [= <- <-]; agree.
Qed.

Lemma merge_spec now hexad drifted score e res e' :
  execute_merge now hexad drifted score e = (res, e') →
  regenerated e e' hexad drifted Merge score now res.
Proof.
  unfold execute_merge. set (order := rc_authority_order (re_config e)).
  destruct (filter _ order) as [|m l] eqn:Hl; cbn; [intros [= <- <-]; by agree|].
  assert (¬ no_source order hexad drifted) as Hsome.
  { intros Hno. assert (m ∈ filter (λ m, usable hexad drifted m = true) order) as Hm
      by (rewrite Hl; by left).
    apply list_elem_of_filter in Hm as [Hu Hm]. unfold usable in Hu.
    apply andb_true_iff in Hu as [Hne%bool_decide_eq_true Hp].
    destruct (Hno m Hm); congruence. }
  unfold finish. case_match; intros [= <- <-]; by agree.
Qed.

(** A call with a score above the threshold leaves exactly one event on the trail,
    under the strategy configured for the drifted modality, and its success flag, its drift
    score after repair and the queue agree with the result: a repair is recorded as one, a
    failure as one and with no score, and only a request for a person is queued.  The
    authoritative strategy names the first modality of the authority order that is present
    and not the drifted one, and fails when there is none; a merge without a source fails
    too.  A score at or below the threshold changes nothing. *)
Theorem regenerate_spec now hexad drifted score e :
  let '(res, e') := regenerate now hexad drifted score e in
  if f64_leb score (rc_drift_threshold (re_config e)) then res = NoActionNeeded ∧ e' = e
  else regenerated e e' hexad drifted (strategy_for drifted (re_config e)) score now res.
Proof.
  destruct (regenerate _ _ _ _ _) as [res e'] eqn:H. unfold regenerate in H.
  destruct (f64_leb _ _); [by simplify_eq|]. destruct (strategy_for _ _).
  - by apply from_authoritative_spec.
  - by apply merge_spec.
  - unfold execute_user_resolve in H. simplify_eq. agree.
Qed.

End regeneration.
