(* ===== verification/Conflict.v ===== *)
(** * Conflict resolution

    Models [src/rust-core/verisim-normalizer/src/conflict.rs]: conflicts between modalities,
    the policies that pick a winner, and their way from the active list to the bounded
    history.  The two lists have a lock each: an operation decides under the lock of the
    active list, gives it back, removes the conflict from the active list in a second
    critical section and appends it to the history in a third.  The three are separate
    definitions, which the end of this file interleaves. *)

From S2P Require Import Prelude Floats Provenance Temporal Graph Modality HexadTypes Regeneration.
From stdpp Require Import pretty.
From Stdlib Require String.

Section conflict.
Context {CH : Chrono} {XD : FixedDisplay}.

(** ** Data *)

Inductive ConflictPolicy :=
| LastWriterWins
| ModalityPriority (order : list modality)
| ManualResolve
| AutoMerge
| CustomPolicy (name : string).

Definition policy_to_string (p : ConflictPolicy) : string :=
  match p with
  | LastWriterWins => "last_writer_wins"
  | ModalityPriority _ => "modality_priority"
  | ManualResolve => "manual_resolve"
  | AutoMerge => "auto_merge"
  | CustomPolicy name => "custom(" +:+ name +:+ ")"
  end.

Inductive ConflictStatus := Open | InProgress | Resolved | Dismissed.

#[export] Instance ConflictStatus_eq_dec : EqDecision ConflictStatus.
Proof. solve_decision. Defined.

Record ConflictResolution := {
  cr_resolved_at : DateTime; cr_policy_used : ConflictPolicy;
  cr_winning_modality : option modality; cr_resolver : string; cr_notes : option string;
}.

Record Conflict := {
  cf_id : string; cf_entity_id : string; cf_detected_at : DateTime;
  cf_conflicting_modalities : list modality; cf_drift_score : f64; cf_description : string;
  cf_status : ConflictStatus; cf_resolution : option ConflictResolution;
}.

Record ConflictConfig := {
  cc_default_policy : ConflictPolicy;
  cc_per_modality_policies : gmap (modality * modality) ConflictPolicy;
  cc_auto_resolve_threshold : f64; cc_require_manual_above : f64;
  cc_max_history_entries : nat;
}.

Definition ConflictConfig_default : ConflictConfig :=
  {| cc_default_policy := LastWriterWins; cc_per_modality_policies := ∅;
     cc_auto_resolve_threshold := f64_literal 3 1; cc_require_manual_above := f64_literal 8 1;
     cc_max_history_entries := 1000 |}.

(** [get(&(a, b)).or_else(|| get(&(b, a)))] *)
Definition pair_policy (config : ConflictConfig) (a b : modality) : option ConflictPolicy :=
  match cc_per_modality_policies config !! (a, b) with
  | Some p => Some p
  | None => cc_per_modality_policies config !! (b, a)
  end.

Definition policy_for_pair (config : ConflictConfig) (a b : modality) : ConflictPolicy :=
  default (cc_default_policy config) (pair_policy config a b).

Inductive ConflictError :=
| ConflictNotFound (id : string)
| AlreadyResolved (id : string)
| InvalidPolicy (message : string)
| ModalityNotInConflict (message : string).

(** ** The policies *)

(** The pairs [(i, j)] with [i < j], in the order of the two loops. *)
Fixpoint pairs (l : list modality) : list (modality * modality) :=
  match l with
  | [] => []
  | m :: l => ((λ n, (m, n)) <$> l) ++ pairs l
  end.

Definition select_policy (config : ConflictConfig) (conflict : Conflict) : ConflictPolicy :=
  default (cc_default_policy config)
    (head (omap (λ '(a, b), pair_policy config a b) (pairs (cf_conflicting_modalities conflict)))).

(** The loop of [ModalityPriority]: the index and the modality found so far. *)
Definition better (order : list modality) (best : option (nat * modality)) (m : modality)
    : option (nat * modality) :=
  match position m order with
  | Some idx =>
    match best with
    | None => Some (idx, m)
    | Some (best_idx, b) => if (idx <? best_idx)%nat then Some (idx, m) else Some (best_idx, b)
    end
  | None => best
  end.

Definition winner (policy : ConflictPolicy) (modalities : list modality) : option modality :=
  match policy with
  | LastWriterWins => last modalities
  | ModalityPriority order =>
    match foldl (better order) None modalities with
    | Some (_, m) => Some m
    | None => head modalities
    end
  | AutoMerge | ManualResolve | CustomPolicy _ => None
  end.

Definition apply_policy (now : DateTime) (conflict : Conflict) (policy : ConflictPolicy)
    : ConflictResolution :=
  {| cr_resolved_at := now; cr_policy_used := policy;
     cr_winning_modality := winner policy (cf_conflicting_modalities conflict);
     cr_resolver := "system"; cr_notes := None |}.

(** ** The resolver *)

Record ConflictResolver := {
  cr_config : ConflictConfig; active_conflicts : list Conflict; history : list Conflict;
}.

Definition ConflictResolver_new (config : ConflictConfig) : ConflictResolver :=
  {| cr_config := config; active_conflicts := []; history := [] |}.

Definition set_active (l : list Conflict) (r : ConflictResolver) : ConflictResolver :=
  {| cr_config := cr_config r; active_conflicts := l; history := history r |}.

Definition set_status (s : ConflictStatus) (c : Conflict) : Conflict :=
  {| cf_id := cf_id c; cf_entity_id := cf_entity_id c; cf_detected_at := cf_detected_at c;
     cf_conflicting_modalities := cf_conflicting_modalities c;
     cf_drift_score := cf_drift_score c; cf_description := cf_description c; cf_status := s;
     cf_resolution := cf_resolution c |}.

Definition set_resolution (res : ConflictResolution) (c : Conflict) : Conflict :=
  {| cf_id := cf_id c; cf_entity_id := cf_entity_id c; cf_detected_at := cf_detected_at c;
     cf_conflicting_modalities := cf_conflicting_modalities c;
     cf_drift_score := cf_drift_score c; cf_description := cf_description c;
     cf_status := cf_status c; cf_resolution := Some res |}.

(** [id] is the fresh UUID. *)
Definition detect_conflict (id : string) (now : DateTime) (entity_id : string)
    (modalities : list modality) (drift_score : f64) (description : string) (r : ConflictResolver)
    : Conflict * ConflictResolver :=
  let conflict :=
    {| cf_id := id; cf_entity_id := entity_id; cf_detected_at := now;
       cf_conflicting_modalities := modalities; cf_drift_score := drift_score;
       cf_description := description; cf_status := Open; cf_resolution := None |} in
  (conflict, set_active (active_conflicts r ++ [conflict]) r).

(** [iter_mut().find(|c| c.id == conflict_id)] with what is done to the conflict found:
    the result and the conflict as it is left. *)
Definition on_conflict {A} (conflict_id : string)
    (f : Conflict → result ConflictError A * Conflict) (r : ConflictResolver)
    : result ConflictError A * ConflictResolver :=
  match list_find (λ c, cf_id c = conflict_id) (active_conflicts r) with
  | None => (Err (ConflictNotFound conflict_id), r)
  | Some (i, c) =>
    let '(res, c) := f c in (res, set_active (<[i := c]> (active_conflicts r)) r)
  end.

Definition finished (c : Conflict) : bool :=
  bool_decide (cf_status c = Resolved) || bool_decide (cf_status c = Dismissed).

(** The first critical section of [resolve]: the resolution, and the conflict to move. *)
Definition resolve_decide (conflict_id : string) (policy : option ConflictPolicy) (now : DateTime)
    (r : ConflictResolver) : result ConflictError (ConflictResolution * Conflict) * ConflictResolver :=
  on_conflict conflict_id (λ conflict,
    if finished conflict then (Err (AlreadyResolved conflict_id), conflict)
    else if f64_leb (cc_require_manual_above (cr_config r)) (cf_drift_score conflict) then
      (Err (InvalidPolicy ("Drift score " +:+ f64_fixed 3 (cf_drift_score conflict)
         +:+ " >= manual threshold " +:+ f64_fixed 3 (cc_require_manual_above (cr_config r))
         +:+ " -- use resolve_manual()")), set_status InProgress conflict)
    else
      let effective_policy :=
        match policy with Some p => p | None => select_policy (cr_config r) conflict end in
      match effective_policy with
      | ManualResolve =>
        (Err (InvalidPolicy "ManualResolve policy requires resolve_manual()"),
         set_status InProgress conflict)
      | CustomPolicy name =>
        (Err (InvalidPolicy ("Custom policy '" +:+ name +:+ "' requires external resolver callback")),
         set_status InProgress conflict)
      | _ =>
        let resolution := apply_policy now conflict effective_policy in
        let resolved := set_resolution resolution (set_status Resolved conflict) in
        (Ok (resolution, resolved), resolved)
      end) r.

(** [{:?}] of a list of modalities. *)
Definition debug_modality (m : modality) : string :=
  match m with
  | MDocument => "Document" | MSemantic => "Semantic" | MGraph => "Graph" | MVector => "Vector"
  | MTensor => "Tensor" | MTemporal => "Temporal" | MProvenance => "Provenance"
  | MSpatial => "Spatial"
  end.

Definition resolve_manual_decide (conflict_id : string) (winning_modality : modality)
    (resolver : string) (notes : option string) (now : DateTime) (r : ConflictResolver)
    : result ConflictError (ConflictResolution * Conflict) * ConflictResolver :=
  on_conflict conflict_id (λ conflict,
    if finished conflict then (Err (AlreadyResolved conflict_id), conflict)
    else if negb (bool_decide (winning_modality ∈ cf_conflicting_modalities conflict)) then
      (Err (ModalityNotInConflict (modality_to_string winning_modality
         +:+ " is not in conflicting modalities ["
         +:+ String.concat ", " (debug_modality <$> cf_conflicting_modalities conflict) +:+ "]")),
       conflict)
    else
      let resolution :=
        {| cr_resolved_at := now; cr_policy_used := ManualResolve;
           cr_winning_modality := Some winning_modality; cr_resolver := resolver;
           cr_notes := notes |} in
      let resolved := set_resolution resolution (set_status Resolved conflict) in
      (Ok (resolution, resolved), resolved)) r.

Definition dismiss_decide (conflict_id reason : string) (now : DateTime) (r : ConflictResolver)
    : result ConflictError (() * Conflict) * ConflictResolver :=
  on_conflict conflict_id (λ conflict,
    if finished conflict then (Err (AlreadyResolved conflict_id), conflict)
    else
      let dismissed := set_resolution
        {| cr_resolved_at := now; cr_policy_used := LastWriterWins; cr_winning_modality := None;
           cr_resolver := "system"; cr_notes := Some ("Dismissed: " +:+ reason) |}
        (set_status Dismissed conflict) in
      (Ok ((), dismissed), dismissed)) r.

(** The second critical section: [active.retain(|c| c.id != conflict.id)]. *)
Definition remove_active (conflict : Conflict) (r : ConflictResolver) : ConflictResolver :=
  set_active (filter (λ c, cf_id c ≠ cf_id conflict) (active_conflicts r)) r.

(** The third: the oldest entries are evicted. *)
Definition push_history (conflict : Conflict) (r : ConflictResolver) : ConflictResolver :=
  let hist := history r ++ [conflict] in
  let max := cc_max_history_entries (cr_config r) in
  {| cr_config := cr_config r; active_conflicts := active_conflicts r;
     history := drop (length hist - max) hist |}.

Definition move_to_history (conflict : Conflict) (r : ConflictResolver) : ConflictResolver :=
  push_history conflict (remove_active conflict r).

(** The operations as a caller runs them alone. *)
Definition then_move {A} (d : result ConflictError (A * Conflict) * ConflictResolver)
    : result ConflictError A * ConflictResolver :=
  match d with
  | (Ok (a, c), r) => (Ok a, move_to_history c r)
  | (Err e, r) => (Err e, r)
  end.

Definition resolve (conflict_id : string) (policy : option ConflictPolicy) (now : DateTime)
    (r : ConflictResolver) : result ConflictError ConflictResolution * ConflictResolver :=
  then_move (resolve_decide conflict_id policy now r).

Definition resolve_manual (conflict_id : string) (winning_modality : modality) (resolver : string)
    (notes : option string) (now : DateTime) (r : ConflictResolver)
    : result ConflictError ConflictResolution * ConflictResolver :=
  then_move (resolve_manual_decide conflict_id winning_modality resolver notes now r).

Definition dismiss (conflict_id reason : string) (now : DateTime) (r : ConflictResolver)
    : result ConflictError () * ConflictResolver :=
  then_move (dismiss_decide conflict_id reason now r).

(** ** Queries *)

Definition recent_history (limit : nat) (r : ConflictResolver) : list Conflict :=
  if ((limit =? 0) || (length (history r) <=? limit))%nat then reverse (history r)
  else reverse (drop (length (history r) - limit) (history r)).

Definition by_entity (entity_id : string) (r : ConflictResolver) : list Conflict :=
  filter (λ c, cf_entity_id c = entity_id) (active_conflicts r)
  ++ reverse (filter (λ c, cf_entity_id c = entity_id) (history r)).

End conflict.

(** ** The life of a conflict

    The critical sections of concurrent callers as a step relation: no conflict is lost,
    none is resolved twice, and the history is the window of the last ones.  And what
    [resolve] decides. *)

Section lifecycle.
Context {CH : Chrono} {XD : FixedDisplay}.

(** ** Concurrent callers *)

(** The resolver, the moves callers have begun (before the second and before the third
    critical section), and what has happened so far. *)
Record system := {
  sy_resolver : ConflictResolver;
  sy_removing : list Conflict;
  sy_pushing : list Conflict;
  sy_detected : list string;
  sy_pushed : list Conflict;
}.

Definition system_new (config : ConflictConfig) : system :=
  {| sy_resolver := ConflictResolver_new config; sy_removing := []; sy_pushing := [];
     sy_detected := []; sy_pushed := [] |}.

(** The decisions a caller can make. *)
Inductive decision : ConflictResolver → option Conflict → ConflictResolver → Prop :=
| decision_resolve id policy now r o r' :
    resolve_decide id policy now r = (o, r') →
    decision r (match o with Ok (_, c) => Some c | Err _ => None end) r'
| decision_manual id m resolver notes now r o r' :
    resolve_manual_decide id m resolver notes now r = (o, r') →
    decision r (match o with Ok (_, c) => Some c | Err _ => None end) r'
| decision_dismiss id reason now r o r' :
    dismiss_decide id reason now r = (o, r') →
    decision r (match o with Ok (_, c) => Some c | Err _ => None end) r'.

(** One critical section; a UUID is fresh. *)
Inductive step : system → system → Prop :=
| step_detect s id now entity modalities score description :
    id ∉ sy_detected s →
    step s {| sy_resolver := (detect_conflict id now entity modalities score description
                                (sy_resolver s)).2;
              sy_removing := sy_removing s; sy_pushing := sy_pushing s;
              sy_detected := sy_detected s ++ [id]; sy_pushed := sy_pushed s |}
| step_decide s o r :
    decision (sy_resolver s) o r →
    step s {| sy_resolver := r; sy_removing := option_list o ++ sy_removing s;
              sy_pushing := sy_pushing s; sy_detected := sy_detected s;
              sy_pushed := sy_pushed s |}
| step_remove s c l1 l2 :
    sy_removing s = l1 ++ c :: l2 →
    step s {| sy_resolver := remove_active c (sy_resolver s); sy_removing := l1 ++ l2;
              sy_pushing := c :: sy_pushing s; sy_detected := sy_detected s;
              sy_pushed := sy_pushed s |}
| step_push s c l1 l2 :
    sy_pushing s = l1 ++ c :: l2 →
    step s {| sy_resolver := push_history c (sy_resolver s); sy_removing := sy_removing s;
              sy_pushing := l1 ++ l2; sy_detected := sy_detected s;
              sy_pushed := sy_pushed s ++ [c] |}.

Definition reachable (config : ConflictConfig) (s : system) : Prop := rtc step (system_new config) s.

(** ** The invariant *)

Definition closed (c : Conflict) : Prop := finished c = true ∧ is_Some (cf_resolution c).

Definition waiting (l : list Conflict) : list Conflict := filter (λ c, finished c = false) l.

Record lifecycle_inv (config : ConflictConfig) (s : system) : Prop := {
  lc_config : cr_config (sy_resolver s) = config;
  lc_nodup : NoDup (sy_detected s);
  lc_active : NoDup (cf_id <$> active_conflicts (sy_resolver s));
  lc_removing : ∀ c, c ∈ sy_removing s ↔ c ∈ active_conflicts (sy_resolver s) ∧ finished c = true;
  lc_nodup_removing : NoDup (sy_removing s);
  lc_closed : Forall closed (sy_removing s ++ sy_pushing s ++ sy_pushed s);
  lc_all : (cf_id <$> waiting (active_conflicts (sy_resolver s))
            ++ sy_removing s ++ sy_pushing s ++ sy_pushed s) ≡ₚ sy_detected s;
  lc_history : history (sy_resolver s) =
    drop (length (sy_pushed s) - cc_max_history_entries config) (sy_pushed s);
}.

(** What a decision does to the active list. *)
Lemma on_conflict_spec {A} id (f : Conflict → result ConflictError A * Conflict) r o r' :
  on_conflict id f r = (o, r') →
  (o = Err (ConflictNotFound id) ∧ r' = r) ∨
  ∃ l1 c l2, active_conflicts r = l1 ++ c :: l2 ∧ cf_id c = id ∧ o = (f c).1 ∧
    r' = set_active (l1 ++ (f c).2 :: l2) r.
Proof.
  unfold on_conflict. destruct (list_find _ _) as [[i c]|] eqn:Hf.
  - apply list_find_Some in Hf as (Hi & Hid & _). destruct (f c) as [res c'] eqn:Hfc.
    intros [= <- <-]. right. pose proof (take_drop_middle _ _ _ Hi) as Hsplit.
    eexists (take i _), c, (drop (S i) _). split; [by rewrite Hsplit|]. rewrite Hfc. split_and!; [done..|].
    f_equal. rewrite insert_take_drop; [done|]. by eapply lookup_lt_Some.
  - intros [= <- <-]. by left.
Qed.

(** A decision about an unfinished conflict: it is closed, or stays unfinished. *)
Definition decides (c c' : Conflict) (o : option Conflict) : Prop :=
  cf_id c' = cf_id c ∧
  match o with
  | Some d => finished c = false ∧ d = c' ∧ closed c'
  | None => finished c' = finished c ∧ (finished c = true → c' = c)
  end.

(** Closes the cases of [decision_spec]. *)
Ltac decided := cbn; repeat (split || by eauto); try discriminate; try done.

Lemma decision_spec r o r' :
  decision r o r' →
  (o = None ∧ r' = r) ∨
  ∃ l1 c c' l2, active_conflicts r = l1 ++ c :: l2 ∧ decides c c' o ∧
    r' = set_active (l1 ++ c' :: l2) r.
Proof.
  unfold decides, closed. intros [id policy now r0 o0 r0' H|id m resolver notes now r0 o0 r0' H|id reason now r0 o0 r0' H];
    apply on_conflict_spec in H as [[-> ->]|(l1 & c & l2 & Ha & _ & -> & ->)]; try (by left); right;
    eexists l1, c, _, l2; (split; [done|]); (split; [|done]); cbv beta.
  - destruct (finished c) eqn:Hfin; [done|]. case_match; [done|]. cbv zeta.
    destruct (match policy with Some p => p | None => _ end); decided.
  - destruct (finished c) eqn:Hfin; [done|]. case_match; decided.
  - destruct (finished c) eqn:Hfin; [done|]. decided.
Qed.

Lemma waiting_app l k : waiting (l ++ k) = waiting l ++ waiting k.
Proof. apply filter_app. Qed.

Lemma waiting_cons c l : waiting (c :: l) = if finished c then waiting l else c :: waiting l.
Proof. unfold waiting. rewrite filter_cons. by destruct (finished c). Qed.

Lemma inv_detect config s id now entity modalities score description :
  id ∉ sy_detected s → lifecycle_inv config s →
  lifecycle_inv config {| sy_resolver := (detect_conflict id now entity modalities score description
                                (sy_resolver s)).2;
              sy_removing := sy_removing s; sy_pushing := sy_pushing s;
              sy_detected := sy_detected s ++ [id]; sy_pushed := sy_pushed s |}.
Proof.
  intros Hid [Hcfg Hnd Hact Hrem Hnr Hcl Hall Hhist]. cbn.
  assert (∀ c, c ∈ active_conflicts (sy_resolver s) → cf_id c ∈ sy_detected s) as Hin.
  { intros c Hc. rewrite <- Hall. apply list_elem_of_fmap_2. destruct (finished c) eqn:Hf.
    - apply elem_of_app. right. apply elem_of_app. left. by apply Hrem.
    - apply elem_of_app. left. by apply list_elem_of_filter. }
  split; cbn; [done| | | |done|done| |done].
  - apply NoDup_app. split_and!; [done|set_solver|apply NoDup_singleton].
  - rewrite fmap_app. apply NoDup_app. split_and!; [done| |apply NoDup_singleton].
    intros i (c & -> & Hc)%list_elem_of_fmap. cbn. intros Hi%list_elem_of_singleton. apply Hid.
    rewrite <- Hi. by apply Hin.
  - intros c. rewrite Hrem, elem_of_app, list_elem_of_singleton. split; [naive_solver|].
    intros [[?| ->] ?]; [done|done].
  - rewrite waiting_app, <- Hall, <- app_assoc,
      !(fmap_app _ (waiting (active_conflicts (sy_resolver s)))), <- app_assoc.
    apply Permutation_app_head. rewrite (fmap_app _ (waiting [_])). apply Permutation_app_comm.
Qed.

(** Two conflicts of the active list with one id are the same. *)
Lemma same_id_same (l : list Conflict) c d :
  NoDup (cf_id <$> l) → c ∈ l → d ∈ l → cf_id c = cf_id d → c = d.
Proof.
  intros Hnd [i Hi]%list_elem_of_lookup [j Hj]%list_elem_of_lookup He.
  assert (i = j) as ->.
  { apply (NoDup_lookup (cf_id <$> l) i j (cf_id c)); [done|..]; rewrite list_lookup_fmap;
      [by rewrite Hi|rewrite Hj; cbn; by rewrite He]. }
  by simplify_eq.
Qed.

Lemma decides_elem_of l1 c c' l2 o d :
  decides c c' o → d ∈ l1 ++ c' :: l2 ∧ finished d = true ↔
  d ∈ option_list o ++ filter (λ d, finished d = true) (l1 ++ c :: l2).
Proof.
  intros (Hid & Ho). rewrite !elem_of_app, list_elem_of_filter, !elem_of_app, !elem_of_cons.
  destruct o as [e|]; cbn.
  - destruct Ho as (Hf & -> & Hc & _). rewrite list_elem_of_singleton. naive_solver congruence.
  - destruct Ho as (Hf & He). rewrite elem_of_nil. destruct (finished c) eqn:Hfc.
    + rewrite (He eq_refl). naive_solver.
    + naive_solver congruence.
Qed.

Lemma decides_waiting l1 c c' l2 o :
  decides c c' o →
  (cf_id <$> waiting (l1 ++ c' :: l2) ++ option_list o) ≡ₚ (cf_id <$> waiting (l1 ++ c :: l2)).
Proof.
  intros (Hid & Ho). rewrite !waiting_app, !waiting_cons. destruct o as [d|]; cbn.
  - destruct Ho as (Hf & -> & [Hc _]). rewrite Hf, Hc, !fmap_app. cbn. rewrite Hid.
    rewrite <- Permutation_cons_append. apply Permutation_middle.
  - destruct Ho as (Hf & _). rewrite Hf, app_nil_r, !fmap_app.
    destruct (finished c); cbn; [done|]. by rewrite Hid.
Qed.

Lemma inv_decide config s o r :
  decision (sy_resolver s) o r → lifecycle_inv config s →
  lifecycle_inv config {| sy_resolver := r; sy_removing := option_list o ++ sy_removing s;
              sy_pushing := sy_pushing s; sy_detected := sy_detected s;
              sy_pushed := sy_pushed s |}.
Proof.
  intros Hd [Hcfg Hnd Hact Hrem Hnr Hcl Hall Hhist].
  apply decision_spec in Hd as [[-> ->]|(l1 & c & c' & l2 & Ha & Hdec & ->)]; [done|].
  pose proof (proj1 Hdec) as Hid. rewrite Ha in Hact, Hrem, Hall.
  split; cbn; [done|done| | | | | |done].
  - rewrite fmap_app in Hact |- *. cbn in *. by rewrite Hid.
  - intros d. rewrite (decides_elem_of l1 c c' l2 o d Hdec), !elem_of_app, Hrem, list_elem_of_filter.
    naive_solver.
  - apply NoDup_app. split_and!; [destruct o; cbn; [apply NoDup_singleton|constructor]| |done].
    intros d Hd Hr. destruct o as [e|]; cbn in Hd; [|by apply elem_of_nil in Hd].
    apply list_elem_of_singleton in Hd as ->. destruct Hdec as (_ & Hf & -> & Hfc & _).
    apply Hrem in Hr as [Hr _]. enough (c' = c) by congruence.
    apply (same_id_same _ _ _ Hact); [done|set_solver|done].
  - rewrite <- app_assoc. apply Forall_app. split; [|done]. destruct o as [e|]; [|done].
    apply Forall_singleton. destruct Hdec as (_ & _ & -> & ?). done.
  - rewrite <- Hall, <- app_assoc, app_assoc, fmap_app, (decides_waiting _ _ _ _ _ Hdec).
    by rewrite <- fmap_app.
Qed.

Lemma waiting_retain (P : Conflict → Prop) `{!∀ c, Decision (P c)} l :
  (∀ d, d ∈ l → finished d = false → P d) → waiting (filter P l) = waiting l.
Proof.
  induction l as [|d l IH]; [done|]. intros Hl. rewrite filter_cons, waiting_cons.
  rewrite <- IH by set_solver. case_decide as Hd; [by rewrite waiting_cons|].
  destruct (finished d) eqn:Hf; [done|]. destruct Hd. apply Hl; [apply list_elem_of_here|done].
Qed.

Lemma inv_remove config s c l1 l2 :
  sy_removing s = l1 ++ c :: l2 → lifecycle_inv config s →
  lifecycle_inv config {| sy_resolver := remove_active c (sy_resolver s); sy_removing := l1 ++ l2;
              sy_pushing := c :: sy_pushing s; sy_detected := sy_detected s;
              sy_pushed := sy_pushed s |}.
Proof.
  intros Hs [Hcfg Hnd Hact Hrem Hnr Hcl Hall Hhist]. rewrite Hs in *.
  destruct (proj1 (Hrem c)) as [Hca Hcf]; [set_solver|].
  assert (∀ d, d ∈ active_conflicts (sy_resolver s) → cf_id d = cf_id c → d = c) as Hsame.
  { intros d Hd He. by apply (same_id_same _ d c Hact). }
  rewrite <- Permutation_middle in Hcl, Hnr. apply NoDup_cons in Hnr as [Hnc Hnr].
  split; cbn; [done|done| | |done| | |done].
  - apply NoDup_fmap_2_strong; [|by apply NoDup_filter, (NoDup_fmap_1 cf_id)].
    intros x y [_ Hx]%list_elem_of_filter [_ Hy]%list_elem_of_filter. by apply (same_id_same _ x y Hact).
  - intros d. rewrite list_elem_of_filter. split.
    + intros Hd. destruct (proj1 (Hrem d)) as [Hda Hdf]; [set_solver|]. split_and!; [|done|done].
      intros He. apply Hnc. by rewrite <- (Hsame d Hda He).
    + intros [[Hne Hda] Hdf]. assert (d ∈ l1 ++ c :: l2) as Hd by by apply Hrem. set_solver.
  - rewrite <- Permutation_middle. by rewrite <- app_comm_cons in Hcl.
  - rewrite waiting_retain.
    + rewrite <- Hall. apply fmap_Permutation, Permutation_app_head.
      cbn. by rewrite <- !Permutation_middle.
    + intros d Hd Hdf He. rewrite (Hsame d Hd He) in Hdf. congruence.
Qed.

(** Evicting from a window that takes one entry more is taking the window of the longer list. *)
Lemma drop_window {A} (m : nat) (l : list A) (x : A) :
  let h := drop (length l - m) l ++ [x] in
  drop (length h - m) h = drop (length (l ++ [x]) - m) (l ++ [x]).
Proof.
  cbn. rewrite !length_app, length_drop. cbn.
  destruct (decide (length l + 1 ≤ m))%nat as [Hle|Hle].
  - replace (length l - m)%nat with 0%nat by lia. rewrite drop_0. f_equal. lia.
  - rewrite <- (drop_app_le l [x]) by lia. rewrite drop_drop. f_equal. lia.
Qed.

Lemma inv_push config s c l1 l2 :
  sy_pushing s = l1 ++ c :: l2 → lifecycle_inv config s →
  lifecycle_inv config {| sy_resolver := push_history c (sy_resolver s);
              sy_removing := sy_removing s; sy_pushing := l1 ++ l2;
              sy_detected := sy_detected s; sy_pushed := sy_pushed s ++ [c] |}.
Proof.
  intros Hs [Hcfg Hnd Hact Hrem Hnr Hcl Hall Hhist]. rewrite Hs in *.
  assert (Hperm : (l1 ++ c :: l2) ++ sy_pushed s ≡ₚ (l1 ++ l2) ++ sy_pushed s ++ [c]).
  { rewrite <- Permutation_middle, <- app_comm_cons, Permutation_cons_append. by rewrite <- app_assoc. }
  split; cbn; [done..| | |].
  - by rewrite <- Hperm.
  - by rewrite <- Hperm.
  - rewrite Hhist, Hcfg. apply drop_window.
Qed.

Lemma inv_new config : lifecycle_inv config (system_new config).
Proof.
  split; cbn; [done|constructor|constructor| |constructor|constructor|done|done].
  intros c. rewrite !elem_of_nil. naive_solver.
Qed.

Lemma inv_step config s s' : step s s' → lifecycle_inv config s → lifecycle_inv config s'.
Proof.
  intros [] ?; [by apply inv_detect|by apply inv_decide|by apply inv_remove|by eapply inv_push].
Qed.

Lemma inv_reachable config s : reachable config s → lifecycle_inv config s.
Proof.
  intros H. pose proof (inv_new config) as Hinv. induction H as [|s s1 s2 Hs _ IH]; [done|].
  by eapply IH, inv_step.
Qed.

(** C37: However the critical sections of concurrent callers interleave, every detected
    conflict is in exactly one place: waiting in the active list, on its way out of it, on
    its way into the history, or appended to the history.  No conflict is resolved or
    dismissed twice.  The history is the window of the last [max_history_entries] conflicts
    appended, each of them closed with a resolution; once no caller is inside an operation
    the active list holds the unfinished conflicts only. *)
Theorem conflict_lifecycle config s :
  reachable config s →
  NoDup (sy_detected s) ∧
  (cf_id <$> waiting (active_conflicts (sy_resolver s))
     ++ sy_removing s ++ sy_pushing s ++ sy_pushed s) ≡ₚ sy_detected s ∧
  history (sy_resolver s) =
    drop (length (sy_pushed s) - cc_max_history_entries config) (sy_pushed s) ∧
  (length (history (sy_resolver s)) ≤ cc_max_history_entries config)%nat ∧
  Forall closed (history (sy_resolver s)) ∧
  (sy_removing s = [] → Forall (λ c, finished c = false) (active_conflicts (sy_resolver s))).
Proof.
  intros [Hcfg Hnd Hact Hrem Hnr Hcl Hall Hhist]%inv_reachable. split_and!; [done..| | |].
  - rewrite Hhist, length_drop. lia.
  - rewrite Hhist. apply Forall_drop. by apply Forall_app in Hcl as [_ [_ ?]%Forall_app].
  - intros He. apply Forall_forall. intros c Hc. destruct (finished c) eqn:Hf; [|done].
    assert (c ∈ sy_removing s) as Hin by by apply Hrem. rewrite He in Hin. by apply elem_of_nil in Hin.
Qed.

(** ** What is decided *)

(** The winner a policy promises, without the loop. *)
Definition is_winner (policy : ConflictPolicy) (modalities : list modality) (w : option modality)
    : Prop :=
  match policy with
  | LastWriterWins => w = last modalities
  | ModalityPriority order =>
    match w with
    | None => modalities = []
    | Some m => m ∈ modalities ∧
        match position m order with
        | Some i => ∀ n j, n ∈ modalities → position n order = Some j → (i ≤ j)%nat
        | None => head modalities = Some m ∧ ∀ n, n ∈ modalities → position n order = None
        end
    end
  | _ => w = None
  end.

Lemma better_spec order l : ∀ best,
  (match best with Some (i, m) => position m order = Some i | None => True end) →
  match foldl (better order) best l with
  | Some (i, m) => position m order = Some i ∧ (m ∈ l ∨ best = Some (i, m)) ∧
      (∀ n j, n ∈ l ∨ best = Some (j, n) → position n order = Some j → (i ≤ j)%nat)
  | None => best = None ∧ ∀ n, n ∈ l → position n order = None
  end.
Proof.
  induction l as [|x l IH]; intros best Hb; cbn.
  - destruct best as [[i m]|]; [|by split; [|intros ? []%elem_of_nil]].
    split_and!; [done|by right|]. intros n j [[]%elem_of_nil|[= -> ->]] _. done.
  - assert (match better order best x with Some (i, m) => position m order = Some i | None => True end)
      as Hb'.
    { unfold better. destruct (position x order) eqn:Hx, best as [[bi b]|]; try done.
      by destruct (_ <? _)%nat. }
    specialize (IH _ Hb'). destruct (foldl _ _ l) as [[i m]|].
    + destruct IH as (Hp & Hin & Hmin). split_and!; [done| |].
      * destruct Hin as [Hin|Hin]; [left; by right|]. revert Hin. unfold better.
        repeat case_match; intros; simplify_eq; try (by right); left; left.
      * intros n j Hn Hj. unfold better in *. rewrite elem_of_cons in Hn.
        destruct Hn as [[->|Hn]|Hn]; [|by apply (Hmin n); [left|]|].
        -- rewrite Hj in *. destruct best as [[bi b]|]; [|by eapply Hmin; [right|]].
           destruct (j <? bi)%nat eqn:Hlt; [by eapply Hmin; [right|]|].
           apply Nat.ltb_ge in Hlt. transitivity bi; [|done]. by eapply (Hmin b); [right|].
        -- subst best. destruct (position x order) as [k|] eqn:Hk; [|by eapply Hmin; [right|]].
           destruct (k <? j)%nat eqn:Hlt; [|by eapply Hmin; [right|]].
           apply Nat.ltb_lt in Hlt. transitivity k; [|lia]. by eapply (Hmin x); [right|].
    + destruct IH as (Hb0 & Hnone). unfold better in Hb0.
      destruct (position x order) eqn:Hx; [by repeat case_match|]. split; [done|].
      intros n [->|Hn]%elem_of_cons; [done|by apply Hnone].
Qed.

Lemma winner_is_winner policy modalities : is_winner policy modalities (winner policy modalities).
Proof.
  destruct policy as [|order| | |]; try done. cbn.
  pose proof (better_spec order modalities None I) as H.
  destruct (foldl _ _ _) as [[i m]|].
  - destruct H as (-> & [Hin|?] & Hmin); [|done]. split; [done|]. intros n j Hn. apply Hmin. by left.
  - destruct H as (_ & Hnone). destruct modalities as [|m l]; [done|]. cbn.
    split; [by left|]. rewrite (Hnone m) by by left. done.
Qed.

Definition effective_policy (config : ConflictConfig) (policy : option ConflictPolicy) (c : Conflict)
    : ConflictPolicy := default (select_policy config c) policy.

Definition automatic (policy : ConflictPolicy) : bool :=
  match policy with ManualResolve | CustomPolicy _ => false | _ => true end.

Lemma on_conflict_at {A} (f : Conflict → result ConflictError A * Conflict) r l1 c l2 :
  active_conflicts r = l1 ++ c :: l2 → NoDup (cf_id <$> active_conflicts r) →
  on_conflict (cf_id c) f r = ((f c).1, set_active (l1 ++ (f c).2 :: l2) r).
Proof.
  intros Ha Hnd. rewrite Ha, fmap_app in Hnd. apply NoDup_app in Hnd as (_ & Hn1 & _).
  unfold on_conflict. assert (list_find (λ d, cf_id d = cf_id c) (active_conflicts r)
    = Some (length l1, c)) as ->.
  { apply list_find_Some. rewrite Ha. split_and!; [by apply list_lookup_middle|done|].
    intros j d Hj Hlt Hid. rewrite lookup_app_l in Hj by done. apply (Hn1 (cf_id d)); [|rewrite Hid; by left].
    apply list_elem_of_fmap_2. by eapply list_elem_of_lookup_2. }
  destruct (f c) as [res d]. cbn. by rewrite Ha, insert_app_r_alt, Nat.sub_diag by done.
Qed.

(** The choice the first critical section makes once the guards have passed. *)
Lemma decide_by_policy now config policy c :
  let p := effective_policy config policy c in
  let res := apply_policy now c p in
  let d := set_resolution res (set_status Resolved c) in
  ∃ e, (let effective_policy :=
      match policy with Some p => p | None => select_policy config c end in
    match effective_policy with
    | ManualResolve =>
      (Err (InvalidPolicy "ManualResolve policy requires resolve_manual()"), set_status InProgress c)
    | CustomPolicy name =>
      (Err (InvalidPolicy ("Custom policy '" +:+ name +:+ "' requires external resolver callback")),
       set_status InProgress c)
    | _ =>
      let resolution := apply_policy now c effective_policy in
      let resolved := set_resolution resolution (set_status Resolved c) in
      (Ok (resolution, resolved), resolved)
    end) = if automatic p then (Ok (res, d), d) else (Err e, set_status InProgress c).
Proof.
  cbn. unfold effective_policy. destruct policy as [p|]; cbn.
  - destruct p; first [by exists (ConflictNotFound "")|by eexists].
  - destruct (select_policy config c); first [by exists (ConflictNotFound "")|by eexists].
Qed.

Lemma retain_at l1 c l2 d :
  NoDup (cf_id <$> l1 ++ c :: l2) → cf_id d = cf_id c →
  filter (λ e, cf_id e ≠ cf_id c) (l1 ++ d :: l2) = l1 ++ l2.
Proof.
  rewrite fmap_app, NoDup_app. intros (_ & Hn1 & [Hn2 _]%NoDup_cons) Hd.
  assert (∀ l : list Conflict, cf_id c ∉ cf_id <$> l → filter (λ e, cf_id e ≠ cf_id c) l = l) as Hkeep.
  { induction l as [|e l IH]; [done|]. cbn [fmap list_fmap]. intros [Hne Hl]%not_elem_of_cons.
    rewrite filter_cons_True by congruence. by rewrite IH. }
  rewrite filter_app, filter_cons_False by naive_solver. rewrite !Hkeep; [done..|].
  intros Hin. apply (Hn1 _ Hin). by left.
Qed.

Lemma last_push_history c r :
  (0 < cc_max_history_entries (cr_config r))%nat → last (history (push_history c r)) = Some c.
Proof.
  intros Hm. cbn. rewrite length_app. cbn.
  rewrite drop_app_le by lia. apply last_snoc.
Qed.

(** What resolving a conflict does, with the conflict anywhere in the active list.
    It succeeds just when the conflict is unfinished, its drift score is below the manual
    threshold and the policy in effect decides by itself; the resolution then names that
    policy and the winner it promises (for a modality priority the conflicting modality of
    least index in the order, or the first one when the order has none), the conflict
    leaves the active list, and it ends the history with the resolution.  A refusal leaves
    the history alone, and a conflict that is not finished is then in progress. *)
Theorem resolve_outcome policy now r l1 c l2 :
  active_conflicts r = l1 ++ c :: l2 → NoDup (cf_id <$> active_conflicts r) →
  let p := effective_policy (cr_config r) policy c in
  let manual := f64_leb (cc_require_manual_above (cr_config r)) (cf_drift_score c) in
  let '(o, r') := resolve (cf_id c) policy now r in
  cr_config r' = cr_config r ∧
  match o with
  | Ok res =>
    finished c = false ∧ manual = false ∧ automatic p = true ∧
    cr_policy_used res = p ∧
    is_winner p (cf_conflicting_modalities c) (cr_winning_modality res) ∧
    active_conflicts r' = l1 ++ l2 ∧
    ((0 < cc_max_history_entries (cr_config r))%nat →
     last (history r') = Some (set_resolution res (set_status Resolved c)))
  | Err e =>
    history r' = history r ∧
    if finished c then e = AlreadyResolved (cf_id c) ∧ active_conflicts r' = active_conflicts r
    else (manual = true ∨ automatic p = false) ∧
         active_conflicts r' = l1 ++ set_status InProgress c :: l2
  end.
Proof.
  intros Ha Hnd p manual. unfold resolve, resolve_decide.
  rewrite (on_conflict_at _ r l1 c l2 Ha Hnd). fold manual.
  destruct (finished c) eqn:Hf; [by rewrite Ha|]. destruct manual eqn:Hm; [by cbn; eauto|].
  destruct (decide_by_policy now (cr_config r) policy c) as [e He]. cbv zeta beta in *.
  fold p in He. rewrite He. clear He. destruct (automatic p) eqn:Hauto; [|by cbn; eauto]. cbn [fst snd then_move].
  split_and!; try done; [apply winner_is_winner| |intros ?; by apply last_push_history].
  cbn. apply retain_at; [|done]. by rewrite Ha in Hnd.
Qed.

End lifecycle.
