(* ===== verification/Plan.v ===== *)
(** * Query plans and their cost

    Models the planner's data ([verisim-planner/src/lib.rs], [plan.rs], [config.rs],
    [error.rs]) and its cost model ([cost.rs]).  Costs are binary64 numbers, computed in
    the order the code computes them. *)

From S2P Require Import Prelude Floats.
From stdpp Require Import pretty.
From Stdlib Require String Ascii.
Local Open Scope Z_scope.

(** [str::to_uppercase], [to_lowercase] and [split_whitespace], and
    [char::is_alphanumeric] on an encoded character, follow Unicode's tables, which are not
    part of the program. *)
Class Unicode := {
  str_uppercase : string → string;
  str_lowercase : string → string;
  split_whitespace : string → list string;
}.

(** [f64::log2] comes from the platform's mathematics library. *)
Class Log2 := { f64_log2 : f64 → f64 }.

(** ** Modalities *)

Inductive Modality := Graph | Vector | Tensor | Semantic | Document | Temporal.

#[export] Instance Modality_eq_dec : EqDecision Modality.
Proof. solve_decision. Defined.

#[export] Instance Modality_countable : Countable Modality.
Proof.
  refine (inj_countable'
    (λ m, match m with Graph => 0 | Vector => 1 | Tensor => 2 | Semantic => 3 | Document => 4
          | Temporal => 5 end)%nat
    (λ n, match n with 0 => Graph | 1 => Vector | 2 => Tensor | 3 => Semantic | 4 => Document
          | _ => Temporal end)%nat _).
  by intros [].
Defined.

Definition ALL : list Modality := [Graph; Vector; Tensor; Semantic; Document; Temporal].

Definition execution_priority (m : Modality) : Z :=
  match m with
  | Temporal => 10 | Vector => 20 | Document => 30 | Graph => 40 | Tensor => 50 | Semantic => 90
  end.

Definition modality_display (m : Modality) : string :=
  match m with
  | Graph => "graph" | Vector => "vector" | Tensor => "tensor" | Semantic => "semantic"
  | Document => "document" | Temporal => "temporal"
  end.

Inductive PlannerError :=
| EmptyPlan
| UnknownModality (m : string)
| InvalidConfig (m : string)
| CostEstimation (m : string)
| Serialization (m : string).

(** ** Plans *)

Inductive QuerySource :=
| SHexad
| SFederation (nodes : list string)
| SStore (m : Modality).

Inductive ConditionKind :=
| Equality (field value : string)
| Range (field low high : string)
| Fulltext (query : string)
| Similarity (k : nat)
| Traversal (predicate : string) (depth : option Z)
| AtTime (timestamp : string)
| ProofVerification (contract : string)
| TensorOp (operation : string)
| Predicate (expression : string).

(** [{:?}] of a condition: not modelled. *)
Class DebugCondition := { debug_condition : ConditionKind → string }.

Record PlanNode := {
  pn_modality : Modality; pn_conditions : list ConditionKind; pn_projections : list string;
  pn_early_limit : option nat;
}.

Inductive PostProcessing :=
| OrderBy (fields : list (string * bool))
| Limit (count : Z)
| GroupBy (fields aggregates : list string)
| Project (columns : list string).

Record LogicalPlan := {
  lp_source : QuerySource; lp_nodes : list PlanNode; lp_post_processing : list PostProcessing;
}.

Inductive ExecutionStrategy := Sequential | Parallel.

#[export] Instance ExecutionStrategy_eq_dec : EqDecision ExecutionStrategy.
Proof. solve_decision. Defined.

Record CostEstimate := {
  time_ms : f64; estimated_rows : Z; selectivity : f64; io_cost : f64; cpu_cost : f64;
}.

Record PlanStep := {
  ps_step : nat; ps_operation : string; ps_modality : Modality; ps_cost : CostEstimate;
  ps_optimization_hint : option string; ps_pushed_predicates : list string;
}.

Record PhysicalPlan := {
  pp_steps : list PlanStep; pp_strategy : ExecutionStrategy; pp_total_cost : CostEstimate;
  pp_notes : list string;
}.

(** ** Configuration *)

Inductive OptimizationMode := Conservative | Balanced | Aggressive.

#[export] Instance OptimizationMode_eq_dec : EqDecision OptimizationMode.
Proof. solve_decision. Defined.

Definition cost_multiplier (m : OptimizationMode) : f64 :=
  match m with
  | Conservative => f64_literal 15 1 | Balanced => f64_of_Z 1 | Aggressive => f64_literal 8 1
  end.

Definition selectivity_multiplier (m : OptimizationMode) : f64 :=
  match m with
  | Conservative => f64_of_Z 2 | Balanced => f64_of_Z 1 | Aggressive => f64_literal 5 1
  end.

Record PlannerConfig := {
  global_mode : OptimizationMode;
  modality_overrides : gmap Modality OptimizationMode;
  statistics_weight : f64;
  enable_adaptive : bool;
  parallel_threshold : nat;
}.

Definition mode_for (m : Modality) (config : PlannerConfig) : OptimizationMode :=
  default (global_mode config) (modality_overrides config !! m).

Definition PlannerConfig_default : PlannerConfig :=
  {| global_mode := Balanced;
     modality_overrides :=
       <[Semantic := Conservative]> (<[Graph := Conservative]> (<[Vector := Aggressive]> ∅));
     statistics_weight := f64_literal 7 1; enable_adaptive := true; parallel_threshold := 2 |}.

(** ** Base costs and statistics *)

Record BaseCost := { bc_time_ms : f64; bc_selectivity : f64; bc_hint : string }.

Definition base_cost (m : Modality) : BaseCost :=
  match m with
  | Graph => {| bc_time_ms := f64_of_Z 150; bc_selectivity := f64_literal 2 1;
                bc_hint := "Graph traversal — O(E) scan" |}
  | Vector => {| bc_time_ms := f64_of_Z 50; bc_selectivity := f64_literal 1 2;
                 bc_hint := "HNSW approximate nearest neighbor" |}
  | Tensor => {| bc_time_ms := f64_of_Z 200; bc_selectivity := f64_literal 5 1;
                 bc_hint := "Tensor reduction — shape dependent" |}
  | Semantic => {| bc_time_ms := f64_of_Z 300; bc_selectivity := f64_literal 8 1;
                   bc_hint := "ZKP verification — expensive" |}
  | Document => {| bc_time_ms := f64_of_Z 80; bc_selectivity := f64_literal 5 2;
                   bc_hint := "Tantivy inverted index lookup" |}
  | Temporal => {| bc_time_ms := f64_of_Z 30; bc_selectivity := f64_literal 1 1;
                   bc_hint := "Version tree lookup — cached" |}
  end.

(** [StoreStatistics] of [stats.rs]. *)
Record StoreStatistics `{Chrono} := {
  st_modality : Modality; st_total_rows : Z; st_avg_latency_ms : f64; st_avg_rows_returned : Z;
  st_query_count : Z; st_last_updated : DateTime;
}.

(** ** Combining estimates *)

Definition ce_sequential (a b : CostEstimate) : CostEstimate :=
  {| time_ms := f64_add (time_ms a) (time_ms b);
     estimated_rows := Z.max (estimated_rows a) (estimated_rows b);
     selectivity := f64_mul (selectivity a) (selectivity b);
     io_cost := f64_add (io_cost a) (io_cost b); cpu_cost := f64_add (cpu_cost a) (cpu_cost b) |}.

Definition ce_parallel (a b : CostEstimate) : CostEstimate :=
  {| time_ms := f64_max (time_ms a) (time_ms b);
     estimated_rows := Z.max (estimated_rows a) (estimated_rows b);
     selectivity := f64_mul (selectivity a) (selectivity b);
     io_cost := f64_add (io_cost a) (io_cost b); cpu_cost := f64_add (cpu_cost a) (cpu_cost b) |}.

Definition ce_combine (estimates : list CostEstimate) (parallel : bool) : CostEstimate :=
  match estimates with
  | [] => {| time_ms := f64_of_Z 0; estimated_rows := 0; selectivity := f64_of_Z 1;
             io_cost := f64_of_Z 0; cpu_cost := f64_of_Z 0 |}
  | e :: es => foldl (if parallel then ce_parallel else ce_sequential) e es
  end.

(** ** Proof obligations *)

Section unicode.
Context {CH : Chrono} {UC : Unicode}.

Definition modality_from_str (s : string) : result PlannerError Modality :=
  let l := str_lowercase s in
  if decide (l = "graph") then Ok Graph
  else if decide (l = "vector") then Ok Vector
  else if decide (l = "tensor") then Ok Tensor
  else if decide (l = "semantic") then Ok Semantic
  else if decide (l = "document") then Ok Document
  else if decide (l = "temporal") then Ok Temporal
  else Err (UnknownModality s).

Record ProofCost := { verify_ms : f64; circuit_ms : f64; parallelizable : bool }.

Definition proof_cost_for_type (proof_type : string) : ProofCost :=
  let t := str_lowercase proof_type in
  let cost (v c : Z) (p : bool) :=
    {| verify_ms := f64_of_Z v; circuit_ms := f64_of_Z c; parallelizable := p |} in
  if decide (t = "existence") then cost 1 0 true
  else if decide (t = "citation") then cost 5 0 true
  else if decide (t = "access") then cost 15 0 true
  else if decide (t = "integrity") then cost 50 10 true
  else if decide (t = "provenance") then cost 30 0 false
  else cost 200 100 false.

Definition proof_total_ms (c : ProofCost) : f64 := f64_add (verify_ms c) (circuit_ms c).

Definition known_types : list string :=
  ["existence"; "citation"; "access"; "integrity"; "provenance"; "zkp"].

Definition extract_proof_type (contract : string) : string :=
  let lower := str_lowercase contract in
  default "custom" (head (filter (λ t, str_contains t lower = true) known_types)).

(** ** The cost of a node *)

(** The running values of [CostModel::estimate]. *)
Record running := { rn_time : f64; rn_selectivity : f64; rn_proof : f64 }.

Definition condition_cost (r : running) (c : ConditionKind) : running :=
  let upd t s := {| rn_time := t; rn_selectivity := s; rn_proof := rn_proof r |} in
  match c with
  | Equality _ _ =>
    upd (f64_mul (rn_time r) (f64_literal 7 1)) (f64_mul (rn_selectivity r) (f64_literal 1 1))
  | Range _ _ _ =>
    upd (f64_mul (rn_time r) (f64_literal 8 1)) (f64_mul (rn_selectivity r) (f64_literal 3 1))
  | Similarity k =>
    upd (rn_time r) (f64_min (f64_div (f64_of_Z (Z.of_nat k)) (f64_of_Z 10000)) (f64_of_Z 1))
  | Fulltext _ => upd (f64_mul (rn_time r) (f64_literal 6 1)) (rn_selectivity r)
  | ProofVerification contract =>
    {| rn_time := rn_time r; rn_selectivity := rn_selectivity r;
       rn_proof := f64_add (rn_proof r)
         (proof_total_ms (proof_cost_for_type (extract_proof_type contract))) |}
  | _ => r
  end.

(** The estimate before the conditions: mode, statistics, early limit. *)
Definition base_running (node : PlanNode) (config : PlannerConfig) (stats : option StoreStatistics)
    : running :=
  let base := base_cost (pn_modality node) in
  let mode := mode_for (pn_modality node) config in
  let time := f64_mul (bc_time_ms base) (cost_multiplier mode) in
  let sel := f64_min (f64_mul (bc_selectivity base) (selectivity_multiplier mode)) (f64_of_Z 1) in
  let w := statistics_weight config in
  let '(time, sel) :=
    match stats with
    | Some s =>
      if 0 <? st_query_count s then
        (f64_add (f64_mul time (f64_sub (f64_of_Z 1) w)) (f64_mul (st_avg_latency_ms s) w),
         if 0 <? st_total_rows s then
           let empirical := f64_div (f64_of_Z (st_avg_rows_returned s)) (f64_of_Z (st_total_rows s)) in
           f64_add (f64_mul sel (f64_sub (f64_of_Z 1) w)) (f64_mul empirical w)
         else sel)
      else (time, sel)
    | None => (time, sel)
    end in
  let '(time, sel) :=
    match pn_early_limit node with
    | Some limit =>
      let factor := f64_min (f64_div (f64_of_Z (Z.of_nat limit)) (f64_of_Z 1000)) (f64_of_Z 1) in
      (f64_mul time (f64_add (f64_literal 5 1) (f64_mul (f64_literal 5 1) factor)),
       f64_mul sel factor)
    | None => (time, sel)
    end in
  {| rn_time := time; rn_selectivity := sel; rn_proof := f64_of_Z 0 |}.

Definition estimate (node : PlanNode) (config : PlannerConfig) (stats : option StoreStatistics)
    : CostEstimate :=
  let r := foldl condition_cost (base_running node config stats) (pn_conditions node) in
  let time := f64_add (rn_time r) (rn_proof r) in
  let rows := match stats with
              | Some s => f64_mul (f64_of_Z (st_total_rows s)) (rn_selectivity r)
              | None => f64_mul (f64_of_Z 1000) (rn_selectivity r)
              end in
  {| time_ms := time; estimated_rows := f64_as_u64 (f64_max rows (f64_of_Z 1));
     selectivity := rn_selectivity r;
     io_cost := f64_mul (f64_sub time (rn_proof r)) (f64_literal 6 1);
     cpu_cost := f64_add (f64_mul (f64_sub time (rn_proof r)) (f64_literal 4 1)) (rn_proof r) |}.

(** ** Post-processing *)

Context {LG : Log2}.

Definition free_cost (time : f64) (rows : Z) (sel : f64) : CostEstimate :=
  {| time_ms := time; estimated_rows := rows; selectivity := sel; io_cost := f64_of_Z 0;
     cpu_cost := time |}.

Definition post_processing_cost (pp : PostProcessing) (row_count : Z) : CostEstimate :=
  let n := f64_of_Z (Z.max row_count 1) in
  match pp with
  | OrderBy fields =>
    let sort_time :=
      f64_mul (f64_mul (f64_mul n (f64_max (f64_log2 n) (f64_of_Z 1))) (f64_literal 1 3))
        (f64_of_Z (zlength fields)) in
    free_cost sort_time row_count (f64_of_Z 1)
  | Limit count =>
    let out_rows := Z.min row_count count in
    free_cost (f64_literal 1 1) out_rows (f64_div (f64_of_Z out_rows) n)
  | GroupBy fields aggregates =>
    let group_time := f64_mul (f64_mul n (f64_literal 2 3)) (f64_of_Z (zlength fields)) in
    let agg_time := f64_mul (f64_mul n (f64_literal 1 3)) (f64_of_Z (Z.max (zlength aggregates) 1)) in
    let est_groups := f64_as_u64 (f64_max (f64_div n (f64_of_Z 10)) (f64_of_Z 1)) in
    free_cost (f64_add group_time agg_time) est_groups (f64_div (f64_of_Z est_groups) n)
  | Project columns =>
    free_cost (f64_mul (f64_mul n (f64_literal 1 4)) (f64_of_Z (zlength columns))) row_count (f64_of_Z 1)
  end.

(** One step of the loop over the post-processing: the total and the current row count. *)
Definition add_post_processing (acc : CostEstimate * Z) (pp : PostProcessing) : CostEstimate * Z :=
  let '(total, rows) := acc in
  let c := post_processing_cost pp rows in
  ({| time_ms := f64_add (time_ms total) (time_ms c); estimated_rows := estimated_rows total;
      selectivity := selectivity total; io_cost := io_cost total;
      cpu_cost := f64_add (cpu_cost total) (cpu_cost c) |}, estimated_rows c).

Definition estimate_with_post_processing (modality_cost : CostEstimate) (pps : list PostProcessing)
    : CostEstimate :=
  let '(total, rows) := foldl add_post_processing (modality_cost, estimated_rows modality_cost) pps in
  {| time_ms := time_ms total; estimated_rows := rows; selectivity := selectivity total;
     io_cost := io_cost total; cpu_cost := cpu_cost total |}.

(** ** Cross-modal conditions *)

Definition cross_modal_cost (c : ConditionKind) (row_count : Z) : CostEstimate :=
  let n := f64_of_Z (Z.max row_count 1) in
  let '(per_row, sel) :=
    match c with
    | Predicate e =>
      if str_contains "cross_modal" e then (f64_literal 1 2, f64_literal 3 1)
      else if str_contains "drift" e then (f64_literal 5 1, f64_literal 5 1)
      else if str_contains "consistency" e then (f64_of_Z 1, f64_literal 7 1)
      else if str_contains "exists" e || str_contains "not_exists" e then
        (f64_literal 1 3, f64_literal 5 1)
      else (f64_literal 1 2, f64_literal 5 1)
    | _ => (f64_literal 1 2, f64_literal 5 1)
    end in
  let total := f64_mul n per_row in
  {| time_ms := total; estimated_rows := f64_as_u64 (f64_max (f64_mul n sel) (f64_of_Z 1));
     selectivity := sel; io_cost := f64_of_Z 0; cpu_cost := total |}.

(** ** Hints *)

(** Whether byte [n] of a string starts a character; [&s[..n]] panics otherwise. *)
Definition is_char_boundary (n : nat) (s : string) : bool :=
  match String.get n s with
  | None => (n =? String.length s)%nat
  | Some c => negb ((128 <=? Ascii.nat_of_ascii c) && (Ascii.nat_of_ascii c <? 192))%nat
  end.

(** The hint a condition gives, [None] for a panic; the inner [None] leaves the hint. *)
Definition condition_hint (c : ConditionKind) : option (option string) :=
  match c with
  | Similarity k => Some (Some ("HNSW ANN search (k=" +:+ pretty k +:+ ")"))
  | Fulltext query =>
    preview ← (if (20 <? String.length query)%nat then
                 if is_char_boundary 20 query then Some (String.substring 0 20 query +:+ "...") else None
               else Some query);
    Some (Some ("Tantivy fulltext: " +:+ String.String (Ascii.ascii_of_nat 34) preview
                  +:+ String.String (Ascii.ascii_of_nat 34) ""))
  | Traversal predicate depth =>
    Some (Some ("Graph traversal: " +:+ predicate +:+ " (depth=" +:+ pretty (default 1 depth) +:+ ")"))
  | ProofVerification contract => Some (Some ("ZKP verify: " +:+ contract))
  | Equality field _ => Some (Some ("Index lookup on " +:+ field))
  | AtTime timestamp => Some (Some ("Temporal snapshot at " +:+ timestamp))
  | _ => Some None
  end.

Fixpoint hint_loop (hint : string) (cs : list ConditionKind) : option string :=
  match cs with
  | [] => Some hint
  | c :: cs => h ← condition_hint c; hint_loop (default hint h) cs
  end.

(** [None] is a panic. *)
Definition optimization_hint (node : PlanNode) : option (option string) :=
  Some <$> hint_loop (bc_hint (base_cost (pn_modality node))) (pn_conditions node).

End unicode.

(** ** Statistics and adaptive tuning

    Models [src/rust-core/verisim-planner/src/stats.rs]: the moving averages kept per
    modality and the tuner that switches optimization modes from them. *)

Section stats.
Context {CH : Chrono}.

Definition StoreStatistics_new (now : DateTime) (m : Modality) : StoreStatistics :=
  {| st_modality := m; st_total_rows := 0; st_avg_latency_ms := f64_of_Z 0;
     st_avg_rows_returned := 0; st_query_count := 0; st_last_updated := now |}.

Record StatisticsCollector := { sc_stats : gmap Modality StoreStatistics }.

Definition StatisticsCollector_new (now : DateTime) : StatisticsCollector :=
  {| sc_stats := foldl (λ s m, <[m := StoreStatistics_new now m]> s) ∅ ALL |}.

Definition stats_get (m : Modality) (c : StatisticsCollector) : option StoreStatistics := sc_stats c !! m.

(** [0.1 * new + 0.9 * old] *)
Definition moving_average (new old : f64) : f64 :=
  f64_add (f64_mul (f64_literal 1 1) new) (f64_mul (f64_literal 9 1) old).

Definition record_on (now : DateTime) (latency_ms : f64) (rows_returned : Z) (e : StoreStatistics)
    : StoreStatistics :=
  let count := u64_add (st_query_count e) 1 in
  let '(latency, rows) :=
    if count =? 1 then (latency_ms, rows_returned)
    else (moving_average latency_ms (st_avg_latency_ms e),
          f64_as_u64 (moving_average (f64_of_Z rows_returned) (f64_of_Z (st_avg_rows_returned e)))) in
  {| st_modality := st_modality e; st_total_rows := st_total_rows e; st_avg_latency_ms := latency;
     st_avg_rows_returned := rows; st_query_count := count; st_last_updated := now |}.

Definition record_execution (now : DateTime) (m : Modality) (latency_ms : f64) (rows_returned : Z)
    (c : StatisticsCollector) : StatisticsCollector :=
  let entry := default (StoreStatistics_new now m) (sc_stats c !! m) in
  {| sc_stats := <[m := record_on now latency_ms rows_returned entry]> (sc_stats c) |}.

Definition update_row_count (now : DateTime) (m : Modality) (total_rows : Z) (c : StatisticsCollector)
    : StatisticsCollector :=
  match sc_stats c !! m with
  | None => c
  | Some e =>
    {| sc_stats := <[m :=
         {| st_modality := st_modality e; st_total_rows := total_rows;
            st_avg_latency_ms := st_avg_latency_ms e; st_avg_rows_returned := st_avg_rows_returned e;
            st_query_count := st_query_count e; st_last_updated := now |}]> (sc_stats c) |}
  end.

(** ** The tuner *)

Record AdaptiveTuner := {
  aggressive_threshold : f64; conservative_threshold : f64; min_samples : Z;
}.

Definition AdaptiveTuner_new : AdaptiveTuner :=
  {| aggressive_threshold := f64_literal 5 1; conservative_threshold := f64_of_Z 2; min_samples := 10 |}.

(** The mode the observed latency calls for, [None] when the modality is skipped. *)
Definition suggested_mode (t : AdaptiveTuner) (c : StatisticsCollector) (config : PlannerConfig)
    (m : Modality) : option OptimizationMode :=
  stats ← stats_get m c;
  if st_query_count stats <? min_samples t then None
  else
    let estimated_ms := f64_mul (bc_time_ms (base_cost m)) (cost_multiplier (mode_for m config)) in
    if f64_leb estimated_ms (f64_of_Z 0) then None
    else
      let ratio := f64_div (st_avg_latency_ms stats) estimated_ms in
      Some (if f64_ltb ratio (aggressive_threshold t) then Aggressive
            else if f64_ltb (conservative_threshold t) ratio then Conservative
            else Balanced).

Definition suggest_adjustments (t : AdaptiveTuner) (c : StatisticsCollector) (config : PlannerConfig)
    : list (Modality * OptimizationMode) :=
  omap (λ m,
    suggested ← suggested_mode t c config m;
    if decide (suggested = mode_for m config) then None else Some (m, suggested)) ALL.

Definition tuner_apply (t : AdaptiveTuner) (c : StatisticsCollector) (config : PlannerConfig)
    : PlannerConfig :=
  if negb (enable_adaptive config) then config
  else
    match suggest_adjustments t c config with
    | [] => config
    | adjustments =>
      {| global_mode := global_mode config;
         modality_overrides :=
           foldl (λ o '(m, mode), <[m := mode]> o) (modality_overrides config) adjustments;
         statistics_weight := statistics_weight config; enable_adaptive := enable_adaptive config;
         parallel_threshold := parallel_threshold config |}
    end.

End stats.
