(* ===== verification/Optimizer.v ===== *)
(** * The optimizer

    Models [src/rust-core/verisim-planner/src/optimizer.rs] and the figures of
    [explain.rs].  The rendering of the text is left out. *)

From S2P Require Import Prelude Floats Plan.
From stdpp Require Import pretty.

Section optimizer.
Context {CH : Chrono} {UC : Unicode} {LG : Log2} {FX : FixedDisplay} {DC : DebugCondition}.

Record Planner := { pl_config : PlannerConfig; pl_stats : StatisticsCollector }.

(** A row of [node_costs]; the index comes with the node it names. *)
Record NodeCost := {
  nc_index : nat; nc_node : PlanNode; nc_cost : CostEstimate; nc_hint : option string;
}.

Definition node_cost (p : Planner) (i : nat) (node : PlanNode) : option NodeCost :=
  hint ← optimization_hint node;
  Some {| nc_index := i; nc_node := node;
          nc_cost := estimate node (pl_config p) (stats_get (pn_modality node) (pl_stats p));
          nc_hint := hint |}.

(** [enumerate().map(..).collect()], from the index [i]. *)
Fixpoint node_costs (p : Planner) (i : nat) (nodes : list PlanNode) : option (list NodeCost) :=
  match nodes with
  | [] => Some []
  | node :: nodes => c ← node_cost p i node; cs ← node_costs p (S i) nodes; Some (c :: cs)
  end.

Definition compare_nodes (a b : NodeCost) : comparison :=
  then_with (Z.compare (execution_priority (pn_modality (nc_node a)))
                       (execution_priority (pn_modality (nc_node b))))
            (float_cmp (time_ms (nc_cost a)) (time_ms (nc_cost b))).

Definition operation_of (node : PlanNode) : string :=
  match pn_modality node with
  | Graph => "Graph traversal" | Vector => "Vector similarity search"
  | Tensor => "Tensor computation" | Semantic => "Semantic verification"
  | Document => "Document fulltext search" | Temporal => "Temporal version lookup"
  end +:+ " " +:+
  match pn_conditions node with
  | [] => "(scan)"
  | cs => "(" +:+ pretty (length cs) +:+ " conditions)"
  end.

Definition step_of (step : nat) (c : NodeCost) : PlanStep :=
  {| ps_step := step; ps_operation := operation_of (nc_node c);
     ps_modality := pn_modality (nc_node c); ps_cost := nc_cost c;
     ps_optimization_hint := nc_hint c;
     ps_pushed_predicates := debug_condition <$> pn_conditions (nc_node c) |}.

Definition step_note (s : PlanStep) : option string :=
  if f64_ltb (f64_literal 5 1) (selectivity (ps_cost s))
     && f64_ltb (f64_of_Z 100) (time_ms (ps_cost s)) then
    Some ("Step " +:+ pretty (ps_step s) +:+ ": " +:+ modality_display (ps_modality s)
      +:+ " has high selectivity ("
      +:+ f64_fixed 0 (f64_mul (selectivity (ps_cost s)) (f64_of_Z 100))
      +:+ "%) — may benefit from additional predicates")
  else None.

Definition plan_notes (strategy : ExecutionStrategy) (total : CostEstimate) (steps : list PlanStep)
    : list string :=
  (match strategy with
   | Parallel => "Parallel execution across " +:+ pretty (length steps) +:+ " modalities"
   | Sequential => "Sequential execution — single modality"
   end)
  :: (if f64_ltb (f64_of_Z 500) (time_ms total) then
        ["High estimated cost — consider adding LIMIT or more selective predicates"] else [])
  ++ omap step_note steps.

(** [None] is a panic. *)
Definition optimize (p : Planner) (logical : LogicalPlan) : option (result PlannerError PhysicalPlan) :=
  match lp_nodes logical with
  | [] => Some (Err EmptyPlan)
  | nodes =>
    costs ← node_costs p 0 nodes;
    let sorted := sort_by compare_nodes costs in
    let strategy :=
      if (parallel_threshold (pl_config p) <=? length nodes)%nat then Parallel else Sequential in
    let steps := imap (λ i c, step_of (S i) c) sorted in
    let modality_cost := ce_combine (nc_cost <$> sorted) (bool_decide (strategy = Parallel)) in
    let total := estimate_with_post_processing modality_cost (lp_post_processing logical) in
    Some (Ok {| pp_steps := steps; pp_strategy := strategy; pp_total_cost := total;
                pp_notes := plan_notes strategy total steps |})
  end.

(** ** EXPLAIN *)

Record ModalityCostBreakdown := { mb_modality : Modality; mb_time_ms : f64; mb_percentage : f64 }.

Record ExplainStep := {
  es_step : nat; es_operation : string; es_modality : Modality; es_cost_ms : f64;
  es_selectivity : f64; es_rows : Z; es_hint : option string;
}.

Record PerformanceHint := { ph_severity : string; ph_message : string }.

Record ExplainOutput := {
  eo_steps : list ExplainStep; eo_cost_breakdown : list ModalityCostBreakdown;
  eo_performance_hints : list PerformanceHint; eo_total_cost_ms : f64; eo_strategy : string;
}.

Definition explain_step (s : PlanStep) : ExplainStep :=
  {| es_step := ps_step s; es_operation := ps_operation s; es_modality := ps_modality s;
     es_cost_ms := time_ms (ps_cost s); es_selectivity := selectivity (ps_cost s);
     es_rows := estimated_rows (ps_cost s); es_hint := ps_optimization_hint s |}.

(** [*entry(modality).or_insert(0.0) += time] *)
Definition modality_costs (steps : list PlanStep) : gmap Modality f64 :=
  foldl (λ m s, <[ps_modality s :=
    f64_add (default (f64_of_Z 0) (m !! ps_modality s)) (time_ms (ps_cost s))]> m) ∅ steps.

Context {HI : HashIter Modality}.

Definition cost_breakdown (steps : list PlanStep) : list ModalityCostBreakdown :=
  let costs := modality_costs steps in
  let order := hash_iter (dom costs) in
  let total := f64_sum (omap (λ m, costs !! m) order) in
  let rows := omap (λ m, (λ t,
    {| mb_modality := m; mb_time_ms := t;
       mb_percentage := if f64_ltb (f64_of_Z 0) total then f64_mul (f64_div t total) (f64_of_Z 100)
                        else f64_of_Z 0 |}) <$> costs !! m) order in
  sort_by (λ a b, float_cmp (mb_percentage b) (mb_percentage a)) rows.

Definition expensive_hint (s : PlanStep) : option PerformanceHint :=
  if f64_ltb (f64_of_Z 200) (time_ms (ps_cost s)) then
    Some {| ph_severity := "info";
            ph_message := "Step " +:+ pretty (ps_step s) +:+ " (" +:+ modality_display (ps_modality s)
              +:+ ") costs " +:+ f64_fixed 0 (time_ms (ps_cost s)) +:+ "ms — "
              +:+ default "consider optimization" (ps_optimization_hint s) |}
  else None.

Definition performance_hints (plan : PhysicalPlan) : list PerformanceHint :=
  (if f64_ltb (f64_of_Z 500) (time_ms (pp_total_cost plan)) then
     [{| ph_severity := "warning";
         ph_message := "Total estimated cost is " +:+ f64_fixed 0 (time_ms (pp_total_cost plan))
           +:+ "ms — consider adding LIMIT clause" |}] else [])
  ++ omap expensive_hint (pp_steps plan)
  ++ (match pp_steps plan with
      | first :: _ =>
        if f64_ltb (f64_literal 1 1) (selectivity (ps_cost first)) then
          [{| ph_severity := "suggestion";
              ph_message := "First step (" +:+ modality_display (ps_modality first) +:+ ") has "
                +:+ f64_fixed 0 (f64_mul (selectivity (ps_cost first)) (f64_of_Z 100))
                +:+ "% selectivity — consider reordering or adding predicates" |}] else []
      | [] => []
      end)
  ++ (if ((2 <=? length (pp_steps plan))%nat && bool_decide (pp_strategy plan = Sequential)) then
        [{| ph_severity := "suggestion";
            ph_message := "Multiple modalities could benefit from parallel execution" |}] else []).

Definition from_physical_plan (plan : PhysicalPlan) : ExplainOutput :=
  {| eo_steps := explain_step <$> pp_steps plan; eo_cost_breakdown := cost_breakdown (pp_steps plan);
     eo_performance_hints := performance_hints plan; eo_total_cost_ms := time_ms (pp_total_cost plan);
     eo_strategy := match pp_strategy plan with Sequential => "Sequential" | Parallel => "Parallel" end |}.

Definition explain (p : Planner) (logical : LogicalPlan) : option (result PlannerError ExplainOutput) :=
  match optimize p logical with
  | Some (Ok plan) => Some (Ok (from_physical_plan plan))
  | Some (Err e) => Some (Err e)
  | None => None
  end.

End optimizer.

(** ** The optimizer: which plan it makes

    The steps of a physical plan are the nodes of the logical one in order of priority and
    cost; and what the statistics and the tuner make of a run of queries. *)

Section optimizer.
Context {CH : Chrono} {UC : Unicode} {LG : Log2} {FX : FixedDisplay} {DC : DebugCondition}.

(** ** The order of the steps *)

Definition node_estimate (p : Planner) (node : PlanNode) : CostEstimate :=
  estimate node (pl_config p) (stats_get (pn_modality node) (pl_stats p)).

Definition node_time (p : Planner) (node : PlanNode) : f64 := time_ms (node_estimate p node).

(** Lower priority first, then lower cost, then the earlier node. *)
Definition runs_before (p : Planner) (a b : nat * PlanNode) : Prop :=
  let pri x := execution_priority (pn_modality x.2) in
  (pri a < pri b)%Z ∨
  pri a = pri b ∧
    (float_cmp (node_time p a.2) (node_time p b.2) = Lt ∨
     float_cmp (node_time p a.2) (node_time p b.2) = Eq ∧ (a.1 < b.1)%nat).

Definition no_nan (p : Planner) (nodes : list PlanNode) : Prop :=
  Forall (λ node, f64_is_nan (node_time p node) = false) nodes.

(** A fulltext query whose preview would end inside a character. *)
Definition unprintable (node : PlanNode) : Prop :=
  ∃ query, Fulltext query ∈ pn_conditions node ∧ (20 < String.length query)%nat ∧
    is_char_boundary 20 query = false.

Definition numbered (nodes : list PlanNode) : list (nat * PlanNode) := imap pair nodes.

(** A step describes a node. *)
Definition describes (p : Planner) (s : PlanStep) (node : PlanNode) : Prop :=
  ps_modality s = pn_modality node ∧ ps_cost s = node_estimate p node ∧
  optimization_hint node = Some (ps_optimization_hint s) ∧
  ps_operation s = operation_of node ∧
  ps_pushed_predicates s = debug_condition <$> pn_conditions node.

Lemma condition_hint_None c :
  condition_hint c = None ↔
  ∃ query, c = Fulltext query ∧ (20 < String.length query)%nat ∧ is_char_boundary 20 query = false.
Proof.
  split.
  - destruct c; try done. unfold condition_hint. destruct (20 <? String.length query)%nat eqn:Hl; [|done].
    destruct (is_char_boundary 20 query) eqn:Hb; [done|]. intros _. eexists. split_and!; [done| |done].
    by apply Nat.ltb_lt.
  - intros (query & -> & Hl & Hb). unfold condition_hint. apply Nat.ltb_lt in Hl. by rewrite Hl, Hb.
Qed.

Lemma hint_loop_None h cs : hint_loop h cs = None ↔ ∃ c, c ∈ cs ∧ condition_hint c = None.
Proof.
  revert h. induction cs as [|c cs IH]; intros h; cbn.
  - split; [done|]. by intros (c & []%elem_of_nil & _).
  - destruct (condition_hint c) as [o|] eqn:Hc; cbn.
    + rewrite IH. split; intros (d & Hd & Hn); exists d; (split; [|done]); [by right|].
      apply elem_of_cons in Hd as [->|Hd]; [congruence|done].
    + split; [|done]. intros _. exists c. split; [by left|done].
Qed.

Lemma optimization_hint_None node : optimization_hint node = None ↔ unprintable node.
Proof.
  unfold optimization_hint, unprintable. rewrite fmap_None, hint_loop_None.
  setoid_rewrite condition_hint_None. naive_solver.
Qed.

Definition priced (p : Planner) (c : NodeCost) : Prop :=
  node_cost p (nc_index c) (nc_node c) = Some c.

Lemma node_costs_spec p nodes : ∀ i,
  match node_costs p i nodes with
  | Some cs =>
    (λ c, (nc_index c, nc_node c)) <$> cs = imap (λ k n, (i + k, n)%nat) nodes ∧
    Forall (priced p) cs ∧ Forall (λ c, i ≤ nc_index c)%nat cs ∧
    StronglySorted (λ a b, nc_index a < nc_index b)%nat cs
  | None => Exists unprintable nodes
  end.
Proof.
  induction nodes as [|node nodes IH]; intros i; [by split_and!; repeat constructor|].
  cbn [node_costs]. destruct (node_cost p i node) as [c|] eqn:Hc; cbn [mbind option_bind].
  - specialize (IH (S i)). destruct (node_costs p (S i) nodes) as [cs|]; cbn; [|by right].
    destruct IH as (Hm & Hp & Hi & Hs).
    assert (nc_index c = i ∧ nc_node c = node) as [Hci Hcn].
    { unfold node_cost in Hc. destruct (optimization_hint node); [|done]. by injection Hc as <-. }
    split_and!.
    + rewrite Hci, Hcn, Hm. cbn. rewrite Nat.add_0_r. f_equal. apply imap_ext. intros; cbn.
      by rewrite Nat.add_succ_r.
    + constructor; [|done]. unfold priced. by rewrite Hci, Hcn.
    + constructor; [lia|]. eapply Forall_impl; [exact Hi|]. cbn. lia.
    + constructor; [done|]. eapply Forall_impl; [exact Hi|]. cbn. lia.
  - left. apply optimization_hint_None. unfold node_cost in Hc.
    by destruct (optimization_hint node).
Qed.

Lemma priced_spec p c : priced p c →
  nc_cost c = node_estimate p (nc_node c) ∧ optimization_hint (nc_node c) = Some (nc_hint c).
Proof.
  unfold priced, node_cost. destruct (optimization_hint _) as [h|]; [|done].
  intros [= <-]. done.
Qed.

Definition as_pair (c : NodeCost) : nat * PlanNode := (nc_index c, nc_node c).

Lemma runs_before_trans p a b c :
  Forall (λ x : nat * PlanNode, f64_is_nan (node_time p x.2) = false) [a; b; c] →
  runs_before p a b → runs_before p b c → runs_before p a c.
Proof.
  rewrite !Forall_cons. intros (Ha & Hb & Hc & _).
  pose proof (float_cmp_trans _ _ _ Ha Hb Hc) as Ht. unfold runs_before.
  destruct (float_cmp (node_time p a.2) (node_time p b.2)),
    (float_cmp (node_time p b.2) (node_time p c.2)); intuition (try congruence; try lia);
    right; (split; [congruence|]); rewrite Ht by done; cbn; auto with lia.
Qed.

Lemma compare_nodes_before p a b :
  priced p a → priced p b → (nc_index a < nc_index b)%nat →
  f64_is_nan (node_time p (nc_node a)) = false → f64_is_nan (node_time p (nc_node b)) = false →
  (compare_nodes a b = Gt → runs_before p (as_pair b) (as_pair a)) ∧
  (compare_nodes a b ≠ Gt → runs_before p (as_pair a) (as_pair b)).
Proof.
  intros [Ha _]%priced_spec [Hb _]%priced_spec Hlt Hna Hnb.
  pose proof (float_cmp_opp _ _ Hna Hnb) as Ho. unfold compare_nodes, runs_before. cbn [as_pair fst snd].
  rewrite Ha, Hb. fold (node_time p (nc_node a)) (node_time p (nc_node b)). rewrite Ho. clear Ho.
  destruct (Z.compare_spec (execution_priority (pn_modality (nc_node a)))
    (execution_priority (pn_modality (nc_node b)))); cbn [then_with]; split; try done; try (by left).
  - intros ->. right. split; [done|]. by left.
  - destruct (float_cmp _ _); [| |by intros []]; intros _; right; (split; [done|]); [right|left]; by split.
Qed.

(** ** The plan *)

Lemma steps_numbered l : ∀ n,
  ps_step <$> imap (λ i c, step_of (n + i) c) l = seq n (length l).
Proof.
  induction l as [|c l IH]; intros n; [done|]. cbn. rewrite Nat.add_0_r. f_equal.
  rewrite <- IH. f_equal. apply imap_ext. intros; cbn. by rewrite Nat.add_succ_r.
Qed.

Lemma steps_describe p l : ∀ n, Forall (priced p) l →
  Forall2 (describes p) (imap (λ i c, step_of (n + i) c) l) (as_pair <$> l).*2.
Proof.
  induction l as [|c l IH]; intros n; [by constructor|].
  intros [Hc Hl]%Forall_cons. cbn. constructor.
  - apply priced_spec in Hc as [Hc Hh]. by split_and!.
  - assert (imap ((λ i d, step_of (n + i) d) ∘ S) l = imap (λ i d, step_of (S n + i) d) l) as ->.
    { apply imap_ext. intros; cbn. by rewrite Nat.add_succ_r. }
    by apply IH.
Qed.

Lemma steps_costs l : ∀ n, ps_cost <$> imap (λ i c, step_of (n + i) c) l = nc_cost <$> l.
Proof.
  intros n. rewrite fmap_imap. rewrite <- imap_const. by apply imap_ext.
Qed.

Lemma sorted_before p cs :
  Forall (priced p) cs → StronglySorted (λ a b, nc_index a < nc_index b)%nat cs →
  Forall (λ c, f64_is_nan (node_time p (nc_node c)) = false) cs →
  StronglySorted (runs_before p) (as_pair <$> sort_by compare_nodes cs).
Proof.
  intros Hp Hs Hn.
  assert (StronglySorted (λ a b, runs_before p (as_pair a) (as_pair b)) (sort_by compare_nodes cs)).
  { apply sort_by_sorted.
    - rewrite Forall_forall in Hn. intros a b c Ha Hb Hc. apply runs_before_trans.
      repeat constructor; by apply Hn.
    - intros l1 x l2 y -> Hy. rewrite Forall_app, Forall_cons in Hp. destruct Hp as (_ & Hpx & Hp2).
      rewrite Forall_app, Forall_cons in Hn. destruct Hn as (_ & Hnx & Hn2).
      rewrite Forall_forall in Hp2, Hn2. apply compare_nodes_before; auto.
      apply StronglySorted_app_1_r in Hs. apply StronglySorted_inv in Hs as [_ Hs].
      rewrite Forall_forall in Hs. by apply Hs. }
  clear Hp Hs Hn. induction H as [|c l _ IH Hf]; [constructor|]. cbn. constructor; [done|].
  by apply Forall_fmap.
Qed.

(** C36: What the optimizer makes of a logical plan.  It refuses the plan without nodes and
    no other; it panics just when a fulltext query longer than 20 bytes has a character
    across byte 20.  Otherwise the steps are the nodes, each once, numbered from 1 and each
    with its own estimate, hint and conditions; when no estimate is a NaN they are in order
    of priority, then of cost, then of position.  The strategy is parallel exactly from the
    configured number of nodes on, and the total is the combination of the steps' estimates
    with the cost of the post-processing. *)
Theorem optimize_spec p logical :
  match optimize p logical with
  | None => Exists unprintable (lp_nodes logical)
  | Some (Err e) => e = EmptyPlan ∧ lp_nodes logical = []
  | Some (Ok plan) =>
    lp_nodes logical ≠ [] ∧ Forall (λ node, ¬ unprintable node) (lp_nodes logical) ∧
    ps_step <$> pp_steps plan = seq 1 (length (lp_nodes logical)) ∧
    (∃ order, order ≡ₚ numbered (lp_nodes logical) ∧
       Forall2 (describes p) (pp_steps plan) order.*2 ∧
       (no_nan p (lp_nodes logical) → StronglySorted (runs_before p) order)) ∧
    (pp_strategy plan = Parallel ↔
       (parallel_threshold (pl_config p) ≤ length (lp_nodes logical))%nat) ∧
    pp_total_cost plan = estimate_with_post_processing
      (ce_combine (ps_cost <$> pp_steps plan) (bool_decide (pp_strategy plan = Parallel)))
      (lp_post_processing logical)
  end.
Proof.
  unfold optimize. pose proof (node_costs_spec p (lp_nodes logical) 0) as Hn.
  destruct (lp_nodes logical) as [|node nodes] eqn:Hl; [done|]. rewrite <- Hl in *.
  destruct (node_costs p 0 (lp_nodes logical)) as [cs|] eqn:Hcs; cbn [mbind option_bind]; [|done].
  destruct Hn as (Hm & Hp & _ & Hs). set (sorted := sort_by compare_nodes cs).
  assert (sorted ≡ₚ cs) as Hperm by apply sort_by_perm.
  assert (Forall (priced p) sorted) as Hps by by rewrite Hperm.
  assert (length sorted = length (lp_nodes logical)) as Hlen.
  { rewrite Hperm, <- (length_fmap as_pair). change (as_pair <$> cs) with
      ((λ c, (nc_index c, nc_node c)) <$> cs). rewrite Hm. apply length_imap. }
  assert (nc_node <$> cs = lp_nodes logical) as Hnodes.
  { transitivity (((λ c, (nc_index c, nc_node c)) <$> cs).*2); [by rewrite <- list_fmap_compose|].
    rewrite Hm, fmap_imap. rewrite <- (list_fmap_id (lp_nodes logical)) at 2.
    rewrite <- imap_const. by apply imap_ext. }
  assert (no_nan p (lp_nodes logical) →
    StronglySorted (runs_before p) (as_pair <$> sorted)) as Hsorted.
  { intros Hno. apply sorted_before; [done..|]. unfold no_nan in Hno.
    rewrite <- Hnodes in Hno. by apply Forall_fmap in Hno. }
  split_and!; cbn [pp_steps pp_strategy pp_total_cost].
  - by rewrite Hl.
  - rewrite <- Hnodes. apply Forall_fmap. eapply Forall_impl; [exact Hp|]. cbn.
    intros c [_ Hh]%priced_spec Hu%optimization_hint_None. congruence.
  - rewrite <- Hlen. apply (steps_numbered sorted 1).
  - exists (as_pair <$> sorted). split_and!; [|by apply (steps_describe p sorted 1)|done].
    rewrite Hperm. change (as_pair <$> cs) with ((λ c, (nc_index c, nc_node c)) <$> cs).
    by rewrite Hm.
  - destruct (parallel_threshold _ <=? _)%nat eqn:Ht; split; try done; intros;
      [by apply Nat.leb_le|apply Nat.leb_gt in Ht; lia].
  - by rewrite <- (steps_costs sorted 1).
Qed.

(** ** Combined costs *)

Lemma then_with_le c d : c ≠ Gt → d ≠ Gt → then_with c d ≠ Gt.
Proof. by destruct c. Qed.

Lemma f64_max_cmp a b :
  f64_is_nan a = false → f64_is_nan b = false →
  f64_is_nan (f64_max a b) = false ∧ (f64_max a b = a ∨ f64_max a b = b) ∧
  float_cmp a (f64_max a b) ≠ Gt ∧ float_cmp b (f64_max a b) ≠ Gt.
Proof.
  intros Ha Hb. unfold f64_max. rewrite Ha, Hb.
  pose proof (f64_ltb_cmp a b Ha Hb) as Hlt. pose proof (float_cmp_opp a b Ha Hb) as Ho.
  assert (∀ x, f64_is_nan x = false → float_cmp x x = Eq) as Hrefl.
  { intros x Hx. pose proof (float_cmp_opp x x Hx Hx). by destruct (float_cmp x x). }
  destruct (f64_ltb a b); split_and!; auto; rewrite ?Hrefl by done; try done.
  - by rewrite (proj1 Hlt eq_refl).
  - rewrite Ho. destruct (float_cmp a b); try done. intros _. by discriminate (proj2 Hlt eq_refl).
Qed.

(** The time of a parallel combination is the greatest of the times. *)
Lemma parallel_time_is_max es : ∀ e,
  Forall (λ x, f64_is_nan (time_ms x) = false) (e :: es) →
  let t := time_ms (ce_combine (e :: es) true) in
  f64_is_nan t = false ∧ (∃ x, x ∈ e :: es ∧ t = time_ms x) ∧
  Forall (λ x, float_cmp (time_ms x) t ≠ Gt) (e :: es).
Proof.
  induction es as [|e2 es IH]; intros e [He Hes]%Forall_cons; cbn zeta.
  - split_and!; [done|exists e; by split; [left|]|]. repeat constructor. cbn.
    pose proof (float_cmp_opp _ _ He He). by destruct (float_cmp _ _).
  - apply Forall_cons in Hes as [He2 Hes].
    destruct (f64_max_cmp _ _ He He2) as (Hm & Hor & Hle & Hle2).
    destruct (IH (ce_parallel e e2)) as (Hn & (x & Hx & Hxt) & Hall); [by constructor|].
    change (ce_combine (e :: e2 :: es) true) with (ce_combine (ce_parallel e e2 :: es) true).
    apply Forall_cons in Hall as [H1 Hall]. set (t := time_ms (ce_combine _ _)) in *.
    split_and!; [done| |].
    + apply elem_of_cons in Hx as [->|Hx]; [|exists x; split; [by do 2 right|done]].
      cbn in Hxt. destruct Hor as [Hor|Hor]; rewrite Hor in Hxt;
        [exists e; by split; [left|]|exists e2; by split; [right; left|]].
    + cbn in H1. constructor; [|constructor; [|done]]; rewrite (float_cmp_trans _ (f64_max (time_ms e) (time_ms e2)) t) by done;
        by apply then_with_le.
Qed.

(** ** A run of queries *)

Definition query : Type := DateTime * f64 * Z.

Definition record_queries (m : Modality) (c : StatisticsCollector) (qs : list query)
    : StatisticsCollector :=
  foldl (λ c '(now, latency, rows), record_execution now m latency rows c) c qs.

Lemma record_queries_snoc m c qs now latency rows :
  record_queries m c (qs ++ [(now, latency, rows)]) =
  record_execution now m latency rows (record_queries m c qs).
Proof. unfold record_queries. by rewrite foldl_app. Qed.

Lemma small_rows_average r : (0 ≤ r < 10)%Z →
  f64_as_u64 (moving_average (f64_of_Z r) (f64_of_Z 0)) = 0%Z.
Proof.
  intros Hr. assert (r ∈ [0; 1; 2; 3; 4; 5; 6; 7; 8; 9]%Z) as Hin.
  { assert (r = 0 ∨ r = 1 ∨ r = 2 ∨ r = 3 ∨ r = 4 ∨ r = 5 ∨ r = 6 ∨ r = 7 ∨ r = 8 ∨ r = 9)%Z by lia.
    set_solver. }
  clear Hr. revert r Hin. apply Forall_forall. repeat constructor.
Qed.

(** The average of the rows returned sticks: it is rounded towards zero after every
    query, so once it is 0 no number of queries that return fewer than ten rows each raises
    it, although their mean may be nine. *)
Theorem row_average_sticks m c now latency (qs : list query) :
  default 0%Z (st_query_count <$> stats_get m c) = 0%Z →
  (Z.of_nat (length qs) < 2 ^ 64 - 1)%Z →
  Forall (λ '(_, _, rows), (0 ≤ rows < 10)%Z) qs →
  st_avg_rows_returned <$> stats_get m (record_queries m (record_execution now m latency 0 c) qs)
  = Some 0%Z.
Proof.
  intros H0 Hlen Hqs.
  enough (∃ e, stats_get m (record_queries m (record_execution now m latency 0 c) qs) = Some e ∧
    st_avg_rows_returned e = 0%Z ∧ st_query_count e = (1 + Z.of_nat (length qs))%Z)
    as (e & -> & He & _) by (cbn; by rewrite He).
  induction qs as [|[[now' latency'] rows] qs IH] using rev_ind; cbn [length].
  - eexists. cbn. unfold stats_get, record_execution. cbn. rewrite lookup_insert_eq.
    split; [done|]. unfold record_on. unfold stats_get in H0.
    assert (st_query_count (default (StoreStatistics_new now m) (sc_stats c !! m)) = 0%Z) as ->.
    { by destruct (sc_stats c !! m). }
    done.
  - apply Forall_app in Hqs as [Hqs Hr]. rewrite length_app in *. cbn [length] in *.
    destruct IH as (e & He & Havg & Hcount); [lia|done|].
    rewrite record_queries_snoc. set (c' := record_queries m _ qs) in *.
    unfold stats_get, record_execution. cbn. rewrite lookup_insert_eq.
    unfold stats_get in He. rewrite He. cbn [default from_option id]. eexists; split; [done|].
    unfold record_on. rewrite Hcount, u64_add_small by (unfold is_u64; lia).
    destruct (_ =? 1)%Z eqn:H1; [apply Z.eqb_eq in H1; lia|]. cbn [st_avg_rows_returned st_query_count].
    rewrite Havg. split; [|lia]. apply small_rows_average. exact (proj1 (Forall_singleton _ _) Hr).
Qed.

End optimizer.
