(* ===== verification/VqlBridge.v ===== *)
(** * From a VQL syntax tree to a logical plan

    Models [src/rust-core/verisim-planner/src/vql_bridge.rs]: the tree, the parser of its
    conditions from JSON values, and the conversion.  Reading the JSON text, and the fields
    of the records the [serde] derive reads, are third-party code: [field_ref_from_value]
    is a parameter, and the statement's record is taken as read. *)

From S2P Require Import Prelude Floats Plan.
From stdpp Require Import pretty.
From Stdlib Require String.
Local Open Scope Z_scope.

(** ** JSON values *)

(** [serde_json::Number] and what is read of it; [Display] of a value. *)
Class SerdeNumber := {
  Number : Type;
  as_f64 : Number → option f64;
  as_u64 : Number → option Z;
}.

Inductive Json `{SerdeNumber} :=
| JNull
| JBool (b : bool)
| JNumber (n : Number)
| JString (s : string)
| JArray (l : list Json)
| JObject (fields : list (string * Json)).

Inductive DeError :=
| invalid_type (expecting : string)
| missing_field (name : string)
| unknown_variant (name : string).

(** ** The tree *)

Inductive VqlModality :=
| VGraph | VVector | VTensor | VSemantic | VDocument | VTemporal | VAll.

#[export] Instance VqlModality_eq_dec : EqDecision VqlModality.
Proof. solve_decision. Defined.

Record VqlFieldRef := { fr_modality : option VqlModality; fr_field : string }.

Section vql.
Context {SN : SerdeNumber}.

Inductive VqlSource :=
| VHexad (uuid : option string)
| VFederation (nodes : list string) (drift_policy : option string)
| VStore (m : VqlModality).

Inductive VqlSimpleCondition :=
| FulltextContains (text : string)
| VectorSimilar (embedding : list f64) (threshold : f64)
| GraphPattern (predicate : string) (depth : option Z)
| FieldCondition (field : VqlFieldRef) (operator : string) (value : Json)
| CrossModalFieldCompare (l : VqlFieldRef) (operator : string) (r : VqlFieldRef)
| ModalityDrift (m : VqlModality) (threshold : f64)
| ModalityExists (m : VqlModality)
| ModalityNotExists (m : VqlModality)
| ModalityConsistency (ms : list VqlModality) (threshold : f64).

Inductive VqlCondition :=
| And (l r : VqlCondition)
| Or (l r : VqlCondition)
| Not (c : VqlCondition)
| Simple (s : VqlSimpleCondition).

Record VqlProjection := { vp_field : VqlFieldRef; vp_alias : option string }.
Record VqlAggregate := {
  va_function : string; va_field : option VqlFieldRef; va_alias : option string;
}.
Inductive VqlProofType := Citation | Zkp | Attestation | Custom (name : string).
Record VqlProofSpec := { vs_proof_type : VqlProofType; vs_contract_name : string }.
Inductive VqlDirection := Asc | Desc.
Record VqlOrderBy := { vo_field : VqlFieldRef; vo_direction : VqlDirection }.

Record VqlQuery := {
  vq_modalities : list VqlModality; vq_source : VqlSource; vq_where : option VqlCondition;
  vq_projections : option (list VqlProjection); vq_aggregates : option (list VqlAggregate);
  vq_group_by : option (list VqlFieldRef); vq_having : option VqlCondition;
  vq_proof : option (list VqlProofSpec); vq_order_by : option (list VqlOrderBy);
  vq_limit : option Z; vq_offset : option Z;
}.

(** ** Reading conditions *)

(** [get] of an object. *)
Fixpoint json_get (name : string) (fields : list (string * Json)) : option Json :=
  match fields with
  | [] => None
  | (k, v) :: fields => if decide (k = name) then Some v else json_get name fields
  end.

Definition as_str (v : Json) : option string := match v with JString s => Some s | _ => None end.
Definition as_array (v : Json) : option (list Json) := match v with JArray l => Some l | _ => None end.
Definition json_f64 (v : Json) : option f64 := match v with JNumber n => as_f64 n | _ => None end.
Definition json_u64 (v : Json) : option Z := match v with JNumber n => as_u64 n | _ => None end.

(** The visitors: [TAG] must hold a string, the last one counts, other fields are skipped. *)
Fixpoint visit_tag (fields : list (string * Json)) (tag : option string)
    : result DeError (option string) :=
  match fields with
  | [] => Ok tag
  | (k, v) :: fields =>
    if decide (k = "TAG") then
      match v with JString s => visit_tag fields (Some s) | _ => Err (invalid_type "a string") end
    else visit_tag fields tag
  end.

Definition tag_from_value (expecting : string) (v : Json) : result DeError string :=
  match v with
  | JObject fields => tag ← visit_tag fields None; ok_or (missing_field "TAG") tag
  | _ => Err (invalid_type expecting)
  end.

Definition modality_from_value (v : Json) : result DeError VqlModality :=
  tag ← tag_from_value "a VQL modality object with TAG field" v;
  if decide (tag = "Graph") then Ok VGraph
  else if decide (tag = "Vector") then Ok VVector
  else if decide (tag = "Tensor") then Ok VTensor
  else if decide (tag = "Semantic") then Ok VSemantic
  else if decide (tag = "Document") then Ok VDocument
  else if decide (tag = "Temporal") then Ok VTemporal
  else if decide (tag = "All") then Ok VAll
  else Err (unknown_variant tag).

Definition proof_type_from_value (v : Json) : result DeError VqlProofType :=
  tag ← tag_from_value "a VQL proof type object with TAG field" v;
  Ok (if decide (tag = "Citation") then Citation
      else if decide (tag = "Zkp") then Zkp
      else if decide (tag = "Attestation") then Attestation
      else Custom tag).

Definition direction_from_value (v : Json) : result DeError VqlDirection :=
  tag ← tag_from_value "a VQL direction object with TAG field" v;
  if decide (tag = "Asc") then Ok Asc
  else if decide (tag = "Desc") then Ok Desc
  else Err (unknown_variant tag).

(** [collect::<Result<Vec<_>, _>>()] *)
Fixpoint collect {E A B} (f : A → result E B) (l : list A) : result E (list B) :=
  match l with
  | [] => Ok []
  | x :: l => y ← f x; ys ← collect f l; Ok (y :: ys)
  end.

Definition modalities_from_value (v : Json) : result DeError (list VqlModality) :=
  match v with
  | JArray l => collect modality_from_value l
  | _ => Err (invalid_type "a sequence")
  end.

(** The derived reader of a field reference, and [to_string] of its errors. *)
Class SerdeDerive := {
  field_ref_from_value : Json → result DeError VqlFieldRef;
  de_to_string : DeError → string;
}.
Context {SD : SerdeDerive}.

Definition from_value {A} (f : Json → result DeError A) (v : Json) : result string A :=
  map_err de_to_string (f v).

(** [obj.get(name).ok_or(message)] and its readings. *)
Definition get_or (message name : string) (o : list (string * Json)) : result string Json :=
  ok_or message (json_get name o).
Definition str_or (message name : string) (o : list (string * Json)) : result string string :=
  ok_or message (json_get name o ≫= as_str).
Definition f64_or (message name : string) (o : list (string * Json)) : result string f64 :=
  ok_or message (json_get name o ≫= json_f64).

Definition parse_simple_object (tag : string) (obj : list (string * Json))
    : result string VqlSimpleCondition :=
  if decide (tag = "FulltextContains") then
    text ← str_or "FulltextContains missing _0 (search text)" "_0" obj;
    Ok (FulltextContains text)
  else if decide (tag = "VectorSimilar") then
    values ← ok_or "VectorSimilar missing _0 (embedding array)" (json_get "_0" obj ≫= as_array);
    embedding ← collect (λ v, ok_or "VectorSimilar _0 contains non-numeric" (json_f64 v)) values;
    threshold ← f64_or "VectorSimilar missing _1 (threshold)" "_1" obj;
    Ok (VectorSimilar embedding threshold)
  else if decide (tag = "GraphPattern") then
    predicate ← str_or "GraphPattern missing _0 (predicate)" "_0" obj;
    Ok (GraphPattern predicate (wrap 32 <$> (json_get "_1" obj ≫= json_u64)))
  else if decide (tag = "FieldCondition") then
    field_val ← get_or "FieldCondition missing _0 (field)" "_0" obj;
    field ← from_value field_ref_from_value field_val;
    operator ← str_or "FieldCondition missing _1 (operator)" "_1" obj;
    val ← get_or "FieldCondition missing _2 (value)" "_2" obj;
    Ok (FieldCondition field operator val)
  else if decide (tag = "CrossModalFieldCompare") then
    left_val ← get_or "CrossModalFieldCompare missing _0 (left)" "_0" obj;
    l ← from_value field_ref_from_value left_val;
    operator ← str_or "CrossModalFieldCompare missing _1 (operator)" "_1" obj;
    right_val ← get_or "CrossModalFieldCompare missing _2 (right)" "_2" obj;
    r ← from_value field_ref_from_value right_val;
    Ok (CrossModalFieldCompare l operator r)
  else if decide (tag = "ModalityDrift") then
    mod_val ← get_or "ModalityDrift missing _0 (modality)" "_0" obj;
    m ← from_value modality_from_value mod_val;
    threshold ← f64_or "ModalityDrift missing _1 (threshold)" "_1" obj;
    Ok (ModalityDrift m threshold)
  else if decide (tag = "ModalityExists") then
    mod_val ← get_or "ModalityExists missing _0 (modality)" "_0" obj;
    m ← from_value modality_from_value mod_val;
    Ok (ModalityExists m)
  else if decide (tag = "ModalityNotExists") then
    mod_val ← get_or "ModalityNotExists missing _0 (modality)" "_0" obj;
    m ← from_value modality_from_value mod_val;
    Ok (ModalityNotExists m)
  else if decide (tag = "ModalityConsistency") then
    mods_val ← get_or "ModalityConsistency missing _0 (modalities)" "_0" obj;
    ms ← from_value modalities_from_value mods_val;
    threshold ← f64_or "ModalityConsistency missing _1 (threshold)" "_1" obj;
    Ok (ModalityConsistency ms threshold)
  else Err ("unknown simple condition TAG: " +:+ tag).

Definition parse_simple_condition (value : Json) : result string VqlSimpleCondition :=
  match value with
  | JObject obj =>
    tag ← ok_or "simple condition object missing TAG field" (json_get "TAG" obj ≫= as_str);
    parse_simple_object tag obj
  | _ => Err "simple condition must be a JSON object"
  end.

Fixpoint parse_condition (value : Json) : result string VqlCondition :=
  match value with
  | JObject obj =>
    (* what [parse_condition] gives at each field of the object *)
    let operand := fix operand (name : string) (l : list (string * Json)) :=
      match l with
      | [] => None
      | (k, v) :: l => if decide (k = name) then Some (parse_condition v) else operand name l
      end in
    tag ← ok_or "condition object missing TAG field" (json_get "TAG" obj ≫= as_str);
    if decide (tag = "And") then
      lhs ← ok_or "And condition missing _0 (left operand)" (operand "_0" obj);
      rhs ← ok_or "And condition missing _1 (right operand)" (operand "_1" obj);
      l ← lhs; r ← rhs; Ok (And l r)
    else if decide (tag = "Or") then
      lhs ← ok_or "Or condition missing _0 (left operand)" (operand "_0" obj);
      rhs ← ok_or "Or condition missing _1 (right operand)" (operand "_1" obj);
      l ← lhs; r ← rhs; Ok (Or l r)
    else if decide (tag = "Not") then
      inner ← ok_or "Not condition missing _0 (operand)" (operand "_0" obj);
      c ← inner; Ok (Not c)
    else if decide (tag = "Simple") then
      inner ← ok_or "Simple condition missing _0" (json_get "_0" obj);
      s ← parse_simple_condition inner; Ok (Simple s)
    else Err ("unknown condition TAG: " +:+ tag)
  | _ => Err "condition must be a JSON object"
  end.

(** ** Conversion *)

(** [{:?}] of a simple condition, and [to_string] of a value and of an [f64]. *)
Class DebugVql := {
  debug_simple : VqlSimpleCondition → string;
  json_to_string : Json → string;
}.
Context {DV : DebugVql} {DC : DebugCondition} {FD : FloatDisplay}.

Definition debug_vql_modality (m : VqlModality) : string :=
  match m with
  | VGraph => "Graph" | VVector => "Vector" | VTensor => "Tensor" | VSemantic => "Semantic"
  | VDocument => "Document" | VTemporal => "Temporal" | VAll => "All"
  end.

Definition vql_modality_to_planner (vm : VqlModality) : result PlannerError Modality :=
  match vm with
  | VGraph => Ok Graph | VVector => Ok Vector | VTensor => Ok Tensor | VSemantic => Ok Semantic
  | VDocument => Ok Document | VTemporal => Ok Temporal
  | VAll => Err (InvalidConfig "All modality should be expanded before individual mapping")
  end.

Fixpoint expand_modalities (vms : list VqlModality) : result PlannerError (list Modality) :=
  match vms with
  | [] => Ok []
  | VAll :: vms => ms ← expand_modalities vms; Ok (ALL ++ ms)
  | vm :: vms => m ← vql_modality_to_planner vm; ms ← expand_modalities vms; Ok (m :: ms)
  end.

(** [retain] of the modalities not seen before. *)
Fixpoint retain_unseen (seen : gset Modality) (ms : list Modality) : list Modality :=
  match ms with
  | [] => []
  | m :: ms => if decide (m ∈ seen) then retain_unseen seen ms
               else m :: retain_unseen ({[m]} ∪ seen) ms
  end.

Definition resolve_modalities (vms : list VqlModality) : result PlannerError (list Modality) :=
  ms ← expand_modalities vms; Ok (retain_unseen ∅ ms).

Definition map_source (src : VqlSource) : result PlannerError QuerySource :=
  match src with
  | VHexad _ => Ok SHexad
  | VFederation nodes _ => Ok (SFederation nodes)
  | VStore vm => m ← vql_modality_to_planner vm; Ok (SStore m)
  end.

(** [.ok()] *)
Definition planner_modality (vm : VqlModality) : option Modality :=
  match vql_modality_to_planner vm with Ok m => Some m | Err _ => None end.

Definition dotted (f : VqlFieldRef) : string :=
  default "?" (debug_vql_modality <$> fr_modality f) +:+ "." +:+ fr_field f.

Definition field_kind (field operator value : string) : ConditionKind :=
  if decide (operator ∈ ["="; "=="; "!="; "<>"]) then Equality field value
  else if decide (operator ∈ [">"; ">="; "<"; "<="; "BETWEEN"]) then Range field value value
  else Predicate (field +:+ " " +:+ operator +:+ " " +:+ value).

Definition map_simple_condition (s : VqlSimpleCondition)
    : result PlannerError (option Modality * ConditionKind) :=
  match s with
  | FulltextContains text => Ok (Some Document, Fulltext text)
  | VectorSimilar embedding _ => Ok (Some Vector, Similarity (length embedding))
  | GraphPattern predicate depth => Ok (Some Graph, Traversal predicate depth)
  | FieldCondition field operator value =>
    let value_str := match value with JString s => s | other => json_to_string other end in
    Ok (fr_modality field ≫= planner_modality, field_kind (fr_field field) operator value_str)
  | CrossModalFieldCompare l operator r =>
    Ok (None, Predicate ("cross_modal: " +:+ dotted l +:+ " " +:+ operator +:+ " " +:+ dotted r))
  | ModalityDrift vm threshold =>
    m ← vql_modality_to_planner vm;
    Ok (Some m, Predicate ("drift(" +:+ modality_display m +:+ ") > " +:+ f64_to_string threshold))
  | ModalityExists vm =>
    m ← vql_modality_to_planner vm;
    Ok (Some m, Predicate ("exists(" +:+ modality_display m +:+ ")"))
  | ModalityNotExists vm =>
    m ← vql_modality_to_planner vm;
    Ok (Some m, Predicate ("not_exists(" +:+ modality_display m +:+ ")"))
  | ModalityConsistency vms threshold =>
    let names := modality_display <$> omap planner_modality vms in
    Ok (None, Predicate ("consistency(" +:+ String.concat ", " names +:+ ") > "
                           +:+ f64_to_string threshold))
  end.

Fixpoint describe_condition (c : VqlCondition) : string :=
  match c with
  | And l r => "(" +:+ describe_condition l +:+ " AND " +:+ describe_condition r +:+ ")"
  | Or l r => "(" +:+ describe_condition l +:+ " OR " +:+ describe_condition r +:+ ")"
  | Not c => "NOT(" +:+ describe_condition c +:+ ")"
  | Simple s => debug_simple s
  end.

Abbreviation condition_map := (gmap Modality (list ConditionKind)).

(** [out.entry(m).or_default().push(kind)], at one modality and at several. *)
Definition push_at (k : ConditionKind) (m : Modality) (out : condition_map) : condition_map :=
  <[m := default [] (out !! m) ++ [k]]> out.

Definition broadcast (k : ConditionKind) (active : list Modality) (out : condition_map)
    : condition_map := foldl (λ out m, push_at k m out) out active.

Fixpoint flatten_conditions (c : VqlCondition) (active : list Modality) (out : condition_map)
    : result PlannerError condition_map :=
  match c with
  | And l r =>
    out ← flatten_conditions l active out;
    flatten_conditions r active out
  | Or l r =>
    Ok (broadcast (Predicate ("OR(" +:+ describe_condition l +:+ ", "
                                +:+ describe_condition r +:+ ")")) active out)
  | Not c => Ok (broadcast (Predicate ("NOT(" +:+ describe_condition c +:+ ")")) active out)
  | Simple s =>
    '(target, kind) ← map_simple_condition s;
    Ok (match target with
        | Some m =>
          if decide (is_Some (out !! m)) then push_at kind m out
          else broadcast (Predicate ("target_modality=" +:+ modality_display m +:+ ": "
                                       +:+ debug_condition kind)) active out
        | None => broadcast kind active out
        end)
  end.

Definition field_ref_name (f : VqlFieldRef) : string :=
  match fr_modality f with
  | Some m => debug_vql_modality m +:+ "." +:+ fr_field f
  | None => fr_field f
  end.

Definition add_projection (modalities : list Modality) (map : gmap Modality (list string))
    (proj : VqlProjection) : gmap Modality (list string) :=
  let field_name := default (fr_field (vp_field proj)) (vp_alias proj) in
  let push m map := <[m := default [] (map !! m) ++ [field_name]]> map in
  match fr_modality (vp_field proj) with
  | Some vm =>
    match planner_modality vm with
    | Some m => if decide (m ∈ modalities) then push m map else map
    | None => map
    end
  | None => foldl (λ map m, push m map) map modalities
  end.

Definition build_projection_map (modalities : list Modality) (projections : option (list VqlProjection))
    : gmap Modality (list string) :=
  foldl (add_projection modalities) ∅ (default [] projections).

Definition aggregate_name (a : VqlAggregate) : string :=
  va_function a +:+ "(" +:+ default "*" (field_ref_name <$> va_field a) +:+ ")".

Definition is_limit (pp : PostProcessing) : bool := match pp with Limit _ => true | _ => false end.

Definition usize_max : Z := 2 ^ 64 - 1.

Definition post_processing (q : VqlQuery) : list PostProcessing :=
  let pp :=
    match vq_group_by q with
    | Some fields =>
      [GroupBy (field_ref_name <$> fields) (aggregate_name <$> default [] (vq_aggregates q))]
    | None => []
    end in
  let pp := pp ++
    match vq_order_by q with
    | Some fields =>
      [OrderBy ((λ o, (field_ref_name (vo_field o),
                       match vo_direction o with Asc => true | Desc => false end)) <$> fields)]
    | None => []
    end in
  let pp := pp ++ match vq_limit q with Some count => [Limit count] | None => [] end in
  let pp := pp ++
    match vq_offset q with
    | Some skip =>
      if 0 <? skip then
        (if existsb is_limit pp then [] else [Limit (usize_max - skip)])
        ++ [Project ["__offset=" +:+ pretty skip]]
      else []
    | None => []
    end in
  pp ++
    match vq_group_by q, vq_projections q with
    | None, Some projs =>
      match (λ p, default (field_ref_name (vp_field p)) (vp_alias p)) <$> projs with
      | [] => []
      | columns => [Project columns]
      end
    | _, _ => []
    end.

Definition add_proofs (proofs : list VqlProofSpec) (out : condition_map) : condition_map :=
  foldl (λ out spec, push_at (ProofVerification (vs_contract_name spec)) Semantic out) out proofs.

Definition to_logical_plan (q : VqlQuery) : result PlannerError LogicalPlan :=
  modalities ← resolve_modalities (vq_modalities q);
  if decide (modalities = []) then Err EmptyPlan
  else
    source ← map_source (vq_source q);
    let out : condition_map := foldl (λ out m, <[m := default [] (out !! m)]> out) ∅ modalities in
    out ← match vq_where q with
          | Some c => flatten_conditions c modalities out
          | None => Ok out
          end;
    let out := add_proofs (default [] (vq_proof q)) out in
    let projections := build_projection_map modalities (vq_projections q) in
    let nodes := (λ m,
      {| pn_modality := m; pn_conditions := default [] (out !! m);
         pn_projections := default [] (projections !! m); pn_early_limit := None |}) <$> modalities in
    Ok {| lp_source := source;
          lp_nodes := sort_by (λ a b, Z.compare (execution_priority (pn_modality a))
                                                (execution_priority (pn_modality b))) nodes;
          lp_post_processing := post_processing q |}.

End vql.

(** ** What the bridge keeps of a query

    The conditions of the tree are read back from their encoding; each goes to the nodes it
    concerns; and some parts of a query leave no trace in its plan. *)

Section vql.
Context {SN : SerdeNumber} {SD : SerdeDerive}.

(** ** Reading what was written *)

(** The encoding of the parser that produces the tree: a [TAG] and positional fields. *)
Class VqlEncode := {
  enc_f64 : f64 → Number;
  enc_u64 : Z → Number;
  enc_ref : VqlFieldRef → Json;
}.

Class VqlEncodeLaws (E : VqlEncode) := {
  as_f64_enc : ∀ x, f64_is_finite x = true → as_f64 (enc_f64 x) = Some x;
  as_u64_enc : ∀ z, is_u64 z → as_u64 (enc_u64 z) = Some z;
  field_ref_enc : ∀ f, field_ref_from_value (enc_ref f) = Ok f;
}.

Context {EN : VqlEncode} {EL : VqlEncodeLaws EN}.

Definition tagged (tag : string) (args : list (string * Json)) : Json :=
  JObject (("TAG", JString tag) :: args).

Definition enc_modality (m : VqlModality) : Json := tagged (debug_vql_modality m) [].

Definition enc_simple (s : VqlSimpleCondition) : Json :=
  match s with
  | FulltextContains text => tagged "FulltextContains" [("_0", JString text)]
  | VectorSimilar embedding threshold =>
    tagged "VectorSimilar" [("_0", JArray ((λ x, JNumber (enc_f64 x)) <$> embedding));
                            ("_1", JNumber (enc_f64 threshold))]
  | GraphPattern predicate depth =>
    tagged "GraphPattern" (("_0", JString predicate)
      :: match depth with Some d => [("_1", JNumber (enc_u64 d))] | None => [] end)
  | FieldCondition field operator value =>
    tagged "FieldCondition" [("_0", enc_ref field); ("_1", JString operator); ("_2", value)]
  | CrossModalFieldCompare l operator r =>
    tagged "CrossModalFieldCompare" [("_0", enc_ref l); ("_1", JString operator); ("_2", enc_ref r)]
  | ModalityDrift m threshold =>
    tagged "ModalityDrift" [("_0", enc_modality m); ("_1", JNumber (enc_f64 threshold))]
  | ModalityExists m => tagged "ModalityExists" [("_0", enc_modality m)]
  | ModalityNotExists m => tagged "ModalityNotExists" [("_0", enc_modality m)]
  | ModalityConsistency ms threshold =>
    tagged "ModalityConsistency" [("_0", JArray (enc_modality <$> ms)); ("_1", JNumber (enc_f64 threshold))]
  end.

Fixpoint enc_condition (c : VqlCondition) : Json :=
  match c with
  | And l r => tagged "And" [("_0", enc_condition l); ("_1", enc_condition r)]
  | Or l r => tagged "Or" [("_0", enc_condition l); ("_1", enc_condition r)]
  | Not c => tagged "Not" [("_0", enc_condition c)]
  | Simple s => tagged "Simple" [("_0", enc_simple s)]
  end.

(** Numbers JSON can carry: no NaN or infinity, depths of 32 bits. *)
Definition encodable_simple (s : VqlSimpleCondition) : Prop :=
  match s with
  | VectorSimilar embedding threshold =>
    Forall (λ x, f64_is_finite x = true) embedding ∧ f64_is_finite threshold = true
  | GraphPattern _ (Some d) => is_u32 d
  | ModalityDrift _ threshold | ModalityConsistency _ threshold => f64_is_finite threshold = true
  | _ => True
  end.

Fixpoint encodable (c : VqlCondition) : Prop :=
  match c with
  | And l r | Or l r => encodable l ∧ encodable r
  | Not c => encodable c
  | Simple s => encodable_simple s
  end.

Lemma modality_from_enc m : modality_from_value (enc_modality m) = Ok m.
Proof. by destruct m. Qed.

Lemma collect_map {E A B C} (f : B → result E C) (g : A → B) (h : A → C) (l : list A) :
  Forall (λ x, f (g x) = Ok (h x)) l → collect f (g <$> l) = Ok (h <$> l).
Proof. induction 1 as [|x l Hx _ IH]; [done|]. cbn. by rewrite Hx, IH. Qed.

Lemma parse_enc_simple s : encodable_simple s → parse_simple_condition (enc_simple s) = Ok s.
Proof.
  destruct s as [text|embedding threshold|predicate [d|]|field operator value|l operator r
    |m threshold|m|m|ms threshold]; intros Hs; cbn in Hs; try done.
  - destruct Hs as [He Ht]. change (parse_simple_condition _) with
      (es ← collect (λ v, ok_or "VectorSimilar _0 contains non-numeric" (json_f64 v))
              ((λ x, JNumber (enc_f64 x)) <$> embedding);
       t ← ok_or "VectorSimilar missing _1 (threshold)" (as_f64 (enc_f64 threshold));
       Ok (VectorSimilar es t)).
    rewrite (collect_map _ (λ x, JNumber (enc_f64 x)) id).
    + by rewrite as_f64_enc, list_fmap_id by done.
    + eapply Forall_impl; [exact He|]. intros x Hx. cbn. by rewrite as_f64_enc.
  - change (parse_simple_condition _) with
      (@Ok string _ (GraphPattern predicate (wrap 32 <$> as_u64 (enc_u64 d)))).
    rewrite as_u64_enc by (unfold is_u64, is_u32 in *; lia). cbn. by rewrite wrap_small.
  - change (parse_simple_condition _) with
      (f ← from_value field_ref_from_value (enc_ref field); @Ok string _ (FieldCondition f operator value)).
    unfold from_value. by rewrite field_ref_enc.
  - change (parse_simple_condition _) with
      (f ← from_value field_ref_from_value (enc_ref l);
       g ← from_value field_ref_from_value (enc_ref r); @Ok string _ (CrossModalFieldCompare f operator g)).
    unfold from_value. by rewrite !field_ref_enc.
  - change (parse_simple_condition _) with
      (m ← from_value modality_from_value (enc_modality m);
       t ← ok_or "ModalityDrift missing _1 (threshold)" (as_f64 (enc_f64 threshold));
       Ok (ModalityDrift m t)).
    unfold from_value. by rewrite modality_from_enc, as_f64_enc.
  - by destruct m.
  - by destruct m.
  - change (parse_simple_condition _) with
      (ms ← map_err de_to_string (collect modality_from_value (enc_modality <$> ms));
       t ← ok_or "ModalityConsistency missing _1 (threshold)" (as_f64 (enc_f64 threshold));
       Ok (ModalityConsistency ms t)).
    rewrite (collect_map _ enc_modality id); [|apply Forall_forall; intros; apply modality_from_enc].
    cbn [map_err]. by rewrite as_f64_enc, list_fmap_id by done.
Qed.

(** Every condition is read back from its encoding: parsing the [TAG] objects of a
    WHERE tree, however deep, gives that tree, as long as its numbers are ones JSON can
    carry. *)
Theorem parse_condition_roundtrip c : encodable c → parse_condition (enc_condition c) = Ok c.
Proof.
  induction c as [l IHl r IHr|l IHl r IHr|c IH|s]; intros Hc; cbn in Hc.
  - destruct Hc as [Hl Hr]. change (parse_condition _) with
      (l' ← parse_condition (enc_condition l); r' ← parse_condition (enc_condition r); Ok (And l' r')).
    by rewrite IHl, IHr.
  - destruct Hc as [Hl Hr]. change (parse_condition _) with
      (l' ← parse_condition (enc_condition l); r' ← parse_condition (enc_condition r); Ok (Or l' r')).
    by rewrite IHl, IHr.
  - change (parse_condition _) with (c' ← parse_condition (enc_condition c); Ok (Not c')).
    by rewrite IH.
  - change (parse_condition _) with (s' ← parse_simple_condition (enc_simple s); Ok (Simple s')).
    by rewrite parse_enc_simple.
Qed.

End vql.

Section bridge.
Context {SN : SerdeNumber}.

(** ** Where the conditions go *)

Context {DV : DebugVql} {DC : DebugCondition} {FD : FloatDisplay}.

Fixpoint conjuncts (c : VqlCondition) : list VqlCondition :=
  match c with And l r => conjuncts l ++ conjuncts r | _ => [c] end.

(** What a conjunct adds to the node of [m]. *)
Definition contribution (active : list Modality) (m : Modality) (c : VqlCondition)
    : list ConditionKind :=
  match c with
  | And _ _ => []
  | Or l r => [Predicate ("OR(" +:+ describe_condition l +:+ ", " +:+ describe_condition r +:+ ")")]
  | Not c => [Predicate ("NOT(" +:+ describe_condition c +:+ ")")]
  | Simple s =>
    match map_simple_condition s with
    | Ok (Some t, k) =>
      if decide (t ∈ active) then if decide (t = m) then [k] else []
      else [Predicate ("target_modality=" +:+ modality_display t +:+ ": " +:+ debug_condition k)]
    | Ok (None, k) => [k]
    | Err _ => []
    end
  end.

(** A conjunct about all modalities at once has no node to go to. *)
Definition unroutable (c : VqlCondition) : Prop :=
  match c with
  | Simple (ModalityDrift VAll _) | Simple (ModalityExists VAll) | Simple (ModalityNotExists VAll) => True
  | _ => False
  end.

Lemma map_simple_Err s e :
  map_simple_condition s = Err e → unroutable (Simple s) ∧
  e = InvalidConfig "All modality should be expanded before individual mapping".
Proof. destruct s as [| | | | |m ?|m|m|]; cbn; try done; destruct m; cbn; intros; by simplify_eq. Qed.

Lemma map_simple_Ok s x : map_simple_condition s = Ok x → ¬ unroutable (Simple s).
Proof. destruct s as [| | | | |m ?|m|m|]; cbn; try (by intros _ []); destruct m; cbn; by intros ? []. Qed.

Definition at_node (out : gmap Modality (list ConditionKind)) (m : Modality) : list ConditionKind :=
  default [] (out !! m).

Lemma at_push k m out n : at_node (push_at k m out) n = at_node out n ++ (if decide (m = n) then [k] else []).
Proof.
  unfold at_node, push_at. destruct (decide (m = n)) as [->|].
  - by rewrite lookup_insert_eq.
  - rewrite lookup_insert_ne by done. by rewrite app_nil_r.
Qed.

Lemma dom_push k m out : dom (push_at k m out) = {[m]} ∪ dom out.
Proof. apply dom_insert_L. Qed.

Lemma at_broadcast k active : ∀ out n, NoDup active →
  at_node (broadcast k active out) n = at_node out n ++ (if decide (n ∈ active) then [k] else []) ∧
  dom (broadcast k active out) = list_to_set active ∪ dom out.
Proof.
  induction active as [|m active IH]; intros out n; cbn [broadcast foldl].
  - intros _. rewrite decide_False by apply not_elem_of_nil. rewrite app_nil_r. split; [done|set_solver].
  - intros [Hm Hnd]%NoDup_cons. fold (broadcast k active (push_at k m out)).
    destruct (IH (push_at k m out) n Hnd) as [-> ->]. rewrite at_push, dom_push, <- app_assoc.
    split; [|set_solver]. f_equal. destruct (decide (m = n)) as [->|].
    + rewrite (decide_False _ (P := n ∈ active)), decide_True by (done || by left). done.
    + cbn. destruct (decide (n ∈ active)) as [Hn|Hn].
      * rewrite (decide_True _ _ (P := n ∈ m :: active)) by (by right). done.
      * rewrite (decide_False _ _ (P := n ∈ m :: active)); [done|]. by intros [->|?]%elem_of_cons.
Qed.

Lemma flatten_spec active c : ∀ out,
  NoDup active → dom out = list_to_set active →
  match flatten_conditions c active out with
  | Ok out' =>
    dom out' = list_to_set active ∧ Forall (λ c, ¬ unroutable c) (conjuncts c) ∧
    ∀ m, m ∈ active → at_node out' m = at_node out m ++ flat_map (contribution active m) (conjuncts c)
  | Err e =>
    Exists unroutable (conjuncts c) ∧
    e = InvalidConfig "All modality should be expanded before individual mapping"
  end.
Proof.
  induction c as [l IHl r IHr|l _ r _|c _|s]; intros out Hnd Hdom; cbn [flatten_conditions conjuncts].
  - specialize (IHl out Hnd Hdom). destruct (flatten_conditions l active out) as [out1|e]; cbn.
    + destruct IHl as (Hd1 & Hf1 & H1). specialize (IHr out1 Hnd Hd1).
      destruct (flatten_conditions r active out1) as [out2|e].
      * destruct IHr as (Hd2 & Hf2 & H2). split_and!; [done|by apply Forall_app|].
        intros m Hm. by rewrite H2, H1, flat_map_app, app_assoc.
      * split; [|by apply IHr]. apply Exists_app. right. by apply IHr.
    + split; [|by apply IHl]. apply Exists_app. left. by apply IHl.
  - split_and!; [|repeat constructor; by intros []|].
    + destruct (at_broadcast (Predicate ("OR(" +:+ describe_condition l +:+ ", "
        +:+ describe_condition r +:+ ")")) active out Graph Hnd) as [_ ->]. set_solver.
    + intros m Hm. cbn. rewrite (proj1 (at_broadcast _ active out m Hnd)). by rewrite decide_True.
  - split_and!; [|repeat constructor; by intros []|].
    + destruct (at_broadcast (Predicate ("NOT(" +:+ describe_condition c +:+ ")"))
        active out Graph Hnd) as [_ ->]. set_solver.
    + intros m Hm. cbn. rewrite (proj1 (at_broadcast _ active out m Hnd)). by rewrite decide_True.
  - destruct (map_simple_condition s) as [[[t|] k]|e] eqn:Hs; cbn [mbind result_bind].
    + assert (is_Some (out !! t) ↔ t ∈ active) as Ht.
      { by rewrite <- elem_of_dom, Hdom, elem_of_list_to_set. }
      pose proof (map_simple_Ok _ _ Hs) as Hr. cbn [flat_map contribution]. rewrite Hs.
      destruct (decide (is_Some (out !! t))) as [Hi|Hi].
      * rewrite dom_push. split_and!; [set_solver|by repeat constructor|].
        intros m Hm. rewrite at_push, app_nil_r.
        by rewrite (decide_True _ _ (P := t ∈ active)) by by apply Ht.
      * split_and!; [|by repeat constructor|].
        -- rewrite (proj2 (at_broadcast _ active out t Hnd)). set_solver.
        -- intros m Hm. rewrite (proj1 (at_broadcast _ active out m Hnd)), app_nil_r.
           rewrite (decide_True _ _ (P := m ∈ active)) by done.
           rewrite (decide_False _ _ (P := t ∈ active)); [done|]. by rewrite <- Ht.
    + pose proof (map_simple_Ok _ _ Hs) as Hr. split_and!; [|by repeat constructor|].
      * rewrite (proj2 (at_broadcast _ active out Graph Hnd)). set_solver.
      * intros m Hm. cbn. rewrite Hs, app_nil_r, (proj1 (at_broadcast _ active out m Hnd)).
        by rewrite decide_True.
    + apply map_simple_Err in Hs as [Hu ->]. split; [by left|done].
Qed.

(** ** The modalities and the projections *)

Definition requested (vms : list VqlModality) (m : Modality) : Prop :=
  VAll ∈ vms ∨ ∃ vm, vm ∈ vms ∧ planner_modality vm = Some m.

Lemma elem_of_ALL m : m ∈ ALL.
Proof. destruct m; set_solver. Qed.

Lemma requested_cons vm x vms m :
  planner_modality vm = Some x → requested (vm :: vms) m ↔ m = x ∨ requested vms m.
Proof.
  intros Hx. assert (VAll ≠ vm) by (by intros <-). unfold requested. setoid_rewrite elem_of_cons. split.
  - intros [[?|?]|(v & [->|Hv] & Hp)]; [done|right; by left|left; congruence|right; right; eauto].
  - intros [->|[?|(v & ? & ?)]]; [right; eauto|left; by right|right; eauto].
Qed.

Lemma expand_spec vms :
  ∃ ms, expand_modalities vms = Ok ms ∧ ∀ m, m ∈ ms ↔ requested vms m.
Proof.
  induction vms as [|vm vms (ms & Hms & Hin)]; cbn [expand_modalities].
  - exists []. split; [done|]. unfold requested. set_solver.
  - destruct vm; rewrite Hms; cbn; eexists; (split; [done|]); intros m.
    7: { split; [intros _; left; by left|]. intros _. change (m ∈ ALL ++ ms). apply elem_of_app. left.
         apply elem_of_ALL. }
    all: rewrite elem_of_cons, Hin; symmetry; by apply requested_cons.
Qed.

Lemma retain_unseen_spec ms : ∀ seen,
  NoDup (retain_unseen seen ms) ∧ ∀ m, m ∈ retain_unseen seen ms ↔ m ∈ ms ∧ m ∉ seen.
Proof.
  induction ms as [|x ms IH]; intros seen; cbn [retain_unseen]; [split; [constructor|set_solver]|].
  destruct (decide (x ∈ seen)) as [Hx|Hx].
  - destruct (IH seen) as [Hn Hin]. split; [done|]. intros m. rewrite Hin, elem_of_cons. naive_solver.
  - destruct (IH ({[x]} ∪ seen)) as [Hn Hin]. split.
    + constructor; [|done]. rewrite Hin. set_solver.
    + intros m. rewrite !elem_of_cons, Hin. destruct (decide (m = x)) as [->|]; set_solver.
Qed.

Lemma resolve_spec vms :
  ∃ ms, resolve_modalities vms = Ok ms ∧ NoDup ms ∧ ∀ m, m ∈ ms ↔ requested vms m.
Proof.
  unfold resolve_modalities. destruct (expand_spec vms) as (ms & -> & Hms). cbn.
  destruct (retain_unseen_spec ms ∅) as [Hn Hin]. eexists. split_and!; [done|done|].
  intros m. rewrite Hin, Hms. set_solver.
Qed.

(** What a projection adds to the node of [m]. *)
Definition projected (m : Modality) (p : VqlProjection) : option string :=
  let name := default (fr_field (vp_field p)) (vp_alias p) in
  match fr_modality (vp_field p) with
  | Some vm => if decide (planner_modality vm = Some m) then Some name else None
  | None => Some name
  end.

Definition listed (map : gmap Modality (list string)) (m : Modality) : list string := default [] (map !! m).

Lemma listed_insert map m n (l : list string) :
  listed (<[m := listed map m ++ l]> map) n = listed map n ++ (if decide (m = n) then l else []).
Proof.
  unfold listed. destruct (decide (m = n)) as [->|].
  - by rewrite lookup_insert_eq.
  - rewrite lookup_insert_ne by done. by rewrite app_nil_r.
Qed.

Lemma listed_push_all (l : list string) ms : ∀ map n, NoDup ms →
  listed (foldl (λ map m, <[m := listed map m ++ l]> map) map ms) n =
  listed map n ++ (if decide (n ∈ ms) then l else []).
Proof.
  induction ms as [|m ms IH]; intros map n; cbn [foldl].
  - intros _. rewrite decide_False by apply not_elem_of_nil. by rewrite app_nil_r.
  - intros [Hm Hnd]%NoDup_cons. rewrite IH, listed_insert, <- app_assoc by done. f_equal.
    destruct (decide (m = n)) as [->|Hne].
    + rewrite (decide_False _ _ (P := n ∈ ms)), (decide_True _ _ (P := n ∈ n :: ms)) by (done || by left).
      apply app_nil_r.
    + cbn. destruct (decide (n ∈ ms)) as [Hn|Hn].
      * rewrite (decide_True _ _ (P := n ∈ m :: ms)) by (by right). done.
      * rewrite (decide_False _ _ (P := n ∈ m :: ms)); [done|]. by intros [->|?]%elem_of_cons.
Qed.

Lemma projections_spec ms projs m :
  NoDup ms → m ∈ ms →
  listed (build_projection_map ms (Some projs)) m = omap (projected m) projs.
Proof.
  intros Hnd Hm. unfold build_projection_map. cbn [default from_option id].
  rewrite <- (app_nil_l (omap _ _)). change [] with (listed ∅ m) at 1. generalize (∅ : gmap Modality (list string)).
  induction projs as [|p projs IH]; intros map; cbn [foldl]; [by rewrite app_nil_r|].
  rewrite IH. cbn [omap list_omap]. unfold add_projection, projected at 2.
  destruct (fr_modality (vp_field p)) as [vm|].
  - destruct (planner_modality vm) as [t|]; [|done]. destruct (decide (t ∈ ms)) as [Ht|Ht].
    + change (default [] (map !! t)) with (listed map t). rewrite listed_insert.
      destruct (decide (t = m)) as [->|]; [rewrite decide_True by done; by rewrite <- app_assoc|].
      rewrite decide_False by congruence. by rewrite app_nil_r.
    + rewrite decide_False by congruence. done.
  - rewrite (listed_push_all [default (fr_field (vp_field p)) (vp_alias p)]) by done.
    rewrite decide_True by done. by rewrite <- app_assoc.
Qed.

Lemma at_proofs proofs m : ∀ out,
  at_node (add_proofs proofs out) m =
  at_node out m ++ (if decide (m = Semantic) then (λ p, ProofVerification (vs_contract_name p)) <$> proofs else []).
Proof.
  induction proofs as [|p proofs IH]; intros out; cbn [add_proofs foldl fmap list_fmap].
  - by destruct (decide _); rewrite app_nil_r.
  - fold (add_proofs proofs (push_at (ProofVerification (vs_contract_name p)) Semantic out)).
    rewrite IH, at_push, <- app_assoc. f_equal. destruct (decide (m = Semantic)) as [->|].
    + by rewrite decide_True.
    + by rewrite decide_False.
Qed.

Lemma at_empty_entries ms m : ∀ out : gmap Modality (list ConditionKind),
  at_node (foldl (λ out m, <[m := default [] (out !! m)]> out) out ms) m = at_node out m ∧
  dom (foldl (λ out m, <[m := default [] (out !! m)]> out) out ms) = list_to_set ms ∪ dom out.
Proof.
  induction ms as [|x ms IH]; intros out; cbn [foldl]; [split; [done|set_solver]|].
  destruct (IH (<[x := default [] (out !! x)]> out)) as [-> ->]. rewrite dom_insert_L. split; [|set_solver].
  unfold at_node. destruct (decide (x = m)) as [->|]; [by rewrite lookup_insert_eq|].
  by rewrite lookup_insert_ne.
Qed.

(** ** The plan *)

Definition conditions_of (q : VqlQuery) : list VqlCondition :=
  match vq_where q with Some c => conjuncts c | None => [] end.

(** The node the query asks of a modality. *)
Definition node_for (q : VqlQuery) (active : list Modality) (m : Modality) : PlanNode :=
  {| pn_modality := m;
     pn_conditions := flat_map (contribution active m) (conditions_of q) ++
       (if decide (m = Semantic) then
          (λ p, ProofVerification (vs_contract_name p)) <$> default [] (vq_proof q) else []);
     pn_projections := omap (projected m) (default [] (vq_projections q)); pn_early_limit := None |}.

Definition by_priority (a b : PlanNode) : Prop :=
  (execution_priority (pn_modality a) < execution_priority (pn_modality b))%Z.

Definition names_all_sources (src : VqlSource) : Prop :=
  match src with VStore VAll => True | _ => False end.

Lemma map_source_Err src e : map_source src = Err e → names_all_sources src ∧
  e = InvalidConfig "All modality should be expanded before individual mapping".
Proof. destruct src as [| |[]]; cbn; intros; by simplify_eq. Qed.

Lemma priority_inj m n : execution_priority m = execution_priority n → m = n.
Proof. by destruct m, n. Qed.

Lemma nodes_sorted (f : Modality → PlanNode) ms :
  (∀ m, pn_modality (f m) = m) → NoDup ms →
  StronglySorted by_priority (sort_by (λ a b, Z.compare (execution_priority (pn_modality a))
    (execution_priority (pn_modality b))) (f <$> ms)).
Proof.
  intros Hf Hnd. apply sort_by_sorted; [unfold by_priority; intros; lia|].
  intros l1 x l2 y Hl Hy.
  assert (pn_modality x ≠ pn_modality y) as Hne.
  { apply (f_equal (fmap pn_modality)) in Hl. rewrite <- list_fmap_compose in Hl.
    rewrite (list_fmap_ext _ id), list_fmap_id in Hl by (intros; apply Hf). subst ms.
    rewrite fmap_app in Hnd. apply NoDup_app in Hnd as (_ & _ & [Hx _]%NoDup_cons).
    intros He. apply Hx. rewrite He. by apply list_elem_of_fmap_2. }
  unfold by_priority. assert (execution_priority (pn_modality x) ≠ execution_priority (pn_modality y))
    by (by intros ?%priority_inj).
  destruct (Z.compare_spec (execution_priority (pn_modality x)) (execution_priority (pn_modality y)));
    split; intros; try done; lia.
Qed.

(** What the bridge makes of a query.  A query that requests no modality is an empty
    plan, and one that directs a condition or its source at all modalities at once is
    refused.  From any other the plan has one node for each requested modality, in order of
    priority; the node's conditions are, in the order of the WHERE clause, its conjuncts
    that concern the modality or no particular one (a conjunct about a modality the query
    does not request goes to every node as a predicate), followed on the semantic node by
    the proof obligations; and its projections are those that name the modality or none. *)
Theorem to_logical_plan_spec q :
  match to_logical_plan q with
  | Err e =>
    e = EmptyPlan ∧ vq_modalities q = [] ∨
    e = InvalidConfig "All modality should be expanded before individual mapping" ∧
      (names_all_sources (vq_source q) ∨ Exists unroutable (conditions_of q))
  | Ok plan =>
    vq_modalities q ≠ [] ∧ Forall (λ c, ¬ unroutable c) (conditions_of q) ∧
    map_source (vq_source q) = Ok (lp_source plan) ∧
    ∃ active, NoDup active ∧ (∀ m, m ∈ active ↔ requested (vq_modalities q) m) ∧
      lp_nodes plan ≡ₚ node_for q active <$> active ∧
      StronglySorted by_priority (lp_nodes plan)
  end.
Proof.
  unfold to_logical_plan.
  destruct (resolve_spec (vq_modalities q)) as (ms & -> & Hnd & Hms). cbn [mbind result_bind].
  destruct (decide (ms = [])) as [->|Hne].
  { left. split; [done|]. destruct (vq_modalities q) as [|vm vms]; [done|].
    destruct (decide (vm = VAll)) as [->|Hvm].
    - assert (Graph ∈ []) as []%elem_of_nil by (apply Hms; left; by left).
    - destruct (planner_modality vm) as [m|] eqn:Hm; [|by destruct vm].
      assert (m ∈ []) as []%elem_of_nil. apply Hms. right. exists vm. split; [by left|done]. }
  destruct (map_source (vq_source q)) as [source|e] eqn:Hsrc; cbn [mbind result_bind];
    [|apply map_source_Err in Hsrc as [? ->]; by eauto].
  set (out0 := foldl _ _ ms).
  assert (dom out0 = list_to_set ms) as Hd0.
  { unfold out0. rewrite (proj2 (at_empty_entries ms Graph ∅)), dom_empty_L. set_solver. }
  assert (∀ m, at_node out0 m = []) as H0 by (intros m; exact (proj1 (at_empty_entries ms m ∅))).
  assert (vq_modalities q ≠ []) as Hq.
  { intros Hq. destruct ms as [|m ms]; [done|].
    destruct (proj1 (Hms m)) as [H|(vm & H & _)]; [by left|..]; rewrite Hq in H; by apply elem_of_nil in H. }
  assert (match (match vq_where q with Some c => flatten_conditions c ms out0 | None => Ok out0 end) with
    | Ok out => Forall (λ c, ¬ unroutable c) (conditions_of q) ∧
        ∀ m, m ∈ ms → at_node out m = flat_map (contribution ms m) (conditions_of q)
    | Err e => Exists unroutable (conditions_of q) ∧
        e = InvalidConfig "All modality should be expanded before individual mapping" end) as Hflat.
  { unfold conditions_of. destruct (vq_where q) as [c|]; [|split; [constructor|intros; apply H0]].
    pose proof (flatten_spec ms c out0 Hnd Hd0) as H. destruct (flatten_conditions _ _ _) as [out|e]; [|done].
    destruct H as (_ & Hf & H). split; [done|]. intros m Hm. by rewrite H, H0. }
  destruct (match vq_where q with Some c => _ | None => _ end) as [out|e]; cbn [mbind result_bind];
    [|destruct Hflat as [? ->]; by eauto].
  destruct Hflat as [Hr Hat]. split_and!; [done..|]. exists ms. split_and!; [done..| |].
  - cbn [lp_nodes]. rewrite sort_by_perm. apply reflexive_eq, list_fmap_ext. intros i m Hm.
    apply list_elem_of_lookup_2 in Hm. unfold node_for. f_equal.
    + change (default [] (add_proofs _ out !! m)) with (at_node (add_proofs (default [] (vq_proof q)) out) m).
      by rewrite at_proofs, Hat.
    + destruct (vq_projections q) as [projs|]; [|reflexivity]. by apply projections_spec.
  - by apply (nodes_sorted (λ m, _)).
Qed.

(** Proof obligations can disappear: when a query does not request the semantic
    modality, its plan is the plan of the query without its PROOF clause.  So do HAVING, the
    threshold of a similarity search, and the operators: negated equality makes the plan of
    equality, and the comparisons below make the plan of those above. *)
Theorem plan_forgets q :
  (¬ requested (vq_modalities q) Semantic →
   to_logical_plan q = to_logical_plan
     {| vq_modalities := vq_modalities q; vq_source := vq_source q; vq_where := vq_where q;
        vq_projections := vq_projections q; vq_aggregates := vq_aggregates q;
        vq_group_by := vq_group_by q; vq_having := vq_having q; vq_proof := None;
        vq_order_by := vq_order_by q; vq_limit := vq_limit q; vq_offset := vq_offset q |}) ∧
  (∀ c, to_logical_plan q = to_logical_plan
     {| vq_modalities := vq_modalities q; vq_source := vq_source q; vq_where := vq_where q;
        vq_projections := vq_projections q; vq_aggregates := vq_aggregates q;
        vq_group_by := vq_group_by q; vq_having := c; vq_proof := vq_proof q;
        vq_order_by := vq_order_by q; vq_limit := vq_limit q; vq_offset := vq_offset q |}) ∧
  (∀ f v, map_simple_condition (FieldCondition f "!=" v) = map_simple_condition (FieldCondition f "=" v)) ∧
  (∀ f v, map_simple_condition (FieldCondition f "<" v) = map_simple_condition (FieldCondition f ">" v)) ∧
  (∀ e t t', map_simple_condition (VectorSimilar e t) = map_simple_condition (VectorSimilar e t')).
Proof.
  split_and!; [|done..]. intros Hno. unfold to_logical_plan. cbn [vq_modalities vq_source vq_where
    vq_projections vq_proof].
  destruct (resolve_spec (vq_modalities q)) as (ms & -> & _ & Hms). cbn [mbind result_bind].
  destruct (decide (ms = [])); [done|]. destruct (map_source (vq_source q)); [|done].
  cbn [mbind result_bind]. destruct (match vq_where q with Some c => _ | None => _ end) as [out|]; [|done].
  cbn [mbind result_bind]. do 3 f_equal. apply list_fmap_ext. intros i m Hm.
  apply list_elem_of_lookup_2, Hms in Hm. f_equal.
  change (at_node (add_proofs (default [] (vq_proof q)) out) m = at_node (add_proofs [] out) m).
  rewrite !at_proofs. destruct (decide (m = Semantic)) as [->|]; [done|by rewrite !app_nil_r].
Qed.

End bridge.
