(* ===== verification/PlanCache.v ===== *)
(** * Prepared statements

    Models [src/rust-core/verisim-planner/src/prepared.rs]: the fingerprint of a query, the
    cache with its bound and expiry, and the check of the parameters.  The statements and
    their index have a lock each and the counters are atomic; [prepare] looks under a read
    lock and comes back under write locks, so its parts are separate definitions that
    [PlanCacheSpec.v] interleaves with the other operations. *)

From S2P Require Import Prelude Floats Plan.
From Stdlib Require String Ascii.
Local Open Scope Z_scope.

(** ** Text *)

(** [char::is_alphanumeric] on an encoded character. *)
Class UnicodeChar := { is_alphanumeric : string → bool }.

Definition space : Ascii.ascii := Ascii.ascii_of_nat 32.

Definition is_continuation (a : Ascii.ascii) : bool :=
  (128 <=? Ascii.nat_of_ascii a)%nat && (Ascii.nat_of_ascii a <? 192)%nat.

Definition starts_continuation (s : string) : bool :=
  match s with String.EmptyString => false | String.String a _ => is_continuation a end.

(** The encoded characters of a UTF-8 string: a byte with its continuation bytes. *)
Fixpoint chars (s : string) : list string :=
  match s with
  | String.EmptyString => []
  | String.String a s =>
    match chars s with
    | c :: cs => if starts_continuation s then String.String a c :: cs
                 else String.String a "" :: c :: cs
    | [] => [String.String a ""]
    end
  end.

Definition keywords : list string :=
  ["SELECT"; "WHERE"; "FROM"; "SEARCH"; "LIMIT"; "ORDER"; "BY"; "GROUP"; "AND"; "OR"; "NOT";
   "JOIN"; "ON"; "AS"; "HAVING"; "INSERT"; "UPDATE"; "DELETE"; "SET"; "INTO"; "VALUES"; "WITH";
   "UNION"; "INTERSECT"; "EXCEPT"; "EXISTS"; "BETWEEN"; "LIKE"; "IN"; "IS"; "NULL"; "TRUE";
   "FALSE"; "ASC"; "DESC"; "DISTINCT"; "ALL"; "ANY"; "SOME"; "CASE"; "WHEN"; "THEN"; "ELSE";
   "END"; "PROOF"; "VERIFY"; "DRIFT"; "HEXAD"; "MODALITY"; "TYPE"; "GRAPH"; "VECTOR"; "TENSOR";
   "SEMANTIC"; "DOCUMENT"; "TEMPORAL"].

Section text.
Context {UC : Unicode} {UH : UnicodeChar} {SH : Sha256}.

Definition normal_token (token : string) : string :=
  if decide (str_uppercase token ∈ keywords) then str_lowercase token else token.

Definition normalize_query (query : string) : string :=
  let collapsed := String.concat " " (split_whitespace query) in
  String.concat " " (normal_token <$> split_on space collapsed).

Definition fingerprint (query : string) : string :=
  hex_string (sha256 (String.list_byte_of_string (normalize_query query))).

(** The end of a placeholder: a name of one character or more, seen for the first time. *)
Definition end_name (name : option string) (params : list string) : list string :=
  match name with
  | Some n => if (1 <? String.length n)%nat && bool_decide (n ∉ params) then params ++ [n] else params
  | None => params
  end.

(** The two loops of [extract_parameters]; [name] is the placeholder being read. *)
Fixpoint scan_params (name : option string) (params : list string) (cs : list string) : list string :=
  match cs with
  | [] => end_name name params
  | ch :: cs =>
    let start := if decide (ch = "$") then Some ch else None in
    match name with
    | Some n =>
      if is_alphanumeric ch || bool_decide (ch = "_") then scan_params (Some (n +:+ ch)) params cs
      else scan_params start (end_name name params) cs
    | None => scan_params start params cs
    end
  end.

Definition extract_parameters (query : string) : list string := scan_params None [] (chars query).

End text.

(** ** The cache *)

(** [now.signed_duration_since(created) > Duration::seconds(ttl)] of the chrono crate. *)
Class ChronoDuration `{Chrono} := { older_than : DateTime → DateTime → Z → bool }.

Section cache.
Context {CH : Chrono} {CD : ChronoDuration} {UC : Unicode} {UH : UnicodeChar} {SH : Sha256}
  {HI : HashIter string}.

Record PreparedStatement := {
  pr_id : string; pr_original_query : string; pr_parameter_names : list string;
  pr_logical_plan : LogicalPlan; pr_cached_physical_plan : option PhysicalPlan;
  pr_created_at : DateTime; pr_last_used : DateTime; pr_use_count : Z; pr_avg_execution_ms : f64;
}.

Record CacheConfig := {
  cfg_max_entries : nat; cfg_ttl_seconds : Z; cfg_enable_plan_cache : bool;
  cfg_enable_result_cache : bool; cfg_max_result_cache_bytes : Z;
}.

Definition CacheConfig_default : CacheConfig :=
  {| cfg_max_entries := 1024; cfg_ttl_seconds := 3600; cfg_enable_plan_cache := true;
     cfg_enable_result_cache := false; cfg_max_result_cache_bytes := 64 * 1024 * 1024 |}.

Inductive CacheError :=
| CacheNotFound (id : string)
| ParameterMismatch (expected provided : list string)
| Expired (id : string)
| CacheFull.

(** The counters. *)
Record Counters := { generation : Z; hit_count : Z; miss_count : Z; eviction_count : Z }.

Record PlanCache := {
  pc_config : CacheConfig;
  statements : gmap string PreparedStatement;
  fingerprints : gmap string string;
  counters : Counters;
}.

Definition PlanCache_new (config : CacheConfig) : PlanCache :=
  {| pc_config := config; statements := ∅; fingerprints := ∅;
     counters := {| generation := 0; hit_count := 0; miss_count := 0; eviction_count := 0 |} |}.

(** [fetch_add] of the counters. *)
Definition count (generations hits misses evictions : Z) (c : PlanCache) : PlanCache :=
  let k := counters c in
  {| pc_config := pc_config c; statements := statements c; fingerprints := fingerprints c;
     counters := {| generation := u64_add (generation k) generations;
                    hit_count := u64_add (hit_count k) hits;
                    miss_count := u64_add (miss_count k) misses;
                    eviction_count := u64_add (eviction_count k) evictions |} |}.

Definition set_statements (s : gmap string PreparedStatement) (c : PlanCache) : PlanCache :=
  {| pc_config := pc_config c; statements := s; fingerprints := fingerprints c;
     counters := counters c |}.

Definition set_maps (s : gmap string PreparedStatement) (f : gmap string string) (c : PlanCache)
    : PlanCache :=
  {| pc_config := pc_config c; statements := s; fingerprints := f; counters := counters c |}.

Definition is_expired (now : DateTime) (config : CacheConfig) (s : PreparedStatement) : bool :=
  older_than now (pr_created_at s) (cfg_ttl_seconds config).

(** [min_by_key]: the first of the statements used longest ago. *)
Definition older (s : gmap string PreparedStatement) (best : option (string * PreparedStatement))
    (id : string) : option (string * PreparedStatement) :=
  match s !! id, best with
  | None, _ => best
  | Some x, None => Some (id, x)
  | Some x, Some (_, b) =>
    if DateTime_leb (pr_last_used b) (pr_last_used x) then best else Some (id, x)
  end.

Definition oldest (s : gmap string PreparedStatement) : option (string * PreparedStatement) :=
  foldl (older s) None (hash_iter (dom s)).

(** Removing a statement and its fingerprint. *)
Definition forget (id : string) (s : PreparedStatement) (c : PlanCache) : PlanCache :=
  set_maps (delete id (statements c)) (delete (fingerprint (pr_original_query s)) (fingerprints c)) c.

Definition evict_lru_inner (c : PlanCache) : nat * PlanCache :=
  match oldest (statements c) with
  | Some (id, s) => (1%nat, count 1 0 0 1 (forget id s c))
  | None => (0%nat, c)
  end.

Definition touch (now : DateTime) (uses : Z) (s : PreparedStatement) : PreparedStatement :=
  {| pr_id := pr_id s; pr_original_query := pr_original_query s;
     pr_parameter_names := pr_parameter_names s; pr_logical_plan := pr_logical_plan s;
     pr_cached_physical_plan := pr_cached_physical_plan s; pr_created_at := pr_created_at s;
     pr_last_used := now; pr_use_count := u64_add (pr_use_count s) uses;
     pr_avg_execution_ms := pr_avg_execution_ms s |}.

(** The parts of [prepare]: the look under the read lock, the update of a statement that was
    there, and the insertion of one that was not. *)
Definition prepare_look (id : string) (c : PlanCache) : bool :=
  bool_decide (is_Some (statements c !! id)).

Definition prepare_touch (id : string) (now : DateTime) (c : PlanCache) : PlanCache :=
  count 1 0 0 0
    (match statements c !! id with
     | Some s => set_statements (<[id := touch now 0 s]> (statements c)) c
     | None => c
     end).

Definition new_statement (query : string) (plan : LogicalPlan) (now : DateTime) : PreparedStatement :=
  {| pr_id := fingerprint query; pr_original_query := query;
     pr_parameter_names := extract_parameters query; pr_logical_plan := plan;
     pr_cached_physical_plan := None; pr_created_at := now; pr_last_used := now; pr_use_count := 0;
     pr_avg_execution_ms := f64_of_Z 0 |}.

Definition prepare_insert (query : string) (plan : LogicalPlan) (now : DateTime) (c : PlanCache)
    : PlanCache :=
  let id := fingerprint query in
  let c := if (cfg_max_entries (pc_config c) <=? size (statements c))%nat then (evict_lru_inner c).2
           else c in
  count 1 0 0 0
    (set_maps (<[id := new_statement query plan now]> (statements c)) (<[id := id]> (fingerprints c)) c).

(** [prepare] by a caller alone. *)
Definition prepare (query : string) (plan : LogicalPlan) (now : DateTime) (c : PlanCache)
    : string * PlanCache :=
  let id := fingerprint query in
  if prepare_look id c then (id, prepare_touch id now c) else (id, prepare_insert query plan now c).

Definition cache_get (id : string) (now : DateTime) (c : PlanCache)
    : option PreparedStatement * PlanCache :=
  match statements c !! id with
  | Some s =>
    if is_expired now (pc_config c) s then (None, count 0 0 1 0 c) else (Some s, count 0 1 0 0 c)
  | None => (None, count 0 0 1 0 c)
  end.

(** [params.keys()], and the comparison of the sorted names. *)
Context {V : Type}.

Definition same_names (expected : list string) (params : gmap string V) : bool :=
  bool_decide (sort_by String.compare expected = sort_by String.compare (hash_iter (dom params))).

Definition execute_prepared (id : string) (params : gmap string V) (now : DateTime) (c : PlanCache)
    : result CacheError PreparedStatement * PlanCache :=
  match statements c !! id with
  | None => (Err (CacheNotFound id), c)
  | Some s =>
    if is_expired now (pc_config c) s then
      (Err (Expired id), set_statements (delete id (statements c)) c)
    else if negb (bool_decide (pr_parameter_names s = [])) && negb (same_names (pr_parameter_names s) params)
    then (Err (ParameterMismatch (pr_parameter_names s) (hash_iter (dom params))), c)
    else
      let s := touch now 1 s in
      (Ok s, count 1 1 0 0 (set_statements (<[id := s]> (statements c)) c))
  end.

Definition invalidate (id : string) (c : PlanCache) : bool * PlanCache :=
  match statements c !! id with
  | Some s => (true, count 1 0 0 1 (forget id s c))
  | None => (false, c)
  end.

Definition invalidate_all (c : PlanCache) : PlanCache :=
  count 1 0 0 (Z.of_nat (size (statements c))) (set_maps ∅ ∅ c).

Definition lookup_by_query (query : string) (c : PlanCache) : option string * PlanCache :=
  match fingerprints c !! fingerprint query with
  | Some id => (Some id, count 0 1 0 0 c)
  | None => (None, count 0 0 1 0 c)
  end.

Definition cache_plan (id : string) (plan : PhysicalPlan) (c : PlanCache) : PlanCache :=
  match statements c !! id with
  | Some s =>
    count 1 0 0 0 (set_statements (<[id :=
      {| pr_id := pr_id s; pr_original_query := pr_original_query s;
         pr_parameter_names := pr_parameter_names s; pr_logical_plan := pr_logical_plan s;
         pr_cached_physical_plan := Some plan; pr_created_at := pr_created_at s;
         pr_last_used := pr_last_used s; pr_use_count := pr_use_count s;
         pr_avg_execution_ms := pr_avg_execution_ms s |}]> (statements c)) c)
  | None => c
  end.

Definition expired_ids (now : DateTime) (c : PlanCache) : list string :=
  filter (λ id, match statements c !! id with
                | Some s => is_expired now (pc_config c) s
                | None => false
                end = true) (hash_iter (dom (statements c))).

Definition evict_expired (now : DateTime) (c : PlanCache) : nat * PlanCache :=
  let ids := expired_ids now c in
  let c := foldl (λ c id, match statements c !! id with Some s => forget id s c | None => c end) c ids in
  (length ids, count (if (0 <? length ids)%nat then 1 else 0) 0 0 (Z.of_nat (length ids)) c).

Definition evict_lru (c : PlanCache) : nat * PlanCache :=
  if (size (statements c) <=? cfg_max_entries (pc_config c))%nat then (0%nat, c) else evict_lru_inner c.

(** ** Statistics *)

Record CacheStats := {
  cs_total_entries : nat; cs_hit_count : Z; cs_miss_count : Z; cs_eviction_count : Z;
  cs_hit_ratio : f64; cs_generation : Z;
}.

Definition cache_stats (c : PlanCache) : CacheStats :=
  let k := counters c in
  let total := u64_add (hit_count k) (miss_count k) in
  {| cs_total_entries := 0; cs_hit_count := hit_count k; cs_miss_count := miss_count k;
     cs_eviction_count := eviction_count k;
     cs_hit_ratio := if 0 <? total then f64_div (f64_of_Z (hit_count k)) (f64_of_Z total) else f64_of_Z 0;
     cs_generation := generation k |}.

Definition stats_async (c : PlanCache) : CacheStats :=
  let s := cache_stats c in
  {| cs_total_entries := size (statements c); cs_hit_count := cs_hit_count s;
     cs_miss_count := cs_miss_count s; cs_eviction_count := cs_eviction_count s;
     cs_hit_ratio := cs_hit_ratio s; cs_generation := cs_generation s |}.

End cache.
