(* ===== verification/PlanCacheSpec.v ===== *)
(** * The plan cache under concurrent callers

    Its bound, its index, whom it evicts and what executing a statement checks; and when two
    queries share a statement. *)

From S2P Require Import Prelude Floats Plan PlanCache.
From Stdlib Require String Ascii.
From Stdlib Require Import Strings.Byte.

(** ** Sorted names *)

Definition string_le (s t : string) : Prop := String.compare s t ≠ Gt.

Lemma string_le_trans s t u : string_le s t → string_le t u → string_le s u.
Proof.
  unfold string_le. revert t u. induction s as [|a s IH]; intros [|b t] [|c u]; cbn; try done.
  unfold Ascii.compare.
  destruct (N.compare_spec (Ascii.N_of_ascii a) (Ascii.N_of_ascii b)) as [Hab|Hab|Hab],
    (N.compare_spec (Ascii.N_of_ascii b) (Ascii.N_of_ascii c)) as [Hbc|Hbc|Hbc],
    (N.compare_spec (Ascii.N_of_ascii a) (Ascii.N_of_ascii c)) as [Hac|Hac|Hac]; try done; try lia.
  apply IH.
Qed.

Lemma sort_names_unique (l k : list string) :
  sort_by String.compare l = sort_by String.compare k ↔ l ≡ₚ k.
Proof.
  assert (∀ l, StronglySorted string_le (sort_by String.compare l)) as Hs.
  { intros m. apply sort_by_sorted; [intros ??? _ _ _; apply string_le_trans|].
    intros _ x _ y _ _. unfold string_le. rewrite (String.compare_antisym y x).
    by destruct (String.compare x y). }
  split; intros H.
  - rewrite <- (sort_by_perm String.compare l), H. apply sort_by_perm.
  - apply (StronglySorted_unique_strong string_le); [|apply Hs|apply Hs|].
    + intros x y _ _ Hxy Hyx. unfold string_le in *. rewrite String.compare_antisym in Hyx.
      apply String.compare_eq_iff. by destruct (String.compare x y).
    + by rewrite !sort_by_perm.
Qed.

Section cache.
Context {CH : Chrono} {CD : ChronoDuration} {UC : Unicode} {UH : UnicodeChar} {SH : Sha256}
  {HI : HashIter string}.

(** A placeholder is listed once. *)
Lemma NoDup_end_name name params : NoDup params → NoDup (end_name name params).
Proof.
  intros Hn. destruct name as [n|]; [|done]. cbn. destruct (_ && _) eqn:H; [|done].
  apply andb_true_iff in H as [_ Hin%bool_decide_eq_true]. apply NoDup_app.
  split_and!; [done|set_solver|apply NoDup_singleton].
Qed.

Lemma NoDup_scan_params cs : ∀ name params, NoDup params → NoDup (scan_params name params cs).
Proof.
  induction cs as [|ch cs IH]; intros name params Hn; cbn [scan_params]; [by apply NoDup_end_name|].
  destruct name as [n|]; [|by apply IH]. destruct (_ || _); apply IH; [done|by apply NoDup_end_name].
Qed.

Lemma NoDup_parameters query : NoDup (extract_parameters query).
Proof. apply NoDup_scan_params. constructor. Qed.

Lemma same_names_spec {V} expected (params : gmap string V) :
  NoDup expected → same_names expected params = true ↔ list_to_set expected = dom params.
Proof.
  intros Hn. unfold same_names. rewrite bool_decide_eq_true, sort_names_unique, hash_iter_perm.
  split; intros H.
  - apply set_eq. intros x. rewrite elem_of_list_to_set, H. apply elem_of_elements.
  - rewrite <- H. symmetry. by apply elements_list_to_set.
Qed.

(** ** Concurrent callers *)

(** A critical section of some caller; a caller of [prepare] may come back to a cache that
    has changed since it looked, so its updates are possible at any time. *)
Inductive step : PlanCache → PlanCache → Prop :=
| step_touch id now c : step c (prepare_touch id now c)
| step_insert query plan now c : step c (prepare_insert query plan now c)
| step_get id now c : step c (cache_get id now c).2
| step_execute V id (params : gmap string V) now c : step c (execute_prepared id params now c).2
| step_invalidate id c : step c (invalidate id c).2
| step_invalidate_all c : step c (invalidate_all c)
| step_lookup query c : step c (lookup_by_query query c).2
| step_cache_plan id plan c : step c (cache_plan id plan c)
| step_evict_expired now c : step c (evict_expired now c).2
| step_evict_lru c : step c (evict_lru c).2.

Definition reachable (config : CacheConfig) (c : PlanCache) : Prop := rtc step (PlanCache_new config) c.

(** A statement is filed under the fingerprint of its query, and indexed. *)
Definition filed (c : PlanCache) (id : string) (s : PreparedStatement) : Prop :=
  pr_id s = id ∧ fingerprint (pr_original_query s) = id ∧
  pr_parameter_names s = extract_parameters (pr_original_query s) ∧ fingerprints c !! id = Some id.

Record cache_inv (config : CacheConfig) (c : PlanCache) : Prop := {
  ci_config : pc_config c = config;
  ci_filed : map_Forall (filed c) (statements c);
  ci_index : map_Forall (λ fp id, id = fp) (fingerprints c);
  ci_bound : (size (statements c) ≤ Nat.max 1 (cfg_max_entries config))%nat;
}.

Lemma inv_count config g h m e c : cache_inv config c → cache_inv config (count g h m e c).
Proof. by intros [? ? ? ?]. Qed.

Lemma inv_update config id s s' c :
  statements c !! id = Some s → pr_id s' = pr_id s → pr_original_query s' = pr_original_query s →
  pr_parameter_names s' = pr_parameter_names s →
  cache_inv config c → cache_inv config (set_statements (<[id := s']> (statements c)) c).
Proof.
  intros Hs Hid Hq Hp [Hc Hf Hi Hb]. split; [done| |done|].
  - cbn. intros i t Hit. destruct (decide (i = id)) as [->|Hne].
    + rewrite lookup_insert_eq in Hit. simplify_eq. destruct (Hf _ _ Hs) as (? & ? & ? & ?).
      unfold filed in *. by rewrite Hid, Hq, Hp.
    + rewrite lookup_insert_ne in Hit by done. by apply (Hf _ _ Hit).
  - cbn. by rewrite map_size_insert_Some.
Qed.

Lemma inv_forget config id s c :
  statements c !! id = Some s → cache_inv config c → cache_inv config (forget id s c).
Proof.
  intros Hs [Hc Hf Hi Hb]. destruct (Hf _ _ Hs) as (_ & Hfp & _). split; [done| | |].
  - cbn. intros i t Hit. apply lookup_delete_Some in Hit as [Hne Hit].
    destruct (Hf _ _ Hit) as (? & ? & ? & ?). unfold filed. cbn. rewrite Hfp.
    by rewrite lookup_delete_ne.
  - cbn. intros fp i Hfi. apply lookup_delete_Some in Hfi as [_ Hfi]. by apply Hi.
  - cbn [statements forget set_maps]. rewrite map_size_delete, Hs. lia.
Qed.

Lemma cache_remove_inv config id c :
  cache_inv config c → cache_inv config (set_statements (delete id (statements c)) c).
Proof.
  intros [Hc Hf Hi Hb]. split; [done| |done|].
  - cbn. intros i t Hit. apply lookup_delete_Some in Hit as [_ Hit]. by apply (Hf _ _ Hit).
  - cbn [statements set_statements]. rewrite map_size_delete. destruct (statements c !! id); cbn; lia.
Qed.

Lemma older_Some s l best : 
  match foldl (older s) best l with
  | Some (id, x) => s !! id = Some x ∨ best = Some (id, x)
  | None => best = None ∧ ∀ id, id ∈ l → s !! id = None
  end.
Proof.
  revert best. induction l as [|i l IH]; intros best; cbn.
  - destruct best as [[id x]|]; [by right|]. split; [done|]. by intros ? []%elem_of_nil.
  - specialize (IH (older s best i)). destruct (foldl _ _ l) as [[id x]|].
    + destruct IH as [?|H]; [by left|]. unfold older in H. repeat case_match; simplify_eq; auto.
    + destruct IH as [H Hl]. unfold older in H.
      destruct (s !! i) eqn:Hsi; [destruct best as [[??]|]; [by case_match|done]|].
      split; [done|]. intros id [->|?]%elem_of_cons; [done|by apply Hl].
Qed.

Lemma oldest_Some s id x : oldest s = Some (id, x) → s !! id = Some x.
Proof.
  unfold oldest. intros H. pose proof (older_Some s (hash_iter (dom s)) None) as Ho.
  rewrite H in Ho. by destruct Ho.
Qed.

Lemma oldest_None s : oldest s = None → s = ∅.
Proof.
  unfold oldest. intros H. pose proof (older_Some s (hash_iter (dom s)) None) as Ho.
  rewrite H in Ho. destruct Ho as [_ Ho]. apply map_empty. intros i.
  destruct (s !! i) as [x|] eqn:Hi; [|done]. rewrite <- Hi. apply Ho.
  apply elem_of_hash_iter, elem_of_dom. by eexists.
Qed.

Lemma evict_size c :
  size (statements (evict_lru_inner c).2) = (size (statements c) - 1)%nat.
Proof.
  unfold evict_lru_inner. destruct (oldest _) as [[id s]|] eqn:Ho.
  - apply oldest_Some in Ho. cbn [snd statements count forget set_maps].
    rewrite map_size_delete, Ho. lia.
  - apply oldest_None in Ho. cbn [snd]. by rewrite Ho, map_size_empty.
Qed.

Lemma inv_evict config c : cache_inv config c → cache_inv config (evict_lru_inner c).2.
Proof.
  intros Hinv. unfold evict_lru_inner. destruct (oldest _) as [[id s]|] eqn:Ho; [|done].
  apply inv_count, inv_forget; [|done]. by apply oldest_Some.
Qed.

Lemma inv_insert config query plan now c :
  cache_inv config c → cache_inv config (prepare_insert query plan now c).
Proof.
  intros Hinv. unfold prepare_insert. apply inv_count.
  set (c' := if (cfg_max_entries (pc_config c) <=? size (statements c))%nat
             then (evict_lru_inner c).2 else c). assert (cache_inv config c') as [Hc Hf Hi Hb].
  { unfold c'. case_match; [by apply inv_evict|done]. }
  assert (S (size (statements c')) ≤ Nat.max 1 (cfg_max_entries config))%nat as Hroom.
  { unfold c'. destruct Hinv as [Hcfg _ _ Hbd]. rewrite Hcfg.
    destruct (cfg_max_entries config <=? size (statements c))%nat eqn:Hle.
    - rewrite evict_size. apply Nat.leb_le in Hle. lia.
    - apply Nat.leb_gt in Hle. lia. }
  clearbody c'. split; [done| | |].
  - cbn. intros i t Hit. destruct (decide (i = fingerprint query)) as [->|Hne].
    + rewrite lookup_insert_eq in Hit. simplify_eq. split_and!; [done..|]. cbn. apply lookup_insert_eq.
    + rewrite lookup_insert_ne in Hit by done. destruct (Hf _ _ Hit) as (? & ? & ? & ?).
      split_and!; [done..|]. cbn. by rewrite lookup_insert_ne.
  - cbn. intros fp i Hfi. apply lookup_insert_Some in Hfi as [[<- <-]|[_ Hfi]]; [done|by apply Hi].
  - cbn [statements count set_maps]. rewrite map_size_insert. destruct (statements c' !! _); cbn; lia.
Qed.

Lemma inv_evict_expired config now c :
  cache_inv config c → cache_inv config (evict_expired now c).2.
Proof.
  intros Hinv. unfold evict_expired. cbn. apply inv_count. generalize (expired_ids now c). intros ids.
  revert c Hinv. induction ids as [|id ids IH]; intros c Hinv; [done|]. cbn. apply IH.
  case_match; [by apply inv_forget|done].
Qed.

Lemma cache_step_inv config c c' : step c c' → cache_inv config c → cache_inv config c'.
Proof.
  intros [] Hinv.
  - apply inv_count. case_match; [by eapply inv_update|done].
  - by apply inv_insert.
  - unfold cache_get. repeat case_match; by apply inv_count.
  - unfold execute_prepared. repeat case_match; try done; [by apply cache_remove_inv|].
    apply inv_count. by eapply inv_update.
  - unfold invalidate. case_match; [by apply inv_count, inv_forget|done].
  - apply inv_count. destruct Hinv as [Hc _ _ _]. split; [done|done|done|]. cbn. rewrite map_size_empty. lia.
  - unfold lookup_by_query. case_match; by apply inv_count.
  - unfold cache_plan. case_match; [|done]. apply inv_count. by eapply inv_update.
  - by apply inv_evict_expired.
  - unfold evict_lru. case_match; [done|by apply inv_evict].
Qed.

Lemma cache_reachable_inv config c : reachable config c → cache_inv config c.
Proof.
  intros H. assert (cache_inv config (PlanCache_new config)) as Hinv.
  { split; [done|done|done|]. cbn. rewrite map_size_empty. lia. }
  induction H as [|c c1 c2 Hs _ IH]; [done|]. by eapply IH, cache_step_inv.
Qed.

(** However the critical sections of concurrent callers interleave, the cache holds at
    most [max_entries] statements (one, when that is 0), every statement is filed under the
    fingerprint of its own query, with the parameters of that query, and the index finds it;
    looking a query up can only give the query's own fingerprint. *)
Theorem plan_cache_invariant config c :
  reachable config c →
  (size (statements c) ≤ Nat.max 1 (cfg_max_entries config))%nat ∧
  (∀ id s, statements c !! id = Some s →
     pr_id s = id ∧ id = fingerprint (pr_original_query s) ∧
     pr_parameter_names s = extract_parameters (pr_original_query s) ∧
     (lookup_by_query (pr_original_query s) c).1 = Some id) ∧
  (∀ query id, (lookup_by_query query c).1 = Some id → id = fingerprint query).
Proof.
  intros [Hc Hf Hi Hb]%cache_reachable_inv. split_and!; [done| |].
  - intros id s (H1 & H2 & H3 & H4)%Hf. split_and!; [done..|]. unfold lookup_by_query.
    by rewrite H2, H4.
  - intros query id. unfold lookup_by_query. destruct (fingerprints c !! _) as [i|] eqn:H; [|done].
    intros [= <-]. by apply Hi.
Qed.

(** ** Eviction *)

Lemma oldest_least {CL : ChronoLaws CH} s id x :
  oldest s = Some (id, x) →
  ∀ id' x', s !! id' = Some x' → DateTime_leb (pr_last_used x) (pr_last_used x') = true.
Proof.
  unfold oldest. assert (∀ l best id x, foldl (older s) best l = Some (id, x) →
    (∀ i y, best = Some (i, y) → DateTime_leb (pr_last_used x) (pr_last_used y) = true) ∧
    ∀ i y, i ∈ l → s !! i = Some y → DateTime_leb (pr_last_used x) (pr_last_used y) = true) as Hl.
  { clear id x. induction l as [|i l IH]; intros best id x; cbn.
    - intros ->. split; [|by intros ?? []%elem_of_nil]. intros i y [= <- <-].
      by destruct (DateTime_leb_total (pr_last_used x) (pr_last_used x)).
    - intros H. destruct (IH _ _ _ H) as [Hbest Hrest]. clear IH H. unfold older in Hbest.
      destruct (s !! i) as [y|] eqn:Hy.
      + destruct best as [[bi b]|].
        * destruct (DateTime_leb (pr_last_used b) (pr_last_used y)) eqn:Hle.
          -- assert (DateTime_leb (pr_last_used x) (pr_last_used b) = true) as Hxb by by eapply Hbest.
             split; [by intros ?? [= <- <-]|]. intros j z [->|Hj]%elem_of_cons Hz; [|by eapply Hrest].
             simplify_eq. by eapply DateTime_leb_trans.
          -- assert (DateTime_leb (pr_last_used x) (pr_last_used y) = true) as Hxy by by eapply Hbest.
             split.
             ++ intros ?? [= <- <-]. eapply DateTime_leb_trans; [exact Hxy|].
                destruct (DateTime_leb_total (pr_last_used b) (pr_last_used y)); congruence.
             ++ intros j z [->|Hj]%elem_of_cons Hz; [by simplify_eq|by eapply Hrest].
        * split; [done|]. intros j z [->|Hj]%elem_of_cons Hz; [|by eapply Hrest].
          simplify_eq. by eapply Hbest.
      + split; [done|]. intros j z [->|Hj]%elem_of_cons Hz; [congruence|by eapply Hrest]. }
  intros H id' x' Hx. eapply (proj2 (Hl _ _ _ _ H)); [|exact Hx].
  apply elem_of_hash_iter, elem_of_dom. by eexists.
Qed.

(** Inserting a statement into a cache with room adds it and touches no other.  Into a
    full one it evicts exactly one statement, one that was used no later than any other, with
    its entry in the index, and keeps the rest. *)
Theorem insert_evicts_lru {CL : ChronoLaws CH} config c query plan now :
  reachable config c →
  let id := fingerprint query in
  let c' := prepare_insert query plan now c in
  let added := <[id := new_statement query plan now]> in
  if (size (statements c) <? cfg_max_entries config)%nat || bool_decide (statements c = ∅) then
    statements c' = added (statements c) ∧ fingerprints c' = <[id := id]> (fingerprints c)
  else
    ∃ old s, statements c !! old = Some s ∧
      (∀ i t, statements c !! i = Some t → DateTime_leb (pr_last_used s) (pr_last_used t) = true) ∧
      statements c' = added (delete old (statements c)) ∧
      fingerprints c' = <[id := id]> (delete old (fingerprints c)).
Proof.
  intros Hinv%cache_reachable_inv. cbv zeta. unfold prepare_insert.
  rewrite (ci_config _ _ Hinv).
  destruct (_ <? _)%nat eqn:Hlt; [apply Nat.ltb_lt in Hlt|apply Nat.ltb_ge in Hlt].
  - rewrite (proj2 (Nat.leb_gt _ _)) by done. done.
  - rewrite (proj2 (Nat.leb_le _ _)) by done. unfold evict_lru_inner.
    destruct (oldest (statements c)) as [[old s]|] eqn:Ho.
    + pose proof (oldest_Some _ _ _ Ho) as Hs. rewrite bool_decide_false; cbn [orb].
      * exists old, s. split_and!; [done|by eapply oldest_least|done|].
        cbn. destruct (ci_filed _ _ Hinv _ _ Hs) as (_ & -> & _). done.
      * intros He. by rewrite He, lookup_empty in Hs.
    + apply oldest_None in Ho. by rewrite bool_decide_true.
Qed.

(** ** Executing *)

(** Executing a prepared statement, in any reachable cache.  It succeeds just when the
    statement is there, has not expired, and has no placeholders or is given a value for each
    of them and for nothing else; it then counts the use.  A mismatch changes nothing, and an
    expired statement is removed. *)
Theorem execute_outcome {V} config c id (params : gmap string V) now :
  reachable config c →
  let '(o, c') := execute_prepared id params now c in
  match o with
  | Ok s' => ∃ s, statements c !! id = Some s ∧ is_expired now config s = false ∧
      (pr_parameter_names s = [] ∨ dom params = list_to_set (pr_parameter_names s)) ∧
      s' = touch now 1 s ∧ statements c' = <[id := s']> (statements c)
  | Err (CacheNotFound i) => i = id ∧ statements c !! id = None ∧ c' = c
  | Err (Expired i) => i = id ∧ (∃ s, statements c !! id = Some s ∧ is_expired now config s = true) ∧
      statements c' = delete id (statements c)
  | Err (ParameterMismatch expected provided) => c' = c ∧ provided ≡ₚ elements (dom params) ∧
      ∃ s, statements c !! id = Some s ∧ expected = pr_parameter_names s ∧
        dom params ≠ list_to_set expected
  | Err CacheFull => False
  end.
Proof.
  intros Hinv%cache_reachable_inv. unfold execute_prepared.
  destruct (statements c !! id) as [s|] eqn:Hs; [|done]. rewrite (ci_config _ _ Hinv).
  destruct (ci_filed _ _ Hinv _ _ Hs) as (_ & _ & Hnames & _).
  assert (NoDup (pr_parameter_names s)) as Hnd by (rewrite Hnames; apply NoDup_parameters).
  destruct (is_expired now config s) eqn:He; [by eauto|].
  pose proof (same_names_spec _ params Hnd) as Hsame.
  destruct (bool_decide (pr_parameter_names s = [])) eqn:Hb; cbn [negb andb].
  - apply bool_decide_eq_true in Hb. exists s. by auto.
  - destruct (same_names _ _); cbn [negb].
    + exists s. split_and!; try done. right. symmetry. by apply Hsame.
    + split_and!; [done|apply hash_iter_perm|]. exists s. split_and!; [done..|]. intros Hd.
      assert (false = true) by by apply Hsame. done.
Qed.

(** Preparing a query whose statement has expired does not renew it: the caller gets the
    identifier of a statement that [get] does not return and executing removes. *)
Theorem expired_prepare_useless {V} query plan now c s (params : gmap string V) :
  statements c !! fingerprint query = Some s → is_expired now (pc_config c) s = true →
  let '(id, c') := prepare query plan now c in
  (cache_get id now c').1 = None ∧ (execute_prepared id params now c').1 = Err (Expired id).
Proof.
  intros Hs He. unfold prepare, prepare_look. rewrite bool_decide_true by by eexists.
  unfold prepare_touch, cache_get, execute_prepared. rewrite Hs. cbn. rewrite lookup_insert_eq.
  unfold is_expired in *. cbn. by rewrite He.
Qed.

End cache.

(** ** When two queries share a prepared statement

    The fingerprint of a query determines its tokens, keywords in any case, or a collision
    of SHA-256 is at hand. *)

(** ** Joining and splitting *)

Definition spaceless (s : string) : Prop := space ∉ String.list_ascii_of_string s.

Lemma split_spaceless s : spaceless s → split_on space s = [s].
Proof.
  unfold spaceless. induction s as [|a s IH]; [done|]. cbn.
  intros [Ha Hs]%not_elem_of_cons. rewrite decide_False by congruence. by rewrite IH.
Qed.

Lemma split_app s t : spaceless s → split_on space (s +:+ " " +:+ t) = s :: split_on space t.
Proof.
  unfold spaceless. induction s as [|a s IH]; intros H; [done|].
  cbn [String.list_ascii_of_string] in H. apply not_elem_of_cons in H as [Ha Hs].
  change (split_on space (String.String a s +:+ " " +:+ t)) with
    (if decide (a = space) then "" :: split_on space (s +:+ " " +:+ t)
     else match split_on space (s +:+ " " +:+ t) with
          | [] => [String.String a ""] | piece :: pieces => String.String a piece :: pieces end).
  rewrite decide_False by congruence. by rewrite IH.
Qed.

Lemma split_concat l : l ≠ [] → Forall spaceless l → split_on space (String.concat " " l) = l.
Proof.
  intros Hne Hl. induction Hl as [|s l Hs Hl IH]; [done|]. destruct l as [|t l]; [by apply split_spaceless|].
  change (String.concat " " (s :: t :: l)) with (s +:+ " " +:+ String.concat " " (t :: l)).
  rewrite split_app by done. by rewrite IH.
Qed.

(** ** Fingerprints *)

Section text.
Context {UC : Unicode} {SH : Sha256}.

(** What the standard library documents: the pieces between whitespace are not empty and have
    none (a space is whitespace), and changing the case of a text neither empties it nor
    brings in a space. *)
Class UnicodeLaws := {
  whitespace_pieces : ∀ s t, t ∈ split_whitespace s → t ≠ "" ∧ spaceless t;
  lowercase_pieces : ∀ t, spaceless t → spaceless (str_lowercase t);
  lowercase_nonempty : ∀ t, str_lowercase t = "" → t = "";
  uppercase_empty : str_uppercase "" = "";
}.

Context {UL : UnicodeLaws}.

(** The tokens of a query, those that are a keyword in some case in lower case. *)
Definition tokens (query : string) : list string :=
  (λ t, if decide (str_uppercase t ∈ keywords) then str_lowercase t else t) <$> split_whitespace query.

Lemma tokens_normal query : tokens query = normal_token <$> split_whitespace query.
Proof. done. Qed.

Lemma normal_spaceless t : spaceless t → spaceless (normal_token t).
Proof. unfold normal_token. case_decide; [apply lowercase_pieces|done]. Qed.

Lemma normal_empty : normal_token "" = "".
Proof.
  unfold normal_token. rewrite uppercase_empty. rewrite decide_False; [done|].
  apply (bool_decide_unpack _). vm_compute. exact I.
Qed.

Lemma normal_nonempty t : t ≠ "" → normal_token t ≠ "".
Proof. unfold normal_token. case_decide; [|done]. by intros Ht ?%lowercase_nonempty. Qed.

Lemma tokens_spaceless query : Forall (λ t, t ≠ "" ∧ spaceless t) (tokens query).
Proof.
  rewrite tokens_normal. apply Forall_fmap, Forall_forall. intros t [Hne Hs]%whitespace_pieces.
  split; [by apply normal_nonempty|by apply normal_spaceless].
Qed.

Lemma normalize_tokens query : normalize_query query = String.concat " " (tokens query).
Proof.
  rewrite tokens_normal. unfold normalize_query. destruct (split_whitespace query) as [|t l] eqn:Hw.
  - cbn. by rewrite normal_empty.
  - rewrite split_concat; [done|done|]. rewrite <- Hw. apply Forall_forall.
    intros s Hs. by apply (whitespace_pieces query).
Qed.

Lemma concat_inj l k :
  Forall (λ t, t ≠ "" ∧ spaceless t) l → Forall (λ t, t ≠ "" ∧ spaceless t) k →
  String.concat " " l = String.concat " " k → l = k.
Proof.
  intros Hl Hk H. assert (∀ l, Forall (λ t, t ≠ "" ∧ spaceless t) l → l ≠ [] →
    split_on space (String.concat " " l) = l) as Hsplit.
  { intros m Hm Hne. apply split_concat; [done|]. eapply Forall_impl; [exact Hm|]. by intros ? []. }
  assert (∀ k, Forall (λ t, t ≠ "" ∧ spaceless t) k → k ≠ [] → String.concat " " k ≠ "") as Hne.
  { intros m Hm Hne He. pose proof (Hsplit m Hm Hne) as Hm'. rewrite He in Hm'. cbn in Hm'. subst m.
    apply Forall_cons in Hm as [[[] _] _]. done. }
  destruct (decide (l = [])) as [->|Hln], (decide (k = [])) as [->|Hkn]; [done| | |].
  - by destruct (Hne k Hk Hkn).
  - by destruct (Hne l Hl Hln).
  - by rewrite <- (Hsplit l Hl Hln), H, Hsplit.
Qed.

(** The fingerprint identifies a query up to its layout: queries with the same tokens
    (keywords in any case) have the same fingerprint, and queries with the same fingerprint
    have the same tokens, unless SHA-256 collides.  A text between quotes is no token of its
    own: white space and keywords inside it count like any other. *)
Theorem fingerprint_exact q1 q2 :
  (tokens q1 = tokens q2 → fingerprint q1 = fingerprint q2) ∧
  (fingerprint q1 = fingerprint q2 → tokens q1 = tokens q2 ∨ sha256_collision).
Proof.
  unfold fingerprint. rewrite !normalize_tokens. split; [by intros ->|].
  intros H%hex_string_inj. destruct (decide (tokens q1 = tokens q2)) as [?|Hne]; [by left|]. right.
  eexists _, _. split; [|apply vec_to_list_inj2, H].
  intros Hl. apply Hne, concat_inj; [apply tokens_spaceless..|].
  apply (f_equal String.string_of_list_byte) in Hl. by rewrite !String.string_of_list_byte_of_string in Hl.
Qed.

End text.
