(* ===== verification/Drift.v ===== *)
(** * Drift detection

    Models [src/rust-core/verisim-drift/src/lib.rs]: the scores kept for each kind of drift,
    the thresholds, and the detector that turns a score into an event.  The calls to the
    [prometheus] crate are recorded as they are made; the channel that carries the events is
    [tokio]'s.  [record] works in separate critical sections, which are separate
    definitions. *)

From S2P Require Import Prelude Floats.
From Stdlib Require Import SpecFloat.
Local Open Scope Z_scope.

(** ** Kinds of drift and their events *)

Inductive DriftType :=
| SemanticVectorDrift | GraphDocumentDrift | TemporalConsistencyDrift | TensorDrift
| SchemaDrift | ProvenanceDrift | SpatialDrift | QualityDrift.

#[export] Instance DriftType_eq_dec : EqDecision DriftType.
Proof. solve_decision. Defined.

(** The array [new] goes through. *)
Definition drift_types : list DriftType :=
  [SemanticVectorDrift; GraphDocumentDrift; TemporalConsistencyDrift; TensorDrift; SchemaDrift;
   ProvenanceDrift; SpatialDrift; QualityDrift].

Definition drift_type_index (t : DriftType) : nat :=
  match t with
  | SemanticVectorDrift => 0 | GraphDocumentDrift => 1 | TemporalConsistencyDrift => 2
  | TensorDrift => 3 | SchemaDrift => 4 | ProvenanceDrift => 5 | SpatialDrift => 6
  | QualityDrift => 7
  end.

#[export] Instance DriftType_countable : Countable DriftType.
Proof.
  apply (inj_countable drift_type_index (λ n, drift_types !! n)). by intros [].
Defined.

Definition drift_type_display (t : DriftType) : string :=
  match t with
  | SemanticVectorDrift => "semantic_vector_drift"
  | GraphDocumentDrift => "graph_document_drift"
  | TemporalConsistencyDrift => "temporal_consistency_drift"
  | TensorDrift => "tensor_drift"
  | SchemaDrift => "schema_drift"
  | ProvenanceDrift => "provenance_drift"
  | SpatialDrift => "spatial_drift"
  | QualityDrift => "quality_drift"
  end.

Inductive DriftError :=
| MetricNotFound (e : string)
| InvalidThreshold (e : string)
| ChannelError (e : string)
| LockPoisoned.

Inductive DriftSeverity := Info | Warning | Critical | Emergency.

Section drift.
Context {CH : Chrono} {FD : FixedDisplay}.

Record DriftEvent := {
  de_drift_type : DriftType; de_severity : DriftSeverity; de_affected_entities : list string;
  de_score : f64; de_detected_at : DateTime; de_description : string;
  de_remediation : option string;
}.

Definition severity_of (score : f64) : DriftSeverity :=
  if f64_ltb (f64_literal 9 1) score then Emergency
  else if f64_ltb (f64_literal 7 1) score then Critical
  else if f64_ltb (f64_literal 5 1) score then Warning
  else Info.

Definition DriftEvent_new (now : DateTime) (drift_type : DriftType) (score : f64)
    (description : string) : DriftEvent :=
  {| de_drift_type := drift_type; de_severity := severity_of score; de_affected_entities := [];
     de_score := score; de_detected_at := now; de_description := description;
     de_remediation := None |}.

Definition with_entities (entities : list string) (e : DriftEvent) : DriftEvent :=
  {| de_drift_type := de_drift_type e; de_severity := de_severity e;
     de_affected_entities := entities; de_score := de_score e;
     de_detected_at := de_detected_at e; de_description := de_description e;
     de_remediation := de_remediation e |}.

Definition with_remediation (remediation : string) (e : DriftEvent) : DriftEvent :=
  {| de_drift_type := de_drift_type e; de_severity := de_severity e;
     de_affected_entities := de_affected_entities e; de_score := de_score e;
     de_detected_at := de_detected_at e; de_description := de_description e;
     de_remediation := Some remediation |}.

(** ** Thresholds *)

Inductive ThresholdPolicy :=
| Fixed (v : f64)
| Adaptive (base sensitivity : f64).

Definition policy_threshold (policy : ThresholdPolicy) (moving_average : f64) : f64 :=
  match policy with
  | Fixed v => v
  | Adaptive base sensitivity => f64_add base (f64_mul moving_average sensitivity)
  end.

Record DriftThresholds := {
  th_semantic_vector : f64; th_graph_document : f64; th_temporal_consistency : f64;
  th_tensor : f64; th_schema : f64; th_provenance : f64; th_spatial : f64; th_quality : f64;
  th_adaptive_policies : gmap DriftType ThresholdPolicy;
}.

Definition DriftThresholds_default : DriftThresholds :=
  {| th_semantic_vector := f64_literal 3 1; th_graph_document := f64_literal 4 1;
     th_temporal_consistency := f64_literal 2 1; th_tensor := f64_literal 35 2;
     th_schema := f64_literal 1 1; th_provenance := f64_literal 1 1;
     th_spatial := f64_literal 3 1; th_quality := f64_literal 25 2;
     th_adaptive_policies := ∅ |}.

Definition effective_threshold (th : DriftThresholds) (drift_type : DriftType)
    (moving_average : f64) : f64 :=
  match th_adaptive_policies th !! drift_type with
  | Some policy => policy_threshold policy moving_average
  | None =>
    match drift_type with
    | SemanticVectorDrift => th_semantic_vector th
    | GraphDocumentDrift => th_graph_document th
    | TemporalConsistencyDrift => th_temporal_consistency th
    | TensorDrift => th_tensor th
    | SchemaDrift => th_schema th
    | ProvenanceDrift => th_provenance th
    | SpatialDrift => th_spatial th
    | QualityDrift => th_quality th
    end
  end.

(** ** Metrics *)

Record DriftMetrics := {
  dm_current_score : f64; dm_moving_average : f64; dm_max_score : f64;
  dm_measurement_count : Z; dm_last_measured : DateTime; dm_history : list (DateTime * f64);
}.

Definition f64_zero : f64 := S754_zero false.

Definition DriftMetrics_default (now : DateTime) : DriftMetrics :=
  {| dm_current_score := f64_zero; dm_moving_average := f64_zero; dm_max_score := f64_zero;
     dm_measurement_count := 0; dm_last_measured := now; dm_history := [] |}.

Definition alpha : f64 := f64_literal 1 1.

Definition next_average (score average : f64) : f64 :=
  f64_add (f64_mul alpha score) (f64_mul (f64_sub (f64_of_Z 1) alpha) average).

(** [DriftMetrics::record]; [remove(0)] takes the first of the list. *)
Definition record_measurement (now now' : DateTime) (score : f64) (m : DriftMetrics)
    : DriftMetrics :=
  let history := dm_history m ++ [(now', score)] in
  {| dm_current_score := score;
     dm_moving_average := next_average score (dm_moving_average m);
     dm_max_score := if f64_ltb (dm_max_score m) score then score else dm_max_score m;
     dm_measurement_count := u64_add (dm_measurement_count m) 1;
     dm_last_measured := now;
     dm_history := if (100 <? length history)%nat then tail history else history |}.

Definition exceeds_threshold (threshold : f64) (m : DriftMetrics) : bool :=
  f64_ltb threshold (dm_current_score m).

Definition average (scores : list f64) : f64 :=
  f64_div (f64_sum scores) (f64_of_Z (zlength scores)).

Definition trend (m : DriftMetrics) : f64 :=
  if (length (dm_history m) <? 2)%nat then f64_zero
  else
    let recent := take 10 (reverse (dm_history m)) in
    let older := take 10 (drop 10 (reverse (dm_history m))) in
    if decide (older = []) then f64_zero
    else f64_sub (average (snd <$> recent)) (average (snd <$> older)).

(** ** The detector *)

(** What it asks of the metrics it has registered. *)
Inductive prometheus_call :=
| GaugeSet (t : DriftType) (score : f64)
| CounterInc (t : DriftType).

(** The events the receiver of the channel has been sent, until it goes away. *)
Record event_channel := { ec_sent : list DriftEvent; ec_closed : bool }.

Record DriftDetector := {
  dd_thresholds : DriftThresholds;
  dd_metrics : gmap DriftType DriftMetrics;
  dd_event_sender : option event_channel;
  dd_prometheus : option (list prometheus_call);
}.

Definition DriftDetector_new (now : DateTime) (thresholds : DriftThresholds) : DriftDetector :=
  {| dd_thresholds := thresholds;
     dd_metrics := list_to_map ((λ t, (t, DriftMetrics_default now)) <$> drift_types);
     dd_event_sender := None; dd_prometheus := None |}.

Definition with_defaults (now : DateTime) : DriftDetector :=
  DriftDetector_new now DriftThresholds_default.

Definition with_event_channel (sender : event_channel) (d : DriftDetector) : DriftDetector :=
  {| dd_thresholds := dd_thresholds d; dd_metrics := dd_metrics d;
     dd_event_sender := Some sender; dd_prometheus := dd_prometheus d |}.

Definition set_metrics (metrics : gmap DriftType DriftMetrics) (d : DriftDetector)
    : DriftDetector :=
  {| dd_thresholds := dd_thresholds d; dd_metrics := metrics;
     dd_event_sender := dd_event_sender d; dd_prometheus := dd_prometheus d |}.

(** The first critical section of [record]. *)
Definition update_metrics (now now' : DateTime) (drift_type : DriftType) (score : f64)
    (d : DriftDetector) : DriftDetector :=
  match dd_metrics d !! drift_type with
  | Some m => set_metrics (<[drift_type := record_measurement now now' score m]> (dd_metrics d)) d
  | None => d
  end.

Definition prometheus (c : prometheus_call) (d : DriftDetector) : DriftDetector :=
  {| dd_thresholds := dd_thresholds d; dd_metrics := dd_metrics d;
     dd_event_sender := dd_event_sender d;
     dd_prometheus := (λ calls, calls ++ [c]) <$> dd_prometheus d |}.

(** The second critical section. *)
Definition moving_average_of (drift_type : DriftType) (d : DriftDetector) : f64 :=
  default f64_zero (dm_moving_average <$> dd_metrics d !! drift_type).

Definition event_description (drift_type : DriftType) (score threshold : f64) : string :=
  drift_type_display drift_type +:+ " detected with score " +:+ f64_fixed 3 score +:+
    " (threshold: " +:+ f64_fixed 3 threshold +:+ ")".

(** [sender.send]: it fails when the receiver is gone. *)
Definition send_event (event : DriftEvent) (d : DriftDetector)
    : result DriftError unit * DriftDetector :=
  match dd_event_sender d with
  | None => (Ok (), d)
  | Some ch =>
    if ec_closed ch then (Err (ChannelError "channel closed"), d)
    else (Ok (), with_event_channel {| ec_sent := ec_sent ch ++ [event]; ec_closed := false |} d)
  end.

(** The event for a score, given the moving average it is judged by. *)
Definition event_of (now : DateTime) (thresholds : DriftThresholds) (drift_type : DriftType)
    (score : f64) (entities : list string) (moving_avg : f64) : option DriftEvent :=
  let threshold := effective_threshold thresholds drift_type moving_avg in
  if f64_ltb threshold score then
    Some (with_entities entities
      (DriftEvent_new now drift_type score (event_description drift_type score threshold)))
  else None.

(** What follows an event: the counter, and the notification. *)
Definition notify (event : DriftEvent) (d : DriftDetector)
    : result DriftError (option DriftEvent) * DriftDetector :=
  let '(r, d) := send_event event (prometheus (CounterInc (de_drift_type event)) d) in
  (match r with Ok _ => Ok (Some event) | Err e => Err e end, d).

(** The clock is read for the measurement, for the history and for the event. *)
Definition record (now now' now'' : DateTime) (drift_type : DriftType) (score : f64)
    (entities : list string) (d : DriftDetector)
    : result DriftError (option DriftEvent) * DriftDetector :=
  let d := update_metrics now now' drift_type score d in
  let d := prometheus (GaugeSet drift_type score) d in
  let moving_avg := moving_average_of drift_type d in
  match event_of now'' (dd_thresholds d) drift_type score entities moving_avg with
  | Some event => notify event d
  | None => (Ok None, d)
  end.

Definition get_metrics (drift_type : DriftType) (d : DriftDetector) : option DriftMetrics :=
  dd_metrics d !! drift_type.

Definition all_metrics (d : DriftDetector) : gmap DriftType DriftMetrics := dd_metrics d.

(** ** Health *)

Inductive HealthStatus := Healthy | HealthWarning | Degraded | HealthCritical.

Record DriftHealthStatus := {
  hs_status : HealthStatus; hs_worst_drift_type : DriftType; hs_worst_score : f64;
  hs_checked_at : DateTime;
}.

(** One step of the loop over the metrics. *)
Definition worse (metrics : gmap DriftType DriftMetrics) (worst : f64 * DriftType) (t : DriftType)
    : f64 * DriftType :=
  match metrics !! t with
  | Some m => if f64_ltb worst.1 (dm_current_score m) then (dm_current_score m, t) else worst
  | None => worst
  end.

Definition health_of (worst_score : f64) : HealthStatus :=
  if f64_ltb (f64_literal 9 1) worst_score then HealthCritical
  else if f64_ltb (f64_literal 7 1) worst_score then Degraded
  else if f64_ltb (f64_literal 5 1) worst_score then HealthWarning
  else Healthy.

Definition health_check {HI : HashIter DriftType} (now : DateTime) (d : DriftDetector)
    : DriftHealthStatus :=
  let '(worst_score, worst_type) :=
    foldl (worse (dd_metrics d)) (f64_zero, QualityDrift) (hash_iter (dom (dd_metrics d))) in
  {| hs_status := health_of worst_score; hs_worst_drift_type := worst_type;
     hs_worst_score := worst_score; hs_checked_at := now |}.

End drift.

(** ** Drift scores

    Models [src/rust-core/verisim-drift/src/calculator.rs]: how inconsistent two modalities
    are, as a number from zero to one.  The sums are the code's, in its order. *)

Section calculator.
Context {PW : Powi}.

Record DriftCalculator := { similarity_threshold : f64 }.

Definition DriftCalculator_default : DriftCalculator :=
  {| similarity_threshold := f64_literal 8 1 |}.

Definition DriftCalculator_new (threshold : f64) : DriftCalculator :=
  {| similarity_threshold := threshold |}.

(** A [usize] as an [f64]. *)
Definition f64_of_nat (n : nat) : f64 := f64_of_Z (Z.of_nat n).

Definition f64_one : f64 := f64_of_Z 1.

Definition clamp_score (x : f64) : f64 := f64_clamp f64_zero f64_one x.

(** ** Vectors *)

Definition cosine_similarity_f32 (a b : list f32) : f64 :=
  if negb (length a =? length b)%nat || (length a =? 0)%nat then f64_zero
  else
    let dot := f64_sum ((λ '(x, y), f64_mul (f64_of_f32 x) (f64_of_f32 y)) <$> zip a b) in
    let norm_a := f64_sqrt (f64_sum ((λ x, f64_powi (f64_of_f32 x) 2) <$> a)) in
    let norm_b := f64_sqrt (f64_sum ((λ x, f64_powi (f64_of_f32 x) 2) <$> b)) in
    if f64_ltb f64_zero norm_a && f64_ltb f64_zero norm_b then f64_div dot (f64_mul norm_a norm_b)
    else f64_zero.

Definition semantic_vector_drift (embedding : list f32) (semantic_types : list string)
    (type_embeddings : list (string * list f32)) : f64 :=
  if decide (semantic_types = []) then f64_zero
  else if decide (type_embeddings = []) then f64_zero
  else
    let relevant_embeddings := snd <$> filter (λ '(iri, _), iri ∈ semantic_types) type_embeddings in
    if (length relevant_embeddings =? 0)%nat then f64_zero
    else
      let total_similarity :=
        foldl (λ total type_emb, f64_add total (cosine_similarity_f32 embedding type_emb))
          f64_zero relevant_embeddings in
      let avg_similarity := f64_div total_similarity (f64_of_nat (length relevant_embeddings)) in
      clamp_score (f64_sub f64_one avg_similarity).

(** ** Documents and graphs *)

(** A counter that starts as the [i32] zero. *)
Definition i32_count (n : nat) : Z := wrap_signed 32 (Z.of_nat n).

(** The text of the document decides nothing. *)
Definition graph_document_drift (document_text : string) (document_entities : list string)
    (graph_relationships : list (string * string)) : f64 :=
  if decide (document_entities = []) then f64_zero
  else
    let graph_targets := snd <$> graph_relationships in
    let matched := length (filter (λ entity,
      existsb (λ t, str_contains entity t || str_contains t entity) graph_targets = true)
      document_entities) in
    let coverage := f64_div (f64_of_Z (i32_count matched)) (f64_of_nat (length document_entities)) in
    let extra_graph_ratio :=
      if decide (graph_relationships = []) then f64_zero
      else
        let unmatched_graph := length (filter (λ '(_, t),
          existsb (λ e, str_contains e t) document_entities = false) graph_relationships) in
        f64_div (f64_of_nat unmatched_graph) (f64_of_nat (length graph_relationships)) in
    clamp_score (f64_div (f64_add (f64_sub f64_one coverage) extra_graph_ratio) (f64_of_Z 2)).

(** ** Versions *)

(** [l.windows(2)] *)
Fixpoint windows2 (l : list Z) : list (Z * Z) :=
  match l with
  | a :: (b :: _) as l' => (a, b) :: windows2 l'
  | _ => []
  end.

(** [*hash_counts.entry(hash).or_insert(0) += 1], an [i32]. *)
Definition count_hash (counts : gmap Z Z) (hash : Z) : gmap Z Z :=
  <[hash := wrap_signed 32 (default 0 (counts !! hash) + 1)]> counts.

Definition duplicates (version_hashes : list Z) : nat :=
  size (filter (λ '(_, c), 1 < c) (foldl count_hash ∅ version_hashes)).

Definition time_deltas (version_timestamps : list Z) : list Z :=
  (λ '(t0, t1), wrap_signed 64 (t1 - t0)) <$> windows2 version_timestamps.

Definition large_gap (version_timestamps : list Z) : bool :=
  let deltas := sort_by Z.compare (time_deltas version_timestamps) in
  (3 <=? length deltas)%nat &&
  (let median := default 0 (deltas !! (length deltas / 2)%nat) in
   let max := default 0 (last deltas) in
   (0 <? median) && (wrap_signed 64 (median * 10) <? max)).

Definition temporal_consistency_drift (version_timestamps version_hashes : list Z) : f64 :=
  if (length version_timestamps <? 2)%nat then f64_zero
  else
    let total_checks := f64_of_nat (length version_timestamps - 1) in
    let issues := foldl (λ issues '(t0, t1), if t1 <? t0 then f64_add issues f64_one else issues)
                    f64_zero (windows2 version_timestamps) in
    let issues := f64_add issues
      (f64_mul (f64_of_nat (duplicates version_hashes)) (f64_literal 5 1)) in
    let issues := if large_gap version_timestamps then f64_add issues (f64_literal 5 1)
                  else issues in
    clamp_score (f64_div issues (f64_add total_checks f64_one)).

(** ** Tensors *)

Record TensorStats := {
  ts_mean : f64; ts_std_dev : f64; ts_min : f64; ts_max : f64; ts_has_nan : bool;
  ts_has_inf : bool;
}.

Definition f64_is_infinite (x : f64) : bool :=
  match x with S754_infinity _ => true | _ => false end.

Definition no_stats (has_nan has_inf : bool) : TensorStats :=
  {| ts_mean := f64_zero; ts_std_dev := f64_zero; ts_min := f64_zero; ts_max := f64_zero;
     ts_has_nan := has_nan; ts_has_inf := has_inf |}.

Definition TensorStats_compute (data : list f64) : TensorStats :=
  if decide (data = []) then no_stats false false
  else
    let has_nan := existsb f64_is_nan data in
    let has_inf := existsb f64_is_infinite data in
    let valid := filter (λ x, f64_is_finite x = true) data in
    if decide (valid = []) then no_stats has_nan has_inf
    else
      let mean := f64_div (f64_sum valid) (f64_of_nat (length valid)) in
      let variance := f64_div (f64_sum ((λ x, f64_powi (f64_sub x mean) 2) <$> valid))
                        (f64_of_nat (length valid)) in
      {| ts_mean := mean; ts_std_dev := f64_sqrt variance;
         ts_min := foldl f64_min f64_infinity valid;
         ts_max := foldl f64_max (S754_infinity true) valid;
         ts_has_nan := has_nan; ts_has_inf := has_inf |}.

Definition shape_difference (expected_shape actual_shape : list nat) : f64 :=
  f64_div
    (f64_sum ((λ '(e, a), f64_div (f64_abs (f64_sub (f64_of_nat e) (f64_of_nat a)))
                                  (f64_of_nat e)) <$> zip expected_shape actual_shape))
    (f64_of_nat (length expected_shape `max` length actual_shape)).

(** [(actual - expected).abs() / scale], at most one, weighted. *)
Definition stat_penalty (actual expected scale : f64) : f64 :=
  f64_mul (f64_min (f64_div (f64_abs (f64_sub actual expected)) scale) f64_one) (f64_literal 2 1).

Definition epsilon : f64 := f64_literal 1 10.

Definition tensor_drift (tensor_data : list f64) (expected_shape actual_shape : list nat)
    (expected_stats : option TensorStats) : f64 :=
  let drift_score := f64_zero in
  let drift_score :=
    if decide (expected_shape = actual_shape) then drift_score
    else f64_add drift_score
           (f64_mul (shape_difference expected_shape actual_shape) (f64_literal 5 1)) in
  let drift_score :=
    match expected_stats with
    | None => drift_score
    | Some expected =>
      let actual := TensorStats_compute tensor_data in
      let drift_score :=
        if f64_ltb epsilon (f64_abs (ts_mean expected)) then
          f64_add drift_score
            (stat_penalty (ts_mean actual) (ts_mean expected) (f64_abs (ts_mean expected)))
        else drift_score in
      let drift_score :=
        if f64_ltb epsilon (ts_std_dev expected) then
          f64_add drift_score
            (stat_penalty (ts_std_dev actual) (ts_std_dev expected) (ts_std_dev expected))
        else drift_score in
      if ts_has_nan actual || ts_has_inf actual then f64_add drift_score (f64_literal 3 1)
      else drift_score
    end in
  clamp_score drift_score.

(** ** Provenance, space and schema *)

Definition provenance_drift (chain_valid : bool) (chain_length : nat)
    (seconds_since_last_event : option Z) (expected_max_gap_seconds : Z) : f64 :=
  let drift_score := f64_zero in
  if negb chain_valid then f64_one
  else
    let drift_score := if (chain_length =? 0)%nat then f64_add drift_score (f64_literal 5 1)
                       else drift_score in
    let drift_score :=
      match seconds_since_last_event with
      | Some gap =>
        if (0 <? expected_max_gap_seconds) && (expected_max_gap_seconds <? gap) then
          let staleness := f64_min (f64_sub (f64_div (f64_of_Z gap)
                                                     (f64_of_Z expected_max_gap_seconds)) f64_one)
                                   f64_one in
          f64_add drift_score (f64_mul staleness (f64_literal 3 1))
        else drift_score
      | None => drift_score
      end in
    clamp_score drift_score.

Definition spatial_drift (has_coordinates has_location_mentions coordinate_matches_mentions
    coordinates_valid : bool) : f64 :=
  let drift_score := f64_zero in
  if has_coordinates && negb coordinates_valid then f64_literal 9 1
  else
    let drift_score :=
      if has_location_mentions && negb has_coordinates then f64_add drift_score (f64_literal 4 1)
      else drift_score in
    let drift_score :=
      if has_coordinates && has_location_mentions && negb coordinate_matches_mentions then
        f64_add drift_score (f64_literal 5 1)
      else drift_score in
    let drift_score :=
      if has_coordinates && negb has_location_mentions then
        f64_add drift_score (f64_literal 1 1)
      else drift_score in
    clamp_score drift_score.

Definition schema_drift (required_modalities present_modalities : list string)
    (schema_violations total_constraints : nat) : f64 :=
  let drift_score := f64_zero in
  let missing_modalities := length (filter (λ m, m ∉ present_modalities) required_modalities) in
  let drift_score :=
    if decide (required_modalities = []) then drift_score
    else f64_add drift_score
           (f64_mul (f64_div (f64_of_nat missing_modalities)
                             (f64_of_nat (length required_modalities))) (f64_literal 5 1)) in
  let drift_score :=
    if (0 <? total_constraints)%nat then
      f64_add drift_score
        (f64_mul (f64_div (f64_of_nat schema_violations) (f64_of_nat total_constraints))
           (f64_literal 5 1))
    else drift_score in
  clamp_score drift_score.

(** ** Overall *)

Definition weighted_sum (weights : list (f64 * f64)) : f64 :=
  clamp_score (f64_sum ((λ '(score, weight), f64_mul score weight) <$> weights)).

Definition quality_drift (semantic_vector graph_document temporal_consistency tensor schema : f64)
    : f64 :=
  weighted_sum
    [(semantic_vector, f64_literal 25 2); (graph_document, f64_literal 25 2);
     (temporal_consistency, f64_literal 20 2); (tensor, f64_literal 15 2);
     (schema, f64_literal 15 2)].

Definition quality_drift_octad (semantic_vector graph_document temporal_consistency tensor schema
    provenance spatial : f64) : f64 :=
  weighted_sum
    [(semantic_vector, f64_literal 20 2); (graph_document, f64_literal 20 2);
     (temporal_consistency, f64_literal 15 2); (tensor, f64_literal 10 2);
     (schema, f64_literal 10 2); (provenance, f64_literal 15 2); (spatial, f64_literal 10 2)].

(** The kind with the largest score. *)
Definition max_by_score (scores : list (DriftType * f64)) : option DriftType :=
  fst <$> max_by_float snd scores.

Definition primary_drift_type (semantic_vector graph_document temporal_consistency tensor
    schema : f64) : DriftType :=
  default QualityDrift (max_by_score
    [(SemanticVectorDrift, semantic_vector); (GraphDocumentDrift, graph_document);
     (TemporalConsistencyDrift, temporal_consistency); (TensorDrift, tensor);
     (SchemaDrift, schema)]).

Definition primary_drift_type_octad (semantic_vector graph_document temporal_consistency tensor
    schema provenance spatial : f64) : DriftType :=
  default QualityDrift (max_by_score
    [(SemanticVectorDrift, semantic_vector); (GraphDocumentDrift, graph_document);
     (TemporalConsistencyDrift, temporal_consistency); (TensorDrift, tensor);
     (SchemaDrift, schema); (ProvenanceDrift, provenance); (SpatialDrift, spatial)]).

End calculator.
