(* ===== verification/DriftSpec.v ===== *)
(** * What drift detection guarantees

    The scores are numbers from zero to one; the metrics summarise what was measured, however
    the calls of [record] interleave, and every score above its threshold is notified once;
    the health check finds the worst score; and what one NaN does to an adaptive threshold. *)

From S2P Require Import Prelude Floats Drift.
From Stdlib Require Import SpecFloat.
Local Open Scope Z_scope.

(** ** Scores *)

Definition in_unit (x : f64) : Prop := f64_in_range f64_zero f64_one x = true.

Lemma clamp_score_unit x : f64_is_nan x = false → in_unit (clamp_score x).
Proof.
  intros Hx. unfold in_unit, clamp_score, f64_clamp, f64_in_range.
  destruct (f64_ltb x f64_zero) eqn:H0; [done|].
  destruct (f64_ltb f64_one x) eqn:H1; [done|].
  change SFleb with f64_leb. by rewrite !leb_cmp, H0, H1 by done.
Qed.

Lemma clamp_score_nan x : f64_is_nan x = true → clamp_score x = S754_nan.
Proof. by destruct x. Qed.

Lemma clamp_score_any x : in_unit (clamp_score x) ∨ clamp_score x = S754_nan.
Proof.
  destruct (f64_is_nan x) eqn:Hx; [right; by apply clamp_score_nan|left; by apply clamp_score_unit].
Qed.

Lemma in_unit_zero : in_unit f64_zero.
Proof. reflexivity. Qed.

Lemma in_unit_one : in_unit f64_one.
Proof. reflexivity. Qed.

Lemma in_unit_nonneg x : in_unit x → nonneg x = true.
Proof. unfold in_unit, f64_in_range. intros [H _]%andb_true_iff. by destruct x as [|[]| |[]]. Qed.

Lemma nonneg_of_nat n : nonneg (f64_of_nat n) = true.
Proof. apply nonneg_of_Z. lia. Qed.

Lemma positive_of_nat n :
  (0 < n)%nat → Z.of_nat n < 2 ^ 64 → positive_finite (f64_of_nat n) = true.
Proof. intros ??. apply f64_of_Z_positive. lia. Qed.

Create HintDb scores.
#[local] Hint Resolve clamp_score_any clamp_score_unit nonneg_not_nan nonneg_add nonneg_mul nonneg_div
  nonneg_of_nat in_unit_zero in_unit_one : scores.
#[local] Hint Extern 1 (positive_finite (f64_literal _ _) = true) => reflexivity : scores.
#[local] Hint Extern 1 (nonneg (f64_literal _ _) = true) => reflexivity : scores.
#[local] Hint Extern 1 (nonneg f64_zero = true) => reflexivity : scores.

Lemma temporal_score ts hs :
  Z.of_nat (length ts) < 2 ^ 64 → in_unit (temporal_consistency_drift ts hs).
Proof.
  intros Hts. unfold temporal_consistency_drift.
  destruct (Nat.ltb_spec (length ts) 2) as [?|Hlen]; [done|].
  apply clamp_score_unit, nonneg_not_nan, nonneg_div.
  - assert (∀ l a, nonneg a = true → nonneg (foldl (λ issues '(t0, t1),
      if t1 <? t0 then f64_add issues f64_one else issues) a l) = true) as Hfold.
    { induction l as [|[t0 t1] l IH]; intros a Ha; cbn [foldl]; [done|]. apply IH.
      case_match; [by apply nonneg_add|done]. }
    assert (nonneg (f64_add (foldl (λ issues '(t0, t1),
      if t1 <? t0 then f64_add issues f64_one else issues) f64_zero (windows2 ts))
        (f64_mul (f64_of_nat (duplicates hs)) (f64_literal 5 1))) = true) as H.
    { apply nonneg_add; [by apply Hfold|]. auto with scores. }
    case_match; auto with scores.
  - apply moderate_add; [|by vm_compute]. apply f64_of_Z_moderate. lia.
Qed.

Lemma provenance_score valid len gap max_gap : in_unit (provenance_drift valid len gap max_gap).
Proof.
  unfold provenance_drift. destruct valid; [|done]. cbn [negb]. apply clamp_score_unit.
  set (start := if (len =? 0)%nat then _ else _).
  assert (f64_is_nan start = false ∧ f64_is_finite start = true) as [Hn Hf]
    by (unfold start; destruct (len =? 0)%nat; split; reflexivity).
  destruct gap as [gap|]; [|done]. case_match; [|done].
  apply add_finite_not_nan; [done|]. apply mul_positive_not_nan; [|done].
  assert (∀ x, f64_is_nan (f64_min x f64_one) = false) as Hmin.
  { intros x. unfold f64_min. destruct (f64_is_nan x) eqn:Hx; [done|].
    change (f64_is_nan f64_one) with false. cbv iota. by destruct (f64_ltb f64_one x). }
  apply Hmin.
Qed.

Lemma schema_score required present violations total :
  Z.of_nat (length required) < 2 ^ 64 → Z.of_nat total < 2 ^ 64 →
  in_unit (schema_drift required present violations total).
Proof.
  intros Hr Ht. unfold schema_drift. apply clamp_score_unit, nonneg_not_nan.
  set (start := if decide (required = []) then _ else _).
  assert (nonneg start = true) as Hstart.
  { unfold start. case_decide as Hd; [done|]. apply nonneg_add; [done|].
    apply nonneg_mul; [|done]. apply nonneg_div; [apply nonneg_of_nat|].
    apply positive_of_nat; [|done]. destruct required; [done|cbn; lia]. }
  destruct (Nat.ltb_spec 0 total); [|done]. apply nonneg_add; [done|].
  apply nonneg_mul; [|done]. apply nonneg_div; [apply nonneg_of_nat|by apply positive_of_nat].
Qed.

Lemma weighted_sum_score (weights : list (f64 * f64)) :
  Forall (λ '(score, weight), nonneg score = true ∧ positive_finite weight = true) weights →
  in_unit (weighted_sum weights).
Proof.
  intros Hw. apply clamp_score_unit, nonneg_not_nan, nonneg_sum, Forall_fmap.
  eapply Forall_impl; [exact Hw|]. intros [score weight] [??]. by apply nonneg_mul.
Qed.


(** A shape with an empty dimension has no score. *)
Example empty_dimension_is_nan `{Powi} : tensor_drift [] [0%nat] [0%nat; 1%nat] None = S754_nan.
Proof. reflexivity. Qed.

(** ** The worst of several scores *)

(** The primary kind of drift is one whose score no other exceeds. *)
Lemma max_by_score_worst (scores : list (DriftType * f64)) :
  scores ≠ [] → Forall (λ x, f64_is_nan x.2 = false) scores →
  ∃ t s, max_by_score scores = Some t ∧ (t, s) ∈ scores ∧
    ∀ t' s', (t', s') ∈ scores → f64_leb s' s = true.
Proof.
  intros Hne Hn. destruct (max_by_float_spec snd scores Hne Hn) as (best & Hb & Hin & Hall).
  unfold max_by_score. rewrite Hb. exists best.1, best.2. split_and!; [done|by destruct best|].
  intros t' s' Hin'. rewrite Forall_forall in Hall. exact (Hall _ Hin').
Qed.

(** ** Metrics *)

Section detector.
Context {CH : Chrono} {FD : FixedDisplay}.

(** What [record] makes of the scores measured, each with its two readings of the clock. *)
Definition measure_all (ms : list (DateTime * DateTime * f64)) (m : DriftMetrics) : DriftMetrics :=
  foldl (λ m '(now, now', score), record_measurement now now' score m) m ms.

(** The metrics summarise the measurements: the last score, the largest, their number modulo
    [2 ^ 64], their average, and the last hundred of them in order. *)
Definition summarises (m : DriftMetrics) (ms : list (DateTime * DateTime * f64)) : Prop :=
  dm_current_score m = default f64_zero (snd <$> last ms) ∧
  dm_moving_average m = foldl (λ a '(_, _, s), next_average s a) f64_zero ms ∧
  dm_measurement_count m = wrap 64 (zlength ms) ∧
  dm_history m = (λ '(_, now', s), (now', s)) <$> drop (length ms - 100) ms ∧
  (dm_max_score m = f64_zero ∨ ∃ now now', (now, now', dm_max_score m) ∈ ms) ∧
  f64_leb f64_zero (dm_max_score m) = true ∧
  Forall (λ '(_, _, s), f64_is_nan s = false → f64_leb s (dm_max_score m) = true) ms.

Lemma summarises_default now : summarises (DriftMetrics_default now) [].
Proof. split_and!; try done. by left. Qed.

Lemma drop_tail {A : Type} (n : nat) (l : list A) : tail (drop n l) = drop (S n) l.
Proof. revert l. induction n as [|n IH]; intros [|x l]; [done..|]. apply IH. Qed.

Lemma history_window {A B : Type} (f : A → B) (ms : list A) (x : A) :
  let h := (f <$> drop (length ms - 100) ms) ++ [f x] in
  (if (100 <? length h)%nat then tail h else h) =
  f <$> drop (length (ms ++ [x]) - 100) (ms ++ [x]).
Proof.
  intros h. assert (h = f <$> drop (length ms - 100) (ms ++ [x])) as Hh.
  { unfold h. rewrite drop_app_le by lia. by rewrite fmap_app. }
  assert (length h = length ms - (length ms - 100) + 1)%nat as Hl.
  { unfold h. rewrite length_app, length_fmap, length_drop. done. }
  rewrite length_app. cbn [length]. destruct (Nat.ltb_spec 100 (length h)) as [Hlt|Hge].
  - rewrite Hh. replace (length ms + 1 - 100)%nat with (S (length ms - 100)) by lia.
    rewrite <- drop_tail. by destruct (drop (length ms - 100) (ms ++ [x])).
  - rewrite Hh. f_equal. f_equal. lia.
Qed.

Lemma summarises_record m ms now now' s :
  summarises m ms → summarises (record_measurement now now' s m) (ms ++ [(now, now', s)]).
Proof.
  intros (Hc & Ha & Hn & Hh & Hm & H0 & Hall). unfold summarises, record_measurement.
  cbn [dm_current_score dm_moving_average dm_measurement_count dm_history dm_max_score].
  destruct (leb_not_nan _ _ H0) as [_ Hmn].
  assert (f64_ltb (dm_max_score m) s = true → f64_is_nan s = false ∧
    f64_leb (dm_max_score m) s = true) as Hlt.
  { unfold f64_ltb, f64_leb, SFltb, SFleb. intros Hlt. split; [by destruct s, (dm_max_score m)|].
    by destruct (SFcompare _ _) as [[]|]. }
  split_and!.
  - by rewrite last_snoc.
  - by rewrite foldl_app, Ha.
  - rewrite Hn. unfold u64_add, zlength, wrap. rewrite length_app. cbn [length].
    rewrite Zplus_mod_idemp_l. f_equal. lia.
  - rewrite Hh. apply (history_window (λ '(_, now', s), (now', s)) ms (now, now', s)).
  - destruct (f64_ltb (dm_max_score m) s).
    + right. exists now, now'. set_solver.
    + destruct Hm as [->|(n & n' & Hin)]; [by left|right]. exists n, n'. set_solver.
  - destruct (f64_ltb (dm_max_score m) s); [|done]. destruct Hlt as [Hs Hle]; [done|].
    by apply (leb_trans _ (dm_max_score m)).
  - apply Forall_app. split; [|constructor; [|done]].
    + eapply Forall_impl; [exact Hall|]. intros [[n n'] s'] Hs' Hn'. specialize (Hs' Hn').
      destruct (f64_ltb (dm_max_score m) s); [|done]. destruct Hlt; [done|].
      by apply (leb_trans _ (dm_max_score m)).
    + intros Hs. destruct (f64_ltb (dm_max_score m) s) eqn:Hl; [by apply leb_refl|].
      by rewrite leb_cmp, Hl.
Qed.
(** ** Concurrent measurements

    A call of [record] measures in one critical section, is judged by the moving average it
    reads in a second one, and notifies after that; other calls come in between. *)

Record measurement := {
  ms_now : DateTime; ms_now' : DateTime; ms_type : DriftType; ms_score : f64;
  ms_entities : list string;
}.

Record monitor := {
  mo_detector : DriftDetector;
  mo_measured : list measurement;      (** in the order of the first critical sections *)
  mo_pending : list measurement;       (** not judged yet *)
  mo_events : list DriftEvent;         (** not notified yet *)
}.

Definition measure (x : measurement) (d : DriftDetector) : DriftDetector :=
  prometheus (GaugeSet (ms_type x) (ms_score x))
    (update_metrics (ms_now x) (ms_now' x) (ms_type x) (ms_score x) d).

Definition judge (now : DateTime) (x : measurement) (d : DriftDetector) : option DriftEvent :=
  event_of now (dd_thresholds d) (ms_type x) (ms_score x) (ms_entities x)
    (moving_average_of (ms_type x) d).

Inductive monitor_step : monitor → monitor → Prop :=
| step_measure x s :
  monitor_step s
    {| mo_detector := measure x (mo_detector s); mo_measured := mo_measured s ++ [x];
       mo_pending := x :: mo_pending s; mo_events := mo_events s |}
| step_judge now p1 x p2 s :
  mo_pending s = p1 ++ x :: p2 →
  monitor_step s
    {| mo_detector := mo_detector s; mo_measured := mo_measured s; mo_pending := p1 ++ p2;
       mo_events := option_list (judge now x (mo_detector s)) ++ mo_events s |}
| step_notify e1 e e2 s :
  mo_events s = e1 ++ e :: e2 →
  monitor_step s
    {| mo_detector := (notify e (mo_detector s)).2; mo_measured := mo_measured s;
       mo_pending := mo_pending s; mo_events := e1 ++ e2 |}.

Definition monitor_start (now : DateTime) (thresholds : DriftThresholds) : monitor :=
  {| mo_detector := with_event_channel {| ec_sent := []; ec_closed := false |}
                      (DriftDetector_new now thresholds);
     mo_measured := []; mo_pending := []; mo_events := [] |}.

(** A call of [record] that is not interrupted is the three steps in a row. *)
Lemma record_steps now now' now'' t score entities d :
  record now now' now'' t score entities d =
  let x := {| ms_now := now; ms_now' := now'; ms_type := t; ms_score := score;
              ms_entities := entities |} in
  match judge now'' x (measure x d) with
  | Some event => notify event (measure x d)
  | None => (Ok None, measure x d)
  end.
Proof. done. Qed.

Definition key_of (x : measurement) : DriftType * f64 * list string :=
  (ms_type x, ms_score x, ms_entities x).

Definition event_key (e : DriftEvent) : DriftType * f64 * list string :=
  (de_drift_type e, de_score e, de_affected_entities e).

Definition has_fixed_threshold (th : DriftThresholds) (t : DriftType) : bool :=
  bool_decide (th_adaptive_policies th !! t = None).

(** Above the fixed threshold of its kind. *)
Definition loud (th : DriftThresholds) (x : measurement) : bool :=
  has_fixed_threshold th (ms_type x) &&
  f64_ltb (effective_threshold th (ms_type x) f64_zero) (ms_score x).

Definition of_type (t : DriftType) (xs : list measurement) : list (DateTime * DateTime * f64) :=
  (λ x, (ms_now x, ms_now' x, ms_score x)) <$> filter (λ x, ms_type x = t) xs.

Definition sent (d : DriftDetector) : list DriftEvent :=
  from_option ec_sent [] (dd_event_sender d).

Definition fixed_events (th : DriftThresholds) (es : list DriftEvent) : list DriftEvent :=
  filter (λ e, has_fixed_threshold th (de_drift_type e) = true) es.

Definition loud_ones (th : DriftThresholds) (xs : list measurement) : list measurement :=
  filter (λ x, loud th x = true) xs.

Definition justified (measured : list measurement) (e : DriftEvent) : Prop :=
  event_key e ∈ key_of <$> measured ∧ de_severity e = severity_of (de_score e).

Record monitor_inv (th : DriftThresholds) (s : monitor) : Prop := {
  mi_thresholds : dd_thresholds (mo_detector s) = th;
  mi_open : ∃ es, dd_event_sender (mo_detector s) = Some {| ec_sent := es; ec_closed := false |};
  mi_metrics : ∀ t, ∃ m,
    dd_metrics (mo_detector s) !! t = Some m ∧ summarises m (of_type t (mo_measured s));
  mi_pending : mo_pending s ⊆ mo_measured s;
  mi_justified : Forall (justified (mo_measured s)) (sent (mo_detector s) ++ mo_events s);
  mi_complete :
    (event_key <$> fixed_events th (sent (mo_detector s) ++ mo_events s)) ++
    (key_of <$> loud_ones th (mo_pending s)) ≡ₚ key_of <$> loud_ones th (mo_measured s);
}.

Lemma start_inv now th : monitor_inv th (monitor_start now th).
Proof.
  split; cbn [monitor_start mo_detector mo_measured mo_pending mo_events]; try done.
  - by eexists.
  - intros t. exists (DriftMetrics_default now). split; [by destruct t|apply summarises_default].
Qed.

Lemma measure_sent x d : sent (measure x d) = sent d ∧
  dd_event_sender (measure x d) = dd_event_sender d ∧ dd_thresholds (measure x d) = dd_thresholds d.
Proof. unfold sent, measure, update_metrics. by destruct (dd_metrics d !! ms_type x). Qed.

Lemma measure_lookup x d t m :
  dd_metrics d !! t = Some m →
  dd_metrics (measure x d) !! t =
    Some (if decide (ms_type x = t) then record_measurement (ms_now x) (ms_now' x) (ms_score x) m
          else m).
Proof.
  intros Ht. unfold measure, update_metrics. case_decide as Hx; [subst t|].
  - rewrite Ht. cbn. by rewrite lookup_insert_eq.
  - destruct (dd_metrics d !! ms_type x); cbn; [|done]. by rewrite lookup_insert_ne.
Qed.

Lemma of_type_snoc t xs x :
  of_type t (xs ++ [x]) =
  of_type t xs ++ (if decide (ms_type x = t) then [(ms_now x, ms_now' x, ms_score x)] else []).
Proof.
  unfold of_type. rewrite filter_app, fmap_app. f_equal. rewrite filter_cons. by case_decide.
Qed.

Lemma judged_event now x d e :
  judge now x d = Some e →
  event_key e = key_of x ∧ de_severity e = severity_of (de_score e).
Proof. unfold judge, event_of. case_match; [|done]. by intros [= <-]. Qed.

Lemma judged_fixed now x d :
  event_key <$> fixed_events (dd_thresholds d) (option_list (judge now x d)) =
  key_of <$> loud_ones (dd_thresholds d) [x].
Proof.
  destruct (judge now x d) as [e|] eqn:He; cbn [option_list].
  - pose proof (judged_event _ _ _ _ He) as [Hk _]. pose proof Hk as [= Ht _ _].
    change (option_list (Some e)) with [e].
    unfold fixed_events, loud_ones. rewrite !filter_cons. cbv beta. rewrite Ht.
    unfold loud. destruct (has_fixed_threshold _ _) eqn:Hf; cbn [andb].
    + rewrite decide_True by done. unfold judge, event_of in He.
      unfold has_fixed_threshold in Hf. apply bool_decide_eq_true in Hf.
      unfold effective_threshold in *. rewrite Hf in *.
      destruct (f64_ltb _ _) eqn:Hlt; [|done]. cbn. by rewrite Hk.
    + by rewrite !decide_False.
  - unfold fixed_events, loud_ones. rewrite filter_cons. case_decide as Hl; [|done].
    unfold loud in Hl. apply andb_true_iff in Hl as [Hf Hlt].
    unfold judge, event_of in He. unfold has_fixed_threshold in Hf.
    apply bool_decide_eq_true in Hf. unfold effective_threshold in *. rewrite Hf in *.
    by rewrite Hlt in He.
Qed.

Lemma fixed_app th es es' :
  event_key <$> fixed_events th (es ++ es') =
  (event_key <$> fixed_events th es) ++ (event_key <$> fixed_events th es').
Proof. unfold fixed_events. by rewrite filter_app, fmap_app. Qed.

Lemma loud_app th xs xs' :
  key_of <$> loud_ones th (xs ++ xs') =
  (key_of <$> loud_ones th xs) ++ (key_of <$> loud_ones th xs').
Proof. unfold loud_ones. by rewrite filter_app, fmap_app. Qed.

Lemma notify_open e d es :
  dd_event_sender d = Some {| ec_sent := es; ec_closed := false |} →
  let '(r, d') := notify e d in
  r = Ok (Some e) ∧ dd_event_sender d' = Some {| ec_sent := es ++ [e]; ec_closed := false |} ∧
  dd_metrics d' = dd_metrics d ∧ dd_thresholds d' = dd_thresholds d.
Proof. intros Hd. unfold notify, send_event. cbn. rewrite Hd. by cbn. Qed.

Lemma monitor_step_inv th s s' : monitor_inv th s → monitor_step s s' → monitor_inv th s'.
Proof.
  intros [Hth [es Hopen] Hmet Hpend Hjust Hcomp] Hstep.
  destruct Hstep as [x s|now p1 x p2 s Hp|e1 e e2 s He].
  - destruct (measure_sent x (mo_detector s)) as (Hs & Hd & Ht).
    split; cbn [mo_detector mo_measured mo_pending mo_events].
    + by rewrite Ht.
    + exists es. by rewrite Hd.
    + intros t. destruct (Hmet t) as (m & Hm & Hsum). eexists. split; [by apply measure_lookup|].
      rewrite of_type_snoc. case_decide; [by apply summarises_record|by rewrite app_nil_r].
    + set_solver.
    + rewrite Hs. eapply Forall_impl; [exact Hjust|]. intros e [Hin Hsev]. split; [|done].
      rewrite fmap_app. set_solver.
    + rewrite Hs, loud_app, <- Hcomp. change (x :: mo_pending s) with ([x] ++ mo_pending s).
      rewrite loud_app, <- app_assoc. f_equiv. apply Permutation_app_comm.
  - assert (x ∈ mo_measured s) as Hx by (apply Hpend; rewrite Hp; set_solver).
    split; cbn [mo_detector mo_measured mo_pending mo_events]; try done.
    + by exists es.
    + intros y Hy. apply Hpend. rewrite Hp. set_solver.
    + rewrite Forall_app in Hjust |- *. rewrite Forall_app. destruct Hjust as [Hj1 Hj2].
      split_and!; [done| |done]. destruct (judge now x (mo_detector s)) as [e|] eqn:Hj; [|done].
      constructor; [|done]. destruct (judged_event _ _ _ _ Hj) as [Hk Hsev].
      split; [|done]. rewrite Hk. by apply list_elem_of_fmap_2.
    + rewrite <- Hcomp. pose proof (judged_fixed now x (mo_detector s)) as Hjf. rewrite Hth in Hjf.
      rewrite Hp. change (x :: p2) with ([x] ++ p2). rewrite !fixed_app, !loud_app, Hjf.
      rewrite <- !app_assoc. f_equiv. rewrite (app_assoc _ (key_of <$> loud_ones th p1)).
      rewrite (app_assoc (event_key <$> _) (key_of <$> loud_ones th p1) (_ ++ _)).
      apply Permutation_app_swap_app.
  - pose proof (notify_open e (mo_detector s) es Hopen) as Hn.
    destruct (notify e (mo_detector s)) as [r d']. destruct Hn as (_ & Hd & Hm & Ht). cbn [snd].
    assert (sent d' ++ e1 ++ e2 ≡ₚ sent (mo_detector s) ++ mo_events s) as Hperm.
    { unfold sent. rewrite Hd, Hopen, He. cbn. rewrite <- app_assoc.
      apply Permutation_app_head. exact (Permutation_middle e1 e2 e). }
    split; cbn [mo_detector mo_measured mo_pending mo_events]; try done.
    + by rewrite Ht.
    + by eexists.
    + intros t. rewrite Hm. apply Hmet.
    + by rewrite Hperm.
    + unfold fixed_events in *. by rewrite Hperm.
Qed.

(** Any number of concurrent calls, in any interleaving, while the receiver of the events
    lives: the metrics of each kind of drift summarise the scores measured of it; every
    event notified is of a measurement, with the severity its score asks for; and when no
    call is under way, the measurements above the fixed threshold of their kind have been
    notified, each exactly once, and no other of such a kind. *)
Theorem drift_monitor (now : DateTime) (th : DriftThresholds) (s : monitor) :
  rtc monitor_step (monitor_start now th) s →
  (∀ t, ∃ m, get_metrics t (mo_detector s) = Some m ∧ summarises m (of_type t (mo_measured s))) ∧
  Forall (justified (mo_measured s)) (sent (mo_detector s)) ∧
  (mo_pending s = [] → mo_events s = [] →
   event_key <$> fixed_events th (sent (mo_detector s)) ≡ₚ
   key_of <$> loud_ones th (mo_measured s)).
Proof.
  intros Hsteps. assert (monitor_inv th s) as [Hth Hopen Hmet Hpend Hjust Hcomp].
  { assert (monitor_inv th (monitor_start now th)) as Hs by apply start_inv.
    revert Hs. induction Hsteps; [done|]. eauto using monitor_step_inv. }
  apply Forall_app in Hjust as [Hjust _]. split_and!; [done|done|].
  intros Hp He. rewrite Hp, He, !app_nil_r in Hcomp. exact Hcomp.
Qed.

(** ** NaN *)

Definition call : Type := DateTime * DateTime * DateTime * DriftType * f64 * list string.

Definition record_call (c : call) (d : DriftDetector)
    : result DriftError (option DriftEvent) * DriftDetector :=
  let '(now, now', now'', t, score, entities) := c in record now now' now'' t score entities d.

Definition record_calls (cs : list call) (d : DriftDetector) : DriftDetector :=
  foldl (λ d c, (record_call c d).2) d cs.

Lemma notify_kept e d :
  dd_metrics (notify e d).2 = dd_metrics d ∧ dd_thresholds (notify e d).2 = dd_thresholds d.
Proof.
  unfold notify, send_event. cbn. destruct (dd_event_sender d) as [ch|]; cbn; [|done].
  by destruct (ec_closed ch).
Qed.

Lemma record_kept c d :
  let d' := (record_call c d).2 in
  dd_thresholds d' = dd_thresholds d ∧
  ∀ t m, dd_metrics d !! t = Some m →
    dd_metrics d' !! t =
      Some (let '(now, now', _, t', score, _) := c in
            if decide (t' = t) then record_measurement now now' score m else m).
Proof.
  destruct c as [[[[[now now'] now''] t'] score] entities]. cbn zeta. unfold record_call.
  rewrite record_steps. set (x := Build_measurement _ _ _ _ _). cbn zeta. destruct (measure_sent x d) as (_ & _ & Ht).
  pose proof (λ t m, measure_lookup x d t m) as Hm.
  destruct (judge now'' x (measure x d)) as [e|]; cbn [snd]; [|done].
  destruct (notify_kept e (measure x d)) as [-> ->]. done.
Qed.

(** A score that is NaN raises no alarm, whatever the thresholds.  It makes the average NaN
    for ever: where the threshold is adaptive, no score of that kind, however high, raises
    an alarm any more. *)
Theorem nan_silences (t : DriftType) (m : DriftMetrics) (base sensitivity : f64)
    (d : DriftDetector) (c : call) (cs : list call) :
  dd_metrics d !! t = Some m →
  th_adaptive_policies (dd_thresholds d) !! t = Some (Adaptive base sensitivity) →
  (let '(_, _, _, t', score, _) := c in t' = t ∧ score = S754_nan) →
  (record_call c d).1 = Ok None ∧
  let d' := record_calls cs (record_call c d).2 in
  moving_average_of t d' = S754_nan ∧
  ∀ now now' now'' score entities, (record now now' now'' t score entities d').1 = Ok None.
Proof.
  intros Hm Hpol Hc.
  assert (∀ d c m, dd_metrics d !! t = Some m →
    th_adaptive_policies (dd_thresholds d) !! t = Some (Adaptive base sensitivity) →
    (let '(_, _, _, t', score, _) := c in
     t' = t ∧ (score = S754_nan ∨ dm_moving_average m = S754_nan)) →
    (record_call c d).1 = Ok None) as Hquiet.
  { clear. intros d [[[[[now now'] now''] t'] score] entities] m Hm Hpol [-> Hnan].
    unfold record_call.
    rewrite record_steps. set (x := Build_measurement _ _ _ _ _). cbn zeta. destruct (measure_sent x d) as (_ & _ & Ht).
    unfold judge, event_of, effective_threshold, moving_average_of.
    change (ms_type x) with t. rewrite Ht, (measure_lookup x d t m Hm), Hpol.
    rewrite decide_True by done. cbn. unfold next_average. destruct Hnan as [-> | ->].
    - by rewrite ltb_nan_r.
    - by rewrite mul_nan_r, add_nan_r, mul_nan_l, add_nan_r, ltb_nan_l. }
  split.
  { apply (Hquiet d c m Hm Hpol). destruct c as [[[[[? ?] ?] ?] ?] ?]. naive_solver. }
  intros d'.
  assert (∃ m', dd_metrics d' !! t = Some m' ∧ dm_moving_average m' = S754_nan ∧
    th_adaptive_policies (dd_thresholds d') !! t = Some (Adaptive base sensitivity))
    as (m' & Hm' & Havg & Hpol').
  { subst d'. induction cs as [|c' cs IH] using rev_ind; cbn.
    - destruct (record_kept c d) as [Hth Hk]. specialize (Hk t m Hm). rewrite Hk, Hth.
      destruct c as [[[[[now now'] now''] t'] score] entities]. destruct Hc as [-> ->].
      rewrite decide_True by done. eexists. split_and!; [done| |done].
      cbn. unfold next_average. by rewrite mul_nan_r, add_nan_l.
    - destruct IH as (m' & Hm' & Havg & Hpol'). unfold record_calls. rewrite foldl_app. cbn [foldl].
      fold (record_calls cs (record_call c d).2).
      destruct (record_kept c' (record_calls cs (record_call c d).2)) as [Hth Hk].
      rewrite (Hk t m' Hm'), Hth. eexists. split_and!; [done| |done].
      destruct c' as [[[[[now now'] now''] t'] score] entities]. case_decide; [|done].
      cbn. unfold next_average. by rewrite Havg, mul_nan_r, add_nan_r. }
  split; [unfold moving_average_of; by rewrite Hm'|].
  intros now now' now'' score entities.
  apply (Hquiet d' (now, now', now'', t, score, entities) m' Hm' Hpol'). split; [done|by right].
Qed.

(** ** Health *)

Lemma worse_fold {HI : HashIter DriftType} (metrics : gmap DriftType DriftMetrics) l worst :
  f64_is_nan worst.1 = false →
  let r := foldl (worse metrics) worst l in
  f64_leb worst.1 r.1 = true ∧
  (r = worst ∨ ∃ m, r.2 ∈ l ∧ metrics !! r.2 = Some m ∧ r.1 = dm_current_score m) ∧
  ∀ t m, t ∈ l → metrics !! t = Some m → f64_is_nan (dm_current_score m) = false →
    f64_leb (dm_current_score m) r.1 = true.
Proof.
  revert worst. induction l as [|t l IH]; intros worst Hn; cbn [foldl].
  { split_and!; [by apply leb_refl|by left|set_solver]. }
  assert (f64_is_nan (worse metrics worst t).1 = false ∧
    f64_leb worst.1 (worse metrics worst t).1 = true ∧
    (worse metrics worst t = worst ∨ ∃ m, metrics !! t = Some m ∧
       worse metrics worst t = (dm_current_score m, t)) ∧
    ∀ m, metrics !! t = Some m → f64_is_nan (dm_current_score m) = false →
      f64_leb (dm_current_score m) (worse metrics worst t).1 = true) as (Hn' & Hle & Hw & Hm).
  { unfold worse. destruct (metrics !! t) as [m|] eqn:Ht.
    - destruct (f64_ltb worst.1 (dm_current_score m)) eqn:Hlt; cbn [fst].
      + assert (f64_is_nan (dm_current_score m) = false) as Hnm
          by (by destruct (dm_current_score m), worst.1).
        split_and!; [done| |by right; exists m|].
        * rewrite leb_iff by done. apply f64_ltb_cmp in Hlt; [|done..]. by rewrite Hlt.
        * intros m' [= <-] _. by apply leb_refl.
      + split_and!; [done|by apply leb_refl|by left|].
        intros m' [= <-] Hnm. by rewrite leb_cmp, Hlt.
    - split_and!; [done|by apply leb_refl|by left|done]. }
  destruct (IH _ Hn') as (Hle' & Hr & Hall). cbn zeta. set (r := foldl _ _ l) in *.
  destruct (leb_not_nan _ _ Hle') as [_ Hrn].
  split_and!.
  - by apply (leb_trans _ (worse metrics worst t).1).
  - destruct Hr as [Hr|(m & Hin & Hmr & Hs)].
    + rewrite Hr. destruct Hw as [Hw|(m & Ht & Hw)]; [by left|right].
      exists m. rewrite Hw. cbn. split_and!; [by left|done|done].
    + right. exists m. split_and!; [by right|done|done].
  - intros t' m [->|Hin]%elem_of_cons Hm' Hnm; [|by eapply Hall].
    apply (leb_trans _ (worse metrics worst t).1); [done..| |done]. by apply Hm.
Qed.

(** The health check names a kind of drift whose current score is the worst, whatever order
    the metrics are iterated in, and grades the system by that score; it is the overall kind,
    with score zero, when no score is positive.  Only a NaN escapes it. *)
Theorem health_is_worst {HI : HashIter DriftType} (now : DateTime) (d : DriftDetector) :
  let h := health_check now d in
  hs_status h = health_of (hs_worst_score h) ∧
  f64_leb f64_zero (hs_worst_score h) = true ∧
  (∀ t m, dd_metrics d !! t = Some m → f64_is_nan (dm_current_score m) = false →
    f64_leb (dm_current_score m) (hs_worst_score h) = true) ∧
  (hs_worst_score h = f64_zero ∧ hs_worst_drift_type h = QualityDrift ∨
   ∃ m, dd_metrics d !! hs_worst_drift_type h = Some m ∧
     hs_worst_score h = dm_current_score m).
Proof.
  pose proof (worse_fold (dd_metrics d) (hash_iter (dom (dd_metrics d))) (f64_zero, QualityDrift)
    eq_refl) as (Hle & Hr & Hall).
  unfold health_check. cbn zeta in *. destruct (foldl _ _ _) as [score type]. cbn in *.
  split_and!; [done|done| |].
  - intros t m Ht. apply (Hall t m); [|done]. by apply elem_of_hash_iter, elem_of_dom.
  - destruct Hr as [[= -> ->]|(m & _ & Hm & Hs)]; [by left|right; by exists m].
Qed.

End detector.

(** The kind of drift reported as the primary one has a score that no other exceeds. *)
Theorem primary_drift_is_worst (sv gd tc te sc pr sp : f64) :
  Forall (λ x, f64_is_nan x = false) [sv; gd; tc; te; sc; pr; sp] →
  let scores := [(SemanticVectorDrift, sv); (GraphDocumentDrift, gd);
    (TemporalConsistencyDrift, tc); (TensorDrift, te); (SchemaDrift, sc);
    (ProvenanceDrift, pr); (SpatialDrift, sp)] in
  (∃ s, (primary_drift_type_octad sv gd tc te sc pr sp, s) ∈ scores ∧
     ∀ t s', (t, s') ∈ scores → f64_leb s' s = true) ∧
  (∃ s, (primary_drift_type sv gd tc te sc, s) ∈ take 5 scores ∧
     ∀ t s', (t, s') ∈ take 5 scores → f64_leb s' s = true).
Proof.
  intros Hn scores. assert (Forall (λ x, f64_is_nan x.2 = false) scores) as Hs.
  { unfold scores. apply Forall_cons in Hn as (? & (? & (? & (? & (? & (? & (? & _)%Forall_cons)%Forall_cons)%Forall_cons)%Forall_cons)%Forall_cons)%Forall_cons).
    by repeat constructor. }
  split.
  - destruct (max_by_score_worst scores) as (t & s & Ht & Hin & Hall); [done|done|].
    exists s. unfold primary_drift_type_octad. fold scores. by rewrite Ht.
  - destruct (max_by_score_worst (take 5 scores)) as (t & s & Ht & Hin & Hall);
      [done|by apply Forall_take|].
    exists s. unfold primary_drift_type. cbn [take scores] in Ht. by rewrite Ht.
Qed.
