(* ===== verification/Normalizer.v ===== *)
(** * The normalizer

    Models [src/rust-core/verisim-normalizer/src/lib.rs]: the engine that hands a drift event
    to the first strategy that applies, and the five built-in strategies.  A strategy is a
    trait object, a record here.  A call of [handle_drift] takes a strategy, counts itself
    active, runs the strategy and counts its outcome; the parts under the lock of the status
    are separate definitions, which the end of this file interleaves. *)

From S2P Require Import Prelude Floats Provenance Temporal Graph Modality HexadTypes Regeneration Drift.
From stdpp Require Import pretty.
From Stdlib Require String.
Local Open Scope Z_scope.

Section normalizer.
Context {CH : Chrono} {DG : Digest} {XD : FixedDisplay}.

(** ** Data *)

Inductive NormalizationType :=
| VectorRegeneration | GraphReconstruction | TemporalRepair | TensorSync | FullReconciliation.

Record NormalizationChange := {
  nc_modality : string; nc_field : string; nc_old_value : option string; nc_new_value : string;
  nc_reason : string;
}.

Record NormalizationResult := {
  nr_entity_id : string; nr_normalization_type : NormalizationType; nr_success : bool;
  nr_changes : list NormalizationChange; nr_duration_ms : Z; nr_completed_at : DateTime;
}.

(** What a strategy reads off the clocks: how long it took, and when it ended. *)
Record timing := { tm_elapsed_ms : Z; tm_completed_at : DateTime }.

Record NormalizationStrategy := {
  ns_name : string;
  ns_applies_to : DriftType → bool;
  ns_normalize : timing → Hexad → DriftEvent → result NormalizerError NormalizationResult;
}.

Record NormalizerConfig := {
  nf_auto_normalize : bool; nf_max_concurrent : nat; nf_min_score : f64;
  nf_failure_backoff_secs : Z;
}.

Definition NormalizerConfig_default : NormalizerConfig :=
  {| nf_auto_normalize := true; nf_max_concurrent := 10; nf_min_score := f64_literal 3 1;
     nf_failure_backoff_secs := 60 |}.

Record NormalizerStatus := {
  st_running : bool; st_pending_count : Z; st_active_count : Z; st_completed_count : Z;
  st_failure_count : Z; st_last_normalization : option DateTime;
}.

(** The results the receiver of the channel has been sent, until it goes away. *)
Record result_channel := { rc_sent : list NormalizationResult; rc_closed : bool }.

Record Normalizer := {
  nz_config : NormalizerConfig;
  nz_strategies : list NormalizationStrategy;
  nz_status : NormalizerStatus;
  nz_result_sender : option result_channel;
}.

Definition Normalizer_new (config : NormalizerConfig) : Normalizer :=
  {| nz_config := config; nz_strategies := [];
     nz_status := {| st_running := false; st_pending_count := 0; st_active_count := 0;
                     st_completed_count := 0; st_failure_count := 0;
                     st_last_normalization := None |};
     nz_result_sender := None |}.

Definition with_result_channel (sender : result_channel) (n : Normalizer) : Normalizer :=
  {| nz_config := nz_config n; nz_strategies := nz_strategies n; nz_status := nz_status n;
     nz_result_sender := Some sender |}.

Definition register_strategy (strategy : NormalizationStrategy) (n : Normalizer) : Normalizer :=
  {| nz_config := nz_config n; nz_strategies := nz_strategies n ++ [strategy];
     nz_status := nz_status n; nz_result_sender := nz_result_sender n |}.

Definition set_status (status : NormalizerStatus) (n : Normalizer) : Normalizer :=
  {| nz_config := nz_config n; nz_strategies := nz_strategies n; nz_status := status;
     nz_result_sender := nz_result_sender n |}.

(** ** Handling an event *)

(** The strategy for an event; [None]: the score is too low, or no strategy applies. *)
Definition choose_strategy (event : DriftEvent) (n : Normalizer) : option NormalizationStrategy :=
  if f64_ltb (de_score event) (nf_min_score (nz_config n)) then None
  else head (filter (λ s, ns_applies_to s (de_drift_type event) = true) (nz_strategies n)).

(** [usize] and [u64] counters wrap. *)
Definition begin_normalization (n : Normalizer) : Normalizer :=
  let st := nz_status n in
  set_status {| st_running := st_running st; st_pending_count := st_pending_count st;
                st_active_count := wrap 64 (st_active_count st + 1);
                st_completed_count := st_completed_count st;
                st_failure_count := st_failure_count st;
                st_last_normalization := st_last_normalization st |} n.

Definition finish_normalization (now : DateTime)
    (outcome : result NormalizerError NormalizationResult) (n : Normalizer) : Normalizer :=
  let st := nz_status n in
  let active := wrap 64 (st_active_count st - 1) in
  set_status
    match outcome with
    | Ok _ =>
      {| st_running := st_running st; st_pending_count := st_pending_count st;
         st_active_count := active;
         st_completed_count := wrap 64 (st_completed_count st + 1);
         st_failure_count := st_failure_count st; st_last_normalization := Some now |}
    | Err _ =>
      {| st_running := st_running st; st_pending_count := st_pending_count st;
         st_active_count := active; st_completed_count := st_completed_count st;
         st_failure_count := wrap 64 (st_failure_count st + 1);
         st_last_normalization := st_last_normalization st |}
    end n.

Definition send_result (r : NormalizationResult) (n : Normalizer)
    : result NormalizerError () * Normalizer :=
  match nz_result_sender n with
  | None => (Ok (), n)
  | Some ch =>
    if rc_closed ch then (Err (Regeneration.ChannelError "channel closed"), n)
    else (Ok (), with_result_channel {| rc_sent := rc_sent ch ++ [r]; rc_closed := false |} n)
  end.

(** What follows the strategy. *)
Definition report_outcome (now : DateTime) (outcome : result NormalizerError NormalizationResult)
    (n : Normalizer) : result NormalizerError (option NormalizationResult) * Normalizer :=
  let n := finish_normalization now outcome n in
  match outcome with
  | Err e => (Err e, n)
  | Ok r =>
    let '(sent, n) := send_result r n in
    (match sent with Ok _ => Ok (Some r) | Err e => Err e end, n)
  end.

Definition handle_drift (t : timing) (now : DateTime) (hexad : Hexad) (event : DriftEvent)
    (n : Normalizer) : result NormalizerError (option NormalizationResult) * Normalizer :=
  match choose_strategy event n with
  | None => (Ok None, n)
  | Some strategy =>
    let n := begin_normalization n in
    report_outcome now (ns_normalize strategy t hexad event) n
  end.

Definition status (n : Normalizer) : NormalizerStatus := nz_status n.

Definition strategies (n : Normalizer) : list string := ns_name <$> nz_strategies n.

(** ** The strategies *)

Definition change (modality field : string) (old_value : option string) (new_value reason : string)
    : NormalizationChange :=
  {| nc_modality := modality; nc_field := field; nc_old_value := old_value;
     nc_new_value := new_value; nc_reason := reason |}.

Definition finished (t : timing) (hexad : Hexad) (type : NormalizationType)
    (changes : list NormalizationChange) : result NormalizerError NormalizationResult :=
  Ok {| nr_entity_id := h_id hexad; nr_normalization_type := type; nr_success := true;
        nr_changes := changes; nr_duration_ms := tm_elapsed_ms t;
        nr_completed_at := tm_completed_at t |}.

Definition score_text (event : DriftEvent) : string := f64_fixed 3 (de_score event).

Definition semantic_vector_normalize (t : timing) (hexad : Hexad) (drift_event : DriftEvent)
    : result NormalizerError NormalizationResult :=
  let has_document := is_some (h_document hexad) in
  let has_semantic := is_some (h_semantic hexad) in
  if negb has_document && negb has_semantic then
    Err (NormalizationFailed (h_id hexad)
           "Cannot regenerate vector: no document or semantic source available")
  else
    let old_embedding_info :=
      match h_embedding hexad with
      | Some e => pretty (length (emb_vector e)) +:+ "d vector"
      | None => "none"
      end in
    let changes :=
      match h_document hexad with
      | Some doc =>
        [change "vector" "embedding" (Some old_embedding_info)
           ("regenerate from document '" +:+ doc_title doc +:+ "'")
           ("Semantic-vector drift score " +:+ score_text drift_event +:+
              " — document is authoritative source")]
      | None => []
      end in
    let changes :=
      match h_semantic hexad with
      | Some sem =>
        changes ++
        [change "vector" "embedding_context" (Some old_embedding_info)
           ("incorporate " +:+ pretty (length (sa_types sem)) +:+ " semantic types")
           "Semantic annotations provide additional context for embedding"]
      | None => changes
      end in
    finished t hexad VectorRegeneration changes.

Definition SemanticVectorStrategy : NormalizationStrategy :=
  {| ns_name := "semantic-vector-sync";
     ns_applies_to := λ d, match d with SemanticVectorDrift => true | _ => false end;
     ns_normalize := semantic_vector_normalize |}.

Definition graph_document_normalize (t : timing) (hexad : Hexad) (drift_event : DriftEvent)
    : result NormalizerError NormalizationResult :=
  match h_document hexad, h_graph_node hexad with
  | Some doc, Some graph =>
    finished t hexad GraphReconstruction
      [change "graph" "relationships" (Some ("graph node IRI: " +:+ iri graph))
         ("reconstruct from document '" +:+ doc_title doc +:+ "'")
         ("Graph-document drift score " +:+ score_text drift_event +:+
            " — document is authoritative for content")]
  | Some doc, None =>
    finished t hexad GraphReconstruction
      [change "graph" "graph_node" None
         ("create graph node from document '" +:+ doc_title doc +:+ "'")
         "Graph modality missing — extract entities from document"]
  | None, Some graph =>
    finished t hexad GraphReconstruction
      [change "document" "document" None
         ("create document from graph node '" +:+ local_name graph +:+ "'")
         "Document modality missing — generate from graph structure"]
  | None, None =>
    Err (NormalizationFailed (h_id hexad)
           "Cannot reconcile graph-document: neither modality present")
  end.

Definition GraphDocumentStrategy : NormalizationStrategy :=
  {| ns_name := "graph-document-sync";
     ns_applies_to := λ d, match d with GraphDocumentDrift => true | _ => false end;
     ns_normalize := graph_document_normalize |}.

(** [format!("{:?}")] of a shape. *)
Definition debug_shape (shape : list Z) : string :=
  "[" +:+ String.concat ", " ((λ n : Z, pretty n : string) <$> shape) +:+ "]".

Definition tensor_normalize (t : timing) (hexad : Hexad) (drift_event : DriftEvent)
    : result NormalizerError NormalizationResult :=
  let has_vector := is_some (h_embedding hexad) in
  let has_document := is_some (h_document hexad) in
  if negb has_vector && negb has_document then
    Err (NormalizationFailed (h_id hexad)
           "Cannot regenerate tensor: no vector or document source available")
  else
    let old_tensor_info :=
      match h_tensor hexad with
      | Some ten => "shape " +:+ debug_shape (ten_shape ten)
      | None => "none"
      end in
    let changes :=
      match h_embedding hexad with
      | Some emb =>
        let dim := pretty (length (emb_vector emb)) in
        [change "tensor" "data" (Some old_tensor_info)
           ("reshape " +:+ dim +:+ "d embedding to [1, " +:+ dim +:+ "] tensor")
           ("Tensor drift score " +:+ score_text drift_event +:+
              " — regenerating from vector embedding")]
      | None => []
      end in
    let changes :=
      match h_document hexad with
      | Some doc =>
        changes ++
        [change "tensor" "features" (Some old_tensor_info)
           ("compute TF-IDF features from document '" +:+ doc_title doc +:+ "'")
           "Document content provides additional tensor features"]
      | None => changes
      end in
    finished t hexad TensorSync changes.

Definition TensorRegenerationStrategy : NormalizationStrategy :=
  {| ns_name := "tensor-regeneration";
     ns_applies_to := λ d, match d with TensorDrift => true | _ => false end;
     ns_normalize := tensor_normalize |}.

Definition temporal_changes (hexad : Hexad) (drift_event : DriftEvent) : list NormalizationChange :=
  let st := h_status hexad in
  (if negb (DateTime_leb (hs_created_at st) (hs_modified_at st)) then
     [change "temporal" "modified_at" (Some (to_rfc3339 (hs_modified_at st)))
        (to_rfc3339 (hs_created_at st))
        "modified_at was before created_at — correcting to created_at"]
   else []) ++
  (if hs_version st =? 0 then
     [change "temporal" "version" (Some "0") "1"
        "Version was 0 — correcting to 1 (minimum valid version)"]
   else []) ++
  (if (0 <? h_version_count hexad) && (h_version_count hexad <? hs_version st) then
     [change "temporal" "version_count" (Some (pretty (h_version_count hexad)))
        (pretty (hs_version st))
        ("Temporal drift score " +:+ score_text drift_event +:+ " — version_count (" +:+
           pretty (h_version_count hexad) +:+ ") < version (" +:+ pretty (hs_version st) +:+ ")")]
   else []).

Definition temporal_normalize (t : timing) (hexad : Hexad) (drift_event : DriftEvent)
    : result NormalizerError NormalizationResult :=
  let changes := temporal_changes hexad drift_event in
  let changes :=
    match changes with
    | [] =>
      [change "temporal" "consistency" None "verified"
         ("Temporal drift score " +:+ score_text drift_event +:+
            " — checked ordering and duplicates, no repairs needed")]
    | _ => changes
    end in
  finished t hexad TemporalRepair changes.

Definition TemporalRepairStrategy : NormalizationStrategy :=
  {| ns_name := "temporal-repair";
     ns_applies_to := λ d, match d with TemporalConsistencyDrift => true | _ => false end;
     ns_normalize := temporal_normalize |}.

(** The loop over the inner strategies: the changes so far, and whether one failed. *)
Definition cascade_step (t : timing) (hexad : Hexad) (drift_event : DriftEvent)
    (acc : list NormalizationChange * bool) (strategy : NormalizationStrategy)
    : list NormalizationChange * bool :=
  let '(all_changes, any_failure) := acc in
  match ns_normalize strategy t hexad drift_event with
  | Ok r => (all_changes ++ nr_changes r, any_failure)
  | Err (NormalizationFailed _ _) => (all_changes, any_failure)
  | Err e =>
    (all_changes ++
       [change "quality" (ns_name strategy) None ("failed: " +:+ normalizer_error_to_string e)
          "Strategy error during quality reconciliation"], true)
  end.

Definition quality_normalize (inner : list NormalizationStrategy) (t : timing) (hexad : Hexad)
    (drift_event : DriftEvent) : result NormalizerError NormalizationResult :=
  let '(all_changes, any_failure) := foldl (cascade_step t hexad drift_event) ([], false) inner in
  Ok {| nr_entity_id := h_id hexad; nr_normalization_type := FullReconciliation;
        nr_success := negb any_failure; nr_changes := all_changes;
        nr_duration_ms := tm_elapsed_ms t; nr_completed_at := tm_completed_at t |}.

Definition inner_strategies : list NormalizationStrategy :=
  [SemanticVectorStrategy; GraphDocumentStrategy; TensorRegenerationStrategy;
   TemporalRepairStrategy].

Definition QualityReconciliationStrategy : NormalizationStrategy :=
  {| ns_name := "quality-reconciliation";
     ns_applies_to := λ d, match d with QualityDrift | SchemaDrift => true | _ => false end;
     ns_normalize := quality_normalize inner_strategies |}.

Definition create_default_normalizer : Normalizer :=
  foldl (λ n s, register_strategy s n) (Normalizer_new NormalizerConfig_default)
    (inner_strategies ++ [QualityReconciliationStrategy]).

End normalizer.

(** ** What the normalizer does

    Its counters under concurrent calls, which strategy an event goes to, and what the
    built-in strategies answer. *)

Section normalizer.
Context {CH : Chrono} {DG : Digest} {XD : FixedDisplay}.

(** ** Concurrent calls

    A call that has taken a strategy is active until the strategy ends; its result is sent
    after that.  Registering waits until no call holds the list of strategies. *)

Record normalizer_run := {
  nu_normalizer : Normalizer;
  nu_active : list (NormalizationStrategy * Hexad * DriftEvent);
  nu_ended : list (result NormalizerError NormalizationResult);
  nu_unsent : list NormalizationResult;
}.

Inductive normalizer_step : normalizer_run → normalizer_run → Prop :=
| step_begin hexad event strategy u :
  choose_strategy event (nu_normalizer u) = Some strategy →
  normalizer_step u
    {| nu_normalizer := begin_normalization (nu_normalizer u);
       nu_active := (strategy, hexad, event) :: nu_active u;
       nu_ended := nu_ended u; nu_unsent := nu_unsent u |}
| step_finish t now a1 strategy hexad event a2 u :
  nu_active u = a1 ++ (strategy, hexad, event) :: a2 →
  let outcome := ns_normalize strategy t hexad event in
  normalizer_step u
    {| nu_normalizer := finish_normalization now outcome (nu_normalizer u);
       nu_active := a1 ++ a2; nu_ended := nu_ended u ++ [outcome];
       nu_unsent := match outcome with Ok r => [r] | Err _ => [] end ++ nu_unsent u |}
| step_send u1 r u2 u :
  nu_unsent u = u1 ++ r :: u2 →
  normalizer_step u
    {| nu_normalizer := (send_result r (nu_normalizer u)).2; nu_active := nu_active u;
       nu_ended := nu_ended u; nu_unsent := u1 ++ u2 |}
| step_register strategy u :
  nu_active u = [] → nu_unsent u = [] →
  normalizer_step u
    {| nu_normalizer := register_strategy strategy (nu_normalizer u); nu_active := [];
       nu_ended := nu_ended u; nu_unsent := [] |}.

(** An uninterrupted call is these steps in a row. *)
Lemma handle_drift_steps t now hexad event n :
  handle_drift t now hexad event n =
  match choose_strategy event n with
  | None => (Ok None, n)
  | Some strategy =>
    let outcome := ns_normalize strategy t hexad event in
    let n := finish_normalization now outcome (begin_normalization n) in
    match outcome with
    | Err e => (Err e, n)
    | Ok r => let '(sent, n) := send_result r n in
              (match sent with Ok _ => Ok (Some r) | Err e => Err e end, n)
    end
  end.
Proof. done. Qed.

Definition run_start (n : Normalizer) : normalizer_run :=
  {| nu_normalizer := n; nu_active := []; nu_ended := []; nu_unsent := [] |}.

Definition results (outcomes : list (result NormalizerError NormalizationResult))
    : list NormalizationResult :=
  omap (λ o, match o with Ok r => Some r | Err _ => None end) outcomes.

Definition failures (outcomes : list (result NormalizerError NormalizationResult)) : nat :=
  length (filter (λ o, is_ok o = false) outcomes).

Definition sent_results (n : Normalizer) : list NormalizationResult :=
  from_option rc_sent [] (nz_result_sender n).

Record counts_inv (u : normalizer_run) : Prop := {
  ci_active : st_active_count (nz_status (nu_normalizer u)) = wrap 64 (zlength (nu_active u));
  ci_completed :
    st_completed_count (nz_status (nu_normalizer u)) = wrap 64 (zlength (results (nu_ended u)));
  ci_failed :
    st_failure_count (nz_status (nu_normalizer u)) = wrap 64 (Z.of_nat (failures (nu_ended u)));
  ci_open : ∃ rs, nz_result_sender (nu_normalizer u) =
                  Some {| rc_sent := rs; rc_closed := false |};
  ci_sent : sent_results (nu_normalizer u) ++ nu_unsent u ≡ₚ results (nu_ended u);
}.

Lemma results_snoc l o :
  results (l ++ [o]) = results l ++ match o with Ok r => [r] | Err _ => [] end.
Proof. unfold results. rewrite omap_app. by destruct o. Qed.

Lemma failures_snoc l o : failures (l ++ [o]) = (failures l + if is_ok o then 0 else 1)%nat.
Proof. unfold failures. rewrite filter_app, length_app. by destruct o. Qed.

Lemma wrap_add_l w a b : wrap w (wrap w a + b) = wrap w (a + b).
Proof. apply Zplus_mod_idemp_l. Qed.

Lemma wrap_sub_l w a b : wrap w (wrap w a - b) = wrap w (a - b).
Proof. apply Zminus_mod_idemp_l. Qed.

Lemma normalizer_step_inv u u' : counts_inv u → normalizer_step u u' → counts_inv u'.
Proof.
  intros [Ha Hc Hf [rs Ho] Hs] Hstep.
  destruct Hstep as [hexad event strategy u _|t now a1 strategy hexad event a2 u Hact outcome
    |u1 r u2 u Hu|strategy u Hact Hu].
  - split; cbn; [|done..|by exists rs|done]. rewrite Ha, wrap_add_l. f_equal. unfold zlength. cbn. lia.
  - assert (nz_result_sender (finish_normalization now outcome (nu_normalizer u)) =
      nz_result_sender (nu_normalizer u)) as Hsender by (by unfold finish_normalization).
    assert (wrap 64 (st_active_count (nz_status (nu_normalizer u)) - 1) = wrap 64 (zlength (a1 ++ a2)))
      as Hact'.
    { rewrite Ha, wrap_sub_l, Hact. f_equal. unfold zlength. rewrite !length_app. cbn. lia. }
    split; cbn [nu_normalizer nu_active nu_ended nu_unsent]; rewrite ?results_snoc, ?failures_snoc.
    + by destruct outcome.
    + destruct outcome as [r|e]; cbn; [|by rewrite app_nil_r].
      rewrite Hc, wrap_add_l. f_equal. unfold zlength. rewrite length_app. cbn. lia.
    + destruct outcome as [r|e]; cbn; rewrite Hf; [by rewrite Nat.add_0_r|].
      rewrite wrap_add_l. f_equal. lia.
    + exists rs. by rewrite Hsender.
    + unfold sent_results in *. rewrite Hsender.
      destruct outcome as [r|e]; cbn [app]; [|by rewrite app_nil_r].
      rewrite <- Hs. rewrite <- Permutation_cons_append. symmetry. apply Permutation_middle.
  - assert (send_result r (nu_normalizer u) =
      (Ok (), with_result_channel {| rc_sent := rs ++ [r]; rc_closed := false |} (nu_normalizer u)))
      as Hsend by (unfold send_result; by rewrite Ho).
    split; cbn [nu_normalizer nu_active nu_ended nu_unsent]; rewrite ?Hsend; try done.
    + by eexists.
    + rewrite <- Hs. unfold sent_results. rewrite Ho, Hu. cbn. rewrite <- app_assoc.
      apply Permutation_app_head. exact (Permutation_middle u1 u2 r).
  - rewrite Hact in Ha. rewrite Hu in Hs. split; cbn; [done..|by exists rs|done].
Qed.

Definition with_channel (n : Normalizer) : Normalizer :=
  with_result_channel {| rc_sent := []; rc_closed := false |} n.

(** However calls of [handle_drift] and [register_strategy] interleave, the status counts
    the calls that are active, those that have succeeded and those that have failed (modulo
    [2 ^ 64]); and the results of the successful ones are sent, each once. *)
Theorem normalizer_counts (config : NormalizerConfig) (u : normalizer_run) :
  rtc normalizer_step (run_start (with_channel (Normalizer_new config))) u →
  let st := status (nu_normalizer u) in
  st_active_count st = wrap 64 (zlength (nu_active u)) ∧
  st_completed_count st = wrap 64 (zlength (results (nu_ended u))) ∧
  st_failure_count st = wrap 64 (Z.of_nat (failures (nu_ended u))) ∧
  sent_results (nu_normalizer u) ++ nu_unsent u ≡ₚ results (nu_ended u).
Proof.
  intros Hsteps. assert (counts_inv u) as [].
  { assert (counts_inv (run_start (with_channel (Normalizer_new config)))) as Hs
      by (split; cbn; [done..|by eexists|done]).
    revert Hs. induction Hsteps; [done|]. eauto using normalizer_step_inv. }
  done.
Qed.

(** ** Which strategy an event goes to *)

(** A default normalizer sends an event to the strategy made for its kind, unless its score
    is below 0.3; drift of provenance and of space has no strategy, whatever the score. *)
Theorem default_dispatch (event : DriftEvent) :
  ns_name <$> choose_strategy event create_default_normalizer =
  if f64_ltb (de_score event) (f64_literal 3 1) then None
  else
    match de_drift_type event with
    | SemanticVectorDrift => Some "semantic-vector-sync"
    | GraphDocumentDrift => Some "graph-document-sync"
    | TensorDrift => Some "tensor-regeneration"
    | TemporalConsistencyDrift => Some "temporal-repair"
    | QualityDrift | SchemaDrift => Some "quality-reconciliation"
    | ProvenanceDrift | SpatialDrift => None
    end.
Proof.
  unfold choose_strategy. change (nf_min_score _) with (f64_literal 3 1).
  destruct (f64_ltb (de_score event) (f64_literal 3 1)); [done|].
  by destruct (de_drift_type event).
Qed.

(** Nothing bounds how many calls are active: [max_concurrent] is not consulted. *)
Theorem active_unbounded (hexad : Hexad) (event : DriftEvent) (k : nat) :
  is_Some (choose_strategy event create_default_normalizer) →
  ∃ u, rtc normalizer_step (run_start create_default_normalizer) u ∧ length (nu_active u) = k.
Proof.
  intros [strategy Hs].
  enough (∃ u, rtc normalizer_step (run_start create_default_normalizer) u ∧
    length (nu_active u) = k ∧ choose_strategy event (nu_normalizer u) = Some strategy) by naive_solver.
  induction k as [|k (u & Hu & Hk & Hc)].
  - by exists (run_start create_default_normalizer).
  - eexists. split_and!; [eapply rtc_r; [exact Hu|by apply (step_begin hexad event)]| |done].
    cbn. by rewrite Hk.
Qed.

(** ** What the built-in strategies answer *)

Definition built_in : list NormalizationStrategy :=
  inner_strategies ++ [QualityReconciliationStrategy].

(** An inner strategy that cannot do its work leaves the cascade as it was. *)
Lemma cascade_concat t hexad event l acc :
  (∀ s e, s ∈ l → ns_normalize s t hexad event = Err e → ∃ id msg, e = NormalizationFailed id msg) →
  foldl (cascade_step t hexad event) acc l =
  (acc.1 ++ (l ≫= λ s, match ns_normalize s t hexad event with Ok r => nr_changes r | Err _ => [] end),
   acc.2).
Proof.
  revert acc. induction l as [|s l IH]; intros [changes failed] Hf; cbn; [by rewrite app_nil_r|].
  rewrite IH by (intros; eapply Hf; [by right|done]). unfold cascade_step.
  destruct (ns_normalize s t hexad event) as [r|e] eqn:Hs; cbn; [by rewrite app_assoc|].
  destruct (Hf s e) as (id & msg & ->); [by left|done|]. done.
Qed.

Definition answers (hexad : Hexad) (missing : Prop) (o : result NormalizerError NormalizationResult)
    : Prop :=
  match o with
  | Ok r => nr_entity_id r = h_id hexad ∧ nr_success r = true ∧ nr_changes r ≠ [] ∧ ¬ missing
  | Err e => (∃ msg, e = NormalizationFailed (h_id hexad) msg) ∧ missing
  end.

Lemma temporal_answers t hexad event :
  answers hexad False (temporal_normalize t hexad event).
Proof. unfold temporal_normalize. destruct (temporal_changes hexad event); cbn; naive_solver. Qed.

Lemma inner_answers t hexad event :
  answers hexad (h_document hexad = None ∧ h_semantic hexad = None)
    (semantic_vector_normalize t hexad event) ∧
  answers hexad (h_document hexad = None ∧ h_graph_node hexad = None)
    (graph_document_normalize t hexad event) ∧
  answers hexad (h_embedding hexad = None ∧ h_document hexad = None)
    (tensor_normalize t hexad event).
Proof.
  unfold semantic_vector_normalize, graph_document_normalize, tensor_normalize.
  destruct (h_document hexad), (h_semantic hexad), (h_graph_node hexad), (h_embedding hexad);
    cbn; split_and!; eauto; naive_solver.
Qed.

(** Each built-in strategy fails exactly when both its sources are missing, and otherwise
    reports success, for the entity it was given, with at least one change; the temporal one
    and the cascade never fail, and the changes of the cascade are those of the strategies
    that could do their work, in order of priority. *)
Theorem builtin_strategies (t : timing) (hexad : Hexad) (event : DriftEvent) :
  answers hexad (h_document hexad = None ∧ h_semantic hexad = None)
    (ns_normalize SemanticVectorStrategy t hexad event) ∧
  answers hexad (h_document hexad = None ∧ h_graph_node hexad = None)
    (ns_normalize GraphDocumentStrategy t hexad event) ∧
  answers hexad (h_embedding hexad = None ∧ h_document hexad = None)
    (ns_normalize TensorRegenerationStrategy t hexad event) ∧
  answers hexad False (ns_normalize TemporalRepairStrategy t hexad event) ∧
  answers hexad False (ns_normalize QualityReconciliationStrategy t hexad event) ∧
  ∀ r, ns_normalize QualityReconciliationStrategy t hexad event = Ok r →
    nr_changes r = inner_strategies ≫= λ s,
      match ns_normalize s t hexad event with Ok r => nr_changes r | Err _ => [] end.
Proof.
  destruct (inner_answers t hexad event) as (Hs & Hg & Ht).
  pose proof (temporal_answers t hexad event) as Hp.
  assert (∀ s e, s ∈ inner_strategies → ns_normalize s t hexad event = Err e →
    ∃ id msg, e = NormalizationFailed id msg) as Hf.
  { intros s e Hin He. unfold inner_strategies in Hin.
    repeat (apply elem_of_cons in Hin as [->|Hin]); [| | | |by apply elem_of_nil in Hin];
      cbn in He; rewrite He in *; cbn in *; naive_solver. }
  pose proof (cascade_concat t hexad event inner_strategies ([], false) Hf) as Hcascade.
  split_and!; try done.
  - cbn [ns_normalize QualityReconciliationStrategy]. unfold quality_normalize. rewrite Hcascade.
    cbn [answers fst snd nr_entity_id nr_success nr_changes negb app]. split_and!; [done|done| |tauto].
    cbn [inner_strategies mbind list_bind ns_normalize SemanticVectorStrategy GraphDocumentStrategy
      TensorRegenerationStrategy TemporalRepairStrategy].
    destruct (temporal_normalize t hexad event) as [r|e] eqn:He; [|by destruct Hp].
    destruct Hp as (_ & _ & Hne & _). rewrite app_nil_r.
    intros [_ [_ [_ Hnil]%app_eq_nil]%app_eq_nil]%app_eq_nil. done.
  - intros r. cbn [ns_normalize QualityReconciliationStrategy]. unfold quality_normalize.
    rewrite Hcascade. by intros [= <-].
Qed.

End normalizer.
