(* ===== verification/NormalizerExamples.v ===== *)
(** * The normalizer on concrete inputs

    Witnesses of the theorems of [Conflict.v], [Normalizer.v] and [DriftSpec.v]. *)

From S2P Require Import Prelude Floats Provenance Temporal Graph Modality HexadTypes Regeneration Conflict Drift DriftSpec Normalizer.
From Stdlib Require Import SpecFloat.

#[local] Instance nz_chrono : Chrono := milli_chrono.
#[local] Instance nz_display : FixedDisplay := {| f64_fixed := λ _ _, "0.900" |}.

Definition nz_now : DateTime (Chrono := nz_chrono) := 7%Z.

(** A history of one entry. *)
Definition nz_config : ConflictConfig :=
  {| cc_default_policy := ModalityPriority [MDocument; MVector]; cc_per_modality_policies := ∅;
     cc_auto_resolve_threshold := f64_literal 3 1; cc_require_manual_above := f64_literal 8 1;
     cc_max_history_entries := 1 |}.

Definition nz_detect (id : string) (r : ConflictResolver) : ConflictResolver :=
  (detect_conflict id nz_now "entity" [MVector; MDocument] (f64_literal 5 1) "drift" r).2.

Definition nz_two : ConflictResolver := nz_detect "b" (nz_detect "a" (ConflictResolver_new nz_config)).

Definition nz_conflict (id : string) : Conflict :=
  {| cf_id := id; cf_entity_id := "entity"; cf_detected_at := nz_now;
     cf_conflicting_modalities := [MVector; MDocument]; cf_drift_score := f64_literal 5 1;
     cf_description := "drift"; cf_status := Open; cf_resolution := None |}.

Definition nz_dismissed (id : string) : Conflict :=
  set_resolution {| cr_resolved_at := nz_now; cr_policy_used := LastWriterWins;
    cr_winning_modality := None; cr_resolver := "system"; cr_notes := Some "Dismissed: noise" |}
    (Conflict.set_status Dismissed (nz_conflict id)).

Definition nz_one : system :=
  {| sy_resolver := nz_detect "a" (ConflictResolver_new nz_config); sy_removing := [];
     sy_pushing := []; sy_detected := ["a"]; sy_pushed := [] |}.

Definition nz_both : system :=
  {| sy_resolver := nz_two; sy_removing := []; sy_pushing := []; sy_detected := ["a"; "b"];
     sy_pushed := [] |}.

(** A caller has dismissed [a] and not yet removed it, while [b] waits. *)
Definition nz_between : system :=
  {| sy_resolver := (dismiss_decide "a" "noise" nz_now nz_two).2;
     sy_removing := [nz_dismissed "a"]; sy_pushing := []; sy_detected := ["a"; "b"];
     sy_pushed := [] |}.

Lemma conflict_lifecycle_witness :
  reachable nz_config nz_between ∧
  (cf_id <$> waiting (active_conflicts (sy_resolver nz_between))) = ["b"] ∧
  (cf_id <$> waiting (active_conflicts (sy_resolver nz_between))
     ++ sy_removing nz_between ++ sy_pushing nz_between ++ sy_pushed nz_between) ≡ₚ ["a"; "b"].
Proof.
  assert (reachable nz_config nz_between) as H.
  { apply (rtc_l _ _ nz_one);
      [apply (step_detect (system_new nz_config) "a"); by apply not_elem_of_nil|].
    apply (rtc_l _ _ nz_both); [apply (step_detect nz_one "b"); by apply (bool_decide_unpack _)|].
    apply rtc_once, (step_decide nz_both (Some (nz_dismissed "a"))).
    apply (decision_dismiss "a" "noise" nz_now _ (Ok ((), nz_dismissed "a"))).
    vm_compute. reflexivity. }
  split; [exact H|]. split; [vm_compute; reflexivity|].
  exact (proj1 (proj2 (conflict_lifecycle nz_config nz_between H))).
Defined.

(** Document outranks the vector although it is listed second. *)
Lemma resolve_outcome_witness :
  active_conflicts nz_two = [nz_conflict "a"] ++ nz_conflict "b" :: [] ∧
  match resolve "b" None nz_now nz_two with
  | (Ok res, r) => cr_winning_modality res = Some MDocument ∧
      active_conflicts r = [nz_conflict "a"] ++ []
  | (Err _, _) => False
  end.
Proof.
  assert (active_conflicts nz_two = [nz_conflict "a"] ++ nz_conflict "b" :: []) as Ha by reflexivity.
  assert (NoDup (cf_id <$> active_conflicts nz_two)) as Hnd by (apply (bool_decide_unpack _); reflexivity).
  split; [exact Ha|]. pose proof (resolve_outcome None nz_now nz_two _ _ _ Ha Hnd) as H.
  assert (match resolve "b" None nz_now nz_two with
          | (Ok res, _) => bool_decide (cr_winning_modality res = Some MDocument)
          | _ => false end = true) as Hok by (vm_compute; reflexivity).
  change (cf_id (nz_conflict "b")) with "b" in H.
  destruct (resolve "b" None nz_now nz_two) as [[res|e] r]; [|discriminate].
  destruct H as (_ & _ & _ & _ & _ & _ & Hact & _). apply bool_decide_eq_true in Hok. by split.
Defined.

(** ** The normalizer's engine on concrete inputs

    A run of one call on an entity that has only a document: the theorems of
    [Normalizer.v] applied to it. *)

#[local] Instance nz_digest : Digest :=
  {| sha256_hex := λ _, "0"; json_to_string := λ _, "{}"; to_rfc3339 := λ _, "now" |}.

(** An entity with a document and nothing else. *)
Definition nz_hexad : Hexad :=
  {| h_id := "h1";
     h_status := {| hs_id := "h1"; hs_created_at := nz_now; hs_modified_at := nz_now;
                    hs_version := 1%Z; hs_modality_status := ModalityStatus_default |};
     h_graph_node := None; h_embedding := None; h_tensor := None; h_semantic := None;
     h_document := Some (Document_new "h1" "Title" "Body"); h_version_count := 1%Z;
     h_provenance_chain_length := 0%Z; h_spatial_data := None |}.

Definition nz_event : DriftEvent :=
  DriftEvent_new nz_now QualityDrift (f64_literal 5 1) "drift".

Definition nz_engine : Normalizer :=
  register_strategy QualityReconciliationStrategy (with_channel (Normalizer_new NormalizerConfig_default)).

Definition nz_timing : timing := {| tm_elapsed_ms := 1%Z; tm_completed_at := nz_now |}.

Definition nz_outcome := ns_normalize QualityReconciliationStrategy nz_timing nz_hexad nz_event.

Definition nz_active : normalizer_run :=
  {| nu_normalizer := begin_normalization nz_engine;
     nu_active := [(QualityReconciliationStrategy, nz_hexad, nz_event)]; nu_ended := [];
     nu_unsent := [] |}.

Definition nz_finished : normalizer_run :=
  {| nu_normalizer := finish_normalization nz_now nz_outcome (begin_normalization nz_engine);
     nu_active := []; nu_ended := [nz_outcome];
     nu_unsent := match nz_outcome with Ok r => [r] | Err _ => [] end |}.

Lemma nz_run :
  rtc normalizer_step (run_start (with_channel (Normalizer_new NormalizerConfig_default))) nz_finished.
Proof.
  eapply rtc_l; [by apply (step_register QualityReconciliationStrategy)|].
  eapply rtc_l; [by apply (step_begin nz_hexad nz_event QualityReconciliationStrategy)|].
  eapply rtc_l;
    [exact (step_finish nz_timing nz_now [] QualityReconciliationStrategy nz_hexad nz_event [] nz_active eq_refl)|].
  apply rtc_refl.
Qed.

Lemma normalizer_counts_witness :
  let st := status (nu_normalizer nz_finished) in
  st_active_count st = wrap 64 (zlength (nu_active nz_finished)) ∧
  st_completed_count st = wrap 64 (zlength (results (nu_ended nz_finished))) ∧
  st_failure_count st = wrap 64 (Z.of_nat (failures (nu_ended nz_finished))) ∧
  sent_results (nu_normalizer nz_finished) ++ nu_unsent nz_finished ≡ₚ results (nu_ended nz_finished).
Proof. apply (normalizer_counts NormalizerConfig_default nz_finished). apply nz_run. Defined.

Example one_completed : st_completed_count (status (nu_normalizer nz_finished)) = 1%Z.
Proof. reflexivity. Qed.

Lemma active_unbounded_witness :
  ∃ u, rtc normalizer_step (run_start create_default_normalizer) u ∧ length (nu_active u) = 11.
Proof. apply (active_unbounded nz_hexad nz_event 11). by eexists. Defined.

(** ** Drift detection on concrete inputs

    A run of three concurrent measurements, and a detector that one empty tensor silences. *)

Local Open Scope Z_scope.

#[local] Existing Instance milli_chrono.

(** Text that does not matter. *)
Definition no_digits : FixedDisplay := {| f64_fixed := λ _ _, "x" |}.
#[local] Existing Instance no_digits.

Definition instant (z : Z) : DateTime := z.

Definition low_vector : measurement :=
  {| ms_now := instant 1; ms_now' := instant 1; ms_type := SemanticVectorDrift;
     ms_score := f64_literal 1 1; ms_entities := ["a"] |}.
Definition high_vector : measurement :=
  {| ms_now := instant 2; ms_now' := instant 2; ms_type := SemanticVectorDrift;
     ms_score := f64_literal 6 1; ms_entities := ["b"] |}.

Definition after_two : monitor :=
  {| mo_detector := measure high_vector (measure low_vector
       (mo_detector (monitor_start (instant 0) DriftThresholds_default)));
     mo_measured := [low_vector; high_vector]; mo_pending := [high_vector; low_vector];
     mo_events := [] |}.

(** Both measure, then both are judged, then the one event is notified. *)
Definition judged_one : monitor :=
  {| mo_detector := mo_detector after_two; mo_measured := mo_measured after_two;
     mo_pending := [high_vector];
     mo_events := option_list (judge (instant 3) low_vector (mo_detector after_two)) |}.

Definition the_event : DriftEvent :=
  with_entities ["b"] (DriftEvent_new (instant 4) SemanticVectorDrift (f64_literal 6 1)
    (event_description SemanticVectorDrift (f64_literal 6 1) (f64_literal 3 1))).

Definition judged_both : monitor :=
  {| mo_detector := mo_detector after_two; mo_measured := mo_measured after_two;
     mo_pending := []; mo_events := [the_event] |}.

Definition all_done : monitor :=
  {| mo_detector := (notify the_event (mo_detector after_two)).2;
     mo_measured := mo_measured after_two; mo_pending := []; mo_events := [] |}.

Lemma two_measurements : rtc monitor_step (monitor_start (instant 0) DriftThresholds_default) all_done.
Proof.
  eapply rtc_l; [apply (step_measure low_vector)|].
  eapply rtc_l; [apply (step_measure high_vector)|].
  eapply rtc_l; [exact (step_judge (instant 3) [high_vector] low_vector [] after_two eq_refl)|].
  eapply rtc_l; [exact (step_judge (instant 4) [] high_vector [] judged_one eq_refl)|].
  eapply rtc_l; [exact (step_notify [] the_event [] judged_both eq_refl)|].
  apply rtc_refl.
Qed.

Lemma drift_monitor_witness :
  (∀ t, ∃ m, get_metrics t (mo_detector all_done) = Some m ∧
    summarises m (of_type t (mo_measured all_done))) ∧
  Forall (justified (mo_measured all_done)) (sent (mo_detector all_done)) ∧
  (mo_pending all_done = [] → mo_events all_done = [] →
   event_key <$> fixed_events DriftThresholds_default (sent (mo_detector all_done)) ≡ₚ
   key_of <$> loud_ones DriftThresholds_default (mo_measured all_done)).
Proof.
  apply (drift_monitor (instant 0) DriftThresholds_default all_done). apply two_measurements.
Defined.

(** One event has been sent, of the score above its threshold. *)
Example one_event_sent : sent (mo_detector all_done) = [the_event].
Proof. reflexivity. Qed.

(** ** An empty tensor *)

Definition square_powi : Powi := {| f64_powi := λ x _, f64_mul x x |}.
#[local] Existing Instance square_powi.

Definition adaptive : DriftThresholds :=
  {| th_semantic_vector := f64_literal 3 1; th_graph_document := f64_literal 4 1;
     th_temporal_consistency := f64_literal 2 1; th_tensor := f64_literal 35 2;
     th_schema := f64_literal 1 1; th_provenance := f64_literal 1 1;
     th_spatial := f64_literal 3 1; th_quality := f64_literal 25 2;
     th_adaptive_policies := {[TensorDrift := Adaptive (f64_literal 2 1) (f64_literal 5 1)]} |}.

Definition adaptive_detector : DriftDetector := DriftDetector_new (instant 0) adaptive.

(** The score of a tensor with an empty dimension. *)
Definition empty_tensor : call :=
  (instant 1, instant 1, instant 1, TensorDrift, tensor_drift [] [0%nat] [0%nat; 1%nat] None, ["t"]).

Lemma nan_silences_witness :
  (record_call empty_tensor adaptive_detector).1 = Ok None ∧
  let d' := record_calls [] (record_call empty_tensor adaptive_detector).2 in
  moving_average_of TensorDrift d' = S754_nan ∧
  ∀ now now' now'' score entities,
    (record now now' now'' TensorDrift score entities d').1 = Ok None.
Proof.
  apply (nan_silences TensorDrift (DriftMetrics_default (instant 0)) (f64_literal 2 1)
           (f64_literal 5 1) adaptive_detector empty_tensor []).
  - reflexivity.
  - reflexivity.
  - split; reflexivity.
Defined.

Lemma primary_drift_is_worst_witness :
  let scores := [(SemanticVectorDrift, f64_literal 1 1); (GraphDocumentDrift, f64_literal 5 1);
    (TemporalConsistencyDrift, f64_literal 5 1); (TensorDrift, f64_zero);
    (SchemaDrift, f64_zero); (ProvenanceDrift, f64_one); (SpatialDrift, f64_zero)] in
  (∃ s, (ProvenanceDrift, s) ∈ scores ∧ ∀ t s', (t, s') ∈ scores → f64_leb s' s = true) ∧
  (∃ s, (TemporalConsistencyDrift, s) ∈ take 5 scores ∧
     ∀ t s', (t, s') ∈ take 5 scores → f64_leb s' s = true).
Proof.
  apply (primary_drift_is_worst (f64_literal 1 1) (f64_literal 5 1) (f64_literal 5 1) f64_zero
           f64_zero f64_one f64_zero).
  repeat constructor.
Defined.
