(* ===== verification/Profiler.v ===== *)
(** * The profiler

    Models [src/rust-core/verisim-planner/src/profiler.rs]: the actual figures of the steps of
    a plan, what they teach the statistics, and the text of EXPLAIN ANALYZE. *)

From S2P Require Import Prelude Floats Plan Optimizer.
From Stdlib Require Import SpecFloat.
From stdpp Require Import pretty.
Local Open Scope Z_scope.

(** ** The slow-query log

    Models [src/rust-core/verisim-planner/src/slow_query.rs].  [record] decides under the
    lock of the configuration and appends under the lock of the entries, after it has given
    the first one back: the two are separate definitions, which [ProfilerSpec.v] interleaves.
    What goes to [tracing] is left out. *)

Section slow_query.
Context {CH : Chrono}.

Record SlowQueryConfig := {
  sq_threshold_ms : f64; sq_max_entries : nat; sq_enabled : bool;
  sq_multi_modality_threshold : nat;
}.

Definition SlowQueryConfig_default : SlowQueryConfig :=
  {| sq_threshold_ms := f64_of_Z 100; sq_max_entries := 1000; sq_enabled := true;
     sq_multi_modality_threshold := 0 |}.

Record BottleneckInfo := {
  bi_modality : Modality; bi_operation : string; bi_time_ms : f64; bi_percentage : f64;
}.

Record SlowQueryEntry := {
  se_timestamp : DateTime; se_query_text : option string; se_actual_ms : f64;
  se_estimated_ms : f64; se_slowdown_ratio : f64; se_strategy : string;
  se_modalities : list Modality; se_rows_returned : Z; se_bottleneck : option BottleneckInfo;
}.

Record SlowQueryLog := { sl_config : SlowQueryConfig; sl_entries : list SlowQueryEntry }.

Definition SlowQueryLog_new (config : SlowQueryConfig) : SlowQueryLog :=
  {| sl_config := config; sl_entries := [] |}.

Definition SlowQueryLog_with_defaults : SlowQueryLog := SlowQueryLog_new SlowQueryConfig_default.

(** ** Recording *)

Definition zero_ms : f64 := S754_zero false.

Definition bottleneck_of (actual_ms : f64) (step_times : list (Modality * f64 * Z))
    : option BottleneckInfo :=
  (λ '(modality, time_ms, _),
    {| bi_modality := modality; bi_operation := modality_display modality +:+ " query";
       bi_time_ms := time_ms;
       bi_percentage := if f64_ltb zero_ms actual_ms
                        then f64_mul (f64_div time_ms actual_ms) (f64_of_Z 100)
                        else zero_ms |})
    <$> max_by_float (λ x, x.1.2) step_times.

(** What the configuration says of an execution: the entry to log and the bound to log it
    under, or nothing. *)
Definition decide_entry (now : DateTime) (query_text : option string) (actual_ms : f64)
    (plan : PhysicalPlan) (step_times : list (Modality * f64 * Z)) (config : SlowQueryConfig)
    : option (SlowQueryEntry * nat) :=
  if negb (sq_enabled config) then None
  else
    let is_slow := f64_leb (sq_threshold_ms config) actual_ms in
    let is_multi := (0 <? sq_multi_modality_threshold config)%nat &&
                    (sq_multi_modality_threshold config <=? length (pp_steps plan))%nat in
    if negb is_slow && negb is_multi then None
    else
      let estimated_ms := time_ms (pp_total_cost plan) in
      Some ({| se_timestamp := now; se_query_text := query_text; se_actual_ms := actual_ms;
               se_estimated_ms := estimated_ms;
               se_slowdown_ratio := if f64_ltb zero_ms estimated_ms
                                    then f64_div actual_ms estimated_ms else f64_infinity;
               se_strategy := match pp_strategy plan with
                              | Sequential => "sequential"
                              | Parallel => "parallel"
                              end;
               se_modalities := ps_modality <$> pp_steps plan;
               se_rows_returned := foldl u64_add 0 (snd <$> step_times);
               se_bottleneck := bottleneck_of actual_ms step_times |},
            sq_max_entries config).

(** [while entries.len() > max_entries { entries.pop_front() }] *)
Definition push_entry (entry : SlowQueryEntry) (max_entries : nat) (log : SlowQueryLog)
    : SlowQueryLog :=
  let entries := sl_entries log ++ [entry] in
  {| sl_config := sl_config log; sl_entries := drop (length entries - max_entries) entries |}.

Definition record (now : DateTime) (query_text : option string) (actual_ms : f64)
    (plan : PhysicalPlan) (step_times : list (Modality * f64 * Z)) (log : SlowQueryLog)
    : bool * SlowQueryLog :=
  match decide_entry now query_text actual_ms plan step_times (sl_config log) with
  | None => (false, log)
  | Some (entry, max_entries) => (true, push_entry entry max_entries log)
  end.

(** ** Reading *)

Definition recent (limit : nat) (log : SlowQueryLog) : list SlowQueryEntry :=
  take limit (reverse (sl_entries log)).

Definition all (log : SlowQueryLog) : list SlowQueryEntry := sl_entries log.

Definition count (log : SlowQueryLog) : nat := length (sl_entries log).

Definition clear (log : SlowQueryLog) : SlowQueryLog :=
  {| sl_config := sl_config log; sl_entries := [] |}.

Definition set_config (config : SlowQueryConfig) (log : SlowQueryLog) : SlowQueryLog :=
  {| sl_config := config; sl_entries := sl_entries log |}.

(** ** Summary *)

Record SlowQuerySummary := {
  ss_total_count : nat; ss_avg_ms : f64; ss_max_ms : f64; ss_min_ms : f64;
  ss_avg_slowdown_ratio : f64; ss_top_bottleneck_modality : option Modality;
}.

Definition SlowQuerySummary_default : SlowQuerySummary :=
  {| ss_total_count := 0; ss_avg_ms := zero_ms; ss_max_ms := zero_ms; ss_min_ms := zero_ms;
     ss_avg_slowdown_ratio := zero_ms; ss_top_bottleneck_modality := None |}.

Definition count_bottleneck (counts : gmap Modality Z) (entry : SlowQueryEntry) : gmap Modality Z :=
  match se_bottleneck entry with
  | Some b => <[bi_modality b := u64_add (default 0 (counts !! bi_modality b)) 1]> counts
  | None => counts
  end.

(** [into_iter().max_by_key(|&(_, count)| count)]: the last of the largest. *)
Definition top_bottleneck {HI : HashIter Modality} (counts : gmap Modality Z) : option Modality :=
  match hash_iter (dom counts) with
  | [] => None
  | m :: ms =>
    let count_of m := default 0 (counts !! m) in
    Some (foldl (λ best m, if count_of m <? count_of best then best else m) m ms)
  end.

Definition summary {HI : HashIter Modality} (log : SlowQueryLog) : SlowQuerySummary :=
  let entries := sl_entries log in
  if decide (length entries = 0)%nat then SlowQuerySummary_default
  else
    let total := f64_of_Z (zlength entries) in
    let sum_ms := f64_sum (se_actual_ms <$> entries) in
    {| ss_total_count := length entries; ss_avg_ms := f64_div sum_ms total;
       ss_max_ms := foldl f64_max zero_ms (se_actual_ms <$> entries);
       ss_min_ms := foldl f64_min f64_infinity (se_actual_ms <$> entries);
       ss_avg_slowdown_ratio := f64_div (f64_sum (se_slowdown_ratio <$> entries)) total;
       ss_top_bottleneck_modality := top_bottleneck (foldl count_bottleneck ∅ entries) |}.

End slow_query.

Section profiler.
Context {CH : Chrono} {XD : FixedDisplay}.

(** ** Steps *)

Record ProfileStep := {
  pf_step_name : string; pf_modality : Modality; pf_estimated_ms : f64; pf_actual_ms : f64;
  pf_estimated_rows : Z; pf_actual_rows : Z; pf_started_at : DateTime; pf_ended_at : DateTime;
}.

Definition zero_time : f64 := S754_zero false.

Definition time_accuracy_ratio (s : ProfileStep) : f64 :=
  if f64_leb (pf_estimated_ms s) zero_time then f64_infinity
  else f64_div (pf_actual_ms s) (pf_estimated_ms s).

Definition row_accuracy_ratio (s : ProfileStep) : f64 :=
  if pf_estimated_rows s =? 0 then f64_infinity
  else f64_div (f64_of_Z (pf_actual_rows s)) (f64_of_Z (pf_estimated_rows s)).

(** ** Hints *)

Definition SLOW_THRESHOLD : f64 := f64_of_Z 2.
Definition FAST_THRESHOLD : f64 := f64_literal 5 1.
Definition ROW_OVER_THRESHOLD : f64 := f64_of_Z 3.
Definition ROW_UNDER_THRESHOLD : f64 := f64_literal 33 2.

Definition overall_hint (total_estimated_ms total_actual_ms : f64) : list string :=
  if f64_ltb zero_time total_estimated_ms then
    let overall_ratio := f64_div total_actual_ms total_estimated_ms in
    let figures :=
      f64_fixed 0 total_actual_ms +:+ "ms actual vs " +:+ f64_fixed 0 total_estimated_ms
        +:+ "ms estimated) — planner may be " in
    if f64_ltb SLOW_THRESHOLD overall_ratio then
      ["Query was " +:+ f64_fixed 1 overall_ratio +:+ "x slower than estimated (" +:+ figures
         +:+ "underestimating costs"]
    else if f64_ltb overall_ratio FAST_THRESHOLD then
      ["Query was " +:+ f64_fixed 1 overall_ratio +:+ "x faster than estimated (" +:+ figures
         +:+ "overestimating costs"]
    else []
  else [].

Definition step_title (s : ProfileStep) : string :=
  "Step '" +:+ pf_step_name s +:+ "' [" +:+ modality_display (pf_modality s) +:+ "]: ".

Definition time_hint (s : ProfileStep) : list string :=
  let time_ratio := time_accuracy_ratio s in
  let figures := f64_fixed 0 (pf_actual_ms s) +:+ "ms vs " +:+ f64_fixed 0 (pf_estimated_ms s)
                   +:+ "ms) — " in
  if f64_ltb SLOW_THRESHOLD time_ratio && f64_is_finite time_ratio then
    [step_title s +:+ f64_fixed 1 time_ratio +:+ "x slower than estimated (" +:+ figures
       +:+ "consider updating cost model for this modality"]
  else if f64_ltb time_ratio FAST_THRESHOLD then
    [step_title s +:+ f64_fixed 1 time_ratio +:+ "x faster than estimated (" +:+ figures
       +:+ "aggressive mode may be appropriate"]
  else [].

Definition row_hint (s : ProfileStep) : list string :=
  let row_ratio := row_accuracy_ratio s in
  let figures := pretty (pf_actual_rows s) +:+ " vs " +:+ pretty (pf_estimated_rows s)
                   +:+ ") — selectivity estimate may be " in
  if f64_ltb ROW_OVER_THRESHOLD row_ratio && f64_is_finite row_ratio then
    [step_title s +:+ "returned " +:+ f64_fixed 1 row_ratio +:+ "x more rows than estimated ("
       +:+ figures +:+ "too low"]
  else if f64_ltb row_ratio ROW_UNDER_THRESHOLD && (0 <? pf_estimated_rows s) then
    [step_title s +:+ "returned " +:+ f64_fixed 1 row_ratio +:+ "x fewer rows than estimated ("
       +:+ figures +:+ "too high"]
  else [].

Definition generate_hints (steps : list ProfileStep) (total_estimated_ms total_actual_ms : f64)
    : list string :=
  overall_hint total_estimated_ms total_actual_ms ++ (steps ≫= time_hint) ++ (steps ≫= row_hint).

(** ** Profiles *)

Record QueryProfile := {
  qp_plan_id : string; qp_steps : list ProfileStep; qp_total_estimated_ms : f64;
  qp_total_actual_ms : f64; qp_optimization_hints : list string;
}.

Definition total_time_accuracy_ratio (p : QueryProfile) : f64 :=
  if f64_leb (qp_total_estimated_ms p) zero_time then f64_infinity
  else f64_div (qp_total_actual_ms p) (qp_total_estimated_ms p).

Definition newline : string := String.String (Ascii.ascii_of_nat 10) "".

Definition render_step (i : nat) (s : ProfileStep) : string :=
  "  Step " +:+ pretty (i + 1)%nat +:+ ": " +:+ pf_step_name s +:+ " ["
    +:+ modality_display (pf_modality s) +:+ "]" +:+ newline +:+
  "    Estimated: " +:+ f64_fixed 1 (pf_estimated_ms s) +:+ "ms / ~"
    +:+ pretty (pf_estimated_rows s) +:+ " rows" +:+ newline +:+
  "    Actual:    " +:+ f64_fixed 1 (pf_actual_ms s) +:+ "ms / " +:+ pretty (pf_actual_rows s)
    +:+ " rows" +:+ newline +:+
  "    Time accuracy: " +:+ f64_fixed 2 (time_accuracy_ratio s) +:+ "x | Row accuracy: "
    +:+ f64_fixed 2 (row_accuracy_ratio s) +:+ "x" +:+ newline.

Definition render_text (p : QueryProfile) (explain : ExplainOutput) : string :=
  "=== VeriSimDB EXPLAIN ANALYZE ===" +:+ newline +:+ newline +:+
  "Plan ID: " +:+ qp_plan_id p +:+ newline +:+
  "Strategy: " +:+ eo_strategy explain +:+ newline +:+
  "Total Estimated: " +:+ f64_fixed 1 (qp_total_estimated_ms p) +:+ "ms | Total Actual: "
    +:+ f64_fixed 1 (qp_total_actual_ms p) +:+ "ms | Accuracy: "
    +:+ f64_fixed 2 (total_time_accuracy_ratio p) +:+ "x" +:+ newline +:+ newline +:+
  "--- Steps ---" +:+ newline +:+
  String.concat "" (imap render_step (qp_steps p)) +:+
  match qp_optimization_hints p with
  | [] => ""
  | hints => newline +:+ "--- Optimization Hints ---" +:+ newline +:+
             String.concat "" ((λ hint, "  * " +:+ hint +:+ newline) <$> hints)
  end.

Definition profile_display (p : QueryProfile) : string :=
  "QueryProfile(plan=" +:+ qp_plan_id p +:+ ", steps=" +:+ pretty (length (qp_steps p))
    +:+ ", estimated=" +:+ f64_fixed 1 (qp_total_estimated_ms p) +:+ "ms, actual="
    +:+ f64_fixed 1 (qp_total_actual_ms p) +:+ "ms)".

(** ** The profiler *)

Record Profiler := {
  pr_plan_id : string; pr_plan : PhysicalPlan; pr_recorded_steps : list (option ProfileStep);
}.

Definition Profiler_new (plan_id : string) (plan : PhysicalPlan) : Profiler :=
  {| pr_plan_id := plan_id; pr_plan := plan;
     pr_recorded_steps := replicate (length (pp_steps plan)) None |}.

(** The figures of a step of the plan. *)
Definition profile_of (plan_step : PlanStep) (actual_ms : f64) (actual_rows : Z)
    (started_at ended_at : DateTime) : ProfileStep :=
  {| pf_step_name := ps_operation plan_step; pf_modality := ps_modality plan_step;
     pf_estimated_ms := time_ms (ps_cost plan_step); pf_actual_ms := actual_ms;
     pf_estimated_rows := estimated_rows (ps_cost plan_step); pf_actual_rows := actual_rows;
     pf_started_at := started_at; pf_ended_at := ended_at |}.

(** [None] is the documented panic: the plan has no such step. *)
Definition record_step (step_index : nat) (actual_ms : f64) (actual_rows : Z)
    (started_at ended_at : DateTime) (p : Profiler) : option Profiler :=
  plan_step ← pp_steps (pr_plan p) !! step_index;
  Some {| pr_plan_id := pr_plan_id p; pr_plan := pr_plan p;
          pr_recorded_steps :=
            <[step_index := Some (profile_of plan_step actual_ms actual_rows started_at ended_at)]>
              (pr_recorded_steps p) |}.

(** The step at an index: as recorded, or with zero actuals.  [None]: the index is out of the
    plan, which does not happen. *)
Definition finished_step (now : DateTime) (plan : PhysicalPlan) (i : nat)
    (recorded : option ProfileStep) : option ProfileStep :=
  match recorded with
  | Some s => Some s
  | None => (λ plan_step, profile_of plan_step zero_time 0 now now) <$> pp_steps plan !! i
  end.

Definition finish (now : DateTime) (p : Profiler) (stats : StatisticsCollector)
    : option (QueryProfile * StatisticsCollector) :=
  steps ← mapM (M := option) (A := option ProfileStep) (λ s, s)
            (imap (finished_step now (pr_plan p)) (pr_recorded_steps p));
  let stats := foldl (λ st s, record_execution now (pf_modality s) (pf_actual_ms s)
                                (pf_actual_rows s) st) stats steps in
  let total_estimated_ms := f64_sum (pf_estimated_ms <$> steps) in
  let total_actual_ms := f64_sum (pf_actual_ms <$> steps) in
  Some ({| qp_plan_id := pr_plan_id p; qp_steps := steps;
           qp_total_estimated_ms := total_estimated_ms; qp_total_actual_ms := total_actual_ms;
           qp_optimization_hints := generate_hints steps total_estimated_ms total_actual_ms |},
        stats).

(** ** EXPLAIN ANALYZE *)

Record ExplainAnalyzeOutput := {
  ea_explain : ExplainOutput; ea_profile : QueryProfile; ea_combined_hints : list PerformanceHint;
  ea_text_output : string;
}.

Definition with_profile (profile : QueryProfile) (explain : ExplainOutput) : ExplainAnalyzeOutput :=
  {| ea_explain := explain; ea_profile := profile;
     ea_combined_hints := eo_performance_hints explain ++
       ((λ hint_text, {| ph_severity := "analyze"; ph_message := hint_text |})
          <$> qp_optimization_hints profile);
     ea_text_output := render_text profile explain |}.

End profiler.
