(* ===== verification/ProfilerSpec.v ===== *)
(** * Slow queries and profiles

    The slow-query log is the window of the last entries whatever the interleaving; an entry
    names the slowest step; and a profile has a figure for every step of its plan. *)

From S2P Require Import Prelude Floats Plan Optimizer Profiler.
Local Open Scope Z_scope.

(** ** The log under concurrent calls *)

Section slow_queries.
Context {CH : Chrono}.

Record slow_run := {
  sr_log : SlowQueryLog;
  sr_pending : list (SlowQueryEntry * nat);   (** decided, not appended yet *)
  sr_pushed : list (SlowQueryEntry * nat);    (** appended since the last [clear] *)
}.

Inductive slow_step : slow_run → slow_run → Prop :=
| step_decide now text actual plan times e u :
  decide_entry now text actual plan times (sl_config (sr_log u)) = Some e →
  slow_step u {| sr_log := sr_log u; sr_pending := e :: sr_pending u; sr_pushed := sr_pushed u |}
| step_push p1 e p2 u :
  sr_pending u = p1 ++ e :: p2 →
  slow_step u {| sr_log := push_entry e.1 e.2 (sr_log u); sr_pending := p1 ++ p2;
                 sr_pushed := sr_pushed u ++ [e] |}
| step_clear u :
  slow_step u {| sr_log := clear (sr_log u); sr_pending := sr_pending u; sr_pushed := [] |}
| step_set_config config u :
  slow_step u {| sr_log := set_config config (sr_log u); sr_pending := sr_pending u;
                 sr_pushed := sr_pushed u |}.

Definition slow_start (config : SlowQueryConfig) : slow_run :=
  {| sr_log := SlowQueryLog_new config; sr_pending := []; sr_pushed := [] |}.

(** A call that is not interrupted is the two steps in a row. *)
Lemma record_decides now text actual plan times log :
  record now text actual plan times log =
  match decide_entry now text actual plan times (sl_config log) with
  | None => (false, log)
  | Some e => (true, push_entry e.1 e.2 log)
  end.
Proof. unfold record. by destruct (decide_entry _ _ _ _ _ _) as [[]|]. Qed.

(** The most recent entries, as many as the last call was allowed to leave; with a constant
    bound, exactly the window of that size. *)
Definition window_inv (u : slow_run) : Prop :=
  (∃ k, sl_entries (sr_log u) = drop k (sr_pushed u).*1) ∧
  (∀ e n, last (sr_pushed u) = Some (e, n) → (length (sl_entries (sr_log u)) ≤ n)%nat) ∧
  (∀ n, Forall (λ p, p.2 = n) (sr_pushed u) →
    sl_entries (sr_log u) = drop (length (sr_pushed u) - n) (sr_pushed u).*1).

Lemma drop_snoc_window {A : Type} (l : list A) (x : A) (k n : nat) :
  let l' := drop k l ++ [x] in
  ∃ k', drop (length l' - n) l' = drop k' (l ++ [x]).
Proof.
  cbn. destruct (decide (k ≤ length l)%nat).
  - rewrite <- (drop_app_le _ [x]) by done. rewrite drop_drop. by eexists.
  - assert (drop k l = []) as -> by (apply drop_ge; lia). cbn [app length].
    exists (length l + (1 - n))%nat. rewrite drop_app_ge by lia. f_equal. lia.
Qed.

Lemma slow_step_inv u u' : window_inv u → slow_step u u' → window_inv u'.
Proof.
  intros ([k Hk] & Hlast & Hwin) Hstep.
  destruct Hstep as [now text actual plan times e u _|p1 [e n] p2 u _|u|config u];
    unfold window_inv; cbn [sr_log sr_pushed push_entry sl_entries clear set_config fst snd].
  - by split_and!; [exists k|..].
  - split_and!.
    + rewrite Hk, fmap_app. destruct (drop_snoc_window (sr_pushed u).*1 e k n) as [k' Hk'].
      exists k'. exact Hk'.
    + intros e' n'. rewrite last_snoc. intros [= <- <-]. rewrite length_drop. lia.
    + intros n' [Hall Hn]%Forall_app. apply (proj1 (Forall_singleton _ _)) in Hn. cbn in Hn. subst n'.
      rewrite (Hwin n Hall), fmap_app, !length_app, length_drop, length_fmap. cbn [length fmap list_fmap].
      rewrite <- (drop_app_le _ [e]) by (rewrite length_fmap; lia). rewrite drop_drop.
      f_equal. lia.
  - split_and!; [by exists 0%nat|done|done].
  - by split_and!; [exists k|..].
Qed.

(** Whatever the calls and however they interleave, the log holds the most recent of the
    entries appended since it was last cleared, in order, and no more than the last call was
    allowed to leave; while the bound does not change it is exactly that window. *)
Theorem slow_log_window (config : SlowQueryConfig) (u : slow_run) :
  rtc slow_step (slow_start config) u →
  (∃ k, all (sr_log u) = drop k (sr_pushed u).*1) ∧
  (∀ e n, last (sr_pushed u) = Some (e, n) → (count (sr_log u) ≤ n)%nat) ∧
  (∀ n, Forall (λ p, p.2 = n) (sr_pushed u) → ∀ k,
    recent k (sr_log u) = take k (take n (reverse (sr_pushed u).*1))).
Proof.
  intros Hsteps. assert (window_inv u) as (Hk & Hlast & Hwin).
  { assert (window_inv (slow_start config)) as Hs by (split_and!; [by exists 0%nat|done|done]).
    revert Hs. induction Hsteps; [done|]. eauto using slow_step_inv. }
  split_and!; [done|done|]. intros n Hn k. unfold recent. rewrite (Hwin n Hn). f_equal.
  by rewrite take_reverse, length_fmap.
Qed.

(** ** What is logged *)

(** An execution is logged exactly when logging is on and it took the threshold or longer
    (never when its time is NaN) or touched enough modalities; the entry has the modalities
    of the plan in order, and its bottleneck is a step that no other step outlasted. *)
Theorem slow_entry_exact (now : DateTime) (text : option string) (actual : f64)
    (plan : PhysicalPlan) (times : list (Modality * f64 * Z)) (config : SlowQueryConfig) :
  (is_Some (decide_entry now text actual plan times config) ↔
   sq_enabled config = true ∧
   (f64_leb (sq_threshold_ms config) actual = true ∨
    0 < sq_multi_modality_threshold config ≤ length (pp_steps plan))%nat) ∧
  ∀ e n, decide_entry now text actual plan times config = Some (e, n) →
    n = sq_max_entries config ∧ se_actual_ms e = actual ∧
    se_modalities e = ps_modality <$> pp_steps plan ∧
    (times = [] → se_bottleneck e = None) ∧
    (times ≠ [] → Forall (λ x, f64_is_nan x.1.2 = false) times →
     ∃ b rows, se_bottleneck e = Some b ∧ (bi_modality b, bi_time_ms b, rows) ∈ times ∧
       ∀ m t r, (m, t, r) ∈ times → f64_leb t (bi_time_ms b) = true).
Proof.
  unfold decide_entry. set (multi := (0 <? _)%nat && _).
  assert (multi = true ↔
    (0 < sq_multi_modality_threshold config ≤ length (pp_steps plan))%nat) as Hmulti
    by (unfold multi; by rewrite andb_true_iff, Nat.ltb_lt, Nat.leb_le).
  split.
  - destruct (sq_enabled config); cbn [negb]; [|by split; [intros []|intros []]].
    destruct (f64_leb (sq_threshold_ms config) actual); cbn [negb andb].
    { split; [intros _; split; [done|by left]|by eexists]. }
    rewrite <- Hmulti. destruct multi; cbn [negb].
    + split; [intros _; split; [done|by right]|by eexists].
    + split; [by intros []|by intros [_ []]].
  - intros e n. destruct (negb (sq_enabled config)); [done|].
    destruct (negb _ && negb multi); [done|]. intros [= <- <-]. split_and!; try done.
    + by intros ->.
    + intros Hne Hn. cbn [se_bottleneck]. unfold bottleneck_of.
      destruct (max_by_float_spec (λ x, x.1.2) times Hne Hn) as ([[m t] r] & -> & Hin & Hall).
      eexists _, r. split; [done|]. split; [done|]. intros m' t' r' Hin'.
      rewrite Forall_forall in Hall. exact (Hall _ Hin').
Qed.

(** The modality reported as the most common bottleneck is one, in whatever order the counts
    are iterated. *)
Lemma top_bottleneck_largest {HI : HashIter Modality} (counts : gmap Modality Z) m :
  top_bottleneck counts = Some m →
  m ∈ dom counts ∧ ∀ m', m' ∈ dom counts → default 0 (counts !! m') ≤ default 0 (counts !! m).
Proof.
  unfold top_bottleneck. destruct (hash_iter (dom counts)) as [|m0 ms] eqn:Hit; [done|].
  intros [= <-]. setoid_rewrite <- elem_of_hash_iter. rewrite Hit. clear Hit.
  revert m0. induction ms as [|x ms IH]; intros m0; cbn [foldl].
  { split; [by left|]. intros m' [->|[]%elem_of_nil]%elem_of_cons. done. }
  destruct (Z.ltb_spec (default 0 (counts !! x)) (default 0 (counts !! m0))).
  - destruct (IH m0) as [Hin Hall]. split; [set_solver|]. intros m' Hm'.
    apply elem_of_cons in Hm' as [->|[->|Hm']%elem_of_cons]; [apply Hall; by left| |apply Hall; by right].
    transitivity (default 0 (counts !! m0)); [lia|]. apply Hall. by left.
  - destruct (IH x) as [Hin Hall]. split; [set_solver|]. intros m' Hm'.
    apply elem_of_cons in Hm' as [->|Hm']; [|by apply Hall].
    transitivity (default 0 (counts !! x)); [lia|]. apply Hall. by left.
Qed.

End slow_queries.

(** ** Profiles *)

Section profiles.
Context {CH : Chrono} {XD : FixedDisplay}.

Definition figures : Type := nat * f64 * Z * DateTime * DateTime.

Definition record_figures (p : Profiler) (c : figures) : option Profiler :=
  let '(i, ms, rows, s, e) := c in record_step i ms rows s e p.

(** The figures of the last call for step [i]. *)
Definition last_figures (i : nat) (calls : list figures) : option figures :=
  last (filter (λ c, c.1.1.1.1 = i) calls).

Definition step_figures (now : DateTime) (ps : PlanStep) (i : nat) (calls : list figures)
    : ProfileStep :=
  match last_figures i calls with
  | Some (_, ms, rows, s, e) => profile_of ps ms rows s e
  | None => profile_of ps zero_time 0 now now
  end.

Definition record_calls (p : Profiler) (calls : list figures) : option Profiler :=
  foldl (λ op c, op ≫= λ p, record_figures p c) (Some p) calls.

Lemma record_step_panics i ms rows s e p :
  record_step i ms rows s e p = None ↔ (length (pp_steps (pr_plan p)) ≤ i)%nat.
Proof.
  unfold record_step. rewrite <- lookup_ge_None. by destruct (pp_steps (pr_plan p) !! i).
Qed.

Lemma last_figures_snoc i calls c :
  last_figures i (calls ++ [c]) =
  if decide (c.1.1.1.1 = i) then Some c else last_figures i calls.
Proof.
  unfold last_figures. rewrite filter_app, filter_cons. case_decide; cbn.
  - by rewrite last_snoc.
  - by rewrite app_nil_r.
Qed.

Definition recorded_inv (id : string) (plan : PhysicalPlan) (calls : list figures) (p : Profiler)
    : Prop :=
  pr_plan_id p = id ∧ pr_plan p = plan ∧
  length (pr_recorded_steps p) = length (pp_steps plan) ∧
  ∀ i ps, pp_steps plan !! i = Some ps → pr_recorded_steps p !! i = Some
    match last_figures i calls with
    | Some (_, ms, rows, s, e) => Some (profile_of ps ms rows s e)
    | None => None
    end.

Lemma record_calls_inv id plan calls p :
  record_calls (Profiler_new id plan) calls = Some p → recorded_inv id plan calls p.
Proof.
  revert p. induction calls as [|c calls IH] using rev_ind; intros p.
  - intros [= <-]. split_and!; [done|done|apply length_replicate|].
    intros i ps Hi. cbn. rewrite lookup_replicate_2; [done|]. by eapply lookup_lt_Some.
  - unfold record_calls. rewrite foldl_app. cbn [foldl]. fold (record_calls (Profiler_new id plan) calls).
    intros (p' & Hp' & Hc)%bind_Some. destruct (IH _ Hp') as (Hid & Hplan & Hlen & Hall).
    destruct c as [[[[i ms] rows] s] e]. unfold record_figures, record_step in Hc.
    rewrite Hplan in Hc. apply bind_Some in Hc as (ps & Hps & [= <-]).
    split_and!; [done|done|cbn; by rewrite length_insert|]. intros j ps' Hj. cbn [pr_recorded_steps].
    rewrite last_figures_snoc. cbn [fst]. case_decide as Hij; [subst j|].
    + rewrite list_lookup_insert_eq by (rewrite Hlen; by eapply lookup_lt_Some). congruence.
    + rewrite list_lookup_insert_ne by done. by rewrite (Hall _ _ Hj).
Qed.

Lemma mapM_imap {A : Type} (g : nat → option A → option A) (l : list (option A)) (k : list A) :
  length k = length l → (∀ i x, l !! i = Some x → g i x = k !! i) →
  mapM (M := option) (λ s, s) (imap g l) = Some k.
Proof.
  revert g k. induction l as [|x l IH]; intros g [|y k] Hl Hg; try done.
  cbn. rewrite (Hg 0%nat x eq_refl). cbn. injection Hl as Hl.
  rewrite (IH (g ∘ S) k Hl); [done|]. intros i z Hz. exact (Hg (S i) z Hz).
Qed.

Lemma finish_recorded (now : DateTime) (id : string) (plan : PhysicalPlan)
    (calls : list figures) (p : Profiler) (stats : StatisticsCollector) :
  record_calls (Profiler_new id plan) calls = Some p →
  ∃ steps,
    length steps = length (pp_steps plan) ∧
    (∀ i ps, pp_steps plan !! i = Some ps → steps !! i = Some (step_figures now ps i calls)) ∧
    finish now p stats = Some
      ({| qp_plan_id := id; qp_steps := steps;
          qp_total_estimated_ms := f64_sum (pf_estimated_ms <$> steps);
          qp_total_actual_ms := f64_sum (pf_actual_ms <$> steps);
          qp_optimization_hints := generate_hints steps (f64_sum (pf_estimated_ms <$> steps))
                                     (f64_sum (pf_actual_ms <$> steps)) |},
       foldl (λ st s, record_execution now (pf_modality s) (pf_actual_ms s) (pf_actual_rows s) st)
         stats steps).
Proof.
  intros Hcalls. destruct (record_calls_inv id plan calls p Hcalls) as (Hid & Hplan & Hlen & Hall).
  exists (imap (λ i ps, step_figures now ps i calls) (pp_steps plan)).
  split_and!.
  - apply length_imap.
  - intros i ps Hi. by rewrite list_lookup_imap, Hi.
  - unfold finish. rewrite Hplan, Hid.
    rewrite (mapM_imap _ _ (imap (λ i ps, step_figures now ps i calls) (pp_steps plan))); [done| |].
    + by rewrite length_imap.
    + intros i x Hx. rewrite list_lookup_imap.
      destruct (pp_steps plan !! i) as [ps|] eqn:Hps.
      * rewrite (Hall _ _ Hps) in Hx. injection Hx as <-. unfold step_figures, finished_step. cbn.
        destruct (last_figures i calls) as [[[[[? ?] ?] ?] ?]|]; [done|]. by rewrite Hps.
      * apply lookup_ge_None in Hps. apply lookup_lt_Some in Hx. lia.
Qed.

(** A profile has one entry for every step of its plan, in order: the figures last recorded
    for it, or zeros; and the statistics learn exactly these entries, in that order. *)
Theorem profile_complete (now : DateTime) (id : string) (plan : PhysicalPlan)
    (calls : list figures) (p : Profiler) (stats : StatisticsCollector) :
  record_calls (Profiler_new id plan) calls = Some p →
  ∃ steps,
    length steps = length (pp_steps plan) ∧
    (∀ i ps, pp_steps plan !! i = Some ps → steps !! i = Some (step_figures now ps i calls)) ∧
    finish now p stats = Some
      ({| qp_plan_id := id; qp_steps := steps;
          qp_total_estimated_ms := f64_sum (pf_estimated_ms <$> steps);
          qp_total_actual_ms := f64_sum (pf_actual_ms <$> steps);
          qp_optimization_hints := generate_hints steps (f64_sum (pf_estimated_ms <$> steps))
                                     (f64_sum (pf_actual_ms <$> steps)) |},
       foldl (λ st s, record_execution now (pf_modality s) (pf_actual_ms s) (pf_actual_rows s) st)
         stats steps).
Proof. apply finish_recorded. Qed.

End profiles.
