(* ===== verification/PlannerExamples.v ===== *)
(** * The planner on concrete inputs

    Witnesses of the theorems of [Optimizer.v], [VqlBridge.v], [PlanCacheSpec.v] and
    [ProfilerSpec.v], a tuner that never settles, and an index entry that outlives its
    statement. *)

From S2P Require Import Prelude Floats Plan Optimizer VqlBridge PlanCache PlanCacheSpec Profiler ProfilerSpec.
From Stdlib Require String Ascii.
From Stdlib Require Import Strings.Byte.
From Stdlib Require Import SpecFloat.
Local Open Scope Z_scope.

(** ** ASCII text *)

Definition ascii_map (lo hi : N) (f : N → N) (a : Ascii.ascii) : Ascii.ascii :=
  let n := Ascii.N_of_ascii a in
  if ((lo <=? n) && (n <=? hi))%N then Ascii.ascii_of_N (f n) else a.

Fixpoint string_map (f : Ascii.ascii → Ascii.ascii) (s : string) : string :=
  match s with
  | String.EmptyString => String.EmptyString
  | String.String a s => String.String (f a) (string_map f s)
  end.

Definition ascii_unicode : Unicode :=
  {| str_uppercase := string_map (ascii_map 97 122 (λ n, n - 32)%N);
     str_lowercase := string_map (ascii_map 65 90 (λ n, n + 32)%N);
     split_whitespace := λ s, filter (λ t, t ≠ "") (split_on space s) |}.

Lemma split_on_pieces s t : t ∈ split_on space s → spaceless t.
Proof.
  revert t. induction s as [|a s IH]; intros t; cbn.
  - intros ->%list_elem_of_singleton. apply not_elem_of_nil.
  - case_decide as Ha.
    + intros [->|Ht]%elem_of_cons; [apply not_elem_of_nil|by apply IH].
    + destruct (split_on space s) as [|p ps].
      * intros ->%list_elem_of_singleton. intros [?|[]%elem_of_nil]%elem_of_cons. congruence.
      * intros [->|Ht]%elem_of_cons; [|apply IH; by right].
        intros [?|Hp]%elem_of_cons; [congruence|]. by apply (IH p); [left|].
Qed.

Lemma spaceless_map f s :
  (∀ a, f a = space → a = space) → spaceless s → spaceless (string_map f s).
Proof.
  intros Hf. unfold spaceless. induction s as [|a s IH]; [done|]. cbn.
  intros [Ha Hs]%not_elem_of_cons [?|?]%elem_of_cons; [|by apply IH].
  apply Ha. symmetry. by apply Hf.
Qed.

Definition ascii_laws : @UnicodeLaws ascii_unicode.
Proof.
  split.
  - intros s t [Hne Ht]%list_elem_of_filter. split; [done|by apply (split_on_pieces s)].
  - intros t. apply spaceless_map. intros a.
    assert (∀ a, bool_decide (ascii_map 65 90 (λ n, n + 32)%N a = space) = bool_decide (a = space)) as H
      by (intros []; repeat match goal with b : bool |- _ => destruct b end; reflexivity).
    specialize (H a). intros Hs. rewrite bool_decide_true in H by done. symmetry in H. by apply bool_decide_eq_true in H.
  - by intros [].
  - done.
Defined.

Definition ascii_char : UnicodeChar :=
  {| is_alphanumeric := λ c,
       match c with
       | String.String a _ =>
         let n := Ascii.N_of_ascii a in
         (((48 <=? n) && (n <=? 57)) || ((65 <=? n) && (n <=? 90)) || ((97 <=? n) && (n <=? 122)))%N
       | String.EmptyString => false
       end |}.

(** A digest for short texts. *)
Definition small_sha256 : Sha256 :=
  {| sha256 := λ l, Vector.const (default x00 (Byte.of_N (foldl (λ a b, (31 * a + Byte.to_N b) mod 256) 7 l)%N)) 32 |}.

#[local] Existing Instance ascii_unicode.
#[local] Existing Instance ascii_char.
#[local] Existing Instance small_sha256.
#[local] Existing Instance milli_chrono.
#[local] Instance px_names : HashIter string := elements_iter string.
Definition px_older (now created ttl : Z) : bool := 1000 * ttl <? now - created.

#[local] Instance px_duration : ChronoDuration (H := milli_chrono) := {| older_than := px_older |}.

Definition at_ms (z : Z) : DateTime (Chrono := milli_chrono) := z.

(** ** Statistics *)

(** Ten queries of 75 ms each on the temporal store, which is estimated at 30 ms. *)
Definition px_stats : StatisticsCollector :=
  record_queries Temporal (StatisticsCollector_new (at_ms 0))
    (replicate 10 (at_ms 1, f64_of_Z 75, 4)).

(** The tuner compares the latency with the estimate of the mode it chose last: it finds 75 ms
    too long for the balanced estimate of 30 ms and fine for the conservative one of 45 ms, so
    it leaves the conservative mode as soon as it is in it, and back again. *)
Example tuner_oscillates :
  let tune := tuner_apply AdaptiveTuner_new px_stats in
  let config := PlannerConfig_default in
  mode_for Temporal (tune config) = Conservative ∧
  mode_for Temporal (tune (tune config)) = Balanced ∧
  mode_for Temporal (tune (tune (tune config))) = Conservative.
Proof. vm_compute. done. Qed.

Lemma row_average_sticks_witness :
  let qs := replicate 3 (at_ms 1, f64_of_Z 75, 9) in
  st_avg_rows_returned <$> stats_get Document
    (record_queries Document
       (record_execution (at_ms 0) Document (f64_of_Z 5) 0 (StatisticsCollector_new (at_ms 0))) qs)
  = Some 0.
Proof.
  intros qs. apply (row_average_sticks Document (StatisticsCollector_new (at_ms 0)) (at_ms 0) (f64_of_Z 5) qs).
  - vm_compute. reflexivity.
  - vm_compute. reflexivity.
  - repeat constructor; lia.
Defined.

(** ** Conditions *)

#[local] Instance px_number : SerdeNumber :=
  {| Number := Z + f64;
     as_f64 := λ n, Some (match n with inl z => f64_of_Z z | inr x => x end);
     as_u64 := λ n, match n with inl z => if decide (0 ≤ z < 2 ^ 64) then Some z else None
                    | inr _ => None end |}.

(** A record with the fields [modality] and [field]. *)
#[local] Instance px_derive : SerdeDerive :=
  {| field_ref_from_value := λ v,
       match v with
       | JObject fields =>
         m ← match json_get "modality" fields with
             | None | Some JNull => Ok None
             | Some v => Some <$> modality_from_value v
             end;
         f ← ok_or (missing_field "field") (json_get "field" fields ≫= as_str);
         Ok {| fr_modality := m; fr_field := f |}
       | _ => Err (invalid_type "struct VqlFieldRef")
       end;
     de_to_string := λ _, "error" |}.

#[local] Instance px_encode : VqlEncode :=
  {| enc_f64 := λ x, inr x : Number (SerdeNumber := px_number);
     enc_u64 := λ z, inl z : Number (SerdeNumber := px_number);
     enc_ref := λ f, JObject (match fr_modality f with
       | Some m => [("modality", enc_modality m)] | None => [] end ++ [("field", JString (fr_field f))]) |}.

#[local] Instance px_encode_laws : VqlEncodeLaws px_encode.
Proof.
  split; [done| |by intros [[[]|] f]].
  intros z Hz. cbn. by rewrite decide_True.
Defined.

Definition px_condition : VqlCondition :=
  And (Not (Simple (ModalityDrift VVector (f64_literal 3 1))))
      (Simple (FieldCondition {| fr_modality := Some VGraph; fr_field := "name" |} "=" (JString "x"))).

Lemma parse_condition_roundtrip_witness :
  encodable px_condition ∧ parse_condition (enc_condition px_condition) = Ok px_condition.
Proof.
  assert (encodable px_condition) as H by (split; vm_compute; [reflexivity|exact I]).
  split; [exact H|exact (parse_condition_roundtrip px_condition H)].
Defined.

(** ** The cache *)

Definition px_config : CacheConfig :=
  {| cfg_max_entries := 1; cfg_ttl_seconds := 60; cfg_enable_plan_cache := true;
     cfg_enable_result_cache := false; cfg_max_result_cache_bytes := 0 |}.

Definition px_plan : LogicalPlan := {| lp_source := SHexad; lp_nodes := []; lp_post_processing := [] |}.

Definition px_query : string := "SEARCH graph WHERE a = $x".

Definition px_cache : PlanCache := prepare_insert px_query px_plan (at_ms 5) (PlanCache_new px_config).

Lemma px_reachable : reachable px_config px_cache.
Proof. apply rtc_once. apply step_insert. Qed.

Lemma plan_cache_invariant_witness :
  reachable px_config px_cache ∧
  (lookup_by_query px_query px_cache).1 = Some (fingerprint px_query) ∧
  (size (statements px_cache) ≤ 1)%nat.
Proof.
  split; [exact px_reachable|].
  destruct (plan_cache_invariant px_config px_cache px_reachable) as (Hsize & Hfiled & _).
  split; [|exact Hsize].
  assert (match statements px_cache !! fingerprint px_query with
          | Some s => bool_decide (pr_original_query s = px_query) | None => false end = true) as Hb
    by (vm_compute; reflexivity).
  destruct (statements px_cache !! fingerprint px_query) as [s|] eqn:Hs; [|discriminate].
  apply bool_decide_eq_true in Hb. destruct (Hfiled _ _ Hs) as (_ & _ & _ & Hl). by rewrite Hb in Hl.
Defined.

Lemma insert_evicts_lru_witness :
  let c := prepare_insert "SELECT b" px_plan (at_ms 9) px_cache in
  statements c !! fingerprint px_query = None ∧ is_Some (statements c !! fingerprint "SELECT b").
Proof.
  intros c.
  pose proof (insert_evicts_lru (CL := milli_chrono_laws) px_config px_cache "SELECT b" px_plan (at_ms 9)
    px_reachable) as H. cbv zeta in H.
  match type of H with
  | if ?full then _ else _ => assert (full = false) as Hfull by (vm_compute; reflexivity)
  end.
  rewrite Hfull in H. destruct H as (old & s & Hold & _ & Hst & _).
  assert (statements px_cache = {[fingerprint px_query := new_statement px_query px_plan (at_ms 5)]})
    as Hone by reflexivity.
  rewrite Hone in Hold. apply lookup_singleton_Some in Hold as [Hid _].
  change (statements c) with (statements (prepare_insert "SELECT b" px_plan (at_ms 9) px_cache)).
  rewrite Hst, <- Hid. assert (fingerprint "SELECT b" ≠ fingerprint px_query) as Hne
    by (apply (bool_decide_unpack _); vm_compute; exact I).
  split; [rewrite lookup_insert_ne by exact Hne; apply lookup_delete_eq|].
  rewrite lookup_insert_eq. by eexists.
Defined.

Lemma execute_outcome_witness :
  (execute_prepared (fingerprint px_query) {["$x" := 1]} (at_ms 70000) px_cache).1
  = Err (Expired (fingerprint px_query)) ∧
  is_expired (at_ms 70000) px_config (new_statement px_query px_plan (at_ms 5)) = true.
Proof.
  pose proof (execute_outcome px_config px_cache (fingerprint px_query) {["$x" := 1]} (at_ms 70000)
    px_reachable) as H.
  assert (match execute_prepared (fingerprint px_query) {["$x" := 1]} (at_ms 70000) px_cache with
          | (Err (Expired _), _) => true | _ => false end = true) as Hb by (vm_compute; reflexivity).
  destruct (execute_prepared (fingerprint px_query) {["$x" := 1]} (at_ms 70000) px_cache)
    as [[s|[]] c']; try discriminate Hb.
  destruct H as (-> & (s & Hs & He) & _). split; [reflexivity|].
  assert (statements px_cache !! fingerprint px_query = Some (new_statement px_query px_plan (at_ms 5)))
    as Hs' by reflexivity.
  rewrite Hs' in Hs. injection Hs as <-. exact He.
Defined.

Lemma expired_prepare_useless_witness :
  let '(id, c') := prepare px_query px_plan (at_ms 70000) px_cache in
  (cache_get id (at_ms 70000) c').1 = None ∧
  (execute_prepared id (∅ : gmap string Z) (at_ms 70000) c').1 = Err (Expired id).
Proof.
  exact (expired_prepare_useless px_query px_plan (at_ms 70000) px_cache
    (new_statement px_query px_plan (at_ms 5)) (∅ : gmap string Z) eq_refl eq_refl).
Defined.

(** Executing an expired statement removes it and leaves its entry in the index: looking the
    query up then gives an identifier that is not in the cache. *)
Example expired_index_dangles :
  let c := (execute_prepared (fingerprint px_query) (∅ : gmap string Z) (at_ms 70000) px_cache).2 in
  (lookup_by_query px_query c).1 = Some (fingerprint px_query) ∧
  statements c !! fingerprint px_query = None.
Proof. vm_compute. done. Qed.

Lemma fingerprint_exact_witness :
  tokens "select  *  from t" = tokens "SELECT * FROM t" ∧
  fingerprint "select  *  from t" = fingerprint "SELECT * FROM t".
Proof.
  assert (tokens "select  *  from t" = tokens "SELECT * FROM t") as H by (vm_compute; reflexivity).
  split; [exact H|].
  exact (proj1 (fingerprint_exact (UL := ascii_laws) "select  *  from t" "SELECT * FROM t") H).
Defined.

(** ** Slow queries and profiles on concrete inputs

    A log of two entries that three executions go through, and a profile of a plan of two
    steps of which one is recorded twice and the other not at all. *)

#[local] Existing Instance milli_chrono.

(** Text that does not matter. *)
Definition no_fixed : FixedDisplay := {| f64_fixed := λ _ _, "x" |}.
#[local] Existing Instance no_fixed.

Definition moment (z : Z) : DateTime := z.

Definition cost_of (ms rows : Z) : CostEstimate :=
  {| time_ms := f64_of_Z ms; estimated_rows := rows; selectivity := f64_of_Z 1;
     io_cost := f64_of_Z 0; cpu_cost := f64_of_Z 0 |}.

Definition plan_step (i : nat) (m : Modality) (ms rows : Z) : PlanStep :=
  {| ps_step := i; ps_operation := "scan"; ps_modality := m; ps_cost := cost_of ms rows;
     ps_optimization_hint := None; ps_pushed_predicates := [] |}.

Definition two_steps : PhysicalPlan :=
  {| pp_steps := [plan_step 0 Graph 10 5; plan_step 1 Vector 20 7]; pp_strategy := Parallel;
     pp_total_cost := cost_of 20 7; pp_notes := [] |}.

Definition small_log : SlowQueryConfig :=
  {| sq_threshold_ms := f64_of_Z 100; sq_max_entries := 2; sq_enabled := true;
     sq_multi_modality_threshold := 0 |}.

Definition times_of (ms : Z) : list (Modality * f64 * Z) :=
  [(Graph, f64_of_Z 30, 3); (Vector, f64_of_Z ms, 4)].

Definition took (ms : Z) : option (SlowQueryEntry * nat) :=
  decide_entry (moment ms) None (f64_of_Z ms) two_steps (times_of ms) small_log.

Definition took_or (ms : Z) : SlowQueryEntry * nat :=
  match took ms with
  | Some e => e
  | None => ({| se_timestamp := moment 0; se_query_text := None; se_actual_ms := f64_of_Z 0;
                se_estimated_ms := f64_of_Z 0; se_slowdown_ratio := f64_of_Z 0;
                se_strategy := ""; se_modalities := []; se_rows_returned := 0;
                se_bottleneck := None |}, 0%nat)
  end.

Example fast_is_not_logged : took 99 = None.
Proof. vm_compute. reflexivity. Qed.
Example slow_is_logged :
  (λ e, (bi_modality <$> se_bottleneck e.1, se_rows_returned e.1, e.2)) <$> took 100 =
  Some (Some Vector, 7, 2%nat).
Proof. vm_compute. reflexivity. Qed.

(** Two calls decide, the second appends first; a third call goes through undisturbed. *)
Definition three_slow : slow_run :=
  {| sr_log := {| sl_config := small_log; sl_entries := [(took_or 150).1; (took_or 300).1] |};
     sr_pending := []; sr_pushed := [took_or 200; took_or 150; took_or 300] |}.

Lemma took_slow ms : is_Some (took ms) → took ms = Some (took_or ms).
Proof. unfold took_or. by intros [? ->]. Qed.

Lemma three_slow_reachable : rtc slow_step (slow_start small_log) three_slow.
Proof.
  eapply rtc_l.
  { apply (step_decide (moment 150) None (f64_of_Z 150) two_steps (times_of 150) (took_or 150)). apply took_slow. by eexists. }
  eapply rtc_l.
  { apply (step_decide (moment 200) None (f64_of_Z 200) two_steps (times_of 200) (took_or 200)). apply took_slow. by eexists. }
  eapply rtc_l; [apply (step_push [] (took_or 200) [took_or 150]); reflexivity|].
  eapply rtc_l; [apply (step_push [] (took_or 150) []); reflexivity|].
  eapply rtc_l.
  { apply (step_decide (moment 300) None (f64_of_Z 300) two_steps (times_of 300) (took_or 300)). apply took_slow. by eexists. }
  eapply rtc_l; [apply (step_push [] (took_or 300) []); reflexivity|].
  vm_compute. apply rtc_refl.
Qed.

Lemma slow_log_window_witness :
  recent 5 (sr_log three_slow) = [(took_or 300).1; (took_or 150).1] ∧
  (count (sr_log three_slow) ≤ 2)%nat.
Proof.
  destruct (slow_log_window small_log three_slow three_slow_reachable) as (_ & Hc & Hw).
  split.
  - rewrite (Hw 2%nat); [vm_compute; reflexivity|]. repeat constructor; vm_compute; reflexivity.
  - apply (Hc (took_or 300).1). vm_compute. reflexivity.
Defined.

Lemma slow_entry_exact_witness :
  is_Some (took 100) ∧ ∃ b rows, se_bottleneck (took_or 100).1 = Some b ∧
    (bi_modality b, bi_time_ms b, rows) ∈ times_of 100.
Proof.
  destruct (slow_entry_exact (moment 100) None (f64_of_Z 100) two_steps (times_of 100)
    small_log) as [[_ Hlog] Hentry].
  split.
  - apply Hlog. split; [reflexivity|]. left. vm_compute. reflexivity.
  - destruct (Hentry (took_or 100).1 2%nat) as (_ & _ & _ & _ & Hb).
    { vm_compute. reflexivity. }
    destruct Hb as (b & rows & Hb & Hin & _); [done| |by exists b, rows].
    repeat constructor; vm_compute; reflexivity.
Defined.

Definition calls : list figures :=
  [(0%nat, f64_of_Z 90, 1, moment 0, moment 9); (0%nat, f64_of_Z 12, 6, moment 0, moment 12)].

Definition recorded_twice : Profiler :=
  {| pr_plan_id := "p"; pr_plan := two_steps;
     pr_recorded_steps :=
       [Some (profile_of (plan_step 0 Graph 10 5) (f64_of_Z 12) 6 (moment 0) (moment 12)); None] |}.

Lemma profile_complete_witness (stats := StatisticsCollector_new (moment 0)) :
  record_calls (Profiler_new "p" two_steps) calls = Some recorded_twice ∧
  (λ r, (λ s, (pf_actual_ms s, pf_actual_rows s)) <$> qp_steps r.1)
    <$> finish (moment 50) recorded_twice stats =
  Some [(f64_of_Z 12, 6); (zero_time, 0)].
Proof.
  assert (record_calls (Profiler_new "p" two_steps) calls = Some recorded_twice) as Hcalls
    by reflexivity.
  split; [exact Hcalls|].
  destruct (profile_complete (moment 50) "p" two_steps calls recorded_twice stats Hcalls)
    as (steps & Hlen & Hsteps & ->).
  cbn [fmap option_fmap option_map fst qp_steps].
  pose proof (Hsteps 0%nat _ eq_refl) as H0. pose proof (Hsteps 1%nat _ eq_refl) as H1.
  destruct steps as [|s0 [|s1 [|]]]; try discriminate Hlen.
  injection H0 as ->. injection H1 as ->. vm_compute. reflexivity.
Defined.

Example third_step_panics :
  record_step 2 (f64_of_Z 1) 0 (moment 0) (moment 1) recorded_twice = None.
Proof. reflexivity. Qed.
