(* ===== verification/Metrics.v ===== *)
(** * A storage backend that counts

    Models [src/rust-core/verisim-storage/src/metrics.rs]: a wrapper that counts the operations
    of the backend inside, their bytes and their time.  Every operation may change the
    counters, so it returns the wrapper also where the inner operation only reads. *)

From S2P Require Import Prelude Floats Storage.
From Stdlib Require Import SpecFloat.
Local Open Scope Z_scope.

Record BackendStats := {
  bs_get_count : Z; bs_put_count : Z; bs_delete_count : Z; bs_scan_count : Z;
  bs_get_latency_sum_ms : f64; bs_put_latency_sum_ms : f64;
  bs_total_bytes_read : Z; bs_total_bytes_written : Z;
}.

Definition BackendStats_default : BackendStats :=
  {| bs_get_count := 0; bs_put_count := 0; bs_delete_count := 0; bs_scan_count := 0;
     bs_get_latency_sum_ms := S754_zero false; bs_put_latency_sum_ms := S754_zero false;
     bs_total_bytes_read := 0; bs_total_bytes_written := 0 |}.

Section metrics.
Context {B : Type} `{!StorageBackend B}.

Record MetricsBackend := { mb_inner : B; mb_stats : BackendStats }.

Definition MetricsBackend_new (inner : B) : MetricsBackend :=
  {| mb_inner := inner; mb_stats := BackendStats_default |}.

Definition stats (m : MetricsBackend) : BackendStats := mb_stats m.

Definition reset_stats (m : MetricsBackend) : MetricsBackend :=
  {| mb_inner := mb_inner m; mb_stats := BackendStats_default |}.

Definition inner (m : MetricsBackend) : B := mb_inner m.

(** The two kinds of update: [count] reads in [elapsed_ms] that returned so many bytes, and
    the like for writes. *)
Definition count_get (count : Z) (elapsed_ms : f64) (bytes : Z) (s : BackendStats) : BackendStats :=
  {| bs_get_count := u64_add (bs_get_count s) count; bs_put_count := bs_put_count s;
     bs_delete_count := bs_delete_count s; bs_scan_count := bs_scan_count s;
     bs_get_latency_sum_ms := f64_add (bs_get_latency_sum_ms s) elapsed_ms;
     bs_put_latency_sum_ms := bs_put_latency_sum_ms s;
     bs_total_bytes_read := u64_add (bs_total_bytes_read s) bytes;
     bs_total_bytes_written := bs_total_bytes_written s |}.

Definition count_put (count : Z) (elapsed_ms : f64) (bytes : Z) (s : BackendStats) : BackendStats :=
  {| bs_get_count := bs_get_count s; bs_put_count := u64_add (bs_put_count s) count;
     bs_delete_count := bs_delete_count s; bs_scan_count := bs_scan_count s;
     bs_get_latency_sum_ms := bs_get_latency_sum_ms s;
     bs_put_latency_sum_ms := f64_add (bs_put_latency_sum_ms s) elapsed_ms;
     bs_total_bytes_read := bs_total_bytes_read s;
     bs_total_bytes_written := u64_add (bs_total_bytes_written s) bytes |}.

Definition with_stats (f : BackendStats → BackendStats) (m : MetricsBackend) : MetricsBackend :=
  {| mb_inner := mb_inner m; mb_stats := f (mb_stats m) |}.

Definition with_inner (b : B) (m : MetricsBackend) : MetricsBackend :=
  {| mb_inner := b; mb_stats := mb_stats m |}.

(** The sum of an iterator of [u64]s. *)
Definition u64_sum (l : list Z) : Z := foldl u64_add 0 l.

(** [elapsed] is the time the inner operation took, in milliseconds. *)
Definition metrics_get (elapsed : f64) (key : list byte) (m : MetricsBackend)
    : result StorageError (option (list byte)) * MetricsBackend :=
  let r := sb_get key (mb_inner m) in
  let bytes := match r with Ok (Some val) => zlength val | _ => 0 end in
  (r, with_stats (count_get 1 elapsed bytes) m).

Definition metrics_put (elapsed : f64) (key value : list byte) (m : MetricsBackend)
    : result StorageError () * MetricsBackend :=
  let '(r, b) := sb_put key value (mb_inner m) in
  let bytes := if is_ok r then zlength value else 0 in
  (r, with_stats (count_put 1 elapsed bytes) (with_inner b m)).

Definition metrics_delete (key : list byte) (m : MetricsBackend)
    : result StorageError bool * MetricsBackend :=
  let m := with_stats (λ s,
    {| bs_get_count := bs_get_count s; bs_put_count := bs_put_count s;
       bs_delete_count := u64_add (bs_delete_count s) 1; bs_scan_count := bs_scan_count s;
       bs_get_latency_sum_ms := bs_get_latency_sum_ms s;
       bs_put_latency_sum_ms := bs_put_latency_sum_ms s;
       bs_total_bytes_read := bs_total_bytes_read s;
       bs_total_bytes_written := bs_total_bytes_written s |}) m in
  let '(r, b) := sb_delete key (mb_inner m) in
  (r, with_inner b m).

Definition metrics_exists (key : list byte) (m : MetricsBackend)
    : result StorageError bool * MetricsBackend := (sb_exists key (mb_inner m), m).

Definition metrics_scan_prefix (prefix : list byte) (limit : nat) (m : MetricsBackend)
    : result StorageError (list (list byte * list byte)) * MetricsBackend :=
  let r := sb_scan_prefix prefix limit (mb_inner m) in
  let bytes := match r with
               | Ok entries => u64_sum ((λ '(k, v), u64_add (zlength k) (zlength v)) <$> entries)
               | Err _ => 0
               end in
  (r, with_stats (λ s,
    {| bs_get_count := bs_get_count s; bs_put_count := bs_put_count s;
       bs_delete_count := bs_delete_count s; bs_scan_count := u64_add (bs_scan_count s) 1;
       bs_get_latency_sum_ms := bs_get_latency_sum_ms s;
       bs_put_latency_sum_ms := bs_put_latency_sum_ms s;
       bs_total_bytes_read := u64_add (bs_total_bytes_read s) bytes;
       bs_total_bytes_written := bs_total_bytes_written s |}) m).

Definition metrics_multi_get (elapsed : f64) (keys : list (list byte)) (m : MetricsBackend)
    : result StorageError (list (option (list byte))) * MetricsBackend :=
  let r := sb_multi_get keys (mb_inner m) in
  let bytes := match r with
               | Ok vals => u64_sum (zlength <$> omap (λ v, v) vals)
               | Err _ => 0
               end in
  (r, with_stats (count_get (zlength keys) elapsed bytes) m).

Definition metrics_batch_put (elapsed : f64) (entries : list (list byte * list byte))
    (m : MetricsBackend) : result StorageError () * MetricsBackend :=
  let '(r, b) := sb_batch_put entries (mb_inner m) in
  let bytes := if is_ok r then u64_sum (zlength ∘ snd <$> entries) else 0 in
  (r, with_stats (count_put (zlength entries) elapsed bytes) (with_inner b m)).

Definition metrics_flush (m : MetricsBackend) : result StorageError () * MetricsBackend :=
  let '(r, b) := sb_flush (mb_inner m) in (r, with_inner b m).

Definition metrics_name (m : MetricsBackend) : string := sb_name (mb_inner m).

Definition metrics_approximate_size (m : MetricsBackend)
    : result StorageError (option Z) * MetricsBackend :=
  (sb_approximate_size (mb_inner m), m).

End metrics.
Arguments MetricsBackend : clear implicits.

(** ** Counting changes nothing

    A wrapped backend answers as the backend itself, and its counters add up. *)

Section metrics.
Context {B : Type} `{!StorageBackend B}.

(** ** Operations and answers *)

Inductive storage_op :=
| OGet (key : list byte)
| OPut (key value : list byte)
| ODelete (key : list byte)
| OExists (key : list byte)
| OScan (prefix : list byte) (limit : nat)
| OMultiGet (keys : list (list byte))
| OBatchPut (entries : list (list byte * list byte))
| OFlush
| OSize.

Inductive storage_answer :=
| AGet (r : result StorageError (option (list byte)))
| AUnit (r : result StorageError ())
| ABool (r : result StorageError bool)
| AScan (r : result StorageError (list (list byte * list byte)))
| AMultiGet (r : result StorageError (list (option (list byte))))
| ASize (r : result StorageError (option Z)).

Definition inner_op (o : storage_op) (b : B) : storage_answer * B :=
  match o with
  | OGet key => (AGet (sb_get key b), b)
  | OPut key value => let '(r, b) := sb_put key value b in (AUnit r, b)
  | ODelete key => let '(r, b) := sb_delete key b in (ABool r, b)
  | OExists key => (ABool (sb_exists key b), b)
  | OScan prefix limit => (AScan (sb_scan_prefix prefix limit b), b)
  | OMultiGet keys => (AMultiGet (sb_multi_get keys b), b)
  | OBatchPut entries => let '(r, b) := sb_batch_put entries b in (AUnit r, b)
  | OFlush => let '(r, b) := sb_flush b in (AUnit r, b)
  | OSize => (ASize (sb_approximate_size b), b)
  end.

(** An operation comes with the time it takes. *)
Definition metered_op (o : f64 * storage_op) (m : MetricsBackend B)
    : storage_answer * MetricsBackend B :=
  let '(elapsed, o) := o in
  match o with
  | OGet key => let '(r, m) := metrics_get elapsed key m in (AGet r, m)
  | OPut key value => let '(r, m) := metrics_put elapsed key value m in (AUnit r, m)
  | ODelete key => let '(r, m) := metrics_delete key m in (ABool r, m)
  | OExists key => let '(r, m) := metrics_exists key m in (ABool r, m)
  | OScan prefix limit => let '(r, m) := metrics_scan_prefix prefix limit m in (AScan r, m)
  | OMultiGet keys => let '(r, m) := metrics_multi_get elapsed keys m in (AMultiGet r, m)
  | OBatchPut entries => let '(r, m) := metrics_batch_put elapsed entries m in (AUnit r, m)
  | OFlush => let '(r, m) := metrics_flush m in (AUnit r, m)
  | OSize => let '(r, m) := metrics_approximate_size m in (ASize r, m)
  end.

Fixpoint run {S O : Type} (step : O → S → storage_answer * S) (os : list O) (s : S)
    : list storage_answer * S :=
  match os with
  | [] => ([], s)
  | o :: os => let '(a, s) := step o s in let '(answers, s) := run step os s in (a :: answers, s)
  end.

(** How much an operation adds to the counters of reads, writes, deletes and scans. *)
Definition gets (o : storage_op) : Z :=
  match o with OGet _ => 1 | OMultiGet keys => zlength keys | _ => 0 end.
Definition puts (o : storage_op) : Z :=
  match o with OPut _ _ => 1 | OBatchPut entries => zlength entries | _ => 0 end.
Definition deletes (o : storage_op) : Z := match o with ODelete _ => 1 | _ => 0 end.
Definition scans (o : storage_op) : Z := match o with OScan _ _ => 1 | _ => 0 end.

(** Bytes read and written, by the answer. *)
Definition bytes_read (o : storage_op) (a : storage_answer) : Z :=
  match o, a with
  | OGet _, AGet (Ok (Some v)) => zlength v
  | OScan _ _, AScan (Ok entries) => zlength (entries ≫= λ '(k, v), k ++ v)
  | OMultiGet _, AMultiGet (Ok vals) => zlength (concat (omap (λ v, v) vals))
  | _, _ => 0
  end.
Definition bytes_written (o : storage_op) (a : storage_answer) : Z :=
  match o, a with
  | OPut _ v, AUnit (Ok _) => zlength v
  | OBatchPut entries, AUnit (Ok _) => zlength (concat (snd <$> entries))
  | _, _ => 0
  end.

Definition total {A : Type} (f : A → Z) (l : list A) : Z := foldr (λ x n, f x + n) 0 l.

Lemma u64_add_wrap a b : u64_add (wrap 64 a) b = wrap 64 (a + b).
Proof. apply Zplus_mod_idemp_l. Qed.

Lemma u64_add_wrap_r a b : u64_add (wrap 64 a) (wrap 64 b) = wrap 64 (a + b).
Proof. unfold u64_add, wrap. by rewrite <- Zplus_mod. Qed.

Lemma u64_sum_total (l : list Z) : u64_sum l = wrap 64 (total (λ x, x) l).
Proof.
  unfold u64_sum. assert (∀ a, foldl u64_add (wrap 64 a) l = wrap 64 (a + total (λ x, x) l)) as Hgen.
  { induction l as [|x l IH]; intros a; [cbn; by rewrite Z.add_0_r|].
    cbn [foldl]. rewrite u64_add_wrap, IH. f_equal. unfold total. cbn. lia. }
  apply (Hgen 0).
Qed.

Definition counted (s : BackendStats) (g p d c r w : Z) : Prop :=
  bs_get_count s = wrap 64 g ∧ bs_put_count s = wrap 64 p ∧ bs_delete_count s = wrap 64 d ∧
  bs_scan_count s = wrap 64 c ∧ bs_total_bytes_read s = wrap 64 r ∧
  bs_total_bytes_written s = wrap 64 w.

Lemma total_wrap {A : Type} (f : A → Z) (l : list A) :
  wrap 64 (total (λ x, x) (wrap 64 ∘ f <$> l)) = wrap 64 (total f l).
Proof.
  induction l as [|x l IH]; [done|].
  change (wrap 64 (wrap 64 (f x) + total (λ x, x) (wrap 64 ∘ f <$> l)) = wrap 64 (f x + total f l)).
  rewrite <- (u64_add_wrap_r (f x)), <- IH, u64_add_wrap_r. apply u64_add_wrap.
Qed.

Lemma scan_bytes (l : list (list byte * list byte)) :
  u64_sum ((λ '(k, v), u64_add (zlength k) (zlength v)) <$> l) =
  wrap 64 (zlength (l ≫= λ '(k, v), k ++ v)).
Proof.
  rewrite u64_sum_total.
  assert ((λ '(k, v), u64_add (zlength k) (zlength v)) <$> l =
    wrap 64 ∘ (λ '(k, v), zlength k + zlength v) <$> l) as ->
    by (apply list_fmap_ext; by intros ? [k v] _).
  rewrite total_wrap. f_equal. unfold total, zlength. induction l as [|[k v] l IH]; [done|].
  cbn [foldr]. rewrite bind_cons, !length_app, IH. lia.
Qed.

Lemma concat_bytes (l : list (list byte)) :
  u64_sum (zlength <$> l) = wrap 64 (zlength (concat l)).
Proof.
  rewrite u64_sum_total. f_equal. unfold total, zlength. induction l as [|v l IH]; [done|].
  cbn [fmap list_fmap foldr concat]. rewrite length_app. rewrite Nat2Z.inj_add.
  f_equal. exact IH.
Qed.

Lemma metered_step elapsed o m g p d c r w :
  counted (mb_stats m) g p d c r w →
  let '(a, m') := metered_op (elapsed, o) m in
  inner_op o (mb_inner m) = (a, mb_inner m') ∧
  counted (mb_stats m') (g + gets o) (p + puts o) (d + deletes o) (c + scans o)
    (r + bytes_read o a) (w + bytes_written o a).
Proof.
  intros (Hg & Hp & Hd & Hc & Hr & Hw).
  destruct o as [key|key value|key|key|prefix limit|keys|entries| |]; cbn [metered_op inner_op];
    unfold metrics_get, metrics_put, metrics_delete, metrics_exists, metrics_scan_prefix,
      metrics_multi_get, metrics_batch_put, metrics_flush, metrics_approximate_size; cbn [mb_inner with_stats].
  - destruct (sb_get key (mb_inner m)) as [[v|]|e]; cbn; (split; [done|]); unfold counted; cbn;
      rewrite Hg, Hp, Hd, Hc, Hr, Hw, ?u64_add_wrap, ?Z.add_0_r; done.
  - destruct (sb_put key value (mb_inner m)) as [[[]|e] b]; cbn; (split; [done|]); unfold counted;
      cbn; rewrite Hg, Hp, Hd, Hc, Hr, Hw, ?u64_add_wrap, ?Z.add_0_r; done.
  - destruct (sb_delete key (mb_inner m)) as [r' b]; cbn; (split; [done|]); unfold counted; cbn;
      rewrite Hg, Hp, Hd, Hc, Hr, Hw, ?u64_add_wrap, ?Z.add_0_r; done.
  - cbn; split; [done|]; unfold counted; cbn;
      rewrite Hg, Hp, Hd, Hc, Hr, Hw, ?u64_add_wrap, ?Z.add_0_r; done.
  - destruct (sb_scan_prefix prefix limit (mb_inner m)) as [entries|e]; cbn [fst snd];
      (split; [done|]); unfold counted; cbn -[u64_sum u64_add];
      rewrite Hg, Hp, Hd, Hc, Hr, Hw, ?scan_bytes, ?u64_add_wrap_r, ?u64_add_wrap, ?Z.add_0_r; done.
  - destruct (sb_multi_get keys (mb_inner m)) as [vals|e]; cbn [fst snd];
      (split; [done|]); unfold counted; cbn -[u64_sum u64_add];
      rewrite Hg, Hp, Hd, Hc, Hr, Hw, ?concat_bytes, ?u64_add_wrap_r, ?u64_add_wrap, ?Z.add_0_r; done.
  - destruct (sb_batch_put entries (mb_inner m)) as [[[]|e] b]; cbn [fst snd];
      (split; [done|]); unfold counted; cbn -[u64_sum u64_add];
      rewrite Hg, Hp, Hd, Hc, Hr, Hw, ?list_fmap_compose, ?concat_bytes, ?u64_add_wrap_r,
        ?u64_add_wrap, ?Z.add_0_r; done.
  - destruct (sb_flush (mb_inner m)) as [r' b]; cbn; (split; [done|]); unfold counted; cbn;
      rewrite Hg, Hp, Hd, Hc, Hr, Hw, ?u64_add_wrap, ?Z.add_0_r; done.
  - cbn; split; [done|]; unfold counted; cbn;
      rewrite Hg, Hp, Hd, Hc, Hr, Hw, ?u64_add_wrap, ?Z.add_0_r; done.
Qed.

Lemma metered_run os m g p d c r w :
  counted (mb_stats m) g p d c r w →
  let '(answers, m') := run metered_op os m in
  run inner_op os.*2 (mb_inner m) = (answers, mb_inner m') ∧
  let answered := zip os.*2 answers in
  counted (mb_stats m') (g + total gets os.*2) (p + total puts os.*2)
    (d + total deletes os.*2) (c + total scans os.*2)
    (r + total (uncurry bytes_read) answered) (w + total (uncurry bytes_written) answered).
Proof.
  revert m g p d c r w. induction os as [|[elapsed o] os IH]; intros m g p d c r w Hm.
  { cbn. by rewrite !Z.add_0_r. }
  cbn [run]. pose proof (metered_step elapsed o m g p d c r w Hm) as Hstep.
  destruct (metered_op (elapsed, o) m) as [a m1]. destruct Hstep as [Ho Hm1].
  specialize (IH _ _ _ _ _ _ _ Hm1). destruct (run metered_op os m1) as [answers m2].
  destruct IH as [Hos Hm2]. cbn [fmap list_fmap snd run]. rewrite Ho, Hos. split; [done|].
  cbn [zip zip_with total foldr uncurry]. by rewrite !Z.add_assoc.
Qed.

(** Whatever the operations, a wrapped backend gives the answers of the backend itself and
    leaves it in the same state; its counters are the numbers of the operations and bytes,
    modulo the width of the counters. *)
Theorem metrics_transparent (b : B) (os : list (f64 * storage_op)) :
  let '(answers, m) := run metered_op os (MetricsBackend_new b) in
  run inner_op os.*2 b = (answers, inner m) ∧
  let answered := zip os.*2 answers in
  counted (stats m) (total gets os.*2) (total puts os.*2) (total deletes os.*2)
    (total scans os.*2) (total (uncurry bytes_read) answered)
    (total (uncurry bytes_written) answered).
Proof.
  assert (counted (mb_stats (MetricsBackend_new b)) 0 0 0 0 0 0) as H0 by done.
  change b with (mb_inner (MetricsBackend_new b)) at 2.
  pose proof (metered_run os (MetricsBackend_new b) 0 0 0 0 0 0 H0) as H.
  by destruct (run metered_op os (MetricsBackend_new b)) as [answers m].
Qed.
End metrics.
