(* ===== verification/ApiCommon.v ===== *)
(** * What the handlers of the API share

    Models the errors, the configuration and the checks of requests of
    [src/rust-core/verisim-api/src/lib.rs]. *)

From S2P Require Import Prelude Floats Plan PlanCache.
From Stdlib Require String Ascii.
Local Open Scope Z_scope.

(** ** Text

    What the API and the REPL use of [str] beyond the prelude.  A [str] is its bytes; the
    characters looked for are ASCII, whose bytes occur in no longer character. *)

(** [str::trim] removes the whitespace of Unicode's tables, which are not part of the
    program. *)
Class UnicodeTrim := { str_trim : string → string }.

Definition quote : Ascii.ascii := Ascii.ascii_of_nat 39.
Definition double_quote : Ascii.ascii := Ascii.ascii_of_nat 34.
Definition tab : Ascii.ascii := Ascii.ascii_of_nat 9.
Definition line_feed : Ascii.ascii := Ascii.ascii_of_nat 10.
Definition comma : Ascii.ascii := Ascii.ascii_of_nat 44.

(** [String::push] *)
Definition push (s : string) (a : Ascii.ascii) : string := s +:+ String.String a "".

(** [s.trim_start_matches(c)] *)
Fixpoint trim_start_matches (c : Ascii.ascii) (s : string) : string :=
  match s with
  | String.EmptyString => ""
  | String.String a t => if decide (a = c) then trim_start_matches c t else s
  end.

(** [s.replace(c, d)] *)
Fixpoint replace_char (c d : Ascii.ascii) (s : string) : string :=
  match s with
  | String.EmptyString => ""
  | String.String a t => String.String (if decide (a = c) then d else a) (replace_char c d t)
  end.

(** [s.find(needle)]: the byte where it first occurs. *)
Fixpoint str_find (needle s : string) : option nat :=
  if String.prefix needle s then Some 0%nat
  else match s with
       | String.EmptyString => None
       | String.String _ t => S <$> str_find needle t
       end.

Definition ends_with (a : Ascii.ascii) (s : string) : bool :=
  match String.length s with
  | O => false
  | S n => bool_decide (String.get n s = Some a)
  end.

(** [&s[n..]]; [None] is its panic. *)
Definition slice_from (n : nat) (s : string) : option string :=
  if is_char_boundary n s then Some (String.substring n (String.length s - n) s) else None.

(** [&s[..n]] *)
Definition slice_to (n : nat) (s : string) : option string :=
  if is_char_boundary n s then Some (String.substring 0 n s) else None.

(** [&s[n..m]] *)
Definition slice (n m : nat) (s : string) : option string :=
  if (n <=? m)%nat && is_char_boundary n s && is_char_boundary m s
  then Some (String.substring n (m - n) s) else None.

(** [pieces.join(" ")] *)
Definition join_spaces (pieces : list string) : string := String.concat " " pieces.

(** Whether every character is alphanumeric or among [extra]. *)
Definition chars_ok {UC : UnicodeChar} (extra : list string) (s : string) : bool :=
  forallb (λ c, is_alphanumeric c || bool_decide (c ∈ extra)) (chars s).

Lemma push_append s a t : push s a +:+ t = s +:+ String.String a t.
Proof. unfold push. by rewrite str_app_assoc. Qed.

(** ** Errors *)

Inductive ApiError :=
| ApiNotFound (e : string)
| ApiBadRequest (e : string)
| ApiInternal (e : string)
| ApiSerialization (e : string).

Record ErrorResponse := { er_error : string; er_code : Z }.

(** The status and the body; the errors that are logged are not part of the answer. *)
Definition into_response (e : ApiError) : Z * ErrorResponse :=
  let '(status, client_message) :=
    match e with
    | ApiNotFound msg => (404, msg)
    | ApiBadRequest msg => (400, msg)
    | ApiInternal _ | ApiSerialization _ => (500, "Internal server error")
    end in
  (status, {| er_error := client_message; er_code := status |}).

(** ** Configuration *)

Record ApiConfig := {
  ac_host : string; ac_port : Z; ac_enable_cors : bool; ac_version_prefix : string;
  ac_vector_dimension : nat; ac_persistence_dir : option string;
}.

Definition ApiConfig_default : ApiConfig :=
  {| ac_host := "[::1]"; ac_port := 8080; ac_enable_cors := true; ac_version_prefix := "/api/v1";
     ac_vector_dimension := 384; ac_persistence_dir := None |}.

(** ** Checks *)

Definition MAX_RESULT_LIMIT : nat := 1000.

Definition validate_limit (limit : nat) : nat := limit `min` MAX_RESULT_LIMIT.

Definition validate_hexad_id {UH : UnicodeChar} (id : string) : result ApiError () :=
  if bool_decide (id = "") then Err (ApiBadRequest "Hexad ID must not be empty")
  else if (128 <? String.length id)%nat then
    Err (ApiBadRequest "Hexad ID must be at most 128 characters")
  else if negb (chars_ok ["-"; "_"] id) then
    Err (ApiBadRequest "Hexad ID must contain only alphanumeric characters, dashes, and underscores")
  else Ok ().

Definition validate_vector (v : list f32) : result ApiError () :=
  if negb (forallb f64_is_finite v) then Err (ApiBadRequest "Vector contains NaN or Inf values")
  else Ok ().
