(* ===== verification/ApiTxn.v ===== *)
(** * Transactions of the API

    Models [src/rust-core/verisim-api/src/transaction.rs], a manager that buffers the
    operations of a transaction in memory, and the four handlers of
    [src/rust-core/verisim-api/src/lib.rs] on it.  Every method of the manager holds the one
    lock throughout, so a call is one step; a handler makes two calls. *)

From S2P Require Import Prelude ApiCommon.
From coqutil Require Import Byte LittleEndianList.
From stdpp Require Import pretty.
From Stdlib Require String.
Local Open Scope Z_scope.

(** ** Instants and their differences *)

(** [chrono::Duration::seconds], in nanoseconds; [None] is its panic out of range. *)
Definition duration_seconds (secs : Z) : option Z :=
  if Z.abs secs <=? (2 ^ 63 - 1) / 1000 then Some (secs * 10 ^ 9) else None.

(** ** Data *)

Inductive TransactionState := Active | Committed | RolledBack.

#[export] Instance TransactionState_eq_dec : EqDecision TransactionState.
Proof. solve_decision. Defined.

Inductive OperationType := Create | Update | Delete.

Record BufferedOperation := {
  bo_entity_id : string; bo_operation : OperationType; bo_payload : list byte;
  bo_timestamp : string;
}.

Record Transaction := {
  tx_id : string; tx_state : TransactionState; tx_operations : list BufferedOperation;
  tx_started_at : string; tx_completed_at : option string;
}.

Record TransactionStatus := {
  st_id : string; st_state : TransactionState; st_operation_count : nat;
  st_started_at : string; st_completed_at : option string;
}.

Definition status_of (txn : Transaction) : TransactionStatus :=
  {| st_id := tx_id txn; st_state := tx_state txn;
     st_operation_count := length (tx_operations txn);
     st_started_at := tx_started_at txn; st_completed_at := tx_completed_at txn |}.

Inductive TransactionError :=
| NotFound (id : string)
| NotActive (id : string)
| AlreadyCommitted (id : string)
| AlreadyRolledBack (id : string)
| TooManyTransactions.

Definition error_display (e : TransactionError) : string :=
  match e with
  | NotFound id => "transaction not found: " +:+ id
  | NotActive id => "transaction not active: " +:+ id
  | AlreadyCommitted id => "transaction already committed: " +:+ id
  | AlreadyRolledBack id => "transaction already rolled back: " +:+ id
  | TooManyTransactions => "maximum concurrent transactions exceeded"
  end.

Record TransactionConfig := { max_concurrent : nat; timeout_seconds : Z }.

Definition TransactionConfig_default : TransactionConfig :=
  {| max_concurrent := 256; timeout_seconds := 300 |}.

Record TransactionManager := { tm_config : TransactionConfig; tm_txns : gmap string Transaction }.

Definition manager_new (config : TransactionConfig) : TransactionManager :=
  {| tm_config := config; tm_txns := ∅ |}.

Definition set_txns (txns : gmap string Transaction) (m : TransactionManager)
    : TransactionManager := {| tm_config := tm_config m; tm_txns := txns |}.

(** ** Identifiers *)

Section manager.
Context {CH : Chrono} {CT : ChronoText} {SH : Sha256}.
(** [std::process::id()] *)
Context (process_id : Z).

(** [TransactionId::new]: half of the digest of the clock and the process. *)
Definition transaction_id_new (now : DateTime) : string :=
  let nanos := default 0 (timestamp_nanos_opt now) in
  hex_string (take 16 (sha256 (LittleEndianList.le_split 8 nanos
                                ++ LittleEndianList.le_split 4 process_id))).

(** [Display]: the slice [self.0[..12]] panics on a shorter string (an identifier is ASCII). *)
Definition transaction_id_display (id : string) : option string :=
  if (12 <=? String.length id)%nat then Some ("txn_" +:+ String.substring 0 12 id) else None.

(** ** The manager *)

Definition active_count (txns : gmap string Transaction) : nat :=
  size (filter (λ '(_, t), tx_state t = Active) txns).

(** [now] is the first reading of the clock, [now'] the second. *)
Definition begin (now now' : DateTime) (m : TransactionManager)
    : result TransactionError string * TransactionManager :=
  if (max_concurrent (tm_config m) <=? active_count (tm_txns m))%nat then
    (Err TooManyTransactions, m)
  else
    let id := transaction_id_new now in
    let txn := {| tx_id := id; tx_state := Active; tx_operations := [];
                  tx_started_at := rfc3339 now'; tx_completed_at := None |} in
    (Ok id, set_txns (<[id := txn]> (tm_txns m)) m).

(** The answer to a call on a transaction that has ended. *)
Definition ended_error (txn_id : string) (s : TransactionState) : TransactionError :=
  match s with
  | RolledBack => AlreadyRolledBack txn_id
  | _ => AlreadyCommitted txn_id
  end.

Definition buffer_operation (txn_id : string) (operation : BufferedOperation)
    (m : TransactionManager) : result TransactionError unit * TransactionManager :=
  match tm_txns m !! txn_id with
  | None => (Err (NotFound txn_id), m)
  | Some txn =>
    match tx_state txn with
    | Active =>
      let txn := {| tx_id := tx_id txn; tx_state := Active;
                    tx_operations := tx_operations txn ++ [operation];
                    tx_started_at := tx_started_at txn;
                    tx_completed_at := tx_completed_at txn |} in
      (Ok (), set_txns (<[txn_id := txn]> (tm_txns m)) m)
    | s => (Err (ended_error txn_id s), m)
    end
  end.

Definition commit (now : DateTime) (txn_id : string) (m : TransactionManager)
    : result TransactionError (list BufferedOperation) * TransactionManager :=
  match tm_txns m !! txn_id with
  | None => (Err (NotFound txn_id), m)
  | Some txn =>
    match tx_state txn with
    | Active =>
      let ops := tx_operations txn in
      let txn := {| tx_id := tx_id txn; tx_state := Committed; tx_operations := ops;
                    tx_started_at := tx_started_at txn;
                    tx_completed_at := Some (rfc3339 now) |} in
      (Ok ops, set_txns (<[txn_id := txn]> (tm_txns m)) m)
    | s => (Err (ended_error txn_id s), m)
    end
  end.

Definition rollback (now : DateTime) (txn_id : string) (m : TransactionManager)
    : result TransactionError nat * TransactionManager :=
  match tm_txns m !! txn_id with
  | None => (Err (NotFound txn_id), m)
  | Some txn =>
    match tx_state txn with
    | Active =>
      let discarded := length (tx_operations txn) in
      let txn := {| tx_id := tx_id txn; tx_state := RolledBack; tx_operations := [];
                    tx_started_at := tx_started_at txn;
                    tx_completed_at := Some (rfc3339 now) |} in
      (Ok discarded, set_txns (<[txn_id := txn]> (tm_txns m)) m)
    | s => (Err (ended_error txn_id s), m)
    end
  end.

Definition status (txn_id : string) (m : TransactionManager)
    : result TransactionError TransactionStatus :=
  match tm_txns m !! txn_id with
  | None => Err (NotFound txn_id)
  | Some txn => Ok (status_of txn)
  end.

(** The filter of [cleanup_expired]; [timeout] in nanoseconds. *)
Definition expired (now : DateTime) (timeout : Z) (txn : Transaction) : bool :=
  let stamp := match tx_state txn with
               | Active => Some (tx_started_at txn)
               | _ => tx_completed_at txn
               end in
  match stamp ≫= parse_from_rfc3339 with
  | Some t => timeout <? signed_duration_since now t
  | None => false
  end.

(** [None]: the timeout, read as an [i64], is no [Duration]. *)
Definition cleanup_expired (now : DateTime) (m : TransactionManager)
    : option (nat * TransactionManager) :=
  timeout ← duration_seconds (to_signed 64 (timeout_seconds (tm_config m)));
  let expired_txns := filter (λ '(_, txn), expired now timeout txn = true) (tm_txns m) in
  Some (size expired_txns,
        set_txns (filter (λ '(_, txn), expired now timeout txn = false) (tm_txns m)) m).

(** ** The handlers

    A refusal carries the status code of its error and its text.  The two calls of a handler
    are separate critical sections; here nothing comes between them. *)

Definition internal (e : TransactionError) : ApiError := ApiInternal (error_display e).

Definition transaction_begin_handler (now now' : DateTime) (m : TransactionManager)
    : result ApiError TransactionStatus * TransactionManager :=
  let '(r, m) := begin now now' m in
  (txn_id ← map_err internal r; map_err internal (status txn_id m), m).

Definition refused (e : TransactionError) : ApiError :=
  match e with
  | NotFound _ => ApiNotFound (error_display e)
  | _ => ApiBadRequest (error_display e)
  end.

Definition transaction_commit_handler (now : DateTime) (id : string) (m : TransactionManager)
    : result ApiError TransactionStatus * TransactionManager :=
  let '(r, m) := commit now id m in
  (_ops ← map_err refused r; map_err internal (status id m), m).

Definition transaction_rollback_handler (now : DateTime) (id : string) (m : TransactionManager)
    : result ApiError TransactionStatus * TransactionManager :=
  let '(r, m) := rollback now id m in
  (_discarded ← map_err refused r; map_err internal (status id m), m).

Definition transaction_status_handler (id : string) (m : TransactionManager)
    : result ApiError TransactionStatus :=
  map_err (λ e, match e with
                | NotFound _ => ApiNotFound (error_display e)
                | _ => internal e
                end) (status id m).

End manager.
