(* ===== verification/ApiTxnSpec.v ===== *)
(** * What a transaction of the API is

    Runs of the manager's calls, by any number of clients: a transaction commits at most once
    and its commit returns what was buffered; how many are active at a time; what the cleanup
    removes; and what two transactions begun in the same nanosecond do to each other. *)

From S2P Require Import Prelude ApiTxn.
From Stdlib Require String.
Local Open Scope Z_scope.

(** ** Runs *)

Section runs.
Context {CH : Chrono} {CT : ChronoText} {SH : Sha256} (process_id : Z).

Inductive call :=
| CBegin (now now' : DateTime)
| CBuffer (id : string) (operation : BufferedOperation)
| CCommit (now : DateTime) (id : string)
| CRollback (now : DateTime) (id : string)
| CStatus (id : string)
| CCleanup (now : DateTime).

(** The manager after a call; the panic of a cleanup leaves it as it was. *)
Definition after (c : call) (m : TransactionManager) : TransactionManager :=
  match c with
  | CBegin now now' => (begin process_id now now' m).2
  | CBuffer id operation => (buffer_operation id operation m).2
  | CCommit now id => (commit now id m).2
  | CRollback now id => (rollback now id m).2
  | CStatus _ => m
  | CCleanup now => default m (snd <$> cleanup_expired now m)
  end.

Definition after_all (cs : list call) (m : TransactionManager) : TransactionManager :=
  foldl (λ m c, after c m) m cs.

(** The operations a run buffers in a transaction. *)
Definition buffered (id : string) (cs : list call) : list BufferedOperation :=
  omap (λ c, match c with
             | CBuffer id' operation => if decide (id' = id) then Some operation else None
             | _ => None
             end) cs.

Definition begins (id : string) (c : call) : Prop :=
  match c with CBegin now _ => transaction_id_new process_id now = id | _ => False end.

Definition ends (id : string) (c : call) : Prop :=
  match c with CCommit _ id' | CRollback _ id' => id' = id | _ => False end.

Definition cleans (c : call) : Prop := match c with CCleanup _ => True | _ => False end.

#[local] Instance ends_dec id c : Decision (ends id c).
Proof. destruct c; cbn; apply _. Defined.

(** ** One transaction through a run *)

Definition view (id : string) (m : TransactionManager)
    : option (TransactionState * list BufferedOperation) :=
  (λ t, (tx_state t, tx_operations t)) <$> tm_txns m !! id.

Lemma view_insert id id' txn m :
  view id (set_txns (<[id' := txn]> (tm_txns m)) m) =
  if decide (id' = id) then Some (tx_state txn, tx_operations txn) else view id m.
Proof.
  unfold view. cbn [tm_txns set_txns]. case_decide as H; [subst|].
  - by rewrite lookup_insert_eq.
  - by rewrite lookup_insert_ne.
Qed.

Lemma begin_inv now now' m id m' :
  begin process_id now now' m = (Ok id, m') →
  id = transaction_id_new process_id now ∧ view id m' = Some (Active, []).
Proof.
  unfold begin. case_match; intros [= <- <-]. split; [done|]. by rewrite view_insert, decide_True.
Qed.

(** The three calls that write do it to an active transaction, and refuse otherwise. *)
Definition update_active (id : string) (f : Transaction → Transaction) (m : TransactionManager)
    : TransactionManager :=
  match tm_txns m !! id with
  | Some t => match tx_state t with Active => set_txns (<[id := f t]> (tm_txns m)) m | _ => m end
  | None => m
  end.

Lemma after_update c m :
  match c with
  | CBuffer id _ | CCommit _ id | CRollback _ id => ∃ f,
    after c m = update_active id f m ∧
    ∀ t, (tx_state (f t), tx_operations (f t)) =
         match c with
         | CBuffer _ op => (Active, tx_operations t ++ [op])
         | CCommit _ _ => (Committed, tx_operations t)
         | _ => (RolledBack, [])
         end ∧
         tx_id (f t) = tx_id t ∧ tx_started_at (f t) = tx_started_at t ∧
         match tx_state (f t) with
         | Active => tx_completed_at (f t) = tx_completed_at t
         | _ => ∃ e, tx_completed_at (f t) = Some (rfc3339 e)
         end
  | _ => True
  end.
Proof.
  destruct c as [|id op|now id|now id| |]; try done; cbn [after];
    [unfold buffer_operation|unfold commit|unfold rollback]; unfold update_active.
  - exists (λ txn, {| tx_id := tx_id txn; tx_state := Active;
      tx_operations := tx_operations txn ++ [op]; tx_started_at := tx_started_at txn;
      tx_completed_at := tx_completed_at txn |}). split; [by repeat case_match|].
    intros t. cbn. by eauto.
  - exists (λ txn, {| tx_id := tx_id txn; tx_state := Committed;
      tx_operations := tx_operations txn; tx_started_at := tx_started_at txn;
      tx_completed_at := Some (rfc3339 now) |}). split; [by repeat case_match|].
    intros t. cbn. by eauto.
  - exists (λ txn, {| tx_id := tx_id txn; tx_state := RolledBack;
      tx_operations := []; tx_started_at := tx_started_at txn;
      tx_completed_at := Some (rfc3339 now) |}). split; [by repeat case_match|].
    intros t. cbn. by eauto.
Qed.

Lemma view_update_active id id' f m :
  view id (update_active id' f m) =
  if decide (id' = id) then
    match tm_txns m !! id with
    | Some t => match tx_state t with
                | Active => Some (tx_state (f t), tx_operations (f t))
                | _ => view id m
                end
    | None => None
    end
  else view id m.
Proof.
  unfold update_active. case_decide as Hd; [subst id'|].
  - unfold view. destruct (tm_txns m !! id) as [t|] eqn:Ht; [|by rewrite Ht].
    destruct (tx_state t); cbn [tm_txns set_txns]; by rewrite ?lookup_insert_eq, ?Ht.
  - unfold view. destruct (tm_txns m !! id') as [t|]; [destruct (tx_state t)|];
      cbn [tm_txns set_txns]; by rewrite ?(lookup_insert_ne _ id' id) by done.
Qed.

(** What a call that begins no transaction of that name does to it. *)
Definition next_view (id : string) (c : call) (v : option (TransactionState * list BufferedOperation))
    : option (TransactionState * list BufferedOperation) :=
  match v with
  | Some (Active, ops) =>
    if decide (ends id c) then
      match c with CCommit _ _ => Some (Committed, ops) | _ => Some (RolledBack, []) end
    else Some (Active, ops ++ buffered id [c])
  | v => v
  end.

Lemma next_view_update id c id' f m :
  match c with CBuffer i _ | CCommit _ i | CRollback _ i => i = id' | _ => False end →
  (∀ t, (tx_state (f t), tx_operations (f t)) =
         match c with
         | CBuffer _ op => (Active, tx_operations t ++ [op])
         | CCommit _ _ => (Committed, tx_operations t)
         | _ => (RolledBack, [])
         end) →
  view id (update_active id' f m) = next_view id c (view id m).
Proof.
  intros Hc Hf. rewrite view_update_active. unfold next_view, view.
  case_decide as Hd; [subst id'|]; (destruct (tm_txns m !! id) as [t|]; [|done]); cbn; rewrite ?Hf;
    destruct (tx_state t), c; cbn in *; simplify_eq; try done;
    repeat case_decide; simplify_eq; by rewrite ?app_nil_r.
Qed.

Lemma kept_lookup now timeout (txns : gmap string Transaction) id :
  filter (λ '(_, txn), expired now timeout txn = false) txns !! id =
  txns !! id ≫= λ t, if expired now timeout t then None else Some t.
Proof.
  rewrite map_lookup_filter. destruct (txns !! id) as [t|]; [|done]. cbn.
  destruct (expired now timeout t); by case_guard.
Qed.

Lemma view_after id c m :
  ¬ begins id c →
  view id (after c m) = next_view id c (view id m) ∨ cleans c ∧ view id (after c m) = None.
Proof.
  intros Hb. pose proof (after_update c m) as Hf.
  destruct c as [now now'|id' op|now id'|now id'|id'|now]; cbn [after] in Hf |- *.
  - left. unfold begin. case_match; cbn [snd]; [|rewrite view_insert, decide_False by done];
      unfold next_view; destruct (view id m) as [[[] ops]|]; cbn; by rewrite ?app_nil_r.
  - left. destruct Hf as (f & -> & Hf). apply next_view_update; [done|]. intros t. apply Hf.
  - left. destruct Hf as (f & -> & Hf). apply next_view_update; [done|]. intros t. apply Hf.
  - left. destruct Hf as (f & -> & Hf). apply next_view_update; [done|]. intros t. apply Hf.
  - left. unfold next_view. destruct (view id m) as [[[] ops]|]; cbn; by rewrite ?app_nil_r.
  - assert (next_view id (CCleanup now) (view id m) = view id m) as Hn.
    { unfold next_view. destruct (view id m) as [[[] ops]|]; cbn; by rewrite ?app_nil_r. }
    rewrite Hn. unfold cleanup_expired.
    destruct (duration_seconds _) as [timeout|]; [|by left]. 
    cbn [mbind option_bind fmap option_fmap option_map default from_option snd].
    unfold view, Datatypes.id. cbn [tm_txns set_txns]. rewrite kept_lookup.
    destruct (tm_txns m !! id) as [t|]; [|by left]. cbn.
    by destruct (expired now timeout t); [right|left].
Qed.

(** An ended transaction stays ended; an active one has what was buffered. *)
Lemma view_run id cs m ops :
  Forall (λ c, ¬ begins id c) cs → view id m = Some (Active, ops) →
  match view id (after_all cs m) with
  | Some (Active, ops') => ops' = ops ++ buffered id cs ∧ Forall (λ c, ¬ ends id c) cs
  | Some (Committed, ops') => ∃ cs1 now cs2,
      cs = cs1 ++ CCommit now id :: cs2 ∧ ops' = ops ++ buffered id cs1
  | Some (RolledBack, ops') => Exists (ends id) cs ∧ ops' = []
  | None => Exists cleans cs
  end.
Proof.
  intros Hb Hv. induction cs as [|c cs IH] using rev_ind.
  { cbn. rewrite Hv. by rewrite app_nil_r. }
  apply Forall_app in Hb as [Hb Hc]. apply (proj1 (Forall_singleton _ _)) in Hc. specialize (IH Hb).
  unfold after_all. rewrite foldl_app. cbn [foldl]. fold (after_all cs m).
  unfold buffered. rewrite omap_app. fold (buffered id cs). fold (buffered id [c]).
  destruct (view_after id c (after_all cs m) Hc) as [->|[Hcl ->]];
    [|apply Exists_app; right; by constructor].
  destruct (view id (after_all cs m)) as [[[] ops']|]; cbn [next_view].
  - destruct IH as [-> Hends]. case_decide as He.
    + destruct c as [| |now i|now i| |]; cbn in He; try done; subst i.
      * by exists cs, now, [].
      * split; [|done]. apply Exists_app. right. by constructor.
    + split; [by rewrite app_assoc|]. apply Forall_app. split; [done|]. by constructor.
  - destruct IH as (cs1 & now & cs2 & -> & ->). exists cs1, now, (cs2 ++ [c]).
    by rewrite <- app_assoc.
  - split; [|by destruct IH]. apply Exists_app. by left; destruct IH.
  - apply Exists_app. by left.
Qed.

Lemma ended_run id cs m s ops :
  Forall (λ c, ¬ begins id c) cs → s ≠ Active → view id m = Some (s, ops) →
  view id (after_all cs m) = Some (s, ops) ∨ view id (after_all cs m) = None.
Proof.
  intros Hb Hs Hv. induction cs as [|c cs IH] using rev_ind; [by left|].
  apply Forall_app in Hb as [Hb Hc]. apply (proj1 (Forall_singleton _ _)) in Hc.
  unfold after_all. rewrite foldl_app. cbn [foldl]. fold (after_all cs m).
  destruct (view_after id c (after_all cs m) Hc) as [->|[_ ->]]; [|by right].
  destruct (IH Hb) as [-> | ->]; [left|by right]. by destruct s.
Qed.

Lemma commit_result now id m :
  (commit now id m).1 =
  match view id m with
  | Some (Active, ops) => Ok ops
  | Some (s, _) => Err (ended_error id s)
  | None => Err (NotFound id)
  end.
Proof.
  unfold commit, view. destruct (tm_txns m !! id) as [t|]; [|done]. cbn. by destruct (tx_state t).
Qed.

Lemma commit_refused now id m e m' : commit now id m = (Err e, m') → m' = m.
Proof. unfold commit. by repeat case_match; intros; simplify_eq. Qed.

Lemma rollback_result now id m :
  (rollback now id m).1 =
  match view id m with
  | Some (Active, ops) => Ok (length ops)
  | Some (s, _) => Err (ended_error id s)
  | None => Err (NotFound id)
  end.
Proof.
  unfold rollback, view. destruct (tm_txns m !! id) as [t|]; [|done]. cbn.
  by destruct (tx_state t).
Qed.

Lemma buffer_result id op m :
  (buffer_operation id op m).1 =
  match view id m with
  | Some (Active, _) => Ok ()
  | Some (s, _) => Err (ended_error id s)
  | None => Err (NotFound id)
  end.
Proof.
  unfold buffer_operation, view. destruct (tm_txns m !! id) as [t|]; [|done]. cbn.
  by destruct (tx_state t).
Qed.


(** ** How many transactions are active *)

Definition manager_inv (m : TransactionManager) : Prop :=
  (active_count (tm_txns m) ≤ max_concurrent (tm_config m))%nat ∧
  map_Forall (λ id t,
    tx_id t = id ∧ String.length id = 32%nat ∧ (∃ s, tx_started_at t = rfc3339 s) ∧
    match tx_state t with
    | Active => tx_completed_at t = None
    | _ => ∃ e, tx_completed_at t = Some (rfc3339 e)
    end) (tm_txns m).

Lemma active_count_insert id t txns :
  (active_count (<[id := t]> txns) ≤
   active_count txns + if decide (tx_state t = Active) then 1 else 0)%nat.
Proof.
  unfold active_count. case_decide as Hs.
  - rewrite map_filter_insert_True by done. rewrite map_size_insert. case_match; unfold Datatypes.id; lia.
  - rewrite map_filter_insert_False by done.
    rewrite map_filter_delete, Nat.add_0_r. apply map_subseteq_size, delete_subseteq.
Qed.

Lemma active_count_update id t u txns :
  txns !! id = Some u → tx_state u = Active →
  (active_count (<[id := t]> txns) ≤ active_count txns)%nat.
Proof.
  intros Hu Hs. unfold active_count.
  assert (filter (λ '(_, t), tx_state t = Active) txns !! id = Some u) as Hf
    by by apply map_lookup_filter_Some_2.
  destruct (decide (tx_state t = Active)).
  - rewrite map_filter_insert_True by done. rewrite map_size_insert_Some; [done|by rewrite Hf].
  - rewrite map_filter_insert_False by done. rewrite map_filter_delete.
    apply map_subseteq_size, delete_subseteq.
Qed.

Lemma string_of_list_ascii_length l : String.length (String.string_of_list_ascii l) = length l.
Proof. induction l; [done|]. cbn. by f_equal. Qed.

Lemma hex_string_length bs : String.length (hex_string bs) = (2 * length bs)%nat.
Proof.
  unfold hex_string. rewrite string_of_list_ascii_length.
  induction bs as [|b bs IH]; [done|]. cbn in *. lia.
Qed.

Lemma transaction_id_length now : String.length (transaction_id_new process_id now) = 32%nat.
Proof.
  unfold transaction_id_new. rewrite hex_string_length, length_take.
  rewrite length_vec_to_list. done.
Qed.

Lemma inv_update_active id f m :
  manager_inv m →
  (∀ t, tx_id (f t) = tx_id t ∧ tx_started_at (f t) = tx_started_at t ∧
        match tx_state (f t) with
        | Active => tx_completed_at (f t) = tx_completed_at t
        | _ => ∃ e, tx_completed_at (f t) = Some (rfc3339 e)
        end) →
  manager_inv (update_active id f m).
Proof.
  intros [Hn Hm] Hf. unfold update_active. destruct (tm_txns m !! id) as [t|] eqn:Ht; [|done].
  destruct (tx_state t) eqn:Hs; [|done..]. split; cbn.
  - etrans; [|exact Hn]. by eapply active_count_update.
  - apply map_Forall_insert_2; [|done]. apply Hm in Ht as (Hid & Hl & Hst & Hc).
    rewrite Hs in Hc. destruct (Hf t) as (-> & -> & Hf'). split_and!; [done..|].
    destruct (tx_state (f t)); [|done..]. congruence.
Qed.

Lemma inv_after_call c m : manager_inv m → manager_inv (after c m).
Proof.
  intros Hinv. pose proof Hinv as [Hn Hm]. pose proof (after_update c m) as Hf.
  destruct c as [now now'|id op|now id|now id|id|now]; cbn [after] in Hf |- *.
  - unfold begin. case_match eqn:Hmax; [done|]. apply Nat.leb_gt in Hmax. split; cbn.
    + etrans; [apply active_count_insert|]. cbn. case_decide; lia.
    + apply map_Forall_insert_2; [|done]. split_and!; [done|apply transaction_id_length| |done].
      by exists now'.
  - destruct Hf as (f & -> & Hf). apply inv_update_active; [done|]. intros t. by destruct (Hf t).
  - destruct Hf as (f & -> & Hf). apply inv_update_active; [done|]. intros t. by destruct (Hf t).
  - destruct Hf as (f & -> & Hf). apply inv_update_active; [done|]. intros t. by destruct (Hf t).
  - done.
  - unfold cleanup_expired. destruct (duration_seconds _) as [timeout|]; [|done].
    cbn [mbind option_bind fmap option_fmap option_map default from_option snd].
    unfold Datatypes.id. split; cbn.
    + etrans; [|exact Hn]. apply map_subseteq_size.
      apply map_filter_strong_subseteq_ext. intros i t [Hs Hi]. split; [done|].
      rewrite kept_lookup in Hi. apply bind_Some in Hi as (u & Hu & Hi).
      by destruct (expired now timeout u); simplify_eq.
    + intros i t Hi. rewrite kept_lookup in Hi. apply bind_Some in Hi as (u & Hu & Hi).
      destruct (expired now timeout u); simplify_eq. by apply Hm.
Qed.
Lemma inv_after_all cs m : manager_inv m → manager_inv (after_all cs m).
Proof.
  intros Hm. induction cs as [|c cs IH] using rev_ind; [done|].
  unfold after_all. rewrite foldl_app. by apply inv_after_call.
Qed.

Lemma manager_new_inv config : manager_inv (manager_new config).
Proof.
  split; [|by apply map_Forall_empty]. unfold active_count. cbn.
  rewrite map_filter_empty, map_size_empty. lia.
Qed.

(** In every run, at most [max_concurrent] transactions are active; each is stored under
    its own name, of 32 digits, so that printing it does not panic; and it has a time of
    completion exactly when it has ended. *)
Theorem active_transactions_bounded (config : TransactionConfig) (cs : list call) :
  let m := after_all cs (manager_new config) in
  (active_count (tm_txns m) ≤ max_concurrent (tm_config m))%nat ∧
  ∀ id t, tm_txns m !! id = Some t →
    tx_id t = id ∧ is_Some (transaction_id_display id) ∧
    (tx_state t = Active ↔ tx_completed_at t = None).
Proof.
  intros m. destruct (inv_after_all cs _ (manager_new_inv config)) as [Hn Hm]. fold m in Hn, Hm.
  split; [done|]. intros id t Ht. apply Hm in Ht as (Hid & Hl & _ & Hc). split_and!; [done| |].
  - unfold transaction_id_display. by rewrite Hl.
  - destruct (tx_state t); [done|naive_solver..].
Qed.

(** ** The cleanup *)

(** A cleanup that does not panic removes exactly the transactions whose completion, or
    whose beginning if they are still active, is longer ago than the timeout, and counts
    them.  An active transaction is removed with the operations buffered in it: it does not
    end, and a later commit does not find it. *)
Theorem cleanup_exact {CTL : ChronoTextLaws CT} (config : TransactionConfig) (cs : list call)
    (now : DateTime) (n : nat) (m' : TransactionManager) :
  let m := after_all cs (manager_new config) in
  cleanup_expired now m = Some (n, m') →
  (n + size (tm_txns m') = size (tm_txns m))%nat ∧
  ∀ id t, tm_txns m !! id = Some t → ∃ last,
    (tx_state t = Active → tx_started_at t = rfc3339 last) ∧
    (tx_state t ≠ Active → tx_completed_at t = Some (rfc3339 last)) ∧
    let old := to_signed 64 (timeout_seconds (tm_config m)) * 10 ^ 9
                 <? signed_duration_since now last in
    tm_txns m' !! id = (if old then None else Some t) ∧
    (old = true → (commit now id m').1 = Err (NotFound id)).
Proof.
  intros m. destruct (inv_after_all cs _ (manager_new_inv config)) as [_ Hm]. fold m in Hm.
  unfold cleanup_expired, duration_seconds. case_match; [|done].
  set (timeout := _ * 10 ^ 9). cbn [mbind option_bind]. intros [= <- <-]. cbn [tm_txns set_txns].
  split.
  - rewrite <- map_size_disj_union.
    + f_equal. apply map_eq. intros id. rewrite lookup_union, kept_lookup, map_lookup_filter.
      destruct (tm_txns m !! id) as [t|]; [|done]. cbn.
      destruct (expired now timeout t); by case_guard.
    + apply map_disjoint_spec. intros id t u [Ht He]%map_lookup_filter_Some
        [Hu He']%map_lookup_filter_Some. cbn in He, He'. congruence.
  - intros id t Ht. pose proof (Hm _ _ Ht) as (_ & _ & [s Hst] & Hc).
    set (kept := filter _ _).
    assert (kept !! id = if expired now timeout t then None else Some t) as Hkept
      by (unfold kept; by rewrite kept_lookup, Ht).
    assert (∀ last, expired now timeout t = (timeout <? signed_duration_since now last) →
      kept !! id = (if timeout <? signed_duration_since now last then None else Some t) ∧
      ((timeout <? signed_duration_since now last) = true →
       (commit now id (set_txns kept m)).1 = Err (NotFound id))) as Hlast.
    { intros last He. rewrite <- He. split; [done|]. intros Hold. unfold commit. cbn.
      by rewrite Hkept, Hold. }
    destruct (tx_state t) eqn:Hs.
    + exists s. split; [done|]. split; [done|]. apply Hlast. unfold expired. rewrite Hs, Hst. cbn.
      by rewrite parse_rfc3339.
    + destruct Hc as [e He]. exists e. split; [done|]. split; [done|]. apply Hlast.
      unfold expired. rewrite Hs, He. cbn. by rewrite parse_rfc3339.
    + destruct Hc as [e He]. exists e. split; [done|]. split; [done|]. apply Hlast.
      unfold expired. rewrite Hs, He. cbn. by rewrite parse_rfc3339.
Qed.

(** ** Names *)

(** A name is drawn from the nanosecond and the process alone: a transaction begun in the
    nanosecond in which another one was begun takes its place.  Its commit returns only what
    was buffered after the second beginning, and the first client's commit is refused. *)
Theorem same_nanosecond_replaces (m m1 : TransactionManager) (now now' now2 now2' : DateTime)
    (id : string) (cs cs2 : list call) :
  begin process_id now now' m = (Ok id, m1) →
  timestamp_nanos_opt now2 = timestamp_nanos_opt now →
  (active_count (tm_txns (after_all cs m1)) < max_concurrent (tm_config (after_all cs m1)))%nat →
  Forall (λ c, ¬ begins id c ∧ ¬ ends id c ∧ ¬ cleans c) cs2 →
  let '(r2, m2) := begin process_id now2 now2' (after_all cs m1) in
  let '(r, m3) := commit now2 id (after_all cs2 m2) in
  r2 = Ok id ∧ r = Ok (buffered id cs2) ∧ (commit now2 id m3).1 = Err (AlreadyCommitted id).
Proof.
  intros [-> _]%begin_inv Hnanos Hn Hcs2.
  set (id := transaction_id_new process_id now) in *.
  assert (transaction_id_new process_id now2 = id) as Hid
    by (unfold id, transaction_id_new; by rewrite Hnanos).
  destruct (begin process_id now2 now2' (after_all cs m1)) as [r2 m2] eqn:Hbegin.
  assert (r2 = Ok id) as ->.
  { unfold begin in Hbegin. rewrite (proj2 (Nat.leb_gt _ _)) in Hbegin by done. congruence. }
  apply begin_inv in Hbegin as [_ Hv].
  pose proof (view_run id cs2 m2 [] (Forall_impl _ _ _ Hcs2 (λ _ H, proj1 H)) Hv) as Hrun.
  pose proof (commit_result now2 id (after_all cs2 m2)) as Hr.
  pose proof (view_after id (CCommit now2 id) (after_all cs2 m2) (λ H, H)) as [Hafter|[[] _]].
  cbn [after] in Hafter.
  assert (∀ P, Exists P cs2 → (∀ c, P c → ends id c ∨ cleans c) → False) as Hno.
  { intros P HP Himpl. apply Exists_exists in HP as (c & Hc & HPc).
    rewrite Forall_forall in Hcs2. naive_solver. }
  destruct (commit now2 id (after_all cs2 m2)) as [r m3]. cbn in Hr, Hafter.
  destruct (view id (after_all cs2 m2)) as [[[] ops]|]; subst r.
  - destruct Hrun as [-> _]. split_and!; [done|done|]. cbn in Hafter.
    rewrite decide_True in Hafter by done. by rewrite commit_result, Hafter.
  - destruct Hrun as (cs1 & now3 & cs3 & -> & _). exfalso. apply (Hno (ends id)); [|by left].
    apply Exists_app. right. by constructor.
  - destruct Hrun as [Hrun _]. exfalso. apply (Hno _ Hrun). by left.
  - exfalso. apply (Hno _ Hrun). by right.
Qed.
(** ** Over HTTP *)

Inductive request :=
| RBegin (now now' : DateTime)
| RCommit (now : DateTime) (id : string)
| RRollback (now : DateTime) (id : string)
| RStatus (id : string).

Definition serve_request (r : request) (m : TransactionManager) : TransactionManager :=
  match r with
  | RBegin now now' => (transaction_begin_handler process_id now now' m).2
  | RCommit now id => (transaction_commit_handler now id m).2
  | RRollback now id => (transaction_rollback_handler now id m).2
  | RStatus _ => m
  end.

Definition serve_requests (rs : list request) (m : TransactionManager) : TransactionManager :=
  foldl (λ m r, serve_request r m) m rs.

Definition request_call (r : request) : call :=
  match r with
  | RBegin now now' => CBegin now now'
  | RCommit now id => CCommit now id
  | RRollback now id => CRollback now id
  | RStatus id => CStatus id
  end.

Lemma serve_request_after r m : serve_request r m = after (request_call r) m.
Proof.
  destruct r as [now now'|now id|now id|id]; cbn [serve_request request_call after];
    unfold transaction_begin_handler, transaction_commit_handler, transaction_rollback_handler;
    [by destruct (begin process_id now now' m)|by destruct (commit now id m)
    |by destruct (rollback now id m)|done].
Qed.

Lemma request_call_quiet r id : buffered id [request_call r] = [] ∧ ¬ cleans (request_call r).
Proof. split; [by destruct r|]. destruct r; by intros []. Qed.

Lemma view_after_request id c m :
  ¬ cleans c →
  view id (after c m) = next_view id c (view id m) ∨ view id (after c m) = Some (Active, []).
Proof.
  intros Hc. destruct c as [now now'|id0 operation|now id0|now id0|id0|now].
  - cbn [after]. unfold begin. case_match; cbn [snd]; [|rewrite view_insert; case_decide; [by right|]];
      left; unfold next_view; destruct (view id m) as [[[] ops]|]; cbn; by rewrite ?app_nil_r.
  - left. by destruct (view_after id (CBuffer id0 operation) m (λ H, H)) as [?|[? _]].
  - left. by destruct (view_after id (CCommit now id0) m (λ H, H)) as [?|[? _]].
  - left. by destruct (view_after id (CRollback now id0) m (λ H, H)) as [?|[? _]].
  - left. by destruct (view_after id (CStatus id0) m (λ H, H)) as [?|[? _]].
  - by destruct Hc.
Qed.

Lemma served_empty config rs id s ops :
  view id (serve_requests rs (manager_new config)) = Some (s, ops) → ops = [].
Proof.
  revert id s ops.
  induction rs as [|r rs IH] using rev_ind; intros id s ops.
  { unfold view. cbn. by rewrite lookup_empty. }
  unfold serve_requests. rewrite foldl_app. cbn [foldl]. fold (serve_requests rs (manager_new config)).
  rewrite serve_request_after. destruct (request_call_quiet r id) as [Hnil Hcl].
  set (c := request_call r) in *.
  assert (∀ v, (∀ s ops, v = Some (s, ops) → ops = []) → next_view id c v = Some (s, ops) → ops = [])
    as Hnext.
  { intros [[[] ops']|] Hv; cbn [next_view]; [|naive_solver..]. rewrite Hnil, (Hv _ _ eq_refl).
    repeat case_match; naive_solver. }
  destruct (view_after_request id c (serve_requests rs (manager_new config)) Hcl) as [-> | ->];
    [apply Hnext, IH|naive_solver].
Qed.

Lemma served_dom rs' m : dom (tm_txns m) ⊆ dom (tm_txns (serve_requests rs' m)).
Proof.
  induction rs' as [|r rs' IH] using rev_ind; [done|].
  unfold serve_requests. rewrite foldl_app. cbn [foldl]. fold (serve_requests rs' m).
  etrans; [exact IH|]. clear IH. generalize (serve_requests rs' m). clear m. intros m id Hid.
  rewrite serve_request_after. destruct (request_call_quiet r id) as [Hnil Hcl].
  set (c := request_call r) in *.
  assert (∀ m, id ∈ dom (tm_txns m) ↔ is_Some (view id m)) as Hdom.
  { intros m'. unfold view. rewrite elem_of_dom. by rewrite fmap_is_Some. }
  apply Hdom in Hid as [v Hv]. apply Hdom.
  assert (is_Some (next_view id c (view id m))) as Hnext.
  { rewrite Hv. destruct v as [[] ops]; cbn; repeat case_match; eauto. }
  destruct (view_after_request id c m Hcl) as [-> | ->]; [exact Hnext|by eexists].
Qed.

(** No handler buffers an operation and none cleans up: whatever is requested, every
    transaction is empty, so that a commit answers with a count of zero; and no transaction is
    ever forgotten. *)
Theorem served_transactions_are_empty (config : TransactionConfig) (rs rs' : list request) :
  let m := serve_requests rs (manager_new config) in
  (∀ id t, tm_txns m !! id = Some t → tx_operations t = []) ∧
  (∀ now id st m', transaction_commit_handler now id m = (Ok st, m') →
    st_state st = Committed ∧ st_operation_count st = 0%nat) ∧
  dom (tm_txns m) ⊆ dom (tm_txns (serve_requests rs' m)).
Proof.
  intros m. pose proof (served_empty config rs) as Hm. fold m in Hm. split_and!.
  - intros id t Ht. apply (Hm id (tx_state t)). unfold view. by rewrite Ht.
  - intros now id st m'. unfold transaction_commit_handler.
    pose proof (commit_result now id m) as Hr.
    pose proof (view_after id (CCommit now id) m (λ H, H)) as [Hv|[[] _]]. cbn [after] in Hv.
    destruct (commit now id m) as [r m'']. cbn in Hr, Hv. subst r.
    destruct (view id m) as [[[] ops]|] eqn:Hview; [|discriminate..].
    apply Hm in Hview as ->. unfold next_view in Hv. rewrite decide_True in Hv by done.
    unfold view in Hv. unfold status. cbn. destruct (tm_txns m'' !! id) as [t|]; [|done].
    intros [= <- <-]. cbn in *. injection Hv as -> ->. done.
  - apply served_dom.
Qed.
End runs.
