(* ===== verification/ApiHexads.v ===== *)
(** * The handlers on entities

    Models the handlers of [src/rust-core/verisim-api/src/lib.rs] that work on the hexad
    store: entities and their searches, queries stored as entities ([query_hexad.rs] of
    [verisim-hexad] makes them), provenance and space.
    A handler is given the state of the store; one that writes returns the new state.  The
    status of an answer is given where it is not 200. *)

From S2P Require Import Prelude Floats LockTable Provenance Temporal Graph Modality VectorSearch HexadTypes HexadStore PlanCache ApiCommon.
From stdpp Require Import pretty.
From Stdlib Require String.
From Stdlib Require Import SpecFloat.
Local Open Scope Z_scope.

(** ** Queries as entities

    Models [src/rust-core/verisim-hexad/src/query_hexad.rs]: the builder that makes the input
    of a hexad from the text of a query and what is known of it. *)

Section queries.
Context {CH : Chrono} {PL : Platform}.

Record QueryExecution := {
  qe_executed_at : DateTime; qe_duration_ms : Z; qe_result_count : Z; qe_estimated_cost : f64;
}.

Record QueryHexadBuilder := {
  qb_query_text : string; qb_query_id : option string;
  qb_parse_tree_triples : list (string * string * string);
  qb_embedding : option (list f32); qb_cost_vector : option (list f64);
  qb_proof_obligations : list string; qb_executions : list QueryExecution;
  qb_metadata : gmap string string;
}.

Definition query_new (query_text : string) : QueryHexadBuilder :=
  {| qb_query_text := query_text; qb_query_id := None; qb_parse_tree_triples := [];
     qb_embedding := None; qb_cost_vector := None; qb_proof_obligations := [];
     qb_executions := []; qb_metadata := ∅ |}.

Definition with_id (id : string) (b : QueryHexadBuilder) : QueryHexadBuilder :=
  {| qb_query_text := qb_query_text b; qb_query_id := Some id;
     qb_parse_tree_triples := qb_parse_tree_triples b; qb_embedding := qb_embedding b;
     qb_cost_vector := qb_cost_vector b; qb_proof_obligations := qb_proof_obligations b;
     qb_executions := qb_executions b; qb_metadata := qb_metadata b |}.

Definition with_parse_tree (triples : list (string * string * string)) (b : QueryHexadBuilder)
    : QueryHexadBuilder :=
  {| qb_query_text := qb_query_text b; qb_query_id := qb_query_id b;
     qb_parse_tree_triples := triples; qb_embedding := qb_embedding b;
     qb_cost_vector := qb_cost_vector b; qb_proof_obligations := qb_proof_obligations b;
     qb_executions := qb_executions b; qb_metadata := qb_metadata b |}.

Definition with_embedding (embedding : list f32) (b : QueryHexadBuilder) : QueryHexadBuilder :=
  {| qb_query_text := qb_query_text b; qb_query_id := qb_query_id b;
     qb_parse_tree_triples := qb_parse_tree_triples b; qb_embedding := Some embedding;
     qb_cost_vector := qb_cost_vector b; qb_proof_obligations := qb_proof_obligations b;
     qb_executions := qb_executions b; qb_metadata := qb_metadata b |}.

Definition with_cost_vector (costs : list f64) (b : QueryHexadBuilder) : QueryHexadBuilder :=
  {| qb_query_text := qb_query_text b; qb_query_id := qb_query_id b;
     qb_parse_tree_triples := qb_parse_tree_triples b; qb_embedding := qb_embedding b;
     qb_cost_vector := Some costs; qb_proof_obligations := qb_proof_obligations b;
     qb_executions := qb_executions b; qb_metadata := qb_metadata b |}.

Definition with_proof_obligations (obligations : list string) (b : QueryHexadBuilder)
    : QueryHexadBuilder :=
  {| qb_query_text := qb_query_text b; qb_query_id := qb_query_id b;
     qb_parse_tree_triples := qb_parse_tree_triples b; qb_embedding := qb_embedding b;
     qb_cost_vector := qb_cost_vector b; qb_proof_obligations := obligations;
     qb_executions := qb_executions b; qb_metadata := qb_metadata b |}.

Definition with_execution (execution : QueryExecution) (b : QueryHexadBuilder) : QueryHexadBuilder :=
  {| qb_query_text := qb_query_text b; qb_query_id := qb_query_id b;
     qb_parse_tree_triples := qb_parse_tree_triples b; qb_embedding := qb_embedding b;
     qb_cost_vector := qb_cost_vector b; qb_proof_obligations := qb_proof_obligations b;
     qb_executions := qb_executions b ++ [execution]; qb_metadata := qb_metadata b |}.

Definition with_metadata (key value : string) (b : QueryHexadBuilder) : QueryHexadBuilder :=
  {| qb_query_text := qb_query_text b; qb_query_id := qb_query_id b;
     qb_parse_tree_triples := qb_parse_tree_triples b; qb_embedding := qb_embedding b;
     qb_cost_vector := qb_cost_vector b; qb_proof_obligations := qb_proof_obligations b;
     qb_executions := qb_executions b; qb_metadata := <[key := value]> (qb_metadata b) |}.

(** [max_len] counts bytes; [None] is the panic of a cut inside a character. *)
Definition truncate (s : string) (max_len : nat) : option string :=
  if (String.length s <=? max_len)%nat then Some s
  else (λ t, t +:+ "...") <$> slice_to (max_len - 3) s.

Definition query_fields (query_text : string) (executions : list QueryExecution)
    : gmap string string :=
  let fields := <["query_text" := query_text]> (<["type" := "vql_query"]> ∅) in
  match last executions with
  | None => fields
  | Some execution =>
    <["execution_count" := pretty (length executions)]>
      (<["last_executed" := to_rfc3339 (qe_executed_at execution)]> fields)
  end.

(** [fresh] is the random identifier, drawn only when none was given. *)
Definition build (fresh : Uuid) (b : QueryHexadBuilder) : option (string * HexadInput) :=
  let id := default ("query-" +:+ uuid_to_string fresh) (qb_query_id b) in
  title ← truncate (qb_query_text b) 80;
  Some (id,
    {| hi_graph := match qb_parse_tree_triples b with
                   | [] => None
                   | triples => Some {| relationships := (λ '(_, pred, object), (pred, object)) <$> triples |}
                   end;
       hi_vector := (λ embedding, {| hv_embedding := embedding; hv_model := Some "query-embedding" |})
                      <$> qb_embedding b;
       hi_tensor := (λ costs, {| ht_shape := [1; zlength costs]; ht_data := costs |}) <$> qb_cost_vector b;
       hi_semantic := match qb_proof_obligations b with
                      | [] => None
                      | types => Some {| hm_types := types; hm_properties := ∅ |}
                      end;
       hi_document := Some {| hd_title := "VQL Query: " +:+ title; hd_body := qb_query_text b;
                              hd_fields := query_fields (qb_query_text b) (qb_executions b) |};
       hi_provenance := None; hi_spatial := None; hi_metadata := qb_metadata b |}).

End queries.

(** ** Requests *)

Record TensorRequest := { tq_shape : list Z; tq_data : list f64 }.
Record ProvenanceRequest := {
  vq_event_type : string; vq_actor : string; vq_source : option string; vq_description : string;
}.
Record SpatialRequest := {
  sq_latitude : f64; sq_longitude : f64; sq_altitude : option f64;
  sq_geometry_type : option string; sq_srid : option Z; sq_properties : option (gmap string string);
}.

Record HexadRequest := {
  hq_title : option string; hq_body : option string; hq_embedding : option (list f32);
  hq_types : option (list string); hq_relationships : option (list (string * string));
  hq_tensor : option TensorRequest; hq_provenance : option ProvenanceRequest;
  hq_spatial : option SpatialRequest; hq_metadata : option (gmap string string);
}.

Definition document_without_fields (title body : string) : HexadDocumentInput :=
  {| hd_title := title; hd_body := body; hd_fields := ∅ |}.

Definition provenance_input (p : ProvenanceRequest) : HexadProvenanceInput :=
  {| hp_event_type := vq_event_type p; hp_actor := vq_actor p; hp_source := vq_source p;
     hp_description := vq_description p |}.

Definition to_hexad_input (r : HexadRequest) : HexadInput :=
  {| hi_graph := (λ rs, {| relationships := rs |}) <$> hq_relationships r;
     hi_vector := (λ e, {| hv_embedding := e; hv_model := None |}) <$> hq_embedding r;
     hi_tensor := (λ t, {| ht_shape := tq_shape t; ht_data := tq_data t |}) <$> hq_tensor r;
     hi_semantic := (λ ts, {| hm_types := ts; hm_properties := ∅ |}) <$> hq_types r;
     hi_document := match hq_title r, hq_body r with
                    | Some title, Some body => Some (document_without_fields title body)
                    | Some title, None => Some (document_without_fields title "")
                    | None, _ => None
                    end;
     hi_provenance := provenance_input <$> hq_provenance r;
     hi_spatial := (λ l, {| hl_latitude := sq_latitude l; hl_longitude := sq_longitude l;
                            hl_altitude := sq_altitude l; hl_geometry_type := sq_geometry_type l;
                            hl_srid := sq_srid l; hl_properties := default ∅ (sq_properties l) |})
                     <$> hq_spatial r;
     hi_metadata := default ∅ (hq_metadata r) |}.

Record ListQuery := { lq_limit : option nat; lq_offset : option nat }.
Record SearchQuery := { tq_q : option string; tq_limit : option nat }.
Record VectorSearchRequest := { eq_vector : list f32; eq_k : option nat }.

Record StoreQueryRequest := {
  kq_query : string; kq_embedding : option (list f32); kq_cost_vector : option (list f64);
  kq_proof_obligations : option (list string);
}.

Record RadiusSearchRequest := {
  rq_latitude : f64; rq_longitude : f64; rq_radius_km : f64; rq_limit : option nat;
}.
Record BoundsSearchRequest := {
  bq_min_lat : f64; bq_min_lon : f64; bq_max_lat : f64; bq_max_lon : f64; bq_limit : option nat;
}.
Record NearestSearchRequest := { nq_latitude : f64; nq_longitude : f64; nq_k : option nat }.

(** ** Responses *)

Record HexadStatusResponse := { xr_created_at : string; xr_modified_at : string; xr_version : Z }.

Record HexadResponse := {
  hr_id : string; hr_status : HexadStatusResponse; hr_has_graph : bool; hr_has_vector : bool;
  hr_has_tensor : bool; hr_has_semantic : bool; hr_has_document : bool; hr_has_provenance : bool;
  hr_has_spatial : bool; hr_version_count : Z; hr_provenance_chain_length : Z;
}.

Record SearchResultResponse := { tr_id : string; tr_score : f32; tr_title : option string }.

Record ProvenanceRecordResponse := {
  pr_event_type : string; pr_actor : string; pr_timestamp : string; pr_source : option string;
  pr_description : string; pr_content_hash : string;
}.
Record ProvenanceChainResponse := {
  cr_entity_id : string; cr_chain_length : nat; cr_chain_valid : bool;
  cr_records : list ProvenanceRecordResponse;
}.

(** The [json!] objects of the two handlers that write no record of their own. *)
Record RecordedResponse := { dr_entity_id : string; dr_chain_length : Z; dr_recorded : bool }.
Record VerifiedResponse := { er_entity_id : string; er_has_provenance : bool; er_chain_valid : bool }.

Record SpatialSearchResultResponse := {
  lr_entity_id : string; lr_latitude : f64; lr_longitude : f64; lr_distance_km : f64;
}.

Definition CREATED : Z := 201.
Definition ACCEPTED : Z := 202.
Definition NO_CONTENT : Z := 204.

(** [verify_chain] of the trait [ProvenanceStore], which the hexad store has no use for. *)
Class ProvenanceVerify (P : Type) := { ps_verify_chain : string → P → result string bool }.

#[export] Instance memory_provenance_verify {CH : Chrono} {D : Digest}
    : ProvenanceVerify (gmap string ProvenanceChain) :=
  {| ps_verify_chain := λ id s, printed provenance_error_to_string (verify_chain id s) |}.

Section handlers.
Context {CH : Chrono} {PL : Platform} {BK : Backends} {UH : UnicodeChar}.
Context {SQ : SpatialQueries bk_spatial} {PV : ProvenanceVerify bk_provenance}.
Context (config : HexadConfig) (api : ApiConfig).

Definition is_some {A} (o : option A) : bool := if o is Some _ then true else false.

Definition hexad_response (h : Hexad) : HexadResponse :=
  {| hr_id := h_id h;
     hr_status := {| xr_created_at := to_rfc3339 (hs_created_at (h_status h));
                     xr_modified_at := to_rfc3339 (hs_modified_at (h_status h));
                     xr_version := hs_version (h_status h) |};
     hr_has_graph := is_some (h_graph_node h); hr_has_vector := is_some (h_embedding h);
     hr_has_tensor := is_some (h_tensor h); hr_has_semantic := is_some (h_semantic h);
     hr_has_document := is_some (h_document h);
     hr_has_provenance := 0 <? h_provenance_chain_length h;
     hr_has_spatial := is_some (h_spatial_data h); hr_version_count := h_version_count h;
     hr_provenance_chain_length := h_provenance_chain_length h |}.

Definition hexad_responses (hs : list Hexad) : list HexadResponse := hexad_response <$> hs.

(** ** The errors of the hexad store *)

Definition internal_error {A} (r : result HexadError A) : result ApiError A :=
  map_err (λ e, ApiInternal (hexad_error_to_string e)) r.

(** [message] is what an unknown entity is answered with. *)
Definition not_found_or_internal {A} (message : string) (r : result HexadError A) : result ApiError A :=
  map_err (λ e, match e with
                | HexadNotFound _ => ApiNotFound message
                | _ => ApiInternal (hexad_error_to_string e)
                end) r.

Definition hexad_not_found (id : string) : string := "Hexad " +:+ id +:+ " not found".

(** [hexad_store.get(&id).await.map_err(..)?.ok_or_else(..)?] *)
Definition get_or_not_found (message id : string) (s : HexadState) : result ApiError Hexad :=
  h ← internal_error (hexad_get config id s);
  ok_or (ApiNotFound message) h.

(** Run an operation that writes once the checks have passed. *)
Definition checked {A B} (check : result ApiError A) (run : HexadState → result ApiError B * HexadState)
    (s : HexadState) : result ApiError B * HexadState :=
  match check with Err e => (Err e, s) | Ok _ => run s end.

(** ** Entities *)

Definition list_hexads_handler (params : ListQuery) (s : HexadState)
    : result ApiError (list HexadResponse) :=
  let limit := validate_limit (default 100%nat (lq_limit params)) in
  let offset := default 0%nat (lq_offset params) in
  hexads ← internal_error (hexad_list config limit offset s);
  Ok (hexad_responses hexads).

Definition create_hexad_handler (request : HexadRequest) (s : HexadState)
    : result ApiError (Z * HexadResponse) * HexadState :=
  let '(r, s) := create config (to_hexad_input request) s in
  (hexad ← internal_error r; Ok (CREATED, hexad_response hexad), s).

Definition get_hexad_handler (id : string) (s : HexadState) : result ApiError HexadResponse :=
  _ ← validate_hexad_id id;
  hexad ← get_or_not_found (hexad_not_found id) id s;
  Ok (hexad_response hexad).

Definition update_hexad_handler (id : string) (request : HexadRequest)
    : HexadState → result ApiError HexadResponse * HexadState :=
  checked (validate_hexad_id id) (λ s,
    let '(r, s) := update config id (to_hexad_input request) s in
    (hexad ← not_found_or_internal (hexad_not_found id) r; Ok (hexad_response hexad), s)).

Definition delete_hexad_handler (id : string) : HexadState → result ApiError Z * HexadState :=
  checked (validate_hexad_id id) (λ s,
    let '(r, s) := hexad_delete id s in
    (_ ← not_found_or_internal (hexad_not_found id) r; Ok NO_CONTENT, s)).

(** ** Searches *)

(** [1.0 - (i as f32 * 0.1)] *)
Definition rank_score (i : nat) : f32 :=
  let of_Z z := binary_normalize 24 128 z 0 false in
  SFsub 24 128 (of_Z 1) (SFmul 24 128 (of_Z (Z.of_nat i)) (SFdiv 24 128 (of_Z 1) (of_Z 10))).

Definition search_result (i : nat) (h : Hexad) : SearchResultResponse :=
  {| tr_id := h_id h; tr_score := rank_score i; tr_title := doc_title <$> h_document h |}.

Definition text_search_handler (query : SearchQuery) (s : HexadState)
    : result ApiError (list SearchResultResponse) :=
  q ← match tq_q query with
      | Some q => if bool_decide (q = "") then Err (ApiBadRequest "Query parameter 'q' must not be empty")
                  else Ok q
      | None => Err (ApiBadRequest "Query parameter 'q' must not be empty")
      end;
  let limit := validate_limit (default 10%nat (tq_limit query)) in
  hexads ← internal_error (search_text config q limit s);
  Ok (imap search_result hexads).

Definition check_dimension (v : list f32) : result ApiError () :=
  if decide (length v = ac_vector_dimension api) then Ok ()
  else Err (ApiBadRequest ("Vector dimension mismatch: expected " +:+ pretty (ac_vector_dimension api)
              +:+ ", got " +:+ pretty (length v))).

(** The entities most like a vector, as the two vector handlers look for them. *)
Definition similar_hexads (request : VectorSearchRequest) (s : HexadState)
    : result ApiError (list Hexad) :=
  let k := validate_limit (default 10%nat (eq_k request)) in
  _ ← check_dimension (eq_vector request);
  _ ← validate_vector (eq_vector request);
  internal_error (search_similar config (eq_vector request) k s).

Definition vector_search_handler (request : VectorSearchRequest) (s : HexadState)
    : result ApiError (list SearchResultResponse) :=
  hexads ← similar_hexads request s;
  Ok (imap search_result hexads).

Definition related_search_handler (id : string) (pred : option string) (s : HexadState)
    : result ApiError (list HexadResponse) :=
  _ ← validate_hexad_id id;
  hexads ← internal_error (query_related config id (default "related" pred) s);
  Ok (hexad_responses hexads).

(** The entity is looked up and that is all. *)
Definition trigger_normalization_handler (id : string) (s : HexadState) : result ApiError Z :=
  _ ← validate_hexad_id id;
  _ ← get_or_not_found (hexad_not_found id) id s;
  Ok ACCEPTED.

(** ** Queries stored as entities *)

(** [None] is the panic of [truncate]; the clock and the identifier have been drawn. *)
Definition store_query_handler (request : StoreQueryRequest) (s : HexadState)
    : option (result ApiError (Z * HexadResponse)) * HexadState :=
  match match kq_embedding request with Some e => validate_vector e | None => Ok () end with
  | Err e => (Some (Err e), s)
  | Ok _ =>
    let with_some {A} (f : A → QueryHexadBuilder → QueryHexadBuilder) (o : option A) b :=
      match o with Some a => f a b | None => b end in
    let stored_at := to_rfc3339 (utc (hx_draws s)) in
    let s := draw 1 s in
    let builder :=
      with_metadata "stored_at" stored_at
        (with_some with_proof_obligations (kq_proof_obligations request)
          (with_some with_cost_vector (kq_cost_vector request)
            (with_some with_embedding (kq_embedding request) (query_new (kq_query request))))) in
    let fresh := random_uuid (hx_draws s) in
    let s := draw 1 s in
    match build fresh builder with
    | None => (None, s)
    | Some (_query_id, input) =>
      let '(r, s) := create config input s in
      (Some (hexad ← internal_error r; Ok (CREATED, hexad_response hexad)), s)
    end
  end.

Definition is_query_hexad (h : Hexad) : bool :=
  match h_document h with
  | Some d => starts_with "VQL Query:" (doc_title d)
  | None => false
  end.

Definition similar_queries_handler (request : VectorSearchRequest) (s : HexadState)
    : result ApiError (list SearchResultResponse) :=
  hexads ← similar_hexads request s;
  Ok (imap search_result (filter (λ h, is_query_hexad h = true) hexads)).

Definition learned_costs (costs : option (list f64)) (h : Hexad) : list f64 :=
  match costs with
  | Some costs => costs
  | None =>
    match h_tensor h with
    | Some t => (λ v, f64_mul v (f64_literal 95 2)) <$> ten_data t
    | None => [f64_of_Z 1]
    end
  end.

(** [planned] is what the planner makes of the plan that came with the request, if one did
    ([plan_costs] in [ApiPlanner.v]); it is asked once the entity has been found. *)
Definition optimize_query_handler (id : string)
    (planned : option (result ApiError (option (list f64)))) (s : HexadState)
    : option (result ApiError HexadResponse) * HexadState :=
  match (_ ← validate_hexad_id id;
         get_or_not_found ("Query hexad " +:+ id +:+ " not found") id s) with
  | Err e => (Some (Err e), s)
  | Ok hexad =>
    match planned with
    | None => (None, s)
    | Some (Err e) => (Some (Err e), s)
    | Some (Ok costs) =>
      let cost_vector := learned_costs costs hexad in
      let now := to_rfc3339 (utc (hx_draws s)) in
      let input :=
        {| hi_graph := None; hi_vector := None;
           hi_tensor := Some {| ht_shape := [1; zlength cost_vector]; ht_data := cost_vector |};
           hi_semantic := None; hi_document := None; hi_provenance := None; hi_spatial := None;
           hi_metadata := {[ "optimized_at" := now ]} |} in
      let '(r, s) := update config id input (draw 1 s) in
      (Some (updated ← internal_error r; Ok (hexad_response updated)), s)
    end
  end.

(** ** Provenance *)

Definition entity_not_found (id : string) : string := "Entity " +:+ id +:+ " not found".

(** [{:?}] of an event: strings are printed between quotes, with escapes that are left to
    [debug_str]. *)
Definition event_debug (debug_str : string → string) (e : ProvenanceEventType) : string :=
  match e with
  | Created => "Created"
  | Modified => "Modified"
  | Imported => "Imported"
  | Normalized => "Normalized"
  | DriftRepaired => "DriftRepaired"
  | Deleted => "Deleted"
  | Merged => "Merged"
  | Custom name => "Custom(" +:+ debug_str name +:+ ")"
  end.

Definition record_response (debug_str : string → string) (r : ProvenanceRecord)
    : ProvenanceRecordResponse :=
  {| pr_event_type := event_debug debug_str (event_type r); pr_actor := actor r;
     pr_timestamp := to_rfc3339 (timestamp r); pr_source := source r;
     pr_description := description r; pr_content_hash := content_hash r |}.

Definition status_or_not_found (id : string) (s : HexadState) : result ApiError HexadStatus :=
  st ← internal_error (hexad_status id s);
  ok_or (ApiNotFound (entity_not_found id)) st.

Definition provenance_get_chain_handler (debug_str : string → string) (id : string) (s : HexadState)
    : result ApiError ProvenanceChainResponse :=
  _ ← validate_hexad_id id;
  _ ← status_or_not_found id s;
  chain ← map_err ApiInternal (ps_get_chain id (o_provenance (octad s)));
  let chain_valid := match ps_verify_chain id (o_provenance (octad s)) with Ok b => b | Err _ => false end in
  let records := record_response debug_str <$> records chain in
  Ok {| cr_entity_id := id; cr_chain_length := length records; cr_chain_valid := chain_valid;
        cr_records := records |}.

(** Every error of the update is an internal one here. *)
Definition provenance_record_handler (id : string) (body : ProvenanceRequest)
    : HexadState → result ApiError RecordedResponse * HexadState :=
  checked (validate_hexad_id id) (λ s,
    let input :=
      {| hi_graph := None; hi_vector := None; hi_tensor := None; hi_semantic := None;
         hi_document := None; hi_provenance := Some (provenance_input body); hi_spatial := None;
         hi_metadata := ∅ |} in
    let '(r, s) := update config id input s in
    (hexad ← internal_error r;
     Ok {| dr_entity_id := id; dr_chain_length := h_provenance_chain_length hexad;
           dr_recorded := true |}, s)).

Definition provenance_verify_handler (id : string) (s : HexadState) : result ApiError VerifiedResponse :=
  _ ← validate_hexad_id id;
  status ← status_or_not_found id s;
  Ok {| er_entity_id := id; er_has_provenance := ms_provenance (hs_modality_status status);
        er_chain_valid := true |}.

(** ** Space *)

Definition spatial_response (r : SpatialSearchResult) : SpatialSearchResultResponse :=
  {| lr_entity_id := sr_entity_id r; lr_latitude := co_latitude (sd_coordinates (sr_data r));
     lr_longitude := co_longitude (sd_coordinates (sr_data r)); lr_distance_km := sr_distance_km r |}.

Definition spatial_responses (rs : list SpatialSearchResult) : list SpatialSearchResultResponse :=
  spatial_response <$> rs.

Definition spatial_radius_search_handler (body : RadiusSearchRequest) (s : HexadState)
    : result ApiError (list SpatialSearchResultResponse) :=
  let limit := validate_limit (default 100%nat (rq_limit body)) in
  if negb (latitude_ok (rq_latitude body)) || negb (longitude_ok (rq_longitude body)) then
    Err (ApiBadRequest "Invalid coordinates")
  else if f64_leb (rq_radius_km body) (f64_of_Z 0) then Err (ApiBadRequest "Radius must be positive")
  else
    let center := new_unchecked (rq_latitude body) (rq_longitude body) None in
    results ← map_err ApiInternal
                (ls_search_radius center (rq_radius_km body) limit (o_spatial (octad s)));
    Ok (spatial_responses results).

Definition spatial_bounds_search_handler (body : BoundsSearchRequest) (s : HexadState)
    : result ApiError (list SpatialSearchResultResponse) :=
  let limit := validate_limit (default 100%nat (bq_limit body)) in
  if f64_ltb (bq_max_lat body) (bq_min_lat body) || f64_ltb (bq_max_lon body) (bq_min_lon body) then
    Err (ApiBadRequest "min values must be less than max values")
  else
    let bounds := {| bb_min_lat := bq_min_lat body; bb_min_lon := bq_min_lon body;
                     bb_max_lat := bq_max_lat body; bb_max_lon := bq_max_lon body |} in
    results ← map_err ApiInternal (ls_search_within bounds limit (o_spatial (octad s)));
    Ok (spatial_responses results).

Definition spatial_nearest_handler (body : NearestSearchRequest) (s : HexadState)
    : result ApiError (list SpatialSearchResultResponse) :=
  if negb (latitude_ok (nq_latitude body)) || negb (longitude_ok (nq_longitude body)) then
    Err (ApiBadRequest "Invalid coordinates")
  else
    let k := (default 10 (nq_k body) `min` MAX_RESULT_LIMIT)%nat in
    let point := new_unchecked (nq_latitude body) (nq_longitude body) None in
    results ← map_err ApiInternal (ls_nearest point k (o_spatial (octad s)));
    Ok (spatial_responses results).

End handlers.
