(* ===== verification/ApiHexadsSpec.v ===== *)
(** * What the handlers on entities promise

    An entity created over HTTP is what the next request reads, a deleted or unknown one is
    answered with 404, a stored query reads back in full, and no answer has more rows than
    the documented limit. *)

From S2P Require Import Prelude Floats LockTable Provenance Temporal Graph Modality VectorSearch HexadTypes HexadStore HexadLogic HexadTxn HexadView HexadRead Plan PlanCache ApiCommon ApiHexads.
From stdpp Require Import pretty.
From Stdlib Require String.
Local Open Scope Z_scope.

Section handlers.
Context {CH : Chrono} {PL : Platform} {BK : Backends} {BL : BackendLaws BK} {UH : UnicodeChar}.
Context {SQ : SpatialQueries bk_spatial} {PV : ProvenanceVerify bk_provenance}.
Context (config : HexadConfig) (api : ApiConfig).
Implicit Types (s : HexadState) (id : string).

(** ** The life of an entity *)

Lemma create_handler_Ok request s r s' :
  create_hexad_handler config request s = (Ok r, s') →
  ∃ h, create config (to_hexad_input request) s = (Ok h, s') ∧ r = (CREATED, hexad_response h).
Proof.
  unfold create_hexad_handler. destruct (create _ _ _) as [[h|e] s1]; [|done].
  intros [= <- <-]. by exists h.
Qed.

Lemma get_handler_Some id s h :
  validate_hexad_id id = Ok () → hexad_get config id s = Ok (Some h) →
  get_hexad_handler config id s = Ok (hexad_response h).
Proof. intros Hv Hg. unfold get_hexad_handler, get_or_not_found. by rewrite Hv, Hg. Qed.

Lemma unknown_answers id request s :
  validate_hexad_id id = Ok () → hexads s !! id = None →
  let not_found := ApiNotFound (hexad_not_found id) in
  get_hexad_handler config id s = Err not_found ∧
  update_hexad_handler config id request s = (Err not_found, s) ∧
  delete_hexad_handler id s = (Err not_found, s) ∧
  trigger_normalization_handler config id s = Err not_found.
Proof.
  intros Hv Hn. destruct (unknown_entity config id (to_hexad_input request) s Hn) as (Hu & Hd & Hg).
  unfold get_hexad_handler, update_hexad_handler, delete_hexad_handler, trigger_normalization_handler,
    checked, get_or_not_found. by rewrite Hv, Hu, Hd, Hg.
Qed.

(** The flags of a response, by the modalities of the request. *)
Definition flags_of (request : HexadRequest) (r : HexadResponse) : Prop :=
  hr_has_graph r = is_some (hq_relationships request) ∧
  hr_has_vector r = is_some (hq_embedding request) ∧
  hr_has_tensor r = is_some (hq_tensor request) ∧
  hr_has_semantic r = is_some (hq_types request) ∧
  hr_has_document r = is_some (hq_title request) ∧
  hr_has_spatial r = is_some (hq_spatial request).

Lemma is_some_iff {A B} (a : option A) (b : option B) : (is_Some a ↔ is_Some b) → is_some a = is_some b.
Proof. destruct a, b; try done; intros [H1 H2]; [by destruct H1|by destruct H2]. Qed.

Lemma is_some_fmap {A B} (f : A → B) (o : option A) : is_some (f <$> o) = is_some o.
Proof. by destruct o. Qed.

Lemma fits_flags id request w h count :
  fits config id (to_hexad_input request) w → h = hexad_of id (h_status h) w count →
  flags_of request (hexad_response h).
Proof.
  intros [Hg Hv Hd Ht Hm Hl _ _ _] Hh. rewrite Hh. unfold flags_of. cbn. rewrite Hg.
  rewrite (is_some_iff _ _ Hv), (is_some_iff _ _ Hd), (is_some_iff _ _ Ht), (is_some_iff _ _ Hm),
    (is_some_iff _ _ Hl). cbn. rewrite !is_some_fmap.
  split_and!; try done. by destruct (hq_title request), (hq_body request).
Qed.

(** An entity created over HTTP is what the next request for it reads, with the modalities
    the request gave; once a deletion is confirmed, the entity is answered with 404 by every
    request, and a request that is answered so changes nothing. *)
Theorem rest_entity_lifecycle (request : HexadRequest) (s s1 : HexadState) (r : Z * HexadResponse) :
  let id := created_id s in
  rs_history id 1 (o_temporal (octad s)) = Ok [] → validate_hexad_id id = Ok () →
  create_hexad_handler config request s = (Ok r, s1) →
  r.1 = CREATED ∧ hr_id r.2 = id ∧ hr_version_count r.2 = 1 ∧ flags_of request r.2 ∧
  get_hexad_handler config id s1 = Ok r.2 ∧
  ∀ s2 code s3, delete_hexad_handler id s2 = (Ok code, s3) →
    code = NO_CONTENT ∧ ∀ request',
    let not_found := ApiNotFound (hexad_not_found id) in
    get_hexad_handler config id s3 = Err not_found ∧
    update_hexad_handler config id request' s3 = (Err not_found, s3) ∧
    delete_hexad_handler id s3 = (Err not_found, s3) ∧
    trigger_normalization_handler config id s3 = Err not_found.
Proof.
  intros id Hnil Hv (h & Hc & ->)%create_handler_Ok. rewrite create_drawn in Hc. fold id in Hc.
  destruct (created_get config id _ (draw 1 s) _ _ Hnil Hc) as (Hid & _ & _ & Hg).
  destruct (create_as_Ok _ _ _ _ _ _ Hc) as (Hcount & _ & w & count & recent & Hfit & _ & Hh & _).
  cbn [fst snd]. split_and!; [done|done|done| |by apply get_handler_Some|].
  - by eapply fits_flags.
  - intros s2 code s3 Hd. unfold delete_hexad_handler, checked in Hd. rewrite Hv in Hd.
    destruct (hexad_delete id s2) as [[[]|e] s'] eqn:Hdel; [|by destruct e].
    injection Hd as <- <-. apply delete_Ok in Hdel as (_ & Hn & _). split; [done|].
    intros request'. by apply unknown_answers.
Qed.

(** ** Stored queries *)

(** The preview of the query would end inside a character. *)
Definition cut_inside (query : string) : Prop :=
  (80 < String.length query)%nat ∧ is_char_boundary 77 query = false.

Lemma truncate_None query : truncate query 80 = None ↔ cut_inside query.
Proof.
  unfold truncate, cut_inside, slice_to. destruct (Nat.leb_spec (String.length query) 80).
  - split; [done|lia].
  - cbn [Nat.sub]. destruct (is_char_boundary 77 query); [by split; [|intros [_ ?]]|]. by split.
Qed.

Lemma build_None fresh b : build fresh b = None ↔ cut_inside (qb_query_text b).
Proof. unfold build. rewrite bind_None, <- truncate_None. naive_solver. Qed.

Lemma document_of_data id i :
  let d := document_of id i in
  doc_title d = hd_title i ∧ doc_body d = hd_body i ∧ doc_fields d = hd_fields i.
Proof.
  cbn zeta. unfold document_of.
  apply (map_fold_weak_ind (λ d m, doc_title d = hd_title i ∧ doc_body d = hd_body i ∧ doc_fields d = m));
    [done|]. intros k x m d _ (Ht & Hb & Hf). split_and!; [done..|]. cbn. by rewrite Hf.
Qed.

Lemma build_document fresh b id input :
  build fresh b = Some (id, input) →
  ∃ title, hi_document input =
    Some {| hd_title := "VQL Query: " +:+ title; hd_body := qb_query_text b;
            hd_fields := query_fields (qb_query_text b) (qb_executions b) |}.
Proof. unfold build. intros (title & _ & [= _ <-])%bind_Some. by exists title. Qed.

Lemma is_query_titled h d title :
  h_document h = Some d → doc_title d = "VQL Query: " +:+ title → is_query_hexad h = true.
Proof. unfold is_query_hexad. by intros -> ->. Qed.

Definition stored_builder (request : StoreQueryRequest) s : QueryHexadBuilder :=
  {| qb_query_text := kq_query request; qb_query_id := None; qb_parse_tree_triples := [];
     qb_embedding := kq_embedding request; qb_cost_vector := kq_cost_vector request;
     qb_proof_obligations := default [] (kq_proof_obligations request); qb_executions := [];
     qb_metadata := <["stored_at" := to_rfc3339 (utc (hx_draws s))]> ∅ |}.

Definition embedding_ok (request : StoreQueryRequest) : Prop :=
  match kq_embedding request with Some e => forallb f64_is_finite e = true | None => True end.

Lemma store_query_unfold request s :
  embedding_ok request →
  store_query_handler config request s =
    match build (random_uuid (hx_draws (draw 1 s))) (stored_builder request s) with
    | None => (None, draw 1 (draw 1 s))
    | Some (_, input) =>
      let '(r, s) := create config input (draw 1 (draw 1 s)) in
      (Some (hexad ← internal_error r; Ok (CREATED, hexad_response hexad)), s)
    end.
Proof.
  unfold embedding_ok, store_query_handler, stored_builder, validate_vector.
  destruct request as [q [e|] c o]; cbn [kq_query kq_embedding kq_cost_vector kq_proof_obligations];
    [intros ->|intros _]; cbn [negb]; destruct c, o; reflexivity.
Qed.

(** The identifier the hexad store gives: the third one drawn. *)
Definition stored_id s : string := created_id (draw 1 (draw 1 s)).

(** C32: A query is stored under a fresh identifier as a document whose body is the whole text,
    and is recognised as a query by the search for similar ones.  The request panics exactly
    when the preview of the text ends inside a character, and then nothing is stored; an
    embedding that is not finite is refused. *)
Theorem stored_query_reads_back (request : StoreQueryRequest) (s : HexadState) :
  let '(answer, s') := store_query_handler config request s in
  let query := kq_query request in
  (answer = None ↔ embedding_ok request ∧ cut_inside query) ∧
  (answer = None → hexads s' = hexads s ∧ octad s' = octad s) ∧
  (¬ embedding_ok request →
   answer = Some (Err (ApiBadRequest "Vector contains NaN or Inf values")) ∧ s' = s) ∧
  ∀ r, rs_history (stored_id s) 1 (o_temporal (octad s)) = Ok [] → answer = Some (Ok r) →
    ∃ h d, hexad_get config (stored_id s) s' = Ok (Some h) ∧ r = (CREATED, hexad_response h) ∧
      h_id h = stored_id s ∧ h_document h = Some d ∧ doc_body d = query ∧
      doc_fields d = <["query_text" := query]> (<["type" := "vql_query"]> ∅) ∧
      is_query_hexad h = true.
Proof.
  assert (embedding_ok request ∨
    ¬ embedding_ok request ∧ store_query_handler config request s =
      (Some (Err (ApiBadRequest "Vector contains NaN or Inf values")), s)) as [He|[He ->]].
  { unfold embedding_ok, store_query_handler, validate_vector. destruct (kq_embedding request) as [e|]; [|by left].
    destruct (forallb f64_is_finite e); [by left|by right]. }
  2: { split_and!; [by split; [|intros [? _]]|done|done|done]. }
  rewrite (store_query_unfold _ _ He).
  pose proof (build_None (random_uuid (hx_draws (draw 1 s))) (stored_builder request s)) as Hnone.
  destruct (build _ _) as [[i input]|] eqn:Hb.
  2: { split_and!; [|done|done|done]. split; [|done]. split; [done|by apply Hnone]. }
  destruct (create config input _) as [r s'] eqn:Hc.
  split_and!; [|done|done|].
  { split; [done|]. intros [_ Hcut]. by apply Hnone in Hcut. }
  intros x Hnil Hx. destruct r as [h|e]; [|done]. injection Hx as <-.
  rewrite create_drawn in Hc. fold (stored_id s) in Hc.
  destruct (created_get config (stored_id s) _ (draw 1 (draw 1 (draw 1 s))) _ _ Hnil Hc) as (Hid & _ & Hd & Hg).
  destruct (build_document _ _ _ _ Hb) as [title Hi]. rewrite Hi in Hd.
  destruct (document_of_data (stored_id s) {| hd_title := "VQL Query: " +:+ title; hd_body := kq_query request;
      hd_fields := query_fields (kq_query request) [] |}) as (Ht & Hbody & Hf).
  exists h, (document_of (stored_id s) {| hd_title := "VQL Query: " +:+ title; hd_body := kq_query request;
      hd_fields := query_fields (kq_query request) [] |}).
  split_and!; [done..| |by eapply is_query_titled].
  by rewrite Hf.
Qed.

(** ** Limits *)

(** No search of a store returns more than it was asked for. *)
Class SearchBounds := {
  vs_search_bound : ∀ v k st ids, vs_search v k st = Ok ids → (length ids ≤ k)%nat;
  ds_search_bound : ∀ q k st ids, ds_search q k st = Ok ids → (length ids ≤ k)%nat;
  ls_radius_bound : ∀ c r k st rs, ls_search_radius c r k st = Ok rs → (length rs ≤ k)%nat;
  ls_within_bound : ∀ b k st rs, ls_search_within b k st = Ok rs → (length rs ≤ k)%nat;
  ls_nearest_bound : ∀ c k st rs, ls_nearest c k st = Ok rs → (length rs ≤ k)%nat;
}.

Lemma load_all_length ids s hs : load_all config ids s = Ok hs → (length hs ≤ length ids)%nat.
Proof.
  revert hs. induction ids as [|id ids IH]; intros hs; cbn [load_all]; [by intros [= <-]|].
  intros (o & _ & (l & Hl & [= <-])%result_bind_Ok)%result_bind_Ok.
  specialize (IH _ Hl). destruct o; cbn; lia.
Qed.

Lemma hexad_list_length limit offset s hs :
  hexad_list config limit offset s = Ok hs → (length hs ≤ limit)%nat.
Proof. intros H%load_all_length. rewrite length_take in H. lia. Qed.

Context {SB : SearchBounds}.

Lemma search_similar_length v k s hs : search_similar config v k s = Ok hs → (length hs ≤ k)%nat.
Proof.
  unfold search_similar. intros (ids & Hi%map_err_Ok & H%load_all_length)%result_bind_Ok.
  apply vs_search_bound in Hi. lia.
Qed.

Lemma search_text_length q k s hs : search_text config q k s = Ok hs → (length hs ≤ k)%nat.
Proof.
  unfold search_text. intros (ids & Hi%map_err_Ok & H%load_all_length)%result_bind_Ok.
  apply ds_search_bound in Hi. lia.
Qed.

Lemma similar_hexads_length request s hs :
  similar_hexads config api request s = Ok hs →
  (length hs ≤ default 10 (eq_k request) `min` MAX_RESULT_LIMIT)%nat.
Proof.
  unfold similar_hexads. intros (? & _ & H)%result_bind_Ok. apply result_bind_Ok in H as (? & _ & H).
  by apply map_err_Ok, search_similar_length in H.
Qed.

Definition at_most {A} (asked : nat) (answer : result ApiError (list A)) : Prop :=
  ∀ rows, answer = Ok rows → (length rows ≤ asked `min` 1000)%nat.

(** A list, a search by text, by vector or by place never answers with more rows than the
    request asks for, nor with more than a thousand. *)
Theorem answers_bounded (s : HexadState) (params : ListQuery) (query : SearchQuery)
    (vector : VectorSearchRequest) (radius : RadiusSearchRequest) (bounds : BoundsSearchRequest)
    (near : NearestSearchRequest) :
  at_most (default 100 (lq_limit params))%nat (list_hexads_handler config params s) ∧
  at_most (default 10 (tq_limit query))%nat (text_search_handler config query s) ∧
  at_most (default 10 (eq_k vector))%nat (vector_search_handler config api vector s) ∧
  at_most (default 10 (eq_k vector))%nat (similar_queries_handler config api vector s) ∧
  at_most (default 100 (rq_limit radius))%nat (spatial_radius_search_handler radius s) ∧
  at_most (default 100 (bq_limit bounds))%nat (spatial_bounds_search_handler bounds s) ∧
  at_most (default 10 (nq_k near))%nat (spatial_nearest_handler near s).
Proof.
  split_and!; intros rows H.
  - apply result_bind_Ok in H as (hs & H%map_err_Ok%hexad_list_length & [= <-]).
    unfold hexad_responses. by rewrite length_fmap.
  - apply result_bind_Ok in H as (q & _ & H).
    apply result_bind_Ok in H as (hs & H%map_err_Ok%search_text_length & [= <-]). by rewrite length_imap.
  - apply result_bind_Ok in H as (hs & H%similar_hexads_length & [= <-]). by rewrite length_imap.
  - apply result_bind_Ok in H as (hs & H%similar_hexads_length & [= <-]). rewrite length_imap.
    etrans; [apply length_filter|done].
  - unfold spatial_radius_search_handler in H. do 2 (case_match; [done|]).
    apply result_bind_Ok in H as (rs & H%map_err_Ok%ls_radius_bound & [= <-]).
    unfold spatial_responses. by rewrite length_fmap.
  - unfold spatial_bounds_search_handler in H. case_match; [done|].
    apply result_bind_Ok in H as (rs & H%map_err_Ok%ls_within_bound & [= <-]).
    unfold spatial_responses. by rewrite length_fmap.
  - unfold spatial_nearest_handler in H. case_match; [done|].
    apply result_bind_Ok in H as (rs & H%map_err_Ok%ls_nearest_bound & [= <-]).
    unfold spatial_responses. by rewrite length_fmap.
Qed.

(** ** Provenance *)

(** The verification endpoint never looks at the chain: for a known entity it answers that
    the chain is valid, also where the chain endpoint reports that it is not; and an event
    for an unknown entity is an internal error, where every other request answers 404. *)
Theorem provenance_endpoints (debug_str : string → string) (id : string) (body : ProvenanceRequest)
    (s : HexadState) :
  validate_hexad_id id = Ok () →
  (∀ st, hexads s !! id = Some st →
    provenance_verify_handler id s =
      Ok {| er_entity_id := id; er_has_provenance := ms_provenance (hs_modality_status st);
            er_chain_valid := true |} ∧
    ∀ c, provenance_get_chain_handler debug_str id s = Ok c →
      (cr_chain_valid c = true ↔ ps_verify_chain id (o_provenance (octad s)) = Ok true)) ∧
  (hexads s !! id = None →
    provenance_verify_handler id s = Err (ApiNotFound (entity_not_found id)) ∧
    provenance_get_chain_handler debug_str id s = Err (ApiNotFound (entity_not_found id)) ∧
    provenance_record_handler config id body s =
      (Err (ApiInternal ("Entity not found: " +:+ id)), s)).
Proof.
  intros Hv. unfold provenance_verify_handler, provenance_get_chain_handler, provenance_record_handler,
    status_or_not_found, hexad_status, checked. rewrite Hv. split.
  - intros st Hst. rewrite Hst. split; [done|]. cbn. intros c H.
    apply result_bind_Ok in H as (chain & _ & [= <-]). cbn.
    destruct (ps_verify_chain _ _) as [b|e]; [|done]. destruct b; naive_solver.
  - intros Hn. rewrite Hn. split; [done|]. split; [done|].
    match goal with |- context [update config id ?i s] =>
      destruct (unknown_entity config id i s Hn) as (-> & _ & _) end. done.
Qed.
End handlers.
