(* ===== verification/ApiPlanner.v ===== *)
(** * The handlers on the planner

    Models the handlers of [src/rust-core/verisim-api/src/lib.rs] that use the planner, the
    plan cache and the slow-query log.  The planner is in a [std::sync::Mutex]: a panic while
    it is locked poisons it for good.  A handler that panics gives no answer: [None].  This is
    a build that unwinds, as the development and test profiles do; under the release profile,
    which has [panic = "abort"], the whole process ends with the request. *)

From S2P Require Import Prelude Floats Plan Optimizer PlanCache Profiler ProfilerSpec ApiCommon.
From stdpp Require Import pretty.
From Stdlib Require String.
Local Open Scope Z_scope.

(** [Mutex<Planner>] *)
Record mutex (A : Type) := { mx_poisoned : bool; mx_value : A }.
Arguments mx_poisoned {A} _.
Arguments mx_value {A} _.

Section handlers.
Context {CH : Chrono} {CD : ChronoDuration} {UC : Unicode} {UH : UnicodeChar} {SH : Sha256}.
Context {HI : HashIter string} {HM : HashIter Modality} {LG : Log2} {FX : FixedDisplay} {DC : DebugCondition}.

Definition PlannerMutex : Type := mutex Planner.

(** An answer, or nothing for a panic. *)
Definition answer (A : Type) : Type := option (result ApiError A).

(** [let planner = state.planner.lock().map_err(..)?], then [f] with the lock held: what [f]
    answers and leaves, [None] if it panics. *)
Definition with_planner {A} (f : Planner → option (result ApiError A * Planner)) (m : PlannerMutex)
    : answer A * PlannerMutex :=
  if mx_poisoned m then (Some (Err (ApiInternal "Planner lock poisoned")), m)
  else match f (mx_value m) with
       | Some (r, p) => (Some r, {| mx_poisoned := false; mx_value := p |})
       | None => (None, {| mx_poisoned := true; mx_value := mx_value m |})
       end.

Definition planner_error_to_string (e : PlannerError) : string :=
  match e with
  | EmptyPlan => "empty plan: no modality nodes to optimize"
  | UnknownModality m => "unknown modality: " +:+ m
  | InvalidConfig m => "invalid configuration: " +:+ m
  | CostEstimation m => "cost estimation failed: " +:+ m
  | Serialization m => "serialization error: " +:+ m
  end.

Definition bad_plan {A} (r : result PlannerError A) : result ApiError A :=
  map_err (λ e, ApiBadRequest (planner_error_to_string e)) r.

(** ** Plans *)

Definition query_plan_handler (plan : LogicalPlan) : PlannerMutex → answer PhysicalPlan * PlannerMutex :=
  with_planner (λ p, (λ r, (bad_plan r, p)) <$> optimize p plan).

Definition query_explain_handler (plan : LogicalPlan) : PlannerMutex → answer ExplainOutput * PlannerMutex :=
  with_planner (λ p, (λ r, (bad_plan r, p)) <$> explain p plan).

Definition get_planner_config_handler : PlannerMutex → answer PlannerConfig * PlannerMutex :=
  with_planner (λ p, Some (Ok (pl_config p), p)).

Definition put_planner_config_handler (config : PlannerConfig)
    : PlannerMutex → answer PlannerConfig * PlannerMutex :=
  with_planner (λ p, Some (Ok config, {| pl_config := config; pl_stats := pl_stats p |})).

Definition planner_stats_handler : PlannerMutex → answer StatisticsCollector * PlannerMutex :=
  with_planner (λ p, Some (Ok (pl_stats p), p)).

(** What [optimize_query_handler] asks of the planner: the estimated costs of the steps of
    the plan, if one came; an error of the planner is passed over. *)
Definition plan_costs (body : option LogicalPlan) (m : PlannerMutex)
    : answer (option (list f64)) * PlannerMutex :=
  match body with
  | None => (Some (Ok None), m)
  | Some plan =>
    with_planner (λ p,
      (λ r, (Ok (Some match r with
                      | Ok explained => es_cost_ms <$> eo_steps explained
                      | Err _ => [f64_of_Z 1; f64_of_Z 0; f64_of_Z 0]
                      end), p)) <$> explain p plan) m
  end.

(** ** EXPLAIN ANALYZE *)

Record ExplainAnalyzeRequest := {
  aq_plan : LogicalPlan; aq_simulated_timings : option (list f64);
}.

(** The time a step is said to have taken: nothing is executed. *)
Definition simulated_ms (timings : option (list f64)) (i : nat) (step : PlanStep) : f64 :=
  default (f64_mul (time_ms (ps_cost step)) (f64_literal 11 1)) (timings ≫= (.!! i)).

Definition record_simulated (timings : option (list f64)) (now : DateTime) (steps : list PlanStep)
    (p : Profiler) : option Profiler :=
  foldl (λ op '(i, step), op ≫= λ p,
           record_step i (simulated_ms timings i step) (estimated_rows (ps_cost step)) now now p)
    (Some p) (imap pair steps).

(** [now] is the clock for the identifier, [now'] for the steps and [now''] for what they
    teach the statistics. *)
Definition query_explain_analyze_handler (request : ExplainAnalyzeRequest) (now now' now'' : DateTime)
    : PlannerMutex → answer ExplainAnalyzeOutput * PlannerMutex :=
  with_planner (λ p,
    match explain p (aq_plan request) with
    | None => None
    | Some (Err e) => Some (bad_plan (Err e), p)
    | Some (Ok explained) =>
      match optimize p (aq_plan request) with
      | None => None
      | Some (Err e) => Some (bad_plan (Err e), p)
      | Some (Ok physical) =>
        let plan_id := "analyze-" +:+ pretty (timestamp_millis now) in
        profiler ← record_simulated (aq_simulated_timings request) now' (pp_steps physical)
                     (Profiler_new plan_id physical);
        '(profile, stats) ← finish now'' profiler (pl_stats p);
        Some (Ok (with_profile profile explained), {| pl_config := pl_config p; pl_stats := stats |})
      end
    end).

(** ** Prepared statements *)

Context {V : Type}.

Record PreparedCreateRequest := { cq_query : string; cq_plan : LogicalPlan }.

Definition prepared_create_handler (request : PreparedCreateRequest) (now now' : DateTime) (c : PlanCache)
    : result ApiError (Z * PreparedStatement) * PlanCache :=
  let '(id, c) := prepare (cq_query request) (cq_plan request) now c in
  let '(stmt, c) := cache_get id now' c in
  (stmt ← ok_or (ApiInternal "Failed to retrieve prepared statement after creation") stmt;
   Ok (201, stmt), c).

Definition prepared_get_handler (id : string) (now : DateTime) (c : PlanCache)
    : result ApiError PreparedStatement * PlanCache :=
  let '(stmt, c) := cache_get id now c in
  (ok_or (ApiNotFound ("Prepared statement '" +:+ id +:+ "' not found")) stmt, c).

(** [{:?}] of a list of strings, each printed by [debug_str]. *)
Definition debug_strings (debug_str : string → string) (l : list string) : string :=
  "[" +:+ String.concat ", " (debug_str <$> l) +:+ "]".

Definition cache_error_to_string (debug_str : string → string) (e : CacheError) : string :=
  match e with
  | CacheNotFound id => "prepared statement not found: " +:+ id
  | ParameterMismatch expected provided =>
    "parameter mismatch: expected " +:+ debug_strings debug_str expected +:+ ", provided "
      +:+ debug_strings debug_str provided
  | Expired id => "prepared statement expired: " +:+ id
  | CacheFull => "cache is full"
  end.

Definition prepared_execute_handler (debug_str : string → string) (id : string) (params : gmap string V)
    (now : DateTime) (c : PlanCache) (m : PlannerMutex)
    : answer PhysicalPlan * (PlanCache * PlannerMutex) :=
  let '(stmt, c) := execute_prepared id params now c in
  match stmt with
  | Err e => (Some (Err (ApiBadRequest (cache_error_to_string debug_str e))), (c, m))
  | Ok stmt =>
    let '(physical, m) :=
      match pr_cached_physical_plan stmt with
      | Some cached => (Some (Ok cached), m)
      | None => with_planner (λ p,
                  (λ r, (map_err (λ e, ApiInternal (planner_error_to_string e)) r, p))
                    <$> optimize p (pr_logical_plan stmt)) m
      end in
    match physical with
    | Some (Ok physical) => (Some (Ok physical), (cache_plan id physical c, m))
    | r => (r, (c, m))
    end
  end.

Definition prepared_stats_handler (c : PlanCache) : CacheStats := stats_async c.

(** ** Slow queries *)

Definition slow_queries_handler (log : SlowQueryLog) : SlowQuerySummary := summary log.

End handlers.

(** ** What the handlers on the planner promise

    One request whose plan cannot be printed disables the planner for good; and EXPLAIN
    ANALYZE, which executes nothing, teaches the statistics the figures it made up. *)

Section handlers.
Context {CH : Chrono} {CD : ChronoDuration} {UC : Unicode} {UH : UnicodeChar} {SH : Sha256}.
Context {HI : HashIter string} {HM : HashIter Modality} {LG : Log2} {FX : FixedDisplay} {DC : DebugCondition}.
Implicit Types (p : Planner) (m : PlannerMutex) (plan : LogicalPlan).

Definition printable plan : Prop := Forall (λ node, ¬ unprintable node) (lp_nodes plan).

Lemma optimize_outcome p plan :
  match optimize p plan with
  | None => ¬ printable plan
  | Some (Err e) => e = EmptyPlan ∧ lp_nodes plan = []
  | Some (Ok _) => lp_nodes plan ≠ [] ∧ printable plan
  end.
Proof.
  unfold optimize, printable. pose proof (node_costs_spec p (lp_nodes plan) 0) as Hn.
  destruct (lp_nodes plan) as [|node nodes] eqn:Hl; [done|]. rewrite <- Hl in *.
  destruct (node_costs p 0 (lp_nodes plan)) as [cs|]; cbn [mbind option_bind].
  - destruct Hn as (Hm & Hp & _). split; [by rewrite Hl|].
    assert (nc_node <$> cs = lp_nodes plan) as <-.
    { transitivity (((λ c, (nc_index c, nc_node c)) <$> cs).*2); [by rewrite <- list_fmap_compose|].
      rewrite Hm, fmap_imap. rewrite <- (list_fmap_id (lp_nodes plan)) at 2.
      rewrite <- imap_const. by apply imap_ext. }
    apply Forall_fmap. eapply Forall_impl; [exact Hp|]. cbn.
    intros c [_ Hh]%priced_spec Hu%optimization_hint_None. congruence.
  - intros Ha. apply Exists_exists in Hn as (x & Hx & Hu). rewrite Forall_forall in Ha. by apply (Ha x).
Qed.

Lemma empty_printable plan : lp_nodes plan = [] → printable plan.
Proof. unfold printable. by intros ->. Qed.

(** ** EXPLAIN ANALYZE *)

Definition simulated_figures (timings : option (list f64)) (now : DateTime) (x : nat * PlanStep)
    : figures :=
  (x.1, simulated_ms timings x.1 x.2, estimated_rows (ps_cost x.2), now, now).

Definition simulated_calls (timings : option (list f64)) (now : DateTime) (steps : list PlanStep)
    : list figures :=
  simulated_figures timings now <$> imap pair steps.

Lemma record_simulated_calls timings now steps pr :
  record_simulated timings now steps pr = record_calls pr (simulated_calls timings now steps).
Proof.
  unfold record_simulated, record_calls, simulated_calls. generalize (Some pr).
  induction (imap pair steps) as [|[i step] l IH]; intros o; [done|]. cbn. by rewrite IH.
Qed.

Lemma record_calls_is_Some calls pr :
  Forall (λ c : figures, c.1.1.1.1 < length (pp_steps (pr_plan pr)))%nat calls →
  is_Some (record_calls pr calls).
Proof.
  unfold record_calls. revert pr. induction calls as [|c calls IH]; intros pr; [by eexists|].
  intros [Hc Hcs]%Forall_cons. cbn [foldl mbind option_bind].
  destruct c as [[[[i ms] rows] s] e]. cbn [record_figures].
  destruct (record_step i ms rows s e pr) as [pr'|] eqn:Hr.
  - apply IH. unfold record_step in Hr. apply bind_Some in Hr as (? & _ & [= <-]). done.
  - apply record_step_panics in Hr. cbn in Hc. lia.
Qed.

Lemma simulated_calls_in_range timings now steps :
  Forall (λ c : figures, c.1.1.1.1 < length steps)%nat (simulated_calls timings now steps).
Proof.
  unfold simulated_calls. apply Forall_fmap, Forall_forall. intros [i step] Hin.
  apply list_elem_of_lookup in Hin as [j Hj]. rewrite list_lookup_imap in Hj.
  apply fmap_Some in Hj as (x & Hx & [= -> ->]). cbn. by eapply lookup_lt_Some.
Qed.

Lemma last_figures_simulated timings now steps i step :
  steps !! i = Some step →
  last_figures i (simulated_calls timings now steps) =
    Some (i, simulated_ms timings i step, estimated_rows (ps_cost step), now, now).
Proof.
  intros Hs. unfold last_figures, simulated_calls.
  assert (∀ l k, (∀ j x, l !! j = Some x → x.1 = (k + j)%nat ∧ steps !! x.1 = Some x.2) →
    filter (λ c : figures, c.1.1.1.1 = i) (simulated_figures timings now <$> l) =
    if decide (k ≤ i < k + length l)%nat then [simulated_figures timings now (i, step)] else []) as Hgen.
  { induction l as [|[j st] l IH]; intros k Hl.
    { cbn. by rewrite decide_False by lia. }
    destruct (Hl 0%nat _ eq_refl) as [Hj Hst]. cbn in Hj, Hst. rewrite Nat.add_0_r in Hj. subst j.
    rewrite fmap_cons, filter_cons. cbn [simulated_figures fst snd].
    rewrite (IH (S k)); [|intros j x Hx; destruct (Hl (S j) x Hx) as [-> ?]; split; [lia|done]].
    cbn [length]. destruct (decide (k = i)) as [->|Hne].
    - rewrite (decide_False (P := (S i ≤ i < _)%nat)) by lia. rewrite decide_True by lia. congruence.
    - repeat case_decide; try done; lia. }
  transitivity (last (if decide (0 ≤ i < 0 + length (imap pair steps))%nat
                      then [simulated_figures timings now (i, step)] else [])).
  - f_equal. apply Hgen. intros j x Hx. rewrite list_lookup_imap in Hx.
    apply fmap_Some in Hx as (y & Hy & ->). done.
  - rewrite decide_True; [done|]. rewrite length_imap. apply lookup_lt_Some in Hs. lia.
Qed.

(** What a step is said to have taken. *)
Definition made_up (timings : option (list f64)) (now : DateTime) (i : nat) (step : PlanStep)
    : ProfileStep :=
  profile_of step (simulated_ms timings i step) (estimated_rows (ps_cost step)) now now.

Lemma analyze_finishes timings now now' id physical stats :
  ∃ pr, record_simulated timings now (pp_steps physical) (Profiler_new id physical) = Some pr ∧
  let steps := imap (made_up timings now) (pp_steps physical) in
  let total_estimated_ms := f64_sum (pf_estimated_ms <$> steps) in
  let total_actual_ms := f64_sum (pf_actual_ms <$> steps) in
  finish now' pr stats = Some
    ({| qp_plan_id := id; qp_steps := steps; qp_total_estimated_ms := total_estimated_ms;
        qp_total_actual_ms := total_actual_ms;
        qp_optimization_hints := generate_hints steps total_estimated_ms total_actual_ms |},
     foldl (λ st s, record_execution now' (pf_modality s) (pf_actual_ms s) (pf_actual_rows s) st)
       stats steps).
Proof.
  rewrite record_simulated_calls.
  destruct (record_calls_is_Some (simulated_calls timings now (pp_steps physical)) (Profiler_new id physical))
    as [pr Hpr]; [apply simulated_calls_in_range|].
  exists pr. split; [done|]. cbn zeta.
  destruct (finish_recorded now' id physical _ pr stats Hpr) as (steps & Hlen & Hsteps & ->).
  assert (steps = imap (made_up timings now) (pp_steps physical)) as ->; [|done].
  apply list_eq. intros i. rewrite list_lookup_imap. destruct (pp_steps physical !! i) as [step|] eqn:Hi.
  - rewrite (Hsteps i step Hi). cbn. unfold step_figures. by rewrite (last_figures_simulated _ _ _ _ _ Hi).
  - apply lookup_ge_None in Hi. apply lookup_ge_None. lia.
Qed.

(** EXPLAIN ANALYZE on a healthy planner: the profile it returns has, for each step of the
    plan, the time the request gives for it or 1.1 times the estimate, and the estimated
    rows; nothing runs.  The statistics, from which later plans are priced, learn exactly
    these figures, and nothing else of the planner changes. *)
Theorem explain_analyze_made_up (request : ExplainAnalyzeRequest) (now now' now'' : DateTime)
    (p : Planner) (physical : PhysicalPlan) :
  optimize p (aq_plan request) = Some (Ok physical) →
  let steps := imap (made_up (aq_simulated_timings request) now') (pp_steps physical) in
  ∃ out, query_explain_analyze_handler request now now' now'' {| mx_poisoned := false; mx_value := p |} =
    (Some (Ok out),
     {| mx_poisoned := false;
        mx_value := {| pl_config := pl_config p;
                       pl_stats := foldl (λ st s, record_execution now'' (pf_modality s)
                                            (pf_actual_ms s) (pf_actual_rows s) st)
                                     (pl_stats p) steps |} |}) ∧
    qp_steps (ea_profile out) = steps.
Proof.
  intros Ho. cbn zeta. unfold query_explain_analyze_handler, with_planner, explain.
  cbn [mx_poisoned mx_value]. rewrite Ho.
  destruct (analyze_finishes (aq_simulated_timings request) now' now''
    ("analyze-" +:+ pretty (timestamp_millis now)) physical (pl_stats p)) as (pr & -> & Hf).
  cbn zeta in Hf. cbn [mbind option_bind]. rewrite Hf. cbn. by eexists.
Qed.

(** ** A poisoned planner *)

Inductive planner_request :=
| RPlan plan
| RExplain plan
| RGetConfig
| RPutConfig (config : PlannerConfig)
| RStats
| RAnalyze (request : ExplainAnalyzeRequest) (now now' now'' : DateTime)
| RCosts plan.

Definition forget {A} (x : answer A * PlannerMutex) : answer () * PlannerMutex :=
  (fmap (M := result ApiError) (λ _, ()) <$> x.1, x.2).

(** Whether a request is answered, refused or lost, and what it leaves. *)
Definition serve (r : planner_request) m : answer () * PlannerMutex :=
  match r with
  | RPlan plan => forget (query_plan_handler plan m)
  | RExplain plan => forget (query_explain_handler plan m)
  | RGetConfig => forget (get_planner_config_handler m)
  | RPutConfig config => forget (put_planner_config_handler config m)
  | RStats => forget (planner_stats_handler m)
  | RAnalyze request now now' now'' => forget (query_explain_analyze_handler request now now' now'' m)
  | RCosts plan => forget (plan_costs (Some plan) m)
  end.

Fixpoint serve_all (rs : list planner_request) m : list (answer ()) * PlannerMutex :=
  match rs with
  | [] => ([], m)
  | r :: rs => let '(a, m) := serve r m in let '(answers, m) := serve_all rs m in (a :: answers, m)
  end.

Definition request_plan (r : planner_request) : option LogicalPlan :=
  match r with
  | RPlan plan | RExplain plan | RCosts plan => Some plan
  | RAnalyze request _ _ _ => Some (aq_plan request)
  | _ => None
  end.

Definition harmless (r : planner_request) : Prop :=
  ∀ plan, request_plan r = Some plan → printable plan.

Definition lock_poisoned : answer () := Some (Err (ApiInternal "Planner lock poisoned")).

Lemma serve_poisoned r m : mx_poisoned m = true → serve r m = (lock_poisoned, m).
Proof.
  intros Hm. destruct r; cbn [serve]; unfold query_plan_handler, query_explain_handler,
    get_planner_config_handler, put_planner_config_handler, planner_stats_handler,
    query_explain_analyze_handler, plan_costs, with_planner; by rewrite Hm.
Qed.

Lemma optimize_panics p plan : optimize p plan = None ↔ ¬ printable plan.
Proof.
  pose proof (optimize_outcome p plan) as Ho. destruct (optimize p plan) as [[pl|e]|]; [| |done].
  - split; [done|]. by destruct Ho.
  - split; [done|]. by destruct Ho as [_ Ho%empty_printable].
Qed.

Lemma explain_panics p plan : explain p plan = None ↔ ¬ printable plan.
Proof. rewrite <- (optimize_panics p). unfold explain. by destruct (optimize p plan) as [[]|]. Qed.

Lemma analyze_panics p request now now' now'' :
  (query_explain_analyze_handler request now now' now'' {| mx_poisoned := false; mx_value := p |}).1
    = None ↔ ¬ printable (aq_plan request).
Proof.
  rewrite <- (optimize_panics p). destruct (optimize p (aq_plan request)) as [[physical|e]|] eqn:Ho.
  - split; [|done]. destruct (analyze_finishes (aq_simulated_timings request) now' now''
      ("analyze-" +:+ pretty (timestamp_millis now)) physical (pl_stats p)) as (pr & Hpr & Hf).
    cbn zeta in Hf. unfold query_explain_analyze_handler, with_planner, explain.
    cbn [mx_poisoned mx_value]. rewrite Ho, Hpr. cbn [mbind option_bind]. by rewrite Hf.
  - unfold query_explain_analyze_handler, with_planner, explain. cbn [mx_poisoned mx_value]. by rewrite Ho.
  - unfold query_explain_analyze_handler, with_planner, explain. cbn [mx_poisoned mx_value]. by rewrite Ho.
Qed.

(** A lost request, and no other, poisons the lock. *)
Lemma with_planner_poisons {A} (f : Planner → option (result ApiError A * Planner)) p :
  let '(a, m) := forget (with_planner f {| mx_poisoned := false; mx_value := p |}) in
  mx_poisoned m = negb (is_ok (ok_or () a)).
Proof. unfold with_planner. cbn. by destruct (f p) as [[]|]. Qed.

Lemma serve_poisons r p :
  let '(a, m) := serve r {| mx_poisoned := false; mx_value := p |} in
  mx_poisoned m = negb (is_ok (ok_or () a)).
Proof.
  destruct r; cbn [serve]; unfold query_plan_handler, query_explain_handler,
    get_planner_config_handler, put_planner_config_handler, planner_stats_handler,
    query_explain_analyze_handler, plan_costs; apply with_planner_poisons.
Qed.

Lemma serve_lost r p :
  (serve r {| mx_poisoned := false; mx_value := p |}).1 = None ↔ ¬ harmless r.
Proof.
  assert (∀ plan, request_plan r = Some plan → (¬ harmless r ↔ ¬ printable plan)) as Hh.
  { intros plan Hr. unfold harmless. rewrite Hr. split; [|naive_solver]. intros Hn Hp. apply Hn.
    by intros ? [= <-]. }
  assert (request_plan r = None → harmless r) as Hn by (unfold harmless; by intros -> ? ?).
  destruct r as [plan|plan| |config| |request now now' now''|plan]; cbn [serve forget fst];
    rewrite ?fmap_None;
    try (split; [done|intros Hx; destruct Hx; by apply Hn]); rewrite Hh by done.
  - rewrite <- (optimize_panics p). unfold query_plan_handler, with_planner. cbn.
    by destruct (optimize p plan).
  - rewrite <- (explain_panics p). unfold query_explain_handler, with_planner. cbn.
    by destruct (explain p plan).
  - rewrite <- (analyze_panics p request now now' now''). apply fmap_None.
  - rewrite <- (explain_panics p). unfold plan_costs, with_planner. cbn. by destruct (explain p plan).
Qed.

Lemma serve_all_poisoned rs m :
  mx_poisoned m = true → serve_all rs m = (replicate (length rs) lock_poisoned, m).
Proof.
  intros Hm. induction rs as [|r rs IH]; [done|]. cbn [serve_all length replicate].
  by rewrite serve_poisoned, IH.
Qed.

(** Requests to a planner that starts healthy: all are answered up to the first whose plan has
    a fulltext query that cannot be cut at byte 20; that one is lost, and from then on every
    request, whatever it asks, is refused with an internal error, for as long as the server
    runs (where a panic unwinds; where it aborts, the server ends with the lost request). *)
Theorem planner_poisoned_for_good (p : Planner) (before : list planner_request) (r : planner_request)
    (after : list planner_request) :
  Forall harmless before → ¬ harmless r →
  ∃ answers p',
    serve_all (before ++ r :: after) {| mx_poisoned := false; mx_value := p |} =
      (answers ++ None :: replicate (length after) lock_poisoned,
       {| mx_poisoned := true; mx_value := p' |}) ∧
    length answers = length before ∧ Forall is_Some answers.
Proof.
  intros Hb Hr. revert p. induction Hb as [|q before Hq Hb IH]; intros p; cbn [app serve_all].
  - pose proof (serve_lost r p) as Hl. pose proof (serve_poisons r p) as Hp.
    destruct (serve r _) as [a m]. cbn [fst] in Hl. apply Hl in Hr as ->. cbn in Hp.
    rewrite serve_all_poisoned by done. destruct m as [b p']. cbn in Hp. subst b.
    exists [], p'. by split_and!.
  - pose proof (serve_lost q p) as Hl. pose proof (serve_poisons q p) as Hp.
    destruct (serve q _) as [a m]. cbn [fst] in Hl.
    destruct a as [a|]; [|by destruct (proj1 Hl eq_refl)]. cbn in Hp.
    destruct m as [b p1]. cbn in Hp. subst b. destruct (IH p1) as (answers & p' & -> & Hlen & Hall).
    exists (Some a :: answers), p'. split_and!; [done|cbn; by f_equal|]. constructor; [by eexists|done].
Qed.

End handlers.
