(* ===== verification/ApiStatus.v ===== *)
(** * The handlers on drift, health and proofs

    Models the handlers of [src/rust-core/verisim-api/src/lib.rs] that use the drift
    detector, the normalizer's status, the proofs and the circuits.  The registration and the
    text encoding of the Prometheus metrics, and the server itself, are left out. *)

From S2P Require Import Prelude Floats LockTable Provenance Temporal Graph Modality VectorSearch HexadTypes HexadStore Circuit Zkp Plan PlanCache Drift DriftSpec Normalizer ApiCommon ApiHexads.
From stdpp Require Import pretty.
From Stdlib Require String.
Local Open Scope Z_scope.

Section handlers.
Context {CH : Chrono} {PL : Platform} {BK : Backends} {UH : UnicodeChar} {UC : Unicode}.
Context {FX : FixedDisplay} {SH : Sha256} {HD : HashIter DriftType}.
Context (config : HexadConfig).

(** ** Drift *)

Record DriftStatusResponse := {
  sr_drift_type : string; sr_current_score : f64; sr_moving_average : f64; sr_max_score : f64;
  sr_measurement_count : Z;
}.

Definition from_metrics (t : DriftType) (m : DriftMetrics) : DriftStatusResponse :=
  {| sr_drift_type := drift_type_display t; sr_current_score := dm_current_score m;
     sr_moving_average := dm_moving_average m; sr_max_score := dm_max_score m;
     sr_measurement_count := dm_measurement_count m |}.

(** [all_metrics.iter()] *)
Definition iter_metrics (d : DriftDetector) : list (DriftType * DriftMetrics) :=
  omap (λ t, pair t <$> all_metrics d !! t) (hash_iter (dom (all_metrics d))).

Definition drift_status_handler (d : DriftDetector) : list DriftStatusResponse :=
  (λ '(t, m), from_metrics t m) <$> iter_metrics d.

Record EntityDriftResponse := {
  ed_entity_id : string; ed_score : f64; ed_drift_type : string; ed_status : string;
}.

Definition entity_status (worst_score : f64) : string :=
  if f64_leb (f64_literal 7 1) worst_score then "critical"
  else if f64_leb (f64_literal 3 1) worst_score then "warning"
  else "healthy".

Definition worst_drift (d : DriftDetector) : string * f64 :=
  match max_by_float (λ x, dm_current_score x.2) (iter_metrics d) with
  | Some (t, m) => (drift_type_display t, dm_current_score m)
  | None => ("none", f64_of_Z 0)
  end.

Definition entity_drift_handler (id : string) (s : HexadState) (d : DriftDetector)
    : result ApiError EntityDriftResponse :=
  _ ← validate_hexad_id id;
  _ ← get_or_not_found config (hexad_not_found id) id s;
  let '(worst_type, worst_score) := worst_drift d in
  Ok {| ed_entity_id := id; ed_score := worst_score; ed_drift_type := worst_type;
        ed_status := entity_status worst_score |}.

(** ** Health *)

Record HealthResponse := {
  hl_status : string; hl_version : string; hl_uptime_seconds : Z; hl_degraded_reason : option string;
}.

(** [{:?}] of a drift type is its name. *)
Definition drift_type_debug (t : DriftType) : string :=
  match t with
  | SemanticVectorDrift => "SemanticVectorDrift"
  | GraphDocumentDrift => "GraphDocumentDrift"
  | TemporalConsistencyDrift => "TemporalConsistencyDrift"
  | TensorDrift => "TensorDrift"
  | SchemaDrift => "SchemaDrift"
  | ProvenanceDrift => "ProvenanceDrift"
  | SpatialDrift => "SpatialDrift"
  | QualityDrift => "QualityDrift"
  end.

Definition drift_reason (word : string) (h : DriftHealthStatus) : string :=
  word +:+ " drift on " +:+ drift_type_debug (Drift.hs_worst_drift_type h) +:+ ": score "
    +:+ f64_fixed 3 (Drift.hs_worst_score h).

Definition health_handler (version : string) (uptime : Z) (now : DateTime) (d : DriftDetector)
    : HealthResponse :=
  let health := health_check now d in
  let '(status_str, reason) :=
    match Drift.hs_status health with
    | HealthCritical => ("degraded", Some (drift_reason "Critical" health))
    | Degraded => ("degraded", Some (drift_reason "Degraded" health))
    | HealthWarning | Healthy => ("healthy", None)
    end in
  {| hl_status := status_str; hl_version := version; hl_uptime_seconds := uptime;
     hl_degraded_reason := reason |}.

(** The detector always answers. *)
Definition ready_handler (s : HexadState) : Z :=
  if is_ok (hexad_list config 1 0 s) then 200 else 503.

Definition normalizer_status_handler (n : Normalizer) : NormalizerStatus := status n.

(** ** Proofs *)

Record ProofGenerateRequest := {
  gq_claim : string; gq_privacy_level : option string; gq_membership_set : option (list string);
  gq_membership_index : option nat;
}.
Record ProofWithCircuitRequest := {
  wq_claim : string; wq_privacy_level : option string; wq_circuit_name : string;
  wq_witness : option (list f64); wq_public_inputs : option (list f64);
}.

Record ProofResponse := {
  pf_success : bool; pf_proof : option ZkpProof; pf_verified : option bool; pf_error : option string;
}.

Definition parse_privacy_level (s : string) : result ApiError PrivacyLevel :=
  let other := str_lowercase s in
  if bool_decide (other = "public") then Ok Public
  else if bool_decide (other = "private") then Ok Private
  else if bool_decide (other ∈ ["zero_knowledge"; "zeroknowledge"; "zk"]) then Ok ZeroKnowledge
  else Err (ApiBadRequest ("Unknown privacy level: '" +:+ other
              +:+ "'. Use 'public', 'private', or 'zero_knowledge'")).

Definition privacy_level (level : option string) : result ApiError PrivacyLevel :=
  match level with Some level => parse_privacy_level level | None => Ok Public end.

Definition proof_response (r : result CircuitError ZkpProof) : ProofResponse :=
  match r with
  | Ok proof => {| pf_success := true; pf_proof := Some proof; pf_verified := None; pf_error := None |}
  | Err e => {| pf_success := false; pf_proof := None; pf_verified := None;
                pf_error := Some (circuit_error_to_string e) |}
  end.

Definition membership_bytes (set : option (list string)) : option (list (list byte)) :=
  (λ l : list string, map as_bytes l) <$> set.

Definition proof_generate_handler (now : DateTime) (request : ProofGenerateRequest)
    : result ApiError ProofResponse :=
  level ← privacy_level (gq_privacy_level request);
  let bridge_request :=
    {| rq_claim := as_bytes (gq_claim request); rq_privacy_level := level;
       rq_circuit_name := None; rq_witness := None; rq_public_inputs := None;
       rq_membership_set := membership_bytes (gq_membership_set request);
       rq_membership_index := gq_membership_index request |} in
  Ok (proof_response (generate_zkp now bridge_request)).

Definition proof_verify_handler (proof : ZkpProof) (claim : string) : ProofResponse :=
  {| pf_success := true; pf_proof := None; pf_verified := Some (verify_zkp proof (as_bytes claim));
     pf_error := None |}.

Definition proof_generate_with_circuit_handler {HN : HashIter N} (now : DateTime)
    (request : ProofWithCircuitRequest) (registry : CircuitRegistry) : result ApiError ProofResponse :=
  level ← privacy_level (wq_privacy_level request);
  let bridge_request :=
    {| rq_claim := as_bytes (wq_claim request); rq_privacy_level := level;
       rq_circuit_name := Some (wq_circuit_name request); rq_witness := wq_witness request;
       rq_public_inputs := wq_public_inputs request; rq_membership_set := None;
       rq_membership_index := None |} in
  Ok (proof_response (generate_zkp_with_circuit now bridge_request registry)).

End handlers.

(** ** What the status and proof endpoints say *)

Section handlers.
Context {CH : Chrono} {PL : Platform} {BK : Backends} {UH : UnicodeChar} {UC : Unicode}.
Context {FX : FixedDisplay} {SH : Sha256} {HD : HashIter DriftType} {HN : HashIter N}.
Context (config : HexadConfig).

(** ** The drift of an entity *)

Lemma elem_of_iter_metrics d t m : (t, m) ∈ iter_metrics d ↔ all_metrics d !! t = Some m.
Proof.
  unfold iter_metrics. rewrite list_elem_of_omap. split.
  - intros (i & _ & (d' & Hd & [= <- <-])%fmap_Some). done.
  - intros Hs. exists t. rewrite elem_of_hash_iter, elem_of_dom, Hs. split; [by eexists|done].
Qed.

(** The endpoint for the drift of one entity says nothing about the entity: any two entities
    that exist get the same score, type and status, the worst of the whole database (when no
    score is a NaN, no type of drift has a larger one). *)
Theorem entity_drift_is_global (id id' : string) (s : HexadState) (d : DriftDetector)
    (r r' : EntityDriftResponse) :
  entity_drift_handler config id s d = Ok r → entity_drift_handler config id' s d = Ok r' →
  ed_entity_id r = id ∧ ed_score r = ed_score r' ∧ ed_drift_type r = ed_drift_type r' ∧
  ed_status r = ed_status r' ∧
  ((∀ t m, all_metrics d !! t = Some m → f64_is_nan (dm_current_score m) = false) →
   ∀ t m, all_metrics d !! t = Some m → f64_leb (dm_current_score m) (ed_score r) = true).
Proof.
  unfold entity_drift_handler. intros (? & _ & H)%result_bind_Ok (? & _ & H')%result_bind_Ok.
  apply result_bind_Ok in H as (h & _ & H). apply result_bind_Ok in H' as (h' & _ & H').
  unfold worst_drift in *.
  pose proof (max_by_float_spec (λ x : DriftType * DriftMetrics, dm_current_score x.2) (iter_metrics d)) as Hmax.
  destruct (max_by_float _ (iter_metrics d)) as [[tw mw]|] eqn:Hm.
  - injection H as <-. injection H' as <-. cbn. split_and!; try done. intros Hn t m Ht.
    destruct Hmax as (y & [= <-] & _ & Hall).
    + intros Hnil. by rewrite Hnil in Hm.
    + apply Forall_forall. intros [t' m'] Hx%elem_of_iter_metrics. by apply (Hn t').
    + rewrite Forall_forall in Hall. apply (Hall (t, m)). by apply elem_of_iter_metrics.
  - injection H as <-. injection H' as <-. cbn. split_and!; try done. intros _ t m Ht.
    apply elem_of_iter_metrics in Ht. destruct (iter_metrics d); [by apply elem_of_nil in Ht|done].
Qed.

(** ** Proofs with a circuit *)

(** The server's registry of circuits is empty and no endpoint adds to it: the endpoint that
    proves with a circuit never succeeds, whatever it is asked. *)
Theorem circuit_proofs_fail (now : DateTime) (request : ProofWithCircuitRequest) (r : ProofResponse) :
  proof_generate_with_circuit_handler now request registry_new = Ok r →
  pf_success r = false ∧ pf_proof r = None ∧ is_Some (pf_error r).
Proof.
  unfold proof_generate_with_circuit_handler. intros (level & _ & [= <-])%result_bind_Ok.
  unfold generate_zkp_with_circuit. cbn [rq_circuit_name].
  destruct (generate_zkp _ _) as [proof|e]; cbn; [|by split_and!].
  assert (verify_with_circuit (wq_circuit_name request) (default [] (wq_witness request))
    (default [] (wq_public_inputs request)) registry_new = Err (CircuitNotFound (wq_circuit_name request)))
    as -> by (unfold verify_with_circuit; by destruct (wq_circuit_name request)).
  by split_and!.
Qed.

End handlers.
