(* ===== verification/VqlApi.v ===== *)
(** * Queries as text

    Models [src/rust-core/verisim-api/src/vql.rs]: the endpoint that takes a query in VQL,
    cuts it into tokens and carries it out on the hexad store.  An answer is given by its
    data before they are turned into JSON; [None] is a panic, of a slice out of its string. *)

From S2P Require Import Prelude Floats LockTable Provenance Temporal Graph Modality HexadTypes HexadStore Plan PlanCache Drift Normalizer ApiCommon ApiHexads ApiStatus.
From stdpp Require Import pretty.
From Stdlib Require String Ascii.
Local Open Scope Z_scope.

(** [str::parse::<f32>]: the number, or the text of the error. *)
Class ParseFloat := { parse_f32 : string → result string f32 }.

(** ** Tokens *)

(** The local variables of the loop. *)
Record scanner := {
  sc_tokens : list string; sc_current : string; sc_single : bool; sc_double : bool;
}.

Definition emit (s : scanner) : scanner :=
  if bool_decide (sc_current s = "") then s
  else {| sc_tokens := sc_tokens s ++ [sc_current s]; sc_current := "";
          sc_single := sc_single s; sc_double := sc_double s |}.

Definition is_blank (ch : Ascii.ascii) : bool := bool_decide (ch = space ∨ ch = tab ∨ ch = line_feed).

Definition scan (s : scanner) (ch : Ascii.ascii) : scanner :=
  let pushed := push (sc_current s) ch in
  if bool_decide (ch = quote) && negb (sc_double s) then
    {| sc_tokens := sc_tokens s; sc_current := pushed; sc_single := negb (sc_single s);
       sc_double := sc_double s |}
  else if bool_decide (ch = double_quote) && negb (sc_single s) then
    {| sc_tokens := sc_tokens s; sc_current := pushed; sc_single := sc_single s;
       sc_double := negb (sc_double s) |}
  else if is_blank ch && negb (sc_single s) && negb (sc_double s) then emit s
  else {| sc_tokens := sc_tokens s; sc_current := pushed; sc_single := sc_single s;
          sc_double := sc_double s |}.

Definition scanner_start : scanner :=
  {| sc_tokens := []; sc_current := ""; sc_single := false; sc_double := false |}.

Definition tokenize (input : string) : list string :=
  sc_tokens (emit (foldl scan scanner_start (String.list_ascii_of_string input))).

Definition quoted_by (q : Ascii.ascii) (s : string) : bool :=
  starts_with (String.String q "") s && ends_with q s.

(** [&s[1..s.len() - 1]] *)
Definition unquote (s : string) : option string :=
  if quoted_by quote s || quoted_by double_quote s then slice 1 (String.length s - 1) s else Some s.

(** [str::parse::<usize>]: digits, after a plus sign if one likes. *)
Fixpoint digits (acc : Z) (s : string) : option Z :=
  match s with
  | String.EmptyString => Some acc
  | String.String a s =>
    let n := Z.of_N (Ascii.N_of_ascii a) in
    if (48 <=? n) && (n <=? 57) then
      let acc := 10 * acc + (n - 48) in
      if acc <? 2 ^ 64 then digits acc s else None
    else None
  end.

Definition parse_usize (s : string) : option Z :=
  let body := match s with
              | String.String a t => if decide (a = Ascii.ascii_of_nat 43) then t else s
              | String.EmptyString => s
              end in
  match body with String.EmptyString => None | _ => digits 0 body end.

Section vql.
Context {CH : Chrono} {PL : Platform} {BK : Backends} {UC : Unicode} {UT : UnicodeTrim}.
Context {FX : FixedDisplay} {HD : HashIter DriftType} {PF : ParseFloat}.
Context (config : HexadConfig) (api : ApiConfig).

Fixpoint limit_from (i : nat) (tokens : list string) : option (nat * nat) :=
  match tokens with
  | [] => None
  | token :: rest =>
    match (if bool_decide (str_uppercase token = "LIMIT") then head rest ≫= parse_usize else None) with
    | Some n => Some (Z.to_nat (Z.min n 1000), i)
    | None => limit_from (S i) rest
    end
  end.

Definition parse_limit (tokens : list string) : nat * nat :=
  default (100%nat, length tokens) (limit_from 0 tokens).

(** The answer of [unquote] is [Some] of a panic or a value, inside the answer of the search. *)
Fixpoint find_where_id (tokens : list string) : option (option string) :=
  match tokens with
  | [] => None
  | token :: rest =>
    match (if bool_decide (str_uppercase token = "WHERE") then
             match rest with
             | key :: eq :: val :: _ =>
               if bool_decide (str_lowercase key = "id") && bool_decide (eq = "=") then Some val else None
             | _ => None
             end
           else None) with
    | Some val => Some (unquote val)
    | None => find_where_id rest
    end
  end.

(** ** Answers *)

Record SearchRow := {
  sw_id : string; sw_score : f64; sw_title : option string;
  sw_has : option (bool * bool * bool);   (** graph, vector and document, in a text search *)
}.

Record DriftRow := {
  dw_drift_type : string; dw_current_score : f64; dw_moving_average : f64; dw_max_score : f64;
  dw_measurement_count : Z;
}.

(** The fields of a plan that EXPLAIN shows, by the operation. *)
Inductive explained :=
| PointLookup
| SequentialScan (limit : nat)
| FullTextSearch (limit : nat)
| NearestNeighbor (limit : nat)
| GraphTraversal
| UnknownSearch
| MultiModalInsert
| MultiModalDelete
| Unrecognized (statement_type : string).

Inductive VqlData :=
| DataHexads (rows : list HexadResponse)
| DataResults (rows : list SearchRow)
| DataNull
| DataStatus (status version : string) (uptime_seconds : Z) (degraded_reason : option string)
| DataDrift (rows : list DriftRow)
| DataNormalizer (status : NormalizerStatus)
| DataCount (count : nat)
| DataPlan (query : string) (plan : explained).

Record VqlExecuteResponse := {
  vx_statement_type : string; vx_row_count : nat; vx_data : VqlData; vx_message : option string;
}.

(** What a request finds of the server, besides the hexad store: [su_uptime] and [su_now] are
    what the clocks show. *)
Record Surroundings := {
  su_drift_detector : DriftDetector; su_normalizer : Normalizer; su_version : string;
  su_uptime : Z; su_now : DateTime;
}.

Definition vql_answer : Type := option (result ApiError VqlExecuteResponse).

Definition bad_request {A} (message : string) : option (result ApiError A) := Some (Err (ApiBadRequest message)).

Definition response (statement_type : string) (row_count : nat) (data : VqlData)
    (message : option string) : VqlExecuteResponse :=
  {| vx_statement_type := statement_type; vx_row_count := row_count; vx_data := data;
     vx_message := message |}.

Definition hexads_response (statement_type : string) (r : result HexadError (list Hexad))
    : result ApiError VqlExecuteResponse :=
  hexads ← internal_error r;
  Ok (response statement_type (length hexads) (DataHexads (hexad_responses hexads)) None).

Definition missing_hexad (id : string) : string := "Hexad '" +:+ id +:+ "' not found".

(** ** SELECT *)

Definition execute_select (tokens : list string) (s : HexadState) : vql_answer :=
  let limit := (parse_limit tokens).1 in
  match find_where_id tokens with
  | Some None => None
  | Some (Some id) =>
    Some (hexad ← get_or_not_found config (missing_hexad id) id s;
          Ok (response "SELECT" 1 (DataHexads [hexad_response hexad]) None))
  | None => Some (hexads_response "SELECT" (hexad_list config limit 0 s))
  end.

(** ** SEARCH *)

(** [1.0 - (i as f64 * 0.1)] *)
Definition row_score (i : nat) : f64 :=
  f64_sub (f64_of_Z 1) (f64_mul (f64_of_Z (Z.of_nat i)) (f64_literal 1 1)).

Definition text_row (i : nat) (h : Hexad) : SearchRow :=
  {| sw_id := h_id h; sw_score := row_score i; sw_title := doc_title <$> h_document h;
     sw_has := Some (is_some (h_graph_node h), is_some (h_embedding h), is_some (h_document h)) |}.

Definition vector_row (i : nat) (h : Hexad) : SearchRow :=
  {| sw_id := h_id h; sw_score := row_score i; sw_title := doc_title <$> h_document h; sw_has := None |}.

Definition rows_response (statement_type : string) (row : nat → Hexad → SearchRow)
    (r : result HexadError (list Hexad)) : result ApiError VqlExecuteResponse :=
  hexads ← internal_error r;
  Ok (response statement_type (length hexads) (DataResults (imap row hexads)) None).

Fixpoint parse_all (pieces : list string) : result ApiError (list f32) :=
  match pieces with
  | [] => Ok []
  | v :: pieces =>
    x ← map_err (λ e, ApiBadRequest ("Invalid vector: " +:+ e)) (parse_f32 v);
    xs ← parse_all pieces;
    Ok (x :: xs)
  end.

Definition open_bracket : Ascii.ascii := Ascii.ascii_of_nat 91.
Definition close_bracket : Ascii.ascii := Ascii.ascii_of_nat 93.

Definition parse_vector (s : string) : result ApiError (list f32) :=
  let cleaned := replace_char comma space
    (trim_end_matches close_bracket (trim_start_matches open_bracket (str_trim s))) in
  parse_all (filter (λ v, v ≠ "") (split_whitespace cleaned)).

(** [&tokens[2..limit_idx]] *)
Definition between (n m : nat) (tokens : list string) : option (list string) :=
  if (n <=? m)%nat && (m <=? length tokens)%nat then Some (take (m - n) (drop n tokens)) else None.

(** The predicate after [BY]; [None] is a panic of [unquote]. *)
Definition find_predicate (tokens : list string) : option string :=
  match list_find (λ t, str_uppercase t = "BY") tokens with
  | Some (i, _) =>
    match tokens !! S i with
    | Some t => unquote t
    | None => Some "related"
    end
  | None => Some "related"
  end.

Definition execute_search (tokens : list string) (s : HexadState) : vql_answer :=
  match tokens with
  | _ :: kind :: third :: _ =>
    let other := str_uppercase kind in
    if bool_decide (other = "TEXT") then
      query_text ← unquote third;
      Some (rows_response "SEARCH TEXT" text_row (search_text config query_text (parse_limit tokens).1 s))
    else if bool_decide (other = "VECTOR") then
      let '(limit, limit_idx) := parse_limit tokens in
      pieces ← between 2 limit_idx tokens;
      Some (
        vector ← parse_vector (join_spaces pieces);
        _ ← (if decide (length vector = ac_vector_dimension api) then Ok ()
             else Err (ApiBadRequest ("Vector dimension mismatch: expected "
                         +:+ pretty (ac_vector_dimension api) +:+ ", got " +:+ pretty (length vector))));
        rows_response "SEARCH VECTOR" vector_row (search_similar config vector limit s))
    else if bool_decide (other = "RELATED") then
      id ← unquote third;
      pred ← find_predicate tokens;
      Some (hexads_response "SEARCH RELATED" (query_related config id pred s))
    else bad_request ("Unknown SEARCH type: '" +:+ other +:+ "'. Use TEXT, VECTOR, or RELATED.")
  | _ => bad_request "SEARCH requires at least: SEARCH TEXT '<query>' or SEARCH VECTOR [...]"
  end.

(** ** INSERT *)

(** The values, where the string can be cut there. *)
Definition parse_insert_values (raw : string) : option (result ApiError (string * string)) :=
  match str_find "VALUES" (str_uppercase raw) with
  | None => bad_request "INSERT INTO requires a VALUES clause"
  | Some values_idx =>
    values_part ← slice_from (values_idx + 6) raw;
    let values_part :=
      trim_end_matches (Ascii.ascii_of_nat 41)
        (trim_start_matches (Ascii.ascii_of_nat 40) (str_trim values_part)) in
    let value_tokens := tokenize (replace_char comma space values_part) in
    let value (i : nat) := match value_tokens !! i with Some t => unquote t | None => Some "" end in
    title ← value 0%nat;
    body ← value 1%nat;
    Some (Ok (title, body))
  end.

Definition insert_values (raw : string) : option (result ApiError (string * string)) :=
  if starts_with "INSERT INTO" (str_uppercase raw) then parse_insert_values raw
  else
    match tokenize raw with
    | _ :: t1 :: t2 :: _ =>
      title ← unquote t1;
      body ← unquote t2;
      Some (Ok (title, body))
    | _ => bad_request "INSERT requires: INSERT INTO hexads (title, body) VALUES ('<title>', '<body>')"
    end.

Definition document_input (title body : string) : HexadInput :=
  {| hi_graph := None; hi_vector := None; hi_tensor := None; hi_semantic := None;
     hi_document := Some (document_without_fields title body); hi_provenance := None;
     hi_spatial := None; hi_metadata := ∅ |}.

Definition execute_insert (raw : string) (s : HexadState) : vql_answer * HexadState :=
  match insert_values raw with
  | None => (None, s)
  | Some (Err e) => (Some (Err e), s)
  | Some (Ok (title, body)) =>
    let '(r, s) := create config (document_input title body) s in
    (Some (hexad ← internal_error r;
           Ok (response "INSERT" 1 (DataHexads [hexad_response hexad])
                 (Some ("Inserted hexad '" +:+ h_id hexad +:+ "'")))), s)
  end.

(** ** DELETE *)

Definition execute_delete (tokens : list string) (s : HexadState) : vql_answer * HexadState :=
  match find_where_id tokens with
  | None => (bad_request "DELETE requires: DELETE FROM hexads WHERE id = '<id>'", s)
  | Some None => (None, s)
  | Some (Some id) =>
    let '(r, s) := hexad_delete id s in
    (Some (_ ← not_found_or_internal (missing_hexad id) r;
           Ok (response "DELETE" 1 DataNull (Some ("Deleted hexad '" +:+ id +:+ "'")))), s)
  end.

(** ** SHOW *)

Definition show_status (su : Surroundings) : VqlExecuteResponse :=
  let h := health_check (su_now su) (su_drift_detector su) in
  let '(status, reason) :=
    match Drift.hs_status h with
    | HealthCritical | Degraded =>
      ("degraded", Some (drift_type_debug (Drift.hs_worst_drift_type h) +:+ ": "
                           +:+ f64_fixed 3 (Drift.hs_worst_score h)))
    | _ => ("healthy", None)
    end in
  response "SHOW STATUS" 1 (DataStatus status (su_version su) (su_uptime su) reason) None.

Definition drift_row (t : DriftType) (m : DriftMetrics) : DriftRow :=
  {| dw_drift_type := drift_type_display t; dw_current_score := dm_current_score m;
     dw_moving_average := dm_moving_average m; dw_max_score := dm_max_score m;
     dw_measurement_count := dm_measurement_count m |}.

Definition show_drift (su : Surroundings) : VqlExecuteResponse :=
  let metrics := all_metrics (su_drift_detector su) in
  let rows := omap (λ t, drift_row t <$> metrics !! t) (hash_iter (dom metrics)) in
  response "SHOW DRIFT" (length rows) (DataDrift rows) None.

Definition execute_show (su : Surroundings) (tokens : list string) (s : HexadState) : vql_answer :=
  match tokens with
  | _ :: target :: _ =>
    let other := str_uppercase target in
    if bool_decide (other = "STATUS" ∨ other = "HEALTH") then Some (Ok (show_status su))
    else if bool_decide (other = "DRIFT") then Some (Ok (show_drift su))
    else if bool_decide (other = "NORMALIZER") then
      Some (Ok (response "SHOW NORMALIZER" 1 (DataNormalizer (status (su_normalizer su))) None))
    else if bool_decide (other = "HEXADS") then
      Some (hexads_response "SHOW HEXADS" (hexad_list config (parse_limit tokens).1 0 s))
    else bad_request ("Unknown SHOW target: '" +:+ other +:+ "'. Use STATUS, DRIFT, NORMALIZER, or HEXADS.")
  | _ => bad_request "SHOW requires: SHOW STATUS | SHOW DRIFT | SHOW NORMALIZER | SHOW HEXADS"
  end.

(** ** COUNT *)

Definition execute_count (s : HexadState) : vql_answer :=
  Some (hexads ← internal_error (hexad_list config 1000 0 s);
        Ok (response "COUNT" 1 (DataCount (length hexads)) None)).

(** ** EXPLAIN *)

Definition explain_plan (inner_tokens : list string) : option explained :=
  let statement_type := str_uppercase (default "" (head inner_tokens)) in
  let limit := (parse_limit inner_tokens).1 in
  let where_id := find_where_id inner_tokens in
  match where_id with
  | Some None => None
  | _ =>
    Some (
      if bool_decide (statement_type = "SELECT") then
        if where_id is Some _ then PointLookup else SequentialScan limit
      else if bool_decide (statement_type = "SEARCH") then
        let search_type := default "" (str_uppercase <$> inner_tokens !! 1%nat) in
        if bool_decide (search_type = "TEXT") then FullTextSearch limit
        else if bool_decide (search_type = "VECTOR") then NearestNeighbor limit
        else if bool_decide (search_type = "RELATED") then GraphTraversal
        else UnknownSearch
      else if bool_decide (statement_type = "INSERT") then MultiModalInsert
      else if bool_decide (statement_type = "DELETE") then MultiModalDelete
      else Unrecognized statement_type)
  end.

Definition execute_explain (tokens : list string) (raw : string) : vql_answer :=
  if (length tokens <? 2)%nat then bad_request "EXPLAIN requires a query to explain"
  else
    at_ ← str_find "EXPLAIN" (str_uppercase raw);
    rest ← slice_from (at_ + 7) raw;
    let inner_query := str_trim rest in
    let inner_tokens := tokenize inner_query in
    match inner_tokens with
    | [] => bad_request "EXPLAIN requires a query"
    | _ =>
      plan ← explain_plan inner_tokens;
      Some (Ok (response "EXPLAIN" 1 (DataPlan inner_query plan) None))
    end.

(** ** The endpoint *)

Definition semicolon : Ascii.ascii := Ascii.ascii_of_nat 59.

Definition vql_execute_handler (su : Surroundings) (query : string) (s : HexadState)
    : vql_answer * HexadState :=
  let query := str_trim query in
  if bool_decide (query = "") then (bad_request "Empty query", s)
  else
    let query := str_trim (trim_end_matches semicolon query) in
    let tokens := tokenize query in
    match tokens with
    | [] => (bad_request "Empty query after parsing", s)
    | token :: _ =>
      let other := str_uppercase token in
      if bool_decide (other = "SELECT") then (execute_select tokens s, s)
      else if bool_decide (other = "SEARCH") then (execute_search tokens s, s)
      else if bool_decide (other = "INSERT") then execute_insert query s
      else if bool_decide (other = "DELETE") then execute_delete tokens s
      else if bool_decide (other = "SHOW") then (execute_show su tokens s, s)
      else if bool_decide (other = "COUNT") then (execute_count s, s)
      else if bool_decide (other = "EXPLAIN") then (execute_explain tokens query, s)
      else (bad_request ("Unknown VQL statement: '" +:+ other
              +:+ "'. Supported: SELECT, SEARCH, INSERT, DELETE, SHOW, COUNT, EXPLAIN"), s)
    end.

End vql.
