(* ===== verification/VqlApiSpec.v ===== *)
(** * What queries as text do

    The tokens of a query are what its words are; a document inserted by a query is what
    the next query selects, and the answers agree with those of the REST endpoints; a lone
    quote brings the request down. *)

From S2P Require Import Prelude Floats LockTable Provenance Temporal Graph Modality VectorSearch HexadTypes HexadStore HexadLogic HexadTxn HexadView HexadRead Plan PlanCache Drift Normalizer ApiCommon ApiHexads ApiHexadsSpec VqlApi.
From stdpp Require Import pretty.
From Stdlib Require String Ascii.
Local Open Scope Z_scope.

(** ** Words *)

Definition plain (a : Ascii.ascii) : Prop := a ≠ quote ∧ a ≠ double_quote ∧ is_blank a = false.

Fixpoint lacks (c : Ascii.ascii) (s : string) : Prop :=
  match s with
  | String.EmptyString => True
  | String.String a s => a ≠ c ∧ lacks c s
  end.

#[export] Instance lacks_dec c s : Decision (lacks c s).
Proof. induction s as [|a s IH]; cbn; apply _. Defined.

#[export] Instance plain_dec a : Decision (plain a).
Proof. unfold plain. apply _. Defined.

Fixpoint plain_word (s : string) : Prop :=
  match s with
  | String.EmptyString => True
  | String.String a s => plain a ∧ plain_word s
  end.

#[export] Instance plain_word_dec s : Decision (plain_word s).
Proof. induction s as [|a s IH]; cbn; apply _. Defined.

Definition quoted (s : string) : string := String.String quote (s +:+ String.String quote "").

(** A word: characters that are not blank, and parts between quotes of either kind. *)
Inductive word : string → Prop :=
| word_nil : word ""
| word_plain a t : plain a → word t → word (String.String a t)
| word_single s t : lacks quote s → word t → word (String.String quote (s +:+ String.String quote t))
| word_double s t :
    lacks double_quote s → word t →
    word (String.String double_quote (s +:+ String.String double_quote t)).

Lemma plain_word_word s : plain_word s → word s.
Proof. induction s as [|a s IH]; [constructor|]. intros [Ha Hs]. constructor; [done|by apply IH]. Qed.

Lemma quoted_word s : lacks quote s → word (quoted s).
Proof. intros Hs. apply (word_single s ""); [done|constructor]. Qed.

Definition scan_all (s : scanner) (t : string) : scanner :=
  foldl scan s (String.list_ascii_of_string t).

Lemma scan_all_app s t u : scan_all s (t +:+ u) = scan_all (scan_all s t) u.
Proof. unfold scan_all. revert s. induction t as [|a t IH]; intros s; [done|]. cbn. apply IH. Qed.

Definition outside (tokens : list string) (current : string) : scanner :=
  {| sc_tokens := tokens; sc_current := current; sc_single := false; sc_double := false |}.

Lemma scan_inside (q : Ascii.ascii) (single double : bool) tokens s : ∀ current,
  (q = quote ∧ single = true ∧ double = false ∨ q = double_quote ∧ single = false ∧ double = true) →
  lacks q s →
  scan_all {| sc_tokens := tokens; sc_current := current; sc_single := single; sc_double := double |} s
  = {| sc_tokens := tokens; sc_current := current +:+ s; sc_single := single; sc_double := double |}.
Proof.
  induction s as [|a s IH]; intros current Hq Hs; [by rewrite str_app_nil|]. destruct Hs as [Ha Hs].
  unfold scan_all in *. cbn [String.list_ascii_of_string foldl].
  assert (scan {| sc_tokens := tokens; sc_current := current; sc_single := single; sc_double := double |} a
    = {| sc_tokens := tokens; sc_current := push current a; sc_single := single; sc_double := double |}) as ->.
  { unfold scan. cbn. destruct Hq as [(-> & -> & ->)|(-> & -> & ->)];
      rewrite (bool_decide_false _ Ha); cbn; rewrite ?andb_false_r; done. }
  rewrite IH by done. by rewrite push_append.
Qed.

Lemma str_app_cons a (s t : string) : String.String a s +:+ t = String.String a (s +:+ t).
Proof. done. Qed.

Lemma scan_all_cons s a t : scan_all s (String.String a t) = scan_all (scan s a) t.
Proof. done. Qed.

Lemma scan_quoted q tokens current s t :
  (q = quote ∨ q = double_quote) → lacks q s →
  scan_all (outside tokens current) (String.String q (s +:+ String.String q t)) =
  scan_all (outside tokens (current +:+ String.String q (s +:+ String.String q ""))) t.
Proof.
  intros Hq Hs. rewrite scan_all_cons, scan_all_app, scan_all_cons. f_equal.
  rewrite <- (push_append current q), <- str_app_assoc.
  fold (push (push current q +:+ s) q). destruct Hq as [-> | ->].
  - change (scan (outside tokens current) quote) with
      {| sc_tokens := tokens; sc_current := push current quote; sc_single := true; sc_double := false |}.
    rewrite (scan_inside quote) by (by left || done). reflexivity.
  - change (scan (outside tokens current) double_quote) with
      {| sc_tokens := tokens; sc_current := push current double_quote; sc_single := false; sc_double := true |}.
    rewrite (scan_inside double_quote) by (by right || done). reflexivity.
Qed.

Lemma scan_plain tokens current a :
  plain a → scan (outside tokens current) a = outside tokens (push current a).
Proof.
  intros (H1 & H2 & H3). unfold scan, outside. cbn.
  by rewrite (bool_decide_false _ H1), (bool_decide_false _ H2), H3.
Qed.

Lemma scan_word tokens t : ∀ current,
  word t → scan_all (outside tokens current) t = outside tokens (current +:+ t).
Proof.
  intros current Ht. revert current.
  induction Ht as [|a t Ha Ht IH|s t Hs Ht IH|s t Hs Ht IH]; intros current.
  - by rewrite str_app_nil.
  - by rewrite scan_all_cons, scan_plain, IH, push_append.
  - rewrite scan_quoted, IH by auto. by rewrite str_app_assoc, str_app_cons, str_app_assoc.
  - rewrite scan_quoted, IH by auto. by rewrite str_app_assoc, str_app_cons, str_app_assoc.
Qed.

Definition kept (current : string) : list string := if decide (current = "") then [] else [current].

Lemma emit_outside tokens current : emit (outside tokens current) = outside (tokens ++ kept current) "".
Proof.
  unfold emit, kept. cbn. case_decide as H.
  - subst. rewrite bool_decide_true by done. by rewrite app_nil_r.
  - by rewrite bool_decide_false.
Qed.

Fixpoint blanks (s : string) : Prop :=
  match s with
  | String.EmptyString => True
  | String.String a s => is_blank a = true ∧ blanks s
  end.

Lemma scan_blank tokens current a :
  is_blank a = true → scan (outside tokens current) a = emit (outside tokens current).
Proof.
  unfold is_blank. intros H. pose proof H as [-> | [-> | ->]]%bool_decide_eq_true; reflexivity.
Qed.

Lemma scan_more_blanks tokens s : blanks s → scan_all (outside tokens "") s = outside tokens "".
Proof.
  induction s as [|a s IH]; [done|]. intros [Ha Hs]. rewrite scan_all_cons, scan_blank by done. by apply IH.
Qed.

Lemma scan_blanks tokens s : ∀ current,
  blanks s → s ≠ "" → scan_all (outside tokens current) s = outside (tokens ++ kept current) "".
Proof.
  intros current Hs Hne. destruct s as [|a s]; [done|]. destruct Hs as [Ha Hs].
  rewrite scan_all_cons, scan_blank, emit_outside by done. by apply scan_more_blanks.
Qed.

(** Words, each after what separates it from the one before, and what follows the last. *)
Definition lay_out (pieces : list (string * string)) (tail : string) : string :=
  foldr (λ '(b, t) r, b +:+ t +:+ r) tail pieces.

Definition words (ts : list string) : Prop := Forall (λ t, word t ∧ t ≠ "") ts.

Definition separated (pieces : list (string * string)) : Prop :=
  Forall (λ '(b, t), blanks b ∧ b ≠ "" ∧ word t ∧ t ≠ "") pieces.

Lemma scan_layout tail pieces : ∀ tokens t,
  t ≠ "" → separated pieces → blanks tail →
  emit (scan_all (outside tokens t) (lay_out pieces tail)) = outside (tokens ++ t :: pieces.*2) "".
Proof.
  induction pieces as [|[b u] pieces IH]; intros tokens t Ht Hp Htail.
  - change (lay_out [] tail) with tail. change (([] : list (string * string)).*2) with (@nil string).
    destruct (decide (tail = "")) as [-> | Hne].
    + change (scan_all (outside tokens t) "") with (outside tokens t).
      rewrite emit_outside. unfold kept. by rewrite decide_False.
    + rewrite scan_blanks by done. unfold kept. by rewrite decide_False.
  - apply Forall_cons in Hp as [(Hb & Hbn & Hu & Hun) Hp]. cbn [lay_out foldr].
    rewrite scan_all_app, scan_blanks by done. unfold kept. rewrite decide_False by done.
    rewrite scan_all_app, scan_word by done. change ("" +:+ u) with u.
    fold (lay_out pieces tail). rewrite IH by done. cbn. by rewrite <- app_assoc.
Qed.

Lemma tokenize_layout b t pieces tail :
  blanks b → word t → t ≠ "" → separated pieces → blanks tail →
  tokenize (b +:+ t +:+ lay_out pieces tail) = t :: pieces.*2.
Proof.
  intros Hb Ht Hne Hp Htail. unfold tokenize.
  change (foldl scan scanner_start) with (foldl scan (outside [] "")).
  fold (scan_all (outside [] "") (b +:+ t +:+ lay_out pieces tail)).
  rewrite !scan_all_app, scan_more_blanks, scan_word by done. change ("" +:+ t) with t.
  by rewrite scan_layout.
Qed.

(** The tokens of a query are its words, whatever blanks there are before, between and after
    them: what is between quotes stays together, blanks and the other kind of quote included. *)
Theorem tokenize_words (b t : string) (pieces : list (string * string)) (tail : string) :
  blanks b → word t → t ≠ "" → separated pieces → blanks tail →
  tokenize (b +:+ t +:+ lay_out pieces tail) = t :: pieces.*2.
Proof. apply tokenize_layout. Qed.

Lemma join_layout t ts : join_spaces (t :: ts) = t +:+ lay_out ((λ u, (" ", u)) <$> ts) "".
Proof.
  revert t. induction ts as [|u ts IH]; intros t; [by rewrite str_app_nil|].
  change (join_spaces (t :: u :: ts)) with (t +:+ " " +:+ join_spaces (u :: ts)). by rewrite IH.
Qed.

Lemma tokenize_join t ts : words (t :: ts) → tokenize (join_spaces (t :: ts)) = t :: ts.
Proof.
  intros [[Ht Hne] Hts]%Forall_cons. rewrite join_layout. etrans.
  - apply (tokenize_layout ""); [done..| |done].
    apply Forall_fmap. eapply Forall_impl; [exact Hts|]. by intros u [??].
  - by rewrite <- list_fmap_compose, list_fmap_id.
Qed.

Lemma join_last t ts v :
  ∃ p, join_spaces (t :: ts ++ [quoted v]) = t +:+ p +:+ String.String quote "".
Proof.
  rewrite join_layout. revert t. induction ts as [|u ts IH]; intros t.
  - exists (String.String space (String.String quote v)). cbn [app fmap list_fmap lay_out foldr].
    by rewrite str_app_nil.
  - destruct (IH u) as [p Hp]. exists (" " +:+ u +:+ p). cbn [app fmap list_fmap lay_out foldr].
    change (foldr _ "" _) with (lay_out ((λ u, (" ", u)) <$> (ts ++ [quoted v])) "").
    by rewrite Hp, !str_app_assoc.
Qed.

(** ** What Unicode's tables say of ASCII *)

Definition ascii_shift (lo hi : N) (f : N → N) (a : Ascii.ascii) : Ascii.ascii :=
  let n := Ascii.N_of_ascii a in
  if ((lo <=? n) && (n <=? hi))%N then Ascii.ascii_of_N (f n) else a.

Definition ascii_upper : Ascii.ascii → Ascii.ascii := ascii_shift 97 122 (λ n, n - 32)%N.
Definition ascii_lower : Ascii.ascii → Ascii.ascii := ascii_shift 65 90 (λ n, n + 32)%N.

Definition is_ascii (a : Ascii.ascii) : bool := (Ascii.N_of_ascii a <? 128)%N.
Definition visible (a : Ascii.ascii) : bool :=
  let n := Ascii.N_of_ascii a in ((33 <=? n) && (n <=? 126))%N.

Fixpoint all_ascii (s : string) : bool :=
  match s with String.EmptyString => true | String.String a s => is_ascii a && all_ascii s end.

Fixpoint string_upper (s : string) : string :=
  match s with
  | String.EmptyString => ""
  | String.String a s => String.String (ascii_upper a) (string_upper s)
  end.

(** Upper case is taken character by character, on ASCII as usual; trimming leaves what begins
    and ends with a visible character, and removes a leading space. *)
Class TextLaws {UC : Unicode} {UT : UnicodeTrim} := {
  upper_empty : str_uppercase "" = "";
  upper_ascii : ∀ a s, is_ascii a = true →
    str_uppercase (String.String a s) = String.String (ascii_upper a) (str_uppercase s);
  lower_id : str_lowercase "id" = "id";
  trim_visible : ∀ a s b, visible a = true → visible b = true →
    str_trim (String.String a (s +:+ String.String b "")) = String.String a (s +:+ String.String b "");
  trim_space : ∀ s, str_trim (String.String space s) = str_trim s;
}.

Section laws.
Context {UC : Unicode} {UT : UnicodeTrim} {TL : TextLaws}.

Lemma upper_prefix p s :
  all_ascii p = true → str_uppercase (p +:+ s) = string_upper p +:+ str_uppercase s.
Proof.
  induction p as [|a p IH]; [done|]. cbn [all_ascii]. intros [Ha Hp]%andb_prop.
  rewrite str_app_cons, upper_ascii, IH by done. done.
Qed.

Lemma upper_text s : all_ascii s = true → str_uppercase s = string_upper s.
Proof.
  intros H. rewrite <- (str_app_nil s) at 1. rewrite upper_prefix by done.
  by rewrite upper_empty, str_app_nil.
Qed.

End laws.

Lemma trim_end_other c b s : b ≠ c → trim_end_matches c (s +:+ String.String b "") = s +:+ String.String b "".
Proof.
  intros Hb. induction s as [|a s IH].
  - change (trim_end_matches c (String.String b "") = String.String b ""). cbn. by rewrite decide_False.
  - rewrite str_app_cons. cbn [trim_end_matches]. rewrite IH. by destruct s.
Qed.

(** ** Quotes *)

Lemma get_append p c q : String.get (String.length p) (p +:+ String.String c q) = Some c.
Proof. induction p as [|a p IH]; [done|]. exact IH. Qed.

Lemma substring_append s t : String.substring 0 (String.length s) (s +:+ t) = s.
Proof. induction s as [|a s IH]; [by destruct t|]. exact (f_equal (String.String a) IH). Qed.

Lemma unquote_quoted s : starts_continuation s = false → unquote (quoted s) = Some s.
Proof.
  intros Hs. unfold unquote, quoted.
  assert (String.length (String.String quote (s +:+ String.String quote "")) = S (S (String.length s)))%nat
    as Hlen by (cbn [String.length]; rewrite str_app_length; cbn; lia).
  assert (quoted_by quote (String.String quote (s +:+ String.String quote "")) = true) as ->.
  { unfold quoted_by, ends_with, starts_with. rewrite Hlen. cbn [String.get].
    rewrite get_append, bool_decide_true by done. cbn. by destruct (s +:+ _). }
  cbn [orb]. unfold slice. rewrite Hlen.
  assert (is_char_boundary 1 (String.String quote (s +:+ String.String quote "")) = true) as ->.
  { unfold is_char_boundary. cbn [String.get]. destruct s as [|a s]; [done|].
    change (negb (is_continuation a) = true). change (is_continuation a = false) in Hs. by rewrite Hs. }
  assert (is_char_boundary (S (S (String.length s)) - 1) (String.String quote (s +:+ String.String quote ""))
    = true) as ->.
  { unfold is_char_boundary. cbn [Nat.sub String.get]. by rewrite get_append. }
  cbn [Nat.sub Nat.leb andb String.substring]. f_equal.
  rewrite Nat.sub_0_r. apply substring_append.
Qed.

(** A string that is one quote cannot be unquoted: the slice ends before it begins. *)
Lemma unquote_lone q : q = quote ∨ q = double_quote → unquote (String.String q "") = None.
Proof. by intros [-> | ->]. Qed.

(** ** Whole queries *)

(** A text that can stand between single quotes. *)
Definition quotable (s : string) : Prop := lacks quote s ∧ starts_continuation s = false.

Definition insert_query (title body : string) : string :=
  join_spaces ["INSERT"; quoted title; quoted body].
Definition select_query (id : string) : string :=
  join_spaces ["SELECT"; "*"; "FROM"; "hexads"; "WHERE"; "id"; "="; quoted id].
Definition delete_query (id : string) : string :=
  join_spaces ["DELETE"; "FROM"; "hexads"; "WHERE"; "id"; "="; quoted id].

Lemma plain_words ts : forallb (λ t, bool_decide (plain_word t ∧ t ≠ "")) ts = true → words ts.
Proof.
  intros H. apply Forall_forall. intros t Ht. rewrite forallb_forall in H.
  specialize (H t (proj1 (list_elem_of_In _ _) Ht)). apply bool_decide_eq_true in H as [Hp Hne].
  split; [by apply plain_word_word|done].
Qed.

Lemma quoted_words ss : Forall quotable ss → words (quoted <$> ss).
Proof. intros H. apply Forall_fmap. eapply Forall_impl; [exact H|]. intros s [Hs _]. split; [by apply quoted_word|done]. Qed.

(** ** The documented form of INSERT *)

Definition values_clause (title body : string) : string :=
  "('" +:+ title +:+ "', '" +:+ body +:+ "')".
Definition insert_into_query (title body : string) : string :=
  "INSERT INTO hexads (title, body) VALUES " +:+ values_clause title body.

Lemma values_clause_app title body :
  values_clause title body = String.String (Ascii.ascii_of_nat 40)
    ((quoted title +:+ ", " +:+ quoted body) +:+ String.String (Ascii.ascii_of_nat 41) "").
Proof.
  unfold values_clause. rewrite (str_app_assoc (quoted title)), (str_app_assoc ", ").
  change (quoted title +:+ ?r) with (String.String quote ((title +:+ String.String quote "") +:+ r)).
  change (quoted body +:+ ?r) with (String.String quote ((body +:+ String.String quote "") +:+ r)).
  by rewrite (str_app_assoc title), (str_app_assoc body).
Qed.

Lemma replace_app c d (s t : string) : replace_char c d (s +:+ t) = replace_char c d s +:+ replace_char c d t.
Proof. induction s as [|a s IH]; [done|]. rewrite str_app_cons. cbn [replace_char]. by rewrite IH. Qed.

Lemma replace_lacks (q c d : Ascii.ascii) s : d ≠ q → lacks q s → lacks q (replace_char c d s).
Proof. intros Hd. induction s as [|a s IH]; [done|]. intros [Ha Hs]. split; [by case_decide|by apply IH]. Qed.

Lemma replace_quotable s : quotable s → quotable (replace_char comma space s).
Proof.
  intros [Hl Hc]. split; [by apply replace_lacks|]. destruct s as [|a s]; [done|].
  cbn [replace_char starts_continuation] in *. by case_decide.
Qed.

Lemma replace_quoted s : replace_char comma space (quoted s) = quoted (replace_char comma space s).
Proof. change (quoted s) with (String.String quote "" +:+ s +:+ String.String quote ""). by rewrite !replace_app. Qed.

Lemma tokenize_values title body :
  quotable title → quotable body →
  tokenize (replace_char comma space (quoted title +:+ ", " +:+ quoted body))
  = [quoted (replace_char comma space title); quoted (replace_char comma space body)].
Proof.
  intros [Ht _]%replace_quotable [Hb _]%replace_quotable.
  rewrite !replace_app, !replace_quoted. change (replace_char comma space ", ") with "  ".
  set (t := replace_char comma space title) in *. set (b := replace_char comma space body) in *.
  etrans; [|apply (tokenize_layout "" (quoted t) [("  ", quoted b)] ""); [done|by apply quoted_word|done| |done]].
  - cbn [lay_out foldr]. by rewrite str_app_nil.
  - apply Forall_cons. split; [|done]. split_and!; [done|done|by apply quoted_word|done].
Qed.

Lemma trim_end_one c b s :
  b ≠ c → trim_end_matches c ((s +:+ String.String b "") +:+ String.String c "") = s +:+ String.String b "".
Proof.
  intros Hb. induction s as [|a s IH].
  - change (trim_end_matches c (String.String b (String.String c "")) = String.String b "").
    cbn. rewrite decide_True by done. by rewrite decide_False.
  - rewrite !str_app_cons. cbn [trim_end_matches]. rewrite IH. by destruct s.
Qed.

Lemma substring_rest p q :
  String.substring (String.length p) (String.length (p +:+ q) - String.length p) (p +:+ q) = q.
Proof.
  rewrite str_app_length, Nat.add_comm, Nat.add_sub. induction p as [|a p IH]; [|exact IH].
  change (String.substring 0 (String.length q) q = q). rewrite <- (str_app_nil q) at 2. apply substring_append.
Qed.

Lemma values_trimmed title body :
  trim_end_matches (Ascii.ascii_of_nat 41) (trim_start_matches (Ascii.ascii_of_nat 40) (values_clause title body))
  = quoted title +:+ ", " +:+ quoted body.
Proof.
  rewrite values_clause_app. cbn [trim_start_matches]. rewrite decide_True by done.
  set (v := quoted title +:+ ", " +:+ quoted body).
  assert (v = (quoted title +:+ ", '" +:+ body) +:+ String.String quote "") as Hv
    by (unfold v; by rewrite !str_app_assoc).
  assert (trim_start_matches (Ascii.ascii_of_nat 40) (v +:+ String.String (Ascii.ascii_of_nat 41) "")
    = v +:+ String.String (Ascii.ascii_of_nat 41) "") as -> by reflexivity.
  rewrite Hv. by apply trim_end_one.
Qed.

Lemma parse_documented {UC : Unicode} {UT : UnicodeTrim} {TL : TextLaws} title body :
  quotable title → quotable body →
  parse_insert_values (insert_into_query title body)
  = Some (Ok (replace_char comma space title, replace_char comma space body)).
Proof.
  intros Ht Hb. unfold parse_insert_values, insert_into_query.
  rewrite upper_prefix by done.
  assert (∀ r, str_find "VALUES" (string_upper "INSERT INTO hexads (title, body) VALUES " +:+ r) = Some 33%nat) as ->
    by reflexivity.
  change ("INSERT INTO hexads (title, body) VALUES " +:+ values_clause title body)
    with ("INSERT INTO hexads (title, body) VALUES" +:+ String.String space (values_clause title body)).
  unfold slice_from. change (33 + 6)%nat with (String.length "INSERT INTO hexads (title, body) VALUES").
  assert (∀ r, is_char_boundary (String.length "INSERT INTO hexads (title, body) VALUES")
    ("INSERT INTO hexads (title, body) VALUES" +:+ String.String space r) = true) as -> by reflexivity.
  rewrite substring_rest. cbn [mbind option_bind]. rewrite trim_space.
  assert (str_trim (values_clause title body) = values_clause title body) as ->
    by (rewrite values_clause_app; by apply trim_visible).
  rewrite values_trimmed, tokenize_values by done.
  destruct (replace_quotable _ Ht) as [_ Ht'], (replace_quotable _ Hb) as [_ Hb'].
  cbn [lookup list_lookup]. by rewrite !unquote_quoted.
Qed.

(** Settle which statement a dispatch on the known word [t] carries out. *)
Ltac statement t :=
  let u := eval vm_compute in (string_upper t) in
  rewrite (upper_text t) by done; change (string_upper t) with u; cbv beta zeta;
  repeat (rewrite (bool_decide_false (u = _)) by done); rewrite (bool_decide_true (u = _)) by done.

Section queries.
Context {CH : Chrono} {PL : Platform} {BK : Backends} {BL : BackendLaws BK} {UC : Unicode} {UT : UnicodeTrim}.
Context {TL : TextLaws} {FX : FixedDisplay} {HD : HashIter DriftType} {PF : ParseFloat}.
Context (config : HexadConfig) (api : ApiConfig) (su : Surroundings).
Implicit Types (s : HexadState) (id : string).

(** What the endpoint does with the tokens of a trimmed query. *)
Definition dispatch (query token : string) (rest : list string) s : vql_answer * HexadState :=
  let tokens := token :: rest in
  let other := str_uppercase token in
  if bool_decide (other = "SELECT") then (execute_select config tokens s, s)
  else if bool_decide (other = "SEARCH") then (execute_search config api tokens s, s)
  else if bool_decide (other = "INSERT") then execute_insert config query s
  else if bool_decide (other = "DELETE") then execute_delete tokens s
  else if bool_decide (other = "SHOW") then (execute_show config su tokens s, s)
  else if bool_decide (other = "COUNT") then (execute_count config s, s)
  else if bool_decide (other = "EXPLAIN") then (execute_explain tokens query, s)
  else (bad_request ("Unknown VQL statement: '" +:+ other
          +:+ "'. Supported: SELECT, SEARCH, INSERT, DELETE, SHOW, COUNT, EXPLAIN"), s).

(** A query that begins and ends visibly, with no semicolon at the end, is cut as it is. *)
Lemma run_visible a p b token rest s :
  visible a = true → visible b = true → b ≠ semicolon →
  tokenize (String.String a (p +:+ String.String b "")) = token :: rest →
  vql_execute_handler config api su (String.String a (p +:+ String.String b "")) s =
    dispatch (String.String a (p +:+ String.String b "")) token rest s.
Proof.
  intros Ha Hb Hs Ht. set (query := String.String a (p +:+ String.String b "")) in *.
  assert (str_trim query = query) as Htrim by (by apply trim_visible).
  assert (trim_end_matches semicolon query = query) as Hend by (by apply (trim_end_other _ _ (String.String a p))).
  unfold vql_execute_handler. rewrite Htrim, Hend, Htrim. rewrite bool_decide_false by done. by rewrite Ht.
Qed.

(** Words, the last of them between quotes. *)
Lemma run_quoted a t ts v s :
  let ws := String.String a t :: ts ++ [quoted v] in
  visible a = true → words ws →
  vql_execute_handler config api su (join_spaces ws) s
  = dispatch (join_spaces ws) (String.String a t) (ts ++ [quoted v]) s.
Proof.
  intros ws Ha Hws.
  pose proof (tokenize_join _ _ Hws) as Ht. destruct (join_last (String.String a t) ts v) as [p Hp].
  rewrite <- str_app_assoc, str_app_cons in Hp. unfold ws. rewrite Hp in Ht |- *. by apply run_visible.
Qed.

Lemma words_then_quoted ts vs :
  forallb (λ t, bool_decide (plain_word t ∧ t ≠ "")) ts = true → Forall quotable vs →
  words (ts ++ (quoted <$> vs)).
Proof. intros Ht Hv. apply Forall_app_2; [by apply plain_words|by apply quoted_words]. Qed.

Lemma find_where_from token rest :
  str_uppercase token ≠ "WHERE" → find_where_id (token :: rest) = find_where_id rest.
Proof. intros H. cbn [find_where_id]. by rewrite bool_decide_false. Qed.

Lemma find_where_here id :
  quotable id → find_where_id ["WHERE"; "id"; "="; quoted id] = Some (Some id).
Proof.
  intros [_ Hc]. cbn [find_where_id]. rewrite (upper_text "WHERE") by done.
  rewrite bool_decide_true by done. cbv beta iota. rewrite lower_id, !bool_decide_true by done. cbv beta iota delta [andb].
  by rewrite unquote_quoted.
Qed.

Lemma run_select id s :
  quotable id →
  vql_execute_handler config api su (select_query id) s =
    (Some (hexad ← get_or_not_found config (missing_hexad id) id s;
           Ok (response "SELECT" 1 (DataHexads [hexad_response hexad]) None)), s).
Proof.
  intros Hid. unfold select_query.
  assert (words (["SELECT"; "*"; "FROM"; "hexads"; "WHERE"; "id"; "="] ++ (quoted <$> [id]))) as Hw
    by (apply words_then_quoted; [vm_compute; reflexivity|by constructor]).
  etrans; [exact (run_quoted (Ascii.ascii_of_nat 83) "ELECT" ["*"; "FROM"; "hexads"; "WHERE"; "id"; "="] id s eq_refl Hw)|].
  unfold dispatch. statement "SELECT".
  unfold execute_select. cbn [app].
  do 4 (rewrite find_where_from by (rewrite upper_text by done; done)).
  by rewrite find_where_here.
Qed.

Lemma run_delete id s :
  quotable id →
  vql_execute_handler config api su (delete_query id) s =
    let '(r, s) := hexad_delete id s in
    (Some (_ ← not_found_or_internal (missing_hexad id) r;
           Ok (response "DELETE" 1 DataNull (Some ("Deleted hexad '" +:+ id +:+ "'")))), s).
Proof.
  intros Hid. unfold delete_query.
  assert (words (["DELETE"; "FROM"; "hexads"; "WHERE"; "id"; "="] ++ (quoted <$> [id]))) as Hw
    by (apply words_then_quoted; [vm_compute; reflexivity|by constructor]).
  etrans; [exact (run_quoted (Ascii.ascii_of_nat 68) "ELETE" ["FROM"; "hexads"; "WHERE"; "id"; "="] id s eq_refl Hw)|].
  unfold dispatch. statement "DELETE".
  unfold execute_delete. cbn [app].
  do 3 (rewrite find_where_from by (rewrite upper_text by done; done)).
  by rewrite find_where_here.
Qed.

(** What an INSERT of [title] and [body] answers. *)
Definition inserted (title body : string) s : vql_answer * HexadState :=
  let '(r, s) := create config (document_input title body) s in
  (Some (hexad ← internal_error r;
         Ok (response "INSERT" 1 (DataHexads [hexad_response hexad])
               (Some ("Inserted hexad '" +:+ h_id hexad +:+ "'")))), s).

Lemma run_insert title body s :
  quotable title → quotable body →
  vql_execute_handler config api su (insert_query title body) s = inserted title body s.
Proof.
  intros Ht Hb. unfold insert_query.
  assert (words (["INSERT"] ++ (quoted <$> [title; body]))) as Hw
    by (apply words_then_quoted; [vm_compute; reflexivity|by rewrite !Forall_cons, Forall_nil]).
  pose proof (tokenize_join _ _ Hw) as Htok. cbn [fmap list_fmap app] in Htok.
  etrans; [exact (run_quoted (Ascii.ascii_of_nat 73) "NSERT" [quoted title] body s eq_refl Hw)|].
  change (String.String (Ascii.ascii_of_nat 73) "NSERT") with "INSERT".
  unfold dispatch. statement "INSERT".
  unfold execute_insert, insert_values. cbn [app].
  assert (starts_with "INSERT INTO" (str_uppercase (join_spaces ["INSERT"; quoted title; quoted body])) = false) as ->.
  { change (join_spaces ["INSERT"; quoted title; quoted body])
      with ("INSERT '" +:+ (title +:+ String.String quote "") +:+ " " +:+ quoted body).
    rewrite upper_prefix by done. reflexivity. }
  rewrite Htok. destruct Ht as [_ Ht], Hb as [_ Hb]. by rewrite !unquote_quoted.
Qed.


Lemma insert_into_tokens title body :
  quotable title → quotable body → ∃ rest, tokenize (insert_into_query title body) = "INSERT" :: rest.
Proof.
  intros [Ht _] [Hb _].
  set (ws := ["INTO"; "hexads"; "(title,"; "body)"; "VALUES";
              "('" +:+ title +:+ "',"; quoted body +:+ ")"]).
  exists ws. rewrite <- tokenize_join.
  - f_equal. unfold insert_into_query, values_clause, ws, join_spaces. cbn [String.concat].
    rewrite (str_app_assoc "('"), (str_app_assoc title).
    change (quoted body +:+ ")") with (String.String quote ((body +:+ String.String quote "") +:+ ")")).
    by rewrite (str_app_assoc body).
  - apply (Forall_app_2 _ ["INSERT"; "INTO"; "hexads"; "(title,"; "body)"; "VALUES"]);
      [apply plain_words; vm_compute; reflexivity|].
    rewrite !Forall_cons, Forall_nil. split_and!; try done.
    + change (word (String.String (Ascii.ascii_of_nat 40) (String.String quote (title +:+ String.String quote ",")))).
      apply word_plain; [by vm_compute|]. apply word_single; [done|]. apply plain_word_word. vm_compute. naive_solver.
    + unfold quoted. rewrite str_app_cons, str_app_assoc. apply word_single; [done|].
      apply plain_word_word. vm_compute. naive_solver.
Qed.

(** Values between quotes lose their commas in the documented form of INSERT: the clause is
    cut at the commas without regard for the quotes, each comma standing for a space.  The
    simplified form inserts the values as they are. *)
Theorem insert_into_loses_commas (title body : string) (s : HexadState) :
  quotable title → quotable body →
  vql_execute_handler config api su (insert_query title body) s = inserted title body s ∧
  vql_execute_handler config api su (insert_into_query title body) s
  = inserted (replace_char comma space title) (replace_char comma space body) s.
Proof.
  intros Ht Hb. split; [by apply run_insert|].
  destruct (insert_into_tokens title body Ht Hb) as [rest Htok].
  assert (insert_into_query title body = String.String (Ascii.ascii_of_nat 73)
    (("NSERT INTO hexads (title, body) VALUES ('" +:+ title +:+ "', '" +:+ body +:+ "'")
     +:+ String.String (Ascii.ascii_of_nat 41) "")) as Hq.
  { unfold insert_into_query, values_clause. by rewrite !str_app_assoc. }
  rewrite Hq in Htok |- *. rewrite (run_visible (Ascii.ascii_of_nat 73) _ (Ascii.ascii_of_nat 41) _ _ _ eq_refl eq_refl ltac:(done) Htok).
  unfold dispatch. statement "INSERT".
  unfold execute_insert, insert_values. rewrite <- Hq.
  assert (starts_with "INSERT INTO" (str_uppercase (insert_into_query title body)) = true) as ->
    by (unfold insert_into_query; rewrite upper_prefix by done; reflexivity).
  by rewrite parse_documented.
Qed.


(** SELECT and DELETE of an identifier answer as the REST endpoints do, up to the wording of
    the 404, and leave the same store. *)
Theorem vql_rest_agree {UH : UnicodeChar} (id : string) (s : HexadState) :
  quotable id → validate_hexad_id id = Ok () →
  let worded {A B} (f : A → B) (r : result ApiError A) : option (result ApiError B) :=
    Some (match r with
          | Ok a => Ok (f a)
          | Err (ApiNotFound _) => Err (ApiNotFound (missing_hexad id))
          | Err e => Err e
          end) in
  vql_execute_handler config api su (select_query id) s
  = (worded (λ x, response "SELECT" 1 (DataHexads [x]) None) (get_hexad_handler config id s), s) ∧
  vql_execute_handler config api su (delete_query id) s
  = (let '(r, s') := delete_hexad_handler id s in
     (worded (λ _, response "DELETE" 1 DataNull (Some ("Deleted hexad '" +:+ id +:+ "'"))) r, s')).
Proof.
  intros Hid Hv. cbn zeta. rewrite run_select, run_delete by done.
  unfold get_hexad_handler, delete_hexad_handler, checked, get_or_not_found. rewrite Hv. split.
  - by destruct (hexad_get config id s) as [[h|]|e].
  - by destruct (hexad_delete id s) as [[[]|e] s']; [|destruct e].
Qed.

(** A quote alone where a value is expected brings the request down: it counts as quoted, and
    what is between the quotes would end before it begins. *)
Theorem lone_quote_panics (s : HexadState) :
  let run := vql_execute_handler config api su in
  run "SEARCH TEXT '" s = (None, s) ∧ run "SELECT * FROM hexads WHERE id = '" s = (None, s) ∧
  run "DELETE FROM hexads WHERE id = '" s = (None, s) ∧ run "INSERT a '" s = (None, s).
Proof.
  cbn zeta. split_and!.
  - rewrite (run_visible (Ascii.ascii_of_nat 83) "EARCH TEXT " quote "SEARCH" ["TEXT"; "'"]) by done.
    unfold dispatch. statement "SEARCH". unfold execute_search. by statement "TEXT".
  - rewrite (run_visible (Ascii.ascii_of_nat 83) "ELECT * FROM hexads WHERE id = " quote "SELECT"
      ["*"; "FROM"; "hexads"; "WHERE"; "id"; "="; "'"]) by done.
    unfold dispatch. statement "SELECT". unfold execute_select.
    do 4 (rewrite find_where_from by (rewrite upper_text by done; done)). cbn [find_where_id].
    statement "WHERE". by rewrite lower_id.
  - rewrite (run_visible (Ascii.ascii_of_nat 68) "ELETE FROM hexads WHERE id = " quote "DELETE"
      ["FROM"; "hexads"; "WHERE"; "id"; "="; "'"]) by done.
    unfold dispatch. statement "DELETE". unfold execute_delete.
    do 3 (rewrite find_where_from by (rewrite upper_text by done; done)). cbn [find_where_id].
    statement "WHERE". by rewrite lower_id.
  - rewrite (run_visible (Ascii.ascii_of_nat 73) "NSERT a " quote "INSERT" ["a"; "'"]) by done.
    unfold dispatch. statement "INSERT". unfold execute_insert, insert_values.
    by rewrite upper_text by done.
Qed.
End queries.
