(* ===== verification/Federation.v ===== *)
(** * Federation

    Models [src/rust-core/verisim-api/src/federation.rs]: the registry of peer stores and the
    queries that fan out to them.  No code panics while it holds the registry's lock, so the
    lock is never poisoned.  A time of last contact is the text the clock gives; what a peer
    replies, if it replies within the ten seconds it is given, comes from the network. *)

From S2P Require Import Prelude Floats Plan VqlBridge PlanCache ApiCommon.
From stdpp Require Import pretty.
From Stdlib Require String Ascii.
Local Open Scope Z_scope.

(** ** Data *)

Inductive DriftPolicy := Strict | Repair | Tolerate | Latest.

Definition DriftPolicy_default : DriftPolicy := Tolerate.

Record PeerStore := {
  ps_store_id : string; ps_endpoint : string; ps_modalities : list string; ps_trust_level : f64;
  ps_last_seen : option string; ps_response_time_ms : option Z; ps_secret_hash : option string;
}.

Record FederationQueryRequest := {
  fq_pattern : string; fq_modalities : list string; fq_drift_policy : DriftPolicy;
  fq_limit : option nat; fq_text_query : option string; fq_vector_query : option (list f32);
}.

Record FederationResult `{SerdeNumber} := {
  fr_source_store : string; fr_hexad_id : string; fr_score : f64; fr_drifted : bool; fr_data : Json;
}.

Record FederationQueryResponse `{SerdeNumber} := {
  fp_results : list FederationResult; fp_stores_queried : list string;
  fp_stores_excluded : list string; fp_drift_policy : DriftPolicy;
}.

Record RegisterRequest := {
  gr_store_id : string; gr_endpoint : string; gr_modalities : list string; gr_secret : option string;
}.

Record HeartbeatRequest := { br_store_id : string; br_drift_scores : gmap string f64 }.

Record FederationState := {
  fd_peers : gmap string PeerStore; fd_self_store_id : string; fd_self_endpoint : string;
  fd_strict_drift_threshold : f64; fd_federation_keys : gmap string string;
}.

(** [StatusCode] *)
Definition OK : Z := 200.
Definition CREATED : Z := 201.
Definition BAD_REQUEST : Z := 400.
Definition UNAUTHORIZED : Z := 401.
Definition FORBIDDEN : Z := 403.
Definition NOT_FOUND : Z := 404.

Definition set_peers (peers : gmap string PeerStore) (s : FederationState) : FederationState :=
  {| fd_peers := peers; fd_self_store_id := fd_self_store_id s; fd_self_endpoint := fd_self_endpoint s;
     fd_strict_drift_threshold := fd_strict_drift_threshold s;
     fd_federation_keys := fd_federation_keys s |}.

(** ** Keys *)

Definition colon : Ascii.ascii := Ascii.ascii_of_nat 58.

(** [pair.splitn(2, c)] where there are two parts. *)
Fixpoint split_once (c : Ascii.ascii) (s : string) : option (string * string) :=
  match s with
  | String.EmptyString => None
  | String.String a t =>
    if decide (a = c) then Some (String.EmptyString, t)
    else '(p, q) ← split_once c t; Some (String.String a p, q)
  end.

Section federation.
Context {UT : UnicodeTrim} {UH : UnicodeChar} {SH : Sha256} {HI : HashIter string} {SN : SerdeNumber}.

(** [env] is the variable [VERISIM_FEDERATION_KEYS], where it is set and text. *)
Definition load_federation_keys (env : option string) : gmap string string :=
  match env with
  | Some val =>
    if bool_decide (val = "") then ∅
    else foldl (λ m pair, match split_once colon pair with
                          | Some (store_id, key) => <[str_trim store_id := str_trim key]> m
                          | None => m
                          end) ∅ (split_on comma val)
  | None => ∅
  end.

Definition FederationState_new (env : option string) (self_store_id self_endpoint : string)
    : FederationState :=
  {| fd_peers := ∅; fd_self_store_id := self_store_id; fd_self_endpoint := self_endpoint;
     fd_strict_drift_threshold := f64_literal 3 1; fd_federation_keys := load_federation_keys env |}.

Definition registration_enabled (s : FederationState) : bool := bool_decide (fd_federation_keys s ≠ ∅).

Definition validate_psk (store_id provided_secret : string) (s : FederationState) : bool :=
  match fd_federation_keys s !! store_id with
  | Some expected_key => bool_decide (expected_key = provided_secret)
  | None => false
  end.

Definition sha256_hex (input : string) : string := hex_string (sha256 (String.list_byte_of_string input)).

(** [header] is [X-Federation-PSK], where it is there and text. *)
Definition validate_peer_header (store_id : string) (header : option string) (s : FederationState)
    : result Z () :=
  let psk := default "" header in
  if bool_decide (psk = "") then Err UNAUTHORIZED
  else
    match fd_peers s !! store_id ≫= ps_secret_hash with
    | Some stored_hash => if bool_decide (stored_hash = sha256_hex psk) then Ok () else Err UNAUTHORIZED
    | None => Err UNAUTHORIZED
    end.

(** ** Handlers on the registry *)

(** [peers.values()] *)
Definition peer_values (s : FederationState) : list PeerStore :=
  omap (λ id, fd_peers s !! id) (hash_iter (dom (fd_peers s))).

Definition list_peers (modality : option string) (s : FederationState) : list PeerStore :=
  filter (λ p, match modality with Some m => bool_decide (m ∈ ps_modalities p) | None => true end = true)
    (peer_values s).

Definition store_id_ok (store_id : string) : bool :=
  negb (bool_decide (store_id = "")) && negb (128 <? String.length store_id)%nat &&
  chars_ok ["-"; "_"; "/"] store_id.

Definition new_peer (now : string) (request : RegisterRequest) (secret : string) : PeerStore :=
  {| ps_store_id := gr_store_id request; ps_endpoint := gr_endpoint request;
     ps_modalities := gr_modalities request; ps_trust_level := f64_of_Z 1; ps_last_seen := Some now;
     ps_response_time_ms := None; ps_secret_hash := Some (sha256_hex secret) |}.

Definition register_peer (now : string) (request : RegisterRequest) (s : FederationState)
    : result Z (Z * PeerStore) * FederationState :=
  if negb (registration_enabled s) then (Err FORBIDDEN, s)
  else if negb (store_id_ok (gr_store_id request)) then (Err BAD_REQUEST, s)
  else
    let secret := default "" (gr_secret request) in
    if negb (validate_psk (gr_store_id request) secret s) then (Err UNAUTHORIZED, s)
    else
      let peer := new_peer now request secret in
      (Ok (CREATED, peer), set_peers (<[gr_store_id request := peer]> (fd_peers s)) s).

(** [peer.last_seen = Some(..)] *)
Definition seen (now : string) (p : PeerStore) : PeerStore :=
  {| ps_store_id := ps_store_id p; ps_endpoint := ps_endpoint p; ps_modalities := ps_modalities p;
     ps_trust_level := ps_trust_level p; ps_last_seen := Some now;
     ps_response_time_ms := ps_response_time_ms p; ps_secret_hash := ps_secret_hash p |}.

(** The second half of [heartbeat], under the lock taken anew. *)
Definition heartbeat_seen (now store_id : string) (s : FederationState) : Z * FederationState :=
  match fd_peers s !! store_id with
  | Some peer => (OK, set_peers (<[store_id := seen now peer]> (fd_peers s)) s)
  | None => (NOT_FOUND, s)
  end.

(** With nothing in between. *)
Definition heartbeat (now : string) (header : option string) (request : HeartbeatRequest)
    (s : FederationState) : result Z Z * FederationState :=
  match validate_peer_header (br_store_id request) header s with
  | Err e => (Err e, s)
  | Ok _ => let '(status, s) := heartbeat_seen now (br_store_id request) s in (Ok status, s)
  end.

Definition deregister_peer (store_id : string) (s : FederationState) : Z * FederationState :=
  (if fd_peers s !! store_id is Some _ then OK else NOT_FOUND,
   set_peers (delete store_id (fd_peers s)) s).

(** ** Queries *)

(** [pattern.strip_suffix("/*")] *)
Definition strip_slash_star (pattern : string) : option string :=
  let n := String.length pattern in
  if (2 <=? n)%nat && bool_decide (String.substring (n - 2) 2 pattern = "/*")
  then Some (String.substring 0 (n - 2) pattern) else None.

Definition pattern_matches (pattern store_id : string) : bool :=
  if bool_decide (pattern = "*") then true
  else match strip_slash_star pattern with
       | Some prefix => starts_with prefix store_id
       | None => bool_decide (pattern = store_id)
       end.

Definition matching (request : FederationQueryRequest) (s : FederationState) : list PeerStore :=
  filter (λ p, Forall (λ m, m ∈ ps_modalities p) (fq_modalities request))
    (filter (λ p, pattern_matches (fq_pattern request) (ps_store_id p) = true) (peer_values s)).

Definition include (request : FederationQueryRequest) (s : FederationState) (store : PeerStore) : bool :=
  match fq_drift_policy request with
  | Strict => f64_leb (f64_sub (f64_of_Z 1) (fd_strict_drift_threshold s)) (ps_trust_level store)
  | Repair | Tolerate | Latest => true
  end.

(** The loop over the stores that match: those to query and the identifiers of those not to. *)
Definition choose_stores (request : FederationQueryRequest) (s : FederationState)
    : list PeerStore * list string :=
  let others := filter (λ p, ps_store_id p ≠ fd_self_store_id s) (matching request s) in
  (filter (λ p, include request s p = true) others,
   ps_store_id <$> filter (λ p, include request s p = false) others).

Inductive PeerRequest :=
| GetText (url q limit : string)
| PostVector (url : string) (vector : list f32) (k : nat)
| GetHexads (url limit : string).

(** A reply: its status, and its body where it is an array. *)
Record PeerReply := { py_status : Z; py_items : result string (list Json) }.

(** What a peer sends back: the error of the client, or a reply; [None] when it takes more
    than ten seconds, or the task that asks is lost. *)
Definition network : Type := PeerStore → PeerRequest → option (result string PeerReply).

Definition peer_request (store : PeerStore) (text_query : option string)
    (vector_query : option (list f32)) (limit : nat) : PeerRequest :=
  match text_query, vector_query with
  | Some q, _ => GetText (ps_endpoint store +:+ "/search/text") q (pretty limit)
  | None, Some vec => PostVector (ps_endpoint store +:+ "/search/vector") vec limit
  | None, None => GetHexads (ps_endpoint store +:+ "/hexads") (pretty limit)
  end.

(** [item["name"]] *)
Definition json_index (name : string) (v : Json) : Json :=
  match v with JObject fields => default JNull (json_get name fields) | _ => JNull end.

Definition result_of (store : PeerStore) (item : Json) : FederationResult :=
  {| fr_source_store := ps_store_id store; fr_hexad_id := default "unknown" (as_str (json_index "id" item));
     fr_score := default (f64_of_Z 0) (json_f64 (json_index "score" item)); fr_drifted := false;
     fr_data := item |}.

Definition parse_reply (store : PeerStore) (reply : result string PeerReply)
    : result string (list FederationResult) :=
  r ← map_err (λ e, "HTTP request to " +:+ ps_store_id store +:+ " failed: " +:+ e) reply;
  if negb ((200 <=? py_status r) && (py_status r <? 300)) then
    Err ("Peer " +:+ ps_store_id store +:+ " returned status " +:+ pretty (py_status r))
  else
    items ← map_err (λ e, "Failed to parse response from " +:+ ps_store_id store +:+ ": " +:+ e)
              (py_items r);
    Ok (map (result_of store) items).

(** [query_single_peer], within the timeout. *)
Definition query_single_peer (net : network) (text_query : option string)
    (vector_query : option (list f32)) (limit : nat) (store : PeerStore)
    : option (result string (list FederationResult)) :=
  parse_reply store <$> net store (peer_request store text_query vector_query limit).

(** A peer that fails or is late has no results. *)
Definition task_results (o : option (result string (list FederationResult))) : list FederationResult :=
  match o with Some (Ok results) => results | _ => [] end.

Definition by_score (a b : FederationResult) : comparison := float_cmp (fr_score b) (fr_score a).

Definition query_limit (request : FederationQueryRequest) : nat := default 100%nat (fq_limit request) `min` 1000.

Definition federation_query (net : network) (request : FederationQueryRequest) (s : FederationState)
    : FederationQueryResponse :=
  let limit := query_limit request in
  let '(stores_to_query, stores_excluded) := choose_stores request s in
  let all_results :=
    stores_to_query ≫= λ store,
      task_results (query_single_peer net (fq_text_query request) (fq_vector_query request) limit store) in
  {| fp_results := take limit (sort_by by_score all_results);
     fp_stores_queried := ps_store_id <$> stores_to_query; fp_stores_excluded := stores_excluded;
     fp_drift_policy := fq_drift_policy request |}.

End federation.

(** * What federation guarantees *)

Section guarantees.
Context {UT : UnicodeTrim} {UH : UnicodeChar} {SH : Sha256} {HI : HashIter string} {SN : SerdeNumber}.
Implicit Types (s : FederationState) (id : string) (p : PeerStore).

(** ** Who is in the registry *)

(** Calls as they interleave: a heartbeat reads the registry and takes the lock again to
    write; [fu_waiting] are the heartbeats in between. *)
Record federation_run := { fu_state : FederationState; fu_waiting : list string }.

Inductive federation_step : federation_run → federation_run → Prop :=
| step_register now request r s s' waiting :
  register_peer now request s = (r, s') →
  federation_step {| fu_state := s; fu_waiting := waiting |} {| fu_state := s'; fu_waiting := waiting |}
| step_deregister id s waiting :
  federation_step {| fu_state := s; fu_waiting := waiting |}
    {| fu_state := (deregister_peer id s).2; fu_waiting := waiting |}
| step_validate id header s waiting :
  validate_peer_header id header s = Ok () →
  federation_step {| fu_state := s; fu_waiting := waiting |} {| fu_state := s; fu_waiting := id :: waiting |}
| step_seen now id s before after :
  federation_step {| fu_state := s; fu_waiting := before ++ id :: after |}
    {| fu_state := (heartbeat_seen now id s).2; fu_waiting := before ++ after |}.

(** A peer as registration leaves it. *)
Definition trusted (keys : gmap string string) id p : Prop :=
  ps_store_id p = id ∧ ps_trust_level p = f64_of_Z 1 ∧ store_id_ok id = true ∧
  ∃ key, keys !! id = Some key ∧ ps_secret_hash p = Some (sha256_hex key).

Definition registry_ok (keys : gmap string string) s : Prop :=
  fd_federation_keys s = keys ∧ fd_strict_drift_threshold s = f64_literal 3 1 ∧
  map_Forall (trusted keys) (fd_peers s).

Lemma registry_ok_set keys s peers :
  registry_ok keys s → map_Forall (trusted keys) peers → registry_ok keys (set_peers peers s).
Proof. by intros (? & ? & _). Qed.

Lemma register_ok keys now request r s s' :
  registry_ok keys s → register_peer now request s = (r, s') → registry_ok keys s'.
Proof.
  intros Hs. unfold register_peer. destruct (registration_enabled s); [|by intros [= _ <-]].
  destruct (store_id_ok (gr_store_id request)) eqn:Hid; [|by intros [= _ <-]].
  destruct (validate_psk _ _ s) eqn:Hv; [|by intros [= _ <-]]. intros [= _ <-].
  apply registry_ok_set; [done|]. pose proof Hs as (Hk & _ & Hp).
  apply map_Forall_insert_2; [|done]. unfold validate_psk in Hv. rewrite Hk in Hv.
  destruct (keys !! gr_store_id request) as [key|] eqn:Hkey; [|done].
  apply bool_decide_eq_true in Hv as ->. by split_and!; [..|eexists].
Qed.

Lemma seen_trusted keys now id p : trusted keys id p → trusted keys id (seen now p).
Proof. done. Qed.

Lemma step_ok keys c c' :
  registry_ok keys (fu_state c) → federation_step c c' → registry_ok keys (fu_state c').
Proof.
  intros Hs Hstep. destruct Hstep as [now request r s s' w H|id s w|id h s w H|now id s b a]; cbn in *.
  - by eapply register_ok.
  - apply registry_ok_set; [done|]. by apply map_Forall_delete, Hs.
  - done.
  - unfold heartbeat_seen. destruct (fd_peers s !! id) as [p|] eqn:Hp; [|done].
    apply registry_ok_set; [done|]. apply map_Forall_insert_2; [|by apply Hs].
    apply seen_trusted. by apply (proj2 (proj2 Hs)).
Qed.

Definition federation_start (env : option string) (self_store_id self_endpoint : string) : federation_run :=
  {| fu_state := FederationState_new env self_store_id self_endpoint; fu_waiting := [] |}.

Lemma sha256_hex_eq (a b : string) : sha256_hex a = sha256_hex b → a = b ∨ sha256_collision.
Proof.
  intros H%hex_string_inj%vec_to_list_inj2%sha256_eq_or_collision.
  destruct H as [H%list_byte_of_string_inj|H]; [by left|by right].
Qed.

Lemma elem_of_peer_values s p : p ∈ peer_values s ↔ ∃ id, fd_peers s !! id = Some p.
Proof.
  unfold peer_values. rewrite list_elem_of_omap. split.
  - intros (id & _ & H). by exists id.
  - intros [id H]. exists id. split; [|done]. rewrite elem_of_hash_iter, elem_of_dom. by eexists.
Qed.

Lemma matching_peer request s p :
  p ∈ matching request s ↔
  ∃ id, fd_peers s !! id = Some p ∧ pattern_matches (fq_pattern request) (ps_store_id p) = true ∧
    ∀ m, m ∈ fq_modalities request → m ∈ ps_modalities p.
Proof.
  unfold matching. rewrite !list_elem_of_filter, Forall_forall, elem_of_peer_values. naive_solver.
Qed.

(** However calls interleave, every peer of the registry is there under a well-formed name and
    with the hash of the key configured for that name.  So a heartbeat is accepted only from a
    caller that presents that key, or has a collision of SHA-256.  The trust of every peer is
    the one it was given at its registration, 1, whatever the drift its heartbeats report: the
    strict policy never excludes a store. *)
Theorem federation_trust (env : option string) (self_store_id self_endpoint : string)
    (c : federation_run) :
  rtc federation_step (federation_start env self_store_id self_endpoint) c →
  let s := fu_state c in
  let keys := load_federation_keys env in
  map_Forall (trusted keys) (fd_peers s) ∧
  (∀ id header, validate_peer_header id header s = Ok () →
     ∃ key psk, keys !! id = Some key ∧ header = Some psk ∧ psk ≠ "" ∧ (psk = key ∨ sha256_collision)) ∧
  (∀ request, (choose_stores request s).2 = []).
Proof.
  intros Hc. cbn zeta.
  assert (registry_ok (load_federation_keys env) (fu_state c)) as (Hk & Ht & Hp).
  { apply (rtc_invariant federation_step (λ c, registry_ok (load_federation_keys env) (fu_state c)) _ _) in Hc;
      [done| |intros ??; apply step_ok].
    split_and!; [done|done|apply map_Forall_empty]. }
  split; [done|]. split.
  - intros id header. unfold validate_peer_header.
    destruct header as [psk|]; cbn [default]; [|by rewrite bool_decide_true].
    case_bool_decide as Hne; [done|]. destruct (fd_peers (fu_state c) !! id) as [p|] eqn:Hpeer; [|done].
    destruct (Hp _ _ Hpeer) as (_ & _ & _ & key & Hkey & Hh). cbn. rewrite Hh.
    case_bool_decide as Heq; [|done]. intros _. exists key, psk. split_and!; [done..|].
    symmetry in Heq. by apply sha256_hex_eq.
  - intros request. cbn [choose_stores snd].
    match goal with |- ps_store_id <$> ?x = [] => destruct x as [|p l] eqn:Hl; [done|] end. exfalso.
    assert (p ∈ p :: l) as Hin by by left. rewrite <- Hl in Hin.
    apply list_elem_of_filter in Hin as [Hinc [_ Hm]%list_elem_of_filter].
    apply matching_peer in Hm as (id & Hpeer & _). destruct (Hp _ _ Hpeer) as (_ & Htrust & _).
    unfold include in Hinc. rewrite Ht, Htrust in Hinc. by destruct (fq_drift_policy request).
Qed.

(** ** What a query answers *)

(** What [as_f64] documents of a number of JSON. *)
Class SerdeNumberLaws := { as_f64_number : ∀ n x, as_f64 n = Some x → f64_is_nan x = false }.

(** The stores a query goes to. *)
Definition asked request s p : Prop :=
  fd_peers s !! ps_store_id p = Some p ∧ ps_store_id p ≠ fd_self_store_id s ∧
  pattern_matches (fq_pattern request) (ps_store_id p) = true ∧
  (∀ m, m ∈ fq_modalities request → m ∈ ps_modalities p) ∧ include request s p = true.

(** Every peer is in the registry under its own name. *)
Definition named s : Prop := map_Forall (λ id p, ps_store_id p = id) (fd_peers s).

Lemma asked_chosen request s p :
  named s → p ∈ (choose_stores request s).1 ↔ asked request s p.
Proof.
  intros Hn. unfold choose_stores, asked. cbn [fst]. rewrite !list_elem_of_filter, matching_peer. split.
  - intros (Hi & Hs & id & Hp & Hm & Hall). pose proof (Hn _ _ Hp) as <-. by split_and!.
  - intros (Hp & Hs & Hm & Hall & Hi). split_and!; [done..|]. by exists (ps_store_id p).
Qed.

Lemma NoDup_peer_names s : named s → NoDup (ps_store_id <$> peer_values s).
Proof.
  intros Hn. unfold peer_values.
  assert (ps_store_id <$> omap (λ id, fd_peers s !! id) (hash_iter (dom (fd_peers s)))
    = hash_iter (dom (fd_peers s))) as ->; [|rewrite hash_iter_perm; apply NoDup_elements].
  assert (∀ id, id ∈ hash_iter (dom (fd_peers s)) → is_Some (fd_peers s !! id)) as H
    by (intros id; by rewrite elem_of_hash_iter, elem_of_dom).
  induction (hash_iter (dom (fd_peers s))) as [|id l IH]; [done|]. cbn.
  destruct (H id) as [p Hp]; [by left|]. rewrite Hp. cbn. rewrite IH by (intros; apply H; by right).
  f_equal. by apply Hn.
Qed.

Lemma NoDup_filter_fmap {A B} (f : A → B) (P : A → Prop) `{∀ x, Decision (P x)} (l : list A) :
  NoDup (f <$> l) → NoDup (f <$> filter P l).
Proof. intros H'. eapply sublist_NoDup; [exact H'|]. apply fmap_sublist, sublist_filter. Qed.

(** What the stores asked reply. *)
Definition replies (net : network) request s : list FederationResult :=
  let limit := query_limit request in
  (choose_stores request s).1 ≫= λ store,
    task_results (query_single_peer net (fq_text_query request) (fq_vector_query request) limit store).

Lemma elem_of_replies net request s x :
  x ∈ replies net request s → ∃ p item, p ∈ (choose_stores request s).1 ∧ x = result_of p item.
Proof.
  unfold replies. intros (p & Hx & Hp)%list_elem_of_bind. unfold query_single_peer, parse_reply in Hx.
  destruct (net _ _) as [[r|e]|]; cbn in Hx; [|by apply elem_of_nil in Hx..].
  destruct (negb _); [by apply elem_of_nil in Hx|].
  destruct (py_items r) as [items|e]; cbn in Hx; [|by apply elem_of_nil in Hx].
  apply list_elem_of_In, in_map_iff in Hx as (item & <- & _). by exists p, item.
Qed.

Lemma federation_query_eq net request s :
  federation_query net request s =
    {| fp_results := take (query_limit request) (sort_by by_score (replies net request s));
       fp_stores_queried := ps_store_id <$> (choose_stores request s).1;
       fp_stores_excluded := (choose_stores request s).2; fp_drift_policy := fq_drift_policy request |}.
Proof. unfold federation_query, replies. by destruct (choose_stores request s). Qed.

(** ** Who may leave, and what an empty key admits *)

(** Anyone who knows a peer's name removes it: the request carries no credential.  From then on
    every heartbeat of the peer is refused, whatever key it presents. *)
Theorem anyone_deregisters (id : string) (p : PeerStore) s :
  fd_peers s !! id = Some p →
  let '(status, s') := deregister_peer id s in
  status = OK ∧ fd_peers s' = delete id (fd_peers s) ∧
  ∀ header, validate_peer_header id header s' = Err UNAUTHORIZED.
Proof.
  intros Hp. unfold deregister_peer. rewrite Hp. split_and!; [done|done|]. intros header.
  unfold validate_peer_header, set_peers. cbn [fd_peers]. rewrite lookup_delete_eq. by case_bool_decide.
Qed.

(** A key left empty in the configuration registers a peer for anyone, without a secret; that
    peer's heartbeats are all refused. *)
Lemma empty_key_registers (now : string) (request : RegisterRequest) s :
  fd_federation_keys s !! gr_store_id request = Some "" → gr_secret request = None →
  store_id_ok (gr_store_id request) = true →
  ∃ p, register_peer now request s = (Ok (CREATED, p), set_peers (<[gr_store_id request := p]> (fd_peers s)) s).
Proof.
  intros Hk Hs Hid. unfold register_peer, registration_enabled, validate_psk. rewrite Hk, Hs, Hid.
  rewrite bool_decide_true; [|by intros Hn; rewrite Hn in Hk]. cbn. by eexists.
Qed.

(** A pattern that ends in a slash and a star also matches what continues without the slash. *)
Example pattern_without_slash : pattern_matches "/universities/*" "/universities-closed/x" = true.
Proof. reflexivity. Qed.

End guarantees.
