(* ===== verification/GraphQl.v ===== *)
(** * The GraphQL surface

    Models the resolvers of [src/rust-core/verisim-api/src/graphql.rs].  An error is its
    message; a resolver that panics gives no answer: [None].  The execution of a GraphQL
    document, and the reading of a plan's JSON, are the libraries'. *)

From S2P Require Import Prelude Floats LockTable Provenance Temporal Graph Modality VectorSearch HexadTypes HexadStore Plan Optimizer PlanCache Drift ApiCommon ApiHexads ApiPlanner ApiStatus.
From stdpp Require Import pretty.
From Stdlib Require String.
Local Open Scope Z_scope.

(** [serde_json::from_str] for a plan, and the text of its error. *)
Class PlanJson := { parse_plan : string → result string LogicalPlan }.

(** ** Output and input types *)

Module GraphQl.

Record Health := { hl_status : string; hl_version : string; hl_uptime_seconds : Z }.

Record Hexad := {
  gh_id : string; gh_created_at : string; gh_modified_at : string; gh_version : Z;
  gh_has_graph : bool; gh_has_vector : bool; gh_has_tensor : bool; gh_has_semantic : bool;
  gh_has_document : bool; gh_version_count : Z;
}.

Record DriftStatus := {
  gd_drift_type : string; gd_current_score : f64; gd_moving_average : f64; gd_max_score : f64;
  gd_measurement_count : Z;
}.

Record PlanStep := {
  gp_step : Z; gp_operation : string; gp_modality : string; gp_time_ms : f64;
  gp_estimated_rows : Z; gp_selectivity : f64; gp_optimization_hint : option string;
}.

Record PhysicalPlan := {
  gy_steps : list PlanStep; gy_strategy : string; gy_total_time_ms : f64;
  gy_total_estimated_rows : Z; gy_notes : list string;
}.

Record ModalityCost := { gm_modality : string; gm_time_ms : f64; gm_percentage : f64 }.
Record PerformanceHint := { gf_severity : string; gf_message : string }.

(** Without the text, which is [fmt]'s. *)
Record ExplainOutput := {
  ge_steps : list PlanStep; ge_cost_breakdown : list ModalityCost;
  ge_performance_hints : list PerformanceHint; ge_total_cost_ms : f64; ge_strategy : string;
}.

Record PlannerConfigOutput := {
  go_global_mode : string; go_statistics_weight : f64; go_enable_adaptive : bool;
  go_parallel_threshold : Z;
}.

Record StoreStats := {
  gs_modality : string; gs_total_rows : Z; gs_avg_latency_ms : f64; gs_avg_rows_returned : Z;
  gs_query_count : Z;
}.

Record HexadInput := {
  gi_title : option string; gi_body : option string; gi_embedding : option (list f32);
  gi_types : option (list string); gi_tensor_shape : option (list Z); gi_tensor_data : option (list f64);
}.

Record PlannerConfigInput := {
  gc_global_mode : option string; gc_statistics_weight : option f64;
  gc_enable_adaptive : option bool; gc_parallel_threshold : option Z;
}.

Definition internal_server_error {A} : result string A := Err "Internal server error".

(** The message of the error is logged, not sent. *)
Definition hidden {E A} (r : result E A) : result string A := map_err (λ _, "Internal server error") r.

Section resolvers.
Context {CH : Chrono} {PL : Platform} {BK : Backends} {UC : Unicode}.
Context {FX : FixedDisplay} {HD : HashIter DriftType} {HM : HashIter Modality} {LG : Log2} {DC : DebugCondition}.
Context {PJ : PlanJson} (config : HexadConfig).

(** ** Queries *)

Definition health (version : string) (uptime : Z) : Health :=
  {| hl_status := "healthy"; hl_version := version; hl_uptime_seconds := uptime |}.

Definition of_hexad (h : HexadTypes.Hexad) : Hexad :=
  {| gh_id := h_id h; gh_created_at := to_rfc3339 (hs_created_at (h_status h));
     gh_modified_at := to_rfc3339 (hs_modified_at (h_status h)); gh_version := hs_version (h_status h);
     gh_has_graph := is_some (h_graph_node h); gh_has_vector := is_some (h_embedding h);
     gh_has_tensor := is_some (h_tensor h); gh_has_semantic := is_some (h_semantic h);
     gh_has_document := is_some (h_document h); gh_version_count := h_version_count h |}.

Definition hexad (id : string) (s : HexadState) : result string (option Hexad) :=
  o ← hidden (hexad_get config id s);
  Ok (option_map of_hexad o).

(** [limit] is an [i32] taken as a [usize]. *)
Definition search_text (query : string) (limit : option Z) (s : HexadState)
    : result string (list SearchResultResponse) :=
  let limit := Z.to_nat (wrap 64 (default 10 limit)) in
  hexads ← hidden (HexadStore.search_text config query limit s);
  Ok (imap search_result hexads).

Definition drift_status (d : DriftDetector) : list DriftStatus :=
  (λ '(t, m), {| gd_drift_type := drift_type_display t; gd_current_score := dm_current_score m;
                 gd_moving_average := dm_moving_average m; gd_max_score := dm_max_score m;
                 gd_measurement_count := dm_measurement_count m |}) <$> iter_metrics d.

(** [{:?}] of a mode is its name. *)
Definition mode_debug (m : OptimizationMode) : string :=
  match m with Conservative => "Conservative" | Balanced => "Balanced" | Aggressive => "Aggressive" end.

(** [usize as i32] *)
Definition as_i32 (n : nat) : Z := wrap_signed 32 (Z.of_nat n).

Definition config_output (cfg : PlannerConfig) : PlannerConfigOutput :=
  {| go_global_mode := mode_debug (global_mode cfg); go_statistics_weight := statistics_weight cfg;
     go_enable_adaptive := enable_adaptive cfg; go_parallel_threshold := as_i32 (parallel_threshold cfg) |}.

(** [state.planner.lock()] and what is done with it. *)
Definition locked {A} (f : Planner → option (result string A * Planner)) (m : PlannerMutex)
    : option (result string A) * PlannerMutex :=
  if mx_poisoned m then (Some internal_server_error, m)
  else match f (mx_value m) with
       | Some (r, p) => (Some r, {| mx_poisoned := false; mx_value := p |})
       | None => (None, {| mx_poisoned := true; mx_value := mx_value m |})
       end.

Definition planner_config : PlannerMutex → option (result string PlannerConfigOutput) * PlannerMutex :=
  locked (λ p, Some (Ok (config_output (pl_config p)), p)).

Definition store_stats (stats : StatisticsCollector) (m : Modality) : option StoreStats :=
  (λ s, {| gs_modality := modality_display m; gs_total_rows := st_total_rows s;
           gs_avg_latency_ms := st_avg_latency_ms s; gs_avg_rows_returned := st_avg_rows_returned s;
           gs_query_count := st_query_count s |}) <$> stats_get m stats.

Definition planner_stats : PlannerMutex → option (result string (list StoreStats)) * PlannerMutex :=
  locked (λ p, Some (Ok (omap (store_stats (pl_stats p)) ALL), p)).

Definition convert_explain (e : Optimizer.ExplainOutput) : ExplainOutput :=
  {| ge_steps := (λ s, {| gp_step := as_i32 (es_step s); gp_operation := es_operation s;
                          gp_modality := modality_display (es_modality s); gp_time_ms := es_cost_ms s;
                          gp_estimated_rows := es_rows s; gp_selectivity := es_selectivity s;
                          gp_optimization_hint := es_hint s |}) <$> eo_steps e;
     ge_cost_breakdown := (λ b, {| gm_modality := modality_display (mb_modality b);
                                   gm_time_ms := mb_time_ms b; gm_percentage := mb_percentage b |})
                            <$> eo_cost_breakdown e;
     ge_performance_hints := (λ h, {| gf_severity := ph_severity h; gf_message := ph_message h |})
                               <$> eo_performance_hints e;
     ge_total_cost_ms := eo_total_cost_ms e; ge_strategy := eo_strategy e |}.

Definition strategy_debug (s : ExecutionStrategy) : string :=
  match s with Sequential => "Sequential" | Parallel => "Parallel" end.

Definition convert_physical_plan (p : Plan.PhysicalPlan) : PhysicalPlan :=
  {| gy_steps := (λ s, {| gp_step := as_i32 (ps_step s); gp_operation := ps_operation s;
                          gp_modality := modality_display (ps_modality s);
                          gp_time_ms := time_ms (ps_cost s);
                          gp_estimated_rows := estimated_rows (ps_cost s);
                          gp_selectivity := selectivity (ps_cost s);
                          gp_optimization_hint := ps_optimization_hint s |}) <$> pp_steps p;
     gy_strategy := strategy_debug (pp_strategy p); gy_total_time_ms := time_ms (pp_total_cost p);
     gy_total_estimated_rows := estimated_rows (pp_total_cost p); gy_notes := pp_notes p |}.

(** Run [f] on the plan, if the text is one. *)
Definition with_plan {A} (plan_json : string)
    (f : LogicalPlan → PlannerMutex → option (result string A) * PlannerMutex) (m : PlannerMutex)
    : option (result string A) * PlannerMutex :=
  match parse_plan plan_json with
  | Err e => (Some (Err ("Invalid plan JSON: " +:+ e)), m)
  | Ok logical => f logical m
  end.

Definition explain_plan (plan_json : string)
    : PlannerMutex → option (result string ExplainOutput) * PlannerMutex :=
  with_plan plan_json (λ logical, locked (λ p,
    (λ r, (map_err (λ e, "Plan error: " +:+ planner_error_to_string e) (e ← r; Ok (convert_explain e)), p))
      <$> explain p logical)).

(** ** Mutations *)

Definition to_hexad_input (input : HexadInput) : HexadTypes.HexadInput :=
  {| hi_graph := None;
     hi_vector := (λ e, {| hv_embedding := e; hv_model := None |}) <$> gi_embedding input;
     hi_tensor := None;
     hi_semantic := (λ ts, {| hm_types := ts; hm_properties := ∅ |}) <$> gi_types input;
     hi_document := (λ title, document_without_fields title (default "" (gi_body input))) <$> gi_title input;
     hi_provenance := None; hi_spatial := None; hi_metadata := ∅ |}.

Definition create_hexad (input : HexadInput) (s : HexadState) : result string Hexad * HexadState :=
  let '(r, s) := create config (to_hexad_input input) s in
  (h ← hidden r; Ok (of_hexad h), s).

Definition delete_hexad (id : string) (s : HexadState) : result string bool * HexadState :=
  let '(r, s) := hexad_delete id s in (_ ← hidden r; Ok true, s).

Definition optimize_plan (plan_json : string)
    : PlannerMutex → option (result string PhysicalPlan) * PlannerMutex :=
  with_plan plan_json (λ logical, locked (λ p,
    (λ r, (map_err planner_error_to_string (physical ← r; Ok (convert_physical_plan physical)), p)) <$> optimize p logical)).

Definition parse_mode (mode : string) : OptimizationMode :=
  let mode := str_lowercase mode in
  if bool_decide (mode = "conservative") then Conservative
  else if bool_decide (mode = "aggressive") then Aggressive
  else Balanced.

(** [t as usize] for an [i32]. *)
Definition as_usize (t : Z) : nat := Z.to_nat (wrap 64 t).

Definition updated_config (input : PlannerConfigInput) (cfg : PlannerConfig) : PlannerConfig :=
  {| global_mode := default (global_mode cfg) (parse_mode <$> gc_global_mode input);
     modality_overrides := modality_overrides cfg;
     statistics_weight := default (statistics_weight cfg) (gc_statistics_weight input);
     enable_adaptive := default (enable_adaptive cfg) (gc_enable_adaptive input);
     parallel_threshold := default (parallel_threshold cfg) (as_usize <$> gc_parallel_threshold input) |}.

Definition update_planner_config (input : PlannerConfigInput)
    : PlannerMutex → option (result string PlannerConfigOutput) * PlannerMutex :=
  locked (λ p,
    let cfg := updated_config input (pl_config p) in
    Some (Ok (config_output cfg), {| pl_config := cfg; pl_stats := pl_stats p |})).

(** ** What the resolvers promise *)

(** The request over HTTP that a GraphQL input stands for: there is no tensor in it. *)
Definition rest_request (input : HexadInput) : HexadRequest :=
  {| hq_title := gi_title input; hq_body := gi_body input; hq_embedding := gi_embedding input;
     hq_types := gi_types input; hq_relationships := None; hq_tensor := None; hq_provenance := None;
     hq_spatial := None; hq_metadata := None |}.

Definition of_response (x : HexadResponse) : Hexad :=
  {| gh_id := hr_id x; gh_created_at := xr_created_at (hr_status x);
     gh_modified_at := xr_modified_at (hr_status x); gh_version := xr_version (hr_status x);
     gh_has_graph := hr_has_graph x; gh_has_vector := hr_has_vector x; gh_has_tensor := hr_has_tensor x;
     gh_has_semantic := hr_has_semantic x; gh_has_document := hr_has_document x;
     gh_version_count := hr_version_count x |}.

(** An error of the REST endpoint is one message here, but for an unknown entity that is read. *)
Definition as_graphql {A B} (f : A → B) (r : result ApiError A) : result string B :=
  match r with Ok a => Ok (f a) | Err _ => internal_server_error end.

Lemma rest_input input : ApiHexads.to_hexad_input (rest_request input) = to_hexad_input input.
Proof.
  unfold ApiHexads.to_hexad_input, to_hexad_input. cbn.
  by destruct (gi_title input), (gi_body input), (gi_embedding input), (gi_types input).
Qed.

(** The mutations on entities do what the REST endpoints do, on the same store and with the
    same answer in fewer fields; the tensor of an input is no part of what is created.  Reading
    an entity agrees too, and an unknown one is [null] instead of an error.  (An identifier
    that the REST endpoints refuse is looked up all the same.) *)
Theorem graphql_like_rest {UH : UnicodeChar} (input : HexadInput) (id : string) (s : HexadState) :
  create_hexad input s =
    (let '(r, s') := create_hexad_handler config (rest_request input) s in
     (as_graphql (λ x, of_response x.2) r, s')) ∧
  (validate_hexad_id id = Ok () →
   delete_hexad id s =
     (let '(r, s') := delete_hexad_handler id s in (as_graphql (λ _, true) r, s')) ∧
   hexad id s =
     match get_hexad_handler config id s with
     | Err (ApiNotFound _) => Ok None
     | r => as_graphql (λ x, Some (of_response x)) r
     end).
Proof.
  split.
  - unfold create_hexad, create_hexad_handler. rewrite rest_input.
    by destruct (create config (to_hexad_input input) s) as [[h|e] s'].
  - intros Hv. unfold delete_hexad, delete_hexad_handler, checked, hexad, get_hexad_handler, get_or_not_found.
    rewrite Hv. split; [by destruct (hexad_delete id s) as [[[]|e] s']; [|destruct e]|].
    by destruct (hexad_get config id s) as [[h|]|e].
Qed.

Lemma as_i32_as_usize t : - 2 ^ 31 ≤ t < 2 ^ 31 → as_i32 (as_usize t) = t.
Proof.
  intros Ht. unfold as_i32, as_usize, wrap_signed.
  rewrite Z2Nat.id by (pose proof (wrap_range 64 t); lia).
  assert (wrap 32 (wrap 64 t) = t mod 2 ^ 32) as ->.
  { unfold wrap. replace (2 ^ 64) with (2 ^ 32 * 2 ^ 32) by reflexivity.
    rewrite Z.rem_mul_r by lia. rewrite Z.mul_comm, Z_mod_plus_full. apply Z.mod_mod. lia. }
  unfold to_signed. destruct (decide (0 ≤ t)).
  - rewrite Z.mod_small by lia. destruct (Z.ltb_spec t (2 ^ (32 - 1))); lia.
  - assert (t mod 2 ^ 32 = t + 2 ^ 32) as ->.
    { rewrite <- (Z_mod_plus_full t 1). apply Z.mod_small. lia. }
    destruct (Z.ltb_spec (t + 2 ^ 32) (2 ^ (32 - 1))); lia.
Qed.

(** A change of the planner's configuration on a healthy planner: what is given is set, the rest
    and the overrides stay, and the configuration read next is the one answered, a negative
    threshold included; a mode that is not one of the names is taken for the balanced one. *)
Theorem config_update_reads_back (input : PlannerConfigInput) (p : Planner) :
  ∃ out p', update_planner_config input {| mx_poisoned := false; mx_value := p |}
    = (Some (Ok out), {| mx_poisoned := false; mx_value := p' |}) ∧
  (planner_config {| mx_poisoned := false; mx_value := p' |}).1 = Some (Ok out) ∧
  pl_stats p' = pl_stats p ∧ modality_overrides (pl_config p') = modality_overrides (pl_config p) ∧
  go_global_mode out = mode_debug (default (global_mode (pl_config p)) (parse_mode <$> gc_global_mode input)) ∧
  go_statistics_weight out = default (statistics_weight (pl_config p)) (gc_statistics_weight input) ∧
  go_enable_adaptive out = default (enable_adaptive (pl_config p)) (gc_enable_adaptive input) ∧
  (∀ t, gc_parallel_threshold input = Some t → - 2 ^ 31 ≤ t < 2 ^ 31 → go_parallel_threshold out = t) ∧
  (gc_parallel_threshold input = None →
   go_parallel_threshold out = as_i32 (parallel_threshold (pl_config p))).
Proof.
  eexists _, _. split; [reflexivity|]. split_and!; try done; cbn.
  - intros t -> Ht. by apply as_i32_as_usize.
  - by intros ->.
Qed.

End resolvers.
End GraphQl.
