(* ===== verification/ApiServer.v ===== *)
(** * The server

    Models the state and the routes of [src/rust-core/verisim-api/src/lib.rs]: [AppState] and
    how it starts, [build_router] and the layer of authentication around most of its routes,
    and the handlers they lead to.  The stores a server starts with come with its build; the
    metrics endpoint, the console page of GraphQL and the sockets are left out. *)

From S2P Require Import Prelude Floats LockTable Provenance Temporal Graph Modality VectorSearch HexadTypes HexadStore HexadLogic HexadTxn HexadView HexadRead Circuit Zkp Rbac Auth Plan Optimizer VqlBridge PlanCache Drift DriftSpec Normalizer Profiler ApiCommon ApiTxn ApiHexads ApiPlanner ApiStatus VqlApi Federation GraphQl.
From stdpp Require Import pretty.
From Stdlib Require String.
Local Open Scope Z_scope.

(** ** Requests *)

Section requests.
Context {CH : Chrono} {V : Type}.

(** The routes inside the layer, by what their handlers take from the request. *)
Inductive Endpoint :=
| EHealth
| EReady
| EListHexads (params : ListQuery)
| ECreateHexad (request : HexadRequest)
| EGetHexad (id : string)
| EUpdateHexad (id : string) (request : HexadRequest)
| EDeleteHexad (id : string)
| ETextSearch (query : SearchQuery)
| EVectorSearch (request : VectorSearchRequest)
| ERelatedSearch (id : string) (pred : option string)
| EDriftStatus
| EEntityDrift (id : string)
| ENormalizerStatus
| ETriggerNormalization (id : string)
| EStoreQuery (request : StoreQueryRequest)
| ESimilarQueries (request : VectorSearchRequest)
| EOptimizeQuery (id : string) (body : option LogicalPlan)
| EQueryPlan (plan : LogicalPlan)
| EQueryExplain (plan : LogicalPlan)
| EGetPlannerConfig
| EPutPlannerConfig (config : PlannerConfig)
| EPlannerStats
| EExplainAnalyze (request : ExplainAnalyzeRequest)
| EPreparedCreate (request : PreparedCreateRequest)
| EPreparedGet (id : string)
| EPreparedExecute (id : string) (params : gmap string V)
| EPreparedStats
| ESlowQueries
| ETransactionBegin
| ETransactionCommit (id : string)
| ETransactionRollback (id : string)
| ETransactionStatus (id : string)
| EProofGenerate (request : ProofGenerateRequest)
| EProofVerify (proof : ZkpProof) (claim : string)
| EProofWithCircuit (request : ProofWithCircuitRequest)
| EProvenanceChain (id : string)
| EProvenanceRecord (id : string) (body : ProvenanceRequest)
| EProvenanceVerify (id : string)
| ESpatialRadius (body : RadiusSearchRequest)
| ESpatialBounds (body : BoundsSearchRequest)
| ESpatialNearest (body : NearestSearchRequest)
| EVqlExecute (query : string).

(** The routes merged after the layer. *)
Inductive MergedEndpoint :=
| MHealth
| MHexad (id : string)
| MSearchText (query : string) (limit : option Z)
| MDriftStatus
| MPlannerConfig
| MPlannerStats
| MExplainPlan (plan_json : string)
| MCreateHexad (input : GraphQl.HexadInput)
| MDeleteHexad (id : string)
| MOptimizePlan (plan_json : string)
| MUpdatePlannerConfig (input : GraphQl.PlannerConfigInput)
| MListPeers (modality : option string)
| MRegister (request : RegisterRequest)
| MHeartbeat (header : option string) (request : HeartbeatRequest)
| MFederationQuery (request : FederationQueryRequest)
| MDeregister (id : string).

(** The method and the path of a route. *)
Definition route (e : Endpoint) : Method * string :=
  match e with
  | EHealth => (GET, "/health")
  | EReady => (GET, "/ready")
  | EListHexads _ => (GET, "/hexads")
  | ECreateHexad _ => (POST, "/hexads")
  | EGetHexad id => (GET, "/hexads/" +:+ id)
  | EUpdateHexad id _ => (PUT, "/hexads/" +:+ id)
  | EDeleteHexad id => (DELETE, "/hexads/" +:+ id)
  | ETextSearch _ => (GET, "/search/text")
  | EVectorSearch _ => (POST, "/search/vector")
  | ERelatedSearch id _ => (GET, "/search/related/" +:+ id)
  | EDriftStatus => (GET, "/drift/status")
  | EEntityDrift id => (GET, "/drift/entity/" +:+ id)
  | ENormalizerStatus => (GET, "/normalizer/status")
  | ETriggerNormalization id => (POST, "/normalizer/trigger/" +:+ id)
  | EStoreQuery _ => (POST, "/queries")
  | ESimilarQueries _ => (POST, "/queries/similar")
  | EOptimizeQuery id _ => (PUT, "/queries/" +:+ id +:+ "/optimize")
  | EQueryPlan _ => (POST, "/query/plan")
  | EQueryExplain _ => (POST, "/query/explain")
  | EGetPlannerConfig => (GET, "/planner/config")
  | EPutPlannerConfig _ => (PUT, "/planner/config")
  | EPlannerStats => (GET, "/planner/stats")
  | EExplainAnalyze _ => (POST, "/query/explain-analyze")
  | EPreparedCreate _ => (POST, "/prepared")
  | EPreparedGet id => (GET, "/prepared/" +:+ id)
  | EPreparedExecute id _ => (POST, "/prepared/" +:+ id +:+ "/execute")
  | EPreparedStats => (GET, "/prepared/stats")
  | ESlowQueries => (GET, "/planner/slow-queries")
  | ETransactionBegin => (POST, "/transactions/begin")
  | ETransactionCommit id => (POST, "/transactions/" +:+ id +:+ "/commit")
  | ETransactionRollback id => (POST, "/transactions/" +:+ id +:+ "/rollback")
  | ETransactionStatus id => (GET, "/transactions/" +:+ id)
  | EProofGenerate _ => (POST, "/proofs/generate")
  | EProofVerify _ _ => (POST, "/proofs/verify")
  | EProofWithCircuit _ => (POST, "/proofs/generate-with-circuit")
  | EProvenanceChain id => (GET, "/provenance/" +:+ id)
  | EProvenanceRecord id _ => (POST, "/provenance/" +:+ id +:+ "/record")
  | EProvenanceVerify id => (GET, "/provenance/" +:+ id +:+ "/verify")
  | ESpatialRadius _ => (POST, "/spatial/search/radius")
  | ESpatialBounds _ => (POST, "/spatial/search/bounds")
  | ESpatialNearest _ => (POST, "/spatial/search/nearest")
  | EVqlExecute _ => (POST, "/vql/execute")
  end.
End requests.
Arguments Endpoint {CH} V.

(** What a client gets: an answer with its status, an error, or nothing when the handler
    panics. *)
Inductive Reply :=
| Answer {A : Type} (status : Z) (body : A)
| Refusal (e : ApiError)
| Denied (r : Auth.Response)
| Status (code : Z)
| Lost.

Definition replied {A} (r : result ApiError A) : Reply :=
  match r with Ok a => Answer 200 a | Err e => Refusal e end.

(** A handler that gives the status with the answer. *)
Definition replied_with {A} (r : result ApiError (Z * A)) : Reply :=
  match r with Ok (status, a) => Answer status a | Err e => Refusal e end.

Definition replied_status (r : result ApiError Z) : Reply :=
  match r with Ok status => Status status | Err e => Refusal e end.

Definition may_panic {A} (reply : result ApiError A → Reply) (o : option (result ApiError A)) : Reply :=
  match o with Some r => reply r | None => Lost end.

(** A GraphQL answer has status 200, its error in the body. *)
Definition graphql_reply {A} (r : result string A) : Reply := Answer 200 r.
Definition graphql_may_panic {A} (o : option (result string A)) : Reply :=
  match o with Some r => graphql_reply r | None => Lost end.

Definition federation_reply {A} (r : result Z A) : Reply :=
  match r with Ok a => Answer 200 a | Err status => Status status end.

(** ** The state *)

Section server.
Context {CH : Chrono} {CD : ChronoDuration} {PL : Platform} {BK : Backends}.
Context {UC : Unicode} {UH : UnicodeChar} {UT : UnicodeTrim} {SH : Sha256} {CJ : ClaimsJson}.
Context {FX : FixedDisplay} {LG : Log2} {DC : DebugCondition} {PF : ParseFloat} {PJ : PlanJson}.
Context {SN : SerdeNumber} {CT : ChronoText} {CB : CircuitJson}.
Context {HI : HashIter string} {HM : HashIter Modality} {HD : HashIter DriftType} {HN : HashIter N}.
Context {SQ : SpatialQueries bk_spatial} {PV : ApiHexads.ProvenanceVerify bk_provenance} {V : Type}.

Record AppState := {
  ap_hexad_store : HexadState; ap_drift_detector : DriftDetector; ap_normalizer : Normalizer;
  ap_planner : PlannerMutex; ap_plan_cache : PlanCache; ap_slow_query_log : SlowQueryLog;
  ap_transaction_manager : ApiTxn.TransactionManager; ap_circuit_registry : CircuitRegistry;
  ap_federation : FederationState; ap_auth : AuthState; ap_config : ApiConfig;
}.

Definition set_hexad_store (s : HexadState) (a : AppState) : AppState :=
  {| ap_hexad_store := s; ap_drift_detector := ap_drift_detector a; ap_normalizer := ap_normalizer a;
     ap_planner := ap_planner a; ap_plan_cache := ap_plan_cache a;
     ap_slow_query_log := ap_slow_query_log a; ap_transaction_manager := ap_transaction_manager a;
     ap_circuit_registry := ap_circuit_registry a; ap_federation := ap_federation a;
     ap_auth := ap_auth a; ap_config := ap_config a |}.

Definition set_planner (m : PlannerMutex) (a : AppState) : AppState :=
  {| ap_hexad_store := ap_hexad_store a; ap_drift_detector := ap_drift_detector a;
     ap_normalizer := ap_normalizer a; ap_planner := m; ap_plan_cache := ap_plan_cache a;
     ap_slow_query_log := ap_slow_query_log a; ap_transaction_manager := ap_transaction_manager a;
     ap_circuit_registry := ap_circuit_registry a; ap_federation := ap_federation a;
     ap_auth := ap_auth a; ap_config := ap_config a |}.

Definition set_plan_cache (c : PlanCache) (a : AppState) : AppState :=
  {| ap_hexad_store := ap_hexad_store a; ap_drift_detector := ap_drift_detector a;
     ap_normalizer := ap_normalizer a; ap_planner := ap_planner a; ap_plan_cache := c;
     ap_slow_query_log := ap_slow_query_log a; ap_transaction_manager := ap_transaction_manager a;
     ap_circuit_registry := ap_circuit_registry a; ap_federation := ap_federation a;
     ap_auth := ap_auth a; ap_config := ap_config a |}.

Definition set_transaction_manager (m : ApiTxn.TransactionManager) (a : AppState) : AppState :=
  {| ap_hexad_store := ap_hexad_store a; ap_drift_detector := ap_drift_detector a;
     ap_normalizer := ap_normalizer a; ap_planner := ap_planner a; ap_plan_cache := ap_plan_cache a;
     ap_slow_query_log := ap_slow_query_log a; ap_transaction_manager := m;
     ap_circuit_registry := ap_circuit_registry a; ap_federation := ap_federation a;
     ap_auth := ap_auth a; ap_config := ap_config a |}.

Definition set_federation (f : FederationState) (a : AppState) : AppState :=
  {| ap_hexad_store := ap_hexad_store a; ap_drift_detector := ap_drift_detector a;
     ap_normalizer := ap_normalizer a; ap_planner := ap_planner a; ap_plan_cache := ap_plan_cache a;
     ap_slow_query_log := ap_slow_query_log a; ap_transaction_manager := ap_transaction_manager a;
     ap_circuit_registry := ap_circuit_registry a; ap_federation := f;
     ap_auth := ap_auth a; ap_config := ap_config a |}.

Definition set_auth (auth : AuthState) (a : AppState) : AppState :=
  {| ap_hexad_store := ap_hexad_store a; ap_drift_detector := ap_drift_detector a;
     ap_normalizer := ap_normalizer a; ap_planner := ap_planner a; ap_plan_cache := ap_plan_cache a;
     ap_slow_query_log := ap_slow_query_log a; ap_transaction_manager := ap_transaction_manager a;
     ap_circuit_registry := ap_circuit_registry a; ap_federation := ap_federation a;
     ap_auth := auth; ap_config := ap_config a |}.

Definition hexad_config (config : ApiConfig) : HexadConfig :=
  {| base_iri := base_iri HexadConfig_default; vector_dimension := ac_vector_dimension config;
     require_complete := require_complete HexadConfig_default |}.

(** [new_async] without the feature [persistent], once the stores [o] are made; [env] is the
    variable of the federation's keys. *)
Definition AppState_new (now : DateTime) (env : option string) (o : Octad) (config : ApiConfig) : AppState :=
  {| ap_hexad_store := hexad_store_new o;
     ap_drift_detector := DriftDetector_new now DriftThresholds_default;
     ap_normalizer := create_default_normalizer;
     ap_planner := {| mx_poisoned := false;
                      mx_value := {| pl_config := PlannerConfig_default;
                                     pl_stats := StatisticsCollector_new now |} |};
     ap_plan_cache := PlanCache_new CacheConfig_default;
     ap_slow_query_log := SlowQueryLog_with_defaults;
     ap_transaction_manager := ApiTxn.manager_new ApiTxn.TransactionConfig_default;
     ap_circuit_registry := registry_new;
     ap_federation := FederationState_new env "self"
       ("http://" +:+ ac_host config +:+ ":" +:+ pretty (ac_port config) +:+ ac_version_prefix config);
     ap_auth := AuthState_new AuthConfig_default; ap_config := config |}.

(** ** Handling *)

(** What a request finds of the world: the readings of the clock in their order, what the
    clocks say otherwise, and the network of the federation. *)
Record World := {
  wo_now : nat → DateTime; wo_secs : Z; wo_instant : Z; wo_uptime : Z; wo_process_id : Z;
  wo_version : string; wo_network : network; wo_now_text : string;
}.

Context (debug_str : string → string).

(** A handler on one part of the state, that gives it back. *)
Definition on_store {R} (reply : R → Reply) (h : HexadState → R * HexadState) (a : AppState)
    : Reply * AppState :=
  let '(r, s) := h (ap_hexad_store a) in (reply r, set_hexad_store s a).
Definition on_planner {R} (reply : R → Reply) (h : PlannerMutex → R * PlannerMutex) (a : AppState)
    : Reply * AppState :=
  let '(r, m) := h (ap_planner a) in (reply r, set_planner m a).
Definition on_cache {R} (reply : R → Reply) (h : PlanCache → R * PlanCache) (a : AppState)
    : Reply * AppState :=
  let '(r, c) := h (ap_plan_cache a) in (reply r, set_plan_cache c a).
Definition on_transactions {R} (reply : R → Reply)
    (h : ApiTxn.TransactionManager → R * ApiTxn.TransactionManager) (a : AppState) : Reply * AppState :=
  let '(r, m) := h (ap_transaction_manager a) in (reply r, set_transaction_manager m a).
Definition on_federation {R} (reply : R → Reply) (h : FederationState → R * FederationState)
    (a : AppState) : Reply * AppState :=
  let '(r, f) := h (ap_federation a) in (reply r, set_federation f a).

(** The planner is asked only for an entity that is there. *)
Definition optimize_query (id : string) (body : option LogicalPlan) (a : AppState) : Reply * AppState :=
  let cfg := hexad_config (ap_config a) in
  let s := ap_hexad_store a in
  match (_ ← validate_hexad_id id;
         get_or_not_found cfg ("Query hexad " +:+ id +:+ " not found") id s) with
  | Err e => (Refusal e, a)
  | Ok _ =>
    let '(planned, m) := plan_costs body (ap_planner a) in
    on_store (may_panic replied) (optimize_query_handler cfg id planned) (set_planner m a)
  end.

Definition surroundings (w : World) (a : AppState) : Surroundings :=
  {| su_drift_detector := ap_drift_detector a; su_normalizer := ap_normalizer a;
     su_version := wo_version w; su_uptime := wo_uptime w; su_now := wo_now w 0 |}.

Definition handle (w : World) (e : Endpoint V) (a : AppState) : Reply * AppState :=
  let cfg := hexad_config (ap_config a) in
  let s := ap_hexad_store a in
  let d := ap_drift_detector a in
  let now := wo_now w in
  let pid := wo_process_id w in
  match e with
  | EHealth => (Answer 200 (health_handler (wo_version w) (wo_uptime w) (now 0%nat) d), a)
  | EReady => (Status (ready_handler cfg s), a)
  | EListHexads params => (replied (list_hexads_handler cfg params s), a)
  | ECreateHexad request => on_store replied_with (create_hexad_handler cfg request) a
  | EGetHexad id => (replied (get_hexad_handler cfg id s), a)
  | EUpdateHexad id request => on_store replied (update_hexad_handler cfg id request) a
  | EDeleteHexad id => on_store replied_status (delete_hexad_handler id) a
  | ETextSearch query => (replied (text_search_handler cfg query s), a)
  | EVectorSearch request => (replied (vector_search_handler cfg (ap_config a) request s), a)
  | ERelatedSearch id pred => (replied (related_search_handler cfg id pred s), a)
  | EDriftStatus => (Answer 200 (drift_status_handler d), a)
  | EEntityDrift id => (replied (entity_drift_handler cfg id s d), a)
  | ENormalizerStatus => (Answer 200 (normalizer_status_handler (ap_normalizer a)), a)
  | ETriggerNormalization id => (replied_status (trigger_normalization_handler cfg id s), a)
  | EStoreQuery request => on_store (may_panic replied_with) (store_query_handler cfg request) a
  | ESimilarQueries request => (replied (similar_queries_handler cfg (ap_config a) request s), a)
  | EOptimizeQuery id body => optimize_query id body a
  | EQueryPlan plan => on_planner (may_panic replied) (query_plan_handler plan) a
  | EQueryExplain plan => on_planner (may_panic replied) (query_explain_handler plan) a
  | EGetPlannerConfig => on_planner (may_panic replied) get_planner_config_handler a
  | EPutPlannerConfig config => on_planner (may_panic replied) (put_planner_config_handler config) a
  | EPlannerStats => on_planner (may_panic replied) planner_stats_handler a
  | EExplainAnalyze request =>
    on_planner (may_panic replied) (query_explain_analyze_handler request (now 0%nat) (now 1%nat) (now 2%nat)) a
  | EPreparedCreate request =>
    on_cache replied_with (prepared_create_handler request (now 0%nat) (now 1%nat)) a
  | EPreparedGet id => on_cache replied (prepared_get_handler id (now 0%nat)) a
  | EPreparedExecute id params =>
    let '(r, (c, m)) :=
      prepared_execute_handler debug_str id params (now 0%nat) (ap_plan_cache a) (ap_planner a) in
    (may_panic replied r, set_planner m (set_plan_cache c a))
  | EPreparedStats => (Answer 200 (prepared_stats_handler (ap_plan_cache a)), a)
  | ESlowQueries => (Answer 200 (slow_queries_handler (ap_slow_query_log a)), a)
  | ETransactionBegin =>
    on_transactions replied (ApiTxn.transaction_begin_handler pid (now 0%nat) (now 1%nat)) a
  | ETransactionCommit id => on_transactions replied (ApiTxn.transaction_commit_handler (now 0%nat) id) a
  | ETransactionRollback id => on_transactions replied (ApiTxn.transaction_rollback_handler (now 0%nat) id) a
  | ETransactionStatus id => (replied (ApiTxn.transaction_status_handler id (ap_transaction_manager a)), a)
  | EProofGenerate request => (replied (proof_generate_handler (now 0%nat) request), a)
  | EProofVerify proof claim => (Answer 200 (proof_verify_handler proof claim), a)
  | EProofWithCircuit request =>
    (replied (proof_generate_with_circuit_handler (now 0%nat) request (ap_circuit_registry a)), a)
  | EProvenanceChain id => (replied (provenance_get_chain_handler debug_str id s), a)
  | EProvenanceRecord id body => on_store replied (provenance_record_handler cfg id body) a
  | EProvenanceVerify id => (replied (provenance_verify_handler id s), a)
  | ESpatialRadius body => (replied (spatial_radius_search_handler body s), a)
  | ESpatialBounds body => (replied (spatial_bounds_search_handler body s), a)
  | ESpatialNearest body => (replied (spatial_nearest_handler body s), a)
  | EVqlExecute query =>
    on_store (may_panic replied) (vql_execute_handler cfg (ap_config a) (surroundings w a) query) a
  end.

Definition handle_merged (w : World) (e : MergedEndpoint) (a : AppState) : Reply * AppState :=
  let cfg := hexad_config (ap_config a) in
  let s := ap_hexad_store a in
  match e with
  | MHealth => (Answer 200 (GraphQl.health (wo_version w) (wo_uptime w)), a)
  | MHexad id => (graphql_reply (GraphQl.hexad cfg id s), a)
  | MSearchText query limit => (graphql_reply (GraphQl.search_text cfg query limit s), a)
  | MDriftStatus => (Answer 200 (GraphQl.drift_status (ap_drift_detector a)), a)
  | MPlannerConfig => on_planner graphql_may_panic GraphQl.planner_config a
  | MPlannerStats => on_planner graphql_may_panic GraphQl.planner_stats a
  | MExplainPlan plan_json => on_planner graphql_may_panic (GraphQl.explain_plan plan_json) a
  | MCreateHexad input => on_store graphql_reply (GraphQl.create_hexad cfg input) a
  | MDeleteHexad id => on_store graphql_reply (GraphQl.delete_hexad id) a
  | MOptimizePlan plan_json => on_planner graphql_may_panic (GraphQl.optimize_plan plan_json) a
  | MUpdatePlannerConfig input => on_planner graphql_may_panic (GraphQl.update_planner_config input) a
  | MListPeers modality => (Answer 200 (list_peers modality (ap_federation a)), a)
  | MRegister request =>
    on_federation (λ r, match r with Ok (status, p) => Answer status p | Err status => Status status end)
      (register_peer (wo_now_text w) request) a
  | MHeartbeat header request =>
    on_federation (λ r, match r with Ok status | Err status => Status status end)
      (heartbeat (wo_now_text w) header request) a
  | MFederationQuery request => (Answer 200 (federation_query (wo_network w) request (ap_federation a)), a)
  | MDeregister id => on_federation Status (deregister_peer id) a
  end.

(** A request: the headers that say who asks, and what for. *)
Record HttpRequest := {
  ht_api_key : option string; ht_authorization : option string;
  ht_endpoint : Endpoint V + MergedEndpoint;
}.

(** A layer is around the routes added before it; those merged after it go without.  (A panic of
    the middleware, of an audit log without room for an entry, loses the request; what it
    leaves of the middleware's state is not followed.) *)
Definition serve (w : World) (r : HttpRequest) (a : AppState) : Reply * AppState :=
  match ht_endpoint r with
  | inl e =>
    let '(method, path) := route e in
    let request := {| req_path := path; req_method := method; req_api_key := ht_api_key r;
                      req_authorization := ht_authorization r |} in
    match auth_middleware (wo_secs w) (wo_instant w) request (ap_auth a) with
    | None => (Lost, a)
    | Some (Next, auth) => handle w e (set_auth auth a)
    | Some (denied, auth) => (Denied denied, set_auth auth a)
    end
  | inr e => handle_merged w e a
  end.

Definition run (rs : list (World * HttpRequest)) (a : AppState) : AppState :=
  foldl (λ a '(w, r), (serve w r a).2) a rs.

(** ** What is never fed

    The drift detector, the normalizer, the log of slow queries and the registry of circuits
    are read by endpoints and written by none. *)

Record unfed (a b : AppState) : Prop := {
  uf_drift : ap_drift_detector b = ap_drift_detector a; uf_normalizer : ap_normalizer b = ap_normalizer a;
  uf_slow : ap_slow_query_log b = ap_slow_query_log a;
  uf_circuits : ap_circuit_registry b = ap_circuit_registry a; uf_config : ap_config b = ap_config a;
  uf_auth : as_config (ap_auth b) = as_config (ap_auth a);
}.

#[local] Instance unfed_preorder : PreOrder unfed.
Proof.
  split; [intros a; by split|]. intros a b c [????? Hab] [????? Hbc]. split; congruence.
Qed.

Lemma on_store_unfed {R} (reply : R → Reply) h a : unfed a (on_store reply h a).2.
Proof. unfold on_store. by destruct (h _). Qed.
Lemma on_planner_unfed {R} (reply : R → Reply) h a : unfed a (on_planner reply h a).2.
Proof. unfold on_planner. by destruct (h _). Qed.
Lemma on_cache_unfed {R} (reply : R → Reply) h a : unfed a (on_cache reply h a).2.
Proof. unfold on_cache. by destruct (h _). Qed.
Lemma on_transactions_unfed {R} (reply : R → Reply) h a : unfed a (on_transactions reply h a).2.
Proof. unfold on_transactions. by destruct (h _). Qed.
Lemma on_federation_unfed {R} (reply : R → Reply) h a : unfed a (on_federation reply h a).2.
Proof. unfold on_federation. by destruct (h _). Qed.

Lemma handle_unfed w e a : unfed a (handle w e a).2.
Proof.
  destruct e; cbn [handle]; try reflexivity;
    try (apply on_store_unfed || apply on_planner_unfed || apply on_cache_unfed || apply on_transactions_unfed).
  - unfold optimize_query. case_match; [|reflexivity]. destruct (plan_costs _ _) as [planned m].
    etrans; [|apply on_store_unfed]. by split.
  - destruct (prepared_execute_handler _ _ _ _ _ _) as [r [c m]]. by split.
Qed.

Lemma handle_merged_unfed w e a : unfed a (handle_merged w e a).2.
Proof.
  destruct e; cbn [handle_merged]; try reflexivity;
    apply on_store_unfed || apply on_planner_unfed || apply on_federation_unfed.
Qed.

Lemma middleware_config secs instant request auth response auth' :
  auth_middleware secs instant request auth = Some (response, auth') → as_config auth' = as_config auth.
Proof.
  unfold auth_middleware. destruct (negb (ac_enabled _)); [by intros [= _ <-]|].
  destruct (_ && _); [by intros [= _ <-]|].
  destruct (extract_identity _ _ _) as [identity|e]; [|by intros [= _ <-]].
  destruct (rate_check _ _ _) as [[] rl]; cbn [negb].
  - intros ([r rbac] & _ & [= _ <-])%bind_Some. done.
  - destruct (remaining _ _ _). by intros [= _ <-].
Qed.

Lemma serve_unfed w r a : unfed a (serve w r a).2.
Proof.
  unfold serve. destruct (ht_endpoint r) as [e|e]; [|apply handle_merged_unfed].
  destruct (route e) as [method path].
  destruct (auth_middleware _ _ _ _) as [[response auth]|] eqn:Ha; [|reflexivity].
  apply middleware_config in Ha. assert (unfed a (set_auth auth a)) as Hu by by split.
  destruct response; try done. etrans; [exact Hu|]. apply handle_unfed.
Qed.

Lemma run_unfed rs a : unfed a (run rs a).
Proof.
  revert a. unfold run. induction rs as [|[w r] rs IH]; intros a; [reflexivity|].
  cbn [foldl]. etrans; [apply (serve_unfed w r)|apply IH].
Qed.

(** Every score of a new detector is zero. *)
Lemma new_scores now thresholds t m :
  dd_metrics (DriftDetector_new now thresholds) !! t = Some m → dm_current_score m = f64_zero.
Proof.
  unfold DriftDetector_new. cbn [dd_metrics]. intros H%elem_of_list_to_map_2. apply list_elem_of_fmap in H as (t' & [= -> ->] & _). done.
Qed.

Lemma new_detector_healthy now now' thresholds :
  Drift.hs_status (health_check now' (DriftDetector_new now thresholds)) = Healthy.
Proof.
  unfold health_check. set (d := DriftDetector_new now thresholds).
  assert (∀ l, foldl (worse (dd_metrics d)) (f64_zero, QualityDrift) l = (f64_zero, QualityDrift)) as ->.
  { induction l as [|t l IH]; [done|]. cbn [foldl]. unfold worse at 2.
    destruct (dd_metrics d !! t) as [m|] eqn:Hm; [|done].
    apply new_scores in Hm. rewrite Hm. cbn [fst]. done. }
  reflexivity.
Qed.

Lemma new_detector_worst now thresholds :
  (worst_drift (DriftDetector_new now thresholds)).2 = f64_zero.
Proof.
  unfold worst_drift. set (d := DriftDetector_new now thresholds).
  assert (∀ x, x ∈ iter_metrics d → dm_current_score x.2 = f64_zero) as Hz.
  { intros [t m] Hx%elem_of_iter_metrics. by eapply new_scores. }
  pose proof (max_by_float_spec (λ x : DriftType * DriftMetrics, dm_current_score x.2) (iter_metrics d)) as Hmax.
  destruct (max_by_float _ _) as [[t m]|] eqn:Hm; [|done]. cbn.
  destruct (iter_metrics d) as [|x l] eqn:Hl; [done|].
  destruct Hmax as (y & [= <-] & Hin & _); [done| |].
  - apply Forall_forall. intros x' Hx'. by rewrite Hz.
  - by apply (Hz (t, m)).
Qed.

(** Whatever requests a server has served since it started, with whatever credentials:
    authentication is off, so that every request is handled; its health is "healthy" and the
    drift of every entity is zero, since nothing that a request does is ever measured; there
    are no slow queries to report; and no proof with a circuit succeeds. *)
Theorem server_never_measures (now : DateTime) (env : option string) (o : Octad) (config : ApiConfig)
    (rs : list (World * HttpRequest)) :
  let a := run rs (AppState_new now env o config) in
  let d := ap_drift_detector a in
  (∀ w r e, ht_endpoint r = inl e → (serve w r a) = handle w e a) ∧
  (∀ w, (handle w EHealth a).1 =
     Answer 200 {| hl_status := "healthy"; hl_version := wo_version w; hl_uptime_seconds := wo_uptime w;
                   hl_degraded_reason := None |}) ∧
  (∀ id r, entity_drift_handler (hexad_config (ap_config a)) id (ap_hexad_store a) d = Ok r →
     ed_score r = f64_zero ∧ ed_status r = "healthy") ∧
  slow_queries_handler (ap_slow_query_log a) = SlowQuerySummary_default ∧
  (∀ now' request r,
     proof_generate_with_circuit_handler now' request (ap_circuit_registry a) = Ok r → pf_success r = false).
Proof.
  cbn zeta. pose proof (run_unfed rs (AppState_new now env o config)) as [Hd _ Hs Hc _ Ha].
  set (a := run rs _) in *. cbn in Hd, Hs, Hc, Ha. split_and!.
  - intros w r e He. unfold serve. rewrite He. destruct (route e) as [method path].
    unfold auth_middleware. rewrite Ha. cbn. by destruct a.
  - intros w. cbn [handle fst]. unfold health_handler. rewrite Hd.
    rewrite (new_detector_healthy now (wo_now w 0) DriftThresholds_default). done.
  - intros id r. rewrite Hd. unfold entity_drift_handler. intros (? & _ & H)%result_bind_Ok.
    apply result_bind_Ok in H as (h & _ & H).
    pose proof (new_detector_worst now DriftThresholds_default) as Hw.
    destruct (worst_drift _) as [t score]. cbn in Hw. subst score. by injection H as <-.
  - by rewrite Hs.
  - intros now' request r. rewrite Hc. intros H. by apply circuit_proofs_fail in H as [? _].
Qed.

Context {BL : BackendLaws BK}.

(** A request without a key or a token. *)
Definition anonymous (r : HttpRequest) : Prop :=
  ht_api_key r = None ∧ (ht_authorization r ≫= str_strip_prefix "Bearer ") = None.

(** C9: With authentication on, an anonymous request to a route of the layer is denied and changes
    nothing (but for the health routes, if they are public).  The routes merged after the layer
    are served to anyone: an anonymous GraphQL request deletes an entity as the protected
    endpoint would, and an anonymous request removes a peer of the federation. *)
Theorem layer_leaves_routes_open (w : World) (r : HttpRequest) (a : AppState) :
  ac_enabled (as_config (ap_auth a)) = true → anonymous r →
  (∀ e, ht_endpoint r = inl e →
     ac_allow_public_health (as_config (ap_auth a)) && public_health (route e).2 = false →
     ∃ message, serve w r a = (Denied (Unauthorized message), a)) ∧
  (∀ id s, ht_endpoint r = inr (MDeleteHexad id) →
     delete_hexad_handler id (ap_hexad_store a) = (Ok NO_CONTENT, s) →
     serve w r a = (graphql_reply (Ok true), set_hexad_store s a) ∧ hexads s !! id = None) ∧
  (∀ id p, ht_endpoint r = inr (MDeregister id) → fd_peers (ap_federation a) !! id = Some p →
     (serve w r a).1 = Status 200 ∧ fd_peers (ap_federation (serve w r a).2) !! id = None).
Proof.
  intros Hen [Hk Hb]. split_and!.
  - intros e He Hpub. unfold serve. rewrite He. destruct (route e) as [method path].
    unfold auth_middleware. rewrite Hen. cbn [negb snd req_path] in *. rewrite Hpub.
    unfold extract_identity. cbn [req_api_key req_authorization]. rewrite Hk, Hb. eexists. by destruct a.
  - intros id s He Hd. unfold serve. rewrite He. cbn [handle_merged]. unfold on_store, GraphQl.delete_hexad.
    unfold delete_hexad_handler, checked in Hd. destruct (validate_hexad_id id); [|done].
    destruct (hexad_delete id (ap_hexad_store a)) as [[[]|e] s'] eqn:Hdel; [|by destruct e].
    injection Hd as <-. apply delete_Ok in Hdel as (_ & Hn & _). done.
  - intros id p He Hp. unfold serve. rewrite He. cbn [handle_merged]. unfold on_federation, deregister_peer.
    rewrite Hp. cbn. by rewrite lookup_delete_eq.
Qed.

End server.
