(* ===== verification/ApiExamples.v ===== *)
(** * The API on concrete inputs

    An entity's life over HTTP and in queries as text, on the stores of [HexadExamples.v];
    transactions of two clients, the handlers on the planner; and a server with three peers,
    asked by clients that have no key. *)

From S2P Require Import Prelude Floats LockTable Provenance Temporal Graph Modality VectorSearch HexadTypes HexadStore HexadLogic HexadTxn HexadView HexadRead HexadExamples Circuit Zkp Rbac Auth ZkpExamples Plan Optimizer VqlBridge PlanCache Drift DriftSpec Normalizer NormalizerExamples Profiler PlannerExamples ApiCommon ApiTxn ApiTxnSpec ApiHexads ApiHexadsSpec ApiPlanner ApiStatus VqlApi VqlApiSpec Federation GraphQl ApiServer.
From Stdlib Require String Ascii.
Local Open Scope Z_scope.

#[local] Existing Instance hx_chrono.
#[local] Existing Instance hx_digest.
#[local] Existing Instance hx_platform.
#[local] Existing Instance hx_tantivy.
#[local] Existing Instance hx_powi.
#[local] Existing Instance hx_backends.
#[local] Existing Instance hx_laws.
#[local] Existing Instance ascii_unicode.
#[local] Existing Instance ascii_char.

(** ** The platform *)

(** A flat earth: the searches are run, the distances are rough. *)
#[local] Instance flat : Trigonometry :=
  {| f64_sin := λ x, x; f64_cos := λ _, f64_of_Z 1; f64_asin := λ x, x |}.
#[local] Instance squares : Powi := {| f64_powi := λ x _, f64_mul x x |}.
#[local] Instance any_order : HashIter string := elements_iter string.

#[local] Instance hx_spatial : SpatialQueries (bk_spatial (Backends := hx_backends)) := memory_spatial_queries.
#[local] Instance hx_provenance : ProvenanceVerify (bk_provenance (Backends := hx_backends)) :=
  memory_provenance_verify.

Lemma closest_length n l : (length (closest n l) ≤ n)%nat.
Proof. unfold closest. rewrite length_take. lia. Qed.

#[local] Instance hx_bounds : SearchBounds.
Proof.
  split; cbn.
  - intros v k st ids. unfold brute_force_search. case_decide; [|done]. intros [= <-].
    rewrite length_map, length_take. lia.
  - intros ? k st ids [= <-]. rewrite length_take. lia.
  - intros. repeat match goal with H : _ = Ok _ |- _ => injection H as <- end. apply closest_length.
  - intros. repeat match goal with H : _ = Ok _ |- _ => injection H as <- end. apply closest_length.
  - intros. repeat match goal with H : _ = Ok _ |- _ => injection H as <- end. apply closest_length.
Qed.

(** Blanks are the trimmed characters. *)
#[local] Instance blank_trim : UnicodeTrim :=
  {| str_trim := λ s, trim_end_matches space (trim_start_matches space s) |}.

#[local] Instance blank_laws : TextLaws.
Proof.
  split; [done| |done| |done].
  - done.
  - intros a s b Ha Hb. cbn [str_trim blank_trim]. 
    assert (∀ c, visible c = true → c ≠ space) as Hv by (intros c Hc ->; done).
    cbn [trim_start_matches]. rewrite decide_False by auto.
    apply (trim_end_other _ _ (String.String a s)). auto.
Qed.

#[local] Instance whole_numbers : ParseFloat :=
  {| parse_f32 := λ s, match parse_usize s with
                       | Some z => Ok (f64_of_Z z)
                       | None => Err "invalid float literal"
                       end |}.

Definition hx_api : ApiConfig :=
  {| ac_host := "[::1]"; ac_port := 8080; ac_enable_cors := true; ac_version_prefix := "/api/v1";
     ac_vector_dimension := 2; ac_persistence_dir := None |}.

(** ** An entity over HTTP *)

Definition hx_request : HexadRequest :=
  {| hq_title := Some "Ada"; hq_body := Some "first"; hq_embedding := Some [f64_of_Z 1; f64_of_Z 2];
     hq_types := None; hq_relationships := Some [("knows", "id-0")]; hq_tensor := None;
     hq_provenance := None; hq_spatial := None; hq_metadata := None |}.

Lemma valid_id : validate_hexad_id (created_id hx_empty) = Ok ().
Proof. vm_compute. reflexivity. Qed.

Lemma rest_entity_lifecycle_witness :
  match create_hexad_handler hx_config hx_request hx_empty with
  | (Ok r, s1) =>
    let id := created_id hx_empty in
    flags_of hx_request r.2 ∧ get_hexad_handler hx_config id s1 = Ok r.2 ∧
    get_hexad_handler hx_config id (delete_hexad_handler id s1).2 = Err (ApiNotFound (hexad_not_found id))
  | (Err _, _) => False
  end.
Proof.
  assert (is_ok (create_hexad_handler hx_config hx_request hx_empty).1 = true) as Hok
    by (vm_compute; reflexivity).
  assert (let s1 := (create_hexad_handler hx_config hx_request hx_empty).2 in
          is_ok (delete_hexad_handler (created_id hx_empty) s1).1 = true) as Hdel
    by (vm_compute; reflexivity).
  destruct (create_hexad_handler hx_config hx_request hx_empty) as [[r|e] s1] eqn:E; [|discriminate Hok].
  destruct (rest_entity_lifecycle hx_config hx_request hx_empty s1 r eq_refl valid_id E)
    as (_ & _ & _ & Hf & Hg & Hd).
  split; [exact Hf|]. split; [exact Hg|]. cbn zeta in Hdel. cbn [snd] in Hdel.
  destruct (delete_hexad_handler (created_id hx_empty) s1) as [[code|e] s3] eqn:E3; [|discriminate Hdel].
  exact (proj1 (proj2 (Hd s1 code s3 E3) hx_request)).
Defined.

(** ** Stored queries, limits, provenance *)

Definition hx_stored : StoreQueryRequest :=
  {| kq_query := "SELECT * FROM hexads"; kq_embedding := None; kq_cost_vector := None;
     kq_proof_obligations := None |}.

Lemma valid_other : validate_hexad_id "id-0" = Ok () ∧ validate_hexad_id "id-9" = Ok ().
Proof. split; vm_compute; reflexivity. Qed.

Lemma provenance_endpoints_witness :
  let body := {| vq_event_type := "Modified"; vq_actor := "bob"; vq_source := None; vq_description := "" |} in
  (∃ v, provenance_verify_handler "id-0" hx_one = Ok v ∧ er_chain_valid v = true) ∧
  provenance_record_handler hx_config "id-9" body hx_one =
    (Err (ApiInternal "Entity not found: id-9"), hx_one).
Proof.
  intros body. destruct valid_other as [H0 H9]. split.
  - assert (is_Some (hexads hx_one !! "id-0")) as [st Hst] by (vm_compute; eexists; reflexivity).
    destruct (provenance_endpoints hx_config id "id-0" body hx_one H0) as [Hk _].
    destruct (Hk st Hst) as [-> _]. eexists. split; reflexivity.
  - assert (hexads hx_one !! "id-9" = None) as Hn by (vm_compute; reflexivity).
    destruct (provenance_endpoints hx_config id "id-9" body hx_one H9) as [_ Hu].
    exact (proj2 (proj2 (Hu Hn))).
Defined.

Lemma answers_bounded_witness :
  let q := {| tq_q := Some "x"; tq_limit := Some 5000%nat |} in
  at_most 5000 (text_search_handler hx_config q hx_one) ∧ is_ok (text_search_handler hx_config q hx_one) = true.
Proof.
  intros q. split; [|vm_compute; reflexivity].
  pose (vector := {| eq_vector := [f64_of_Z 1; f64_of_Z 2]; eq_k := None |}).
  pose (zero := f64_of_Z 0).
  exact (proj1 (proj2 (answers_bounded hx_config hx_api hx_one {| lq_limit := None; lq_offset := None |} q vector
    {| rq_latitude := zero; rq_longitude := zero; rq_radius_km := zero; rq_limit := None |}
    {| bq_min_lat := zero; bq_min_lon := zero; bq_max_lat := zero; bq_max_lon := zero; bq_limit := None |}
    {| nq_latitude := zero; nq_longitude := zero; nq_k := None |}))).
Defined.

Lemma stored_query_reads_back_witness :
  match store_query_handler hx_config hx_stored hx_empty with
  | (Some (Ok r), s') =>
    r.1 = CREATED ∧ ∃ h d, hexad_get hx_config (stored_id hx_empty) s' = Ok (Some h) ∧
      h_document h = Some d ∧ doc_body d = "SELECT * FROM hexads" ∧ is_query_hexad h = true
  | _ => False
  end.
Proof.
  assert (match (store_query_handler hx_config hx_stored hx_empty).1 with Some (Ok _) => true | _ => false end
    = true) as Hok by (vm_compute; reflexivity).
  pose proof (stored_query_reads_back hx_config hx_stored hx_empty) as H.
  destruct (store_query_handler hx_config hx_stored hx_empty) as [[[r|e]|] s']; [|discriminate Hok..].
  destruct H as (_ & _ & _ & H). destruct (H r eq_refl eq_refl) as (h & d & Hg & -> & _ & Hd & Hb & _ & Hq).
  split; [reflexivity|]. exists h, d. split_and!; assumption.
Defined.

(** ** Queries as text *)

#[local] Existing Instance no_digits.
#[local] Instance drift_order : HashIter DriftType := elements_iter DriftType.

Definition hx_around : Surroundings :=
  {| su_drift_detector := DriftDetector_new (utc 0) DriftThresholds_default;
     su_normalizer := Normalizer_new NormalizerConfig_default; su_version := "0.1.0"; su_uptime := 7;
     su_now := utc 0 |}.

Lemma tokenize_words_witness :
  tokenize (" " +:+ "SEARCH" +:+ lay_out [("  ", "TEXT"); (" ", "'two words'")] " ")
  = ["SEARCH"; "TEXT"; "'two words'"].
Proof.
  apply (tokenize_words " " "SEARCH" [("  ", "TEXT"); (" ", "'two words'")] " ").
  - vm_compute. naive_solver.
  - apply plain_word_word. vm_compute. naive_solver.
  - done.
  - unfold separated. rewrite !Forall_cons, Forall_nil. split_and!; try done; try (vm_compute; naive_solver).
    + apply plain_word_word. vm_compute. naive_solver.
    + apply (quoted_word "two words"). vm_compute. naive_solver.
  - vm_compute. naive_solver.
Defined.

Lemma plain_quotable s : forallb (λ a, negb (bool_decide (a = quote))) (String.list_ascii_of_string s) = true →
  starts_continuation s = false → quotable s.
Proof.
  intros Hs Hc. split; [|exact Hc]. clear Hc. induction s as [|a s IH]; [exact I|].
  apply andb_prop in Hs as [Ha Hs]. split; [|by apply IH].
  intros ->. by rewrite bool_decide_true in Ha.
Qed.


Lemma vql_rest_agree_witness :
  vql_execute_handler hx_config hx_api hx_around (select_query "id-9") hx_one
  = (Some (Err (ApiNotFound (missing_hexad "id-9"))), hx_one).
Proof.
  assert (quotable "id-9") as Hq by (apply plain_quotable; reflexivity).
  destruct (vql_rest_agree hx_config hx_api hx_around "id-9" hx_one Hq (proj2 valid_other)) as [-> _].
  f_equal.
Defined.

Lemma insert_into_loses_commas_witness :
  vql_execute_handler hx_config hx_api hx_around (insert_into_query "Lovelace, Ada" "x") hx_empty
  = inserted hx_config "Lovelace  Ada" "x" hx_empty.
Proof.
  exact (proj2 (insert_into_loses_commas hx_config hx_api hx_around "Lovelace, Ada" "x" hx_empty
    (plain_quotable "Lovelace, Ada" eq_refl eq_refl) (plain_quotable "x" eq_refl eq_refl))).
Defined.

Lemma lone_quote_panics_witness :
  vql_execute_handler hx_config hx_api hx_around "SEARCH TEXT '" hx_one = (None, hx_one).
Proof. exact (proj1 (lone_quote_panics hx_config hx_api hx_around hx_one)). Defined.

(** ** The planner of the API on concrete inputs

    A plan of two steps analyzed, and a search text that poisons the planner. *)

#[local] Existing Instance milli_chrono.
#[local] Existing Instance ascii_unicode.
#[local] Existing Instance ascii_char.
#[local] Existing Instance small_sha256.
#[local] Existing Instance px_duration.
#[local] Existing Instance px_names.
#[local] Existing Instance no_fixed.
#[local] Instance modality_order : HashIter Modality := elements_iter Modality.
#[local] Instance no_log2 : Log2 := {| f64_log2 := λ x, x |}.
#[local] Instance no_debug : DebugCondition := {| debug_condition := λ _, "" |}.

Definition fresh_planner : Planner :=
  {| pl_config := PlannerConfig_default; pl_stats := StatisticsCollector_new (moment 0) |}.

Definition node_of (m : Modality) (cs : list ConditionKind) : PlanNode :=
  {| pn_modality := m; pn_conditions := cs; pn_projections := []; pn_early_limit := None |}.

Definition plan_of (nodes : list PlanNode) : LogicalPlan :=
  {| lp_source := SHexad; lp_nodes := nodes; lp_post_processing := [] |}.

Definition plain_plan : LogicalPlan :=
  plan_of [node_of Vector [Similarity 5]; node_of Document [Fulltext "ada"]].

Definition analyzed : ExplainAnalyzeRequest :=
  {| aq_plan := plain_plan; aq_simulated_timings := Some [f64_of_Z 9] |}.

Lemma explain_analyze_made_up_witness :
  match optimize fresh_planner plain_plan with
  | Some (Ok physical) =>
    ∃ out, (query_explain_analyze_handler analyzed (moment 1) (moment 2) (moment 3)
              {| mx_poisoned := false; mx_value := fresh_planner |}).1 = Some (Ok out) ∧
      qp_steps (ea_profile out) = imap (made_up (Some [f64_of_Z 9]) (moment 2)) (pp_steps physical)
  | _ => False
  end.
Proof.
  assert (match optimize fresh_planner plain_plan with Some (Ok _) => true | _ => false end = true) as Hok
    by (vm_compute; reflexivity).
  destruct (optimize fresh_planner plain_plan) as [[physical|e]|] eqn:E; [|discriminate Hok..].
  destruct (explain_analyze_made_up analyzed (moment 1) (moment 2) (moment 3) fresh_planner physical E)
    as (out & -> & Hs).
  exists out. split; [reflexivity|exact Hs].
Defined.

(** Nineteen letters and a character of two bytes: byte 20 is inside it. *)
Definition cut_text : string :=
  "abcdefghijklmnopqrs" +:+ String.String (Ascii.ascii_of_nat 195) (String.String (Ascii.ascii_of_nat 169) "").

Definition cut_plan : LogicalPlan := plan_of [node_of Document [Fulltext cut_text]].

Lemma cut_plan_unprintable : ¬ printable cut_plan.
Proof.
  intros H. apply Forall_inv in H. apply H. exists cut_text. split_and!; [by left|vm_compute; lia|].
  vm_compute. reflexivity.
Qed.

Lemma planner_poisoned_for_good_witness :
  ∃ answers p',
    serve_all [RStats; RPlan plain_plan; RExplain cut_plan; RGetConfig; RPlan plain_plan]
      {| mx_poisoned := false; mx_value := fresh_planner |}
    = (answers ++ [None; lock_poisoned; lock_poisoned], {| mx_poisoned := true; mx_value := p' |}) ∧
    length answers = 2%nat ∧ Forall is_Some answers.
Proof.
  apply (planner_poisoned_for_good fresh_planner [RStats; RPlan plain_plan] (RExplain cut_plan)
           [RGetConfig; RPlan plain_plan]).
  - assert (printable plain_plan) as Hp.
    { apply Forall_forall. intros node Hn Hu%optimization_hint_None. revert Hu. repeat (apply elem_of_cons in Hn as [->|Hn]; [vm_compute; discriminate|]). by apply elem_of_nil in Hn. }
    constructor; [by intros plan|]. constructor; [by intros plan [= <-]|constructor].
  - intros H. exact (cut_plan_unprintable (H cut_plan eq_refl)).
Defined.

(** ** Transactions of the API on concrete inputs

    A clock with a readable text, and the theorems of [ApiTxnSpec.v] applied to short runs. *)

#[local] Existing Instance milli_chrono.
#[local] Existing Instance toy_sha256.

#[local] Existing Instance decimal_text.
#[local] Existing Instance decimal_text_laws.

Definition pid : Z := 4711.

Definition config2 : TransactionConfig := {| max_concurrent := 2; timeout_seconds := 300 |}.

Definition create_op (entity : string) : BufferedOperation :=
  {| bo_entity_id := entity; bo_operation := Create; bo_payload := []; bo_timestamp := "now" |}.

Definition id1 : string := Eval vm_compute in transaction_id_new pid (at_time 1).
Definition id2 : string := Eval vm_compute in transaction_id_new pid (at_time 2).

(** The first client begins, the second one works in between. *)
Definition m1 : TransactionManager :=
  Eval vm_compute in (begin pid (at_time 1) (at_time 1) (manager_new config2)).2.

Definition between : list call :=
  [CBegin (at_time 2) (at_time 2); CBuffer id1 (create_op "a"); CBuffer id2 (create_op "b");
   CRollback (at_time 3) id2; CBuffer id1 (create_op "c")].


(** That commit succeeds, with the two operations of its own client. *)
Example two_operations_committed :
  (commit (at_time 4) id1 (after_all pid between m1)).1 = Ok [create_op "a"; create_op "c"].
Proof. vm_compute. reflexivity. Qed.

(** Ten minutes later the committed transaction and the active one are both old. *)
Definition old_run : list call :=
  [CBegin (at_time 1) (at_time 1); CBegin (at_time 2) (at_time 2); CBuffer id2 (create_op "b");
   CCommit (at_time 3) id1].

Lemma cleanup_exact_witness :
  (2 + size (tm_txns (manager_new config2)) =
   size (tm_txns (after_all pid old_run (manager_new config2))))%nat ∧
  ∀ id t, tm_txns (after_all pid old_run (manager_new config2)) !! id = Some t → ∃ last,
    (tx_state t = Active → tx_started_at t = rfc3339 last) ∧
    (tx_state t ≠ Active → tx_completed_at t = Some (rfc3339 last)) ∧
    let old := to_signed 64
                 (timeout_seconds (tm_config (after_all pid old_run (manager_new config2)))) * 10 ^ 9 <?
                 signed_duration_since (at_time 600000) last in
    tm_txns (manager_new config2) !! id = (if old then None else Some t) ∧
    (old = true → (commit (at_time 600000) id (manager_new config2)).1 = Err (NotFound id)).
Proof.
  apply (cleanup_exact pid config2 old_run (at_time 600000) 2 (manager_new config2)).
  vm_compute. reflexivity.
Defined.

(** The clock reads the same when the second transaction begins. *)
Lemma same_nanosecond_replaces_witness :
  let '(r2, m2) := begin pid (at_time 1) (at_time 1)
                     (after_all pid [CBuffer id1 (create_op "a")] m1) in
  let '(r, m3) := commit (at_time 1) id1 (after_all pid [CBuffer id1 (create_op "b")] m2) in
  r2 = Ok id1 ∧ r = Ok (buffered id1 [CBuffer id1 (create_op "b")]) ∧
  (commit (at_time 1) id1 m3).1 = Err (AlreadyCommitted id1).
Proof.
  apply (same_nanosecond_replaces pid (manager_new config2) m1 (at_time 1) (at_time 1) (at_time 1)
           (at_time 1) id1 [CBuffer id1 (create_op "a")] [CBuffer id1 (create_op "b")]).
  - vm_compute. reflexivity.
  - reflexivity.
  - vm_compute. lia.
  - repeat constructor; cbn; tauto.
Defined.

(** ** The server and its federation on concrete inputs

    Witnesses of the theorems of [Federation.v] and [ApiServer.v]: a server with three peers,
    asked by clients that have no key. *)

#[local] Existing Instance hx_chrono.
#[local] Existing Instance hx_digest.
#[local] Existing Instance hx_platform.
#[local] Existing Instance hx_tantivy.
#[local] Existing Instance hx_powi.
#[local] Existing Instance hx_backends.
#[local] Existing Instance hx_laws.
#[local] Existing Instance hx_spatial.
#[local] Existing Instance hx_provenance.
#[local] Existing Instance ascii_unicode.
#[local] Existing Instance ascii_char.
#[local] Existing Instance blank_trim.
#[local] Existing Instance small_sha256.
#[local] Existing Instance px_duration.
#[local] Existing Instance toy_claims.
#[local] Existing Instance toy_json.
#[local] Existing Instance no_digits.
#[local] Existing Instance no_log2.
#[local] Existing Instance no_debug.
#[local] Existing Instance whole_numbers.
#[local] Existing Instance decimal_text.
#[local] Existing Instance hx_names.
#[local] Existing Instance hx_uuids.
#[local] Existing Instance modality_order.
#[local] Existing Instance drift_order.

(** ** Federation *)

(** Whole numbers. *)
#[local] Instance whole_json : SerdeNumber :=
  {| Number := Z;
     as_f64 := λ n, let x := f64_of_Z n in if f64_is_nan x then None else Some x;
     as_u64 := λ n, if decide (0 ≤ n < 2 ^ 64) then Some n else None |}.

#[local] Instance whole_json_laws : SerdeNumberLaws.
Proof. split. cbn. intros n x. destruct (f64_is_nan (f64_of_Z n)) eqn:Hn; [done|]. by intros [= <-]. Qed.

Definition oxford : RegisterRequest :=
  {| gr_store_id := "oxford"; gr_endpoint := "http://oxford"; gr_modalities := ["graph"];
     gr_secret := Some "k" |}.

Definition two_keys : option string := Some "oxford:k, bath : j".

Definition registered_oxford : FederationState :=
  (register_peer "now" oxford (FederationState_new two_keys "self" "http://self")).2.

Lemma oxford_run :
  rtc federation_step (federation_start two_keys "self" "http://self")
    {| fu_state := registered_oxford; fu_waiting := ["oxford"] |}.
Proof.
  eapply rtc_l; [eapply (step_register "now" oxford); apply surjective_pairing|].
  eapply rtc_l; [apply (step_validate "oxford" (Some "k")); vm_compute; reflexivity|].
  apply rtc_refl.
Qed.

Definition ask : FederationQueryRequest :=
  {| fq_pattern := "*"; fq_modalities := ["graph"]; fq_drift_policy := Strict; fq_limit := None;
     fq_text_query := Some "ada"; fq_vector_query := None |}.

Lemma federation_trust_witness :
  (choose_stores ask registered_oxford).2 = [] ∧
  validate_peer_header "oxford" (Some "k") registered_oxford = Ok () ∧
  ∃ key, load_federation_keys two_keys !! "oxford" = Some key ∧ ("k" = key ∨ sha256_collision).
Proof.
  destruct (federation_trust two_keys "self" "http://self" _ oxford_run) as (_ & Hh & Hs).
  assert (validate_peer_header "oxford" (Some "k") registered_oxford = Ok ()) as Hv by (vm_compute; reflexivity).
  split; [apply Hs|]. split; [exact Hv|].
  destruct (Hh "oxford" (Some "k") Hv) as (key & psk & Hk & Hpsk & _ & Hor).
  exists key. split; [exact Hk|]. injection Hpsk as <-. exact Hor.
Defined.

(** Oxford finds two entities, the better one last. *)
Definition two_found : network := λ _ _,
  Some (Ok {| py_status := 200;
              py_items := Ok [JObject [("id", JString "a"); ("score", JNumber (1 : Number (SerdeNumber := whole_json)))];
                              JObject [("id", JString "b"); ("score", JNumber (2 : Number (SerdeNumber := whole_json)))]] |}).


Lemma anyone_deregisters_witness :
  (deregister_peer "oxford" registered_oxford).1 = OK ∧
  validate_peer_header "oxford" (Some "k") (deregister_peer "oxford" registered_oxford).2 = Err UNAUTHORIZED.
Proof.
  assert (is_Some (fd_peers registered_oxford !! "oxford")) as [p Hp] by (vm_compute; by eexists).
  pose proof (anyone_deregisters "oxford" p registered_oxford Hp) as H.
  destruct (deregister_peer "oxford" registered_oxford) as [status s'].
  destruct H as (Hst & _ & Hh). split; [exact Hst|exact (Hh (Some "k"))].
Defined.

(** ** The layer of authentication *)

(** No text is a plan. *)
#[local] Instance no_plans : PlanJson := {| parse_plan := λ _, Err "expected value" |}.

(** A server with one entity and one peer, and authentication on. *)
Definition guarded : AppState :=
  {| ap_hexad_store := hx_one; ap_drift_detector := DriftDetector_new (utc 0) DriftThresholds_default;
     ap_normalizer := create_default_normalizer;
     ap_planner := {| mx_poisoned := false;
                      mx_value := {| pl_config := PlannerConfig_default;
                                     pl_stats := StatisticsCollector_new (utc 0) |} |};
     ap_plan_cache := PlanCache_new CacheConfig_default; ap_slow_query_log := SlowQueryLog_with_defaults;
     ap_transaction_manager := ApiTxn.manager_new ApiTxn.TransactionConfig_default;
     ap_circuit_registry := registry_new; ap_federation := registered_oxford;
     ap_auth := AuthState_new {| Auth.ac_enabled := true; ac_allow_public_health := true;
                                 ac_rate_limit_per_minute := 0; ac_jwt_secret := None |};
     ap_config := hx_api |}.

Definition hx_world : World :=
  {| wo_now := utc; wo_secs := 0; wo_instant := 0; wo_uptime := 0; wo_process_id := 1;
     wo_version := "0.1.0"; wo_network := two_found; wo_now_text := "now" |}.

Definition from_nobody (e : Endpoint unit + MergedEndpoint) : HttpRequest :=
  {| ht_api_key := None; ht_authorization := None; ht_endpoint := e |}.

(** Nobody may delete the entity over HTTP, and may over GraphQL. *)
Lemma layer_leaves_routes_open_witness :
  (∃ message, serve id hx_world (from_nobody (inl (EDeleteHexad "id-0"))) guarded
     = (Denied (Unauthorized message), guarded)) ∧
  hexads (ap_hexad_store (serve id hx_world (from_nobody (inr (MDeleteHexad "id-0"))) guarded).2) !! "id-0" = None ∧
  fd_peers (ap_federation (serve id hx_world (from_nobody (inr (MDeregister "oxford"))) guarded).2) !! "oxford"
    = None.
Proof.
  assert (ac_enabled (as_config (ap_auth guarded)) = true) as Hen by reflexivity.
  assert (∀ e, anonymous (from_nobody e)) as Hno by (intros e; by split).
  split; [|split].
  - exact (proj1 (layer_leaves_routes_open id hx_world (from_nobody (inl (EDeleteHexad "id-0"))) guarded Hen
      (Hno _)) (EDeleteHexad "id-0") eq_refl eq_refl).
  - assert (is_ok (delete_hexad_handler "id-0" (ap_hexad_store guarded)).1 = true) as Hok by (vm_compute; reflexivity).
    assert ((delete_hexad_handler "id-0" (ap_hexad_store guarded)).1 = Ok NO_CONTENT) as Hd by (vm_compute; reflexivity).
    destruct (delete_hexad_handler "id-0" (ap_hexad_store guarded)) as [r s] eqn:E. cbn in Hd. subst r.
    destruct (proj1 (proj2 (layer_leaves_routes_open id hx_world (from_nobody (inr (MDeleteHexad "id-0"))) guarded
      Hen (Hno _))) "id-0" s eq_refl E) as [-> Hn]. exact Hn.
  - assert (is_Some (fd_peers (ap_federation guarded) !! "oxford")) as [p Hp] by (vm_compute; by eexists).
    exact (proj2 (proj2 (proj2 (layer_leaves_routes_open id hx_world (from_nobody (inr (MDeregister "oxford")))
      guarded Hen (Hno _))) "oxford" p eq_refl Hp)).
Defined.
