(* ===== verification/VqlText.v ===== *)
(** * The text of a query in the shell

    Models what [src/rust-core/verisim-repl/src] does with the text of a query: its formatter
    ([vql_fmt.rs]), the colouring and the completion of the line being typed
    ([highlighter.rs], [completer.rs]) and the linter ([linter.rs]).  A [String] is its
    characters here, a [char] its scalar value; byte offsets count their UTF-8 encoding.
    [None] is a panic, of a slice out of its range or inside a character. *)

From S2P Require Import Prelude.
From stdpp Require Import pretty.
From Stdlib Require Import NArith.
From Stdlib Require String Ascii.
Local Open Scope N_scope.

(** ** Text *)

Definition char : Type := N.
Definition text : Type := list char.

(** An ASCII literal. *)
Definition str (s : string) : text := Ascii.N_of_ascii <$> String.list_ascii_of_string s.

Definition in_range (a b : N) (c : char) : bool := (a <=? c) && (c <=? b).

(** [char::is_whitespace]: the property White_Space. *)
Definition is_whitespace (c : char) : bool :=
  in_range 9 13 c || (c =? 32) || (c =? 133) || (c =? 160) || (c =? 5760) || in_range 8192 8202 c ||
  (c =? 8232) || (c =? 8233) || (c =? 8239) || (c =? 8287) || (c =? 12288).

Definition is_ascii_digit (c : char) : bool := in_range 48 57 c.

(** The tables of Unicode that are too long to be written out. *)
Class CharTables := {
  is_alphabetic : char → bool;
  is_numeric : char → bool;
  is_uppercase : char → bool;
  to_uppercase : text → text;
  to_lowercase : text → text;
}.

Definition is_alphanumeric {CT : CharTables} (c : char) : bool := is_alphabetic c || is_numeric c.

Fixpoint drop_while (p : char → bool) (l : text) : text :=
  match l with
  | [] => []
  | c :: rest => if p c then drop_while p rest else l
  end.

Fixpoint take_while (p : char → bool) (l : text) : text :=
  match l with
  | [] => []
  | c :: rest => if p c then c :: take_while p rest else []
  end.

(** [s.trim_end_matches(p)] and [s.trim()] *)
Definition trim_end_matches (p : char → bool) (l : text) : text := reverse (drop_while p (reverse l)).

Definition trim (l : text) : text := trim_end_matches is_whitespace (drop_while is_whitespace l).

(** The lengths of the encodings. *)
Definition len_utf8 (c : char) : nat :=
  if c <? 128 then 1 else if c <? 2048 then 2 else if c <? 65536 then 3 else 4.

Definition byte_len (l : text) : nat := sum_list (len_utf8 <$> l).

(** [&s[..n]] and [&s[n..]] *)
Fixpoint slice_at (n : nat) (l : text) : option (text * text) :=
  match n, l with
  | O, _ => Some ([], l)
  | _, [] => None
  | _, c :: rest =>
    if (n <? len_utf8 c)%nat then None
    else '(a, b) ← slice_at (n - len_utf8 c) rest; Some (c :: a, b)
  end.

(** [s.starts_with(p)] *)
Fixpoint starts_with (p l : text) : bool :=
  match p, l with
  | [], _ => true
  | a :: p, b :: l => (a =? b) && starts_with p l
  | _, [] => false
  end.

(** [s.find(p)] *)
Fixpoint find (p l : text) : option nat :=
  if starts_with p l then Some 0%nat
  else match l with
       | [] => None
       | c :: rest => (λ n, (len_utf8 c + n)%nat) <$> find p rest
       end.

(** [s.ends_with(c)] *)
Definition ends_with (c : char) (l : text) : bool :=
  match last l with Some d => c =? d | None => false end.

(** [pieces.join(sep)] *)
Fixpoint join (sep : text) (pieces : list text) : text :=
  match pieces with
  | [] => []
  | [p] => p
  | p :: pieces => p ++ sep ++ join sep pieces
  end.

Definition single_quote : char := 39.
Definition double_quote : char := 34.
Definition backslash : char := 92.
Definition underscore : char := 95.
Definition minus : char := 45.
Definition plus : char := 43.
Definition space : char := 32.
Definition newline : char := 10.
Definition comma : char := 44.
Definition semicolon : char := 59.

Definition is_quote (c : char) : bool := (c =? single_quote) || (c =? double_quote).

Definition contains (words : list text) (w : text) : bool := bool_decide (w ∈ words).

(** ** Tokens of the formatter *)

Definition VQL_KEYWORDS : list text := str <$> [
    "SELECT"; "FROM"; "WHERE"; "PROOF"; "LIMIT"; "OFFSET"; "ORDER"; "BY";
    "GROUP"; "HAVING"; "AS"; "AND"; "OR"; "NOT"; "IN"; "BETWEEN"; "LIKE";
    "EXISTS"; "CONTAINS"; "SIMILAR"; "TO"; "TRAVERSE"; "DEPTH"; "THRESHOLD";
    "DRIFT"; "CONSISTENCY"; "AT"; "TIME"; "EXPLAIN"; "INSERT"; "UPDATE";
    "DELETE"; "SET"; "INTO"; "VALUES"; "CREATE"; "DROP"; "ALTER"; "JOIN";
    "ON"; "WITH"; "FEDERATION"; "STORE"; "HEXAD"; "ALL"; "ASC"; "DESC";
    "COUNT"; "SUM"; "AVG"; "MIN"; "MAX"; "DISTINCT"; "ANALYZE"].

Definition VQL_MODALITIES : list text := str <$> [
    "GRAPH"; "VECTOR"; "TENSOR"; "SEMANTIC"; "DOCUMENT"; "TEMPORAL";
    "PROVENANCE"; "SPATIAL"].

Definition CLAUSE_STARTERS : list text := str <$> [
    "SELECT"; "FROM"; "WHERE"; "ORDER"; "GROUP"; "HAVING"; "LIMIT";
    "OFFSET"; "JOIN"; "ON"; "WITH"; "SET"; "INTO"; "VALUES";
    "TRAVERSE"; "PROOF"; "EXPLAIN"].

Inductive Token :=
| Keyword (w : text)
| Modality (w : text)
| Word (w : text)
| StringLiteral (s : text)
| Number (n : text)
| Whitespace
| Punctuation (c : char).

#[export] Instance Token_eq_dec : EqDecision Token.
Proof. solve_decision. Defined.

(** A literal after its opening quote, with its closing quote, and what follows.  A backslash at
    the end takes the index past the end of the text, which the slice refuses. *)
Fixpoint literal (quote : char) (l : text) : option (text * text) :=
  match l with
  | [] => Some ([], [])
  | c :: rest =>
    if c =? quote then Some ([c], rest)
    else if c =? backslash then
      match rest with
      | [] => None
      | d :: rest => '(s, after) ← literal quote rest; Some (c :: d :: s, after)
      end
    else '(s, after) ← literal quote rest; Some (c :: s, after)
  end.

Definition span (p : char → bool) (l : text) : text * text := (take_while p l, drop_while p l).

Definition is_number_char (c : char) : bool := is_ascii_digit c || (c =? 46).

(** From the letter of the exponent on. *)
Definition exponent (l : text) : text * text :=
  match l with
  | c :: rest =>
    if (c =? 101) || (c =? 69) then
      let '(sign, rest) := match rest with
                           | d :: rest' => if (d =? plus) || (d =? minus) then ([d], rest') else ([], rest)
                           | [] => ([], rest)
                           end in
      let '(digits, rest) := span is_ascii_digit rest in
      (c :: sign ++ digits, rest)
    else ([], l)
  | [] => ([], [])
  end.

Definition number (l : text) : text * text :=
  let '(sign, l) := match l with
                    | c :: rest => if c =? minus then ([c], rest) else ([], l)
                    | [] => ([], l)
                    end in
  let '(digits, l) := span is_number_char l in
  let '(exp, l) := exponent l in
  (sign ++ digits ++ exp, l).

Definition starts_number (c : char) (rest : text) : bool :=
  is_ascii_digit c || ((c =? minus) && match rest with d :: _ => is_ascii_digit d | [] => false end).

Section fmt.
Context {CT : CharTables}.

Definition is_word_start (c : char) : bool := is_alphabetic c || (c =? underscore).
Definition is_word_char (c : char) : bool := is_alphanumeric c || (c =? underscore).

(** The token at a character, and the rest. *)
Definition next_token (ch : char) (rest : text) : option (Token * text) :=
  if is_quote ch then
    '(s, after) ← literal ch rest; Some (StringLiteral (ch :: s), after)
  else if is_whitespace ch then Some (Whitespace, drop_while is_whitespace rest)
  else if is_word_start ch then
    let '(word, after) := span is_word_char (ch :: rest) in Some (Word word, after)
  else if starts_number ch rest then
    let '(num, after) := number (ch :: rest) in Some (Number num, after)
  else Some (Punctuation ch, rest).

Fixpoint tokenize_loop (fuel : nat) (l : text) : option (list Token) :=
  match l, fuel with
  | [], _ => Some []
  | _, O => None
  | ch :: rest, S fuel =>
    '(token, rest) ← next_token ch rest;
    tokens ← tokenize_loop fuel rest;
    Some (token :: tokens)
  end.

(** Every token takes a character at least. *)
Definition tokenize (input : text) : option (list Token) := tokenize_loop (length input) input.

Definition uppercase_keyword (t : Token) : Token :=
  match t with
  | Word w =>
    let upper := to_uppercase w in
    if contains VQL_KEYWORDS upper then Keyword upper
    else if contains VQL_MODALITIES upper then Modality upper
    else Word w
  | other => other
  end.

Definition uppercase_keywords (tokens : list Token) : list Token := uppercase_keyword <$> tokens.

(** [while matches!(result.last(), Some(Token::Whitespace)) { result.pop(); }] *)
Fixpoint drop_blank (l : list Token) : list Token :=
  match l with Whitespace :: l => drop_blank l | _ => l end.

Definition pop_blank (result : list Token) : list Token := reverse (drop_blank (reverse result)).

(** [matches!(&tokens[i.saturating_sub(2)..i], [Token::Keyword(k), ..] if k == "EXPLAIN")] *)
Definition prev_is_explain (i : nat) (tokens : list Token) : bool :=
  (0 <? i)%nat && match tokens !! (i - 2)%nat with
                  | Some (Keyword k) => bool_decide (k = str "EXPLAIN")
                  | _ => false
                  end.

Record indenting := { ind_result : list Token; ind_first : bool }.

Definition is_clause_starter (t : Token) : bool :=
  match t with Keyword kw => contains CLAUSE_STARTERS kw | _ => false end.

Definition is_connective (t : Token) : bool :=
  bool_decide (t = Keyword (str "AND") ∨ t = Keyword (str "OR")).

Definition indent_step (tokens : list Token) (st : indenting) (it : nat * Token) : indenting :=
  let '(i, token) := it in
  if is_clause_starter token then
    if ind_first st then {| ind_result := ind_result st ++ [token]; ind_first := false |}
    else
      let result := pop_blank (ind_result st) in
      let before := if prev_is_explain i tokens && bool_decide (token = Keyword (str "SELECT"))
                    then Whitespace else Punctuation newline in
      {| ind_result := result ++ [before; token]; ind_first := false |}
  else if is_connective token then
    {| ind_result := pop_blank (ind_result st) ++ [Punctuation newline; Word (str "  "); token];
       ind_first := ind_first st |}
  else {| ind_result := ind_result st ++ [token]; ind_first := ind_first st |}.

Definition indent_clauses (tokens : list Token) : list Token :=
  ind_result (foldl (indent_step tokens) {| ind_result := []; ind_first := true |} (imap pair tokens)).

Definition token_text (t : Token) : text :=
  match t with
  | Keyword w | Modality w | Word w => w
  | StringLiteral s => s
  | Number n => n
  | Whitespace => []
  | Punctuation c => [c]
  end.

Definition normalize_step (result : text) (token : Token) : text :=
  match token with
  | Whitespace =>
    if bool_decide (result ≠ []) && negb (ends_with newline result) && negb (ends_with space result)
    then result ++ [space] else result
  | Punctuation c =>
    if c =? newline then trim_end_matches (N.eqb space) result ++ [newline] else result ++ [c]
  | _ => result ++ token_text token
  end.

Definition normalize_whitespace (tokens : list Token) : text := trim (foldl normalize_step [] tokens).

Definition format_vql (query : text) : option text :=
  tokens ← tokenize query;
  Some (normalize_whitespace (indent_clauses (uppercase_keywords tokens))).

(** [String::pop] *)
Definition pop (l : text) : text := reverse (tail (reverse l)).

(** The text so far, and whether it ends in a space that was put there. *)
Definition compact_step (st : text * bool) (token : Token) : text * bool :=
  let '(result, prev_was_space) := st in
  match token with
  | Whitespace =>
    if negb prev_was_space && bool_decide (result ≠ []) then (result ++ [space], true) else st
  | Punctuation c =>
    if (c =? comma) || (c =? semicolon) then
      let result := if ends_with space result then pop result else result in
      (result ++ [c; space], true)
    else (result ++ [c], false)
  | _ => (result ++ token_text token, false)
  end.

Definition format_vql_compact (query : text) : option text :=
  tokens ← tokenize query;
  Some (trim (foldl compact_step ([], false) (uppercase_keywords tokens)).1).

End fmt.

(** ** Colours *)

Inductive Style := Yellow | BrightMagenta | GreenBold | BlueBold | Cyan | RedBold | Dimmed | BrightCyan.

(** The [colored] crate: what is written to show a text in a style. *)
Class Colored := { paint : Style → text → text }.

(** The keywords of the highlighter and of the completer. *)
Definition SHELL_KEYWORDS : list text := str <$> [
    "SELECT"; "FROM"; "WHERE"; "PROOF"; "LIMIT"; "OFFSET"; "ORDER"; "BY";
    "GROUP"; "HAVING"; "AS"; "AND"; "OR"; "NOT"; "IN"; "BETWEEN"; "LIKE";
    "EXISTS"; "CONTAINS"; "SIMILAR"; "TO"; "TRAVERSE"; "DEPTH"; "THRESHOLD";
    "DRIFT"; "CONSISTENCY"; "AT"; "TIME"; "EXPLAIN"; "INSERT"; "UPDATE";
    "DELETE"; "SET"; "INTO"; "VALUES"; "CREATE"; "DROP"; "ALTER"; "JOIN";
    "ON"; "WITH"; "FEDERATION"; "STORE"; "HEXAD"; "ALL"; "ASC"; "DESC";
    "COUNT"; "SUM"; "AVG"; "MIN"; "MAX"; "DISTINCT"].

Section highlight.
Context {CT : CharTables} {CO : Colored}.

Definition colour_word (word : text) : text :=
  let upper := to_uppercase word in
  if contains VQL_MODALITIES upper then paint GreenBold word
  else if contains SHELL_KEYWORDS upper then paint BlueBold word
  else word.

(** What is written for the token at a character, and the rest; [first] at index 0. *)
Definition highlight_token (first : bool) (ch : char) (rest : text) : option (text * text) :=
  if is_quote ch then '(s, after) ← literal ch rest; Some (paint Yellow (ch :: s), after)
  else if (ch =? backslash) && first then Some (paint BrightMagenta (ch :: rest), [])
  else if is_word_start ch then
    let '(word, after) := span is_word_char (ch :: rest) in Some (colour_word word, after)
  else if starts_number ch rest then
    let '(num, after) := number (ch :: rest) in Some (paint Cyan num, after)
  else Some ([ch], rest).

Fixpoint highlight_loop (fuel : nat) (first : bool) (l : text) : option text :=
  match l, fuel with
  | [], _ => Some []
  | _, O => None
  | ch :: rest, S fuel =>
    '(shown, rest) ← highlight_token first ch rest;
    shown_rest ← highlight_loop fuel false rest;
    Some (shown ++ shown_rest)
  end.

Definition highlight_line (line : text) : option text := highlight_loop (length line) true line.

End highlight.

(** ** Completion *)

Definition META_COMMANDS : list text := str <$> [
    "\connect"; "\explain"; "\timing"; "\format"; "\status"; "\help"; "\quit"; "\q"].

Definition encode_utf8 (c : char) : list N :=
  if c <? 128 then [c]
  else if c <? 2048 then [192 + c / 64; 128 + c mod 64]
  else if c <? 65536 then [224 + c / 4096; 128 + c / 64 mod 64; 128 + c mod 64]
  else [240 + c / 262144; 128 + c / 4096 mod 64; 128 + c / 64 mod 64; 128 + c mod 64].

Definition as_bytes (l : text) : list N := l ≫= encode_utf8.

(** [bytes[start - 1] as char] takes a byte for the character of its value. *)
Definition is_delimiter (byte : N) : bool :=
  is_whitespace byte || (byte =? 40) || (byte =? 41) || (byte =? comma) || (byte =? semicolon).

Fixpoint word_start (bytes : list N) (start : nat) : option nat :=
  match start with
  | O => Some 0%nat
  | S before => ch ← bytes !! before; if is_delimiter ch then Some start else word_start bytes before
  end.

Definition find_word_start (line : text) (pos : nat) : option (nat * text) :=
  start ← word_start (as_bytes line) pos;
  '(before_pos, _) ← slice_at pos line;
  '(_, prefix) ← slice_at start before_pos;
  Some (start, prefix).

Record Pair := { display : text; replacement : text }.

Section complete.
Context {CT : CharTables}.

Definition completions (use_upper : bool) (upper_prefix : text) (names : list text) : list Pair :=
  (λ name, {| display := name; replacement := if use_upper then name else to_lowercase name |}) <$>
    filter (λ name, starts_with upper_prefix name = true) names.

Definition complete (line : text) (pos : nat) : option (nat * list Pair) :=
  '(start, prefix) ← find_word_start line pos;
  if bool_decide (prefix = []) then Some (start, [])
  else
    let upper_prefix := to_uppercase prefix in
    if starts_with [backslash] prefix then
      Some (start, (λ cmd, {| display := cmd; replacement := cmd |}) <$>
                     filter (λ cmd, starts_with (to_lowercase prefix) cmd = true) META_COMMANDS)
    else
      let use_upper := forallb (λ c, is_uppercase c || negb (is_alphabetic c)) prefix in
      Some (start, completions use_upper upper_prefix VQL_MODALITIES ++
                   completions use_upper upper_prefix SHELL_KEYWORDS).

End complete.

(** ** The linter *)

Inductive Severity := Hint | Warning | Error.

#[export] Instance Severity_eq_dec : EqDecision Severity.
Proof. solve_decision. Defined.

Definition severity_rank (s : Severity) : Z := match s with Hint => 0 | Warning => 1 | Error => 2 end.

Inductive LintRule :=
| MissingLimit | SelectAllModalities | MissingProof | UnboundedTraverse | MissingThreshold
| OrderByWithoutLimit | DangerousWrite | UnknownProofType | RedundantWhere
| MultiModalityNoExplain | FederationWithoutStore.

#[export] Instance LintRule_eq_dec : EqDecision LintRule.
Proof. solve_decision. Defined.

Definition rule_to_string (r : LintRule) : text :=
  str match r with
      | MissingLimit => "VQL001" | SelectAllModalities => "VQL002" | MissingProof => "VQL003"
      | UnboundedTraverse => "VQL004" | MissingThreshold => "VQL005"
      | OrderByWithoutLimit => "VQL006" | DangerousWrite => "VQL007" | UnknownProofType => "VQL008"
      | RedundantWhere => "VQL009" | MultiModalityNoExplain => "VQL010"
      | FederationWithoutStore => "VQL011"
      end.

(** A dash between two texts. *)
Definition dashed (a b : string) : text := str a ++ [space; 8212; space] ++ str b.

Definition description (r : LintRule) : text :=
  match r with
  | MissingLimit => dashed "Query lacks LIMIT clause" "may return unbounded results"
  | SelectAllModalities =>
    dashed "Query selects all 8 modalities" "consider selecting only what you need"
  | MissingProof =>
    dashed "Semantic modality accessed without PROOF clause" "data integrity not verified"
  | UnboundedTraverse => dashed "TRAVERSE without DEPTH limit" "may explore entire graph"
  | MissingThreshold =>
    dashed "DRIFT/CONSISTENCY check without THRESHOLD" "using implicit default"
  | OrderByWithoutLimit =>
    dashed "ORDER BY without LIMIT" "sorting potentially unbounded result set"
  | DangerousWrite => dashed "DELETE/UPDATE without WHERE clause" "affects all entities"
  | UnknownProofType => str "Unrecognized proof type in PROOF clause"
  | RedundantWhere => str "WHERE clause appears redundant (always true condition)"
  | MultiModalityNoExplain =>
    dashed "Multi-modality query" "consider running EXPLAIN first to review the plan"
  | FederationWithoutStore =>
    dashed "FEDERATION query without STORE" "will query all federated instances"
  end.

Record LintDiagnostic := {
  ld_rule : LintRule; ld_severity : Severity; ld_message : text; ld_offset : nat;
}.

Definition KNOWN_PROOF_TYPES : list text := str <$> [
    "EXISTENCE"; "CONSISTENCY"; "INTEGRITY"; "AUTHENTICITY";
    "PROVENANCE"; "ACCESS"; "CITATION"; "ZKP"; "PLONK"].

Fixpoint split_from (current l : text) : list text :=
  match l with
  | [] => if bool_decide (current = []) then [] else [current]
  | c :: l =>
    if is_whitespace c then
      if bool_decide (current = []) then split_from [] l else current :: split_from [] l
    else split_from (current ++ [c]) l
  end.

(** [upper.split_whitespace().collect()] *)
Definition tokenize_upper (upper : text) : list text := split_from [] upper.

Section lint.
Context {CT : CharTables}.

Definition diagnose (rule : LintRule) (severity : Severity) (offset : nat) : LintDiagnostic :=
  {| ld_rule := rule; ld_severity := severity; ld_message := description rule; ld_offset := offset |}.

Definition has (tokens : list text) (w : string) : bool := contains tokens (str w).

Definition find_or_zero (w upper : text) : nat := default 0%nat (find w upper).

Definition modality_count (tokens : list text) : nat :=
  length (filter (λ m, contains tokens m = true) VQL_MODALITIES).

Definition when (b : bool) (d : LintDiagnostic) : list LintDiagnostic := if b then [d] else [].

(** [tokens.iter().position(|t| *t == w)] and the token after it *)
Fixpoint token_after (w : text) (tokens : list text) : option text :=
  match tokens with
  | [] => None
  | t :: tokens => if bool_decide (t = w) then head tokens else token_after w tokens
  end.

Definition proof_type_diagnostic (tokens : list text) (upper : text) : list LintDiagnostic :=
  match token_after (str "PROOF") tokens with
  | Some proof_type =>
    when (negb (contains KNOWN_PROOF_TYPES proof_type) && bool_decide (proof_type ≠ []))
      {| ld_rule := UnknownProofType; ld_severity := Warning;
         ld_message := str "Unknown proof type '" ++ proof_type ++ str "' " ++ [8212] ++
                         str " known types: " ++ join (str ", ") KNOWN_PROOF_TYPES;
         ld_offset := find_or_zero proof_type upper |}
  | None => []
  end.

Definition trivially_true (after_where : text) : bool :=
  starts_with (str "1=1") after_where || starts_with (str "1 = 1") after_where ||
  starts_with (str "TRUE") after_where.

Definition redundant_where_diagnostic (upper : text) : option (list LintDiagnostic) :=
  let where_pos := find_or_zero (str "WHERE") upper in
  '(_, after) ← slice_at (where_pos + 5) upper;
  Some (when (trivially_true (drop_while is_whitespace after)) (diagnose RedundantWhere Hint where_pos)).

Definition is_dangerous (tokens : list text) : bool :=
  (has tokens "DELETE" || has tokens "UPDATE") && negb (has tokens "WHERE").

Definition lint_unsorted (query : text) : option (list LintDiagnostic) :=
  let upper := to_uppercase query in
  let tokens := tokenize_upper upper in
  let has := has tokens in
  let at_word w := find_or_zero (str w) upper in
  redundant ← (if has "WHERE" then redundant_where_diagnostic upper else Some []);
  Some (
    when (has "SELECT" && negb (has "LIMIT") && negb (has "EXPLAIN")) (diagnose MissingLimit Warning 0) ++
    when (has "SELECT" && (8 <=? modality_count tokens)%nat) (diagnose SelectAllModalities Hint 0) ++
    when (has "SEMANTIC" && negb (has "PROOF") && has "SELECT")
      (diagnose MissingProof Warning (at_word "SEMANTIC")) ++
    when (has "TRAVERSE" && negb (has "DEPTH")) (diagnose UnboundedTraverse Error (at_word "TRAVERSE")) ++
    when ((has "DRIFT" || has "CONSISTENCY") && negb (has "THRESHOLD"))
      (diagnose MissingThreshold Hint
         match find (str "DRIFT") upper with Some n => n | None => at_word "CONSISTENCY" end) ++
    when (has "ORDER" && negb (has "LIMIT") && has "SELECT")
      (diagnose OrderByWithoutLimit Warning (at_word "ORDER")) ++
    when (is_dangerous tokens) (diagnose DangerousWrite Error 0) ++
    (if has "PROOF" then proof_type_diagnostic tokens upper else []) ++
    redundant ++
    when (has "SELECT" && negb (has "EXPLAIN") && (3 <=? modality_count tokens)%nat)
      (diagnose MultiModalityNoExplain Hint 0) ++
    when (has "FEDERATION" && negb (has "STORE"))
      (diagnose FederationWithoutStore Warning (at_word "FEDERATION"))).

Definition lint_query (query : text) : option (list LintDiagnostic) :=
  sort_by_key (λ d, - severity_rank (ld_severity d))%Z <$> lint_unsorted query.

Definition is_error (d : LintDiagnostic) : bool := bool_decide (ld_severity d = Error).

Definition has_errors (query : text) : option bool := existsb is_error <$> lint_query query.

End lint.

Definition count_severity (s : Severity) (diagnostics : list LintDiagnostic) : nat :=
  length (filter (λ d, ld_severity d = s) diagnostics).

Definition show_nat (n : nat) : text := str (pretty n).

Definition shortened (query : text) : option text :=
  if (60 <? byte_len query)%nat then
    '(front, _) ← slice_at 57 query; Some (front ++ str "...")
  else Some query.

Definition format_diagnostics (query : text) (diagnostics : list LintDiagnostic) : option text :=
  if bool_decide (length diagnostics = 0%nat) then Some []
  else
    shown ← shortened query;
    Some (
      (diagnostics ≫= λ d, str "  " ++ rule_to_string (ld_rule d) ++ [space] ++ ld_message d ++ [newline]) ++
      [newline] ++ str "  " ++ show_nat (count_severity Error diagnostics) ++ str " error(s), " ++
      show_nat (count_severity Warning diagnostics) ++ str " warning(s), " ++
      show_nat (count_severity Hint diagnostics) ++ str " hint(s) in: " ++ shown ++ [newline]).
