(* ===== verification/VqlTextSpec.v ===== *)
(** * What the shell does to a query

    The formatters keep the tokens of a query; a line panics the highlighter exactly while it
    ends in an escape inside a literal, and the text it shows is the line; what the linter
    reports; and where the completer cuts the line. *)

From stdpp Require Import pretty.
From S2P Require Import Prelude VqlText.
From Stdlib Require Import NArith.
From Stdlib Require String Ascii.
Local Open Scope N_scope.

(** What the tables of Unicode say of ASCII, of white space, and of the letter E. *)
Class CharLaws (CT : CharTables) := {
  ascii_alphabetic : ∀ c, c < 128 → is_alphabetic c = in_range 65 90 c || in_range 97 122 c;
  ascii_numeric : ∀ c, c < 128 → is_numeric c = is_ascii_digit c;
  whitespace_not_alphanumeric : ∀ c, is_whitespace c = true → is_alphanumeric c = false;
  uppercase_capitals : ∀ w, Forall (λ c, in_range 65 90 c = true) w → to_uppercase w = w;
  uppercase_E : ∀ w t, to_uppercase w = 69 :: t → ∃ c u, w = c :: u ∧ (c = 69 ∨ c = 101);
}.

#[local] Arguments span : simpl never.
#[local] Arguments str : simpl never.
#[local] Opaque VQL_KEYWORDS VQL_MODALITIES.

(** ** Spans *)

Lemma span_app p l : (span p l).1 ++ (span p l).2 = l.
Proof.
  unfold span. cbn. induction l as [|c l IH]; [done|]. cbn. destruct (p c); [|done].
  cbn. by rewrite IH.
Qed.

(** Whether the first character passes a test. *)
Definition head_test (p : char → bool) (l : text) : bool := match l with c :: _ => p c | [] => false end.

Lemma span_iff p l k : span p (l ++ k) = (l, k) ↔ Forall (λ c, p c = true) l ∧ head_test p k = false.
Proof.
  unfold span. induction l as [|c l IH]; cbn.
  - destruct k as [|c k]; cbn; [naive_solver|]. destruct (p c); naive_solver.
  - rewrite Forall_cons. destruct (p c) eqn:Hc; [|naive_solver]. split.
    + intros [= H1 H2]. rewrite H1, H2 in IH. naive_solver.
    + intros [[_ Hl] Hk]. destruct IH as [_ IH]. specialize (IH (conj Hl Hk)).
      injection IH as H1 H2. by rewrite H1, H2.
Qed.

Lemma span_inv p l a b :
  span p l = (a, b) → l = a ++ b ∧ Forall (λ c, p c = true) a ∧ head_test p b = false.
Proof.
  intros H. pose proof (span_app p l) as Hl. rewrite H in Hl. cbn in Hl. subst l.
  split; [done|]. by apply span_iff.
Qed.

(** ** Quotes *)

(** Where a text ends: outside any literal, inside one, or after a backslash inside one. *)
Inductive quoting := Outside | Inside (quote : char) | Escaped (quote : char).

Definition quote_step (st : quoting) (c : char) : quoting :=
  match st with
  | Outside => if is_quote c then Inside c else Outside
  | Inside q => if c =? q then Outside else if c =? backslash then Escaped q else Inside q
  | Escaped q => Inside q
  end.

Definition quote_state (l : text) : quoting := foldl quote_step Outside l.

Lemma literal_spec q : ∀ n l, (length l ≤ n)%nat →
  match literal q l with
  | None => foldl quote_step (Inside q) l = Escaped q
  | Some (s, after) =>
    l = s ++ after ∧
    ((foldl quote_step (Inside q) s = Outside ∧ (∀ k, literal q (s ++ k) = Some (s, k)) ∧ last s = Some q) ∨
     (after = [] ∧ foldl quote_step (Inside q) s = Inside q))
  end.
Proof.
  induction n as [|n IH]; intros [|c l] Hn; cbn in Hn; try lia; [cbn; naive_solver..|].
  cbn [literal]. destruct (c =? q) eqn:Hq.
  { split; [done|]. left. cbn. rewrite Hq. apply N.eqb_eq in Hq as ->. naive_solver. }
  destruct (c =? backslash) eqn:Hb.
  - destruct l as [|d l]; cbn in Hn; [cbn; by rewrite Hq, Hb|].
    specialize (IH l ltac:(lia)). destruct (literal q l) as [[s after]|]; cbn;
      rewrite Hq, Hb; [|done].
    destruct IH as [-> [(Hs & Hk & Hl)|[-> Hs]]]; (split; [done|]); [left|by right].
    split; [done|]. split; [intros k; by rewrite Hk|]. by rewrite !last_cons, Hl.
  - specialize (IH l ltac:(lia)). destruct (literal q l) as [[s after]|]; cbn;
      rewrite Hq, Hb; [|done].
    destruct IH as [-> [(Hs & Hk & Hl)|[-> Hs]]]; (split; [done|]); [left|by right].
    split; [done|]. split; [intros k; by rewrite Hk|]. by rewrite !last_cons, Hl.
Qed.

Lemma quoteless_state l : Forall (λ c, is_quote c = false) l → quote_state l = Outside.
Proof.
  unfold quote_state. induction l as [|c l IH]; [done|]. intros [Hc Hl]%Forall_cons. cbn.
  rewrite Hc. by apply IH.
Qed.

Lemma number_app l : (number l).1 ++ (number l).2 = l.
Proof.
  assert (∀ l, (exponent l).1 ++ (exponent l).2 = l) as He.
  { intros [|c k]; [done|]. unfold exponent. destruct (_ || _); [|done].
    destruct k as [|d k]; [done|]. destruct ((d =? plus) || (d =? minus)).
    - destruct (span _ k) as [a b] eqn:E. apply span_inv in E as [-> _]. cbn. done.
    - destruct (span _ _) as [a b] eqn:E. apply span_inv in E as [E _]. cbn in *. by rewrite E. }
  assert (∀ k, (let '(digits, r) := span is_number_char k in let '(exp, r) := exponent r in
                (digits ++ exp) ++ r) = k) as Hk.
  { intros k. destruct (span _ k) as [a b] eqn:E. apply span_inv in E as [-> _].
    specialize (He b). destruct (exponent b) as [e r]. cbn in He. by rewrite <- app_assoc, He. }
  unfold number. destruct l as [|c l]; [done|]. destruct (c =? minus).
  - specialize (Hk l). destruct (span _ l) as [a b]. destruct (exponent b) as [e r]. cbn. by rewrite Hk.
  - specialize (Hk (c :: l)). destruct (span _ _) as [a b]. destruct (exponent b) as [e r]. cbn. done.
Qed.

(** The tests a scan makes of the character after its token. *)
Definition is_exponent (c : char) : bool := (c =? 101) || (c =? 69).
Definition is_sign (c : char) : bool := (c =? plus) || (c =? minus).

Lemma exponent_shape l e r :
  exponent l = (e, r) →
  (e = [] ∧ r = l ∧ head_test is_exponent l = false) ∨
  ∃ c sign digits, e = c :: sign ++ digits ∧ is_exponent c = true ∧
    Forall (λ c, is_ascii_digit c = true) digits ∧ head_test is_ascii_digit r = false ∧
    ((sign = [] ∧ head_test is_sign (digits ++ r) = false) ∨ ∃ d, sign = [d] ∧ is_sign d = true).
Proof.
  destruct l as [|c k]; cbn; [intros [= <- <-]; by left|].
  fold (is_exponent c). destruct (is_exponent c) eqn:Hc; [|intros [= <- <-]; by left].
  intros H. right. exists c. destruct k as [|d k].
  { injection H as <- <-. exists [], []. naive_solver. }
  fold (is_sign d) in H. destruct (is_sign d) eqn:Hd.
  - destruct (span _ k) as [a b] eqn:E. apply span_inv in E as (-> & Ha & Hb).
    injection H as <- <-. exists [d], a. naive_solver.
  - destruct (span _ (d :: k)) as [a b] eqn:E. apply span_inv in E as (E & Ha & Hb).
    injection H as <- <-. exists [], a. split_and!; try done. left. split; [done|].
    rewrite <- E. exact Hd.
Qed.

Lemma exponent_reads c sign digits r :
  is_exponent c = true → Forall (λ c, is_ascii_digit c = true) digits → head_test is_ascii_digit r = false →
  ((sign = [] ∧ head_test is_sign (digits ++ r) = false) ∨ ∃ d, sign = [d] ∧ is_sign d = true) →
  exponent ((c :: sign ++ digits) ++ r) = (c :: sign ++ digits, r).
Proof.
  intros Hc Hd Hr Hs. assert (span is_ascii_digit (digits ++ r) = (digits, r)) as E by by apply span_iff.
  cbn. fold (is_exponent c). rewrite Hc. destruct Hs as [[-> Hs]|(d & -> & Hs)]; cbn.
  - destruct (digits ++ r) as [|d k] eqn:Ek; cbn in Hs.
    + apply app_nil in Ek as [-> ->]. done.
    + fold (is_sign d). rewrite Hs, E. done.
  - fold (is_sign d). rewrite Hs, E. done.
Qed.

(** A text that a scan leaves where it left another: it passes no test that the other fails. *)
Definition similar {CT : CharTables} (r r' : text) : Prop :=
  ∀ p, p ∈ [is_number_char; is_exponent; is_sign; is_ascii_digit; is_word_char] →
       head_test p r' = true → head_test p r = true.

Lemma similar_false {CT : CharTables} r r' p :
  similar r r' → p ∈ [is_number_char; is_exponent; is_sign; is_ascii_digit; is_word_char] →
  head_test p r = false → head_test p r' = false.
Proof.
  intros Hs Hp Hr. apply not_true_iff_false. intros H. apply Hs in H; [|done]. congruence.
Qed.

Lemma exponent_stable {CT : CharTables} e r r' :
  exponent (e ++ r) = (e, r) → similar r r' → exponent (e ++ r') = (e, r').
Proof.
  intros H Hs. apply exponent_shape in H as [(-> & _ & H)|(c & sign & digits & -> & Hc & Hd & Hr & Hsign)].
  - pose proof (similar_false _ _ is_exponent Hs ltac:(set_solver) H) as H'.
    cbn. destruct r' as [|c k]; [done|]. cbn in H'. unfold exponent. fold (is_exponent c). by rewrite H'.
  - apply exponent_reads; [done|done|by eapply similar_false; [| |done]; [done|set_solver]|].
    destruct Hsign as [[-> Hsign]|?]; [left|by right]. split; [done|].
    destruct digits as [|d digits]; [|done]. cbn in *. by eapply similar_false; [| |done]; [done|set_solver].
Qed.

Definition number_tail (l : text) : text * text :=
  let '(digits, l) := span is_number_char l in
  let '(exp, l) := exponent l in (digits ++ exp, l).

Lemma number_tail_stable {CT : CharTables} n r r' :
  number_tail (n ++ r) = (n, r) → similar r r' → number_tail (n ++ r') = (n, r').
Proof.
  unfold number_tail. intros H Hs. destruct (span _ (n ++ r)) as [a b] eqn:E.
  apply span_inv in E as (E & Ha & Hb). destruct (exponent b) as [e k] eqn:Ee.
  injection H as <- ->. rewrite <- app_assoc in E. apply app_inv_head in E. subst b.
  assert (head_test is_number_char (e ++ r') = false) as Hb'.
  { destruct e as [|c e]; [|done]. by eapply similar_false; [| |done]; [done|set_solver]. }
  rewrite <- app_assoc, (proj2 (span_iff is_number_char a (e ++ r')) (conj Ha Hb')).
  by rewrite (exponent_stable _ _ _ Ee Hs).
Qed.

Lemma number_eq c l :
  number (c :: l) = if c =? minus then (c :: (number_tail l).1, (number_tail l).2) else number_tail (c :: l).
Proof.
  unfold number, number_tail. destruct (c =? minus).
  - destruct (span _ l) as [a b], (exponent b) as [e r]. done.
  - destruct (span _ _) as [a b], (exponent b) as [e r]. done.
Qed.

Lemma number_stable {CT : CharTables} c n r r' :
  number (c :: n ++ r) = (c :: n, r) → similar r r' → number (c :: n ++ r') = (c :: n, r').
Proof.
  rewrite !number_eq. destruct (c =? minus).
  - intros [= H1 H2] Hs. destruct (number_tail (n ++ r)) as [a b] eqn:E. cbn in *. subst a b.
    by rewrite (number_tail_stable _ _ _ E Hs).
  - intros H Hs. exact (number_tail_stable (c :: n) r r' H Hs).
Qed.

Definition number_char (c : char) : bool := is_number_char c || is_exponent c || is_sign c.

Lemma Forall_bool_weaken (p q : char → bool) (l : text) :
  (∀ c, p c = true → q c = true) → Forall (λ c, p c = true) l → Forall (λ c, q c = true) l.
Proof. intros Hpq Hl. exact (Forall_impl _ _ _ Hl Hpq). Qed.

Lemma digit_number_char c : is_ascii_digit c = true → number_char c = true.
Proof. intros H. unfold number_char, is_number_char. by rewrite H. Qed.

Lemma number_tail_chars l n r : number_tail l = (n, r) → Forall (λ c, number_char c = true) n.
Proof.
  unfold number_tail. destruct (span _ l) as [a b] eqn:E. apply span_inv in E as (_ & Ha & _).
  destruct (exponent b) as [e k] eqn:Ee. intros [= <- <-]. apply Forall_app. split.
  - revert Ha. apply Forall_bool_weaken. intros c Hc. unfold number_char. by rewrite Hc.
  - apply exponent_shape in Ee as [(-> & _)|(c & sign & digits & -> & Hc & Hd & _ & Hs)]; [done|].
    apply Forall_cons. split; [unfold number_char; by rewrite Hc, orb_true_r|].
    apply Forall_app. split.
    + destruct Hs as [[-> _]|(d & -> & Hs)]; [done|]. apply Forall_singleton.
      unfold number_char. by rewrite Hs, orb_true_r.
    + revert Hd. apply Forall_bool_weaken, digit_number_char.
Qed.

Lemma number_shape ch rest n after :
  starts_number ch rest = true → number (ch :: rest) = (n, after) →
  ∃ m, n = ch :: m ∧ Forall (λ c, number_char c = true) n ∧ rest = m ++ after.
Proof.
  intros Hs H. pose proof (number_app (ch :: rest)) as Happ. rewrite H in Happ. cbn in Happ.
  rewrite number_eq in H. destruct (ch =? minus) eqn:Hm.
  - destruct (number_tail rest) as [m k] eqn:E. injection H as <- <-. exists m.
    split_and!; [done| |by injection Happ].
    apply Forall_cons. split; [|by eapply number_tail_chars].
    unfold number_char, is_sign. by rewrite Hm, !orb_true_r.
  - unfold starts_number in Hs. rewrite Hm, orb_false_r in Hs.
    pose proof (number_tail_chars _ _ _ H) as Hn. unfold number_tail in H. unfold span in H. cbn in H.
    unfold is_number_char at 1 3 in H. rewrite Hs in H. cbn in H.
    destruct (exponent _) as [e k]. injection H as <- <-. eexists. split; [done|].
    split; [exact Hn|]. by injection Happ.
Qed.

Section format.
Context {CT : CharTables} {CL : CharLaws CT}.

(** ** One token *)

Lemma ascii_word_char c :
  c < 128 → is_word_char c = in_range 65 90 c || in_range 97 122 c || is_ascii_digit c || (c =? underscore).
Proof.
  intros Hc. unfold is_word_char, is_alphanumeric. by rewrite ascii_alphabetic, ascii_numeric by done.
Qed.

Lemma quote_facts c :
  is_quote c = true → is_word_char c = false ∧ number_char c = false ∧ is_whitespace c = false.
Proof.
  unfold is_quote. rewrite orb_true_iff, !N.eqb_eq. intros [->| ->]; rewrite ascii_word_char by done; done.
Qed.

Lemma not_quote (p : char → bool) c :
  (∀ c, is_quote c = true → p c = false) → p c = true → is_quote c = false.
Proof. intros Hp Hc. apply not_true_iff_false. intros Hq. apply Hp in Hq. congruence. Qed.

Lemma word_start_char c : is_word_start c = true → is_word_char c = true.
Proof.
  unfold is_word_start, is_word_char, is_alphanumeric. rewrite !orb_true_iff. naive_solver.
Qed.

(** What the scan of a token read. *)
Inductive read (ch : char) (rest : text) : Token → text → Prop :=
| read_literal s after :
  is_quote ch = true → literal ch rest = Some (s, after) → read ch rest (StringLiteral (ch :: s)) after
| read_blank after :
  is_quote ch = false → is_whitespace ch = true → after = drop_while is_whitespace rest →
  read ch rest Whitespace after
| read_word w after :
  is_quote ch = false → is_whitespace ch = false → is_word_start ch = true → rest = w ++ after →
  Forall (λ c, is_word_char c = true) w → head_test is_word_char after = false →
  read ch rest (Word (ch :: w)) after
| read_number n after :
  is_quote ch = false → is_whitespace ch = false → is_word_start ch = false → starts_number ch rest = true →
  rest = n ++ after → Forall (λ c, number_char c = true) (ch :: n) → number (ch :: rest) = (ch :: n, after) →
  read ch rest (Number (ch :: n)) after
| read_punctuation :
  is_quote ch = false → is_whitespace ch = false → is_word_start ch = false → starts_number ch rest = false →
  read ch rest (Punctuation ch) rest.

Lemma next_token_read ch rest t after : next_token ch rest = Some (t, after) → read ch rest t after.
Proof.
  unfold next_token. destruct (is_quote ch) eqn:Hq.
  { destruct (literal ch rest) as [[s k]|] eqn:E; cbn; [|done]. intros [= <- <-]. by constructor. }
  destruct (is_whitespace ch) eqn:Hw; [intros [= <- <-]; by constructor|].
  destruct (is_word_start ch) eqn:Hs.
  { destruct (span _ _) as [w k] eqn:E. intros [= <- <-]. unfold span in E. cbn in E.
    rewrite (word_start_char _ Hs) in E. injection E as <- <-.
    destruct (span_inv is_word_char rest _ _ eq_refl) as (Hr & Hf & Ht). by constructor. }
  destruct (starts_number ch rest) eqn:Hn; [|intros [= <- <-]; by constructor].
  destruct (number _) as [n k] eqn:E. intros [= <- <-].
  destruct (number_shape _ _ _ _ Hn E) as (m & -> & Hf & Hr). by constructor.
Qed.

Lemma read_next_token ch rest t after : read ch rest t after → next_token ch rest = Some (t, after).
Proof.
  unfold next_token. intros [s k Hq Hl|k Hq Hw ->|w k Hq Hw Hs Hr Hf Ht|n k Hq Hw Hs Hn Hr Hf He|Hq Hw Hs Hn];
    rewrite Hq; try rewrite Hw; try rewrite Hs; try rewrite Hn; try done.
  - by rewrite Hl.
  - subst rest. assert (span is_word_char (ch :: w ++ k) = (ch :: w, k)) as -> ; [|done].
    apply (span_iff _ (ch :: w)). split; [|done]. apply Forall_cons. by split; [apply word_start_char|].
  - by rewrite He.
Qed.

(** ** Scanning a text *)

Inductive lexed : text → list Token → Prop :=
| lexed_nil : lexed [] []
| lexed_cons ch rest t after ts : read ch rest t after → lexed after ts → lexed (ch :: rest) (t :: ts).

(** Not an open literal. *)
Definition closed (t : Token) : Prop := ∀ s, t = StringLiteral s → quote_state s = Outside.

Lemma quote_state_app l k : quote_state l = Outside → quote_state (l ++ k) = quote_state k.
Proof. intros H. unfold quote_state in *. by rewrite foldl_app, H. Qed.

Lemma quoteless (p : char → bool) l :
  (∀ c, is_quote c = true → p c = false) → Forall (λ c, p c = true) l → quote_state l = Outside.
Proof.
  intros Hp Hl. apply quoteless_state. refine (Forall_impl _ _ _ Hl _). intros c. by apply not_quote.
Qed.

Lemma read_state ch rest t after :
  read ch rest t after →
  ∃ raw, rest = raw ++ after ∧
    ((quote_state (ch :: raw) = Outside ∧ closed t) ∨ (after = [] ∧ quote_state (ch :: raw) = Inside ch)).
Proof.
  intros [s k Hq Hl|k Hq Hw ->|w k Hq Hw Hs Hr Hf Ht|n k Hq Hw Hs Hn Hr Hf He|Hq Hw Hs Hn].
  - pose proof (literal_spec ch _ rest (le_n _)) as H. rewrite Hl in H.
    destruct H as [-> H]. exists s. split; [done|].
    unfold closed, quote_state. cbn. rewrite Hq.
    destruct H as [[H _]|H]; [left|by right]. split; [done|]. intros ? [= <-]. cbn. by rewrite Hq.
  - exists (take_while is_whitespace rest). split; [symmetry; apply (span_app is_whitespace rest)|]. left.
    split; [|done]. apply (quoteless is_whitespace); [apply quote_facts|].
    apply Forall_cons. split; [done|].
    by destruct (span_inv is_whitespace rest _ _ eq_refl) as (_ & ? & _).
  - exists w. split; [done|]. left. split; [|done].
    apply (quoteless is_word_char); [apply quote_facts|]. apply Forall_cons. by split; [apply word_start_char|].
  - exists n. split; [done|]. left. split; [|done]. by apply (quoteless number_char); [apply quote_facts|].
  - exists []. split; [done|]. left. split; [|done]. unfold quote_state. cbn. by rewrite Hq.
Qed.

Lemma read_shorter ch rest t after : read ch rest t after → (length after ≤ length rest)%nat.
Proof. intros (raw & -> & _)%read_state. rewrite length_app. lia. Qed.

Lemma read_total ch rest :
  next_token ch rest = None → quote_state (ch :: rest) = Escaped ch.
Proof.
  unfold next_token. destruct (is_quote ch) eqn:Hq.
  - pose proof (literal_spec ch _ rest (le_n _)) as H. destruct (literal ch rest) as [[]|]; [done|].
    intros _. unfold quote_state. cbn. by rewrite Hq.
  - destruct (is_whitespace ch); [done|]. destruct (is_word_start ch); [by destruct (span _ _)|].
    destruct (starts_number ch rest); [by destruct (number _)|done].
Qed.

Lemma lexed_tokenize_loop l ts : lexed l ts → ∀ fuel, (length l ≤ fuel)%nat → tokenize_loop fuel l = Some ts.
Proof.
  induction 1 as [|ch rest t after ts Hr Hl IH]; intros [|fuel] Hf; cbn in Hf; try lia; [done..|].
  pose proof (read_shorter _ _ _ _ Hr). cbn.
  rewrite (read_next_token _ _ _ _ Hr). cbn. by rewrite IH by lia.
Qed.

Lemma tokenize_loop_spec fuel : ∀ l, (length l ≤ fuel)%nat →
  match tokenize_loop fuel l with
  | Some ts => lexed l ts
  | None => ∃ c, quote_state l = Escaped c
  end.
Proof.
  induction fuel as [|fuel IH]; intros [|ch rest] Hf; cbn in Hf; try lia; [constructor..|]. cbn.
  destruct (next_token ch rest) as [[t after]|] eqn:E; cbn; [|exists ch; by apply read_total].
  apply next_token_read in E. pose proof (read_shorter _ _ _ _ E).
  specialize (IH after ltac:(lia)). destruct (tokenize_loop fuel after) as [ts|]; cbn; [by econstructor|].
  destruct IH as [c Hc]. exists c. destruct (read_state _ _ _ _ E) as (raw & -> & [[Ho _]|[-> _]]); [|done].
  rewrite <- Hc. exact (quote_state_app (ch :: raw) after Ho).
Qed.

Lemma tokenize_lexed l ts : tokenize l = Some ts ↔ lexed l ts.
Proof.
  split; [|intros H; by apply lexed_tokenize_loop]. intros H.
  pose proof (tokenize_loop_spec (length l) l (le_n _)) as Hs. unfold tokenize in H. by rewrite H in Hs.
Qed.

Lemma lexed_not_escaped l ts : lexed l ts → ∀ c, quote_state l ≠ Escaped c.
Proof.
  induction 1 as [|ch rest t after ts Hr Hl IH]; intros c; [done|].
  destruct (read_state _ _ _ _ Hr) as (raw & -> & [[Ho _]|[-> Hi]]).
  - change (ch :: raw ++ after) with ((ch :: raw) ++ after). rewrite quote_state_app by done. apply IH.
  - rewrite app_nil_r, Hi. done.
Qed.

(** A query panics the formatter exactly when it ends in a backslash inside a literal. *)
Lemma tokenize_panics l : tokenize l = None ↔ ∃ c, quote_state l = Escaped c.
Proof.
  unfold tokenize. pose proof (tokenize_loop_spec (length l) l (le_n _)) as Hs.
  destruct (tokenize_loop _ l) as [ts|]; [|done]. split; [done|].
  intros [c Hc]. by destruct (lexed_not_escaped _ _ Hs c).
Qed.

Lemma lexed_closed l ts : lexed l ts → quote_state l = Outside → Forall closed ts.
Proof.
  induction 1 as [|ch rest t after ts Hr Hl IH]; intros Ho; [constructor|].
  destruct (read_state _ _ _ _ Hr) as (raw & -> & [[Hr' Hc]|[-> Hi]]).
  - constructor; [done|]. apply IH. rewrite <- Ho. symmetry. exact (quote_state_app (ch :: raw) after Hr').
  - rewrite app_nil_r in Ho. congruence.
Qed.

(** ** A token in another place *)

(** A token whose text is read as itself before [k]. *)
Definition reads (t : Token) (k : text) : Prop :=
  ∃ ch body, token_text t = ch :: body ∧ read ch (body ++ k) t k.

Lemma read_reads ch rest t k :
  read ch rest t k → t ≠ Whitespace → reads t k ∧ ∃ body, token_text t = ch :: body ∧ rest = body ++ k.
Proof.
  intros Hr Ht.
  assert (∃ body, token_text t = ch :: body ∧ rest = body ++ k) as (body & Hb & ->);
    [|by split; [exists ch, body|exists body]].
  destruct Hr as [s k Hq Hl|k Hq Hw ->|w k Hq Hw Hs Hr Hf Hh|n k Hq Hw Hs Hn Hr Hf He|Hq Hw Hs Hn];
    [|done|by exists w|by exists n|by exists []].
  exists s. split; [done|]. pose proof (literal_spec ch _ rest (le_n _)) as H. rewrite Hl in H.
  by destruct H as [-> _].
Qed.

Lemma starts_number_eq ch k :
  starts_number ch k = is_ascii_digit ch || ((ch =? minus) && head_test is_ascii_digit k).
Proof. by destruct k. Qed.

Lemma minus_number k : head_test is_ascii_digit k = true → number (minus :: k) ≠ ([minus], k).
Proof.
  destruct k as [|d k]; [done|]. cbn [head_test]. intros Hd. rewrite number_eq. cbn [N.eqb].
  intros [= H]. revert H. unfold number_tail, span. cbn. unfold is_number_char at 1 3. rewrite Hd. cbn.
  by destruct (exponent _).
Qed.

Lemma starts_number_stable ch n k k' :
  starts_number ch (n ++ k) = true → number (ch :: n ++ k) = (ch :: n, k) →
  starts_number ch (n ++ k') = true.
Proof.
  rewrite !starts_number_eq. destruct (is_ascii_digit ch); [done|]. cbn.
  destruct n as [|d n]; [|done]. rewrite andb_true_iff, N.eqb_eq. intros [-> Hk] Hn.
  by destruct (minus_number k Hk).
Qed.

Lemma reads_stable t k k' : reads t k → closed t → similar k k' → reads t k'.
Proof.
  intros (ch & body & Ht & Hr) Hc Hs. exists ch, body. split; [done|].
  inversion Hr as [s k0 Hq Hl|k0 Hq Hw E|w k0 Hq Hw Hw' E Hf Hh|n k0 Hq Hw Hw' Hn E Hf He|Hq Hw Hw' Hn E];
    subst; cbn in Ht; try done; injection Ht as Hbody.
  - subst s. apply read_literal; [done|]. pose proof (literal_spec ch _ (body ++ k) (le_n _)) as H.
    rewrite Hl in H. destruct H as [_ [(_ & H & _)|[_ H]]]; [apply H|].
    specialize (Hc _ eq_refl). unfold quote_state in Hc. cbn in Hc. rewrite Hq in Hc. congruence.
  - subst w. apply read_word; try done. by eapply similar_false; [| |done]; [done|set_solver].
  - subst n. apply read_number; try done; [by eapply starts_number_stable|by eapply number_stable].
  - destruct body; [|done]. apply read_punctuation; try done. cbn in *. rewrite starts_number_eq in *.
    apply orb_false_iff in Hn as [-> Hn]. cbn. destruct (ch =? minus); [|done]. cbn in *.
    by eapply similar_false; [| |done]; [done|set_solver].
Qed.

(** ** Capitals *)

Definition capital (c : char) : bool := in_range 65 90 c.

Lemma in_range_iff a b c : in_range a b c = true ↔ a ≤ c ≤ b.
Proof. unfold in_range. rewrite andb_true_iff, !N.leb_le. done. Qed.

Lemma capital_word_start c :
  capital c = true → is_quote c = false ∧ is_whitespace c = false ∧ is_word_start c = true.
Proof.
  intros H. pose proof H as [? ?]%in_range_iff. split_and!.
  - apply not_true_iff_false. unfold is_quote. rewrite orb_true_iff, !N.eqb_eq.
    unfold single_quote, double_quote. lia.
  - apply not_true_iff_false. intros Hw. apply whitespace_not_alphanumeric in Hw.
    unfold is_alphanumeric in Hw. rewrite ascii_alphabetic in Hw by lia. unfold capital in H. by rewrite H in Hw.
  - unfold is_word_start. rewrite ascii_alphabetic by lia. unfold capital in H. by rewrite H.
Qed.

Lemma known_word_capital w :
  w ∈ VQL_KEYWORDS ++ VQL_MODALITIES → ∃ c u, w = c :: u ∧ Forall (λ c, capital c = true) w.
Proof.
  assert (forallb (λ w, match w with [] => false | _ => forallb capital w end)
            (VQL_KEYWORDS ++ VQL_MODALITIES) = true) as H by (vm_compute; reflexivity).
  rewrite forallb_forall in H. intros Hw%list_elem_of_In%H. destruct w as [|c u]; [done|]. exists c, u.
  split; [done|]. apply Forall_forall. intros d Hd. rewrite forallb_forall in Hw.
  by apply Hw, list_elem_of_In.
Qed.

Lemma reads_capitals w k :
  w ∈ VQL_KEYWORDS ++ VQL_MODALITIES → head_test is_word_char k = false → reads (Word w) k.
Proof.
  intros (c & u & -> & [Hc Hu]%Forall_cons)%known_word_capital Hk.
  destruct (capital_word_start c Hc) as (Hq & Hw & Hs). exists c, u. split; [done|].
  apply read_word; try done. revert Hu. apply Forall_bool_weaken. intros d Hd.
  by apply word_start_char, capital_word_start.
Qed.

(** ** Upper case *)

(** How a token of the formatter is read. *)
Definition as_read (t : Token) : Token :=
  match t with Keyword w | Modality w => Word w | t => t end.

Lemma as_read_text t : token_text (as_read t) = token_text t.
Proof. by destruct t. Qed.

Lemma uppercase_cases t :
  uppercase_keyword t = t ∨
  ∃ w, t = Word w ∧ to_uppercase w ∈ VQL_KEYWORDS ++ VQL_MODALITIES ∧
       (uppercase_keyword t = Keyword (to_uppercase w) ∨ uppercase_keyword t = Modality (to_uppercase w)) ∧
       as_read (uppercase_keyword t) = Word (to_uppercase w).
Proof.
  destruct t as [| |w| | | |]; try (by left). cbn [uppercase_keyword]. unfold contains.
  case_bool_decide as Hk; [|case_bool_decide as Hm; [|by left]]; right; exists w;
    (split; [done|]; split; [apply elem_of_app; by auto|]); by auto.
Qed.

Lemma uppercase_again w :
  w ∈ VQL_KEYWORDS ++ VQL_MODALITIES → to_uppercase w = w.
Proof. intros (c & u & _ & Hw)%known_word_capital. by apply uppercase_capitals. Qed.

Lemma uppercase_as_read ch rest t k :
  read ch rest t k → uppercase_keyword (as_read (uppercase_keyword t)) = uppercase_keyword t.
Proof.
  intros Hr. destruct (uppercase_cases t) as [E|(w & -> & Hw & Hk & ->)].
  - rewrite E. assert (as_read t = t) as -> by by destruct Hr. exact E.
  - cbn [uppercase_keyword]. rewrite (uppercase_again _ Hw). unfold contains.
    apply elem_of_app in Hw. repeat case_bool_decide; tauto.
Qed.

Lemma upper_reads ch rest t k k' :
  read ch rest t k → t ≠ Whitespace → closed t → similar k k' → reads (as_read (uppercase_keyword t)) k'.
Proof.
  intros Hr Ht Hc Hs. destruct (uppercase_cases t) as [->|(w & -> & Hw & Hk & ->)].
  - assert (as_read t = t) as -> by by destruct Hr. apply (reads_stable _ k); [|done..].
    by apply (read_reads ch rest).
  - apply reads_capitals; [done|]. inversion Hr; subst.
    apply (similar_false k k' is_word_char Hs); [clear; set_solver|assumption].
Qed.

(** ** Neighbours *)

Definition blank (l : text) : Prop := Forall (λ c, is_whitespace c = true) l.

Definition blank_head (k : text) : Prop := k = [] ∨ head_test is_whitespace k = true.

(** [t2] may follow [t1] immediately. *)
Definition joined (t1 t2 : Token) : Prop := ∀ k, reads (as_read t1) (token_text t2 ++ k).

(** A token that is read as itself before white space, at the end and before a comma, and whose
    text neither begins nor ends in white space. *)
Definition sound (t : Token) : Prop :=
  (∀ k, blank_head k ∨ head_test (λ c, (c =? comma) || (c =? semicolon)) k = true → reads (as_read t) k) ∧
  (∃ c l, token_text t = c :: l ∧ is_whitespace c = false) ∧
  (∃ c l, token_text t = l ++ [c] ∧ is_whitespace c = false) ∧
  uppercase_keyword (as_read t) = t ∧ as_read t ≠ Whitespace.

Lemma whitespace_similar k k' : blank_head k' → similar k k'.
Proof.
  intros [->|Hk] p Hp Ht; [done|]. destruct k' as [|c k']; [done|]. cbn in Hk, Ht. exfalso.
  assert (is_word_char c = true ∨ number_char c = true) as H.
  { repeat (apply elem_of_cons in Hp as [->|Hp];
      [first [by left|right; by apply digit_number_char|right; unfold number_char; by rewrite Ht, ?orb_true_r]|]).
    by apply elem_of_nil in Hp. }
  destruct H as [H|H].
  - pose proof (whitespace_not_alphanumeric _ Hk) as Ha. unfold is_word_char in H.
    rewrite Ha in H. apply N.eqb_eq in H. by subst.
  - revert Hk H. unfold is_whitespace, number_char, is_number_char, is_exponent, is_sign, is_ascii_digit, plus, minus.
    rewrite !orb_true_iff, !in_range_iff, !N.eqb_eq. lia.
Qed.

Lemma comma_similar k k' : head_test (λ c, (c =? comma) || (c =? semicolon)) k' = true → similar k k'.
Proof.
  intros Hk p Hp Ht. destruct k' as [|c k']; [done|]. cbn in Hk, Ht. exfalso.
  apply orb_true_iff in Hk as [->%N.eqb_eq| ->%N.eqb_eq];
    repeat (apply elem_of_cons in Hp as [->|Hp]; [by revert Ht; rewrite ?ascii_word_char by done|]);
    by apply elem_of_nil in Hp.
Qed.

Lemma same_head_similar c k k' : similar (c :: k) (c :: k').
Proof. intros p _ H. exact H. Qed.

(** The first letter of a keyword, where the word it came from began. *)
Lemma upper_similar c w k k' c' u :
  to_uppercase (c :: w) = c' :: u → capital c' = true → is_word_start c = true →
  similar (c :: k) (c' :: k').
Proof.
  intros Hu Hc Hs p Hp. cbn. pose proof Hc as [? ?]%in_range_iff.
  repeat (apply elem_of_cons in Hp as [->|Hp]); [..|by apply elem_of_nil in Hp].
  - unfold is_number_char, is_ascii_digit. rewrite orb_true_iff, in_range_iff, N.eqb_eq. lia.
  - unfold is_exponent. rewrite !orb_true_iff, !N.eqb_eq. intros [->| ->]; [lia|].
    apply uppercase_E in Hu as (d & v & [= -> ->] & ?). tauto.
  - unfold is_sign. rewrite orb_true_iff, !N.eqb_eq. unfold plus, minus. lia.
  - unfold is_ascii_digit. rewrite in_range_iff. lia.
  - intros _. by apply word_start_char.
Qed.

Lemma upper_head_similar ch rest t after k :
  read ch rest t after → t ≠ Whitespace → similar (ch :: rest) (token_text (uppercase_keyword t) ++ k).
Proof.
  intros Hr Ht. destruct (proj2 (read_reads _ _ _ _ Hr Ht)) as (body & Hb & _).
  destruct (uppercase_cases t) as [->|(w & -> & Hw & _ & E)].
  - rewrite Hb. apply same_head_similar.
  - rewrite <- (as_read_text (uppercase_keyword _)), E. cbn in Hb |- *. subst w.
    destruct (known_word_capital _ Hw) as (c & u & Hu & Hc). rewrite Hu in *.
    apply Forall_cons in Hc as [Hc _]. inversion Hr; subst. by eapply upper_similar.
Qed.

Lemma lexed_joined l t1 t2 ts :
  lexed l (t1 :: t2 :: ts) → closed t1 → t1 ≠ Whitespace → t2 ≠ Whitespace →
  joined (uppercase_keyword t1) (uppercase_keyword t2).
Proof.
  intros Hl Hc H1 H2 k. inversion Hl as [|ch rest ? after ? Hr Hl2]; subst.
  inversion Hl2 as [|ch2 rest2 ? after2 ? Hr2 _]; subst.
  eapply upper_reads; [done..|]. by eapply upper_head_similar.
Qed.

Lemma whitespace_not c : is_word_char c = true ∨ number_char c = true ∨ is_quote c = true → is_whitespace c = false.
Proof.
  intros H. apply not_true_iff_false. intros Hw. destruct H as [H|[H|H]].
  - pose proof (whitespace_not_alphanumeric _ Hw) as Ha. unfold is_word_char in H.
    rewrite Ha in H. apply N.eqb_eq in H. by subst.
  - revert Hw H. unfold is_whitespace, number_char, is_number_char, is_exponent, is_sign, is_ascii_digit, plus, minus.
    rewrite !orb_true_iff, !in_range_iff, !N.eqb_eq. lia.
  - apply quote_facts in H as (_ & _ & H). congruence.
Qed.

Lemma last_not_blank c l :
  Forall (λ c, is_whitespace c = false) (c :: l) → ∃ d k, c :: l = k ++ [d] ∧ is_whitespace d = false.
Proof.
  intros H. destruct (exists_last (l := c :: l)) as (k & d & E); [done|]. exists d, k. split; [done|].
  rewrite E in H. apply Forall_app in H as [_ H]. by inversion H.
Qed.

Lemma nonblank_text (p : char → bool) l :
  (∀ c, p c = true → is_whitespace c = false) → Forall (λ c, p c = true) l →
  Forall (λ c, is_whitespace c = false) l.
Proof. intros Hp Hl. exact (Forall_impl _ _ _ Hl Hp). Qed.

Lemma read_ends ch rest t k :
  read ch rest t k → t ≠ Whitespace → closed t →
  is_whitespace ch = false ∧ ∃ c l, token_text t = l ++ [c] ∧ is_whitespace c = false.
Proof.
  intros [s k' Hq Hl|k' Hq Hw ->|w k' Hq Hw Hs Hr Hf Hh|n k' Hq Hw Hs Hn Hr Hf He|Hq Hw Hs Hn] Ht Hc;
    try done.
  - destruct (quote_facts _ Hq) as (_ & _ & Hw). split; [done|]. exists ch.
    pose proof (literal_spec ch _ rest (le_n _)) as H. rewrite Hl in H.
    destruct H as [_ [(_ & _ & H)|[_ H]]].
    + apply last_Some in H as [l ->]. by exists (ch :: l).
    + specialize (Hc _ eq_refl). unfold quote_state in Hc. cbn in Hc. rewrite Hq in Hc. congruence.
  - split; [done|]. cbn. destruct (last_not_blank ch w) as (d & l & E & Hd); [|by exists d, l].
    apply (nonblank_text is_word_char); [intros; apply whitespace_not; by left|].
    apply Forall_cons. by split; [apply word_start_char|].
  - split; [done|]. cbn. destruct (last_not_blank ch n) as (d & l & E & Hd); [|by exists d, l].
    apply (nonblank_text number_char); [intros; apply whitespace_not; by auto|done].
  - split; [done|]. by exists ch, [].
Qed.

Lemma read_sound ch rest t k :
  read ch rest t k → t ≠ Whitespace → closed t → sound (uppercase_keyword t).
Proof.
  intros Hr Ht Hc. destruct (read_ends _ _ _ _ Hr Ht Hc) as [Hch Hlast]. split_and!.
  - intros k' [Hk|Hk]; (eapply upper_reads; [done..|]); [by apply whitespace_similar|by apply comma_similar].
  - destruct (proj2 (read_reads _ _ _ _ Hr Ht)) as (body & Hb & _).
    destruct (uppercase_cases t) as [->|(w & -> & Hw & _ & E)]; [by exists ch, body|].
    rewrite <- as_read_text, E. destruct (known_word_capital _ Hw) as (c & u & Hu & Hcap).
    exists c, u. split; [done|]. rewrite Hu in Hcap. apply Forall_cons in Hcap as [Hcap _].
    by apply capital_word_start.
  - destruct (uppercase_cases t) as [->|(w & -> & Hw & _ & E)]; [done|].
    rewrite <- as_read_text, E. destruct (known_word_capital _ Hw) as (c & u & Hu & Hcap). cbn.
    rewrite Hu in *. destruct (last_not_blank c u) as (d & l & El & Hd); [|by exists d, l].
    apply (nonblank_text capital); [|done]. intros d Hd. by apply capital_word_start.
  - by eapply uppercase_as_read.
  - destruct (uppercase_cases t) as [->|(w & -> & Hw & _ & ->)]; [|done]. by destruct Hr.
Qed.

(** ** The tokens of a query *)

Definition is_content (t : Token) : bool :=
  negb (bool_decide (t = Whitespace ∨ t = Punctuation newline ∨ t = Word (str "  "))).

(** The tokens without the white space. *)
Definition content (ts : list Token) : list Token := filter (λ t, is_content t = true) ts.

Definition adjacent (t1 t2 : Token) : Prop := is_content t1 = true → is_content t2 = true → joined t1 t2.

Lemma Sorted_snoc {A} (R : A → A → Prop) l x :
  Sorted R (l ++ [x]) ↔ Sorted R l ∧ ∀ y, last l = Some y → R y x.
Proof.
  induction l as [|a l IH]; cbn [app].
  { split; [intros _; split; [constructor|done]|intros _; repeat constructor]. }
  destruct l as [|b l]; cbn [app] in *.
  - split.
    + intros H. inversion H as [|? ? _ Hh]; subst. inversion Hh; subst.
      split; [repeat constructor|]. by intros y [= <-].
    + intros [_ H]. repeat constructor. by apply H.
  - split.
    + intros H. inversion H as [|? ? Hs Hh]; subst. apply IH in Hs as [Hs Hl]. split; [|done].
      constructor; [done|]. inversion Hh; subst. by constructor.
    + intros [H Hl]. inversion H as [|? ? Hs Hh]; subst. constructor; [apply IH; by split|].
      inversion Hh; subst. by constructor.
Qed.

Lemma uppercase_content ch rest t k :
  read ch rest t k → is_content (uppercase_keyword t) = bool_decide (t ≠ Whitespace).
Proof.
  intros Hr. unfold is_content. destruct (decide (t = Whitespace)) as [->|Ht]; [done|].
  rewrite (bool_decide_true (t ≠ _)) by done. apply negb_true_iff, bool_decide_eq_false.
  destruct (uppercase_cases t) as [->|(w & -> & Hw & [->| ->] & _)]; [|naive_solver..].
  intros [->|[-> | ->]]; [done| |]; inversion Hr; subst; done.
Qed.

Lemma lexed_uppercase l ts :
  lexed l ts → Forall closed ts →
  let us := uppercase_keywords ts in
  Sorted adjacent us ∧ Forall (λ t, is_content t = true → sound t) us.
Proof.
  induction 1 as [|ch rest t after ts Hr Hl IH]; intros Hc; cbn; [by split; constructor|].
  apply Forall_cons in Hc as [Hc Hcs]. destruct (IH Hcs) as [Hs Hf]. split.
  - constructor; [done|]. destruct ts as [|t2 ts]; cbn; constructor. intros H1 H2.
    inversion Hl as [|ch2 rest2 ? after2 ? Hr2 _]; subst.
    rewrite (uppercase_content _ _ _ _ Hr), bool_decide_eq_true in H1.
    rewrite (uppercase_content _ _ _ _ Hr2), bool_decide_eq_true in H2.
    eapply lexed_joined; [by econstructor|done..].
  - constructor; [|done]. intros H. rewrite (uppercase_content _ _ _ _ Hr), bool_decide_eq_true in H.
    by eapply read_sound.
Qed.

(** ** Indentation *)

Lemma content_app l k : content (l ++ k) = content l ++ content k.
Proof. apply filter_app. Qed.

Lemma content_single t : is_content t = true → content [t] = [t].
Proof. intros H. unfold content. rewrite filter_cons, decide_True by done. done. Qed.

Lemma content_blank t : is_content t = false → content [t] = [].
Proof. intros H. unfold content. rewrite filter_cons, decide_False by congruence. done. Qed.

Lemma pop_blank_spec l : ∃ k, l = pop_blank l ++ k ∧ Forall (λ t, t = Whitespace) k.
Proof.
  unfold pop_blank. assert (∀ r, ∃ k, r = k ++ drop_blank r ∧ Forall (λ t, t = Whitespace) k) as H.
  { induction r as [|t r (k & Hk & Hf)]; [by exists []|]. destruct t; try by exists [].
    exists (Whitespace :: k). cbn. rewrite <- Hk. split; [done|by constructor]. }
  destruct (H (reverse l)) as (k & Hk & Hf). exists (reverse k). split; [|by apply Forall_reverse].
  rewrite <- reverse_app, <- Hk. by rewrite reverse_involutive.
Qed.

Lemma pop_blank_content l : content (pop_blank l) = content l.
Proof.
  destruct (pop_blank_spec l) as (k & E & Hk). rewrite E at 2. rewrite content_app.
  replace (content k) with (@nil Token); [by rewrite app_nil_r|]. unfold content. symmetry.
  apply filter_none. refine (Forall_impl _ _ _ Hk _). by intros t ->.
Qed.

Lemma Sorted_prefix {A} (R : A → A → Prop) l k : Sorted R (l ++ k) → Sorted R l.
Proof.
  induction k as [|x k IH] using rev_ind; [by rewrite app_nil_r|].
  rewrite app_assoc, Sorted_snoc. intros [H _]. by apply IH.
Qed.

Lemma pop_blank_sorted l : Sorted adjacent l → Sorted adjacent (pop_blank l).
Proof. destruct (pop_blank_spec l) as (k & E & _). rewrite E at 1. apply Sorted_prefix. Qed.

Lemma Sorted_blank l t : Sorted adjacent l → is_content t = false → Sorted adjacent (l ++ [t]).
Proof. intros Hl Ht. apply Sorted_snoc. split; [done|]. intros y _ _ H. congruence. Qed.

Lemma Sorted_after_blank l b t :
  Sorted adjacent (l ++ [b]) → is_content b = false → Sorted adjacent (l ++ [b; t]).
Proof.
  intros Hl Hb. rewrite (app_assoc l [b] [t] : l ++ [b; t] = (l ++ [b]) ++ [t]).
  apply Sorted_snoc. split; [done|]. intros y Hy H. rewrite last_snoc in Hy. injection Hy as <-. congruence.
Qed.

(** The tokens of the result so far are those of the tokens so far. *)
Record indented (pre : list Token) (st : indenting) : Prop := {
  in_content : content (ind_result st) = content pre;
  in_sorted : Sorted adjacent (ind_result st);
  in_last : last (ind_result st) = last pre;
}.

Lemma indented_new_line pre st bs b t first :
  indented pre st → is_content t = true → Forall (λ b, is_content b = false) (bs ++ [b]) →
  indented (pre ++ [t]) {| ind_result := pop_blank (ind_result st) ++ (bs ++ [b]) ++ [t]; ind_first := first |}.
Proof.
  intros [Hc Hs Hl] Ht Hb.
  assert (content (bs ++ [b]) = []) as Hcb.
  { apply filter_none. refine (Forall_impl _ _ _ Hb _). intros x Hx. by rewrite Hx. }
  assert (Sorted adjacent (pop_blank (ind_result st) ++ bs ++ [b])) as Hsb.
  { apply pop_blank_sorted in Hs. revert Hs. generalize (pop_blank (ind_result st)).
    induction (bs ++ [b]) as [|x l IH]; intros r Hr; [by rewrite app_nil_r|].
    apply Forall_cons in Hb as [Hx Hb]. rewrite cons_middle, app_assoc. apply IH; [done| |by apply Sorted_blank].
    rewrite <- Hcb. unfold content. rewrite filter_cons, decide_False by congruence. done. }
  split; cbn.
  - rewrite !content_app, pop_blank_content, Hc. rewrite <- (content_app bs [b]), Hcb. done.
  - rewrite (app_assoc (pop_blank _) (bs ++ [b]) [t]). apply Sorted_snoc. split; [done|].
    intros y Hy Hcy. rewrite app_assoc, last_snoc in Hy. injection Hy as <-.
    apply Forall_app in Hb as [_ Hb]. inversion Hb. congruence.
  - by rewrite !app_assoc, !last_snoc.
Qed.

Lemma starter_content t : is_clause_starter t = true ∨ is_connective t = true → is_content t = true.
Proof.
  intros H. unfold is_content. apply negb_true_iff, bool_decide_eq_false.
  destruct H as [H|H]; [destruct t; try done; naive_solver|].
  apply bool_decide_eq_true in H as [->| ->]; naive_solver.
Qed.

Lemma indent_step_spec all i pre st t :
  indented pre st → Sorted adjacent (pre ++ [t]) → indented (pre ++ [t]) (indent_step all st (i, t)).
Proof.
  intros Hin Hs. pose proof Hin as [Hc Hsr Hl]. apply Sorted_snoc in Hs as [_ Hs].
  assert (∀ first, indented (pre ++ [t]) {| ind_result := ind_result st ++ [t]; ind_first := first |}) as Hpush.
  { intros first. split; cbn; [by rewrite !content_app, Hc| |by rewrite !last_snoc].
    apply Sorted_snoc. split; [done|]. by rewrite Hl. }
  unfold indent_step. destruct (is_clause_starter t) eqn:Hst.
  - destruct (ind_first st); [apply Hpush|].
    apply (indented_new_line pre st []); [done|apply starter_content; by left|].
    by destruct (_ && _); repeat constructor.
  - destruct (is_connective t) eqn:Hco; [|apply Hpush].
    apply (indented_new_line pre st [_]); [done|apply starter_content; by right|].
    by repeat constructor.
Qed.

Lemma indent_clauses_spec ts :
  Sorted adjacent ts →
  content (indent_clauses ts) = content ts ∧ Sorted adjacent (indent_clauses ts).
Proof.
  assert (∀ pre, Sorted adjacent pre →
    indented pre (foldl (indent_step ts) {| ind_result := []; ind_first := true |} (imap pair pre))) as H.
  { induction pre as [|t pre IH] using rev_ind; intros Hs; [by split; [| constructor|]|].
    rewrite imap_app, foldl_app. cbn. apply indent_step_spec; [|done]. apply IH. by eapply Sorted_prefix. }
  intros Hs. by destruct (H ts Hs).
Qed.

(** ** Tokens with white space between them *)

(** Each token after the white space before it, and the white space at the end. *)
Definition render (ps : list (text * Token)) (g : text) : text := (ps ≫= λ p, p.1 ++ token_text p.2) ++ g.

Definition well (ps : list (text * Token)) : Prop :=
  Forall (λ p, blank p.1 ∧ sound p.2) ps ∧ Sorted (λ p q, q.1 = [] → joined p.2 q.2) ps.

Lemma render_cons p ps g : render (p :: ps) g = p.1 ++ token_text p.2 ++ render ps g.
Proof. unfold render. cbn. by rewrite <- !app_assoc. Qed.

Lemma render_app ps g k : render ps (g ++ k) = render ps g ++ k.
Proof. unfold render. by rewrite app_assoc. Qed.

Lemma render_snoc ps g t : render (ps ++ [(g, t)]) [] = render ps g ++ token_text t.
Proof. unfold render. rewrite bind_app. cbn. by rewrite !app_nil_r, app_assoc. Qed.

Lemma blank_read g k : blank g → head_test is_whitespace k = false → g ≠ [] →
  ∃ c g', g = c :: g' ∧ read c (g' ++ k) Whitespace k.
Proof.
  intros Hg Hk Hn. destruct g as [|c g]; [done|]. apply Forall_cons in Hg as [Hc Hg].
  exists c, g. split; [done|]. apply read_blank; [|done|].
  - apply not_true_iff_false. intros Hq. apply quote_facts in Hq as (_ & _ & ?). congruence.
  - assert (span is_whitespace (g ++ k) = (g, k)) as E by by apply span_iff.
    unfold span in E. by injection E.
Qed.

Definition not_blank (ts : list Token) : list Token := filter (λ t, t ≠ Whitespace) ts.

Lemma lexed_blank g k ts :
  lexed k ts → blank g → head_test is_whitespace k = false →
  ∃ ts', lexed (g ++ k) ts' ∧ not_blank ts' = not_blank ts.
Proof.
  intros Hk Hg Hh. destruct (decide (g = [])) as [->|Hn]; [by exists ts|].
  destruct (blank_read g k Hg Hh Hn) as (c & g' & -> & Hr).
  exists (Whitespace :: ts). split; [by econstructor|done].
Qed.

Lemma sound_head t k : sound t → head_test is_whitespace (token_text t ++ k) = false.
Proof. intros (_ & (c & l & -> & Hc) & _). done. Qed.

(** What is rendered is read back. *)
Lemma render_lexed ps g :
  well ps → blank g → ∃ ts, lexed (render ps g) ts ∧ not_blank ts = (as_read ∘ snd) <$> ps.
Proof.
  intros [Hf Hs] Hg. induction ps as [|[g1 t1] ps IH].
  { destruct (lexed_blank g [] [] lexed_nil Hg eq_refl) as (ts & Hl & Hn).
    exists ts. split; [|done]. unfold render. cbn. by rewrite app_nil_r in Hl. }
  apply Forall_cons in Hf as [[Hg1 Ht1] Hf]. inversion Hs as [|? ? Hs' Hh]; subst.
  destruct (IH Hf Hs') as (ts & Hl & Hn). rewrite render_cons. cbn [fst snd].
  assert (reads (as_read t1) (render ps g)) as (ch & body & Hb & Hr).
  { destruct ps as [|[g2 t2] ps].
    - apply Ht1. left. unfold render. cbn. destruct g as [|c g]; [by left|right].
      by apply Forall_cons in Hg as [Hc _].
    - rewrite render_cons. cbn [fst snd]. inversion Hh as [|? ? Hj]; subst. cbn in Hj.
      apply Forall_cons in Hf as [[Hg2 _] _]. destruct g2 as [|c g2]; [by apply Hj|].
      apply Ht1. left. right. by apply Forall_cons in Hg2 as [Hc _]. }
  rewrite as_read_text in Hb.
  destruct (lexed_blank g1 (token_text t1 ++ render ps g) (as_read t1 :: ts)) as (ts' & Hl' & Hn').
  { rewrite Hb. by econstructor. }
  { done. }
  { by apply sound_head. }
  exists ts'. split; [done|]. rewrite Hn'. unfold not_blank. rewrite filter_cons.
  rewrite decide_True by apply Ht1. cbn. f_equal. exact Hn.
Qed.

(** What a formatter has written after some tokens. *)
Definition written (pre : list Token) (result : text) : Prop :=
  ∃ ps g, result = render ps g ∧ well ps ∧ blank g ∧ ps.*2 = content pre ∧
    ∀ t, last pre = Some t → is_content t = false → g ≠ [] ∨ ps = [].

Lemma well_snoc ps g t :
  well ps → blank g → sound t → (g = [] → ∀ p, last ps = Some p → joined p.2 t) →
  well (ps ++ [(g, t)]).
Proof.
  intros [Hf Hs] Hg Ht Hj. split.
  - apply Forall_app. split; [done|]. by apply Forall_singleton.
  - apply Sorted_snoc. split; [done|]. cbn. auto.
Qed.

Lemma last_content pre t :
  last pre = Some t → is_content t = true → last (content pre) = Some t.
Proof. intros [k ->]%last_Some Ht. rewrite content_app, content_single by done. by rewrite last_snoc. Qed.

(** A token is appended. *)
Lemma written_push pre result t :
  written pre result → Sorted adjacent (pre ++ [t]) → is_content t = true → sound t →
  written (pre ++ [t]) (result ++ token_text t).
Proof.
  intros (ps & g & -> & Hw & Hg & Hc & Hl) [_ Hs]%Sorted_snoc Ht Hso.
  exists (ps ++ [(g, t)]), []. split_and!.
  - by rewrite render_snoc.
  - apply well_snoc; [done..|]. intros -> p Hp.
    assert (last (content pre) = Some p.2) as Hlc by (rewrite <- Hc; by rewrite fmap_last, Hp).
    destruct (last pre) as [u|] eqn:Eu; [|apply last_None in Eu; by subst].
    destruct (is_content u) eqn:Hu.
    + rewrite (last_content _ _ Eu Hu) in Hlc. injection Hlc as <-. by apply Hs.
    + destruct (Hl u eq_refl Hu) as [|Hps]; [done|by subst].
  - constructor.
  - by rewrite fmap_app, content_app, content_single, Hc.
  - intros u Hu. rewrite last_snoc in Hu. injection Hu as <-. congruence.
Qed.

(** ** The ends of a text *)

Lemma drop_while_blank p g k : Forall (λ c, p c = true) g → drop_while p (g ++ k) = drop_while p k.
Proof. induction g as [|c g IH]; [done|]. intros [Hc Hg]%Forall_cons. cbn. rewrite Hc. by apply IH. Qed.

Lemma drop_while_stops p k : head_test p k = false → drop_while p k = k.
Proof. destruct k as [|c k]; [done|]. cbn. by intros ->. Qed.

Lemma trim_end_app p l c g :
  p c = false → trim_end_matches p ((l ++ [c]) ++ g) = (l ++ [c]) ++ trim_end_matches p g.
Proof.
  intros Hc. unfold trim_end_matches. rewrite reverse_app, reverse_snoc.
  assert (∀ k, drop_while p (k ++ c :: reverse l) = drop_while p k ++ c :: reverse l) as ->.
  { induction k as [|e k IH]; cbn; [by rewrite Hc|]. by destruct (p e). }
  by rewrite reverse_app, reverse_cons, reverse_involutive.
Qed.

Lemma render_last ps :
  well ps → ps ≠ [] → ∃ l c, render ps [] = l ++ [c] ∧ is_whitespace c = false.
Proof.
  intros [Hf _] Hn. destruct (exists_last Hn) as (ps' & [g t] & ->).
  apply Forall_app in Hf as [_ Hf]. inversion Hf as [|? ? [_ (_ & _ & (c & l & Ht & Hc) & _)] _]; subst.
  rewrite render_snoc. cbn in Ht. rewrite Ht, app_assoc. by eexists _, c.
Qed.

Lemma render_end ps g : render ps g = render ps [] ++ g.
Proof. unfold render. by rewrite app_nil_r. Qed.

Lemma trim_end_render p ps g :
  (∀ c, p c = true → is_whitespace c = true) → well ps →
  trim_end_matches p (render ps g) = render ps (trim_end_matches p g).
Proof.
  intros Hp Hw. destruct (decide (ps = [])) as [->|Hn]; [done|].
  destruct (render_last ps Hw Hn) as (l & c & E & Hc). rewrite render_end, E, trim_end_app.
  - by rewrite <- E, <- render_end.
  - apply not_true_iff_false. intros H. apply Hp in H. congruence.
Qed.

Lemma trim_end_blank g : blank g → trim_end_matches is_whitespace g = [].
Proof.
  intros Hg. unfold trim_end_matches. rewrite <- (app_nil_r (reverse g)), drop_while_blank; [done|].
  by apply Forall_reverse.
Qed.

Lemma trim_end_sub p g : blank g → blank (trim_end_matches p g).
Proof.
  intros Hg. unfold trim_end_matches. apply Forall_reverse in Hg. apply Forall_reverse.
  induction (reverse g) as [|c r IH]; [done|]. cbn. destruct (p c); [|done].
  apply Forall_cons in Hg as [_ Hg]. by apply IH.
Qed.

(** Trimming drops the white space at both ends. *)
Lemma trim_render ps g :
  well ps → blank g → ∃ ps', trim (render ps g) = render ps' [] ∧ well ps' ∧ ps'.*2 = ps.*2.
Proof.
  intros Hw Hg. unfold trim. destruct ps as [|[g1 t1] ps].
  { exists []. split; [|by repeat split; constructor]. change (render [] g) with g.
    by rewrite <- (app_nil_r g), drop_while_blank. }
  destruct Hw as [Hf Hs]. apply Forall_cons in Hf as [[Hg1 Ht1] Hf].
  assert (well (([], t1) :: ps)) as Hw'.
  { split; [apply Forall_cons; split; [split; [constructor|done]|done]|]. inversion Hs as [|? ? Hs' Hh]; subst. constructor; [done|].
    inversion Hh; subst; constructor. assumption. }
  exists (([], t1) :: ps). split; [|by split].
  rewrite render_cons. cbn [fst snd]. rewrite drop_while_blank by done.
  rewrite drop_while_stops by by apply sound_head.
  change (token_text t1 ++ render ps g) with ([] ++ token_text t1 ++ render ps g).
  rewrite <- (render_cons ([], t1)), trim_end_render by done. by rewrite trim_end_blank.
Qed.

(** ** White space *)

Lemma written_blank pre result b k :
  written pre result → is_content b = false → blank k → k ≠ [] → written (pre ++ [b]) (result ++ k).
Proof.
  intros (ps & g & -> & Hw & Hg & Hc & Hl) Hb Hk Hn. exists ps, (g ++ k). split_and!; [by rewrite render_app|done| | |].
  - by apply Forall_app.
  - by rewrite content_app, (content_blank b), app_nil_r.
  - intros t _ _. left. destruct g; [done|done].
Qed.

Lemma written_skip pre result :
  written pre result →
  (result = [] ∨ ∃ c, last result = Some c ∧ is_whitespace c = true) → written (pre ++ [Whitespace]) result.
Proof.
  intros (ps & g & -> & Hw & Hg & Hc & Hl) Hr. exists ps, g. split_and!; [done..| |].
  - by rewrite content_app, (content_blank Whitespace), app_nil_r.
  - intros t _ _. destruct (decide (g = [])) as [->|]; [|by left]. right.
    destruct (decide (ps = [])) as [|Hn]; [done|].
    destruct (render_last ps Hw Hn) as (l & c & E & Hc'). rewrite E in Hr.
    destruct Hr as [[]%app_nil|(d & Hd & Hs)]; [done|]. rewrite last_snoc in Hd. congruence.
Qed.

(** A line feed is written after the spaces before it are popped. *)
Lemma written_newline pre result :
  written pre result → written (pre ++ [Punctuation newline]) (trim_end_matches (N.eqb space) result ++ [newline]).
Proof.
  intros (ps & g & -> & Hw & Hg & Hc & Hl). exists ps, (trim_end_matches (N.eqb space) g ++ [newline]).
  assert (∀ c, (space =? c) = true → is_whitespace c = true) as Hp by by intros c <-%N.eqb_eq.
  split_and!.
  - by rewrite render_app, trim_end_render.
  - done.
  - apply Forall_app. split; [by apply trim_end_sub|by apply Forall_singleton].
  - by rewrite content_app, (content_blank (Punctuation newline)), app_nil_r.
  - intros t _ _. left. by destruct (trim_end_matches _ _).
Qed.

Lemma ends_with_last c l : ends_with c l = true ↔ last l = Some c.
Proof. unfold ends_with. destruct (last l); [rewrite N.eqb_eq|]; naive_solver. Qed.

Lemma not_content t :
  is_content t = false → t = Whitespace ∨ t = Punctuation newline ∨ t = Word (str "  ").
Proof. unfold is_content. by rewrite negb_false_iff, bool_decide_eq_true. Qed.

Lemma normalize_content result t : is_content t = true → normalize_step result t = result ++ token_text t.
Proof.
  unfold is_content. rewrite negb_true_iff, bool_decide_eq_false. intros H.
  destruct t as [| | | | | |c]; try done; [tauto|]. cbn. destruct (c =? newline) eqn:E; [|done].
  apply N.eqb_eq in E as ->. tauto.
Qed.

Lemma normalize_written pre result t :
  written pre result → Sorted adjacent (pre ++ [t]) → (is_content t = true → sound t) →
  written (pre ++ [t]) (normalize_step result t).
Proof.
  intros Hw Hs Ht. destruct (is_content t) eqn:Hc.
  { rewrite normalize_content by done. apply written_push; auto. }
  destruct (not_content t Hc) as [->|[->| ->]]; cbn [normalize_step].
  - destruct (_ && _) eqn:E.
    + apply written_blank; [done|done|by apply Forall_singleton|done].
    + apply written_skip; [done|]. apply andb_false_iff in E as [E|E].
      * apply andb_false_iff in E as [E|E].
        -- left. apply bool_decide_eq_false in E. by apply dec_stable.
        -- right. exists newline. split; [|done]. by apply ends_with_last, negb_false_iff.
      * right. exists space. split; [|done]. by apply ends_with_last, negb_false_iff.
  - by apply written_newline.
  - apply written_blank; [done|done|repeat constructor|done].
Qed.

Lemma normalize_all ts :
  Sorted adjacent ts → Forall (λ t, is_content t = true → sound t) ts →
  written ts (foldl normalize_step [] ts).
Proof.
  induction ts as [|t ts IH] using rev_ind; intros Hs Hf.
  { exists [], []. split_and!; [done|by split; constructor|constructor|done|done]. }
  rewrite foldl_app. apply Forall_app in Hf as [Hf Ht]. inversion Ht; subst.
  apply normalize_written; [|done|done]. apply IH; [by eapply Sorted_prefix|done].
Qed.

(** ** The formatters *)

Lemma not_blank_content l ts :
  lexed l ts → not_blank (uppercase_keywords ts) = content (uppercase_keywords ts).
Proof.
  intros Hl. unfold not_blank, content, uppercase_keywords.
  induction Hl as [|ch rest t after ts Hr Hl IH]; [done|]. cbn [fmap list_fmap].
  rewrite !filter_cons, IH, (uppercase_content _ _ _ _ Hr).
  destruct (decide (t = Whitespace)) as [->|Ht].
  - rewrite decide_False by naive_solver. rewrite decide_False by naive_solver. done.
  - rewrite decide_True; [rewrite decide_True; [done|by apply bool_decide_eq_true]|].
    intros E. apply Ht. destruct (uppercase_cases t) as [E'|(w & -> & _ & [E'|E'] & _)]; congruence.
Qed.

(** The tokens of a text that was written for some tokens. *)
Lemma written_reads ts result :
  written ts result → ∃ ts', tokenize (trim result) = Some ts' ∧
    uppercase_keywords (not_blank ts') = content ts.
Proof.
  intros (ps & g & -> & Hw & Hg & Hc & _). destruct (trim_render ps g Hw Hg) as (ps' & -> & Hw' & Hps).
  destruct (render_lexed ps' [] Hw' (Forall_nil_2 _)) as (ts' & Hl & Hn).
  exists ts'. split; [by apply tokenize_lexed|]. rewrite Hn, <- Hc, <- Hps.
  unfold uppercase_keywords. rewrite <- list_fmap_compose. destruct Hw' as [Hf _]. clear -Hf.
  induction Hf as [|[g t] ps [_ Ht] Hf IH]; [done|]. cbn. f_equal; [apply Ht|exact IH].
Qed.

Lemma content_sound us : Forall (λ t, is_content t = true → sound t) us →
  ∀ vs, content vs = content us → Forall (λ t, is_content t = true → sound t) vs.
Proof.
  rewrite Forall_forall. intros H vs E. apply Forall_forall. intros t Ht Hc.
  assert (t ∈ content vs) as Hin by by apply list_elem_of_filter.
  rewrite E in Hin. apply list_elem_of_filter in Hin as [_ Hin]. by apply H.
Qed.

(** *** On one line *)

Lemma pop_snoc l (c : char) : pop (l ++ [c]) = l.
Proof. unfold pop. rewrite reverse_snoc. apply reverse_involutive. Qed.

Definition pop_space (result : text) : text := if ends_with space result then pop result else result.

(** A comma or a semicolon, after the space before it was popped. *)
Lemma written_comma pre result c :
  written pre result → (c =? comma) || (c =? semicolon) = true → sound (Punctuation c) →
  written (pre ++ [Punctuation c]) (pop_space result ++ [c; space]).
Proof.
  intros (ps & g & -> & Hw & Hg & Hc & _) Hcomma Hso.
  assert (is_content (Punctuation c) = true) as Hct.
  { apply negb_true_iff, bool_decide_eq_false. intros [H|[[= ->]|H]]; done. }
  assert (∃ g', pop_space (render ps g) = render ps g' ∧ blank g') as (g' & -> & Hg').
  { unfold pop_space. destruct (ends_with _ _) eqn:E; [|by exists g]. apply ends_with_last in E.
    destruct (decide (g = [])) as [->|Hn].
    - destruct (decide (ps = [])) as [->|Hn']; [done|].
      destruct (render_last ps Hw Hn') as (l & d & El & Hd). rewrite El, last_snoc in E. injection E as ->. done.
    - destruct (exists_last Hn) as (k & d & ->). exists k. apply Forall_app in Hg as [Hg _].
      by rewrite render_app, pop_snoc. }
  exists (ps ++ [(g', Punctuation c)]), [space]. split_and!.
  - change [c; space] with ([c] ++ [space]). rewrite app_assoc.
    change [c] with (token_text (Punctuation c)). rewrite <- render_snoc.
    by rewrite <- render_app.
  - apply well_snoc; [done..|]. intros _ p Hp k. destruct Hw as [Hf _].
    rewrite Forall_forall in Hf. apply last_Some_elem_of in Hp. apply Hf in Hp as [_ [Hp _]].
    apply Hp. by right.
  - by apply Forall_singleton.
  - by rewrite fmap_app, content_app, content_single, Hc.
  - intros t Ht. rewrite last_snoc in Ht. injection Ht as <-. congruence.
Qed.

(** Whether a space was put last. *)
Definition compacted (pre : list Token) (st : text * bool) : Prop :=
  written pre st.1 ∧ (st.2 = true → last st.1 = Some space).

Lemma compact_step_spec pre st t :
  compacted pre st → Sorted adjacent (pre ++ [t]) → (is_content t = true → sound t) →
  t = Whitespace ∨ is_content t = true → compacted (pre ++ [t]) (compact_step st t).
Proof.
  destruct st as [result prev]. intros [Hw Hp] Hs Ht Hk. cbn [fst snd] in *.
  assert (t ≠ Whitespace → compacted (pre ++ [t]) (result ++ token_text t, false)) as Hpush.
  { intros Hn. split; [|done]. destruct Hk as [|Hk]; [done|]. apply written_push; auto. }
  destruct t as [| | | | | |c]; cbn [compact_step]; try (by apply Hpush).
  - destruct (_ && _) eqn:E.
    + split; cbn; [|by rewrite last_snoc].
      apply written_blank; [done|done|by apply Forall_singleton|done].
    + split; [|done]. apply written_skip; [done|]. apply andb_false_iff in E as [E|E].
      * right. exists space. split; [|done]. apply Hp. by apply negb_false_iff.
      * left. apply bool_decide_eq_false in E. by apply dec_stable.
  - destruct (_ || _) eqn:E; [|by apply Hpush]. destruct Hk as [|Hk]; [done|]. split; cbn.
    + apply written_comma; auto.
    + intros _. by rewrite last_app.
Qed.

Lemma compact_all ts :
  Sorted adjacent ts → Forall (λ t, is_content t = true → sound t) ts →
  Forall (λ t, t = Whitespace ∨ is_content t = true) ts →
  compacted ts (foldl compact_step ([], false) ts).
Proof.
  induction ts as [|t ts IH] using rev_ind; intros Hs Hf Hk.
  { split; [|done]. exists [], []. split_and!; [done|by split; constructor|constructor|done|done]. }
  rewrite foldl_app. apply Forall_app in Hf as [Hf Ht], Hk as [Hk Htk]. inversion Ht; inversion Htk; subst.
  apply compact_step_spec; [|done..]. apply IH; [by eapply Sorted_prefix|done..].
Qed.

Lemma lexed_kinds l ts :
  lexed l ts → Forall (λ t, t = Whitespace ∨ is_content t = true) (uppercase_keywords ts).
Proof.
  induction 1 as [|ch rest t after ts Hr Hl IH]; constructor; [|done].
  rewrite (uppercase_content _ _ _ _ Hr), bool_decide_eq_true.
  destruct (decide (t = Whitespace)) as [->|]; [by left|by right].
Qed.

(** The tokens of a text but for its white space, the keywords in upper case. *)
Definition words (q : text) : option (list Token) := not_blank ∘ uppercase_keywords <$> tokenize q.

Lemma not_blank_uppercase ts : not_blank (uppercase_keywords ts) = uppercase_keywords (not_blank ts).
Proof.
  unfold not_blank, uppercase_keywords. induction ts as [|t ts IH]; [done|]. cbn [fmap list_fmap].
  rewrite !filter_cons, IH. destruct (decide (t = Whitespace)) as [->|Ht].
  - by rewrite !decide_False by naive_solver.
  - rewrite (decide_True (P := t ≠ Whitespace)) by done. rewrite decide_True; [done|].
    destruct (uppercase_cases t) as [->|(w & -> & _ & [->| ->] & _)]; done.
Qed.

Lemma written_words l ts result :
  tokenize l = Some ts → content (uppercase_keywords ts) = not_blank (uppercase_keywords ts) →
  ∀ us, content us = content (uppercase_keywords ts) → written us result → words (trim result) = words l.
Proof.
  intros Ht Hn us Hus Hw. destruct (written_reads _ _ Hw) as (ts' & Ht' & Hts).
  unfold words. rewrite Ht, Ht'. cbn. by rewrite not_blank_uppercase, Hts, Hus, Hn.
Qed.


End format.

(** ** Colours *)

Section colours.
Context {CT : CharTables} {CL : CharLaws CT} {CO : Colored}.

(** [shown] is what a terminal shows of what is written to it. *)
Definition faithful (shown : text → text) : Prop :=
  (∀ a b, shown (a ++ b) = shown a ++ shown b) ∧ (∀ st t, shown (paint st t) = shown t).

Lemma colour_word_shown shown w : faithful shown → shown (colour_word w) = shown w.
Proof. intros [_ Hp]. unfold colour_word. by repeat case_match. Qed.

Lemma highlight_token_spec first ch rest :
  (ch =? backslash) && first = false →
  match highlight_token first ch rest with
  | None => quote_state (ch :: rest) = Escaped ch
  | Some (out, after) =>
    ∃ raw, rest = raw ++ after ∧ (∀ shown, faithful shown → shown out = shown (ch :: raw)) ∧
      (quote_state (ch :: raw) = Outside ∨ (after = [] ∧ quote_state (ch :: raw) = Inside ch))
  end.
Proof.
  intros Hb. unfold highlight_token. rewrite Hb. destruct (is_quote ch) eqn:Hq.
  { pose proof (literal_spec ch _ rest (le_n _)) as H. destruct (literal ch rest) as [[s k]|]; cbn.
    - destruct H as [-> H]. exists s. split; [done|]. split; [intros shown [_ Hp]; apply Hp|].
      unfold quote_state. cbn. rewrite Hq. destruct H as [(H & _)|H]; [by left|by right].
    - unfold quote_state. cbn. by rewrite Hq. }
  destruct (is_word_start ch) eqn:Hs.
  { destruct (span _ _) as [w k] eqn:E. unfold span in E. cbn in E.
    rewrite (word_start_char _ Hs) in E. injection E as <- <-.
    destruct (span_inv is_word_char rest _ _ eq_refl) as (Hr & Hf & _).
    eexists. split; [exact Hr|]. split; [intros shown Hsh; by apply colour_word_shown|]. left.
    apply (quoteless is_word_char); [apply quote_facts|]. apply Forall_cons. by split; [apply word_start_char|]. }
  destruct (starts_number ch rest) eqn:Hn.
  { destruct (number _) as [n k] eqn:E. destruct (number_shape _ _ _ _ Hn E) as (m & -> & Hf & Hr).
    exists m. split; [done|]. split; [intros shown [_ Hp]; apply Hp|]. left.
    by apply (quoteless number_char); [apply quote_facts|]. }
  exists []. split; [done|]. split; [done|]. left. unfold quote_state. cbn. by rewrite Hq.
Qed.

Lemma highlight_loop_spec fuel : ∀ first l, (length l ≤ fuel)%nat → head_test (N.eqb backslash) l && first = false →
  match highlight_loop fuel first l with
  | None => ∃ c, quote_state l = Escaped c
  | Some out => (∀ shown, faithful shown → shown out = shown l) ∧ ∀ c, quote_state l ≠ Escaped c
  end.
Proof.
  induction fuel as [|fuel IH]; intros first [|ch rest] Hf Hb; cbn in Hf; try lia; [done..|].
  cbn [head_test] in Hb. rewrite N.eqb_sym in Hb. cbn [highlight_loop].
  pose proof (highlight_token_spec first ch rest Hb) as H.
  destruct (highlight_token first ch rest) as [[out after]|]; cbn; [|by exists ch].
  destruct H as (raw & -> & Hout & Hst). rewrite length_app in Hf.
  specialize (IH false after ltac:(lia) (andb_false_r _)).
  assert (∀ c, quote_state (ch :: raw ++ after) = Escaped c ↔ quote_state after = Escaped c) as Hq.
  { intros c. destruct Hst as [Ho|[-> Hi]].
    - change (ch :: raw ++ after) with ((ch :: raw) ++ after). by rewrite quote_state_app.
    - rewrite app_nil_r. split; intros H; [by pose proof (eq_trans (eq_sym Hi) H)|done]. }
  destruct (highlight_loop fuel false after) as [more|]; cbn.
  - destruct IH as [Hmore Hn]. split; [|intros c; rewrite Hq; apply Hn].
    intros shown Hsh. pose proof Hsh as [Happ _].
    change (ch :: raw ++ after) with ((ch :: raw) ++ after). by rewrite !Happ, Hout, Hmore.
  - destruct IH as [c Hc]. exists c. by apply Hq.
Qed.

(** What the shell draws of the line being typed shows that line.  There is nothing to draw,
    and the shell panics, exactly while the line ends in a backslash inside a literal; a line
    that begins with a backslash is a command and is drawn as it is. *)
Theorem highlight_shows_line line :
  (∀ out shown, highlight_line line = Some out → faithful shown → shown out = shown line) ∧
  (highlight_line line = None ↔
   head_test (N.eqb backslash) line = false ∧ ∃ c, quote_state line = Escaped c).
Proof.
  unfold highlight_line. destruct (head_test (N.eqb backslash) line) eqn:Hb.
  - destruct line as [|ch rest]; [done|]. cbn [head_test] in Hb. apply N.eqb_eq in Hb as <-. cbn [length highlight_loop].
    assert (highlight_token true backslash rest = Some (paint BrightMagenta (backslash :: rest), [])) as -> by done.
    assert (∀ n, highlight_loop n false [] = Some []) as Hnil by by intros [].
    cbn. rewrite Hnil. cbn. split; [|by split; [|intros [? _]]].
    intros out shown [= <-] [Happ Hp]. by rewrite app_nil_r.
  - pose proof (highlight_loop_spec (length line) true line (le_n _) ltac:(by rewrite Hb)) as H.
    destruct (highlight_loop _ _ _) as [out|].
    + destruct H as [Ho Hn]. split; [intros ? shown [= <-]; apply Ho|]. split; [done|].
      intros [_ [c Hc]]. by destruct (Hn c).
    + split; [done|]. split; [done|]. done.
Qed.

(** An escape cannot be typed: before its second character is there the shell has panicked. *)
Lemma escape_untypable p q :
  head_test (N.eqb backslash) p = false → quote_state p = Inside q →
  q ≠ backslash → highlight_line (p ++ [backslash]) = None.
Proof.
  intros Hb Hq Hne. apply highlight_shows_line. split.
  - destruct p; [discriminate Hq|exact Hb].
  - exists q. unfold quote_state in *. rewrite foldl_app, Hq. cbn [foldl quote_step].
    destruct (backslash =? q) eqn:E; [apply N.eqb_eq in E; congruence|]. by rewrite N.eqb_refl.
Qed.

End colours.

(** ** Offsets *)

Lemma byte_len_app l k : byte_len (l ++ k) = (byte_len l + byte_len k)%nat.
Proof. unfold byte_len. by rewrite fmap_app, sum_list_with_app. Qed.

Lemma len_utf8_pos c : (1 ≤ len_utf8 c)%nat.
Proof. unfold len_utf8. repeat case_match; lia. Qed.

Lemma slice_at_app a b : slice_at (byte_len a) (a ++ b) = Some (a, b).
Proof.
  induction a as [|c a IH]; [by destruct b|].
  change (byte_len (c :: a)) with (len_utf8 c + byte_len a)%nat. pose proof (len_utf8_pos c).
  destruct (len_utf8 c + byte_len a)%nat as [|n] eqn:E; [lia|]. rewrite <- E. clear E n.
  cbn [app slice_at]. destruct (len_utf8 c + byte_len a)%nat as [|n] eqn:E; [lia|]. rewrite <- E.
  rewrite (proj2 (Nat.ltb_ge _ _)) by lia.
  replace (len_utf8 c + byte_len a - len_utf8 c)%nat with (byte_len a) by lia. by rewrite IH.
Qed.

Lemma starts_with_app p l : starts_with p l = true ↔ ∃ k, l = p ++ k.
Proof.
  revert l. induction p as [|a p IH]; intros l; [naive_solver|]. destruct l as [|b l]; cbn.
  - split; [done|]. by intros [k ?].
  - rewrite andb_true_iff, N.eqb_eq, IH. naive_solver.
Qed.

(** What is found is there, at its offset. *)
Lemma find_Some p l n : find p l = Some n → ∃ a b, l = a ++ p ++ b ∧ n = byte_len a.
Proof.
  revert n. induction l as [|c l IH]; intros n; cbn [find].
  - destruct (starts_with p []) eqn:E; [|done]. intros [= <-].
    apply starts_with_app in E as [k E]. exists [], k. done.
  - destruct (starts_with p (c :: l)) eqn:E.
    + intros [= <-]. apply starts_with_app in E as [k E]. exists [], k. done.
    + destruct (find p l) as [m|]; [|done]. intros [= <-]. destruct (IH m eq_refl) as (a & b & -> & ->).
      exists (c :: a), b. done.
Qed.

(** What is there is found. *)
Lemma find_sub p a b : is_Some (find p (a ++ p ++ b)).
Proof.
  induction a as [|c a IH].
  - assert (starts_with p ([] ++ p ++ b) = true) as E by (apply starts_with_app; by exists b).
    destruct ([] ++ p ++ b) as [|d l]; cbn [find]; rewrite E; done.
  - cbn [app find]. destruct (starts_with _ _); [done|]. destruct IH as [m ->]. done.
Qed.

Lemma split_from_sub cur l w :
  w ∈ split_from cur l → ∃ a b, cur ++ l = a ++ w ++ b.
Proof.
  revert cur. induction l as [|c l IH]; intros cur; cbn.
  - case_bool_decide; [by intros ?%elem_of_nil|]. intros ->%list_elem_of_singleton. by exists [], [].
  - destruct (is_whitespace c).
    + case_bool_decide as Hc.
      * intros (a & b & E)%IH. subst cur. exists (c :: a), b. cbn in *. by rewrite E.
      * intros [->|(a & b & E)%IH]%elem_of_cons; [by exists [], (c :: l)|].
        exists (cur ++ c :: a), b. cbn in E. rewrite E. by rewrite <- app_assoc.
    + intros (a & b & E)%IH. exists a, b. rewrite <- E. by rewrite <- app_assoc.
Qed.

(** ** The linter *)

Section linter.
Context {CT : CharTables}.

Lemma has_iff tokens w : has tokens w = true ↔ str w ∈ tokens.
Proof. unfold has, contains. apply bool_decide_eq_true. Qed.

Lemma redundant_where_total upper :
  has (tokenize_upper upper) "WHERE" = true → is_Some (redundant_where_diagnostic upper).
Proof.
  intros (a & b & E)%has_iff%split_from_sub. cbn [app] in E. unfold redundant_where_diagnostic, find_or_zero.
  destruct (find_sub (str "WHERE") a b) as [n Hn]. rewrite <- E in Hn. rewrite Hn. cbn [default from_option id].
  destruct (find_Some _ _ _ Hn) as (a' & b' & -> & ->).
  replace (byte_len a' + 5)%nat with (byte_len (a' ++ str "WHERE")) by by rewrite byte_len_app.
  by rewrite app_assoc, slice_at_app.
Qed.

(** The rules of the linter, each with the words that break it. *)
Definition breaks (tokens : list text) (r : LintRule) : Prop :=
  let has w := str w ∈ tokens in
  match r with
  | MissingLimit => has "SELECT" ∧ ¬ has "LIMIT" ∧ ¬ has "EXPLAIN"
  | UnboundedTraverse => has "TRAVERSE" ∧ ¬ has "DEPTH"
  | DangerousWrite => (has "DELETE" ∨ has "UPDATE") ∧ ¬ has "WHERE"
  | MissingProof => has "SEMANTIC" ∧ ¬ has "PROOF" ∧ has "SELECT"
  | MissingThreshold => (has "DRIFT" ∨ has "CONSISTENCY") ∧ ¬ has "THRESHOLD"
  | OrderByWithoutLimit => has "ORDER" ∧ ¬ has "LIMIT" ∧ has "SELECT"
  | FederationWithoutStore => has "FEDERATION" ∧ ¬ has "STORE"
  | SelectAllModalities => has "SELECT" ∧ (8 ≤ modality_count tokens)%nat
  | MultiModalityNoExplain => has "SELECT" ∧ ¬ has "EXPLAIN" ∧ (3 ≤ modality_count tokens)%nat
  | UnknownProofType =>
    has "PROOF" ∧ (∃ t, token_after (str "PROOF") tokens = Some t ∧ (t ∉ KNOWN_PROOF_TYPES) ∧ t ≠ [])
  | RedundantWhere => False
  end.

Definition rule_severity (r : LintRule) : Severity :=
  match r with
  | UnboundedTraverse | DangerousWrite => Error
  | MissingLimit | MissingProof | OrderByWithoutLimit | UnknownProofType | FederationWithoutStore => Warning
  | _ => Hint
  end.

Lemma elem_of_when b d x : x ∈ when b d ↔ b = true ∧ x = d.
Proof. unfold when. destruct b; rewrite ?list_elem_of_singleton, ?elem_of_nil; naive_solver. Qed.

Lemma lint_unsorted_total query : is_Some (lint_unsorted query).
Proof.
  unfold lint_unsorted. set (tokens := tokenize_upper _). destruct (has tokens "WHERE") eqn:E; [|done].
  destruct (redundant_where_total _ E) as [ds ->]. done.
Qed.

Definition rated (d : LintDiagnostic) : Prop := ld_severity d = rule_severity (ld_rule d).

Lemma rated_when b d : rated d → Forall rated (when b d).
Proof. intros Hd. unfold when. destruct b; by repeat constructor. Qed.

Lemma lint_rated query ds : lint_unsorted query = Some ds → Forall rated ds.
Proof.
  unfold lint_unsorted. set (tokens := tokenize_upper _).
  destruct (if has tokens "WHERE" then _ else _) as [rs|] eqn:E; [|done]. intros [= <-].
  rewrite !Forall_app. split_and!; try (by apply rated_when).
  - destruct (has tokens "PROOF"); [|constructor]. unfold proof_type_diagnostic.
    destruct (token_after _ _); [|constructor]. by apply rated_when.
  - destruct (has tokens "WHERE"); [|injection E as <-; constructor]. revert E.
    unfold redundant_where_diagnostic. destruct (slice_at _ _) as [[u v]|]; [|done]. cbn.
    intros [= <-]. by apply rated_when.
Qed.

(** Whether a rule is reported. *)
Definition reports (r : LintRule) (ds : list LintDiagnostic) : bool :=
  existsb (λ d, bool_decide (ld_rule d = r)) ds.

Lemma reports_iff r ds : reports r ds = true ↔ r ∈ ld_rule <$> ds.
Proof.
  unfold reports. rewrite existsb_exists, list_elem_of_fmap. setoid_rewrite bool_decide_eq_true.
  setoid_rewrite <- list_elem_of_In. naive_solver.
Qed.

Lemma reports_app r l k : reports r (l ++ k) = reports r l || reports r k.
Proof. apply existsb_app. Qed.

Lemma reports_when r b d : reports r (when b d) = b && bool_decide (ld_rule d = r).
Proof. unfold when. destruct b; [|done]. cbn. by rewrite orb_false_r. Qed.

Lemma reports_proof_type r tokens upper :
  reports r (if has tokens "PROOF" then proof_type_diagnostic tokens upper else []) =
  match token_after (str "PROOF") tokens with
  | Some t => has tokens "PROOF" && (negb (contains KNOWN_PROOF_TYPES t) && bool_decide (t ≠ [])) &&
              bool_decide (UnknownProofType = r)
  | None => false
  end.
Proof.
  unfold proof_type_diagnostic. destruct (token_after _ _) as [t|], (has tokens "PROOF"); try done.
  by rewrite reports_when.
Qed.

Lemma reports_redundant tokens upper rs r :
  (if has tokens "WHERE" then redundant_where_diagnostic upper else Some []) = Some rs →
  r ≠ RedundantWhere → reports r rs = false.
Proof.
  destruct (has tokens "WHERE"); [|by intros [= <-]].
  unfold redundant_where_diagnostic. destruct (slice_at _ _) as [[u v]|]; [|done]. cbn [mbind option_bind].
  intros H%(inj Some) Hr. subst rs. rewrite reports_when, bool_decide_false, andb_false_r; [done|]. cbn. congruence.
Qed.

Lemma has_false tokens w : has tokens w = false ↔ str w ∉ tokens.
Proof. rewrite <- not_true_iff_false. by rewrite has_iff. Qed.

Lemma lint_rules query us r :
  lint_unsorted query = Some us → r ≠ RedundantWhere →
  reports r us = true ↔ breaks (tokenize_upper (to_uppercase query)) r.
Proof.
  unfold lint_unsorted. set (tokens := tokenize_upper _). intros Hu Hr.
  destruct (if has tokens "WHERE" then _ else _) as [rs|] eqn:E; [|done].
  cbn [mbind option_bind] in Hu. apply (inj Some) in Hu. subst us.
  rewrite !reports_app, (reports_redundant _ _ _ _ E Hr), !reports_when, reports_proof_type. clear E.
  destruct r; cbn [diagnose ld_rule];
    repeat match goal with |- context [bool_decide (?a = ?b :> LintRule)] =>
      first [rewrite (bool_decide_true (a = b)) by reflexivity
            |rewrite (bool_decide_false (a = b)) by discriminate] end;
    rewrite ?andb_false_r, ?andb_true_r, ?orb_false_r, ?orb_false_l; unfold breaks, is_dangerous;
    try destruct (token_after _ _) as [t|] eqn:Et;
    rewrite ?andb_false_r, ?andb_true_r, ?orb_false_r, ?orb_false_l,
      ?andb_true_iff, ?orb_true_iff, ?negb_true_iff, ?has_iff, ?has_false, ?Nat.leb_le;
    try tauto.
  - unfold contains. rewrite bool_decide_eq_false, bool_decide_eq_true. naive_solver.
  - naive_solver.
Qed.

Definition by_severity (a b : LintDiagnostic) : Prop :=
  (severity_rank (ld_severity b) ≤ severity_rank (ld_severity a))%Z.

Lemma StronglySorted_impl {A} (R S : A → A → Prop) l :
  (∀ a b, R a b → S a b) → StronglySorted R l → StronglySorted S l.
Proof.
  intros H. induction 1 as [|a l Hl IH Ha]; constructor; [done|].
  refine (Forall_impl _ _ _ Ha _). intros b. apply H.
Qed.

(** Linting never panics.  Each rule but VQL009 is reported exactly when the words of the query
    break it, and with the severity of the rule, errors first; a query is said to have errors
    exactly when it traverses without a depth or writes without a condition. *)
Theorem lint_reports query :
  let tokens := tokenize_upper (to_uppercase query) in
  ∃ ds, lint_query query = Some ds ∧ StronglySorted by_severity ds ∧ Forall rated ds ∧
    (∀ r, r ≠ RedundantWhere → r ∈ ld_rule <$> ds ↔ breaks tokens r) ∧
    (has_errors query = Some true ↔ breaks tokens UnboundedTraverse ∨ breaks tokens DangerousWrite).
Proof.
  intros tokens. destruct (lint_unsorted_total query) as [us Hu]. unfold has_errors, lint_query. rewrite Hu.
  cbn [fmap option_fmap option_map]. set (key := λ d, (- severity_rank (ld_severity d))%Z).
  pose proof (sort_by_key_perm key us) as Hp. pose proof (lint_rated _ _ Hu) as Hr. rewrite <- Hp in Hr.
  assert (∀ r, r ≠ RedundantWhere → r ∈ ld_rule <$> sort_by_key key us ↔ breaks tokens r) as Hb.
  { intros r Hne. rewrite Hp, <- reports_iff. by apply lint_rules. }
  eexists. split; [done|]. split; [|split; [done|split; [done|]]].
  - eapply StronglySorted_impl; [|apply sort_by_key_StronglySorted].
    intros a b. unfold key_le, by_severity, key. lia.
  - rewrite <- !Hb by done. rewrite !list_elem_of_fmap. rewrite (inj_iff Some), existsb_exists.
    rewrite Forall_forall in Hr. split.
    + intros (d & Hd%list_elem_of_In & He%bool_decide_eq_true). pose proof (Hr d Hd) as Hd'.
      unfold rated in Hd'. rewrite He in Hd'.
      destruct (ld_rule d) eqn:Ed; try done; [left|right]; by exists d.
    + intros [(d & Ed & Hd)|(d & Ed & Hd)]; (exists d; split; [by apply list_elem_of_In|]);
        apply bool_decide_eq_true; rewrite (Hr d Hd); by rewrite <- Ed.
Qed.

(** The report panics exactly when it has something to report on a query of more than 60 bytes
    whose 57th byte ends inside a character. *)
Lemma format_diagnostics_panics query ds :
  format_diagnostics query ds = None ↔
  ds ≠ [] ∧ (60 < byte_len query)%nat ∧ slice_at 57 query = None.
Proof.
  unfold format_diagnostics, shortened. case_bool_decide as Hd.
  - apply nil_length_inv in Hd as ->. naive_solver.
  - assert (ds ≠ []) by by intros ->. destruct (60 <? byte_len query)%nat eqn:E.
    + apply Nat.ltb_lt in E. destruct (slice_at 57 query) as [[]|]; cbn; naive_solver.
    + apply Nat.ltb_ge in E. cbn. split; [done|]. lia.
Qed.

End linter.

(** ** Completion *)

(** A byte of a character may pass for white space: after the Chinese character for page, whose
    second byte is that of a no-break space, completion panics. *)
Example completion_panics : find_word_start [38913] 3 = None.
Proof. vm_compute. reflexivity. Qed.

Definition ascii (l : text) : Prop := Forall (λ c, c < 128) l.

Lemma ascii_bytes l : ascii l → as_bytes l = l ∧ byte_len l = length l.
Proof.
  induction 1 as [|c l Hc Hl [IH1 IH2]]; [done|].
  change (as_bytes (c :: l)) with (encode_utf8 c ++ as_bytes l).
  change (byte_len (c :: l)) with (len_utf8 c + byte_len l)%nat. rewrite IH1, IH2.
  unfold encode_utf8, len_utf8. by rewrite (proj2 (N.ltb_lt _ _) Hc).
Qed.

Lemma word_start_spec a w b :
  Forall (λ c, is_delimiter c = false) w → (∀ c, last a = Some c → is_delimiter c = true) →
  word_start (a ++ w ++ b) (length a + length w) = Some (length a).
Proof.
  revert b. induction w as [|c w IH] using rev_ind; intros b Hw Ha.
  - rewrite Nat.add_0_r. destruct (last a) as [d|] eqn:E; [|by apply last_None in E as ->].
    apply last_Some in E as [k ->]. rewrite length_app, Nat.add_1_r. cbn [word_start].
    rewrite <- app_assoc, lookup_app_r, Nat.sub_diag by lia. cbn. by rewrite (Ha d eq_refl).
  - apply Forall_app in Hw as [Hw Hc]. inversion Hc; subst.
    rewrite length_app, Nat.add_1_r, Nat.add_succ_r. cbn [word_start].
    rewrite lookup_app_r by lia. replace (length a + length w - length a)%nat with (length w) by lia.
    rewrite <- app_assoc, lookup_app_r, Nat.sub_diag by lia. cbn.
    match goal with H : is_delimiter c = false |- _ => rewrite H end. by apply IH.
Qed.

(** On an ASCII line the word that is completed is the one that ends at the cursor. *)
Lemma find_word_start_ascii a w b :
  ascii (a ++ w ++ b) → Forall (λ c, is_delimiter c = false) w →
  (∀ c, last a = Some c → is_delimiter c = true) →
  find_word_start (a ++ w ++ b) (length a + length w) = Some (length a, w).
Proof.
  intros H Hw Ha. unfold find_word_start. rewrite (proj1 (ascii_bytes _ H)), word_start_spec by done. cbn.
  apply Forall_app in H as [H1 H]. apply Forall_app in H as [H2 H3].
  destruct (ascii_bytes a H1) as [_ E1], (ascii_bytes w H2) as [_ E2].
  assert (slice_at (length a + length w) (a ++ w ++ b) = Some (a ++ w, b)) as ->
    by (rewrite <- E1, <- E2, <- byte_len_app, app_assoc; apply slice_at_app).
  cbn [mbind option_bind].
  assert (slice_at (length a) (a ++ w) = Some (a, w)) as E by (rewrite <- E1; apply slice_at_app).
  exact (f_equal (λ o, '(_, prefix) ← o; Some (length a, prefix)) E).
Qed.

(** ** On concrete text

    Tables that know the letters of ASCII, and a terminal without colours. *)

Definition upper_char (c : char) : char := if in_range 97 122 c then c - 32 else c.
Definition lower_char (c : char) : char := if in_range 65 90 c then c + 32 else c.

Definition ascii_tables : CharTables :=
  {| is_alphabetic := λ c, in_range 65 90 c || in_range 97 122 c; is_numeric := is_ascii_digit;
     is_uppercase := in_range 65 90; to_uppercase := fmap upper_char; to_lowercase := fmap lower_char |}.

Lemma ascii_tables_laws : CharLaws ascii_tables.
Proof.
  split; try done.
  - intros c. unfold is_whitespace, is_alphanumeric. cbn. unfold is_ascii_digit.
    intros H. apply not_true_iff_false. revert H.
    rewrite !orb_true_iff, !in_range_iff, !N.eqb_eq. lia.
  - induction 1 as [|c w Hc Hw IH]; [done|]. cbn in *. rewrite IH. f_equal. unfold upper_char.
    destruct (in_range 97 122 c) eqn:E; [|done]. apply in_range_iff in Hc, E. lia.
  - intros [|c w] t; [done|]. cbn. intros [= Hc _]. exists c, w. split; [done|]. revert Hc.
    unfold upper_char. destruct (in_range 97 122 c) eqn:E; [apply in_range_iff in E|]; lia.
Qed.

Definition monochrome : Colored := {| paint := λ _ t, t |}.

#[local] Existing Instance ascii_tables.
#[local] Existing Instance ascii_tables_laws.
#[local] Existing Instance monochrome.

Definition a_query : text := str "select graph , vector from hexad where name = 'it\'s me' and n=-1.5e3limit 10".

Example a_query_formatted :
  format_vql a_query =
    Some (str "SELECT GRAPH , VECTOR" ++ [newline] ++ str "FROM HEXAD" ++ [newline] ++
          str "WHERE name = 'it\'s me'" ++ [newline] ++ str "  AND n=-1.5e3" ++ [newline] ++ str "LIMIT 10") ∧
  format_vql_compact a_query =
    Some (str "SELECT GRAPH, VECTOR FROM HEXAD WHERE name = 'it\'s me' AND n=-1.5e3LIMIT 10").
Proof. split; vm_compute; reflexivity. Qed.


(** Formatting again may change the lines: a clause starter two tokens after EXPLAIN stays on
    its line, and is no longer two tokens after it. *)
Example formatting_not_idempotent :
  ∃ once twice, format_vql (str "EXPLAIN,SELECT GRAPH") = Some once ∧ format_vql once = Some twice ∧ once ≠ twice.
Proof. eexists _, _. split; [vm_compute; reflexivity|]. split; [vm_compute; reflexivity|]. by vm_compute. Qed.

(** The line as far as the backslash of an escape. *)
Lemma highlight_shows_line_witness :
  highlight_line (str "WHERE name = 'it\") = None ∧
  ∃ out, highlight_line (str "WHERE name = 'it") = Some out ∧ out = str "WHERE name = 'it".
Proof.
  split.
  - apply (highlight_shows_line (str "WHERE name = 'it\")). split; [reflexivity|].
    exists single_quote. vm_compute. reflexivity.
  - eexists. split; [vm_compute; reflexivity|].
    apply (proj1 (highlight_shows_line (str "WHERE name = 'it")) _ (λ t, t)); [vm_compute; reflexivity|].
    split; done.
Defined.
