(* ===== verification/Shell.v ===== *)
(** * The interactive shell

    Models [src/rust-core/verisim-repl/src]: the printing of results ([formatter.rs]), the
    client ([client.rs]), and the session with its commands ([main.rs]).  The line editor, the
    network and the printers of tables and JSON are other crates'.  A CSV file reads back, and
    the session sends what was typed, to one server. *)

From stdpp Require Import pretty.
From S2P Require Import Prelude VqlText.
From Stdlib Require Import NArith.
From Stdlib Require String Ascii.
Local Open Scope N_scope.

(** ** Printing results *)

(** [serde_json::Value]: a number is known by its text, an object by its entries in order. *)
#[warnings="-register-all"]
Inductive Value :=
| VNull
| VBool (b : bool)
| VNumber (n : text)
| VString (s : text)
| VArray (l : list Value)
| VObject (entries : list (text * Value)).

Inductive OutputFormat := Table | Json | Csv.

(** [serde_json]'s two printers, the second of which may fail, and the tables of [comfy_table]:
    a header and rows. *)
Class Printers := {
  value_to_string : Value → text;
  to_string_pretty : Value → option text;
  table_to_string : list text → list (list text) → text;
}.

Definition format_to_string (f : OutputFormat) : text :=
  str match f with Table => "table" | Json => "json" | Csv => "csv" end.

Section printing.
Context {CT : CharTables} {PR : Printers}.

Definition format_from_str (s : text) : result text OutputFormat :=
  let lower := to_lowercase s in
  if bool_decide (lower = str "table") then Ok Table
  else if bool_decide (lower = str "json") then Ok Json
  else if bool_decide (lower = str "csv") then Ok Csv
  else Err (str "Unknown format '" ++ lower ++ str "'. Valid formats: table, json, csv").

Definition value_to_cell (value : Value) : text :=
  match value with
  | VNull => str "NULL"
  | VBool b => str (if b then "true" else "false")
  | VNumber n => n
  | VString s => s
  | VArray arr =>
    if (length arr <=? 3)%nat then value_to_string value
    else str "[" ++ show_nat (length arr) ++ str " items]"
  | VObject obj =>
    if (length obj <=? 3)%nat then value_to_string value
    else str "{" ++ show_nat (length obj) ++ str " fields}"
  end.

(** The keys of the rows that are objects, in the order they are met first. *)
Definition add_column (columns : list text) (key : text) : list text :=
  if contains columns key then columns else columns ++ [key].

Definition add_columns (columns : list text) (row : Value) : list text :=
  match row with VObject obj => foldl add_column columns obj.*1 | _ => columns end.

Definition columns_of (rows : list Value) : list text := foldl add_columns [] rows.

(** [row.get(col).unwrap_or(&Value::Null)] *)
Definition field (row : Value) (col : text) : Value :=
  match row with
  | VObject obj =>
    match list_find (λ e, e.1 = col) obj with Some (_, e) => e.2 | None => VNull end
  | _ => VNull
  end.

Definition format_array_table (rows : list Value) : text :=
  let columns := columns_of rows in
  if bool_decide (columns = []) then table_to_string [str "value"] ((λ item, [value_to_cell item]) <$> rows)
  else
    table_to_string columns ((λ row, (λ col, value_to_cell (field row col)) <$> columns) <$> rows) ++
    [newline] ++ str "(" ++ show_nat (length rows) ++
    str (if (length rows =? 1)%nat then " row" else " rows") ++ str ")".

Definition format_object_table (obj : list (text * Value)) : text :=
  table_to_string [str "Field"; str "Value"] ((λ e, [e.1; value_to_cell e.2]) <$> obj).

Definition format_table (value : Value) : text :=
  match value with
  | VArray (_ :: _ as rows) => format_array_table rows
  | VObject obj => format_object_table obj
  | other => value_to_string other
  end.

(** [s.replace(double_quote, two of them)] *)
Definition double_quotes (s : text) : text := s ≫= λ c, if c =? double_quote then [c; c] else [c].

Definition csv_escape_str (s : text) : text :=
  if bool_decide (comma ∈ s ∨ double_quote ∈ s ∨ newline ∈ s)
  then [double_quote] ++ double_quotes s ++ [double_quote] else s.

Definition csv_escape (value : Value) : text :=
  match value with
  | VNull => []
  | VString s => csv_escape_str s
  | other => csv_escape_str (value_to_string other)
  end.

Definition format_array_csv (rows : list Value) : text :=
  let columns := columns_of rows in
  join [comma] columns ++ [newline] ++
  (rows ≫= λ row, join [comma] ((λ col, csv_escape (field row col)) <$> columns) ++ [newline]).

Definition format_object_csv (obj : list (text * Value)) : text :=
  str "field,value" ++ [newline] ++
  (obj ≫= λ e, csv_escape_str e.1 ++ [comma] ++ csv_escape e.2 ++ [newline]).

Definition format_csv (value : Value) : text :=
  match value with
  | VArray (_ :: _ as rows) => format_array_csv rows
  | VObject obj => format_object_csv obj
  | other => value_to_string other
  end.

Definition format_json (value : Value) : text :=
  match to_string_pretty value with Some t => t | None => value_to_string value end.

Definition format_value (value : Value) (format : OutputFormat) : text :=
  match format with
  | Json => format_json value
  | Table => format_table value
  | Csv => format_csv value
  end.

End printing.

(** ** The client *)

Inductive ClientError :=
| HttpError (err : text)
| ServerError (status : N) (body : text)
| ParseError (msg : text).

(** The body of an execution is [{"query": ...}]. *)
Inductive Request :=
| PostQuery (url query : text)
| GetUrl (url : text).

(** The server's status and body, or why there is none, and [serde_json::from_str]. *)
Class Network := {
  send : Request → result text (N * text);
  value_from_str : text → result text Value;
}.

Definition client_error_to_string (e : ClientError) : text :=
  match e with
  | HttpError err => str "Connection error: " ++ err
  | ServerError status body => str "Server error (HTTP " ++ str (pretty status) ++ str "): " ++ body
  | ParseError msg => str "Parse error: " ++ msg
  end.

(** A client is known by its base URL. *)
Definition VqlClient_new (base_url : text) : text := trim_end_matches (N.eqb 47) base_url.

Section client.
Context {NW : Network}.

Definition handle_response (response : result text (N * text)) : result ClientError Value :=
  '(status, body) ← map_err HttpError response;
  if negb ((200 <=? status) && (status <? 300)) then Err (ServerError status body)
  else map_err ParseError (value_from_str body).

Definition execute_request (base_url query : text) : Request := PostQuery (base_url ++ str "/vql/execute") query.
Definition explain_request (base_url query : text) : Request :=
  PostQuery (base_url ++ str "/vql/execute") (str "EXPLAIN " ++ query).
Definition health_request (base_url : text) : Request := GetUrl (base_url ++ str "/health").

End client.

(** ** The session *)

Record Session := { se_base_url : text; se_format : OutputFormat; se_show_timing : bool }.

(** What the shell does: a request, or a line to one of its two outputs.  The fixed text of the
    help is left out, and so are the times. *)
Inductive Effect :=
| Sent (r : Request)
| Printed (t : text)
| Complained (t : text)
| PrintedHelp
| PrintedTime.

Section session.
Context {CT : CharTables} {PR : Printers} {CO : Colored} {NW : Network}.

Definition Session_new (host : text) (port : N) (format : OutputFormat) : Session :=
  {| se_base_url := VqlClient_new (str "http://" ++ host ++ str ":" ++ str (pretty port));
     se_format := format; se_show_timing := false |}.

Definition reconnect (addr : text) (s : Session) : Session * list Effect :=
  let base_url := if starts_with (str "http://") addr || starts_with (str "https://") addr then addr
                  else str "http://" ++ addr in
  let url := VqlClient_new base_url in
  ({| se_base_url := url; se_format := se_format s; se_show_timing := se_show_timing s |},
   [Printed (str "Connected to " ++ url)]).

Definition error_prefix : text := paint RedBold (str "Error:") ++ [space].

Definition timing (s : Session) : list Effect := if se_show_timing s then [PrintedTime] else [].

Definition execute_query (s : Session) (query : text) : list Effect :=
  if bool_decide (query = []) then []
  else
    let request := execute_request (se_base_url s) query in
    Sent request ::
    match handle_response (send request) with
    | Ok value => Printed (format_value value (se_format s)) :: timing s
    | Err e => [Complained (error_prefix ++ client_error_to_string e)]
    end.

(** [value.get("text_output").and_then(as_str)] *)
Definition text_output (value : Value) : option text :=
  match field value (str "text_output") with VString t => Some t | _ => None end.

Definition explain_query (s : Session) (query : text) : list Effect :=
  let request := explain_request (se_base_url s) query in
  Sent request ::
  match handle_response (send request) with
  | Ok value =>
    Printed (match text_output value with Some t => t | None => format_value value (se_format s) end) ::
    timing s
  | Err e => [Complained (error_prefix ++ client_error_to_string e)]
  end.

Definition check_status (s : Session) : list Effect :=
  let request := health_request (se_base_url s) in
  Sent request ::
  match handle_response (send request) with
  | Ok value => [Printed (format_value value (se_format s))]
  | Err e => [Complained (error_prefix ++ str "Server at " ++ se_base_url s ++ str " is unreachable: " ++
                          client_error_to_string e)]
  end.

(** [line.splitn(2, char::is_whitespace)]: the command, and the trimmed rest. *)
Definition command_of (line : text) : text * text :=
  let '(cmd, rest) := span (λ c, negb (is_whitespace c)) line in (cmd, trim (tail rest)).

Definition with_timing (b : bool) (s : Session) : Session :=
  {| se_base_url := se_base_url s; se_format := se_format s; se_show_timing := b |}.

Definition with_format (f : OutputFormat) (s : Session) : Session :=
  {| se_base_url := se_base_url s; se_format := f; se_show_timing := se_show_timing s |}.

(** The session after a command, what it does, and whether the shell ends. *)
Definition handle_meta_command (s : Session) (line : text) : Session * list Effect * bool :=
  let '(cmd, arg) := command_of line in
  let named w := bool_decide (cmd = str w) in
  if named "\quit" || named "\q" then (s, [Printed (str "Goodbye.")], true)
  else if named "\help" || named "\h" || named "\?" then (s, [PrintedHelp], false)
  else if named "\connect" then
    if bool_decide (arg = []) then
      (s, [Printed (str "Current connection: " ++ paint BrightCyan (se_base_url s));
           Printed (str "Usage: \connect <host:port>")], false)
    else (reconnect arg s, false)
  else if named "\explain" then
    if bool_decide (arg = []) then (s, [Printed (str "Usage: \explain <VQL query>")], false)
    else (s, explain_query s arg, false)
  else if named "\timing" then
    let s := with_timing (negb (se_show_timing s)) s in
    (s, [Printed (str "Timing display: " ++ str (if se_show_timing s then "on" else "off"))], false)
  else if named "\format" then
    if bool_decide (arg = []) then
      (s, [Printed (str "Current format: " ++ format_to_string (se_format s));
           Printed (str "Usage: \format <table|json|csv>")], false)
    else
      match format_from_str arg with
      | Ok fmt => (with_format fmt s, [Printed (str "Output format: " ++ format_to_string fmt)], false)
      | Err e => (s, [Complained (error_prefix ++ e)], false)
      end
  else if named "\status" then (s, check_status s, false)
  else (s, [Complained (error_prefix ++ str "Unknown command: " ++ cmd ++
                        str ". Type \help for available commands.")], false).

(** What [readline] returns. *)
Inductive Input := Line (line : text) | Interrupted | Eof | Failed (err : text).

Record Repl := { rp_session : Session; rp_query_buf : text }.

Definition with_buffer (buf : text) (r : Repl) : Repl :=
  {| rp_session := rp_session r; rp_query_buf := buf |}.

(** A line that is not blank, trimmed. *)
Definition on_line (r : Repl) (trimmed : text) : Repl * list Effect * bool :=
  let buf := rp_query_buf r in
  let is_empty := bool_decide (buf = []) in
  if ends_with backslash trimmed then
    (with_buffer ((if is_empty then buf else buf ++ [space]) ++ pop trimmed) r, [], false)
  else if negb is_empty then
    (with_buffer [] r, execute_query (rp_session r) (trim (buf ++ [space] ++ trimmed)), false)
  else if starts_with [backslash] trimmed then
    let '(s, effects, exit) := handle_meta_command (rp_session r) trimmed in
    ({| rp_session := s; rp_query_buf := buf |}, effects, exit)
  else (r, execute_query (rp_session r) (trim_end_matches (N.eqb semicolon) trimmed), false).

(** One turn of the loop: the shell after it, what it does, and whether the loop ends. *)
Definition repl_step (r : Repl) (input : Input) : Repl * list Effect * bool :=
  let is_empty := bool_decide (rp_query_buf r = []) in
  match input with
  | Line line =>
    let trimmed := trim line in
    if bool_decide (trimmed = []) then
      if is_empty then (r, [], false)
      else (with_buffer [] r, execute_query (rp_session r) (trim (rp_query_buf r)), false)
    else on_line r trimmed
  | Interrupted =>
    if is_empty then (r, [Printed (str "Use \quit or Ctrl-D to exit.")], false)
    else (with_buffer [] r, [Printed (str "Query cancelled.")], false)
  | Eof => (r, [Printed (str "Goodbye.")], true)
  | Failed err => (r, [Complained (str "Readline error: " ++ err)], true)
  end.

Fixpoint repl_loop (r : Repl) (inputs : list Input) : Repl * list Effect :=
  match inputs with
  | [] => (r, [])
  | input :: inputs =>
    let '(r, effects, exit) := repl_step r input in
    if exit then (r, effects)
    else let '(r, more) := repl_loop r inputs in (r, effects ++ more)
  end.

(** One line of the start-up file: the answer that the shell should end is dropped. *)
Definition vqlrc_line (st : Session * list Effect) (line : text) : Session * list Effect :=
  let '(s, effects) := st in
  let trimmed := trim line in
  if bool_decide (trimmed = []) || starts_with (str "#") trimmed then st
  else if starts_with [backslash] trimmed then
    let '(s, more, _) := handle_meta_command s trimmed in (s, effects ++ more)
  else (s, effects ++ [Sent (execute_request (se_base_url s) trimmed)]).

(** [contents] are the lines of the file, if there is one. *)
Definition load_vqlrc (contents : option (list text)) (s : Session) : Session * list Effect :=
  match contents with
  | None => (s, [])
  | Some lines => foldl vqlrc_line (s, []) lines
  end.

End session.

(** ** A CSV file reads back *)

(** A reader of CSV as RFC 4180 describes it, with lines that end in a line feed: the field being
    read, the fields of the line and the lines before it. *)
Inductive reader_state := FieldStart | Unquoted | Quoted | QuoteInQuoted.

Record reader := { rd_state : reader_state; rd_field : text; rd_line : list text; rd_lines : list (list text) }.

Definition reader_new : reader := {| rd_state := FieldStart; rd_field := []; rd_line := []; rd_lines := [] |}.

Definition end_field (r : reader) : reader :=
  {| rd_state := FieldStart; rd_field := []; rd_line := rd_line r ++ [rd_field r]; rd_lines := rd_lines r |}.

Definition end_line (r : reader) : reader :=
  {| rd_state := FieldStart; rd_field := []; rd_line := [];
     rd_lines := rd_lines r ++ [rd_line r ++ [rd_field r]] |}.

Definition read_into (st : reader_state) (k : text) (r : reader) : reader :=
  {| rd_state := st; rd_field := rd_field r ++ k; rd_line := rd_line r; rd_lines := rd_lines r |}.

Definition read_char (r : reader) (c : char) : reader :=
  match rd_state r with
  | Quoted => if c =? double_quote then read_into QuoteInQuoted [] r else read_into Quoted [c] r
  | QuoteInQuoted =>
    if c =? double_quote then read_into Quoted [c] r
    else if c =? comma then end_field r
    else if c =? newline then end_line r
    else read_into Unquoted [c] r
  | FieldStart | Unquoted =>
    if c =? comma then end_field r
    else if c =? newline then end_line r
    else if (c =? double_quote) && match rd_state r with FieldStart => true | _ => false end
      then read_into Quoted [] r
    else read_into Unquoted [c] r
  end.

Definition read_csv (l : text) : list (list text) := rd_lines (foldl read_char reader_new l).

Section csv.
Context {CT : CharTables} {PR : Printers}.

Definition at_start (line : list text) (lines : list (list text)) : reader :=
  {| rd_state := FieldStart; rd_field := []; rd_line := line; rd_lines := lines |}.

Lemma read_plain s : ∀ r,
  comma ∉ s → newline ∉ s → double_quote ∉ s → (rd_state r = FieldStart ∨ rd_state r = Unquoted) →
  ∃ st, (st = FieldStart ∨ st = Unquoted) ∧ foldl read_char r s = read_into st s r.
Proof.
  induction s as [|c s IH]; intros r Hc Hn Hq Hs.
  { exists (rd_state r). split; [done|]. cbn. unfold read_into. rewrite app_nil_r. by destruct r. }
  apply not_elem_of_cons in Hc as [Hc1 Hc], Hn as [Hn1 Hn], Hq as [Hq1 Hq]. cbn [foldl].
  assert (read_char r c = read_into Unquoted [c] r) as ->.
  { unfold read_char. rewrite (proj2 (N.eqb_neq c comma)), (proj2 (N.eqb_neq c newline)),
      (proj2 (N.eqb_neq c double_quote)) by congruence. by destruct Hs as [-> | ->]. }
  destruct (IH (read_into Unquoted [c] r) Hc Hn Hq) as (st & Hst & E); [by right|].
  exists st. split; [done|]. rewrite E. unfold read_into. cbn. by rewrite <- app_assoc.
Qed.

Lemma read_quoted s : ∀ r,
  rd_state r = Quoted → foldl read_char r (double_quotes s) = read_into Quoted s r.
Proof.
  unfold double_quotes. induction s as [|c s IH]; intros r Hs.
  { cbn. unfold read_into. rewrite app_nil_r, <- Hs. by destruct r. }
  cbn [mbind list_bind]. rewrite foldl_app.
  assert (∀ k, k = (if c =? double_quote then [c; c] else [c]) →
               foldl read_char r k = read_into Quoted [c] r) as E.
  { intros k ->. destruct (c =? double_quote) eqn:Ec; cbn [foldl].
    - assert (read_char r c = read_into QuoteInQuoted [] r) as -> by (unfold read_char; by rewrite Hs, Ec).
      unfold read_char. cbn [rd_state read_into]. rewrite Ec. unfold read_into. cbn. by rewrite app_nil_r.
    - unfold read_char. by rewrite Hs, Ec. }
  trans (foldl read_char (read_into Quoted [c] r) (double_quotes s)).
  { exact (f_equal (λ x, foldl read_char x (double_quotes s)) (E _ eq_refl)). }
  unfold double_quotes. rewrite IH by done. unfold read_into. cbn. by rewrite <- app_assoc.
Qed.

(** An escaped field is read as the field, whatever it holds. *)
Lemma read_escaped s line lines d :
  d = comma ∨ d = newline →
  foldl read_char (at_start line lines) (csv_escape_str s ++ [d]) =
  if d =? comma then at_start (line ++ [s]) lines else at_start [] (lines ++ [line ++ [s]]).
Proof.
  intros Hd. rewrite foldl_app. unfold csv_escape_str. case_bool_decide as Hs.
  - cbn [app foldl]. rewrite foldl_app.
    assert (read_char (at_start line lines) double_quote = read_into Quoted [] (at_start line lines)) as -> by done.
    rewrite read_quoted by done. destruct Hd as [-> | ->]; cbn; unfold end_field, end_line; cbn; by rewrite app_nil_r.
  - assert ((comma ∉ s) ∧ (double_quote ∉ s) ∧ newline ∉ s) as (Hc & Hq & Hn) by tauto.
    destruct (read_plain s (at_start line lines)) as (st & Hst & ->); [done..|by left|].
    destruct Hd as [-> | ->], Hst as [-> | ->]; done.
Qed.

Lemma read_line fields : ∀ line lines,
  fields ≠ [] →
  foldl read_char (at_start line lines) (join [comma] (csv_escape_str <$> fields) ++ [newline]) =
  at_start [] (lines ++ [line ++ fields]).
Proof.
  induction fields as [|s fields IH]; intros line lines Hne; [done|]. destruct fields as [|s' fields].
  - apply (read_escaped s line lines newline). by right.
  - change (join [comma] (csv_escape_str <$> s :: s' :: fields)) with
      (csv_escape_str s ++ [comma] ++ join [comma] (csv_escape_str <$> s' :: fields)).
    rewrite <- app_assoc, <- app_assoc, (app_assoc (csv_escape_str s)), foldl_app.
    rewrite (read_escaped s line lines comma) by by left. rewrite N.eqb_refl, IH by done.
    by rewrite <- app_assoc.
Qed.

(** The text of a field. *)
Definition cell_text (value : Value) : text :=
  match value with VNull => [] | VString s => s | other => value_to_string other end.

Lemma csv_escape_cell value : csv_escape value = csv_escape_str (cell_text value).
Proof. by destruct value. Qed.

Definition row_texts (columns : list text) (row : Value) : list text :=
  (λ col, cell_text (field row col)) <$> columns.

Lemma read_rows columns rows : ∀ lines,
  columns ≠ [] →
  foldl read_char (at_start [] lines)
    (rows ≫= λ row, join [comma] ((λ col, csv_escape (field row col)) <$> columns) ++ [newline]) =
  at_start [] (lines ++ (row_texts columns <$> rows)).
Proof.
  induction rows as [|row rows IH]; intros lines Hc; [cbn; by rewrite app_nil_r|].
  cbn [mbind list_bind]. rewrite foldl_app.
  assert ((λ col, csv_escape (field row col)) <$> columns = csv_escape_str <$> row_texts columns row) as ->.
  { unfold row_texts. rewrite <- list_fmap_compose. apply list_fmap_ext. intros. apply csv_escape_cell. }
  rewrite read_line by by destruct columns. rewrite IH by done. cbn. by rewrite <- app_assoc.
Qed.

Lemma plain_header columns :
  Forall (λ c, bool_decide (comma ∈ c ∨ double_quote ∈ c ∨ newline ∈ c) = false) columns →
  csv_escape_str <$> columns = columns.
Proof.
  induction 1 as [|c columns Hc Hf IH]; [done|]. cbn. unfold csv_escape_str at 1. by rewrite Hc, IH.
Qed.

(** A CSV file of rows reads back as its header and its fields, if no column's name has to be
    escaped: the names are written as they are. *)
Theorem csv_roundtrip rows :
  columns_of rows ≠ [] →
  Forall (λ c, bool_decide (comma ∈ c ∨ double_quote ∈ c ∨ newline ∈ c) = false) (columns_of rows) →
  read_csv (format_array_csv rows) = columns_of rows :: (row_texts (columns_of rows) <$> rows).
Proof.
  intros Hne Hf. unfold read_csv, format_array_csv. rewrite app_assoc, foldl_app.
  rewrite <- (plain_header _ Hf) at 1. change reader_new with (at_start [] []).
  rewrite read_line, read_rows by done. done.
Qed.

End csv.

(** ** What the session sends *)

Section sends.
Context {CT : CharTables} {PR : Printers} {CO : Colored} {NW : Network}.

Definition continuation (line : text) : Prop := ends_with backslash (trim line) = true.

Definition is_sent (e : Effect) : bool := match e with Sent _ => true | _ => false end.

Lemma continuation_nonblank line : continuation line → trim line ≠ [].
Proof. unfold continuation. by destruct (trim line). Qed.

Lemma on_continuation r line :
  continuation line → rp_query_buf r ≠ [] →
  repl_step r (Line line) = (with_buffer (rp_query_buf r ++ [space] ++ pop (trim line)) r, [], false).
Proof.
  intros Hc Hb. unfold repl_step. rewrite bool_decide_false by by apply continuation_nonblank.
  unfold on_line. unfold continuation in Hc. rewrite Hc, bool_decide_false by done. by rewrite <- app_assoc.
Qed.

Lemma join_snoc sep p ps x : join sep (p :: ps ++ [x]) = join sep (p :: ps) ++ sep ++ x.
Proof.
  revert p. induction ps as [|q ps IH]; intros p; [done|].
  change (join sep (p :: (q :: ps) ++ [x])) with (p ++ sep ++ join sep (q :: ps ++ [x])).
  rewrite IH. change (join sep (p :: q :: ps)) with (p ++ sep ++ join sep (q :: ps)).
  by rewrite <- !app_assoc.
Qed.

Lemma continue_lines cs : ∀ r,
  Forall continuation cs → rp_query_buf r ≠ [] →
  repl_loop r (Line <$> cs) =
  (with_buffer (join [space] (rp_query_buf r :: (pop ∘ trim <$> cs))) r, []).
Proof.
  induction cs as [|c cs IH]; intros r Hf Hb.
  { cbn. by destruct r. }
  apply Forall_cons in Hf as [Hc Hf]. cbn [fmap list_fmap repl_loop].
  rewrite on_continuation by done. rewrite IH; [|done|by destruct (rp_query_buf r)].
  cbn [rp_query_buf with_buffer]. unfold with_buffer. cbn [rp_session]. do 2 f_equal.
  destruct (pop ∘ trim <$> cs) as [|p ps]; cbn [join]; by rewrite <- ?app_assoc.
Qed.

Lemma repl_loop_app inputs : ∀ r more r' effects,
  Forall (λ i, ∃ line, i = Line line ∧ continuation line) inputs →
  repl_loop r inputs = (r', effects) →
  repl_loop r (inputs ++ more) = ((repl_loop r' more).1, effects ++ (repl_loop r' more).2).
Proof.
  induction inputs as [|i inputs IH]; intros r more r' effects Hf H.
  { injection H as <- <-. cbn [app]. by destruct (repl_loop r more). }
  apply Forall_cons in Hf as [(line & -> & Hc) Hf]. cbn [app repl_loop] in *.
  assert (∃ r1, repl_step r (Line line) = (r1, [], false)) as [r1 E].
  { unfold repl_step. rewrite bool_decide_false by by apply continuation_nonblank.
    unfold on_line. unfold continuation in Hc. rewrite Hc. eauto. }
  rewrite E in *. destruct (repl_loop r1 inputs) as [r2 e2] eqn:E2. injection H as <- <-.
  by rewrite (IH _ _ _ _ Hf E2).
Qed.

(** Lines that end in a backslash and a last one that does not are sent as one query: the lines
    without their backslash and white space around them, separated by spaces.  Whatever the last
    line ends in is sent, semicolons too; a query on one line is sent without them. *)
Theorem lines_make_one_query s first cs line :
  continuation first → Forall continuation cs → pop (trim first) ≠ [] →
  trim line ≠ [] → ¬ continuation line →
  repl_loop {| rp_session := s; rp_query_buf := [] |} (Line <$> (first :: cs) ++ [line]) =
  ({| rp_session := s; rp_query_buf := [] |},
   execute_query s (trim (join [space] ((pop ∘ trim <$> first :: cs) ++ [trim line])))).
Proof.
  intros Hf Hcs Hne Hl Hc. set (r := {| rp_session := s; rp_query_buf := [] |}).
  assert (repl_step r (Line first) = (with_buffer (pop (trim first)) r, [], false)) as E1.
  { unfold repl_step. rewrite (bool_decide_false (trim first = [])) by by apply continuation_nonblank.
    unfold on_line. unfold continuation in Hf. by rewrite Hf. }
  pose proof (continue_lines cs (with_buffer (pop (trim first)) r) Hcs Hne) as E2.
  cbn [rp_query_buf with_buffer] in E2. set (buf := join [space] (pop (trim first) :: (pop ∘ trim <$> cs))) in E2.
  assert (buf ≠ []) as Hbuf.
  { unfold buf. destruct (pop ∘ trim <$> cs); cbn [join]; [done|]. by destruct (pop (trim first)). }
  rewrite fmap_app. cbn [fmap list_fmap app repl_loop]. rewrite E1.
  assert (Forall (λ i, ∃ line, i = Line line ∧ continuation line) (Line <$> cs)) as Hin.
  { apply Forall_fmap. refine (Forall_impl _ _ _ Hcs _). intros c Hc'. by exists c. }
  rewrite (repl_loop_app _ _ [Line line] _ _ Hin E2). cbn [app repl_loop].
  assert (repl_step (with_buffer buf (with_buffer (pop (trim first)) r)) (Line line) =
          (r, execute_query s (trim (buf ++ [space] ++ trim line)), false)) as ->.
  { unfold repl_step. rewrite (bool_decide_false (trim line = [])) by done. unfold on_line.
    unfold continuation in Hc. apply not_true_iff_false in Hc. rewrite Hc.
    cbn [rp_query_buf with_buffer]. by rewrite bool_decide_false by done. }
  cbn [fst snd app]. rewrite app_nil_r. do 3 f_equal. unfold buf. clear.
  symmetry. apply join_snoc.
Qed.

Lemma one_line_query s line :
  trim line ≠ [] → ¬ continuation line → starts_with [backslash] (trim line) = false →
  repl_step {| rp_session := s; rp_query_buf := [] |} (Line line) =
  ({| rp_session := s; rp_query_buf := [] |},
   execute_query s (trim_end_matches (N.eqb semicolon) (trim line)), false).
Proof.
  intros Hl Hc Hb. unfold repl_step. rewrite (bool_decide_false (trim line = [])) by done. unfold on_line.
  unfold continuation in Hc. apply not_true_iff_false in Hc. by rewrite Hc, Hb.
Qed.

(** ** The address of the server *)

Definition slash : char := 47.

Definition session_ok (s : Session) : Prop := ends_with slash (se_base_url s) = false.

Lemma client_no_slash base_url : ends_with slash (VqlClient_new base_url) = false.
Proof.
  unfold VqlClient_new, trim_end_matches, ends_with. rewrite last_reverse.
  induction (reverse base_url) as [|c l IH]; [done|]. cbn [drop_while].
  destruct (47 =? c) eqn:E; [exact IH|]. exact E.
Qed.

Lemma command_session_ok s line : session_ok s → session_ok (handle_meta_command s line).1.1.
Proof.
  intros Hs. unfold handle_meta_command. destruct (command_of line) as [cmd arg].
  repeat case_match; try done. apply client_no_slash.
Qed.

(** A request to the API of a server. *)
Definition request_to (url : text) (r : Request) : Prop :=
  (∃ query, r = execute_request url query ∨ r = explain_request url query) ∨ r = health_request url.

Definition sends_to (url : text) (effects : list Effect) : Prop :=
  (length (filter (λ e, is_sent e = true) effects) ≤ 1)%nat ∧
  ∀ q, Sent q ∈ effects → request_to url q.

Lemma sends_nothing url effects : Forall (λ e, is_sent e = false) effects → sends_to url effects.
Proof.
  intros Hf. split.
  - rewrite filter_none; [cbn; lia|]. refine (Forall_impl _ _ _ Hf _). intros e He. by rewrite He.
  - intros q Hq. rewrite Forall_forall in Hf. by apply Hf in Hq.
Qed.

Lemma sends_one url q effects :
  request_to url q → Forall (λ e, is_sent e = false) effects → sends_to url (Sent q :: effects).
Proof.
  intros Hq Hf. destruct (sends_nothing url effects Hf) as [_ Hn]. split.
  - rewrite filter_cons, decide_True by done. rewrite filter_none; [cbn; lia|].
    refine (Forall_impl _ _ _ Hf _). intros e He. by rewrite He.
  - intros q' [[= ->]|Hin]%elem_of_cons; [done|by apply Hn].
Qed.

Lemma timing_sends_nothing s : Forall (λ e, is_sent e = false) (timing s).
Proof. unfold timing. case_match; by repeat constructor. Qed.

Lemma execute_sends s query : sends_to (se_base_url s) (execute_query s query).
Proof.
  unfold execute_query. case_bool_decide; [by apply sends_nothing|].
  apply sends_one; [left; eauto|]. destruct (handle_response _).
  - constructor; [done|apply timing_sends_nothing].
  - by repeat constructor.
Qed.

Lemma explain_sends s query : sends_to (se_base_url s) (explain_query s query).
Proof.
  unfold explain_query. apply sends_one; [left; eauto|]. destruct (handle_response _).
  - constructor; [done|apply timing_sends_nothing].
  - by repeat constructor.
Qed.

Lemma status_sends s : sends_to (se_base_url s) (check_status s).
Proof.
  unfold check_status. apply sends_one; [by right|]. destruct (handle_response _); by repeat constructor.
Qed.

Lemma command_sends s line : sends_to (se_base_url s) (handle_meta_command s line).1.2.
Proof.
  unfold handle_meta_command. destruct (command_of line) as [cmd arg].
  repeat case_match; cbn [fst snd]; try apply explain_sends; try apply status_sends;
    apply sends_nothing; by repeat constructor.
Qed.

(** Whatever is typed, a turn sends one request at most, to the API of the session's server,
    whose address never ends in a slash. *)
Theorem turn_sends r input :
  session_ok (rp_session r) →
  session_ok (rp_session (repl_step r input).1.1) ∧
  sends_to (se_base_url (rp_session r)) (repl_step r input).1.2.
Proof.
  intros Hs. unfold repl_step. destruct input as [line| | |e];
    [|split; [|apply sends_nothing]; by repeat case_match; repeat constructor..].
  case_bool_decide; [case_match; (split; [done|]); [by apply sends_nothing|apply execute_sends]|].
  unfold on_line. destruct (ends_with _ _); [split; [done|by apply sends_nothing]|].
  destruct (negb _); [split; [done|apply execute_sends]|]. destruct (starts_with _ _).
  - pose proof (command_session_ok _ (trim line) Hs). pose proof (command_sends (rp_session r) (trim line)).
    destruct (handle_meta_command _ _) as [[s effects] exit]. done.
  - split; [done|apply execute_sends].
Qed.

End sends.

(** ** Concrete results *)

(** Tables that change nothing, and printers of which only the numbers' matters. *)
Definition no_tables : CharTables :=
  {| is_alphabetic := λ _, false; is_numeric := λ _, false; is_uppercase := λ _, false;
     to_uppercase := λ t, t; to_lowercase := λ t, t |}.

Definition number_printers : Printers :=
  {| value_to_string := λ v, match v with VNumber n => n | _ => [] end;
     to_string_pretty := λ _, None; table_to_string := λ _ _, [] |}.

#[local] Existing Instance no_tables.
#[local] Existing Instance number_printers.

Definition some_rows : list Value :=
  [VObject [(str "id", VString (str "a,b")); (str "score", VNumber (str "0.95"))];
   VObject [(str "note", VString (str "two" ++ [newline] ++ str "lines"))]].

Lemma csv_roundtrip_witness :
  read_csv (format_array_csv some_rows) =
  [[str "id"; str "score"; str "note"]; [str "a,b"; str "0.95"; []];
   [[]; []; str "two" ++ [newline] ++ str "lines"]].
Proof.
  assert (columns_of some_rows = [str "id"; str "score"; str "note"]) as E by (vm_compute; reflexivity).
  rewrite csv_roundtrip; rewrite E.
  - vm_compute. reflexivity.
  - discriminate.
  - repeat (apply List.Forall_cons; [vm_compute; reflexivity|]). apply List.Forall_nil.
Defined.

(** A column whose name holds a comma becomes two. *)
Example header_not_escaped :
  head (read_csv (format_array_csv [VObject [(str "a,b", VNumber (str "1"))]])) = Some [str "a"; str "b"].
Proof. vm_compute. reflexivity. Qed.

(** What two lines, the first with a backslash at its end, send. *)
Definition silent : Network := {| send := λ _, Err (str "refused"); value_from_str := λ _, Err [] |}.
Definition plain_text : Colored := {| paint := λ _ t, t |}.

#[local] Existing Instance silent.
#[local] Existing Instance plain_text.

Definition local_session : Session := Session_new (str "localhost") 8080 Table.

Lemma lines_make_one_query_witness :
  head (repl_loop {| rp_session := local_session; rp_query_buf := [] |}
          [Line (str "SELECT GRAPH \"); Line (str " LIMIT 5; ")]).2 =
  Some (Sent (PostQuery (str "http://localhost:8080/vql/execute") (str "SELECT GRAPH  LIMIT 5;"))).
Proof.
  change [Line (str "SELECT GRAPH \"); Line (str " LIMIT 5; ")] with
    (Line <$> [str "SELECT GRAPH \"] ++ [str " LIMIT 5; "]).
  rewrite (lines_make_one_query local_session (str "SELECT GRAPH \") [] (str " LIMIT 5; ")).
  - vm_compute. reflexivity.
  - vm_compute. reflexivity.
  - constructor.
  - vm_compute. discriminate.
  - vm_compute. discriminate.
  - vm_compute. discriminate.
Defined.

Lemma turn_sends_witness :
  let r := {| rp_session := local_session; rp_query_buf := [] |} in
  session_ok (rp_session (repl_step r (Line (str "\connect http://db:1//"))).1.1).
Proof. intros r. apply (turn_sends r (Line (str "\connect http://db:1//"))). vm_compute. reflexivity. Defined.
